(* ===== verification/_CoqProject ===== *)
-Q . S2P
Prelude.v
LruCache.v
NetTypes.v
Firewall.v
FirewallReset.v
FirewallProps.v
FirewallResetProps.v
WgTypes.v
LinkDetection.v
Wg.v
WgProps.v
WgDevice.v
Controller.v
ControllerProps.v
Consolidation.v
ConsolidationProps.v
Integration.v
Crypto.v
NetText.v
Proto.v
ProtoProps.v
Derp.v
PingPong.v
Backoff.v
CrossPing.v
CrossPingProps.v
UpgradeSync.v
UpgradeSyncProps.v
PostQuantum.v
DeviceTypes.v
Device.v
DeviceFrame.v
DeviceProps.v
DeviceIntegration.v
Checksum.v
PacketViews.v
StarcastNat.v
StarcastNatProps.v
StarcastChecksums.v
Starcast.v
StarcastProps.v
Relay.v
RelayProps.v
Aggregator.v
Heartbeat.v
HeartbeatProps.v
Qos.v
QosProps.v
Stun.v
StunProps.v
Uapi.v
UapiProps.v
SessionKeeper.v
Proxy.v
ProxyProps.v
Providers.v
ProvidersProps.v
DnsPackets.v
Dns.v
DnsProps.v
