(* ===== verification/Prelude.v ===== *)
(** * libtelio: a verification development

    libtelio is a library for encrypted networking between the devices of a
    user: a WireGuard interface whose peers are other devices (the meshnet),
    VPN servers and virtual peers inside the library.  This development models
    the part that decides which packets pass and how the WireGuard interface
    is configured, the part by which two devices find a direct path between
    them, the protocols they speak for it, the connection to the relay servers,
    multicast between the devices and the analytics, and proves what these
    parts promise.

    ** The parts and how they interact

    The controller ([src/src/device/wg_controller.rs]) is called whenever
    something changed.  It compares the state the application asked for with
    the state of the components, and brings them in line.  It builds the list
    of peers that WireGuard should have, writes the difference to the WireGuard
    task ([src/crates/telio-wg/src/wg.rs]) and sets the permissions of the
    packet filter ([src/crates/telio-firewall/src/firewall.rs]).  The
    WireGuard task keeps a copy of the interface, sends changes to an adapter
    (the WireGuard implementation proper), polls the adapter, and reports what
    happened as events; link detection
    ([src/crates/telio-wg/src/link_detection.rs]) watches the traffic counters
    of its peers.  The packet filter sees every packet of the tunnel.  It
    remembers the connections that this device opened in timed LRU caches
    ([src/crates/telio-utils/src/lru_cache.rs]), so that it can let the replies
    in.

    Two devices first reach each other through a relay server, with the frames
    of [src/crates/telio-relay/src/derp/proto.rs] around the packets of
    [src/crates/telio-proto].  The cross ping check
    ([src/crates/telio-traversal/src/connectivity_check/cross_ping_check.rs])
    asks the other device for its addresses over the relay and has them pinged;
    the pings and pongs are encrypted ([src/crates/telio-crypto]) and handled by
    [ping_pong_handler.rs].  A path that answers is reported to the controller,
    which asks for the upgrade of the connection; the upgrade synchronisation
    ([src/crates/telio-traversal/src/upgrade_sync.rs]) makes both sides switch
    to the same path.  The addresses of a device come from the endpoint
    providers ([endpoint_providers/stun.rs], [local.rs], [upnp.rs]), the session
    keeper ([session_keeper.rs]) keeps a path open, and until there is one the
    proxy ([src/crates/telio-proxy/src/proxy.rs]) carries the packets of WireGuard
    to the relay and back.  The resolver ([src/crates/telio-dns]) is a virtual
    peer that answers the names of the devices and forwards the others.

    The runtime of the device ([src/src/device.rs]) holds all of them.  It
    stores what the application asks for, starts and stops the components of
    the meshnet, opens and closes the post-quantum tunnel
    ([src/crates/telio-pq/src/entity.rs]), calls the controller after every
    change, and turns what the components report into events.

    The connection to a relay server is made and kept by a task of its own
    ([src/crates/telio-relay/src/derp.rs], [derp/http.rs]).  Multicast traffic
    does not cross WireGuard; a virtual peer ([src/crates/telio-starcast])
    carries it between the devices in datagrams, and translates addresses so
    that the answers find their way back.  The nurse
    ([src/crates/telio-nurse]) collects what the devices of a meshnet know of
    each other: the heartbeat asks the other nodes, the aggregator keeps the
    times of the connections, the service quality task measures them, and the
    nurse reports all of it to the analytics library.

    ** The files

    - [Prelude]: results, the action monad [act] for code that threads state
      and errors, loops over sets in an unspecified order ([HashOrder]), and
      lemmas on lists and machine integers.
    - [LruCache]: the whole cache, over an interface for [hashlink].
    - [NetTypes]: addresses of [std::net], public keys, and the interface to the
      packet views of [pnet_packet].
    - [Firewall], [FirewallReset]: the packet filter.  The state is the record
      [StatefullFirewall]; there is one definition per handler and per method of
      the trait, [process_inbound_packet] and [process_outbound_packet] being
      the entry points, and [reset_connections] writing the packets that end
      the connections through an exit node.
    - [FirewallProps], [FirewallResetProps]: their theorems.
    - [WgTypes]: keys, peers, interfaces and events.
    - [LinkDetection]: byte counters, the link state machine of a peer and the
      detector, with theorems.  A counter that the task and the detector share
      is a cell of a heap.
    - [Wg]: the WireGuard task, its record [State], [update], [sync], [wait]
      and one definition per request.
    - [WgProps]: the invariant of the task and the effect of its requests.
      [WgDevice]: what its commands do to a device.
    - [Controller]: the requested state and the decisions of the controller that
      need no component, and the consolidation of the packet filter against the
      interface [FirewallApi].
    - [ControllerProps]: theorems on those, and the instance [StatefullFirewall_laws],
      by which the packet filter of [Firewall] meets the interface.
    - [Consolidation]: the rest of the controller, against the interface
      [Entities], which has one operation for each method the controller calls.
    - [ConsolidationProps]: theorems about it, from the contracts [EntitiesLaws]
      and [Reliable].
    - [Integration]: the WireGuard task of [Wg] meets the contracts
      ([World_laws], [World_reliable]), and runs of the whole.
    - [Crypto]: the text forms of keys and the encryption of requests and
      responses, over interfaces for the codecs and the ciphers, with theorems.
    - [NetText]: the text forms of socket addresses in [std::net].
    - [Proto]: every packet with its encoder and decoder, over an interface for
      the generated protobuf code; [ProtoProps]: their theorems.
    - [Derp]: the frames of the relay protocol, the loops that read and write
      them, and the key exchange, with theorems.
    - [PingPong]: the handler of pings and pongs, and a ping across two nodes.
    - [Backoff]: the exponential backoff, with its theorem.
    - [CrossPing]: the state machine of a session ([session_tick],
      [session_pong], [session_cmm_response]) and the component, its record
      [CpcState], with one definition per event and per method of its traits.
    - [CrossPingProps]: the invariant of the component, and that a check makes
      progress.
    - [UpgradeSync]: the upgrade synchronisation, its record [UpgradeState], one
      definition per message and per method, against the interface
      [UpgradeController], which the cross ping check implements.
    - [UpgradeSyncProps]: two nodes with their messages as a step relation, and
      the composition of the two components.
    - [PostQuantum]: the entity behind a post-quantum tunnel, and the world of
      the controller with that entity in it.
    - [DeviceTypes]: nodes, configurations and features as the runtime sees
      them, nicknames, and the DNS records of a configuration.
    - [Device]: the runtime, its record [Runtime], with one definition per call
      and per branch of the event loop; [rt_exec] is one input.  What it uses of
      the components besides [Entities] is the interface [DeviceOps].
    - [DeviceFrame]: what the consolidation and the runtime leave alone.
    - [DeviceProps]: the abstract machine that the runtime implements, and the
      theorems that follow.  [DeviceIntegration]: the runtime over the
      WireGuard task of [Wg], and runs of it.
    - [Checksum]: the incremental update of header checksums, with its theorem.
    - [PacketViews]: packets that are rewritten in place, as header layouts.
    - [StarcastNat]: the translation of addresses, over the cache of [LruCache];
      [StarcastNatProps], [StarcastChecksums]: its theorems.
    - [Starcast]: the transport task and the virtual peer; [StarcastProps]: two
      nodes that exchange multicast, and the permissions.
    - [Relay]: the task that connects to the relay servers, the loop that tries
      them, the handshake, and what is encrypted on the way; [RelayProps]: its
      theorems.
    - [Aggregator]: the segments of the connections to peers and relays, with
      theorems.
    - [Heartbeat]: the heartbeat task, its record [HbState], one definition per
      event and message; [hb_step] is one branch of its loop.
      [HeartbeatProps]: its theorems.
    - [Qos]: the service quality task with the pings it runs, and the nurse over
      both tasks; [QosProps]: their theorems.
    - [Stun]: the STUN endpoint provider, its record [StunProvider]; [stun_step]
      is one branch of its loop.  [StunProps]: its theorems.
    - [Providers]: the local and the UPnP endpoint provider; [ProvidersProps]:
      their theorems.
    - [Uapi]: the text protocol of WireGuard and the adapters made of it;
      [UapiProps]: their theorems.
    - [SessionKeeper]: the session keeper and the repeated actions, with theorems.
    - [Proxy]: the two tasks of the proxy, whose steps interleave; [ProxyProps]:
      their theorems.
    - [DnsPackets]: packet headers with fields of bits.  [Dns]: the resolver, its
      record [LocalDnsResolver], the zones, and the tasks of the queries as steps
      that interleave ([dns_step]); [DnsProps]: its theorems.

    ** What is shown

    The cache: under a clock that does not go back it stays within its
    capacity, ordered by last access; the length computed by dropping a prefix
    is the length found by a scan; lookups agree and never return an expired
    value; and an entry survives as many operations on other keys as the
    capacity allows.

    The packet filter, in every state that a history of packets and
    configuration calls can reach: a packet that is let in is authorised by a
    permission of its sender or answers a packet that was sent; the answer to a
    packet that was let out is let in for the time to live, whatever fewer
    operations than a cache has room for happen in between; the caches and
    the recorded packet heads keep their bounds; the verdict on an outbound
    packet in full; and a reset injects exactly the packets that the tracked
    connections call for, although it reuses its buffers.

    The WireGuard task, in every state that requests and polls can reach: the
    events it sent describe exactly the peers it has, and the counters and the
    detector belong to those peers; [add_peer] configures one peer or refuses
    it; a push that the adapter accepts programs the peers of a device that
    follows the cross-platform protocol, for every change the command can express; a
    poll without news changes nothing.  A link is reported down only after a
    silence, and the reports of a link alternate.

    The controller: addresses are shared out once; the check of the allowed IPs
    is exact, and the meshnet list passes it; the packet filter ends up with
    the permissions that the configuration grants, its verdicts on new
    connections and forwarded packets are exactly those permissions, and what it
    lets in is granted by them or solicited; a consolidation that succeeds leaves WireGuard with exactly
    the requested peers; and it does succeed unless the requested list is
    inconsistent or a peer is to take over an address from one that stays.
    The last case is a defect that a theorem exhibits, as is the effect of
    batched keepalives on direct connections.

    The protocols: keys, addresses, encrypted messages, packets and frames are
    read back as they were written, in any sequence that a stream can carry; a
    data message keeps its layout whatever is done to it; and where malformed
    input makes the code panic, the theorems say so.

    The direct path: a ping that is answered comes back as one event with what
    the other side sent; the cross ping check always has at most one session for
    each peer and local endpoint, and exactly one while the drawn session numbers
    and the reported endpoints are distinct; a round of it ends with a validated endpoint,
    and no session is given up; two nodes that ask for an upgrade at the same
    time agree on one of the two requests under every interleaving; and an
    upgrade is granted only for a session that the same peer announced.

    The runtime, under every sequence of calls and events and whatever the
    components answer: it goes through moves of an abstract machine, so a
    meshnet and a post-quantum tunnel exclude each other and every event about
    a node is news; the DNS records of a configuration in full; and three
    defects: the IP stack of the node never reaches the WireGuard task, an exit
    node outlives its peer, and a disconnection that fails half way blocks the
    meshnet.

    Multicast: an updated checksum is the one a recomputation gives; a reply
    that arrives at a translated port goes to the node that sent from it, the
    two directions of the translation are inverse, the search for a free port
    ends within 129 probes, and packets that a receiver accepts keep right
    checksums; a query of a permitted node is delivered and its answer goes back
    to that node as long as its mapping lives; and nothing crosses the
    permissions.  Examples exhibit a checksum of UDP that the translation makes
    vanish and a header checksum of zero that it does not update.

    The relay: the events of the task follow the protocol of connections for
    one server at a time, and a key of too many bytes in a response is all that
    makes it panic; the loop connects at the first attempt that succeeds;
    what is sent arrives as the same packet, encrypted on the way; and
    theorems exhibit a key change that keeps the old connection, an interval of
    zero that panics, and a response that forgets the states of the peers.

    The analytics: compared with an observer of the same reports, the segments of
    the aggregator never have more than the time of a connection, have all of it
    unless a clear or a failed save lost some, and have the bytes its counters
    advanced; every collection of the heartbeat ends in
    one report, with the keys and the configuration in force that were given
    last; nodes with the same answers agree on the id of the meshnet; the
    connectivity matrix is exact; the measurements of the service quality
    are the times and the bytes between the events, plus a surplus that is
    counted for a new node; the columns of a report are aligned; and the
    analytics library gets every report of the heartbeat with its contents, once
    and in order.  Theorems exhibit data that are lost when a node leaves and when
    the device stops, requests of the device to itself, and counters that
    start again.

    The paths and their addresses: every candidate that the STUN provider
    announces is made of answers to its own two requests, it asks one server
    after the other while none answers, and finds and announces the endpoints
    when one does; the UPnP provider announces only ports that the router agreed
    to forward to the ports of WireGuard and of the proxy; the session keeper
    pings the nodes that it was given and no other, each at its interval, or at
    once if it is new or hurried by a batch; the proxy never mixes the traffic of two peers.

    The text protocol: any document that describes a device is read as the
    interface that the netlink structures of the device give, whatever the order
    of its lines and the error it reports, and the parser ends on every text.

    The resolver, under every interleaving of queries, updates and restarts: a
    response belongs to one query, which came before it, goes back to where the
    query came from, and has right lengths and checksums; a query is answered if
    a permit is free; an update replaces one zone, or nothing if it fails.  Lemmas
    exhibit malformed resets of TCP and a test of names that is too loose.

    ** Conventions

    Definitions are executable and are named as in the source.  A method that
    takes [&mut self] takes the state and returns it; the clock is an argument;
    a call is one step, as the source guards the state it touches by one lock
    or runs it in one task.  Unsigned integers are [Z] with the wrap-around
    written out where it can occur.  A [HashMap] or [BTreeMap] is a [gmap];
    iteration over a [BTreeMap] is in the order of the keys ([btree_iter]), over
    a [HashSet] in any order ([hash_iter]).  Code of other crates is an
    interface (a class) with laws that state its documented behaviour, and each
    has an instance, by which the witnesses run the definitions on concrete
    inputs: [assoc_map] for [hashlink], [RfcPnet] and [RfcPnetMut] for
    [pnet_packet], [AddrPrefix] for [ipnet], [Rfc4648] for the codecs of keys,
    [ToyCrypto] for the ciphers, [CountablePb] for protobuf, [QosSamples] for
    histograms, [RfcDns] for the headers of queries.  The recursions are structural, but for the loop that reads
    frames, which is well founded on the bytes that are left, and the loops
    that have fuel: folding a checksum of 32 bits takes two rounds, the search
    for a port has its bound of 128 further attempts in the source, the
    attempts of the connecting loop are counted by the theorem about it, and the
    parser of the text protocol has one round more than there are lines; each is
    shown to have enough.  Random numbers and the order in which [select!]
    picks a ready branch are arguments.

    ** What is not modelled

    Logging and poisoned locks.  The adapters of WireGuard but for their
    commands, sockets, the insides of starting and stopping a task, and the waits
    for a listen port.  The exchange of post-quantum keys, the multiplexer of the
    relay, the event logs behind the analytics.  Of the resolver, the crate behind
    its catalog and the sockets of forwarded lookups.  The handle that forwards
    the calls of the application to the runtime, and the foreign-function
    interface. *)

From stdpp Require Export base list gmap strings sorting.
From Stdlib Require Export ZArith Lia.

#[export] Set Default Goal Selector "!".

(** ** Notations *)

Declare Scope telio_scope.
Delimit Scope telio_scope with telio.

(** [Result<T, E>] of the Rust standard library. *)
Inductive result (E A : Type) : Type :=
| Ok (a : A)
| Err (e : E).
Arguments Ok {E A} a.
Arguments Err {E A} e.

(** Code that may panic: it returns, or the thread ends. *)
Inductive outcome (A : Type) : Type :=
| Returns (a : A)
| Panics.
Arguments Returns {A} a.
Arguments Panics {A}.

(** The [?] operator: propagate the error, bind the value. *)
Notation "'let?' x ':=' c1 'in' c2" :=
  (match c1 with Ok x => c2 | Err e => Err e end)
  (at level 10, x name, c1 at level 100, c2 at level 200) : telio_scope.
Notation "'let?' ' p ':=' c1 'in' c2" :=
  (match c1 with Ok p => c2 | Err e => Err e end)
  (at level 10, p strict pattern, c1 at level 100, c2 at level 200) : telio_scope.

Open Scope telio_scope.

#[global] Instance result_eq_dec {E A} `{EqDecision E, EqDecision A} : EqDecision (result E A).
Proof. solve_decision. Defined.

(** ** Machine integers

    Unsigned integers of width [w] are [Z] in [[0, 2^w)]; [wrap w] is the
    arithmetic of the release profile, which wraps on overflow. *)

Definition wrap (w x : Z) : Z := x `mod` 2 ^ w.

Definition is_uint (w x : Z) : Prop := (0 <= x < 2 ^ w)%Z.

Lemma wrap_is_uint w x : (0 <= w)%Z → is_uint w (wrap w x).
Proof. intros Hw. apply Z.mod_pos_bound. by apply Z.pow_pos_nonneg. Qed.

Lemma wrap_small w x : is_uint w x → wrap w x = x.
Proof. intros H. by apply Z.mod_small. Qed.

(** ** Byte buffers *)

Abbreviation bytes := (list Z).

(** Big-endian reading of a buffer. *)
Definition be_bytes (l : bytes) : Z := fold_left (λ acc b, acc * 256 + b)%Z l 0%Z.

(** [buffer.get(off..off+n)] *)
Definition slice {A} (off n : nat) (l : list A) : option (list A) :=
  if decide (off + n ≤ length l) then Some (take n (drop off l)) else None.

(** [buffer.get(off..)] *)
Definition slice_from {A} (off : nat) (l : list A) : option (list A) :=
  if decide (off ≤ length l) then Some (drop off l) else None.

Lemma slice_app {A} (l1 l2 l3 : list A) off n :
  off = length l1 → n = length l2 → slice off n (l1 ++ l2 ++ l3) = Some l2.
Proof.
  intros -> ->. unfold slice. rewrite !length_app, decide_True by lia.
  by rewrite drop_app_length, take_app_length.
Qed.

Lemma slice_from_app {A} (l1 l2 : list A) off :
  off = length l1 → slice_from off (l1 ++ l2) = Some l2.
Proof.
  intros ->. unfold slice_from. rewrite length_app, decide_True by lia.
  by rewrite drop_app_length.
Qed.

(** [to_be_bytes] of an integer of [n] bytes *)
Fixpoint to_be_bytes (n : nat) (x : Z) : bytes :=
  match n with
  | O => []
  | S n => to_be_bytes n (x / 256) ++ [x `mod` 256]%Z
  end.

Definition is_bytes (l : bytes) : Prop := Forall (is_uint 8) l.

Lemma length_to_be_bytes n x : length (to_be_bytes n x) = n.
Proof. revert x. induction n as [|n IH]; intros x; simpl; [done|]. rewrite length_app, IH. simpl. lia. Qed.

Lemma is_bytes_to_be_bytes n x : is_bytes (to_be_bytes n x).
Proof.
  revert x. induction n as [|n IH]; intros x; simpl; [constructor|].
  apply Forall_app. split; [apply IH|]. constructor; [|constructor]. by apply (wrap_is_uint 8).
Qed.

Lemma be_bytes_snoc l b : be_bytes (l ++ [b]) = (be_bytes l * 256 + b)%Z.
Proof. unfold be_bytes. by rewrite fold_left_app. Qed.

Lemma be_bytes_to_be_bytes n x : is_uint (8 * Z.of_nat n) x → be_bytes (to_be_bytes n x) = x.
Proof.
  unfold is_uint. revert x. induction n as [|n IH]; intros x Hx; cbn [to_be_bytes].
  { unfold be_bytes. simpl in *. lia. }
  rewrite be_bytes_snoc. replace (8 * Z.of_nat (S n))%Z with (8 * Z.of_nat n + 8)%Z in Hx by lia.
  rewrite Z.pow_add_r in Hx by lia. rewrite IH; [pose proof (Z.div_mod x 256 ltac:(lia)); lia|].
  split; [apply Z.div_pos; lia|]. apply Z.div_lt_upper_bound; lia.
Qed.

Lemma to_be_bytes_be_bytes l : is_bytes l → to_be_bytes (length l) (be_bytes l) = l.
Proof.
  unfold is_bytes, is_uint. induction l as [|b l IH] using rev_ind; [done|].
  rewrite Forall_app, Forall_singleton. intros [Hl Hb]. rewrite length_app, Nat.add_comm. cbn [length Nat.add to_be_bytes].
  rewrite be_bytes_snoc. rewrite Z.div_add_l, Z.div_small, Z.add_0_r by lia. rewrite IH by done.
  do 2 f_equal. rewrite Z.add_comm, Z.mod_add by lia. apply Z.mod_small. lia.
Qed.

Lemma be_bytes_is_uint l : is_bytes l → is_uint (8 * Z.of_nat (length l)) (be_bytes l).
Proof.
  unfold is_bytes, is_uint. induction l as [|b l IH] using rev_ind; [done|].
  rewrite Forall_app, Forall_singleton. intros [Hl Hb]. rewrite be_bytes_snoc, length_app. simpl.
  replace (8 * Z.of_nat (length l + 1))%Z with (8 * Z.of_nat (length l) + 8)%Z by lia.
  rewrite Z.pow_add_r by lia. specialize (IH Hl). lia.
Qed.

(** ** Standard iterator adaptors *)

Fixpoint take_while {A} (p : A → bool) (l : list A) : list A :=
  match l with
  | [] => []
  | x :: l => if p x then x :: take_while p l else []
  end.

Lemma list_filter_id {A} (P : A → Prop) `{!∀ x, Decision (P x)} (l : list A) :
  (∀ x, x ∈ l → P x) → filter P l = l.
Proof.
  induction l as [|x l IH]; intros Hl; [done|].
  rewrite filter_cons_True by set_solver. rewrite IH; set_solver.
Qed.

Lemma NoDup_fmap_same {A B} (f : A → B) (l : list A) x y :
  NoDup (f <$> l) → x ∈ l → y ∈ l → f x = f y → x = y.
Proof.
  induction l as [|z l IH]; csimpl; [set_solver|]. intros [Hn Hd]%NoDup_cons.
  rewrite !elem_of_cons. intros [->|Hx] [->|Hy] E; [done| | |auto]; destruct Hn.
  - rewrite E. by apply list_elem_of_fmap_2.
  - rewrite <-E. by apply list_elem_of_fmap_2.
Qed.

(** [HashMap] lookups and updates on an ordered list of entries. *)
Section assoc.
Context {K V : Type} `{EqDecision K}.
Implicit Types (l : list (K * V)) (k : K) (v : V).

Fixpoint assoc k l : option V :=
  match l with
  | [] => None
  | (k', v) :: l => if decide (k' = k) then Some v else assoc k l
  end.

Definition adel k l : list (K * V) := filter (λ kv, kv.1 ≠ k) l.

Definition aset k v l : list (K * V) :=
  (λ kv, if decide (kv.1 = k) then (kv.1, v) else kv) <$> l.

Lemma assoc_elem_of k v l : assoc k l = Some v → (k, v) ∈ l.
Proof. induction l as [|[k' v'] l IH]; simpl; [done|]. case_decide; set_solver. Qed.

Lemma assoc_None k l : assoc k l = None ↔ k ∉ l.*1.
Proof. induction l as [|[k' v'] l IH]; simpl; [set_solver|]. case_decide; set_solver. Qed.

Lemma elem_of_assoc k v l : NoDup l.*1 → (k, v) ∈ l → assoc k l = Some v.
Proof.
  induction l as [|[k' v'] l IH]; simpl; [set_solver|].
  rewrite NoDup_cons, elem_of_cons. intros [Hn Hd] [[= -> ->]|Hin]; [by case_decide|].
  case_decide as E; [|auto]. destruct Hn. rewrite E. apply list_elem_of_fmap. by exists (k, v).
Qed.

Lemma assoc_app k l1 l2 :
  assoc k (l1 ++ l2) = match assoc k l1 with Some v => Some v | None => assoc k l2 end.
Proof. induction l1 as [|[k' v'] l IH]; simpl; [done|]. by case_decide. Qed.

Lemma elem_of_adel k kv l : kv ∈ adel k l ↔ kv.1 ≠ k ∧ kv ∈ l.
Proof. unfold adel. by rewrite list_elem_of_filter. Qed.

Lemma assoc_adel_ne k k' l : k' ≠ k → assoc k' (adel k l) = assoc k' l.
Proof.
  intros Hne. unfold adel. induction l as [|[k1 v1] l IH]; [done|].
  rewrite filter_cons; simpl.
  destruct (decide (k1 ≠ k)) as [?| ->%dec_stable]; simpl; [by rewrite IH|].
  by rewrite decide_False.
Qed.

Lemma assoc_adel_eq k l : assoc k (adel k l) = None.
Proof. apply assoc_None. intros ((k', v') & -> & Hin)%list_elem_of_fmap. by apply elem_of_adel in Hin as []. Qed.

Lemma adel_not_in k l : k ∉ l.*1 → adel k l = l.
Proof.
  unfold adel. induction l as [|[k' v'] l IH]; [done|]. simpl. intros Hn.
  rewrite filter_cons_True by set_solver. rewrite IH; set_solver.
Qed.

Lemma sublist_adel k l : adel k l `sublist_of` l.
Proof. apply sublist_filter. Qed.

Lemma NoDup_adel k l : NoDup l.*1 → NoDup (adel k l).*1.
Proof. intros Hd. eapply sublist_NoDup; [done|]. apply fmap_sublist, sublist_adel. Qed.

Lemma length_adel k l : length (adel k l) ≤ length l.
Proof. apply sublist_length, sublist_adel. Qed.

Lemma length_adel_in k l : k ∈ l.*1 → length (adel k l) < length l.
Proof.
  unfold adel. induction l as [|[k' v'] l IH]; simpl; [set_solver|]. intros Hin.
  rewrite filter_cons; simpl. case_decide as E; simpl.
  - assert (k ∈ l.*1) by set_solver. naive_solver lia.
  - pose proof (length_adel k l). unfold adel in *. lia.
Qed.

Lemma NoDup_adel_snoc k v l : NoDup l.*1 → NoDup (adel k l ++ [(k, v)]).*1.
Proof.
  intros Hd. rewrite fmap_app. apply NoDup_app. split_and!; [by apply NoDup_adel| |apply NoDup_singleton].
  intros x Hx ->%list_elem_of_singleton. apply list_elem_of_fmap in Hx as ((k', v') & E & Hx).
  apply elem_of_adel in Hx. naive_solver.
Qed.

Lemma fst_aset k v l : (aset k v l).*1 = l.*1.
Proof. unfold aset. induction l as [|[k' v'] l IH]; csimpl; [done|]. rewrite IH. by case_decide. Qed.

Lemma assoc_aset_ne k k' v l : k' ≠ k → assoc k' (aset k v l) = assoc k' l.
Proof.
  intros Hne. unfold aset. induction l as [|[k1 v1] l IH]; csimpl; [done|].
  destruct (decide (k1 = k)) as [->|?]; csimpl; rewrite IH; [by rewrite !decide_False|done].
Qed.

Lemma assoc_aset_eq k v l : is_Some (assoc k l) → assoc k (aset k v l) = Some v.
Proof.
  intros [v' Hv]. unfold aset. induction l as [|[k1 v1] l IH]; csimpl in *; [done|].
  destruct (decide (k1 = k)) as [->|?]; csimpl; [by rewrite decide_True|].
  rewrite decide_False by done. auto.
Qed.

Lemma adel_aset k v l : adel k (aset k v l) = adel k l.
Proof.
  unfold adel, aset. induction l as [|[k1 v1] l IH]; csimpl; [done|].
  destruct (decide (k1 = k)) as [->|?].
  - rewrite !filter_cons_False by (simpl; tauto). done.
  - rewrite !filter_cons_True by done. by f_equal.
Qed.

(** Removing the keys of a prefix leaves the suffix. *)
Lemma foldl_adel_prefix l1 l2 :
  NoDup (l1 ++ l2).*1 → foldl (λ l k, adel k l) (l1 ++ l2) l1.*1 = l2.
Proof.
  induction l1 as [|[k v] l1 IH]; csimpl; [done|]. intros [Hn Hd]%NoDup_cons.
  unfold adel at 2. rewrite filter_cons_False by (simpl; tauto).
  fold (adel k (l1 ++ l2)). rewrite adel_not_in by done. auto.
Qed.
End assoc.

(** ** Sorted lists and their sublists *)

Lemma sublist_Forall_1 {A} (P : A → Prop) (l1 l2 : list A) :
  l1 `sublist_of` l2 → Forall P l2 → Forall P l1.
Proof. induction 1; rewrite ?Forall_cons; naive_solver. Qed.

Lemma sublist_StronglySorted {A} (R : relation A) (l1 l2 : list A) :
  l1 `sublist_of` l2 → StronglySorted R l2 → StronglySorted R l1.
Proof.
  induction 1 as [|x l1 l2 Hs IH|x l1 l2 Hs IH]; inversion 1; subst; [constructor| |auto].
  constructor; [auto|]. by eapply sublist_Forall_1.
Qed.

Lemma StronglySorted_snoc {A} (R : relation A) (l : list A) (x : A) :
  StronglySorted R l → Forall (λ y, R y x) l → StronglySorted R (l ++ [x]).
Proof.
  intros Hs Hf. apply StronglySorted_app_2; [|done|repeat constructor].
  intros y z Hy ->%list_elem_of_singleton. by apply (proj1 (Forall_forall _ _) Hf).
Qed.

(** ** [take_while] *)

Fixpoint drop_while {A} (p : A → bool) (l : list A) : list A :=
  match l with
  | [] => []
  | x :: l' => if p x then drop_while p l' else l
  end.

Lemma take_drop_while {A} (p : A → bool) (l : list A) : take_while p l ++ drop_while p l = l.
Proof. induction l as [|x l IH]; simpl; [done|]. destruct (p x); simpl; congruence. Qed.

Lemma drop_while_sublist {A} (p : A → bool) (l : list A) : drop_while p l `sublist_of` l.
Proof. rewrite <-(take_drop_while p l) at 2. by apply sublist_inserts_l. Qed.

Lemma assoc_drop_while {K V} `{EqDecision K} (p : K * V → bool) k v l :
  assoc k l = Some v → p (k, v) = false → assoc k (drop_while p l) = Some v.
Proof.
  intros Hk Hp. induction l as [|[k' v'] l IH]; simpl in *; [done|]. destruct (p (k', v')) eqn:Hp'; [|done].
  case_decide; [congruence|auto].
Qed.

Lemma sublist_elem_of {A} (x : A) (l1 l2 : list A) : l1 `sublist_of` l2 → x ∈ l1 → x ∈ l2.
Proof. induction 1; set_solver. Qed.

(** ** State and errors

    [act S E A] is code that may change a state and may fail; a failure keeps
    the changes made before it, as an early [return Err(..)] does. *)

Definition act (S E A : Type) : Type := S → result E A * S.

Section act.
Context {S E : Type}.

Definition act_ret {A} (a : A) : act S E A := λ s, (Ok a, s).
Definition act_fail {A} (e : E) : act S E A := λ s, (Err e, s).
Definition act_bind {A B} (m : act S E A) (f : A → act S E B) : act S E B :=
  λ s, match m s with
       | (Ok a, s) => f a s
       | (Err e, s) => (Err e, s)
       end.
Definition act_get : act S E S := λ s, (Ok s, s).
Definition act_modify (f : S → S) : act S E unit := λ s, (Ok tt, f s).

(** [let _ = m.await]: the error is dropped. *)
Definition act_ignore {A} (m : act S E A) : act S E unit := λ s, (Ok tt, (m s).2).

(** [for x in l { f(x)?; }] *)
Fixpoint act_for {A} (l : list A) (f : A → act S E unit) : act S E unit :=
  match l with
  | [] => act_ret tt
  | x :: l => act_bind (f x) (λ _, act_for l f)
  end.

(** A loop that carries a value besides the state *)
Fixpoint act_foldl {A B} (f : B → A → act S E B) (b : B) (l : list A) : act S E B :=
  match l with
  | [] => act_ret b
  | x :: l => act_bind (f b x) (λ b, act_foldl f b l)
  end.

(** Code that cannot fail, and its use *)
Definition act_lift {A} (m : S → A * S) : act S E A := λ s, let '(a, s) := m s in (Ok a, s).

(** [m.await.ok()] *)
Definition act_ok {A} (m : act S E A) : act S E (option A) := λ s,
  match m s with
  | (Ok a, s) => (Ok (Some a), s)
  | (Err _, s) => (Ok None, s)
  end.

(** [o.ok_or(e)?] *)
Definition act_ok_or {A} (o : option A) (e : E) : act S E A :=
  match o with Some a => act_ret a | None => act_fail e end.

Definition act_when (b : bool) (m : act S E unit) : act S E unit := if b then m else act_ret tt.
End act.

Declare Scope act_scope.
Delimit Scope act_scope with act.
Notation "x <-- m ;; k" := (act_bind m (λ x, k))
  (at level 100, m at next level, right associativity) : act_scope.
Notation "m ;;; k" := (act_bind m (λ _, k))
  (at level 100, right associativity) : act_scope.

(** An invariant kept by every step of a loop is kept by the loop, whether it
    ends or fails. *)
Lemma act_for_inv {S E A} (I : S → Prop) (f : A → act S E unit) (l : list A) s :
  (∀ x s, x ∈ l → I s → I (f x s).2) → I s → I (act_for l f s).2.
Proof.
  revert s. induction l as [|x l IH]; intros s Hf Hs; simpl; [done|]. unfold act_bind.
  pose proof (Hf x s (list_elem_of_here _ _) Hs) as Hx. destruct (f x s) as [[a|e] s']; simpl in *; [|done].
  apply IH; [|done]. intros y s'' Hy. apply Hf. by constructor.
Qed.

(** A loop whose steps all succeed: [I l s] says that [s] is the state after
    the items [l]. *)
Lemma act_for_ok {S E A} (I : list A → S → Prop) (f : A → act S E unit) (l : list A) s :
  I [] s →
  (∀ l1 x l2 s, l = l1 ++ x :: l2 → I l1 s → ∃ s', f x s = (Ok tt, s') ∧ I (l1 ++ [x]) s') →
  ∃ s', act_for l f s = (Ok tt, s') ∧ I l s'.
Proof.
  intros Hs Hf. cut (∀ l1 l2 s, l = l1 ++ l2 → I l1 s →
    ∃ s', act_for l2 f s = (Ok tt, s') ∧ I l s'); [intros Hc; by apply (Hc [])|].
  intros l1 l2. revert l1. induction l2 as [|x l2 IH]; intros l1 s1 Hl Hl1.
  { exists s1. rewrite app_nil_r in Hl. by subst. }
  destruct (Hf l1 x l2 s1 Hl Hl1) as (s2 & Hx & Hl2).
  destruct (IH (l1 ++ [x]) s2) as (s3 & Hl3 & HI); [by rewrite <-app_assoc|done|].
  exists s3. split; [|done]. simpl. unfold act_bind. by rewrite Hx.
Qed.

(** The same for a loop that is known to have succeeded *)
Lemma act_for_Ok {S E A} (I : list A → S → Prop) (f : A → act S E unit) (l : list A) s s' :
  act_for l f s = (Ok tt, s') → I [] s →
  (∀ l1 x l2 s s', l = l1 ++ x :: l2 → I l1 s → f x s = (Ok tt, s') → I (l1 ++ [x]) s') →
  I l s'.
Proof.
  intros Hrun Hs Hf. cut (∀ l1 l2 s, l = l1 ++ l2 → I l1 s → act_for l2 f s = (Ok tt, s') → I l s');
    [intros Hc; by apply (Hc [] l s)|].
  clear s Hrun Hs. intros l1 l2. revert l1. induction l2 as [|x l2 IH]; intros l1 s Hl Hl1 Hrun.
  { simpl in Hrun. rewrite app_nil_r in Hl. unfold act_ret in Hrun. by simplify_eq. }
  simpl in Hrun. unfold act_bind in Hrun. destruct (f x s) as [[[]|e] s1] eqn:Hx; [|done].
  apply (IH (l1 ++ [x]) s1); [by rewrite <-app_assoc| |done]. by eapply Hf.
Qed.

Lemma act_bind_Ok {S E A B} (m : act S E A) (f : A → act S E B) s b s' :
  act_bind m f s = (Ok b, s') → ∃ a s1, m s = (Ok a, s1) ∧ f a s1 = (Ok b, s').
Proof. unfold act_bind. destruct (m s) as [[a|e] s1]; [eauto|done]. Qed.

(** An error of a sequence whose second part cannot fail comes from the first. *)
Lemma act_bind_Err {S E A B} (m : act S E A) (k : A → act S E B) s e s' :
  (∀ a s, ∃ b, (k a s).1 = Ok b) → act_bind m k s = (Err e, s') → m s = (Err e, s').
Proof.
  intros Hk. unfold act_bind. destruct (m s) as [[a|e'] s1]; [|by intros [= -> ->]].
  destruct (Hk a s1) as [b Hb]. intros E1. by rewrite E1 in Hb.
Qed.

Lemma act_for_app {S E A} (l1 l2 : list A) (f : A → act S E unit) s :
  act_for (l1 ++ l2) f s = act_bind (act_for l1 f) (λ _, act_for l2 f) s.
Proof.
  revert s. induction l1 as [|x l1 IH]; intros s; simpl; [done|]. unfold act_bind.
  destruct (f x s) as [[[]|e] s']; [|done]. by rewrite IH.
Qed.

Lemma act_for_fmap {S E A B} (g : A → B) (l : list A) (f : B → act S E unit) s :
  act_for (g <$> l) f s = act_for l (λ x, f (g x)) s.
Proof.
  revert s. induction l as [|x l IH]; intros s; csimpl; [done|]. unfold act_bind.
  destruct (f (g x) s) as [[[]|e] s']; [|done]. apply IH.
Qed.

(** A loop in a loop is a loop over the pairs. *)
Definition pairs {A B} (l : list A) (g : A → list B) : list (A * B) :=
  concat ((λ x, (λ y, (x, y)) <$> g x) <$> l).

Lemma elem_of_pairs {A B} (l : list A) (g : A → list B) x y :
  (x, y) ∈ pairs l g ↔ x ∈ l ∧ y ∈ g x.
Proof.
  unfold pairs. induction l as [|z l IH]; csimpl; [set_solver|].
  rewrite elem_of_app, IH, elem_of_cons, list_elem_of_fmap. naive_solver.
Qed.

Lemma NoDup_pairs {A B} (l : list A) (g : A → list B) :
  NoDup l → (∀ x, NoDup (g x)) → NoDup (pairs l g).
Proof.
  intros Hl Hg. induction Hl as [|x l Hx Hl IH]; [constructor|]. unfold pairs. csimpl.
  apply NoDup_app. split_and!; [|intros [x' y]|done].
  - apply NoDup_fmap_2; [|done]. by intros ?? [= ->].
  - rewrite list_elem_of_fmap. intros (y' & [= -> ->] & _) Hin. by apply (elem_of_pairs l g) in Hin as [].
Qed.

Lemma act_for_pairs {S E A B} (l : list A) (g : A → list B) (f : A → B → act S E unit) s :
  act_for l (λ x, act_for (g x) (f x)) s = act_for (pairs l g) (λ p, f p.1 p.2) s.
Proof.
  revert s. induction l as [|x l IH]; intros s; [done|]. unfold pairs. csimpl.
  rewrite act_for_app. unfold act_bind. rewrite act_for_fmap. simpl.
  destruct (act_for (g x) (f x) s) as [[[]|e] s']; [|done]. apply IH.
Qed.

Lemma act_for_ext {S E A} (l : list A) (f g : A → act S E unit) s :
  (∀ x s, f x s = g x s) → act_for l f s = act_for l g s.
Proof.
  intros Hfg. revert s. induction l as [|x l IH]; intros s; simpl; [done|]. unfold act_bind.
  rewrite Hfg. destruct (g x s) as [[[]|e] s']; [|done]. apply IH.
Qed.

(** ** Ordered and unordered collections

    A [BTreeMap] or [BTreeSet] is iterated in the order of its keys; a
    [HashMap] or [HashSet] in an order the standard library leaves open.  Both
    are finite maps and sets here, and an iteration over a hash collection
    takes its order from [HashOrder], about which only that it enumerates the
    collection is known. *)

Class HashOrder (K : Type) `{Countable K} := hash_iter : gset K → list K.

Class HashOrderLaws (K : Type) `{HashOrder K} := {
  hash_iter_perm (X : gset K) : hash_iter X ≡ₚ elements X
}.

(** One such order, to run the model. *)
Definition elements_order `{Countable K} : HashOrder K := elements.

Lemma elements_order_laws `{Countable K} : @HashOrderLaws K _ _ elements_order.
Proof. by split. Qed.

Section hash_iter.
Context `{HashOrderLaws K}.

Lemma elem_of_hash_iter (X : gset K) x : x ∈ hash_iter X ↔ x ∈ X.
Proof. by rewrite hash_iter_perm, elem_of_elements. Qed.

Lemma NoDup_hash_iter (X : gset K) : NoDup (hash_iter X).
Proof. rewrite hash_iter_perm. apply NoDup_elements. Qed.
End hash_iter.
