(* ===== verification/LruCache.v ===== *)
(** * [telio-utils]: the timed LRU cache ([lru_cache.rs])

    The cache is a linked hash map of timed values with a capacity and a time
    to live.  The linked hash map is the [hashlink] crate, which is not part of
    the repository: it is the interface [LinkedHashMap], whose laws
    [LinkedHashMapLaws] are the crate's documented behaviour in terms of its
    iteration order.  [assoc_map] is an implementation that meets the laws and
    lets the definitions run.

    Every definition takes the instant [Instant::now()] returns as [now], in
    milliseconds; durations are milliseconds too. *)

From S2P Require Import Prelude.

(** ** The [hashlink::LinkedHashMap] interface *)

Class LinkedHashMap (M : Type → Type → Type) := {
  (** [LinkedHashMap::default()] *)
  lhm_default {K V} `{EqDecision K} : M K V;
  (** [iter()]: the entries from the front to the back *)
  lhm_iter {K V} `{EqDecision K} : M K V → list (K * V);
  (** [get], [raw_entry().from_key_hashed_nocheck], [raw_entry_mut().from_key] *)
  lhm_get {K V} `{EqDecision K} : K → M K V → option V;
  (** [insert], [RawVacantEntryMut::insert_hashed_nocheck]: at the back *)
  lhm_insert {K V} `{EqDecision K} : K → V → M K V → M K V;
  (** [remove], [RawOccupiedEntryMut::remove] *)
  lhm_remove {K V} `{EqDecision K} : K → M K V → M K V;
  (** [pop_front] *)
  lhm_pop_front {K V} `{EqDecision K} : M K V → M K V;
  (** assignment through [get_mut] / [into_mut], in place *)
  lhm_set {K V} `{EqDecision K} : K → V → M K V → M K V;
  (** [RawOccupiedEntryMut::to_back] *)
  lhm_to_back {K V} `{EqDecision K} : K → M K V → M K V
}.

(** What the crate documents of these operations. *)
Class LinkedHashMapLaws (M : Type → Type → Type) `{LinkedHashMap M} : Prop := {
  lhm_iter_default {K V} `{EqDecision K} : lhm_iter (M:=M) (K:=K) (V:=V) lhm_default = [];
  lhm_iter_NoDup {K V} `{EqDecision K} (m : M K V) : NoDup (lhm_iter m).*1;
  lhm_get_iter {K V} `{EqDecision K} k (m : M K V) : lhm_get k m = assoc k (lhm_iter m);
  lhm_iter_insert {K V} `{EqDecision K} k v (m : M K V) :
    lhm_iter (lhm_insert k v m) = adel k (lhm_iter m) ++ [(k, v)];
  lhm_iter_remove {K V} `{EqDecision K} k (m : M K V) :
    lhm_iter (lhm_remove k m) = adel k (lhm_iter m);
  lhm_iter_pop_front {K V} `{EqDecision K} (m : M K V) :
    lhm_iter (lhm_pop_front m) = tail (lhm_iter m);
  lhm_iter_set {K V} `{EqDecision K} k v (m : M K V) :
    lhm_iter (lhm_set k v m) = aset k v (lhm_iter m);
  lhm_iter_to_back {K V} `{EqDecision K} k v (m : M K V) :
    assoc k (lhm_iter m) = Some v →
    lhm_iter (lhm_to_back k m) = adel k (lhm_iter m) ++ [(k, v)]
}.

Create Rewrite HintDb lhm.
#[export] Hint Rewrite @lhm_iter_default @lhm_get_iter @lhm_iter_insert @lhm_iter_remove
  @lhm_iter_pop_front @lhm_iter_set using exact _ : lhm.

(** ** An implementation: entries in iteration order *)

Definition assoc_map (K V : Type) : Type := list (K * V).

(** Lists with a repeated key represent nothing. *)
Definition assoc_entries {K V} `{EqDecision K} (m : assoc_map K V) : list (K * V) :=
  if decide (NoDup (fst <$> m)) then m else [].

Lemma assoc_entries_NoDup {K V} `{EqDecision K} (m : assoc_map K V) :
  NoDup (assoc_entries m).*1.
Proof. unfold assoc_entries. case_decide; [done|constructor]. Qed.

Lemma assoc_entries_id {K V} `{EqDecision K} (l : list (K * V)) :
  NoDup l.*1 → assoc_entries l = l.
Proof. intros. unfold assoc_entries. by rewrite decide_True. Qed.

#[export] Instance assoc_map_lhm : LinkedHashMap assoc_map := {
  lhm_default K V _ := [];
  lhm_iter K V _ := assoc_entries;
  lhm_get K V _ k m := assoc k (assoc_entries m);
  lhm_insert K V _ k v m := adel k (assoc_entries m) ++ [(k, v)];
  lhm_remove K V _ k m := adel k (assoc_entries m);
  lhm_pop_front K V _ m := tail (assoc_entries m);
  lhm_set K V _ k v m := aset k v (assoc_entries m);
  lhm_to_back K V _ k m :=
    match assoc k (assoc_entries m) with
    | Some v => adel k (assoc_entries m) ++ [(k, v)]
    | None => m
    end
}.

#[export] Instance assoc_map_laws : LinkedHashMapLaws assoc_map.
Proof.
  split; intros; simpl in *; try done.
  - apply assoc_entries_NoDup.
  - apply assoc_entries_id, NoDup_adel_snoc, assoc_entries_NoDup.
  - apply assoc_entries_id, NoDup_adel, assoc_entries_NoDup.
  - apply assoc_entries_id. pose proof (assoc_entries_NoDup m) as Hd.
    destruct (assoc_entries m); [done|]. by apply NoDup_cons in Hd as [].
  - apply assoc_entries_id. rewrite fst_aset. apply assoc_entries_NoDup.
  - rewrite H. apply assoc_entries_id, NoDup_adel_snoc, assoc_entries_NoDup.
Qed.

(** ** The cache *)

Abbreviation Instant := Z.
Abbreviation Duration := Z.

Record TimedValue (V : Type) := mkTimedValue { data : V; last_access : Instant }.
Arguments mkTimedValue {V} _ _.
Arguments data {V} _.
Arguments last_access {V} _.

Record LruCache (M : Type → Type → Type) (K V : Type) := mkLruCache {
  lru_map : M K (TimedValue V);
  lru_ttl : Duration;
  lru_capacity : nat
}.
Arguments mkLruCache {M K V} _ _ _.
Arguments lru_map {M K V} _.
Arguments lru_ttl {M K V} _.
Arguments lru_capacity {M K V} _.

(** An entry borrows the map: the map itself is threaded by the caller. *)
Record OccupiedEntry (K : Type) := mkOccupiedEntry { oe_key : K }.
Record VacantEntry (K : Type) := mkVacantEntry { ve_key : K; ve_max_map_size : nat }.
Arguments mkOccupiedEntry {K} _.
Arguments oe_key {K} _.
Arguments mkVacantEntry {K} _ _.
Arguments ve_key {K} _.
Arguments ve_max_map_size {K} _.

Inductive Entry (K : Type) :=
| Occupied (e : OccupiedEntry K)
| Vacant (e : VacantEntry K).
Arguments Occupied {K} _.
Arguments Vacant {K} _.

Section operations.
Context {M : Type → Type → Type} `{LinkedHashMap M} {K V : Type} `{EqDecision K}.
Implicit Types (c : LruCache M K V) (m : M K (TimedValue V)) (k : K) (v : V).

(** [TimedValue::new] *)
Definition timed_new (now : Instant) (v : V) : TimedValue V := mkTimedValue v now.

(** [TimedValue::update_last_access] *)
Definition update_last_access (tv : TimedValue V) (new_last_access : Instant) : TimedValue V :=
  mkTimedValue (data tv) new_last_access.

(** [TimedValue::is_expired] *)
Definition is_expired (tv : TimedValue V) (ttl : Duration) (now : Instant) : bool :=
  (last_access tv + ttl <? now)%Z.

Definition with_map c (m : M K (TimedValue V)) : LruCache M K V :=
  mkLruCache m (lru_ttl c) (lru_capacity c).

Definition map_len m : nat := length (lhm_iter m).

(** [LruCache::new] *)
Definition lru_new (ttl : Duration) (capacity : nat) : LruCache M K V :=
  mkLruCache lhm_default ttl capacity.

(** [LruCache::update_last_time] *)
Definition update_last_time k (now : Instant) m : M K (TimedValue V) :=
  match lhm_get k m with
  | Some tv => lhm_to_back k (lhm_set k (update_last_access tv now) m)
  | None => m
  end.

(** [LruCache::remove_expired] *)
Definition remove_expired (now : Instant) c : list K * LruCache M K V :=
  let expired_keys :=
    (take_while (λ kv, is_expired kv.2 (lru_ttl c) now) (lhm_iter (lru_map c))).*1 in
  (expired_keys, with_map c (foldl (λ m k, lhm_remove k m) (lru_map c) expired_keys)).

(** [LruCache::len] *)
Definition lru_len (now : Instant) c : nat * LruCache M K V :=
  let c := (remove_expired now c).2 in (map_len (lru_map c), c).

(** [LruCache::is_empty] *)
Definition lru_is_empty (now : Instant) c : bool * LruCache M K V :=
  let c := (remove_expired now c).2 in (bool_decide (lhm_iter (lru_map c) = []), c).

(** [LruCache::len_slow], the tests' reference for [len] *)
Definition lru_len_slow (now : Instant) c : nat :=
  length (filter (λ kv, is_expired kv.2 (lru_ttl c) now = false) (lhm_iter (lru_map c))).

(** [LruCache::entry] *)
Definition lru_entry (now : Instant) k (update_last_access_time : bool) c
    : Entry K * LruCache M K V :=
  match lhm_get k (lru_map c) with
  | Some tv =>
      if is_expired tv (lru_ttl c) now then
        (Vacant (mkVacantEntry k (lru_capacity c)), with_map c (lhm_remove k (lru_map c)))
      else
        let m := if update_last_access_time
                 then update_last_time k now (lru_map c) else lru_map c in
        (Occupied (mkOccupiedEntry k), with_map c m)
  | None => (Vacant (mkVacantEntry k (lru_capacity c)), c)
  end.

(** [OccupiedEntry::get]; [None] is the [unreachable!()] branch *)
Definition occupied_get (e : OccupiedEntry K) c : option V :=
  data <$> lhm_get (oe_key e) (lru_map c).

(** Assignment through [OccupiedEntry::get_mut] *)
Definition occupied_set (e : OccupiedEntry K) v c : LruCache M K V :=
  match lhm_get (oe_key e) (lru_map c) with
  | Some tv => with_map c (lhm_set (oe_key e) (mkTimedValue v (last_access tv)) (lru_map c))
  | None => c
  end.

(** [OccupiedEntry::remove] *)
Definition occupied_remove (e : OccupiedEntry K) c : LruCache M K V :=
  with_map c (lhm_remove (oe_key e) (lru_map c)).

(** [VacantEntry::insert] *)
Definition vacant_insert (now : Instant) (e : VacantEntry K) v c : LruCache M K V :=
  match lhm_get (ve_key e) (lru_map c) with
  | Some _ => c
  | None =>
      let m := lhm_insert (ve_key e) (timed_new now v) (lru_map c) in
      with_map c (if decide (ve_max_map_size e < map_len m) then lhm_pop_front m else m)
  end.

(** [LruCache::get_mut], and [LruCache::get], which reads through it *)
Definition lru_get (now : Instant) k c : option V * LruCache M K V :=
  let c := (remove_expired now c).2 in
  match lhm_get k (lru_map c) with
  | Some tv => (Some (data tv), with_map c (update_last_time k now (lru_map c)))
  | None => (None, c)
  end.

(** [LruCache::insert] *)
Definition lru_insert (now : Instant) k v c : LruCache M K V :=
  let m := lhm_insert k (timed_new now v) (lru_map c) in
  with_map c (if decide (lru_capacity c < map_len m) then lhm_pop_front m else m).

(** [LruCache::remove] *)
Definition lru_remove k c : option V * LruCache M K V :=
  (data <$> lhm_get k (lru_map c), with_map c (lhm_remove k (lru_map c))).

(** [LruCache::peek] *)
Definition lru_peek (now : Instant) k c : option V :=
  match lhm_get k (lru_map c) with
  | Some tv => if is_expired tv (lru_ttl c) now then None else Some (data tv)
  | None => None
  end.

(** [LruCache::iter] *)
Definition lru_iter c : list (K * V) :=
  (λ kv, (kv.1, data kv.2)) <$> lhm_iter (lru_map c).
End operations.

(** ** The operations on the entries in iteration order *)

Section entries.
Context {M : Type → Type → Type} `{LinkedHashMapLaws M} {K V : Type} `{EqDecision K}.
Implicit Types (c : LruCache M K V) (m : M K (TimedValue V)) (k : K) (v : V).
Implicit Types (l : list (K * TimedValue V)) (now : Instant).

Definition entries c : list (K * TimedValue V) := lhm_iter (lru_map c).

(** What [insert] leaves of the entries [l]. *)
Definition push_back (capacity : nat) k (tv : TimedValue V) l : list (K * TimedValue V) :=
  let l := adel k l ++ [(k, tv)] in if decide (capacity < length l) then tail l else l.

Lemma entries_NoDup c : NoDup (entries c).*1.
Proof. apply lhm_iter_NoDup. Qed.

Lemma entries_with_map c m : entries (with_map c m) = lhm_iter m.
Proof. done. Qed.

Lemma entries_insert now k v c :
  entries (lru_insert now k v c) = push_back (lru_capacity c) k (mkTimedValue v now) (entries c).
Proof.
  unfold lru_insert, push_back, map_len. rewrite entries_with_map. unfold entries.
  repeat case_decide; autorewrite with lhm in *; done.
Qed.

Lemma entries_remove k c : entries (lru_remove k c).2 = adel k (entries c).
Proof. apply lhm_iter_remove. Qed.

Lemma iter_update_last_time k now m tv :
  assoc k (lhm_iter m) = Some tv →
  lhm_iter (update_last_time k now m) =
    adel k (lhm_iter m) ++ [(k, mkTimedValue (data tv) now)].
Proof.
  intros Hk. unfold update_last_time. rewrite lhm_get_iter, Hk.
  rewrite (lhm_iter_to_back _ (update_last_access tv now)), lhm_iter_set.
  - by rewrite adel_aset.
  - rewrite lhm_iter_set. apply assoc_aset_eq. by rewrite Hk.
Qed.

Lemma entries_remove_expired now c :
  entries (remove_expired now c).2 =
    drop_while (λ kv, is_expired kv.2 (lru_ttl c) now) (entries c).
Proof.
  unfold remove_expired. simpl. rewrite entries_with_map. unfold entries.
  set (p := λ kv : K * TimedValue V, is_expired kv.2 (lru_ttl c) now).
  assert (∀ ks m, lhm_iter (foldl (λ m k, lhm_remove k m) m ks) =
                  foldl (λ l k, adel k l) (lhm_iter m) ks) as ->.
  { intros ks. induction ks as [|k ks IH]; intros m; simpl; [done|].
    by rewrite IH, lhm_iter_remove. }
  rewrite <-(take_drop_while p (lhm_iter (lru_map c))) at 1.
  apply foldl_adel_prefix. rewrite take_drop_while. apply lhm_iter_NoDup.
Qed.

Lemma entries_get now k c :
  let l := drop_while (λ kv, is_expired kv.2 (lru_ttl c) now) (entries c) in
  lru_get now k c =
    (data <$> assoc k l, (lru_get now k c).2) ∧
  entries (lru_get now k c).2 =
    match assoc k l with
    | Some tv => adel k l ++ [(k, mkTimedValue (data tv) now)]
    | None => l
    end.
Proof.
  simpl. unfold lru_get. rewrite <-entries_remove_expired, lhm_get_iter.
  fold (entries (remove_expired now c).2).
  destruct (assoc k (entries (remove_expired now c).2)) as [tv|] eqn:E; simpl; [|done].
  split; [done|]. by apply iter_update_last_time.
Qed.

Lemma entry_occupied now k upd c tv :
  assoc k (entries c) = Some tv → is_expired tv (lru_ttl c) now = false →
  (lru_entry now k upd c).1 = Occupied (mkOccupiedEntry k) ∧
  entries (lru_entry now k upd c).2 =
    if upd then adel k (entries c) ++ [(k, mkTimedValue (data tv) now)] else entries c.
Proof.
  intros Hk He. unfold lru_entry. rewrite lhm_get_iter. fold (entries c). rewrite Hk, He. simpl.
  split; [done|]. rewrite entries_with_map. destruct upd; [|done]. by apply iter_update_last_time.
Qed.

Lemma entry_expired now k upd c tv :
  assoc k (entries c) = Some tv → is_expired tv (lru_ttl c) now = true →
  (lru_entry now k upd c).1 = Vacant (mkVacantEntry k (lru_capacity c)) ∧
  entries (lru_entry now k upd c).2 = adel k (entries c).
Proof.
  intros Hk He. unfold lru_entry. rewrite lhm_get_iter. fold (entries c). rewrite Hk, He. simpl.
  by rewrite entries_with_map, lhm_iter_remove.
Qed.

Lemma entry_vacant now k upd c :
  assoc k (entries c) = None →
  lru_entry now k upd c = (Vacant (mkVacantEntry k (lru_capacity c)), c).
Proof. intros Hk. unfold lru_entry. rewrite lhm_get_iter. fold (entries c). by rewrite Hk. Qed.

Lemma entries_occupied_set k v c tv :
  assoc k (entries c) = Some tv →
  entries (occupied_set (mkOccupiedEntry k) v c) =
    aset k (mkTimedValue v (last_access tv)) (entries c).
Proof.
  intros Hk. unfold occupied_set. simpl. rewrite lhm_get_iter. fold (entries c). rewrite Hk.
  by rewrite entries_with_map, lhm_iter_set.
Qed.

Lemma entries_occupied_remove k c :
  entries (occupied_remove (mkOccupiedEntry k) c) = adel k (entries c).
Proof. apply lhm_iter_remove. Qed.

Lemma entries_vacant_insert now k v c cap :
  assoc k (entries c) = None →
  entries (vacant_insert now (mkVacantEntry k cap) v c) =
    push_back cap k (mkTimedValue v now) (entries c).
Proof.
  intros Hk. unfold vacant_insert, push_back, map_len. simpl. rewrite lhm_get_iter.
  fold (entries c). rewrite Hk, entries_with_map. unfold entries.
  repeat case_decide; autorewrite with lhm in *; done.
Qed.
End entries.

(** ** The invariant

    At most [capacity] entries, ordered by their last access, none of them in
    the future. *)

Section invariant.
Context {M : Type → Type → Type} `{LinkedHashMapLaws M} {K V : Type} `{EqDecision K}.
Implicit Types (c : LruCache M K V) (k : K) (v : V).
Implicit Types (l : list (K * TimedValue V)) (now : Instant).

Definition access_times l : list Instant := (λ kv, last_access kv.2) <$> l.

Record wf_entries now (capacity : nat) l : Prop := {
  wf_length : length l ≤ capacity;
  wf_sorted : StronglySorted Z.le (access_times l);
  wf_past : Forall (λ t, t <= now)%Z (access_times l)
}.

Definition lru_wf now c : Prop := wf_entries now (lru_capacity c) (entries c).

Lemma wf_entries_sublist now cap l l' :
  l' `sublist_of` l → wf_entries now cap l → wf_entries now cap l'.
Proof.
  intros Hs [Hl Ho Hp]. pose proof (fmap_sublist (λ kv, last_access kv.2) _ _ Hs) as Ht.
  split.
  - apply sublist_length in Hs. lia.
  - by eapply sublist_StronglySorted.
  - by eapply sublist_Forall_1.
Qed.

Lemma wf_entries_later now now' cap l :
  (now <= now')%Z → wf_entries now cap l → wf_entries now' cap l.
Proof. intros Hle [Hl Ho Hp]. split; [done..|]. eapply Forall_impl; [done|]. simpl. lia. Qed.

Lemma wf_snoc_times now l k v :
  StronglySorted Z.le (access_times l) → Forall (λ t, t <= now)%Z (access_times l) →
  StronglySorted Z.le (access_times (l ++ [(k, mkTimedValue v now)])) ∧
  Forall (λ t, t <= now)%Z (access_times (l ++ [(k, mkTimedValue v now)])).
Proof.
  intros Ho Hp. unfold access_times. rewrite fmap_app. simpl. split.
  - by apply StronglySorted_snoc.
  - apply Forall_app. split; [done|]. constructor; [done|constructor].
Qed.

Lemma wf_entries_push_back now cap k v l :
  wf_entries now cap l → wf_entries now cap (push_back cap k (mkTimedValue v now) l).
Proof.
  intros Hwf. pose proof (wf_entries_sublist _ _ _ _ (sublist_adel k l) Hwf) as [Hl Ho Hp].
  destruct (wf_snoc_times now _ k v Ho Hp) as [Ho' Hp'].
  unfold push_back. case_decide as Hc; [|split; [lia|done..]].
  rewrite length_app in Hc. simpl in Hc.
  assert (tail (adel k l ++ [(k, mkTimedValue v now)]) `sublist_of`
          adel k l ++ [(k, mkTimedValue v now)]) as Hs.
  { destruct (adel k l ++ _); [done|]. by apply sublist_cons. }
  pose proof (fmap_sublist (λ kv, last_access kv.2) _ _ Hs) as Ht. split.
  - destruct (adel k l); simpl in *; [lia|]. rewrite length_app. simpl. lia.
  - by eapply sublist_StronglySorted.
  - by eapply sublist_Forall_1.
Qed.

Lemma wf_entries_refresh now cap k v l :
  k ∈ l.*1 → wf_entries now cap l →
  wf_entries now cap (adel k l ++ [(k, mkTimedValue v now)]).
Proof.
  intros Hk Hwf. pose proof (wf_length _ _ _ Hwf). pose proof (length_adel_in _ _ Hk).
  pose proof (wf_entries_push_back now cap k v l Hwf) as Hp. unfold push_back in Hp.
  rewrite decide_False in Hp; [done|]. rewrite length_app. simpl. lia.
Qed.

Lemma wf_entries_aset now cap k v l tv :
  assoc k l = Some tv → NoDup l.*1 → wf_entries now cap l →
  wf_entries now cap (aset k (mkTimedValue v (last_access tv)) l).
Proof.
  intros Hk Hd [Hl Ho Hp].
  assert (access_times (aset k (mkTimedValue v (last_access tv)) l) = access_times l) as E.
  { unfold access_times, aset. rewrite <-list_fmap_compose. apply list_fmap_ext.
    intros i [k' tv'] Hi. simpl. case_decide as E; [|done]. simpl in *. subst.
    apply list_elem_of_lookup_2, (elem_of_assoc _ _ _ Hd) in Hi. congruence. }
  split; rewrite ?E; [|done..]. unfold aset. by rewrite length_fmap.
Qed.

Lemma assoc_in_fst k l tv : assoc k l = Some tv → k ∈ l.*1.
Proof. intros Hk%assoc_elem_of. apply list_elem_of_fmap. by exists (k, tv). Qed.

(** Every operation preserves the invariant. *)

Lemma lru_wf_new now ttl cap : lru_wf now (lru_new (M:=M) (K:=K) (V:=V) ttl cap).
Proof.
  unfold lru_wf, entries, lru_new. simpl. rewrite lhm_iter_default.
  split; simpl; [lia|constructor..].
Qed.

Lemma lru_wf_insert now k v c : lru_wf now c → lru_wf now (lru_insert now k v c).
Proof. unfold lru_wf. rewrite entries_insert. apply wf_entries_push_back. Qed.

Lemma lru_wf_remove now k c : lru_wf now c → lru_wf now (lru_remove k c).2.
Proof. unfold lru_wf. rewrite entries_remove. apply wf_entries_sublist, sublist_adel. Qed.

Lemma lru_wf_remove_expired now c : lru_wf now c → lru_wf now (remove_expired now c).2.
Proof.
  unfold lru_wf. rewrite entries_remove_expired.
  apply wf_entries_sublist, drop_while_sublist.
Qed.

Lemma lru_wf_get now k c : lru_wf now c → lru_wf now (lru_get now k c).2.
Proof.
  intros Hwf%lru_wf_remove_expired.
  assert (lru_capacity (lru_get now k c).2 = lru_capacity c) as Hc
    by (unfold lru_get; by destruct lhm_get).
  unfold lru_wf in *. rewrite Hc. rewrite entries_remove_expired in Hwf. simpl in Hwf.
  destruct (entries_get now k c) as [_ ->].
  destruct (assoc k _) as [tv|] eqn:E; [|done].
  apply wf_entries_refresh; [by eapply assoc_in_fst|done].
Qed.

Lemma lru_wf_entry now k upd c : lru_wf now c → lru_wf now (lru_entry now k upd c).2.
Proof.
  intros Hwf. assert (lru_capacity (lru_entry now k upd c).2 = lru_capacity c) as Hc
    by (unfold lru_entry; destruct lhm_get; [case_match|]; done).
  unfold lru_wf in *. rewrite Hc. destruct (assoc k (entries c)) as [tv|] eqn:E.
  - destruct (is_expired tv (lru_ttl c) now) eqn:Ex.
    + destruct (entry_expired now k upd c tv E Ex) as [_ ->].
      eapply wf_entries_sublist; [apply sublist_adel|done].
    + destruct (entry_occupied now k upd c tv E Ex) as [_ ->].
      destruct upd; [|done]. apply wf_entries_refresh; [by eapply assoc_in_fst|done].
  - by rewrite entry_vacant.
Qed.

Lemma lru_wf_occupied_set now k v c : lru_wf now c → lru_wf now (occupied_set (mkOccupiedEntry k) v c).
Proof.
  intros Hwf. destruct (assoc k (entries c)) as [tv|] eqn:E.
  - unfold lru_wf. rewrite (entries_occupied_set _ _ _ tv E).
    unfold occupied_set. simpl. case_match; apply wf_entries_aset; try done; apply entries_NoDup.
  - unfold occupied_set. simpl. rewrite lhm_get_iter. unfold entries in E. by rewrite E.
Qed.

Lemma lru_wf_occupied_remove now k c :
  lru_wf now c → lru_wf now (occupied_remove (mkOccupiedEntry k) c).
Proof. unfold lru_wf. rewrite entries_occupied_remove. apply wf_entries_sublist, sublist_adel. Qed.

Lemma lru_wf_vacant_insert now k v c :
  lru_wf now c → lru_wf now (vacant_insert now (mkVacantEntry k (lru_capacity c)) v c).
Proof.
  intros Hwf. destruct (assoc k (entries c)) as [tv|] eqn:E.
  - unfold vacant_insert. simpl. rewrite lhm_get_iter. unfold entries in E. by rewrite E.
  - unfold lru_wf. rewrite entries_vacant_insert by done.
    unfold vacant_insert. simpl. case_match; by apply wf_entries_push_back.
Qed.

Lemma lru_wf_later now now' c : (now <= now')%Z → lru_wf now c → lru_wf now' c.
Proof. apply wf_entries_later. Qed.
End invariant.

Create HintDb lru.
#[export] Hint Resolve lru_wf_new lru_wf_insert lru_wf_remove lru_wf_get lru_wf_entry
  lru_wf_occupied_set lru_wf_occupied_remove lru_wf_vacant_insert lru_wf_remove_expired : lru.

(** ** Histories of a cache

    What a caller does with an entry: [UseOccupied] and [UseVacant] are the
    actions on the two kinds of entries. *)

Inductive occupied_use (V : Type) := OccKeep | OccSet (v : V) | OccRemove.
Arguments OccKeep {V}.
Arguments OccSet {V} v.
Arguments OccRemove {V}.

Inductive lru_op (K V : Type) :=
| OpInsert (k : K) (v : V)
| OpRemove (k : K)
| OpGet (k : K)
| OpLen
| OpIsEmpty
| OpEntry (k : K) (update_last_access_time : bool) (occ : occupied_use V) (vac : option V).
Arguments OpInsert {K V} k v.
Arguments OpRemove {K V} k.
Arguments OpGet {K V} k.
Arguments OpLen {K V}.
Arguments OpIsEmpty {K V}.
Arguments OpEntry {K V} k update_last_access_time occ vac.

Section histories.
Context {M : Type → Type → Type} `{LinkedHashMapLaws M} {K V : Type} `{EqDecision K}.
Implicit Types (c : LruCache M K V) (k : K) (v : V) (now : Instant).
Implicit Types (l : list (K * TimedValue V)).

Definition lru_exec now (op : lru_op K V) c : LruCache M K V :=
  match op with
  | OpInsert k v => lru_insert now k v c
  | OpRemove k => (lru_remove k c).2
  | OpGet k => (lru_get now k c).2
  | OpLen => (lru_len now c).2
  | OpIsEmpty => (lru_is_empty now c).2
  | OpEntry k upd occ vac =>
      let '(e, c) := lru_entry now k upd c in
      match e with
      | Occupied e =>
          match occ with
          | OccKeep => c
          | OccSet v => occupied_set e v c
          | OccRemove => occupied_remove e c
          end
      | Vacant e => match vac with Some v => vacant_insert now e v c | None => c end
      end
  end.

(** The caches reachable from [LruCache::new] under a clock that never goes
    back. *)
Inductive lru_reach (ttl : Duration) (capacity : nat) : Instant → LruCache M K V → Prop :=
| reach_new now : lru_reach ttl capacity now (lru_new ttl capacity)
| reach_tick now now' c :
    (now <= now')%Z → lru_reach ttl capacity now c → lru_reach ttl capacity now' c
| reach_exec now op c :
    lru_reach ttl capacity now c → lru_reach ttl capacity now (lru_exec now op c).

Lemma lru_entry_key now k upd c e c' :
  lru_entry now k upd c = (e, c') →
  lru_ttl c' = lru_ttl c ∧ lru_capacity c' = lru_capacity c ∧
  match e with
  | Occupied e => e = mkOccupiedEntry k
  | Vacant e => e = mkVacantEntry k (lru_capacity c')
  end.
Proof. unfold lru_entry. repeat case_match; intros [= <- <-]; done. Qed.

Lemma lru_exec_params now op c :
  lru_ttl (lru_exec now op c) = lru_ttl c ∧
  lru_capacity (lru_exec now op c) = lru_capacity c.
Proof.
  destruct op as [| |k| | |k upd occ vac]; simpl; try done.
  - unfold lru_get. by destruct lhm_get.
  - destruct (lru_entry now k upd c) as [e c'] eqn:E.
    destruct (lru_entry_key _ _ _ _ _ _ E) as (<- & <- & _).
    destruct e, occ, vac; try done; unfold occupied_set, vacant_insert; by case_match.
Qed.

Lemma lru_wf_exec now op c : lru_wf now c → lru_wf now (lru_exec now op c).
Proof.
  intros Hwf. destruct op as [| | | | |k upd occ vac]; cbn [lru_exec];
    try (by apply lru_wf_remove_expired); auto with lru.
  pose proof (lru_wf_entry now k upd c Hwf) as Hwf'.
  destruct (lru_entry now k upd c) as [e c'] eqn:E. simpl in Hwf'.
  destruct (lru_entry_key _ _ _ _ _ _ E) as (_ & _ & He).
  destruct e, occ, vac; subst; auto with lru.
Qed.

Lemma lru_reach_wf ttl cap now c :
  lru_reach ttl cap now c → lru_wf now c ∧ lru_ttl c = ttl ∧ lru_capacity c = cap.
Proof.
  induction 1 as [now|now now' c Hle Hr IH|now op c Hr IH].
  - auto with lru.
  - destruct IH as (Hwf & ? & ?). split_and!; [|done..]. by eapply lru_wf_later.
  - destruct IH as (Hwf & ? & ?), (lru_exec_params now op c) as [-> ->].
    split_and!; [by apply lru_wf_exec|done..].
Qed.

(** Ordered by last access, the expired entries are a prefix. *)
Lemma drop_while_expired now ttl l :
  StronglySorted Z.le (access_times l) →
  drop_while (λ kv, is_expired kv.2 ttl now) l =
    filter (λ kv, is_expired kv.2 ttl now = false) l.
Proof.
  induction l as [|[k tv] l IH]; csimpl; [done|]. intros Hs. inversion Hs as [|? ? Hs' Hf]; subst.
  destruct (is_expired tv ttl now) eqn:E; rewrite filter_cons; simpl; rewrite E.
  - by rewrite decide_False, IH.
  - rewrite decide_True by done. f_equal. symmetry. apply list_filter_id.
    intros [k' tv'] Hin. simpl.
    rewrite Forall_forall in Hf. unfold is_expired in *. apply Z.ltb_ge in E. apply Z.ltb_ge.
    assert (last_access tv' ∈ access_times l) as Hin'.
    { apply list_elem_of_fmap. by exists (k', tv'). }
    apply Hf in Hin'. lia.
Qed.

Lemma assoc_filter (p : TimedValue V → bool) k l :
  NoDup l.*1 →
  assoc k (filter (λ kv, p kv.2 = false) l) =
    match assoc k l with Some tv => if p tv then None else Some tv | None => None end.
Proof.
  induction l as [|[k' tv] l IH]; csimpl; [done|]. intros [Hn Hd]%NoDup_cons.
  rewrite filter_cons. simpl. destruct (p tv) eqn:E; csimpl.
  - rewrite IH by done. case_decide; [|done]. subst. rewrite E.
    by rewrite (proj2 (assoc_None k l)).
  - case_decide; [by rewrite E|]. auto.
Qed.
End histories.

Section lookups.
Context {M : Type → Type → Type} `{LinkedHashMapLaws M} {K V : Type} `{EqDecision K}.
Implicit Types (c : LruCache M K V) (k : K) (v : V) (now : Instant).

Lemma lru_peek_entries now k c :
  lru_peek now k c =
    match assoc k (entries c) with
    | Some tv => if is_expired tv (lru_ttl c) now then None else Some (data tv)
    | None => None
    end.
Proof. unfold lru_peek. by rewrite lhm_get_iter. Qed.

Lemma remove_expired_filter now c :
  lru_wf now c →
  entries (remove_expired now c).2 =
    filter (λ kv, is_expired kv.2 (lru_ttl c) now = false) (entries c).
Proof. intros Hwf. rewrite entries_remove_expired. apply drop_while_expired, Hwf. Qed.

Lemma lru_get_peek now k c : lru_wf now c → (lru_get now k c).1 = lru_peek now k c.
Proof.
  intros Hwf. destruct (entries_get now k c) as [E _]. rewrite E. simpl.
  rewrite drop_while_expired by apply Hwf.
  rewrite (assoc_filter (λ tv, is_expired tv (lru_ttl c) now)) by apply entries_NoDup.
  rewrite lru_peek_entries. destruct (assoc k (entries c)); [|done]. by case_match.
Qed.

(** [entry] needs no order: it checks the expiry of the one key. *)
Lemma lru_entry_peek now k upd c :
  match lru_entry now k upd c with
  | (Occupied e, c') =>
      e = mkOccupiedEntry k ∧ is_Some (lru_peek now k c) ∧ occupied_get e c' = lru_peek now k c
  | (Vacant e, c') =>
      e = mkVacantEntry k (lru_capacity c) ∧ lru_peek now k c = None ∧
      assoc k (entries c') = None
  end.
Proof.
  rewrite lru_peek_entries. destruct (assoc k (entries c)) as [tv|] eqn:E.
  - destruct (is_expired tv (lru_ttl c) now) eqn:Ex.
    + destruct (entry_expired now k upd c tv E Ex) as [E1 E2].
      destruct (lru_entry now k upd c) as [e c']. simpl in *. subst.
      rewrite E2. split_and!; [done..|]. apply assoc_adel_eq.
    + destruct (entry_occupied now k upd c tv E Ex) as [E1 E2].
      destruct (lru_entry now k upd c) as [e c']. simpl in *. subst.
      split_and!; [done..|]. unfold occupied_get. simpl. rewrite lhm_get_iter.
      fold (entries c'). rewrite E2. destruct upd; [|by rewrite E].
      rewrite assoc_app, assoc_adel_eq. simpl. by rewrite decide_True.
  - by rewrite (entry_vacant now k upd c E).
Qed.

(** The entries [insert] keeps: all but the new key, and but the oldest when
    the cache is full. *)
Lemma push_back_cases cap k (tv : TimedValue V) (l : list (K * TimedValue V)) :
  NoDup l.*1 → length l ≤ cap →
  (push_back cap k tv l = adel k l ++ [(k, tv)]) ∨
  ((k ∉ l.*1) ∧ length l = cap ∧ push_back cap k tv l = tail (l ++ [(k, tv)])).
Proof.
  intros Hd Hl. unfold push_back. case_decide as Hc; [right|by left].
  rewrite length_app in Hc. simpl in Hc. pose proof (length_adel k l).
  destruct (decide (k ∈ l.*1)) as [Hin|Hin].
  - pose proof (length_adel_in _ _ Hin). lia.
  - rewrite adel_not_in by done. split_and!; [done| |done]. rewrite adel_not_in in Hc by done. lia.
Qed.

Lemma assoc_insert_eq now k v c :
  lru_wf now c → 0 < lru_capacity c →
  assoc k (entries (lru_insert now k v c)) = Some (mkTimedValue v now).
Proof.
  intros Hwf Hc. rewrite entries_insert.
  destruct (push_back_cases (lru_capacity c) k (mkTimedValue v now) (entries c))
    as [->|(Hn & Hl & ->)]; [apply entries_NoDup|apply Hwf| |].
  - rewrite assoc_app, assoc_adel_eq. simpl. by rewrite decide_True.
  - apply assoc_None in Hn. destruct (entries c) as [|[k1 tv1] l]; [simpl in *; lia|].
    simpl in *. rewrite assoc_app. case_decide; [done|]. rewrite Hn. simpl. by rewrite decide_True.
Qed.

Lemma assoc_insert_ne now k v c k' :
  lru_wf now c → k' ≠ k →
  assoc k' (entries (lru_insert now k v c)) = assoc k' (entries c) ∨
  (assoc k' (entries (lru_insert now k v c)) = None ∧ (k ∉ (entries c).*1) ∧
   length (entries c) = lru_capacity c ∧
   ∃ tv, assoc k' (entries c) = Some tv ∧
     Forall (λ kv, last_access tv <= last_access kv.2)%Z (entries c)).
Proof.
  intros Hwf Hne. rewrite entries_insert. pose proof (entries_NoDup c) as Hd.
  destruct (push_back_cases (lru_capacity c) k (mkTimedValue v now) (entries c))
    as [->|(Hn & Hl & ->)]; [done|apply Hwf| |].
  - left. rewrite assoc_app, assoc_adel_ne by done. simpl. rewrite decide_False by done.
    by destruct assoc.
  - assert (∀ l, assoc k' (l ++ [(k, mkTimedValue v now)]) = assoc k' l) as Happ.
    { intros l. rewrite assoc_app. simpl. rewrite decide_False by done. by destruct assoc. }
    destruct Hwf as [_ Hs _]. destruct (entries c) as [|[k1 tv1] l]; simpl in *.
    { by left. }
    rewrite Happ. destruct (decide (k1 = k')) as [->|]; [right|by left].
    apply NoDup_cons in Hd as [Hn1 Hd]. apply assoc_None in Hn1. split_and!; [done..|].
    exists tv1. split; [done|]. inversion Hs as [|? ? _ Hf]; subst.
    constructor; [simpl; lia|]. exact (proj1 (Forall_fmap _ _ _) Hf).
Qed.

Lemma peek_insert now now' k v c :
  lru_wf now c → 0 < lru_capacity c → (now' <= now + lru_ttl c)%Z →
  lru_peek now' k (lru_insert now k v c) = Some v.
Proof.
  intros Hwf Hc Ht. rewrite lru_peek_entries, assoc_insert_eq by done. unfold is_expired. simpl.
  by rewrite (proj2 (Z.ltb_ge _ _)) by lia.
Qed.
End lookups.

(** ** What holds of every entry

    [lru_all Q c]: [Q] holds of the key, the value and the last access of every
    entry of [c].  The lemmas say what each operation needs to preserve it. *)

Section provenance.
Context {M : Type → Type → Type} `{LinkedHashMapLaws M} {K V : Type} `{EqDecision K}.
Implicit Types (c : LruCache M K V) (k : K) (v : V) (now : Instant).
Implicit Types (Q : K → V → Instant → Prop) (l : list (K * TimedValue V)).

Definition all_entries Q l : Prop := Forall (λ kv, Q kv.1 (data kv.2) (last_access kv.2)) l.
Definition lru_all Q c : Prop := all_entries Q (entries c).

Lemma all_entries_sublist Q l l' : l' `sublist_of` l → all_entries Q l → all_entries Q l'.
Proof. apply sublist_Forall_1. Qed.

Lemma all_entries_snoc Q k v t l :
  all_entries Q l → Q k v t → all_entries Q (adel k l ++ [(k, mkTimedValue v t)]).
Proof.
  intros Hl Hq. apply Forall_app. split; [|by constructor].
  eapply all_entries_sublist; [apply sublist_adel|done].
Qed.

Lemma all_entries_push_back Q cap k v t l :
  all_entries Q l → Q k v t → all_entries Q (push_back cap k (mkTimedValue v t) l).
Proof.
  intros Hl Hq. unfold push_back. pose proof (all_entries_snoc Q k v t l Hl Hq) as Hs.
  case_decide; [|done]. destruct (adel k l ++ _); [done|]. by apply Forall_cons in Hs as [].
Qed.

Lemma all_entries_assoc Q l k tv :
  all_entries Q l → assoc k l = Some tv → Q k (data tv) (last_access tv).
Proof. intros Hl Hk%assoc_elem_of. by apply (proj1 (Forall_forall _ _) Hl) in Hk. Qed.

Lemma lru_all_impl Q Q' c : (∀ k v t, Q k v t → Q' k v t) → lru_all Q c → lru_all Q' c.
Proof. intros Hi Hl. eapply Forall_impl; [done|]. naive_solver. Qed.

Lemma lru_all_new Q ttl cap : lru_all Q (lru_new (M:=M) ttl cap).
Proof. unfold lru_all, entries, lru_new. simpl. rewrite lhm_iter_default. constructor. Qed.

Lemma lru_all_insert Q now k v c : Q k v now → lru_all Q c → lru_all Q (lru_insert now k v c).
Proof. intros. unfold lru_all. rewrite entries_insert. by apply all_entries_push_back. Qed.

(** The old entry of the key goes. *)
Lemma lru_all_insert_ne Q now k v c :
  Q k v now → lru_all (λ k' v' t, k' ≠ k → Q k' v' t) c → lru_all Q (lru_insert now k v c).
Proof.
  intros Hq Hl. unfold lru_all in *. rewrite entries_insert. unfold push_back.
  assert (all_entries Q (adel k (entries c) ++ [(k, mkTimedValue v now)])) as Ha.
  { unfold all_entries in *. apply Forall_app. split; [|by constructor]. rewrite Forall_forall in *.
    intros kv [Hne Hin]%elem_of_adel. by apply (Hl kv). }
  case_decide; [|done]. destruct (adel k _ ++ _); [done|]. by apply Forall_cons in Ha as [].
Qed.

Lemma lru_all_remove Q k c : lru_all Q c → lru_all Q (lru_remove k c).2.
Proof. unfold lru_all. rewrite entries_remove. apply all_entries_sublist, sublist_adel. Qed.

Lemma lru_all_remove_expired Q now c : lru_all Q c → lru_all Q (remove_expired now c).2.
Proof.
  unfold lru_all. rewrite entries_remove_expired. apply all_entries_sublist, drop_while_sublist.
Qed.

(** Looking a key up through [get] and removing it keeps a part of the cache. *)
Lemma lru_all_get_remove Q now k c :
  lru_all Q c → lru_all Q (lru_remove k (lru_get now k c).2).2.
Proof.
  unfold lru_all. rewrite entries_remove. destruct (entries_get now k c) as [_ ->]. intros Hl.
  pose proof (all_entries_sublist Q _ _
    (drop_while_sublist (λ kv, is_expired kv.2 (lru_ttl c) now) (entries c)) Hl) as Hd.
  destruct (assoc k _) as [tv|].
  - unfold adel at 1. rewrite filter_app. apply Forall_app. split.
    + eapply all_entries_sublist; [apply sublist_filter|].
      eapply all_entries_sublist; [apply sublist_adel|done].
    + rewrite filter_cons_False by (simpl; tauto). constructor.
  - eapply all_entries_sublist; [apply sublist_adel|done].
Qed.

Lemma lru_all_get Q now k c :
  (∀ v t, Q k v t → Q k v now) → lru_all Q c → lru_all Q (lru_get now k c).2.
Proof.
  unfold lru_all. destruct (entries_get now k c) as [_ ->]. intros Hu Hl.
  pose proof (all_entries_sublist Q _ _
    (drop_while_sublist (λ kv, is_expired kv.2 (lru_ttl c) now) (entries c)) Hl) as Hd.
  destruct (assoc k _) as [tv|] eqn:E; [|done]. apply all_entries_snoc; [done|].
  exact (Hu _ _ (all_entries_assoc _ _ _ _ Hd E)).
Qed.

Lemma lru_get_None now k c : (lru_get now k c).1 = None → (lru_get now k c).2 = (remove_expired now c).2.
Proof. unfold lru_get. by destruct lhm_get. Qed.

Lemma lru_all_entry Q now k upd c :
  (upd = true → ∀ v t, (now <= t + lru_ttl c)%Z → Q k v t → Q k v now) → lru_all Q c → lru_all Q (lru_entry now k upd c).2.
Proof.
  intros Hu Hl. unfold lru_all. destruct (assoc k (entries c)) as [tv|] eqn:E.
  - destruct (is_expired tv (lru_ttl c) now) eqn:Ex.
    + destruct (entry_expired now k upd c tv E Ex) as [_ ->].
      eapply all_entries_sublist; [apply sublist_adel|done].
    + destruct (entry_occupied now k upd c tv E Ex) as [_ ->]. destruct upd; [|done].
      apply all_entries_snoc; [done|].
      apply (Hu eq_refl _ (last_access tv)); [by apply Z.ltb_ge in Ex|exact (all_entries_assoc _ _ _ _ Hl E)].
  - by rewrite entry_vacant.
Qed.

Lemma all_entries_aset Q k tv l :
  Q k (data tv) (last_access tv) → all_entries Q l → all_entries Q (aset k tv l).
Proof.
  intros Hq Hl. unfold aset. apply Forall_fmap. eapply Forall_impl; [done|].
  intros [k' tv'] Hkv. simpl in *. case_decide; by subst.
Qed.

Lemma lru_all_occupied_set Q k v c :
  (∀ tv, assoc k (entries c) = Some tv → Q k (data tv) (last_access tv) → Q k v (last_access tv)) →
  lru_all Q c → lru_all Q (occupied_set (mkOccupiedEntry k) v c).
Proof.
  intros Hu Hl. destruct (assoc k (entries c)) as [tv|] eqn:E.
  - unfold lru_all. rewrite (entries_occupied_set _ _ _ tv E). apply all_entries_aset; [|done].
    exact (Hu tv eq_refl (all_entries_assoc _ _ _ _ Hl E)).
  - unfold occupied_set. simpl. rewrite lhm_get_iter. unfold entries in E. by rewrite E.
Qed.

Lemma lru_all_occupied_remove Q k c :
  lru_all Q c → lru_all Q (occupied_remove (mkOccupiedEntry k) c).
Proof. unfold lru_all. rewrite entries_occupied_remove. apply all_entries_sublist, sublist_adel. Qed.

Lemma lru_all_vacant_insert Q now k v c cap :
  Q k v now → lru_all Q c → lru_all Q (vacant_insert now (mkVacantEntry k cap) v c).
Proof.
  intros Hq Hl. destruct (assoc k (entries c)) as [tv|] eqn:E.
  - unfold vacant_insert. simpl. rewrite lhm_get_iter. unfold entries in E. by rewrite E.
  - unfold lru_all. rewrite entries_vacant_insert by done. by apply all_entries_push_back.
Qed.

Lemma occupied_get_assoc k c :
  occupied_get (mkOccupiedEntry k) c = data <$> assoc k (entries c).
Proof. unfold occupied_get. simpl. by rewrite lhm_get_iter. Qed.

(** What [peek] finds satisfies [Q], at an access no older than the time to
    live. *)
Lemma lru_all_peek Q now k v c :
  lru_all Q c → lru_peek now k c = Some v → ∃ t, Q k v t ∧ (now <= t + lru_ttl c)%Z.
Proof.
  intros Hl. unfold lru_peek. rewrite lhm_get_iter. fold (entries c).
  destruct (assoc k (entries c)) as [tv|] eqn:E; [|done].
  destruct (is_expired tv (lru_ttl c) now) eqn:Ex; [done|]. intros [= <-].
  exists (last_access tv). split; [by eapply all_entries_assoc|].
  unfold is_expired in Ex. apply Z.ltb_ge in Ex. lia.
Qed.
End provenance.

#[export] Hint Resolve lru_all_remove lru_all_remove_expired lru_all_get_remove
  lru_all_occupied_remove lru_all_new : lru.

(** ** Caches with their invariant

    [cache_ok]: the cache has the time to live and the capacity it was made
    with, satisfies its invariant, and [Q] holds of every entry. *)

Section cache_ok.
Context {M : Type → Type → Type} `{LinkedHashMapLaws M} {K V : Type} `{EqDecision K}.
Context (ttl : Duration) (cap : nat).
Implicit Types (c : LruCache M K V) (k : K) (v : V) (now : Instant).
Implicit Types (Q : K → V → Instant → Prop).

Record cache_ok now Q c : Prop := {
  ok_wf : lru_wf now c;
  ok_ttl : lru_ttl c = ttl;
  ok_capacity : lru_capacity c = cap;
  ok_all : lru_all Q c
}.

Lemma cache_ok_new now Q : cache_ok now Q (lru_new ttl cap).
Proof. split; auto with lru. Qed.

Lemma cache_ok_later now now' Q c : (now <= now')%Z → cache_ok now Q c → cache_ok now' Q c.
Proof. intros ? []. split; [by eapply lru_wf_later|done..]. Qed.

Lemma cache_ok_impl now Q Q' c :
  (∀ k v t, Q k v t → Q' k v t) → cache_ok now Q c → cache_ok now Q' c.
Proof. intros ? []. split; [done..|]. by eapply lru_all_impl. Qed.

Lemma cache_ok_insert now Q k v c :
  Q k v now → cache_ok now Q c → cache_ok now Q (lru_insert now k v c).
Proof. intros ? []. split; [auto with lru|done..|by apply lru_all_insert]. Qed.

Lemma cache_ok_insert_ne now Q Q' k v c :
  Q' k v now → (∀ k' v' t, Q k' v' t → k' ≠ k → Q' k' v' t) → cache_ok now Q c → cache_ok now Q' (lru_insert now k v c).
Proof.
  intros Hq Hi []. split; [auto with lru|done..|]. apply lru_all_insert_ne; [done|].
  eapply lru_all_impl; [|done]. eauto.
Qed.

Lemma cache_ok_get now Q k c :
  (∀ v t, Q k v t → Q k v now) → cache_ok now Q c → cache_ok now Q (lru_get now k c).2.
Proof.
  intros Hq []. split; [by apply lru_wf_get| | |by apply lru_all_get];
    unfold lru_get; by destruct lhm_get.
Qed.

Lemma cache_ok_remove now Q k c : cache_ok now Q c → cache_ok now Q (lru_remove k c).2.
Proof. intros []. split; [by apply lru_wf_remove|done..|by apply lru_all_remove]. Qed.

Lemma cache_ok_len now Q c : cache_ok now Q c → cache_ok now Q (lru_len now c).2.
Proof. intros []. split; [by apply lru_wf_remove_expired|done..|by apply lru_all_remove_expired]. Qed.

Lemma cache_ok_get_None now Q k c :
  (lru_get now k c).1 = None → cache_ok now Q c → cache_ok now Q (lru_get now k c).2.
Proof. intros ->%lru_get_None []. split; [by apply lru_wf_remove_expired|done..|by apply lru_all_remove_expired]. Qed.

Lemma cache_ok_get_remove now Q k c :
  cache_ok now Q c → cache_ok now Q (lru_remove k (lru_get now k c).2).2.
Proof.
  intros []. assert (lru_ttl (lru_get now k c).2 = lru_ttl c ∧
                     lru_capacity (lru_get now k c).2 = lru_capacity c) as []
    by (unfold lru_get; by destruct lhm_get).
  split; [by apply lru_wf_remove, lru_wf_get|simpl; congruence..|by apply lru_all_get_remove].
Qed.

(** Read a key and remove it when it is there. *)
Lemma cache_ok_get_cases now Q k c (v : option V) c' :
  lru_get now k c = (v, c') → cache_ok now Q c →
  match v with
  | Some _ => cache_ok now Q (lru_remove k c').2
  | None => cache_ok now Q c'
  end.
Proof.
  intros E Hc. replace c' with (lru_get now k c).2 by (by rewrite E). destruct v.
  - by apply cache_ok_get_remove.
  - apply cache_ok_get_None; [by rewrite E|done].
Qed.

Lemma cache_ok_entry now Q k upd c :
  (upd = true → ∀ v t, (now <= t + ttl)%Z → Q k v t → Q k v now) →
  cache_ok now Q c → cache_ok now Q (lru_entry now k upd c).2.
Proof.
  intros Hu [? Httl ? ?]. rewrite <-Httl in Hu. destruct (lru_entry now k upd c) as [e c'] eqn:E.
  destruct (lru_entry_key _ _ _ _ _ _ E) as (? & ? & _).
  replace c' with (lru_entry now k upd c).2 in * by (by rewrite E).
  split; [by apply lru_wf_entry|simpl; congruence..|by apply lru_all_entry].
Qed.

Lemma cache_ok_entry_cases now Q k upd c e c' :
  lru_entry now k upd c = (e, c') →
  (upd = true → ∀ v t, (now <= t + ttl)%Z → Q k v t → Q k v now) → cache_ok now Q c →
  cache_ok now Q c' ∧
  match e with
  | Occupied e => e = mkOccupiedEntry k
  | Vacant e => e = mkVacantEntry k (lru_capacity c')
  end.
Proof.
  intros E Hu Hc. destruct (lru_entry_key _ _ _ _ _ _ E) as (_ & _ & He). split; [|done].
  pose proof (cache_ok_entry now Q k upd c Hu Hc) as Hc'. by rewrite E in Hc'.
Qed.

Lemma cache_ok_occupied_set now Q k v c :
  (∀ tv, assoc k (entries c) = Some tv → Q k (data tv) (last_access tv) → Q k v (last_access tv)) →
  cache_ok now Q c → cache_ok now Q (occupied_set (mkOccupiedEntry k) v c).
Proof.
  intros Hu []. assert (lru_ttl (occupied_set (mkOccupiedEntry k) v c) = lru_ttl c ∧
    lru_capacity (occupied_set (mkOccupiedEntry k) v c) = lru_capacity c) as []
    by (unfold occupied_set; by destruct lhm_get).
  split; [by apply lru_wf_occupied_set|congruence..|by apply lru_all_occupied_set].
Qed.

(** Writing through an occupied entry: the new value may use the old one. *)
Lemma cache_ok_occupied_update now Q k v v' c :
  occupied_get (mkOccupiedEntry k) c = Some v → (∀ t, Q k v t → Q k v' t) →
  cache_ok now Q c → cache_ok now Q (occupied_set (mkOccupiedEntry k) v' c).
Proof.
  rewrite occupied_get_assoc. intros Hg Hu. apply cache_ok_occupied_set.
  intros tv Htv. rewrite Htv in Hg. simplify_eq/=. auto.
Qed.

Lemma cache_ok_occupied_remove now Q k c :
  cache_ok now Q c → cache_ok now Q (occupied_remove (mkOccupiedEntry k) c).
Proof. intros []. split; [by apply lru_wf_occupied_remove|done..|by apply lru_all_occupied_remove]. Qed.

Lemma cache_ok_vacant_insert now Q k v c :
  Q k v now → cache_ok now Q c →
  cache_ok now Q (vacant_insert now (mkVacantEntry k (lru_capacity c)) v c).
Proof.
  intros Hq []. assert (lru_ttl (vacant_insert now (mkVacantEntry k (lru_capacity c)) v c) = lru_ttl c ∧
    lru_capacity (vacant_insert now (mkVacantEntry k (lru_capacity c)) v c) = lru_capacity c) as []
    by (unfold vacant_insert; by destruct lhm_get).
  split; [by apply lru_wf_vacant_insert|congruence..|by apply lru_all_vacant_insert].
Qed.
End cache_ok.

#[export] Hint Resolve cache_ok_new cache_ok_insert cache_ok_remove cache_ok_len
  cache_ok_get_None cache_ok_get_remove cache_ok_occupied_remove cache_ok_vacant_insert : lru.

(** ** How long an entry stays

    [lru_recent n k v t c]: the key has the value, accessed at [t] or later, and
    at most [n] entries were accessed after it.  An operation on another key adds
    at most one to them, so an entry outlives fewer operations than the capacity,
    within its time to live. *)

Section survival.
Context {M : Type → Type → Type} `{LinkedHashMapLaws M} {K V : Type} `{EqDecision K}.
Implicit Types (c : LruCache M K V) (k : K) (v : V) (now t : Instant) (n : nat).
Implicit Types (l : list (K * TimedValue V)).

Definition recent n k v t l : Prop := ∃ pre tv post,
  l = pre ++ (k, tv) :: post ∧ length post ≤ n ∧ data tv = v ∧ (t <= last_access tv)%Z.
Definition lru_recent n k v t c : Prop := recent n k v t (entries c).

Lemma recent_le n n' k v t l : n ≤ n' → recent n k v t l → recent n' k v t l.
Proof. intros Hn (pre & tv & post & -> & ? & ? & ?). exists pre, tv, post. split_and!; [done|lia|done..]. Qed.

Lemma recent_earlier n k v t t' l : (t' <= t)%Z → recent n k v t l → recent n k v t' l.
Proof. intros Ht (pre & tv & post & -> & ? & ? & ?). exists pre, tv, post. split_and!; [done..|lia]. Qed.

Lemma recent_last k v t t' l : (t <= t')%Z → recent 0 k v t (l ++ [(k, mkTimedValue v t')]).
Proof. intros Ht. by exists l, (mkTimedValue v t'), []. Qed.

Lemma recent_adel n k v t k' l : k' ≠ k → recent n k v t l → recent n k v t (adel k' l).
Proof.
  intros Hne (pre & tv & post & -> & Hl & ? & ?). exists (adel k' pre), tv, (adel k' post).
  unfold adel at 1. rewrite filter_app, filter_cons_True by (simpl; congruence).
  pose proof (length_adel k' post). split_and!; [done|lia|done..].
Qed.

Lemma recent_snoc n k v t l x : recent n k v t l → recent (S n) k v t (l ++ [x]).
Proof.
  intros (pre & tv & post & -> & Hl & ? & ?). exists pre, tv, (post ++ [x]).
  rewrite <-app_assoc, length_app. simpl. split_and!; [done|lia|done..].
Qed.

Lemma recent_tail n k v t l : S n < length l → recent n k v t l → recent n k v t (tail l).
Proof.
  intros Hlen (pre & tv & post & -> & Hl & ? & ?). rewrite length_app in Hlen. simpl in Hlen.
  destruct pre as [|x pre]; simpl in *; [lia|]. by exists pre, tv, post.
Qed.

Lemma recent_push_back n k v t cap k' tv' l : k' ≠ k → S n < cap →
  recent n k v t l → recent (S n) k v t (push_back cap k' tv' l).
Proof.
  intros Hne Hn Hr. apply (recent_adel _ _ _ _ k'), (recent_snoc _ _ _ _ _ (k', tv')) in Hr; [|done].
  unfold push_back. case_decide; [|done]. apply recent_tail; [lia|done].
Qed.

Lemma recent_drop_while n k v t now ttl l : (now <= t + ttl)%Z →
  recent n k v t l → recent n k v t (drop_while (λ kv, is_expired kv.2 ttl now) l).
Proof.
  intros Ht (pre & tv & post & -> & Hr). induction pre as [|x pre IH]; simpl.
  - unfold is_expired. rewrite (proj2 (Z.ltb_ge _ _)) by (destruct Hr as (_ & _ & ?); lia). by exists [], tv, post.
  - destruct (is_expired x.2 ttl now); [exact IH|]. by exists (x :: pre), tv, post.
Qed.

Lemma recent_aset n k v t k' tv' l : k' ≠ k → recent n k v t l → recent n k v t (aset k' tv' l).
Proof.
  intros Hne (pre & tv & post & -> & Hl & Hr). exists (aset k' tv' pre), tv, (aset k' tv' post).
  unfold aset. rewrite fmap_app, length_fmap. csimpl. by rewrite decide_False.
Qed.

Lemma recent_assoc n k v t l : NoDup l.*1 → recent n k v t l →
  ∃ tv, assoc k l = Some tv ∧ data tv = v ∧ (t <= last_access tv)%Z.
Proof.
  intros Hd (pre & tv & post & -> & _ & Hr). exists tv. split; [|done].
  apply elem_of_assoc; [done|]. apply elem_of_app. right. by left.
Qed.

Lemma recent_peek n k v t now c : (now <= t + lru_ttl c)%Z → lru_recent n k v t c → lru_peek now k c = Some v.
Proof.
  intros Ht Hr. destruct (recent_assoc _ _ _ _ _ (entries_NoDup c) Hr) as (tv & Ha & <- & Hle).
  rewrite lru_peek_entries, Ha. unfold is_expired. by rewrite (proj2 (Z.ltb_ge _ _)) by lia.
Qed.

(** The operations *)
Lemma recent_insert n k v t now k' v' c : k' ≠ k → S n < lru_capacity c →
  lru_recent n k v t c → lru_recent (S n) k v t (lru_insert now k' v' c).
Proof. intros. unfold lru_recent. rewrite entries_insert. by apply recent_push_back. Qed.

Lemma recent_insert_eq k v now c : 0 < lru_capacity c → lru_wf now c →
  lru_recent 0 k v now (lru_insert now k v c).
Proof.
  intros Hc Hwf. unfold lru_recent. rewrite entries_insert. unfold push_back. case_decide as Hl.
  - destruct (adel k (entries c)) as [|x l]; simpl in *; [lia|]. by apply recent_last.
  - by apply recent_last.
Qed.

Lemma recent_vacant_insert_eq k v now c e c1 upd : lru_wf now c → 0 < lru_capacity c →
  lru_entry now k upd c = (Vacant e, c1) → lru_recent 0 k v now (vacant_insert now e v c1).
Proof.
  intros Hwf Hc E. pose proof (lru_entry_peek now k upd c) as Hp. rewrite E in Hp. destruct Hp as (-> & _ & Hn).
  unfold lru_recent. rewrite entries_vacant_insert by done. unfold push_back. case_decide as Hl; [|by apply recent_last].
  destruct (adel k (entries c1)) as [|x l]; simpl in *; [lia|]. by apply recent_last.
Qed.

(** An entry that is refreshed, and one that is written *)
Lemma recent_refresh k v now c e c1 : lru_entry now k true c = (Occupied e, c1) →
  (∀ v0, lru_peek now k c = Some v0 → lru_recent 0 k v0 now c1) ∧ lru_recent 0 k v now (occupied_set e v c1).
Proof.
  intros E. pose proof (lru_entry_peek now k true c) as Hp. rewrite E in Hp. destruct Hp as (-> & [v0 Hv] & _).
  rewrite Hv. rewrite lru_peek_entries in Hv. destruct (assoc k (entries c)) as [tv|] eqn:Ha; [|done].
  destruct (is_expired tv (lru_ttl c) now) eqn:Ex; [done|]. simplify_eq.
  destruct (entry_occupied now k true c tv Ha Ex) as [_ He]. rewrite E in He. simpl in He. unfold lru_recent.
  split; [intros ? [= <-]; rewrite He; by apply recent_last|].
  assert (assoc k (entries c1) = Some (mkTimedValue (data tv) now)) as Ha1.
  { rewrite He, assoc_app, assoc_adel_eq. simpl. by rewrite decide_True. }
  rewrite (entries_occupied_set _ _ _ _ Ha1), He. unfold aset. rewrite fmap_app. csimpl. rewrite decide_True by done.
  by apply recent_last.
Qed.

Lemma recent_remove n k v t k' c : k' ≠ k → lru_recent n k v t c → lru_recent n k v t (lru_remove k' c).2.
Proof. intros. unfold lru_recent. rewrite entries_remove. by apply recent_adel. Qed.

Lemma recent_len n k v t now c : (now <= t + lru_ttl c)%Z → lru_recent n k v t c → lru_recent n k v t (lru_len now c).2.
Proof.
  intros. unfold lru_recent. change (lru_len now c).2 with (remove_expired now c).2.
  rewrite entries_remove_expired. by apply recent_drop_while.
Qed.

(** Reading a key, the same or another one *)
Lemma recent_get n k v t now k' c : (t <= now <= t + lru_ttl c)%Z →
  lru_recent n k v t c → lru_recent (S n) k v t (lru_get now k' c).2.
Proof.
  intros Ht Hr. unfold lru_recent in *. destruct (entries_get now k' c) as [_ ->].
  apply (recent_drop_while _ _ _ _ now (lru_ttl c)) in Hr; [|lia].
  destruct (assoc k' _) as [tv|] eqn:E; [|by eapply recent_le; [|done]; lia].
  destruct (decide (k' = k)) as [->|]; [|by apply recent_snoc, recent_adel].
  assert (NoDup (drop_while (λ kv, is_expired kv.2 (lru_ttl c) now) (entries c)).*1) as Hd
    by (eapply sublist_NoDup; [apply (entries_NoDup c)|apply fmap_sublist, drop_while_sublist]).
  destruct (recent_assoc _ _ _ _ _ Hd Hr) as (tv' & E' & <- & _).
  rewrite E in E'. injection E' as <-. eapply (recent_le 0); [lia|]. apply recent_last. lia.
Qed.

Lemma recent_entry n k v t now k' upd c e c' : k' ≠ k → lru_entry now k' upd c = (e, c') →
  lru_recent n k v t c → lru_recent (match e with Occupied _ => S n | Vacant _ => n end) k v t c'.
Proof.
  intros Hne E Hr. unfold lru_recent in *. destruct (assoc k' (entries c)) as [tv|] eqn:Ha.
  - destruct (is_expired tv (lru_ttl c) now) eqn:Ex.
    + destruct (entry_expired now k' upd c tv Ha Ex) as [E1 E2]. rewrite E in E1, E2. simpl in *. subst e.
      rewrite E2. by apply recent_adel.
    + destruct (entry_occupied now k' upd c tv Ha Ex) as [E1 E2]. rewrite E in E1, E2. simpl in *. subst e.
      rewrite E2. destruct upd; [by apply recent_snoc, recent_adel|by eapply recent_le; [|done]; lia].
  - rewrite entry_vacant in E by done. by simplify_eq.
Qed.

Lemma recent_occupied_set n k v t k' v' c : k' ≠ k →
  lru_recent n k v t c → lru_recent n k v t (occupied_set (mkOccupiedEntry k') v' c).
Proof.
  intros Hne Hr. unfold lru_recent. destruct (assoc k' (entries c)) as [tv|] eqn:E.
  - rewrite (entries_occupied_set _ _ _ _ E). by apply recent_aset.
  - unfold occupied_set. simpl. rewrite lhm_get_iter. unfold entries in E. by rewrite E.
Qed.

Lemma recent_occupied_remove n k v t k' c : k' ≠ k →
  lru_recent n k v t c → lru_recent n k v t (occupied_remove (mkOccupiedEntry k') c).
Proof. intros. unfold lru_recent. rewrite entries_occupied_remove. by apply recent_adel. Qed.

Lemma recent_vacant_insert n k v t now k' cap v' c : k' ≠ k → S n < cap →
  lru_recent n k v t c → lru_recent (S n) k v t (vacant_insert now (mkVacantEntry k' cap) v' c).
Proof.
  intros Hne Hn Hr. unfold lru_recent. destruct (assoc k' (entries c)) as [tv|] eqn:E.
  - unfold vacant_insert. simpl. rewrite lhm_get_iter. unfold entries in E. rewrite E. by eapply recent_le; [|done]; lia.
  - rewrite entries_vacant_insert by done. by apply recent_push_back.
Qed.
End survival.

(** ** The properties of the cache *)

Section properties.
Context {M : Type → Type → Type} `{LinkedHashMapLaws M} {K V : Type} `{EqDecision K}.
Implicit Types (c : LruCache M K V) (k : K) (v : V) (now : Instant).

(** Whatever sequence of operations built it, a cache never holds more
    than [capacity] entries, holds each key once, and keeps its entries
    ordered by last access. *)
Theorem lru_reachable_invariant ttl cap now c :
  lru_reach ttl cap now c →
  length (lru_iter c) ≤ cap ∧ NoDup (lru_iter c).*1 ∧
  StronglySorted Z.le (access_times (entries c)).
Proof.
  intros (Hwf & _ & <-)%lru_reach_wf. unfold lru_iter. rewrite length_fmap, <-list_fmap_compose.
  split_and!; [apply Hwf|apply entries_NoDup|apply Hwf].
Qed.

(** [len], which drops expired entries from the front only, counts what
    the reference [len_slow] counts by scanning the whole map, and leaves
    exactly the unexpired entries. *)
Theorem lru_len_is_len_slow ttl cap now c :
  lru_reach ttl cap now c →
  (lru_len now c).1 = lru_len_slow now c ∧
  entries (lru_len now c).2 = filter (λ kv, is_expired kv.2 ttl now = false) (entries c).
Proof.
  intros (Hwf & <- & _)%lru_reach_wf. pose proof (remove_expired_filter now c Hwf) as E.
  split; [|exact E]. unfold lru_len, lru_len_slow, map_len. cbn [fst snd].
  unfold entries in E. by rewrite E.
Qed.

(** The three ways to look a key up agree: [get] and [entry] find the
    value that [peek] finds, so no operation ever returns an expired value
    or misses an unexpired one. *)
Theorem lru_lookups_agree ttl cap now c k upd :
  lru_reach ttl cap now c →
  (lru_get now k c).1 = lru_peek now k c ∧
  match lru_entry now k upd c with
  | (Occupied e, c') =>
      oe_key e = k ∧ is_Some (lru_peek now k c) ∧ occupied_get e c' = lru_peek now k c
  | (Vacant e, c') => ve_key e = k ∧ lru_peek now k c = None ∧ lru_peek now k c' = None
  end.
Proof.
  intros (Hwf & _ & _)%lru_reach_wf. split; [by apply lru_get_peek|].
  pose proof (lru_entry_peek now k upd c) as He. destruct (lru_entry now k upd c) as [[e|e] c'].
  - destruct He as (-> & ? & ?). done.
  - destruct He as (-> & ? & Hn). by rewrite (lru_peek_entries now k c'), Hn.
Qed.

(** An inserted value is found until its time to live is over; every
    other key keeps its value, except that a full cache evicts one entry for
    a new key, and that entry is a least recently used one. *)
Theorem lru_insert_evicts_least_recent ttl cap now now' c k v :
  lru_reach ttl cap now c → 0 < cap →
  let c' := lru_insert now k v c in
  lru_peek now' k c' = (if (now + ttl <? now')%Z then None else Some v) ∧
  ∀ k', k' ≠ k →
    lru_peek now' k' c' = lru_peek now' k' c ∨
    (lru_peek now' k' c' = None ∧ (k ∉ (lru_iter c).*1) ∧ length (lru_iter c) = cap ∧
     ∃ tv, (k', tv) ∈ entries c ∧
       Forall (λ kv, last_access tv <= last_access kv.2)%Z (entries c)).
Proof.
  intros (Hwf & <- & <-)%lru_reach_wf Hc c'. split.
  { rewrite lru_peek_entries. unfold c'. by rewrite assoc_insert_eq. }
  intros k' Hne. rewrite !lru_peek_entries. change (lru_ttl c') with (lru_ttl c).
  destruct (assoc_insert_ne now k v c k' Hwf Hne) as [E|(E & Hn & Hl & tv & Ha & Hf)];
    unfold c'; rewrite E; [by left|right].
  unfold lru_iter. rewrite length_fmap, <-list_fmap_compose. split_and!; [done..|].
  exists tv. split; [by apply assoc_elem_of|done].
Qed.
End properties.

(** ** Witnesses

    A cache of two entries, 100 ms to live: keys 1 and 2 inserted at 0 and 10,
    key 1 read at 20. *)

Definition sample_cache : LruCache assoc_map nat nat :=
  lru_exec 20 (OpGet 1) (lru_exec 10 (OpInsert 2 8) (lru_exec 0 (OpInsert 1 7) (lru_new 100 2))).

Lemma sample_cache_reach : lru_reach 100 2 20 sample_cache.
Proof.
  unfold sample_cache. apply reach_exec. apply (reach_tick _ _ 10); [done|].
  apply reach_exec. apply (reach_tick _ _ 0); [done|]. apply reach_exec, reach_new.
Qed.

Lemma lru_reachable_invariant_witness :
  lru_iter sample_cache = [(2, 8); (1, 7)] ∧ length (lru_iter sample_cache) ≤ 2.
Proof. split; [vm_compute; reflexivity|]. apply (lru_reachable_invariant 100 2 20), sample_cache_reach. Defined.

Lemma lru_len_is_len_slow_witness :
  lru_len_slow 115 sample_cache = 1 ∧ (lru_len 115 sample_cache).1 = lru_len_slow 115 sample_cache.
Proof.
  split; [vm_compute; reflexivity|]. apply (lru_len_is_len_slow 100 2 115).
  apply (reach_tick _ _ 20); [done|apply sample_cache_reach].
Defined.

Lemma lru_lookups_agree_witness :
  lru_peek 115 1 sample_cache = Some 7 ∧ (lru_get 115 1 sample_cache).1 = lru_peek 115 1 sample_cache.
Proof.
  split; [vm_compute; reflexivity|]. apply (lru_lookups_agree 100 2 115 sample_cache 1 true).
  apply (reach_tick _ _ 20); [done|apply sample_cache_reach].
Defined.

Lemma lru_insert_evicts_least_recent_witness :
  lru_peek 30 3 (lru_insert 30 3 9 sample_cache) = Some 9 ∧
  lru_peek 30 2 (lru_insert 30 3 9 sample_cache) = None.
Proof.
  assert (lru_reach 100 2 30 sample_cache) as Hr
    by (apply (reach_tick _ _ 20); [done|apply sample_cache_reach]).
  split; [|vm_compute; reflexivity].
  apply (lru_insert_evicts_least_recent 100 2 30 30 sample_cache 3 9 Hr). lia.
Defined.
