(* ===== verification/NetTypes.v ===== *)
(** * Keys, addresses and packets

    The shared vocabulary of the components: public keys ([telio-crypto]),
    the addresses of [std::net], and the packet views of the [pnet_packet]
    crate.  The crate is not part of the repository: [Pnet] is the interface
    the firewall uses of it, and every definition that parses or builds a
    packet takes it as a parameter.  [RfcPnet] is an implementation of the
    parsing half after the RFCs' header layouts, used to run the model on
    concrete packets. *)

From S2P Require Import Prelude.

(** ** Public keys *)

(** [telio_crypto::PublicKey], a newtype of [[u8; KEY_SIZE]] *)
Record PublicKey := mkPublicKey { key_bytes : bytes }.

#[export] Instance PublicKey_eq_dec : EqDecision PublicKey.
Proof. solve_decision. Defined.

#[export] Instance PublicKey_countable : Countable PublicKey.
Proof. apply (inj_countable' key_bytes mkPublicKey). by intros []. Defined.

(** ** Addresses *)

(** [std::net::IpAddr]; an address is the number it stands for, in 32 or 128
    bits. *)
Inductive StdIpAddr :=
| V4 (a : Z)
| V6 (a : Z).

#[export] Instance StdIpAddr_eq_dec : EqDecision StdIpAddr.
Proof. solve_decision. Defined.

#[export] Instance StdIpAddr_countable : Countable StdIpAddr.
Proof.
  apply (inj_countable' (λ a, match a with V4 a => inl a | V6 a => inr a end)
                        (λ s, match s with inl a => V4 a | inr a => V6 a end)). by intros [].
Defined.

Definition ipv4_addr (a b c d : Z) : Z := be_bytes [a; b; c; d].

Definition ipv6_addr (segments : list Z) : Z :=
  fold_left (λ acc s, acc * 65536 + s)%Z segments 0%Z.

(** [Ipv4Addr::is_private]: 10/8, 172.16/12 and 192.168/16 *)
Definition ipv4_is_private (a : Z) : bool :=
  (Z.shiftr a 24 =? 10)%Z || (Z.shiftr a 20 =? 172 * 16 + 1)%Z || (Z.shiftr a 16 =? 192 * 256 + 168)%Z.

(** [Ipv6Addr::segments] *)
Definition ipv6_segments (a : Z) : list Z :=
  (λ i, Z.land (Z.shiftr a (16 * Z.of_nat i)) 65535) <$> [7; 6; 5; 4; 3; 2; 1; 0].

(** [std::net::SocketAddr]; an IPv6 one has a flow label and a scope too *)
Inductive SocketAddr :=
| SocketAddrV4 (ip port : Z)
| SocketAddrV6 (ip port flowinfo scope_id : Z).

(** [SocketAddr::ip] *)
Definition socket_ip (a : SocketAddr) : StdIpAddr :=
  match a with SocketAddrV4 ip _ => V4 ip | SocketAddrV6 ip _ _ _ => V6 ip end.

(** [SocketAddr::new] *)
Definition socket_addr_new (ip : StdIpAddr) (port : Z) : SocketAddr :=
  match ip with
  | V4 a => SocketAddrV4 a port
  | V6 a => SocketAddrV6 a port 0 0
  end.

#[export] Instance SocketAddr_eq_dec : EqDecision SocketAddr.
Proof. solve_decision. Defined.

(** ** [pnet_packet] *)

Class Pnet := {
  Ipv4Packet : Type;
  ipv4_new : bytes → option Ipv4Packet;
  ipv4_get_version : Ipv4Packet → Z;
  ipv4_get_header_length : Ipv4Packet → Z;
  ipv4_get_next_level_protocol : Ipv4Packet → Z;
  ipv4_get_source : Ipv4Packet → Z;
  ipv4_get_destination : Ipv4Packet → Z;
  ipv4_packet : Ipv4Packet → bytes;
  ipv4_payload : Ipv4Packet → bytes;

  Ipv6Packet : Type;
  ipv6_new : bytes → option Ipv6Packet;
  ipv6_get_version : Ipv6Packet → Z;
  ipv6_get_payload_length : Ipv6Packet → Z;
  ipv6_get_next_header : Ipv6Packet → Z;
  ipv6_get_source : Ipv6Packet → Z;
  ipv6_get_destination : Ipv6Packet → Z;
  ipv6_packet : Ipv6Packet → bytes;
  ipv6_payload : Ipv6Packet → bytes;

  TcpPacket : Type;
  tcp_new : bytes → option TcpPacket;
  tcp_get_source : TcpPacket → Z;
  tcp_get_destination : TcpPacket → Z;
  tcp_get_sequence : TcpPacket → Z;
  tcp_get_flags : TcpPacket → Z;
  tcp_payload : TcpPacket → bytes;

  UdpPacket : Type;
  udp_new : bytes → option UdpPacket;
  udp_get_source : UdpPacket → Z;
  udp_get_destination : UdpPacket → Z;

  IcmpPacket : Type;
  icmp_new : bytes → option IcmpPacket;
  icmp_get_type : IcmpPacket → Z;
  icmp_payload : IcmpPacket → bytes
}.

(** *** The numbers the crate names *)

Module IpNextHeaderProtocols.
Definition Icmp : Z := 1.
Definition Tcp : Z := 6.
Definition Udp : Z := 17.
Definition Icmpv6 : Z := 58.
End IpNextHeaderProtocols.

Module TcpFlags.
Definition FIN : Z := 1.
Definition SYN : Z := 2.
Definition RST : Z := 4.
Definition ACK : Z := 16.
End TcpFlags.

Module IcmpTypes.
Definition EchoReply : Z := 0.
Definition DestinationUnreachable : Z := 3.
Definition EchoRequest : Z := 8.
Definition TimeExceeded : Z := 11.
Definition ParameterProblem : Z := 12.
Definition Timestamp : Z := 13.
Definition TimestampReply : Z := 14.
Definition InformationRequest : Z := 15.
Definition InformationReply : Z := 16.
Definition AddressMaskRequest : Z := 17.
Definition AddressMaskReply : Z := 18.
End IcmpTypes.

Module Icmpv6Types.
Definition DestinationUnreachable : Z := 1.
Definition PacketTooBig : Z := 2.
Definition TimeExceeded : Z := 3.
Definition ParameterProblem : Z := 4.
Definition EchoRequest : Z := 128.
Definition EchoReply : Z := 129.
Definition RouterAdvert : Z := 134.
Definition NeighborSolicit : Z := 135.
Definition NeighborAdvert : Z := 136.
End Icmpv6Types.

(** *** Packets as the RFCs lay them out

    A view is its buffer, and exists when the buffer holds the fixed header. *)

Module Rfc.
Definition view (min_size : nat) (b : bytes) : option bytes :=
  if decide (min_size ≤ length b) then Some b else None.

Definition field (off n : nat) (b : bytes) : Z := be_bytes (take n (drop off b)).

Definition byte (off : nat) (b : bytes) : Z := field off 1 b.

(** IPv4 payload: from the end of the header to the total length. *)
Definition ipv4_payload (b : bytes) : bytes :=
  let start := Z.to_nat (4 * Z.land (byte 0 b) 15) in
  drop start (take (Z.to_nat (field 2 2 b)) b).

Definition ipv6_payload (b : bytes) : bytes :=
  take (Z.to_nat (field 4 2 b)) (drop 40 b).

Definition tcp_payload (b : bytes) : bytes :=
  drop (Z.to_nat (4 * Z.shiftr (byte 12 b) 4)) b.
End Rfc.

Definition RfcPnet : Pnet := {|
  Ipv4Packet := bytes;
  ipv4_new := Rfc.view 20;
  ipv4_get_version b := Z.shiftr (Rfc.byte 0 b) 4;
  ipv4_get_header_length b := Z.land (Rfc.byte 0 b) 15;
  ipv4_get_next_level_protocol := Rfc.byte 9;
  ipv4_get_source := Rfc.field 12 4;
  ipv4_get_destination := Rfc.field 16 4;
  ipv4_packet b := b;
  ipv4_payload := Rfc.ipv4_payload;
  Ipv6Packet := bytes;
  ipv6_new := Rfc.view 40;
  ipv6_get_version b := Z.shiftr (Rfc.byte 0 b) 4;
  ipv6_get_payload_length := Rfc.field 4 2;
  ipv6_get_next_header := Rfc.byte 6;
  ipv6_get_source := Rfc.field 8 16;
  ipv6_get_destination := Rfc.field 24 16;
  ipv6_packet b := b;
  ipv6_payload := Rfc.ipv6_payload;
  TcpPacket := bytes;
  tcp_new := Rfc.view 20;
  tcp_get_source := Rfc.field 0 2;
  tcp_get_destination := Rfc.field 2 2;
  tcp_get_sequence := Rfc.field 4 4;
  tcp_get_flags := Rfc.byte 13;
  tcp_payload := Rfc.tcp_payload;
  UdpPacket := bytes;
  udp_new := Rfc.view 8;
  udp_get_source := Rfc.field 0 2;
  udp_get_destination := Rfc.field 2 2;
  IcmpPacket := bytes;
  icmp_new := Rfc.view 4;
  icmp_get_type := Rfc.byte 0;
  icmp_payload := drop 4
|}.
