(* ===== verification/Firewall.v ===== *)
(** * [telio-firewall]: the stateful packet filter ([firewall.rs])

    The state of [StatefullFirewall], its packet handlers and its whitelists.
    Each handler takes the firewall and returns it updated, together with the
    verdict where the Rust function has one.  The locks of the source guard
    state that one call reads and writes as a whole; a call is one step of the
    model, and reads [Instant::now()] once, as [now].  [local_addrs] are the
    addresses of the interfaces in the process-wide [LOCAL_ADDRS_CACHE]. *)

From S2P Require Import Prelude LruCache NetTypes.

(** [ipnet::Ipv4Net], of a crate outside the repository *)
Class Ipnet := {
  Ipv4Net : Type;
  ipv4net_contains : Ipv4Net → Z → bool
}.

(** ** Constants *)

Definition LRU_CAPACITY : nat := 4096.
Definition LRU_TIMEOUT : Duration := 120000.

Definition TCP_FIRST_PKT_MASK : Z := Z.lor TcpFlags.SYN TcpFlags.ACK.

Definition ICMP_BLOCKED_TYPES : list Z :=
  [IcmpTypes.EchoRequest; IcmpTypes.Timestamp; IcmpTypes.InformationRequest;
   IcmpTypes.AddressMaskRequest].

Definition ICMPV6_BLOCKED_TYPES : list Z :=
  [Icmpv6Types.EchoRequest; Icmpv6Types.RouterAdvert; Icmpv6Types.NeighborSolicit;
   Icmpv6Types.NeighborAdvert].

Definition FILE_SEND_PORT : Z := 49111.

(** ** Data *)

Inductive Permissions := IncomingConnections | LocalAreaConnections | RoutingConnections.

(** [Permissions::VALUES] *)
Definition Permissions_VALUES : list Permissions :=
  [IncomingConnections; LocalAreaConnections; RoutingConnections].

Inductive PacketAction := PassThrough | Drop | HandleLocally.

#[export] Instance Permissions_eq_dec : EqDecision Permissions.
Proof. solve_decision. Defined.
#[export] Instance PacketAction_eq_dec : EqDecision PacketAction.
Proof. solve_decision. Defined.

(** [enum_map::EnumMap<Permissions, HashSet<PublicKey>>]: one set for each
    permission *)
Record PeerWhitelists := mkPeerWhitelists {
  incoming_connections : gset PublicKey;
  local_area_connections : gset PublicKey;
  routing_connections : gset PublicKey
}.

Definition peers_of (w : PeerWhitelists) (p : Permissions) : gset PublicKey :=
  match p with
  | IncomingConnections => incoming_connections w
  | LocalAreaConnections => local_area_connections w
  | RoutingConnections => routing_connections w
  end.

Definition set_peers_of (p : Permissions) (s : gset PublicKey) (w : PeerWhitelists)
    : PeerWhitelists :=
  match p with
  | IncomingConnections =>
      mkPeerWhitelists s (local_area_connections w) (routing_connections w)
  | LocalAreaConnections =>
      mkPeerWhitelists (incoming_connections w) s (routing_connections w)
  | RoutingConnections =>
      mkPeerWhitelists (incoming_connections w) (local_area_connections w) s
  end.

Record Whitelist := mkWhitelist {
  port_whitelist : gmap PublicKey Z;
  peer_whitelists : PeerWhitelists;
  vpn_peer : option PublicKey
}.

(** [Whitelist::default()] *)
Definition whitelist_default : Whitelist := mkWhitelist ∅ (mkPeerWhitelists ∅ ∅ ∅) None.

(** [Whitelist::is_port_whitelisted] *)
Definition is_port_whitelisted (w : Whitelist) (peer : PublicKey) (port : Z) : bool :=
  match port_whitelist w !! peer with
  | Some p => (p =? port)%Z
  | None => false
  end.

Definition is_peer_whitelisted (w : Whitelist) (peer : PublicKey) (p : Permissions) : bool :=
  bool_decide (peer ∈ peers_of (peer_whitelists w) p).

Record UdpConnectionInfo := mkUdpConnectionInfo {
  is_remote_initiated : bool;
  last_out_pkg_chunk : option bytes
}.

(** [UdpConnectionInfo::LAST_PKG_MAX_CHUNK_LEN] *)
Definition LAST_PKG_MAX_CHUNK_LEN : nat := 60 + 8.

Record TcpConnectionInfo := mkTcpConnectionInfo {
  tx_alive : bool;
  rx_alive : bool;
  conn_remote_initiated : bool;
  next_seq : option Z
}.

Inductive IpAddr :=
| Ipv4 (a : Z)
| Ipv6 (a : Z).

(** [From<IpAddr> for StdIpAddr] *)
Definition std_of_ip_addr (a : IpAddr) : StdIpAddr :=
  match a with
  | Ipv4 a => V4 a
  | Ipv6 a => V6 a
  end.

Record IpConnWithPort := mkIpConnWithPort {
  conn_remote_addr : IpAddr;
  remote_port : Z;
  conn_local_addr : IpAddr;
  local_port : Z
}.

Record Connection := mkConnection {
  link : IpConnWithPort;
  conn_pubkey : PublicKey
}.

Record IcmpConn := mkIcmpConn {
  icmp_remote_addr : IpAddr;
  icmp_local_addr : IpAddr;
  response_type : Z;
  identifier_sequence : Z;
  icmp_pubkey : PublicKey
}.

#[export] Instance IpAddr_eq_dec : EqDecision IpAddr.
Proof. solve_decision. Defined.
#[export] Instance IpConnWithPort_eq_dec : EqDecision IpConnWithPort.
Proof. solve_decision. Defined.
#[export] Instance Connection_eq_dec : EqDecision Connection.
Proof. solve_decision. Defined.
#[export] Instance IcmpConn_eq_dec : EqDecision IcmpConn.
Proof. solve_decision. Defined.

Inductive IcmpErrorKey :=
| ErrUdp (link : option IpConnWithPort)
| ErrTcp (link : option IpConnWithPort)
| ErrIcmp (key : option IcmpConn)
| ErrNone.

Definition IcmpKey : Type := result IcmpErrorKey IcmpConn.

(** [FeatureFirewall] of [telio-model/src/features.rs] *)
Record FeatureFirewall `{Ipnet} := mkFeatureFirewall {
  neptun_reset_conns : bool;
  boringtun_reset_conns : bool;
  exclude_private_ip_range : option Ipv4Net
}.

Record StatefullFirewall (M : Type → Type → Type) `{Ipnet} := mkFirewall {
  udp : LruCache M Connection UdpConnectionInfo;
  tcp : LruCache M Connection TcpConnectionInfo;
  icmp : LruCache M IcmpConn unit;
  whitelist : Whitelist;
  allow_ipv6 : bool;
  record_whitelisted : bool;
  ip_addresses : list StdIpAddr;
  exclude_ip_range : option Ipv4Net
}.
Arguments mkFirewall {M _} _ _ _ _ _ _ _ _.
Arguments udp {M _} _.
Arguments tcp {M _} _.
Arguments icmp {M _} _.
Arguments whitelist {M _} _.
Arguments allow_ipv6 {M _} _.
Arguments record_whitelisted {M _} _.
Arguments ip_addresses {M _} _.
Arguments exclude_ip_range {M _} _.

Section updates.
Context {M : Type → Type → Type} `{Ipnet}.
Implicit Types (fw : StatefullFirewall M).

Definition set_udp fw x : StatefullFirewall M :=
  mkFirewall x (tcp fw) (icmp fw) (whitelist fw) (allow_ipv6 fw) (record_whitelisted fw)
    (ip_addresses fw) (exclude_ip_range fw).
Definition set_tcp fw x : StatefullFirewall M :=
  mkFirewall (udp fw) x (icmp fw) (whitelist fw) (allow_ipv6 fw) (record_whitelisted fw)
    (ip_addresses fw) (exclude_ip_range fw).
Definition set_icmp fw x : StatefullFirewall M :=
  mkFirewall (udp fw) (tcp fw) x (whitelist fw) (allow_ipv6 fw) (record_whitelisted fw)
    (ip_addresses fw) (exclude_ip_range fw).
Definition set_whitelist fw x : StatefullFirewall M :=
  mkFirewall (udp fw) (tcp fw) (icmp fw) x (allow_ipv6 fw) (record_whitelisted fw)
    (ip_addresses fw) (exclude_ip_range fw).
Definition set_local_ips fw x : StatefullFirewall M :=
  mkFirewall (udp fw) (tcp fw) (icmp fw) (whitelist fw) (allow_ipv6 fw) (record_whitelisted fw)
    x (exclude_ip_range fw).
End updates.

(** ** The [IpPacket] trait and its two implementations *)

Class IpPacket (P : Type) := {
  ip_check_valid : P → bool;
  ip_get_next_level_protocol : P → Z;
  ip_get_destination : P → IpAddr;
  ip_get_source : P → IpAddr;
  ip_try_from : bytes → option P;
  ip_packet : P → bytes;
  ip_payload : P → bytes;
  (** [Icmp::BLOCKED_TYPES] of the associated type *)
  icmp_blocked_types : list Z
}.

Section packets.
Context `{Pnet}.

(** [check_valid] of [Ipv4Packet] *)
Definition ipv4_check_valid (p : Ipv4Packet) : bool :=
  if negb (ipv4_get_version p =? 4)%Z then false
  else if (ipv4_get_header_length p <? 5)%Z then false
  else true.

(** [check_valid] of [Ipv6Packet] *)
Definition ipv6_check_valid (p : Ipv6Packet) : bool :=
  if negb (ipv6_get_version p =? 6)%Z then false
  else if negb (ipv6_get_payload_length p =? Z.of_nat (length (ipv6_payload p)))%Z then false
  else true.

#[global] Instance ipv4_IpPacket : IpPacket Ipv4Packet := {
  ip_check_valid := ipv4_check_valid;
  ip_get_next_level_protocol := ipv4_get_next_level_protocol;
  ip_get_destination p := Ipv4 (ipv4_get_destination p);
  ip_get_source p := Ipv4 (ipv4_get_source p);
  ip_try_from := ipv4_new;
  ip_packet := ipv4_packet;
  ip_payload := ipv4_payload;
  icmp_blocked_types := ICMP_BLOCKED_TYPES
}.

#[global] Instance ipv6_IpPacket : IpPacket Ipv6Packet := {
  ip_check_valid := ipv6_check_valid;
  ip_get_next_level_protocol := ipv6_get_next_header;
  ip_get_destination p := Ipv6 (ipv6_get_destination p);
  ip_get_source p := Ipv6 (ipv6_get_source p);
  ip_try_from := ipv6_new;
  ip_packet := ipv6_packet;
  ip_payload := ipv6_payload;
  icmp_blocked_types := ICMPV6_BLOCKED_TYPES
}.
End packets.

(** ** Connection keys *)

Section keys.
Context `{Pnet}.

(** [StatefullFirewall::build_conn_info] *)
Definition build_conn_info {P} `{IpPacket P} (ip : P) (inbound : bool)
    : option (IpConnWithPort * option TcpPacket) :=
  let proto := ip_get_next_level_protocol ip in
  let ports :=
    if (proto =? IpNextHeaderProtocols.Udp)%Z then
      match udp_new (ip_payload ip) with
      | Some packet => Some (udp_get_source packet, udp_get_destination packet, None)
      | None => None
      end
    else if (proto =? IpNextHeaderProtocols.Tcp)%Z then
      match tcp_new (ip_payload ip) with
      | Some packet => Some (tcp_get_source packet, tcp_get_destination packet, Some packet)
      | None => None
      end
    else None in
  match ports with
  | None => None
  | Some (src, dest, tcp_packet) =>
      let key :=
        if inbound then mkIpConnWithPort (ip_get_source ip) src (ip_get_destination ip) dest
        else mkIpConnWithPort (ip_get_destination ip) dest (ip_get_source ip) src in
      if (proto =? IpNextHeaderProtocols.Udp)%Z then Some (key, None)
      else if (proto =? IpNextHeaderProtocols.Tcp)%Z then Some (key, tcp_packet)
      else None
  end.

(** The type a reply to an outbound request has; [None] for what opens no
    pinhole. *)
Definition outbound_response_type (it : Z) : option Z :=
  if (it =? IcmpTypes.EchoRequest)%Z then Some IcmpTypes.EchoReply
  else if (it =? IcmpTypes.Timestamp)%Z then Some IcmpTypes.TimestampReply
  else if (it =? IcmpTypes.InformationRequest)%Z then Some IcmpTypes.InformationReply
  else if (it =? IcmpTypes.AddressMaskRequest)%Z then Some IcmpTypes.AddressMaskReply
  else if (it =? Icmpv6Types.EchoRequest)%Z then Some Icmpv6Types.EchoReply
  else None.

Definition is_reply_type (it : Z) : bool :=
  ((it =? IcmpTypes.EchoReply) || (it =? IcmpTypes.TimestampReply)
   || (it =? IcmpTypes.InformationReply) || (it =? IcmpTypes.AddressMaskReply)
   || (it =? Icmpv6Types.EchoReply))%Z.

Definition is_icmp_error_type (it : Z) : bool :=
  ((it =? IcmpTypes.DestinationUnreachable) || (it =? IcmpTypes.TimeExceeded)
   || (it =? IcmpTypes.ParameterProblem))%Z.

Definition is_icmpv6_error_type (it : Z) : bool :=
  ((it =? Icmpv6Types.DestinationUnreachable) || (it =? Icmpv6Types.PacketTooBig)
   || (it =? Icmpv6Types.ParameterProblem) || (it =? Icmpv6Types.TimeExceeded))%Z.

(** [u32::from_ne_bytes] of the first four bytes, on a little-endian target *)
Definition icmp_identifier_sequence (payload : bytes) : option Z :=
  match slice 0 4 payload with
  | Some b => Some (be_bytes (rev b))
  | None => None
  end.

(** [StatefullFirewall::build_icmp_key].  The source calls
    [build_icmp_error_key] for inbound errors, and that calls back with
    [inbound = false], where no error key is built: the call is the argument
    [error_key]. *)
Definition build_icmp_key_with (error_key : IcmpPacket → bool → IcmpKey)
    {P} `{IpPacket P} (pubkey : PublicKey) (ip : P) (inbound : bool) : IcmpKey :=
  match icmp_new (ip_payload ip) with
  | None => Err ErrNone
  | Some icmp_packet =>
      let it := icmp_get_type icmp_packet in
      let proto := ip_get_next_level_protocol ip in
      let finish (response_type : Z) : IcmpKey :=
        match icmp_identifier_sequence (icmp_payload icmp_packet) with
        | None => Err ErrNone
        | Some identifier_sequence =>
            let '(remote_addr, local_addr) :=
              if inbound then (ip_get_source ip, ip_get_destination ip)
              else (ip_get_destination ip, ip_get_source ip) in
            Ok (mkIcmpConn remote_addr local_addr response_type identifier_sequence pubkey)
        end in
      if inbound then
        if is_reply_type it then finish it
        else if is_icmp_error_type it && (proto =? IpNextHeaderProtocols.Icmp)%Z then
          error_key icmp_packet true
        else if is_icmpv6_error_type it && (proto =? IpNextHeaderProtocols.Icmpv6)%Z then
          error_key icmp_packet false
        else Err ErrNone
      else
        match outbound_response_type it with
        | Some response_type => finish response_type
        | None => Err ErrNone
        end
  end.

(** The key of an outbound packet. *)
Definition build_outbound_icmp_key {P} `{IpPacket P} (pubkey : PublicKey) (ip : P) : IcmpKey :=
  build_icmp_key_with (λ _ _, Err ErrNone) pubkey ip false.

Definition ok {E A} (r : result E A) : option A :=
  match r with Ok a => Some a | Err _ => None end.

(** The key of the packet nested in an error, one protocol family at a time. *)
Definition nested_error_key {P} `{IpPacket P} (pubkey : PublicKey) (icmp_proto : Z) (packet : P)
    : IcmpErrorKey :=
  let proto := ip_get_next_level_protocol packet in
  if (proto =? IpNextHeaderProtocols.Udp)%Z then
    ErrUdp (fst <$> build_conn_info packet false)
  else if (proto =? IpNextHeaderProtocols.Tcp)%Z then
    ErrTcp (fst <$> build_conn_info packet false)
  else if (proto =? icmp_proto)%Z then
    ErrIcmp (ok (build_outbound_icmp_key pubkey packet))
  else ErrNone.

(** [StatefullFirewall::build_icmp_error_key] *)
Definition build_icmp_error_key (pubkey : PublicKey) (icmp_packet : IcmpPacket) (is_v4 : bool)
    : IcmpKey :=
  if decide (4 ≤ length (icmp_payload icmp_packet)) then
    let inner_packet := drop 4 (icmp_payload icmp_packet) in
    if is_v4 then
      match ip_try_from (P:=Ipv4Packet) inner_packet with
      | None => Err ErrNone
      | Some packet => Err (nested_error_key pubkey IpNextHeaderProtocols.Icmp packet)
      end
    else
      match ip_try_from (P:=Ipv6Packet) inner_packet with
      | None => Err ErrNone
      | Some packet => Err (nested_error_key pubkey IpNextHeaderProtocols.Icmpv6 packet)
      end
  else Err ErrNone.

Definition build_icmp_key {P} `{IpPacket P} (pubkey : PublicKey) (ip : P) (inbound : bool)
    : IcmpKey :=
  build_icmp_key_with (build_icmp_error_key pubkey) pubkey ip inbound.
End keys.

(** ** Packet handlers *)

Section handlers.
Context `{Pnet} `{Ipnet} {M : Type → Type → Type} `{LinkedHashMap M}.
Implicit Types (fw : StatefullFirewall M) (now : Instant).

(** [flags & mask == value] *)
Definition flags_match (flags mask value : Z) : bool := (Z.land flags mask =? value)%Z.

(** [StatefullFirewall::handle_outbound_udp] *)
Definition handle_outbound_udp {P} `{IpPacket P} now (pubkey : PublicKey) (ip : P) fw
    : StatefullFirewall M :=
  match build_conn_info ip false with
  | None => fw
  | Some (link, _) =>
      let key := mkConnection link pubkey in
      match ip_packet ip with
      | [] => fw
      | _ =>
          let pkg_chunk := take LAST_PKG_MAX_CHUNK_LEN (ip_packet ip) in
          let '(e, udp_cache) := lru_entry now key true (udp fw) in
          match e with
          | Vacant e =>
              set_udp fw (vacant_insert now e (mkUdpConnectionInfo false (Some pkg_chunk)) udp_cache)
          | Occupied e =>
              match occupied_get e udp_cache with
              | Some value =>
                  set_udp fw (occupied_set e
                    (mkUdpConnectionInfo (is_remote_initiated value) (Some pkg_chunk)) udp_cache)
              | None => set_udp fw udp_cache
              end
          end
      end
  end.

(** [StatefullFirewall::handle_outbound_tcp] *)
Definition handle_outbound_tcp {P} `{IpPacket P} now (pubkey : PublicKey) (ip : P) fw
    : StatefullFirewall M :=
  match build_conn_info ip false with
  | None => fw
  | Some (link, packet) =>
      let key := mkConnection link pubkey in
      let flags := match packet with Some p => tcp_get_flags p | None => 0%Z end in
      if flags_match flags TCP_FIRST_PKT_MASK TcpFlags.SYN then
        set_tcp fw (lru_insert now key (mkTcpConnectionInfo true true false None) (tcp fw))
      else if flags_match flags TcpFlags.RST TcpFlags.RST then
        set_tcp fw (lru_remove key (tcp fw)).2
      else if flags_match flags TcpFlags.FIN TcpFlags.FIN then
        let '(e, tcp_cache) := lru_entry now key false (tcp fw) in
        match e with
        | Occupied e =>
            match occupied_get e tcp_cache with
            | Some v =>
                set_tcp fw (occupied_set e
                  (mkTcpConnectionInfo false (rx_alive v) (conn_remote_initiated v) (next_seq v))
                  tcp_cache)
            | None => set_tcp fw tcp_cache
            end
        | Vacant _ => set_tcp fw tcp_cache
        end
      else fw
  end.

(** [StatefullFirewall::handle_outbound_icmp] *)
Definition handle_outbound_icmp {P} `{IpPacket P} now (peer : PublicKey) (ip : P) fw
    : StatefullFirewall M :=
  match build_icmp_key peer ip false with
  | Ok key =>
      let '(e, icmp_cache) := lru_entry now key true (icmp fw) in
      match e with
      | Vacant e => set_icmp fw (vacant_insert now e tt icmp_cache)
      | Occupied _ => set_icmp fw icmp_cache
      end
  | Err _ => fw
  end.

(** [StatefullFirewall::handle_inbound_udp] *)
Definition handle_inbound_udp {P} `{IpPacket P} now
    (decide_connection_handling : PublicKey → Z → PacketAction)
    (peer : PublicKey) (ip : P) fw : bool * StatefullFirewall M :=
  match build_conn_info ip true with
  | None => (false, fw)
  | Some (link, _) =>
      let key := mkConnection link peer in
      let local_port := local_port link in
      let '(e, udp_cache) := lru_entry now key true (udp fw) in
      match e with
      | Occupied occ =>
          match occupied_get occ udp_cache with
          | Some connection_info =>
              if is_remote_initiated connection_info then
                match decide_connection_handling peer local_port with
                | Drop => (false, set_udp fw (occupied_remove occ udp_cache))
                | PassThrough | HandleLocally => (true, set_udp fw udp_cache)
                end
              else (true, set_udp fw udp_cache)
          | None => (true, set_udp fw udp_cache)
          end
      | Vacant vacc =>
          match decide_connection_handling peer local_port with
          | PassThrough => (true, set_udp fw udp_cache)
          | Drop => (false, set_udp fw udp_cache)
          | HandleLocally =>
              (true, set_udp fw (vacant_insert now vacc (mkUdpConnectionInfo true None) udp_cache))
          end
      end
  end.

(** The sequence number the peer will use next, in [u32]. *)
Definition next_sequence (pkt : TcpPacket) (flags : Z) : Z :=
  if flags_match flags TcpFlags.SYN TcpFlags.SYN then wrap 32 (tcp_get_sequence pkt + 1)
  else wrap 32 (tcp_get_sequence pkt + wrap 32 (Z.of_nat (length (tcp_payload pkt)))).

(** [StatefullFirewall::handle_inbound_tcp] *)
Definition handle_inbound_tcp {P} `{IpPacket P} now
    (is_conn_policy_compliant : PublicKey → Z → PacketAction)
    (pubkey : PublicKey) (ip : P) fw : bool * StatefullFirewall M :=
  match build_conn_info ip true with
  | None => (false, fw)
  | Some (link, packet) =>
      let key := mkConnection link pubkey in
      let local_port := local_port link in
      let '(e, cache) := lru_entry now key false (tcp fw) in
      match e with
      | Occupied occ =>
          match occupied_get occ cache with
          | None => (true, set_tcp fw cache)
          | Some info =>
              if conn_remote_initiated info &&
                 bool_decide (is_conn_policy_compliant pubkey local_port = Drop)
              then (false, set_tcp fw (occupied_remove occ cache))
              else
                match packet with
                | None => (true, set_tcp fw cache)
                | Some pkt =>
                    let flags := tcp_get_flags pkt in
                    let is_rst := flags_match flags TcpFlags.RST TcpFlags.RST in
                    let is_fin := flags_match flags TcpFlags.FIN TcpFlags.FIN in
                    if negb is_rst && negb is_fin && negb (tx_alive info)
                       && negb (rx_alive info) && negb (conn_remote_initiated info)
                    then
                      if flags_match flags TcpFlags.ACK TcpFlags.ACK
                      then (true, set_tcp fw (occupied_remove occ cache))
                      else (false, set_tcp fw cache)
                    else
                      let info :=
                        mkTcpConnectionInfo (tx_alive info)
                          (if negb is_rst && is_fin then false else rx_alive info)
                          (conn_remote_initiated info)
                          (Some (next_sequence pkt flags)) in
                      let cache := occupied_set occ info cache in
                      (true, set_tcp fw (if is_rst then occupied_remove occ cache else cache))
                end
          end
      | Vacant vacc =>
          match is_conn_policy_compliant pubkey local_port with
          | PassThrough => (true, set_tcp fw cache)
          | Drop => (false, set_tcp fw cache)
          | HandleLocally =>
              match packet with
              | Some pkt =>
                  if flags_match (tcp_get_flags pkt) TCP_FIRST_PKT_MASK TcpFlags.SYN then
                    let conn_info :=
                      mkTcpConnectionInfo true true true
                        (Some (wrap 32 (tcp_get_sequence pkt + 1))) in
                    (true, set_tcp fw (vacant_insert now vacc conn_info cache))
                  else (true, set_tcp fw cache)
              | None => (true, set_tcp fw cache)
              end
          end
      end
  end.

(** [StatefullFirewall::handle_icmp_error] *)
Definition handle_icmp_error now (pubkey : PublicKey) (error_key : IcmpErrorKey) fw
    : bool * StatefullFirewall M :=
  match error_key with
  | ErrIcmp (Some icmp_key) =>
      let '(v, icmp_cache) := lru_get now icmp_key (icmp fw) in
      match v with
      | Some _ => (true, set_icmp fw (lru_remove icmp_key icmp_cache).2)
      | None => (false, set_icmp fw icmp_cache)
      end
  | ErrTcp (Some link) =>
      let tcp_key := mkConnection link pubkey in
      let '(v, tcp_cache) := lru_get now tcp_key (tcp fw) in
      match v with
      | Some _ => (true, set_tcp fw (lru_remove tcp_key tcp_cache).2)
      | None => (false, set_tcp fw tcp_cache)
      end
  | ErrUdp (Some link) =>
      let udp_key := mkConnection link pubkey in
      let '(v, udp_cache) := lru_get now udp_key (udp fw) in
      match v with
      | Some _ => (true, set_udp fw (lru_remove udp_key udp_cache).2)
      | None => (false, set_udp fw udp_cache)
      end
  | _ => (false, fw)
  end.

(** [StatefullFirewall::handle_inbound_icmp] *)
Definition handle_inbound_icmp {P} `{IpPacket P} now (peer : PublicKey) (ip : P) fw
    : bool * StatefullFirewall M :=
  match icmp_new (ip_payload ip) with
  | None => (false, fw)
  | Some icmp_packet =>
      if is_peer_whitelisted (whitelist fw) peer IncomingConnections then (true, fw)
      else if bool_decide (icmp_get_type icmp_packet ∈ icmp_blocked_types (P:=P)) then (false, fw)
      else
        match build_icmp_key peer ip true with
        | Ok key =>
            let '(v, icmp_cache) := lru_get now key (icmp fw) in
            match v with
            | Some _ => (true, set_icmp fw (lru_remove key icmp_cache).2)
            | None => (false, set_icmp fw icmp_cache)
            end
        | Err icmp_error_key => handle_icmp_error now peer icmp_error_key fw
        end
  end.

(** ** Policies *)

(** [StatefullFirewall::is_private_address_except_local_interface] *)
Definition is_private_address_except_local_interface (local_addrs : list StdIpAddr) fw
    (ip : StdIpAddr) : bool :=
  if bool_decide (ip ∈ local_addrs) then false
  else
    match ip with
    | V4 ipv4 =>
        ipv4_is_private ipv4 &&
        negb (match exclude_ip_range fw with
              | Some range => ipv4net_contains range ipv4
              | None => false
              end)
    | V6 ipv6 =>
        match ipv6_segments ipv6 with
        | s0 :: s1 :: s2 :: s3 :: _ =>
            if ((s0 =? 0xfd74) && (s1 =? 0x656c) && (s2 =? 0x696f) && (s3 =? 0))%Z then false
            else (Z.land s0 0xfc00 =? 0xfc00)%Z
        | _ => false
        end
    end.

(** [StatefullFirewall::decide_packet_handling] *)
Definition decide_packet_handling (local_addrs : list StdIpAddr) fw (pubkey : PublicKey)
    (local_addr : StdIpAddr) : PacketAction :=
  if is_private_address_except_local_interface local_addrs fw local_addr then
    if is_peer_whitelisted (whitelist fw) pubkey LocalAreaConnections then PassThrough else Drop
  else if bool_decide (local_addr ∈ ip_addresses fw) then HandleLocally
  else if is_peer_whitelisted (whitelist fw) pubkey RoutingConnections then PassThrough
  else Drop.

(** [StatefullFirewall::decide_connection_handling] *)
Definition decide_connection_handling fw (pubkey : PublicKey) (local_port : Z) : PacketAction :=
  if is_peer_whitelisted (whitelist fw) pubkey IncomingConnections then
    if record_whitelisted fw then HandleLocally else PassThrough
  else if is_port_whitelisted (whitelist fw) pubkey local_port then HandleLocally
  else Drop.

(** ** Dispatch *)

(** [StatefullFirewall::process_outbound_ip_packet] *)
Definition process_outbound_ip_packet (P : Type) `{IpPacket P} now (public_key buffer : bytes) fw
    : bool * StatefullFirewall M :=
  match ip_try_from (P:=P) buffer with
  | None => (false, fw)
  | Some ip =>
      let peer := mkPublicKey public_key in
      let proto := ip_get_next_level_protocol ip in
      if is_peer_whitelisted (whitelist fw) peer IncomingConnections then
        if record_whitelisted fw then
          if (proto =? IpNextHeaderProtocols.Udp)%Z then (true, handle_outbound_udp now peer ip fw)
          else if (proto =? IpNextHeaderProtocols.Tcp)%Z then
            (true, handle_outbound_tcp now peer ip fw)
          else (true, fw)
        else (true, fw)
      else if negb (ip_check_valid ip) then (false, fw)
      else if (proto =? IpNextHeaderProtocols.Udp)%Z then
        (true, handle_outbound_udp now peer ip fw)
      else if (proto =? IpNextHeaderProtocols.Tcp)%Z then
        (true, handle_outbound_tcp now peer ip fw)
      else if (proto =? IpNextHeaderProtocols.Icmp)%Z then
        (true, handle_outbound_icmp now peer ip fw)
      else if (proto =? IpNextHeaderProtocols.Icmpv6)%Z then
        (true, handle_outbound_icmp now peer ip fw)
      else (true, fw)
  end.

(** [StatefullFirewall::process_inbound_ip_packet] *)
Definition process_inbound_ip_packet (P : Type) `{IpPacket P} now (local_addrs : list StdIpAddr)
    (public_key buffer : bytes) fw : bool * StatefullFirewall M :=
  match ip_try_from (P:=P) buffer with
  | None => (false, fw)
  | Some ip =>
      let peer := mkPublicKey public_key in
      let proto := ip_get_next_level_protocol ip in
      if bool_decide (vpn_peer (whitelist fw) = Some peer) then
        if record_whitelisted fw then
          let check_connection_policy (_ : PublicKey) (_ : Z) := HandleLocally in
          if (proto =? IpNextHeaderProtocols.Udp)%Z then
            (true, (handle_inbound_udp now check_connection_policy peer ip fw).2)
          else if (proto =? IpNextHeaderProtocols.Tcp)%Z then
            (true, (handle_inbound_tcp now check_connection_policy peer ip fw).2)
          else (true, fw)
        else (true, fw)
      else if negb (ip_check_valid ip) then (false, fw)
      else
        match decide_packet_handling local_addrs fw peer (std_of_ip_addr (ip_get_destination ip)) with
        | Drop => (false, fw)
        | PassThrough => (true, fw)
        | HandleLocally =>
            if (proto =? IpNextHeaderProtocols.Udp)%Z then
              handle_inbound_udp now (decide_connection_handling fw) peer ip fw
            else if (proto =? IpNextHeaderProtocols.Tcp)%Z then
              handle_inbound_tcp now (decide_connection_handling fw) peer ip fw
            else if (proto =? IpNextHeaderProtocols.Icmp)%Z then
              handle_inbound_icmp now peer ip fw
            else if (proto =? IpNextHeaderProtocols.Icmpv6)%Z && allow_ipv6 fw then
              handle_inbound_icmp now peer ip fw
            else (false, fw)
        end
  end.

(** [Firewall::process_outbound_packet] *)
Definition process_outbound_packet now (public_key buffer : bytes) fw
    : bool * StatefullFirewall M :=
  match buffer with
  | [] => (false, fw)
  | b :: _ =>
      let version := Z.shiftr b 4 in
      if (version =? 4)%Z then process_outbound_ip_packet Ipv4Packet now public_key buffer fw
      else if (version =? 6)%Z && allow_ipv6 fw then
        process_outbound_ip_packet Ipv6Packet now public_key buffer fw
      else (false, fw)
  end.

(** [Firewall::process_inbound_packet] *)
Definition process_inbound_packet now (local_addrs : list StdIpAddr) (public_key buffer : bytes) fw
    : bool * StatefullFirewall M :=
  match buffer with
  | [] => (false, fw)
  | b :: _ =>
      let version := Z.shiftr b 4 in
      if (version =? 4)%Z then
        process_inbound_ip_packet Ipv4Packet now local_addrs public_key buffer fw
      else if (version =? 6)%Z && allow_ipv6 fw then
        process_inbound_ip_packet Ipv6Packet now local_addrs public_key buffer fw
      else (false, fw)
  end.
End handlers.

(** ** Construction and configuration *)

Section configuration.
Context `{Ipnet} {M : Type → Type → Type} `{LinkedHashMap M}.
Implicit Types (fw : StatefullFirewall M) (peer : PublicKey).

(** [StatefullFirewall::new_custom] *)
Definition new_custom (capacity : nat) (ttl : Duration) (use_ipv6 : bool)
    (feature : FeatureFirewall) : StatefullFirewall M :=
  mkFirewall (lru_new ttl capacity) (lru_new ttl capacity) (lru_new ttl capacity)
    whitelist_default use_ipv6 (boringtun_reset_conns feature || neptun_reset_conns feature)
    [] (exclude_private_ip_range feature).

(** [StatefullFirewall::new] *)
Definition firewall_new (use_ipv6 : bool) (feature : FeatureFirewall) : StatefullFirewall M :=
  new_custom LRU_CAPACITY LRU_TIMEOUT use_ipv6 feature.

(** [Default for StatefullFirewall] *)
Definition firewall_default : StatefullFirewall M :=
  firewall_new true (mkFeatureFirewall _ false false None).

Definition clear_port_whitelist fw : StatefullFirewall M :=
  let w := whitelist fw in
  set_whitelist fw (mkWhitelist ∅ (peer_whitelists w) (vpn_peer w)).

Definition add_to_port_whitelist peer (port : Z) fw : StatefullFirewall M :=
  let w := whitelist fw in
  set_whitelist fw
    (mkWhitelist (<[peer := port]> (port_whitelist w)) (peer_whitelists w) (vpn_peer w)).

Definition remove_from_port_whitelist peer fw : StatefullFirewall M :=
  let w := whitelist fw in
  set_whitelist fw
    (mkWhitelist (delete peer (port_whitelist w)) (peer_whitelists w) (vpn_peer w)).

Definition get_port_whitelist fw : gmap PublicKey Z := port_whitelist (whitelist fw).

Definition clear_peer_whitelists fw : StatefullFirewall M :=
  let w := whitelist fw in
  set_whitelist fw (mkWhitelist (port_whitelist w) (mkPeerWhitelists ∅ ∅ ∅) (vpn_peer w)).

Definition add_to_peer_whitelist peer (permissions : Permissions) fw : StatefullFirewall M :=
  let w := whitelist fw in
  let s := peers_of (peer_whitelists w) permissions in
  set_whitelist fw
    (mkWhitelist (port_whitelist w)
       (set_peers_of permissions ({[peer]} ∪ s) (peer_whitelists w)) (vpn_peer w)).

Definition remove_from_peer_whitelist peer (permissions : Permissions) fw
    : StatefullFirewall M :=
  let w := whitelist fw in
  let s := peers_of (peer_whitelists w) permissions in
  set_whitelist fw
    (mkWhitelist (port_whitelist w)
       (set_peers_of permissions (s ∖ {[peer]}) (peer_whitelists w)) (vpn_peer w)).

Definition get_peer_whitelist (permissions : Permissions) fw : gset PublicKey :=
  peers_of (peer_whitelists (whitelist fw)) permissions.

Definition add_vpn_peer peer fw : StatefullFirewall M :=
  let w := whitelist fw in
  set_whitelist fw (mkWhitelist (port_whitelist w) (peer_whitelists w) (Some peer)).

Definition remove_vpn_peer fw : StatefullFirewall M :=
  let w := whitelist fw in
  set_whitelist fw (mkWhitelist (port_whitelist w) (peer_whitelists w) None).

Definition set_ip_addresses (ip_addrs : list StdIpAddr) fw : StatefullFirewall M :=
  set_local_ips fw (foldl (λ l ip, l ++ [ip]) (ip_addresses fw) ip_addrs).
End configuration.
