(* ===== verification/FirewallReset.v ===== *)
(** * [telio-firewall]: connection resets ([reset_connections])

    When the exit node changes, the firewall injects a TCP RST for every
    tracked TCP connection of the old one, and an ICMP "port unreachable" for
    every tracked UDP connection.  The packets are written into buffers that
    are reused from one connection to the next, through the mutable views of
    [pnet_packet]: [PnetMut] is what the source uses of them and [PnetMutLaws]
    what it relies on.  [RfcPnetMut] is an implementation after the RFCs'
    layouts. *)

From S2P Require Import Prelude LruCache NetTypes Firewall.

(** ** The mutable views of [pnet_packet] *)

Inductive ipv4_field :=
| Ipv4Version | Ipv4HeaderLength | Ipv4TotalLength | Ipv4Flags | Ipv4Ttl
| Ipv4NextLevelProtocol | Ipv4Checksum | Ipv4Source | Ipv4Destination.

Inductive tcp_field :=
| TcpSource | TcpDestination | TcpSequence | TcpDataOffset | TcpFlagsField | TcpChecksum.

Inductive icmp_field := IcmpTypeField | IcmpCodeField | IcmpChecksum.

Class PnetMut := {
  (** [MutableIpv4Packet::set_*], on the buffer of the view *)
  ipv4_set : ipv4_field → Z → bytes → bytes;
  tcp_set : tcp_field → Z → bytes → bytes;
  icmp_set : icmp_field → Z → bytes → bytes;
  (** [pnet_packet::ipv4::checksum], [tcp::ipv4_checksum], [icmp::checksum] *)
  ipv4_checksum : bytes → Z;
  tcp_ipv4_checksum : bytes → Z → Z → Z;
  icmp_checksum : bytes → Z
}.

(** Setters write one field of the header in place; the TCP checksum skips its
    own field. *)
Class PnetMutLaws `{PnetMut} : Prop := {
  length_ipv4_set f x b : length (ipv4_set f x b) = length b;
  length_tcp_set f x b : length (tcp_set f x b) = length b;
  length_icmp_set f x b : length (icmp_set f x b) = length b;
  ipv4_set_set f x y b : ipv4_set f x (ipv4_set f y b) = ipv4_set f x b;
  tcp_set_set f x y b : tcp_set f x (tcp_set f y b) = tcp_set f x b;
  icmp_set_set f x y b : icmp_set f x (icmp_set f y b) = icmp_set f x b;
  ipv4_set_comm f g x y b : f ≠ g → ipv4_set f x (ipv4_set g y b) = ipv4_set g y (ipv4_set f x b);
  tcp_set_comm f g x y b : f ≠ g → tcp_set f x (tcp_set g y b) = tcp_set g y (tcp_set f x b);
  icmp_set_app f x b b' : 8 ≤ length b → icmp_set f x (b ++ b') = icmp_set f x b ++ b';
  tcp_checksum_skips_field x b s d :
    tcp_ipv4_checksum (tcp_set TcpChecksum x b) s d = tcp_ipv4_checksum b s d
}.

(** [Ipv4Flags::DontFragment] and [IcmpCodes::DestinationPortUnreachable] *)
Definition DontFragment : Z := 2.
Definition DestinationPortUnreachable : Z := 3.

(** ** The sink: [dyn io::Write] *)

Class Sink (S E : Type) := write_all : bytes → S → result E S.

(** A reset fails with the sink's error; slicing out of range would panic. *)
Inductive reset_error (E : Type) :=
| SinkError (e : E)
| SliceOutOfRange.
Arguments SinkError {E} e.
Arguments SliceOutOfRange {E}.

Section reset.
Context `{Ipnet} `{PnetMut} {M : Type → Type → Type} `{LinkedHashMap M} {S E : Type} `{Sink S E}.
Implicit Types (fw : StatefullFirewall M) (now : Instant) (sink : S).

Definition sink_write (packet : bytes) sink : result (reset_error E) S :=
  match write_all packet sink with
  | Ok sink => Ok sink
  | Err e => Err (SinkError e)
  end.

(** The buffers [reset_tcp_conns] prepares. *)
Definition tcp_reset_buf : bytes :=
  tcp_set TcpDataOffset 5 (tcp_set TcpFlagsField TcpFlags.RST (replicate 20 0%Z)).

Definition ipv4_reset_buf (total_length proto : Z) : bytes :=
  ipv4_set Ipv4NextLevelProtocol proto
    (ipv4_set Ipv4Ttl 255
       (ipv4_set Ipv4Flags DontFragment
          (ipv4_set Ipv4TotalLength total_length
             (ipv4_set Ipv4HeaderLength 5 (ipv4_set Ipv4Version 4 (replicate 20 0%Z)))))).

(** One connection: the body of the loop of [reset_tcp_conns], on the two
    buffers and the sink. *)
Definition reset_tcp_conn (key : IpConnWithPort) (val : TcpConnectionInfo)
    (st : bytes * bytes * S) : result (reset_error E) (bytes * bytes * S) :=
  let '(ipv4pkg, tcppkg, sink) := st in
  match next_seq val with
  | None => Ok st
  | Some seq =>
      let tcppkg := tcp_set TcpSource (remote_port key) tcppkg in
      let tcppkg := tcp_set TcpDestination (local_port key) tcppkg in
      let tcppkg := tcp_set TcpSequence seq tcppkg in
      match conn_local_addr key, conn_remote_addr key with
      | Ipv4 local_addr, Ipv4 remote_addr =>
          let src := remote_addr in
          let dst := local_addr in
          let ipv4pkg := ipv4_set Ipv4Source src ipv4pkg in
          let ipv4pkg := ipv4_set Ipv4Destination dst ipv4pkg in
          let tcppkg := tcp_set TcpChecksum (tcp_ipv4_checksum tcppkg src dst) tcppkg in
          let ipv4pkg := ipv4_set Ipv4Checksum 0 ipv4pkg in
          let ipv4pkg := ipv4_set Ipv4Checksum (ipv4_checksum ipv4pkg) ipv4pkg in
          let? sink := sink_write (ipv4pkg ++ tcppkg) sink in
          Ok (ipv4pkg, tcppkg, sink)
      | _, _ => Ok (ipv4pkg, tcppkg, sink)
      end
  end.

Fixpoint fold_result {A B} (f : A → B → result (reset_error E) B) (l : list A) (b : B)
    : result (reset_error E) B :=
  match l with
  | [] => Ok b
  | a :: l => let? b := f a b in fold_result f l b
  end.

(** [telio_log_debug!("... {}", cache.len())]: the arguments are evaluated,
    and the expired entries dropped, only when the level is enabled. *)
Definition log_len {K V} `{EqDecision K} (debug : bool) now (c : LruCache M K V)
    : LruCache M K V :=
  if debug then (lru_len now c).2 else c.

(** [StatefullFirewall::reset_tcp_conns] *)
Definition reset_tcp_conns (debug : bool) now (pubkey : PublicKey) sink fw
    : result (reset_error E) S * StatefullFirewall M :=
  let tcp_conn_cache := log_len debug now (tcp fw) in
  let iter := filter (λ kv, conn_pubkey kv.1 = pubkey) (lru_iter tcp_conn_cache) in
  let r :=
    let? '(_, _, sink) :=
      fold_result (λ kv st, reset_tcp_conn (link kv.1) kv.2 st) iter
        (ipv4_reset_buf (20 + 20) IpNextHeaderProtocols.Tcp, tcp_reset_buf, sink) in
    Ok sink in
  (r, set_tcp fw tcp_conn_cache).

(** The 96-byte buffer [reset_udp_conns] prepares: IPv4 header, ICMP header,
    room for the headers of the lost packet. *)
Definition udp_reset_buf (endpoint_ipv4 : Z) : bytes :=
  ipv4_set Ipv4Source endpoint_ipv4
    (ipv4_reset_buf (20 + 8 + Z.of_nat LAST_PKG_MAX_CHUNK_LEN) IpNextHeaderProtocols.Icmp)
  ++ icmp_set IcmpCodeField DestinationPortUnreachable
       (icmp_set IcmpTypeField IcmpTypes.DestinationUnreachable (replicate 8 0%Z))
  ++ replicate LAST_PKG_MAX_CHUNK_LEN 0%Z.

(** One connection: the body of the loop of [reset_udp_conns].  The buffer is
    written through its prefix of [end] bytes. *)
Definition reset_udp_conn (key : IpConnWithPort) (last_headers : bytes) (st : bytes * S)
    : result (reset_error E) (bytes * S) :=
  let '(buf, sink) := st in
  let end_ := 20 + 8 + length last_headers in
  if decide (end_ ≤ length buf) then
    let rest := drop end_ buf in
    let pkg := take (20 + 8) buf ++ last_headers in
    match conn_local_addr key, conn_remote_addr key with
    | Ipv4 local_addr, Ipv4 _ =>
        let icmppkg := icmp_set IcmpChecksum 0 (drop 20 pkg) in
        let icmppkg := icmp_set IcmpChecksum (icmp_checksum icmppkg) icmppkg in
        let ipv4pkg := ipv4_set Ipv4Destination local_addr (take 20 pkg) in
        let ipv4pkg :=
          ipv4_set Ipv4TotalLength (20 + 8 + Z.of_nat (length last_headers)) ipv4pkg in
        let ipv4pkg := ipv4_set Ipv4Checksum 0 ipv4pkg in
        let ipv4pkg := ipv4_set Ipv4Checksum (ipv4_checksum ipv4pkg) ipv4pkg in
        let pkg := ipv4pkg ++ icmppkg in
        let? sink := sink_write pkg sink in
        Ok (pkg ++ rest, sink)
    | _, _ => Ok (pkg ++ rest, sink)
    end
  else Err SliceOutOfRange.

(** [StatefullFirewall::reset_udp_conns] *)
Definition reset_udp_conns (debug : bool) now (pubkey : PublicKey) (endpoint_ipv4 : Z) sink fw
    : result (reset_error E) S * StatefullFirewall M :=
  let udp_conn_cache := log_len debug now (udp fw) in
  let iter :=
    omap (λ kv, match last_out_pkg_chunk kv.2 with
                | None => None
                | Some last_headers =>
                    if decide (conn_pubkey kv.1 = pubkey) then Some (link kv.1, last_headers)
                    else None
                end) (lru_iter udp_conn_cache) in
  let r :=
    let? '(_, sink) :=
      fold_result (λ kv st, reset_udp_conn kv.1 kv.2 st) iter (udp_reset_buf endpoint_ipv4, sink) in
    Ok sink in
  (r, set_udp fw udp_conn_cache).

(** [Firewall::reset_connections] *)
Definition reset_connections (debug : bool) now (pubkey : PublicKey) (endpoint_ipv4 : Z) sink fw
    : result (reset_error E) S * StatefullFirewall M :=
  let '(r, fw) := reset_tcp_conns debug now pubkey sink fw in
  match r with
  | Err e => (Err e, fw)
  | Ok sink => reset_udp_conns debug now pubkey endpoint_ipv4 sink fw
  end.
End reset.

(** ** Setters after the RFCs' layouts

    A field is a mask of bits in each byte of the header. *)

Module RfcMut.
(** First byte, number of bytes, mask and left shift in the byte. *)
Record layout := mkLayout { first : nat; size : nat; fmask : Z; shift : Z }.

Definition mask (f : layout) (i : nat) : Z :=
  if decide (first f ≤ i < first f + size f) then fmask f else 0%Z.

Definition value (f : layout) (x : Z) (i : nat) : Z :=
  Z.shiftr (Z.shiftl x (shift f)) (8 * Z.of_nat (first f + size f - 1 - i)).

Definition put_byte (f : layout) (x : Z) (i : nat) (old : Z) : Z :=
  Z.lor (Z.ldiff old (mask f i)) (Z.land (value f x i) (mask f i)).

Definition put (f : layout) (x : Z) (b : bytes) : bytes := imap (put_byte f x) b.

Definition ipv4_layout (f : ipv4_field) : layout :=
  match f with
  | Ipv4Version => mkLayout 0 1 0xf0 4
  | Ipv4HeaderLength => mkLayout 0 1 0x0f 0
  | Ipv4TotalLength => mkLayout 2 2 0xff 0
  | Ipv4Flags => mkLayout 6 1 0xe0 5
  | Ipv4Ttl => mkLayout 8 1 0xff 0
  | Ipv4NextLevelProtocol => mkLayout 9 1 0xff 0
  | Ipv4Checksum => mkLayout 10 2 0xff 0
  | Ipv4Source => mkLayout 12 4 0xff 0
  | Ipv4Destination => mkLayout 16 4 0xff 0
  end.

Definition tcp_layout (f : tcp_field) : layout :=
  match f with
  | TcpSource => mkLayout 0 2 0xff 0
  | TcpDestination => mkLayout 2 2 0xff 0
  | TcpSequence => mkLayout 4 4 0xff 0
  | TcpDataOffset => mkLayout 12 1 0xf0 4
  | TcpFlagsField => mkLayout 13 1 0xff 0
  | TcpChecksum => mkLayout 16 2 0xff 0
  end.

Definition icmp_layout (f : icmp_field) : layout :=
  match f with
  | IcmpTypeField => mkLayout 0 1 0xff 0
  | IcmpCodeField => mkLayout 1 1 0xff 0
  | IcmpChecksum => mkLayout 2 2 0xff 0
  end.

(** RFC 1071: the one's complement of the one's complement sum of 16-bit
    words. *)
Fixpoint sum16 (b : bytes) : Z :=
  match b with
  | hi :: lo :: b => hi * 256 + lo + sum16 b
  | [hi] => hi * 256
  | [] => 0
  end%Z.

Definition fold16 (x : Z) : Z := (Z.land x 65535 + Z.shiftr x 16)%Z.

Definition checksum (b : bytes) : Z := Z.lxor (fold16 (fold16 (sum16 b))) 65535.

Definition be4 (x : Z) : bytes :=
  (λ i, Z.land (Z.shiftr x i) 255) <$> [24; 16; 8; 0]%Z.

Definition tcp_checksum (b : bytes) (src dst : Z) : Z :=
  checksum (be4 src ++ be4 dst ++ [0; 6]%Z ++ [0; Z.of_nat (length b)]%Z
              ++ put (tcp_layout TcpChecksum) 0 b).

Lemma length_put f x b : length (put f x b) = length b.
Proof. apply length_imap. Qed.

Lemma put_byte_again f x y i old : put_byte f x i (put_byte f y i old) = put_byte f x i old.
Proof.
  unfold put_byte. apply Z.bits_inj. intros n.
  rewrite !Z.lor_spec, !Z.ldiff_spec, !Z.lor_spec, !Z.ldiff_spec, !Z.land_spec.
  destruct (Z.testbit old n), (Z.testbit (mask f i) n), (Z.testbit (value f x i) n),
    (Z.testbit (value f y i) n); done.
Qed.

Lemma put_byte_comm f g x y i old :
  Z.land (mask f i) (mask g i) = 0%Z →
  put_byte f x i (put_byte g y i old) = put_byte g y i (put_byte f x i old).
Proof.
  intros Hd. unfold put_byte. apply Z.bits_inj. intros n.
  assert (Z.testbit (mask f i) n && Z.testbit (mask g i) n = false) as Hn
    by (by rewrite <-Z.land_spec, Hd, Z.bits_0).
  rewrite !Z.lor_spec, !Z.ldiff_spec, !Z.lor_spec, !Z.ldiff_spec, !Z.land_spec.
  destruct (Z.testbit old n), (Z.testbit (mask f i) n), (Z.testbit (value f x i) n),
    (Z.testbit (value g y i) n), (Z.testbit (mask g i) n); done.
Qed.

Lemma put_put f x y b : put f x (put f y b) = put f x b.
Proof.
  unfold put. apply list_eq. intros i. rewrite !list_lookup_imap.
  destruct (b !! i); simpl; [|done]. by rewrite put_byte_again.
Qed.

(** No bit of a header is in two fields. *)
Definition disjoint (f g : layout) : Prop := ∀ i, Z.land (mask f i) (mask g i) = 0%Z.

Lemma disjoint_check f g n :
  first f + size f ≤ n →
  forallb (λ i, Z.land (mask f i) (mask g i) =? 0)%Z (seq 0 n) = true → disjoint f g.
Proof.
  intros Hn Hc i. destruct (decide (i < n)).
  - rewrite forallb_forall in Hc. apply Z.eqb_eq, Hc, in_seq. lia.
  - unfold mask at 1. rewrite decide_False by lia. apply Z.land_0_l.
Qed.

Lemma put_comm f g x y b : disjoint f g → put f x (put g y b) = put g y (put f x b).
Proof.
  intros Hd. unfold put. apply list_eq. intros i. rewrite !list_lookup_imap.
  destruct (b !! i); simpl; [|done]. by rewrite put_byte_comm.
Qed.

Lemma put_app f x b b' : first f + size f ≤ length b → put f x (b ++ b') = put f x b ++ b'.
Proof.
  intros Hl. unfold put. rewrite imap_app. f_equal. apply list_eq. intros i. rewrite list_lookup_imap.
  destruct (b' !! i); simpl; [|done]. unfold put_byte, mask. rewrite decide_False by lia.
  by rewrite Z.ldiff_0_r, Z.land_0_r, Z.lor_0_r.
Qed.
End RfcMut.

Definition RfcPnetMut : PnetMut := {|
  ipv4_set f := RfcMut.put (RfcMut.ipv4_layout f);
  tcp_set f := RfcMut.put (RfcMut.tcp_layout f);
  icmp_set f := RfcMut.put (RfcMut.icmp_layout f);
  ipv4_checksum := RfcMut.checksum;
  tcp_ipv4_checksum := RfcMut.tcp_checksum;
  icmp_checksum := RfcMut.checksum
|}.

#[export] Instance RfcPnetMut_laws : @PnetMutLaws RfcPnetMut.
Proof.
  split; intros; simpl.
  1-3: apply RfcMut.length_put.
  1-3: apply RfcMut.put_put.
  - apply RfcMut.put_comm. destruct f, g; try done; by apply (RfcMut.disjoint_check _ _ 20); simpl; try lia.
  - apply RfcMut.put_comm. destruct f, g; try done; by apply (RfcMut.disjoint_check _ _ 20); simpl; try lia.
  - apply RfcMut.put_app. destruct f; simpl; lia.
  - unfold RfcMut.tcp_checksum. by rewrite RfcMut.length_put, RfcMut.put_put.
Qed.
