(* ===== verification/FirewallProps.v ===== *)
(** * [telio-firewall]: what the packet filter guarantees

    The histories of a firewall are sequences of packets and configuration
    calls under a clock that never goes back; [fw_reach] also keeps the
    packets that were seen.  [fw_inv] relates the three conntrack caches to
    them, and the theorems at the end rest on it. *)

From S2P Require Import Prelude LruCache NetTypes Firewall FirewallReset.

(** ** Packets as their connections *)

Section buffers.
Context `{Pnet}.

(** Protocol, connection and TCP view of a packet exchanged with [pk]. *)
Definition conn_of {P} `{IpPacket P} (inbound : bool) (pk : bytes) (ip : P)
    : option (Z * Connection * option TcpPacket) :=
  match build_conn_info ip inbound with
  | Some (link, pkt) =>
      Some (ip_get_next_level_protocol ip, mkConnection link (mkPublicKey pk), pkt)
  | None => None
  end.

(** ICMP key of a packet of protocol ICMP or ICMPv6. *)
Definition icmp_of {P} `{IpPacket P} (inbound : bool) (pk : bytes) (ip : P) : option IcmpKey :=
  let proto := ip_get_next_level_protocol ip in
  if ((proto =? IpNextHeaderProtocols.Icmp) || (proto =? IpNextHeaderProtocols.Icmpv6))%Z
  then Some (build_icmp_key (mkPublicKey pk) ip inbound) else None.

(** Read a buffer as the IP version of its first byte says. *)
Definition with_version {A} (f4 : Ipv4Packet → option A) (f6 : Ipv6Packet → option A)
    (buf : bytes) : option A :=
  match buf with
  | [] => None
  | b :: _ =>
      if (Z.shiftr b 4 =? 4)%Z then ipv4_new buf ≫= f4
      else if (Z.shiftr b 4 =? 6)%Z then ipv6_new buf ≫= f6
      else None
  end.

Definition buffer_conn (inbound : bool) (pk buf : bytes) :=
  with_version (conn_of inbound pk) (conn_of inbound pk) buf.

Definition buffer_icmp (inbound : bool) (pk buf : bytes) : option IcmpKey :=
  with_version (icmp_of inbound pk) (icmp_of inbound pk) buf.

Definition buffer_dest (buf : bytes) : option StdIpAddr :=
  with_version (λ p, Some (std_of_ip_addr (ip_get_destination p)))
               (λ p, Some (std_of_ip_addr (ip_get_destination p))) buf.

(** A well-formed IP packet of its version. *)
Definition buffer_valid (buf : bytes) : bool :=
  bool_decide (with_version (λ p, Some (ip_check_valid p)) (λ p, Some (ip_check_valid p)) buf
               = Some true).
End buffers.

(** ** Histories *)

(** A packet: whether it is inbound, when it was seen, its peer and its bytes. *)
Abbreviation traffic := (bool * Instant * bytes * bytes)%type.

Inductive fw_op :=
| OutboundPacket (public_key buffer : bytes)
| InboundPacket (local_addrs : list StdIpAddr) (public_key buffer : bytes)
| ClearPortWhitelist
| AddToPortWhitelist (peer : PublicKey) (port : Z)
| RemoveFromPortWhitelist (peer : PublicKey)
| ClearPeerWhitelists
| AddToPeerWhitelist (peer : PublicKey) (permissions : Permissions)
| RemoveFromPeerWhitelist (peer : PublicKey) (permissions : Permissions)
| AddVpnPeer (peer : PublicKey)
| RemoveVpnPeer
| SetIpAddresses (ip_addrs : list StdIpAddr)
| ResetTcpConns (debug : bool)
| ResetUdpConns (debug : bool).

Section histories.
Context `{Pnet} `{Ipnet} {M : Type → Type → Type} `{LinkedHashMap M}.
Implicit Types (fw : StatefullFirewall M) (now : Instant) (h : list traffic).

(** The effect of an operation on the firewall; a reset changes it only by
    what it logs. *)
Definition fw_exec now (op : fw_op) fw : StatefullFirewall M :=
  match op with
  | OutboundPacket pk buf => (process_outbound_packet now pk buf fw).2
  | InboundPacket la pk buf => (process_inbound_packet now la pk buf fw).2
  | ClearPortWhitelist => clear_port_whitelist fw
  | AddToPortWhitelist peer port => add_to_port_whitelist peer port fw
  | RemoveFromPortWhitelist peer => remove_from_port_whitelist peer fw
  | ClearPeerWhitelists => clear_peer_whitelists fw
  | AddToPeerWhitelist peer p => add_to_peer_whitelist peer p fw
  | RemoveFromPeerWhitelist peer p => remove_from_peer_whitelist peer p fw
  | AddVpnPeer peer => add_vpn_peer peer fw
  | RemoveVpnPeer => remove_vpn_peer fw
  | SetIpAddresses ips => set_ip_addresses ips fw
  | ResetTcpConns debug => set_tcp fw (log_len debug now (tcp fw))
  | ResetUdpConns debug => set_udp fw (log_len debug now (udp fw))
  end.

(** Operations, each at its time *)
Definition fw_run (ops : list (Instant * fw_op)) fw : StatefullFirewall M :=
  foldl (λ fw op, fw_exec op.1 op.2 fw) fw ops.

(** The operations happen in order, from [now] to [now']. *)
Fixpoint in_order now (ops : list (Instant * fw_op)) (now' : Instant) : Prop :=
  match ops with
  | [] => (now <= now')%Z
  | (t, _) :: ops => (now <= t)%Z ∧ in_order t ops now'
  end.

Definition log_packet now (op : fw_op) h : list traffic :=
  match op with
  | OutboundPacket pk buf => (false, now, pk, buf) :: h
  | InboundPacket _ pk buf => (true, now, pk, buf) :: h
  | _ => h
  end.

(** The firewalls reachable from [new_custom], with the packets they saw. *)
Inductive fw_reach (cap : nat) (ttl : Duration) (use_ipv6 : bool) (feature : FeatureFirewall)
    : Instant → list traffic → StatefullFirewall M → Prop :=
| fw_reach_new now : fw_reach cap ttl use_ipv6 feature now [] (new_custom cap ttl use_ipv6 feature)
| fw_reach_tick now now' h fw :
    (now <= now')%Z → fw_reach cap ttl use_ipv6 feature now h fw →
    fw_reach cap ttl use_ipv6 feature now' h fw
| fw_reach_op now h fw op :
    fw_reach cap ttl use_ipv6 feature now h fw →
    fw_reach cap ttl use_ipv6 feature now (log_packet now op h) (fw_exec now op fw).

(** ** What was sent *)

Definition seen_udp h (inbound : bool) (t : Instant) (key : Connection) : Prop :=
  ∃ pk buf pkt, (inbound, t, pk, buf) ∈ h ∧
    buffer_conn inbound pk buf = Some (IpNextHeaderProtocols.Udp, key, pkt).

(** A UDP connection that was opened from this side and never silent for longer
    than the time to live, with its last packet at [t] *)
Inductive udp_live (ttl : Duration) h : Instant → Connection → Prop :=
| udp_live_sent t key : seen_udp h false t key → udp_live ttl h t key
| udp_live_kept t t' inbound key :
    udp_live ttl h t key → (t' <= t + ttl)%Z → seen_udp h inbound t' key → udp_live ttl h t' key.

Definition sent_syn_at h (t : Instant) (key : Connection) : Prop :=
  ∃ pk buf pkt, (false, t, pk, buf) ∈ h ∧
    buffer_conn false pk buf = Some (IpNextHeaderProtocols.Tcp, key, Some pkt) ∧
    flags_match (tcp_get_flags pkt) TCP_FIRST_PKT_MASK TcpFlags.SYN = true.

Definition sent_icmp_at h (t : Instant) (key : IcmpConn) : Prop :=
  ∃ pk buf, (false, t, pk, buf) ∈ h ∧ buffer_icmp false pk buf = Some (Ok key).

(** ** The conntrack invariant *)

Definition udp_entry_ok (ttl : Duration) h (key : Connection) (info : UdpConnectionInfo) (t : Instant) : Prop :=
  (is_remote_initiated info = false → udp_live ttl h t key) ∧
  (∀ chunk, last_out_pkg_chunk info = Some chunk → length chunk ≤ LAST_PKG_MAX_CHUNK_LEN).

Definition tcp_entry_ok h (key : Connection) (info : TcpConnectionInfo) (t : Instant) : Prop :=
  (conn_remote_initiated info = false → sent_syn_at h t key) ∧
  (∀ seq, next_seq info = Some seq → is_uint 32 seq).

Definition icmp_entry_ok h (key : IcmpConn) (_ : unit) (t : Instant) : Prop :=
  sent_icmp_at h t key.

Record fw_inv (cap : nat) (ttl : Duration) now h fw : Prop := {
  inv_udp : cache_ok ttl cap now (udp_entry_ok ttl h) (udp fw);
  inv_tcp : cache_ok ttl cap now (tcp_entry_ok h) (tcp fw);
  inv_icmp : cache_ok ttl cap now (icmp_entry_ok h) (icmp fw)
}.
End histories.

(** ** Every operation preserves the invariant *)

Section preservation.
Context `{Pnet} `{Ipnet} {M : Type → Type → Type} `{LinkedHashMapLaws M}.
Context (cap : nat) (ttl : Duration).
Implicit Types (fw : StatefullFirewall M) (now : Instant) (h : list traffic).

Abbreviation inv := (fw_inv cap ttl).

Lemma inv_set_udp now h fw c :
  cache_ok ttl cap now (udp_entry_ok ttl h) c → inv now h fw → inv now h (set_udp fw c).
Proof. intros ? []. by split. Qed.

Lemma inv_set_tcp now h fw c :
  cache_ok ttl cap now (tcp_entry_ok h) c → inv now h fw → inv now h (set_tcp fw c).
Proof. intros ? []. by split. Qed.

Lemma inv_set_icmp now h fw c :
  cache_ok ttl cap now (icmp_entry_ok h) c → inv now h fw → inv now h (set_icmp fw c).
Proof. intros ? []. by split. Qed.

Lemma inv_set_whitelist now h fw w : inv now h fw → inv now h (set_whitelist fw w).
Proof. intros []. by split. Qed.

Lemma inv_set_local_ips now h fw l : inv now h fw → inv now h (set_local_ips fw l).
Proof. intros []. by split. Qed.

Lemma chunk_ok (b chunk : bytes) :
  Some (take LAST_PKG_MAX_CHUNK_LEN b) = Some chunk → length chunk ≤ LAST_PKG_MAX_CHUNK_LEN.
Proof. intros [= <-]. rewrite length_take. lia. Qed.

(** Traffic in either direction keeps a connection alive. *)
Lemma udp_entry_refresh h inbound now key v t :
  seen_udp h inbound now key → (now <= t + ttl)%Z → udp_entry_ok ttl h key v t → udp_entry_ok ttl h key v now.
Proof. intros Hs Ht [Hl Hc]. split; [|done]. intros Hr. by eapply udp_live_kept; [apply Hl|..]. Qed.

Lemma handle_outbound_udp_inv {P} `{IpPacket P} now h peer (ip : P) fw :
  (∀ link pkt, build_conn_info ip false = Some (link, pkt) → seen_udp h false now (mkConnection link peer)) →
  inv now h fw → inv now h (handle_outbound_udp now peer ip fw).
Proof.
  intros Hsent Hinv. unfold handle_outbound_udp.
  destruct (build_conn_info ip false) as [[link pkt]|]; [|done].
  specialize (Hsent link pkt eq_refl). destruct (ip_packet ip); [done|].
  destruct (lru_entry now _ true (udp fw)) as [e c] eqn:E.
  destruct (cache_ok_entry_cases ttl cap now (udp_entry_ok ttl h) _ _ _ _ _ E) as [Hc He];
    [by intros _ v t; apply (udp_entry_refresh h false)|apply Hinv|].
  destruct e as [e|e]; subst e.
  - destruct (occupied_get _ c) as [v|] eqn:Hg; apply inv_set_udp; try done.
    eapply cache_ok_occupied_update; [done| |done].
    intros t [Hr _]. split; [done|]. apply chunk_ok.
  - apply inv_set_udp; [|done]. apply cache_ok_vacant_insert; [|done].
    split; [by intros _; apply udp_live_sent|]. apply chunk_ok.
Qed.

Lemma handle_outbound_tcp_inv {P} `{IpPacket P} now h peer (ip : P) fw :
  (∀ link pkt, build_conn_info ip false = Some (link, Some pkt) →
     flags_match (tcp_get_flags pkt) TCP_FIRST_PKT_MASK TcpFlags.SYN = true →
     sent_syn_at h now (mkConnection link peer)) →
  inv now h fw → inv now h (handle_outbound_tcp now peer ip fw).
Proof.
  intros Hsent Hinv. unfold handle_outbound_tcp.
  destruct (build_conn_info ip false) as [[link pkt]|]; [|done].
  destruct (flags_match _ TCP_FIRST_PKT_MASK _) eqn:Hsyn.
  { apply inv_set_tcp; [|done]. apply cache_ok_insert; [|apply Hinv].
    destruct pkt as [pkt|]; [|done]. split; [|done]. intros _. by eapply Hsent. }
  destruct (flags_match _ TcpFlags.RST _).
  { apply inv_set_tcp; [|done]. apply cache_ok_remove, Hinv. }
  destruct (flags_match _ TcpFlags.FIN _); [|done].
  destruct (lru_entry now _ false (tcp fw)) as [e c] eqn:E.
  destruct (cache_ok_entry_cases ttl cap now (tcp_entry_ok h) _ _ _ _ _ E) as [Hc He];
    [done|apply Hinv|].
  destruct e as [e|e]; subst e; [|by apply inv_set_tcp].
  destruct (occupied_get _ c) as [v|] eqn:Hg; apply inv_set_tcp; try done.
  by eapply cache_ok_occupied_update.
Qed.

Lemma handle_outbound_icmp_inv {P} `{IpPacket P} now h peer (ip : P) fw :
  (∀ key, build_icmp_key peer ip false = Ok key → sent_icmp_at h now key) →
  inv now h fw → inv now h (handle_outbound_icmp now peer ip fw).
Proof.
  intros Hsent Hinv. unfold handle_outbound_icmp.
  destruct (build_icmp_key peer ip false) as [key|]; [|done]. specialize (Hsent key eq_refl).
  destruct (lru_entry now key true (icmp fw)) as [e c] eqn:E.
  destruct (cache_ok_entry_cases ttl cap now (icmp_entry_ok h) _ _ _ _ _ E) as [Hc He];
    [done|apply Hinv|].
  destruct e as [e|e]; subst e; apply inv_set_icmp; try done.
  by apply cache_ok_vacant_insert.
Qed.

Lemma handle_inbound_udp_inv {P} `{IpPacket P} now h pol peer (ip : P) fw :
  (∀ link pkt, build_conn_info ip true = Some (link, pkt) → seen_udp h true now (mkConnection link peer)) →
  inv now h fw → inv now h (handle_inbound_udp now pol peer ip fw).2.
Proof.
  intros Hseen Hinv. unfold handle_inbound_udp.
  destruct (build_conn_info ip true) as [[link pkt]|]; [|done]. specialize (Hseen link pkt eq_refl).
  destruct (lru_entry now _ true (udp fw)) as [e c] eqn:E.
  destruct (cache_ok_entry_cases ttl cap now (udp_entry_ok ttl h) _ _ _ _ _ E) as [Hc He];
    [by intros _ v t; apply (udp_entry_refresh h true)|apply Hinv|].
  destruct e as [e|e]; subst e; repeat case_match; apply inv_set_udp; auto with lru.
  apply cache_ok_vacant_insert; [|done]. by split.
Qed.

Lemma next_sequence_u32 pkt flags : is_uint 32 (next_sequence pkt flags).
Proof. unfold next_sequence. case_match; by apply wrap_is_uint. Qed.

Lemma handle_inbound_tcp_inv {P} `{IpPacket P} now h pol peer (ip : P) fw :
  inv now h fw → inv now h (handle_inbound_tcp now pol peer ip fw).2.
Proof.
  intros Hinv. unfold handle_inbound_tcp.
  destruct (build_conn_info ip true) as [[link pkt]|]; [|done].
  destruct (lru_entry now _ false (tcp fw)) as [e c] eqn:E.
  destruct (cache_ok_entry_cases ttl cap now (tcp_entry_ok h) _ _ _ _ _ E) as [Hc He];
    [done|apply Hinv|].
  destruct e as [e|e]; subst e.
  - destruct (occupied_get _ c) as [v|] eqn:Hg; [|by apply inv_set_tcp].
    repeat case_match; apply inv_set_tcp; auto with lru;
      try apply cache_ok_occupied_remove; (eapply cache_ok_occupied_update; [done| |done]);
      intros ? [Hr _]; (split; [done|]); intros ? [= <-]; apply next_sequence_u32.
  - repeat case_match; apply inv_set_tcp; auto with lru.
    apply cache_ok_vacant_insert; [|done]. split; [done|]. intros ? [= <-]. by apply wrap_is_uint.
Qed.

Lemma handle_icmp_error_inv now h peer key fw :
  inv now h fw → inv now h (handle_icmp_error now peer key fw).2.
Proof.
  intros [Hu Ht Hi]. unfold handle_icmp_error.
  destruct key as [[l|]|[l|]|[l|]|]; try (by split);
    destruct (lru_get now _ _) as [v c] eqn:E;
    eapply cache_ok_get_cases in E; [|done| |done| |done]; destruct v; by split.
Qed.

Lemma handle_inbound_icmp_inv {P} `{IpPacket P} now h peer (ip : P) fw :
  inv now h fw → inv now h (handle_inbound_icmp now peer ip fw).2.
Proof.
  intros Hinv. unfold handle_inbound_icmp.
  destruct (icmp_new _); [|done]. case_match; [done|]. case_match; [done|].
  destruct (build_icmp_key peer ip true) as [key|e]; [|by apply handle_icmp_error_inv].
  destruct (lru_get now key (icmp fw)) as [v c] eqn:E.
  eapply cache_ok_get_cases in E; [|apply Hinv]. destruct v; by apply inv_set_icmp.
Qed.

(** The packet [ip] is the one [buf] holds. *)
Definition reads_as {P} `{IpPacket P} (buf : bytes) (ip : P) : Prop :=
  (∀ inbound pk, buffer_conn inbound pk buf = conn_of inbound pk ip) ∧
  (∀ inbound pk, buffer_icmp inbound pk buf = icmp_of inbound pk ip) ∧
  buffer_dest buf = Some (std_of_ip_addr (ip_get_destination ip)) ∧
  buffer_valid buf = ip_check_valid ip.

Lemma process_outbound_ip_inv {P} `{IpPacket P} now h pk buf (ip : P) fw :
  ip_try_from buf = Some ip → reads_as buf ip → (false, now, pk, buf) ∈ h →
  inv now h fw → inv now h (process_outbound_ip_packet P now pk buf fw).2.
Proof.
  intros Hip (Hconn & Hicmp & _) Hin Hinv. unfold process_outbound_ip_packet. rewrite Hip.
  set (proto := ip_get_next_level_protocol ip).
  assert (proto = IpNextHeaderProtocols.Udp →
          inv now h (handle_outbound_udp now (mkPublicKey pk) ip fw)) as Hu.
  { intros Hp. apply handle_outbound_udp_inv; [|done]. intros link pkt E.
    exists pk, buf, pkt. split; [done|]. rewrite Hconn. unfold conn_of. rewrite E.
    by fold proto; rewrite Hp. }
  assert (proto = IpNextHeaderProtocols.Tcp →
          inv now h (handle_outbound_tcp now (mkPublicKey pk) ip fw)) as Ht.
  { intros Hp. apply handle_outbound_tcp_inv; [|done]. intros link pkt E Hsyn.
    exists pk, buf, pkt. split_and!; [done| |done]. rewrite Hconn. unfold conn_of. rewrite E.
    by fold proto; rewrite Hp. }
  assert ((proto =? IpNextHeaderProtocols.Icmp)%Z || (proto =? IpNextHeaderProtocols.Icmpv6)%Z = true →
          inv now h (handle_outbound_icmp now (mkPublicKey pk) ip fw)) as Hi.
  { intros Hp. apply handle_outbound_icmp_inv; [|done]. intros key E.
    exists pk, buf. split; [done|]. rewrite Hicmp. unfold icmp_of. fold proto. by rewrite Hp, E. }
  case_match.
  - case_match; [|done]. destruct (Z.eqb_spec proto IpNextHeaderProtocols.Udp); [auto|].
    destruct (Z.eqb_spec proto IpNextHeaderProtocols.Tcp); auto.
  - case_match; [done|]. destruct (Z.eqb_spec proto IpNextHeaderProtocols.Udp); [auto|].
    destruct (Z.eqb_spec proto IpNextHeaderProtocols.Tcp); [auto|].
    destruct (proto =? IpNextHeaderProtocols.Icmp)%Z; [auto|].
    destruct (proto =? IpNextHeaderProtocols.Icmpv6)%Z; auto.
Qed.

Lemma process_inbound_ip_inv {P} `{IpPacket P} now h la pk buf (ip : P) fw :
  ip_try_from buf = Some ip → reads_as buf ip → (true, now, pk, buf) ∈ h →
  inv now h fw → inv now h (process_inbound_ip_packet P now la pk buf fw).2.
Proof.
  intros Hip (Hconn & _) Hin Hinv. unfold process_inbound_ip_packet. rewrite Hip.
  assert (ip_get_next_level_protocol ip = IpNextHeaderProtocols.Udp →
    ∀ pol, inv now h (handle_inbound_udp now pol (mkPublicKey pk) ip fw).2) as Hu.
  { intros Hp pol. apply handle_inbound_udp_inv; [|done]. intros link pkt E. exists pk, buf, pkt.
    split; [done|]. rewrite Hconn. unfold conn_of. by rewrite E, Hp. }
  destruct (Z.eqb_spec (ip_get_next_level_protocol ip) IpNextHeaderProtocols.Udp) as [Hp|];
    repeat case_match; try done; cbn [snd];
    by first [apply Hu|apply handle_inbound_tcp_inv|apply handle_inbound_icmp_inv].
Qed.

Lemma reads_as_v4 b buf (ip : Ipv4Packet) :
  (Z.shiftr b 4 =? 4)%Z = true → ipv4_new (b :: buf) = Some ip → reads_as (b :: buf) ip.
Proof.
  intros Hv Hip. unfold reads_as, buffer_conn, buffer_icmp, buffer_dest, buffer_valid, with_version.
  rewrite Hv, Hip. simpl. split_and!; try done. by destruct (ipv4_check_valid ip).
Qed.

Lemma reads_as_v6 b buf (ip : Ipv6Packet) :
  (Z.shiftr b 4 =? 4)%Z = false → (Z.shiftr b 4 =? 6)%Z = true →
  ipv6_new (b :: buf) = Some ip → reads_as (b :: buf) ip.
Proof.
  intros Hv Hv' Hip. unfold reads_as, buffer_conn, buffer_icmp, buffer_dest, buffer_valid, with_version.
  rewrite Hv, Hv', Hip. simpl. split_and!; try done. by destruct (ipv6_check_valid ip).
Qed.

Lemma process_outbound_inv now h pk buf fw :
  (false, now, pk, buf) ∈ h → inv now h fw → inv now h (process_outbound_packet now pk buf fw).2.
Proof.
  intros Hin Hinv. unfold process_outbound_packet. destruct buf as [|b buf]; [done|].
  destruct (Z.shiftr b 4 =? 4)%Z eqn:Hv.
  - destruct (ipv4_new (b :: buf)) as [ip|] eqn:Hip.
    + eapply process_outbound_ip_inv; [exact Hip|by apply reads_as_v4|done..].
    + unfold process_outbound_ip_packet. simpl. by rewrite Hip.
  - destruct (Z.shiftr b 4 =? 6)%Z eqn:Hv'; [|done]. simpl. case_match; [|done].
    destruct (ipv6_new (b :: buf)) as [ip|] eqn:Hip.
    + eapply process_outbound_ip_inv; [exact Hip|by apply reads_as_v6|done..].
    + unfold process_outbound_ip_packet. simpl. by rewrite Hip.
Qed.

Lemma process_inbound_inv now h la pk buf fw :
  (true, now, pk, buf) ∈ h → inv now h fw → inv now h (process_inbound_packet now la pk buf fw).2.
Proof.
  intros Hin Hinv. unfold process_inbound_packet. destruct buf as [|b buf]; [done|].
  destruct (Z.shiftr b 4 =? 4)%Z eqn:Hv.
  - destruct (ipv4_new (b :: buf)) as [ip|] eqn:Hip.
    + eapply process_inbound_ip_inv; [exact Hip|by apply reads_as_v4|done..].
    + unfold process_inbound_ip_packet. simpl. by rewrite Hip.
  - destruct (Z.shiftr b 4 =? 6)%Z eqn:Hv'; [|done]. simpl. case_match; [|done].
    destruct (ipv6_new (b :: buf)) as [ip|] eqn:Hip.
    + eapply process_inbound_ip_inv; [exact Hip|by apply reads_as_v6|done..].
    + unfold process_inbound_ip_packet. simpl. by rewrite Hip.
Qed.

Lemma seen_udp_grows h h' inbound t key : h ⊆ h' → seen_udp h inbound t key → seen_udp h' inbound t key.
Proof. intros Hh (pk & buf & pkt & ? & ?). exists pk, buf, pkt. set_solver. Qed.

Lemma udp_live_grows h h' t key : h ⊆ h' → udp_live ttl h t key → udp_live ttl h' t key.
Proof.
  intros Hh. induction 1; [eapply udp_live_sent|eapply udp_live_kept]; eauto using seen_udp_grows.
Qed.

Lemma inv_grows now h h' fw : h ⊆ h' → inv now h fw → inv now h' fw.
Proof.
  intros Hh [Hu Ht Hi]. split; (eapply cache_ok_impl; [|done]); intros key v t.
  - intros [Hs Hc]. split; [|done]. intros Hr. by eapply udp_live_grows; [|apply Hs].
  - intros [Hs Hc]. split; [|done]. intros Hr. destruct (Hs Hr) as (pk & buf & pkt & ? & ? & ?).
    exists pk, buf, pkt. set_solver.
  - intros (pk & buf & ? & ?). exists pk, buf. set_solver.
Qed.

Lemma fw_exec_inv now h op fw : inv now h fw → inv now (log_packet now op h) (fw_exec now op fw).
Proof.
  intros Hinv. destruct op; simpl; try by apply inv_set_whitelist.
  - apply process_outbound_inv; [set_solver|]. eapply inv_grows; [|done]. set_solver.
  - apply process_inbound_inv; [set_solver|]. eapply inv_grows; [|done]. set_solver.
  - by apply inv_set_local_ips.
  - apply inv_set_tcp; [|done]. unfold log_len. destruct debug; [apply cache_ok_len|]; apply Hinv.
  - apply inv_set_udp; [|done]. unfold log_len. destruct debug; [apply cache_ok_len|]; apply Hinv.
Qed.

Lemma inv_later now now' h fw : (now <= now')%Z → inv now h fw → inv now' h fw.
Proof. intros Hle []. split; by eapply cache_ok_later. Qed.

Lemma fw_reach_inv use_ipv6 feature now h fw :
  fw_reach cap ttl use_ipv6 feature now h fw → inv now h fw.
Proof.
  induction 1 as [now|now now' h fw Hle _ IH|now h fw op _ IH].
  - split; apply cache_ok_new.
  - by eapply inv_later.
  - by apply fw_exec_inv.
Qed.
End preservation.

(** ** Who may send what: the promise of the firewall

    The reasons for which an inbound packet may pass, in terms of the
    configuration, of what was sent before, and of the connections tracked. *)

Section authorisation.
Context `{Pnet} `{Ipnet} {M : Type → Type → Type} `{LinkedHashMap M}.

(** By the configuration: from the VPN peer, into the local area or elsewhere
    from a peer that may route there, or to this node from a peer with the
    permission or to the port it may use. *)
Inductive permitted (fw : StatefullFirewall M) (la : list StdIpAddr) (pk buf : bytes) : Prop :=
| auth_vpn :
    vpn_peer (whitelist fw) = Some (mkPublicKey pk) →
    permitted fw la pk buf
| auth_local_area dst :
    buffer_dest buf = Some dst → is_private_address_except_local_interface la fw dst = true →
    mkPublicKey pk ∈ get_peer_whitelist LocalAreaConnections fw →
    permitted fw la pk buf
| auth_routing dst :
    buffer_dest buf = Some dst → is_private_address_except_local_interface la fw dst = false →
    dst ∉ ip_addresses fw → mkPublicKey pk ∈ get_peer_whitelist RoutingConnections fw →
    permitted fw la pk buf
| auth_incoming dst :
    buffer_dest buf = Some dst → dst ∈ ip_addresses fw →
    mkPublicKey pk ∈ get_peer_whitelist IncomingConnections fw →
    permitted fw la pk buf
| auth_port dst proto key pkt :
    buffer_dest buf = Some dst → dst ∈ ip_addresses fw → buffer_conn true pk buf = Some (proto, key, pkt) →
    get_port_whitelist fw !! mkPublicKey pk = Some (local_port (link key)) →
    permitted fw la pk buf.

(** By the traffic: it answers a packet that this node sent, or is an ICMP error
    about a connection that is tracked. *)
Inductive solicited (ttl : Duration) (now : Instant) (h : list traffic)
    (fw : StatefullFirewall M) (pk buf : bytes) : Prop :=
| auth_udp_pinhole key pkt t :
    buffer_conn true pk buf = Some (IpNextHeaderProtocols.Udp, key, pkt) →
    udp_live ttl h t key → (now <= t + ttl)%Z →
    solicited ttl now h fw pk buf
| auth_tcp_pinhole key pkt t :
    buffer_conn true pk buf = Some (IpNextHeaderProtocols.Tcp, key, pkt) →
    sent_syn_at h t key → (now <= t + ttl)%Z →
    solicited ttl now h fw pk buf
| auth_icmp_reply key t :
    buffer_icmp true pk buf = Some (Ok key) → sent_icmp_at h t key → (now <= t + ttl)%Z →
    solicited ttl now h fw pk buf
| auth_icmp_error_icmp key t :
    buffer_icmp true pk buf = Some (Err (ErrIcmp (Some key))) →
    sent_icmp_at h t key → (now <= t + ttl)%Z →
    solicited ttl now h fw pk buf
| auth_icmp_error_udp l :
    buffer_icmp true pk buf = Some (Err (ErrUdp (Some l))) →
    is_Some (lru_peek now (mkConnection l (mkPublicKey pk)) (udp fw)) →
    solicited ttl now h fw pk buf
| auth_icmp_error_tcp l :
    buffer_icmp true pk buf = Some (Err (ErrTcp (Some l))) →
    is_Some (lru_peek now (mkConnection l (mkPublicKey pk)) (tcp fw)) →
    solicited ttl now h fw pk buf.

Definition authorised (ttl : Duration) (now : Instant) (h : list traffic)
    (fw : StatefullFirewall M) (la : list StdIpAddr) (pk buf : bytes) : Prop :=
  permitted fw la pk buf ∨ solicited ttl now h fw pk buf.
End authorisation.

Section acceptance.
Context `{Pnet} `{Ipnet} {M : Type → Type → Type} `{LinkedHashMapLaws M}.
Implicit Types (fw : StatefullFirewall M) (now : Instant) (h : list traffic).

(** An accepted UDP packet is allowed by the policy or has a pinhole. *)
Lemma handle_inbound_udp_accepts {P} `{IpPacket P} now pol peer (ip : P) fw :
  (handle_inbound_udp now pol peer ip fw).1 = true →
  ∃ link pkt, build_conn_info ip true = Some (link, pkt) ∧
    (pol peer (local_port link) ≠ Drop ∨
     ∃ info, lru_peek now (mkConnection link peer) (udp fw) = Some info ∧
             is_remote_initiated info = false).
Proof.
  unfold handle_inbound_udp. destruct (build_conn_info ip true) as [[link pkt]|]; [|done].
  intros Hr. exists link, pkt. split; [done|].
  pose proof (lru_entry_peek now (mkConnection link peer) true (udp fw)) as Hp.
  destruct (lru_entry now _ true (udp fw)) as [[e|e] c].
  - destruct Hp as (-> & [info Hi] & Hg). rewrite Hg, Hi in Hr.
    destruct (is_remote_initiated info) eqn:Hri; [|right; eauto].
    left. by destruct (pol peer (local_port link)).
  - left. by destruct (pol peer (local_port link)).
Qed.

Lemma handle_inbound_tcp_accepts {P} `{IpPacket P} now pol peer (ip : P) fw :
  (handle_inbound_tcp now pol peer ip fw).1 = true →
  ∃ link pkt, build_conn_info ip true = Some (link, pkt) ∧
    (pol peer (local_port link) ≠ Drop ∨
     ∃ info, lru_peek now (mkConnection link peer) (tcp fw) = Some info ∧
             conn_remote_initiated info = false).
Proof.
  unfold handle_inbound_tcp. destruct (build_conn_info ip true) as [[link pkt]|]; [|done].
  intros Hr. exists link, pkt. split; [done|].
  pose proof (lru_entry_peek now (mkConnection link peer) false (tcp fw)) as Hp.
  destruct (lru_entry now _ false (tcp fw)) as [[e|e] c].
  - destruct Hp as (-> & [info Hi] & Hg). rewrite Hg, Hi in Hr.
    destruct (conn_remote_initiated info) eqn:Hri; [|right; eauto].
    left. simpl in Hr. by case_bool_decide.
  - left. by destruct (pol peer (local_port link)).
Qed.

(** A policy that does not drop: the peer or the port is whitelisted. *)
Lemma decide_connection_handling_allows fw peer port :
  decide_connection_handling fw peer port ≠ Drop →
  peer ∈ get_peer_whitelist IncomingConnections fw ∨ get_port_whitelist fw !! peer = Some port.
Proof.
  unfold decide_connection_handling, is_peer_whitelisted, is_port_whitelisted.
  case_bool_decide; [by left|]. unfold get_port_whitelist.
  destruct (port_whitelist (whitelist fw) !! peer) as [p|]; [|done].
  destruct (Z.eqb_spec p port); [subst; by right|done].
Qed.

Context (cap : nat) (ttl : Duration).

Lemma handle_icmp_error_accepts now h fw peer key :
  fw_inv cap ttl now h fw → (handle_icmp_error now peer key fw).1 = true →
  match key with
  | ErrIcmp (Some k) => ∃ t, sent_icmp_at h t k ∧ (now <= t + ttl)%Z
  | ErrUdp (Some l) => is_Some (lru_peek now (mkConnection l peer) (udp fw))
  | ErrTcp (Some l) => is_Some (lru_peek now (mkConnection l peer) (tcp fw))
  | _ => False
  end.
Proof.
  intros [Hu Ht Hi]. unfold handle_icmp_error. destruct key as [[l|]|[l|]|[k|]|]; try done.
  - rewrite <-lru_get_peek by apply Hu. destruct (lru_get now _ (udp fw)) as [[]]; [intros _; by eexists|done].
  - rewrite <-lru_get_peek by apply Ht. destruct (lru_get now _ (tcp fw)) as [[]]; [intros _; by eexists|done].
  - pose proof (lru_get_peek now k (icmp fw) (ok_wf _ _ _ _ _ Hi)) as Hp.
    destruct (lru_get now k (icmp fw)) as [[v|] c]; [|done]. intros _. simpl in Hp.
    rewrite <-(ok_ttl _ _ _ _ _ Hi). apply (lru_all_peek (icmp_entry_ok h) now k v); [apply Hi|done].
Qed.

Lemma handle_inbound_icmp_authorised {P} `{IpPacket P} now h la pk buf dst (ip : P) fw :
  buffer_icmp true pk buf = Some (build_icmp_key (mkPublicKey pk) ip true) →
  buffer_dest buf = Some dst → dst ∈ ip_addresses fw → fw_inv cap ttl now h fw → (handle_inbound_icmp now (mkPublicKey pk) ip fw).1 = true →
  authorised ttl now h fw la pk buf.
Proof.
  intros Hicmp Hd Hdst Hinv. unfold handle_inbound_icmp. destruct (icmp_new _); [|done].
  unfold is_peer_whitelisted. case_bool_decide; [by intros _; left; eapply auth_incoming|].
  case_bool_decide; [done|].
  destruct (build_icmp_key (mkPublicKey pk) ip true) as [k|e].
  - destruct Hinv as [_ _ Hi]. pose proof (lru_get_peek now k (icmp fw) (ok_wf _ _ _ _ _ Hi)) as Hp.
    destruct (lru_get now k (icmp fw)) as [[v|] c]; [|done]. intros _. simpl in Hp. symmetry in Hp.
    eapply (lru_all_peek (icmp_entry_ok h)) in Hp as (t & Hs & Ht); [|apply Hi].
    rewrite (ok_ttl _ _ _ _ _ Hi) in Ht. right. by eapply auth_icmp_reply.
  - intros Hr. eapply handle_icmp_error_accepts in Hr; [|done].
    destruct e as [[l|]|[l|]|[k|]|]; try done.
    + right. by eapply auth_icmp_error_udp.
    + right. by eapply auth_icmp_error_tcp.
    + destruct Hr as (t & ? & ?). right. by eapply auth_icmp_error_icmp.
Qed.

Lemma process_inbound_ip_authorised {P} `{IpPacket P} now h la pk buf (ip : P) fw :
  ip_try_from buf = Some ip → reads_as buf ip → fw_inv cap ttl now h fw →
  (process_inbound_ip_packet P now la pk buf fw).1 = true → authorised ttl now h fw la pk buf.
Proof.
  intros Hip (Hconn & Hicmp & Hdst & _) Hinv. unfold process_inbound_ip_packet. rewrite Hip.
  specialize (Hconn true pk). specialize (Hicmp true pk).
  unfold conn_of in Hconn. unfold icmp_of in Hicmp.
  set (proto := ip_get_next_level_protocol ip) in *.
  case_bool_decide as Hv; [by intros _; left; apply auth_vpn|].
  destruct (negb (ip_check_valid ip)); [done|]. unfold decide_packet_handling.
  destruct (is_private_address_except_local_interface la fw _) eqn:Hpriv.
  { unfold is_peer_whitelisted. case_bool_decide; [|done]. intros _. left. by eapply auth_local_area. }
  case_bool_decide as Hloc.
  2:{ unfold is_peer_whitelisted. case_bool_decide; [|done]. intros _. left. by eapply auth_routing. }
  destruct (Z.eqb_spec proto IpNextHeaderProtocols.Udp) as [Hp|_].
  { intros (link & pkt & E & Hok)%handle_inbound_udp_accepts. rewrite E, Hp in Hconn.
    destruct Hok as [Hok|(info & Hpk & Hri)].
    - apply decide_connection_handling_allows in Hok as [|]; left; [by eapply auth_incoming|by eapply auth_port].
    - destruct (lru_all_peek (udp_entry_ok ttl h) now _ _ _ (ok_all _ _ _ _ _ (inv_udp _ _ _ _ _ Hinv)) Hpk)
        as (t & [Hs _] & Ht).
      rewrite (ok_ttl _ _ _ _ _ (inv_udp _ _ _ _ _ Hinv)) in Ht. right. eapply auth_udp_pinhole; eauto. }
  destruct (Z.eqb_spec proto IpNextHeaderProtocols.Tcp) as [Hp|_].
  { intros (link & pkt & E & Hok)%handle_inbound_tcp_accepts. rewrite E, Hp in Hconn.
    destruct Hok as [Hok|(info & Hpk & Hri)].
    - apply decide_connection_handling_allows in Hok as [|]; left; [by eapply auth_incoming|by eapply auth_port].
    - destruct (lru_all_peek (tcp_entry_ok h) now _ _ _ (ok_all _ _ _ _ _ (inv_tcp _ _ _ _ _ Hinv)) Hpk)
        as (t & [Hs _] & Ht).
      rewrite (ok_ttl _ _ _ _ _ (inv_tcp _ _ _ _ _ Hinv)) in Ht. right. eapply auth_tcp_pinhole; eauto. }
  assert ((proto =? IpNextHeaderProtocols.Icmp)%Z || (proto =? IpNextHeaderProtocols.Icmpv6)%Z = true →
          (handle_inbound_icmp now (mkPublicKey pk) ip fw).1 = true →
          authorised ttl now h fw la pk buf) as Hi.
  { intros Hp. rewrite Hp in Hicmp. by eapply handle_inbound_icmp_authorised. }
  destruct (proto =? IpNextHeaderProtocols.Icmp)%Z; [by apply Hi|].
  destruct (proto =? IpNextHeaderProtocols.Icmpv6)%Z; [|done].
  simpl. destruct (allow_ipv6 fw); [by apply Hi|done].
Qed.

Lemma process_inbound_authorised now h la pk buf fw :
  fw_inv cap ttl now h fw → (process_inbound_packet now la pk buf fw).1 = true →
  authorised ttl now h fw la pk buf.
Proof.
  intros Hinv. unfold process_inbound_packet. destruct buf as [|b buf]; [done|].
  destruct (Z.shiftr b 4 =? 4)%Z eqn:Hv.
  - destruct (ipv4_new (b :: buf)) as [ip|] eqn:Hip.
    + eapply process_inbound_ip_authorised; [exact Hip|by apply reads_as_v4|done].
    + unfold process_inbound_ip_packet. simpl. by rewrite Hip.
  - destruct (Z.shiftr b 4 =? 6)%Z eqn:Hv'; [|done]. destruct (allow_ipv6 fw); [|done].
    destruct (ipv6_new (b :: buf)) as [ip|] eqn:Hip.
    + eapply process_inbound_ip_authorised; [exact Hip|by apply reads_as_v6|done].
    + unfold process_inbound_ip_packet. simpl. by rewrite Hip.
Qed.
End acceptance.

(** ** Pinholes open *)

(** [packet()] returns the buffer of the view. *)
Class PnetLaws `{Pnet} : Prop := {
  ipv4_packet_new b p : ipv4_new b = Some p → ipv4_packet p = b;
  ipv6_packet_new b p : ipv6_new b = Some p → ipv6_packet p = b
}.

#[export] Instance RfcPnet_laws : @PnetLaws RfcPnet.
Proof. split; intros b p; simpl; unfold Rfc.view; case_decide; naive_solver. Qed.

Section pinholes.
Context `{Pnet} `{Ipnet} {M : Type → Type → Type} `{LinkedHashMapLaws M}.
Implicit Types (fw : StatefullFirewall M) (now : Instant).

(** What the three caches track *)
Inductive Flow := UdpFlow (key : Connection) | TcpFlow (key : Connection) | IcmpFlow (key : IcmpConn).

#[export] Instance Flow_eq_dec : EqDecision Flow.
Proof. solve_decision. Defined.

(** A packet to [pk] opens a flow: a UDP packet, unless the other side has opened
    the connection before, a TCP SYN, or an ICMP request. *)
Inductive opens fw now (pk buf : bytes) : Flow → Prop :=
| opens_udp key pkt :
    buffer_conn false pk buf = Some (IpNextHeaderProtocols.Udp, key, pkt) →
    (∀ info, lru_peek now key (udp fw) = Some info → is_remote_initiated info = false) →
    opens fw now pk buf (UdpFlow key)
| opens_tcp key pkt :
    buffer_conn false pk buf = Some (IpNextHeaderProtocols.Tcp, key, Some pkt) →
    flags_match (tcp_get_flags pkt) TCP_FIRST_PKT_MASK TcpFlags.SYN = true →
    opens fw now pk buf (TcpFlow key)
| opens_icmp key :
    buffer_icmp false pk buf = Some (Ok key) → opens fw now pk buf (IcmpFlow key).

(** A packet from [pk] belongs to a flow, seen from the other side. *)
Inductive answers (pk buf : bytes) : Flow → Prop :=
| answers_udp key pkt :
    buffer_conn true pk buf = Some (IpNextHeaderProtocols.Udp, key, pkt) → answers pk buf (UdpFlow key)
| answers_tcp key pkt :
    buffer_conn true pk buf = Some (IpNextHeaderProtocols.Tcp, key, pkt) → answers pk buf (TcpFlow key)
| answers_icmp key : buffer_icmp true pk buf = Some (Ok key) → answers pk buf (IcmpFlow key).

(** The flow that an ICMP key, or the key of an ICMP error, is about *)
Definition icmp_key_flow (peer : PublicKey) (key : IcmpKey) : option Flow :=
  match key with
  | Ok key | Err (ErrIcmp (Some key)) => Some (IcmpFlow key)
  | Err (ErrUdp (Some l)) => Some (UdpFlow (mkConnection l peer))
  | Err (ErrTcp (Some l)) => Some (TcpFlow (mkConnection l peer))
  | _ => None
  end.

(** The flows that a packet concerns: its own, and the one an ICMP error is about *)
Definition flows (inbound : bool) (pk buf : bytes) : list Flow :=
  match buffer_conn inbound pk buf with
  | Some (proto, key, _) =>
      if (proto =? IpNextHeaderProtocols.Udp)%Z then [UdpFlow key]
      else if (proto =? IpNextHeaderProtocols.Tcp)%Z then [TcpFlow key] else []
  | None => []
  end ++
  option_list (buffer_icmp inbound pk buf ≫= icmp_key_flow (mkPublicKey pk)).

Definition op_flows (op : fw_op) : list Flow :=
  match op with
  | OutboundPacket pk buf => flows false pk buf
  | InboundPacket _ pk buf => flows true pk buf
  | _ => []
  end.

(** The flow is tracked as ours, last used at [t], with at most [n] others used
    after it. *)
Definition remembers (n : nat) (t : Instant) fw (f : Flow) : Prop :=
  match f with
  | UdpFlow key => ∃ info, lru_recent n key info t (udp fw) ∧ is_remote_initiated info = false
  | TcpFlow key => ∃ info, lru_recent n key info t (tcp fw) ∧ tx_alive info = true ∧ conn_remote_initiated info = false
  | IcmpFlow key => lru_recent n key tt t (icmp fw)
  end.

(** A pinhole for [buf']: the connection it belongs to is tracked as ours. *)
Inductive tracked fw now (pk buf' : bytes) : Prop :=
| tracked_udp key pkt info :
    buffer_conn true pk buf' = Some (IpNextHeaderProtocols.Udp, key, pkt) →
    lru_peek now key (udp fw) = Some info → is_remote_initiated info = false →
    tracked fw now pk buf'
| tracked_tcp key pkt info :
    buffer_conn true pk buf' = Some (IpNextHeaderProtocols.Tcp, key, pkt) →
    lru_peek now key (tcp fw) = Some info → tx_alive info = true →
    conn_remote_initiated info = false →
    tracked fw now pk buf'
| tracked_icmp key :
    buffer_icmp true pk buf' = Some (Ok key) → lru_peek now key (icmp fw) = Some tt →
    tracked fw now pk buf'.

Definition same_config fw fw' : Prop :=
  whitelist fw' = whitelist fw ∧ allow_ipv6 fw' = allow_ipv6 fw ∧
  record_whitelisted fw' = record_whitelisted fw ∧ ip_addresses fw' = ip_addresses fw ∧
  exclude_ip_range fw' = exclude_ip_range fw.

Lemma process_outbound_ip_config {P} `{IpPacket P} now pk buf fw :
  same_config fw (process_outbound_ip_packet P now pk buf fw).2.
Proof.
  unfold process_outbound_ip_packet, handle_outbound_udp, handle_outbound_tcp, handle_outbound_icmp.
  repeat case_match; done.
Qed.

Lemma conn_of_proto {P} `{IpPacket P} inbound pk (ip : P) proto key pkt :
  conn_of inbound pk ip = Some (proto, key, pkt) →
  ip_get_next_level_protocol ip = proto ∧
  ∃ link, build_conn_info ip inbound = Some (link, pkt) ∧ key = mkConnection link (mkPublicKey pk).
Proof. unfold conn_of. destruct (build_conn_info ip inbound) as [[]|]; naive_solver. Qed.

Lemma icmp_of_proto {P} `{IpPacket P} inbound pk (ip : P) k :
  icmp_of inbound pk ip = Some k →
  let proto := ip_get_next_level_protocol ip in
  (proto = IpNextHeaderProtocols.Icmp ∨ proto = IpNextHeaderProtocols.Icmpv6) ∧
  build_icmp_key (mkPublicKey pk) ip inbound = k.
Proof.
  unfold icmp_of. simpl. destruct (Z.eqb_spec (ip_get_next_level_protocol ip) IpNextHeaderProtocols.Icmp);
    [naive_solver|].
  destruct (Z.eqb_spec (ip_get_next_level_protocol ip) IpNextHeaderProtocols.Icmpv6); naive_solver.
Qed.

Lemma outbound_udp_remembers {P} `{IpPacket P} now peer (ip : P) link pkt fw :
  build_conn_info ip false = Some (link, pkt) → ip_packet ip ≠ [] →
  lru_wf now (udp fw) → 0 < lru_capacity (udp fw) →
  (∀ info, lru_peek now (mkConnection link peer) (udp fw) = Some info → is_remote_initiated info = false) →
  remembers 0 now (handle_outbound_udp now peer ip fw) (UdpFlow (mkConnection link peer)).
Proof.
  intros Hl Hne Hwf Hc Hr. unfold handle_outbound_udp. rewrite Hl.
  destruct (ip_packet ip); [done|].
  pose proof (lru_entry_peek now (mkConnection link peer) true (udp fw)) as Hp.
  destruct (lru_entry now _ true (udp fw)) as [[e|e] c] eqn:E.
  - destruct Hp as (-> & [info Hi] & Hg). rewrite Hg, Hi.
    eexists. split; [eapply recent_refresh; done|]. simpl. auto.
  - eexists. split; [by eapply recent_vacant_insert_eq|done].
Qed.

Lemma outbound_syn_remembers {P} `{IpPacket P} now peer (ip : P) link pkt fw :
  build_conn_info ip false = Some (link, Some pkt) →
  flags_match (tcp_get_flags pkt) TCP_FIRST_PKT_MASK TcpFlags.SYN = true →
  lru_wf now (tcp fw) → 0 < lru_capacity (tcp fw) →
  remembers 0 now (handle_outbound_tcp now peer ip fw) (TcpFlow (mkConnection link peer)).
Proof.
  intros Hl Hs Hwf Hc. unfold handle_outbound_tcp. rewrite Hl, Hs.
  exists (mkTcpConnectionInfo true true false None). split; [by apply recent_insert_eq|done].
Qed.

Lemma outbound_icmp_remembers {P} `{IpPacket P} now peer (ip : P) key fw :
  build_icmp_key peer ip false = Ok key → lru_wf now (icmp fw) → 0 < lru_capacity (icmp fw) →
  remembers 0 now (handle_outbound_icmp now peer ip fw) (IcmpFlow key).
Proof.
  intros Hk Hwf Hc. unfold handle_outbound_icmp. rewrite Hk.
  pose proof (lru_entry_peek now key true (icmp fw)) as Hp.
  destruct (lru_entry now key true (icmp fw)) as [[e|e] c] eqn:E; simpl.
  - destruct Hp as (-> & [[] Hi] & _). by eapply (recent_refresh _ tt).
  - by eapply recent_vacant_insert_eq.
Qed.

(** A packet the firewall lets out leaves a pinhole for the answer. *)
Lemma outbound_remembers {P} `{IpPacket P} cap ttl h now pk buf f (ip : P) fw :
  ip_try_from buf = Some ip → reads_as buf ip → ip_packet ip ≠ [] →
  fw_inv cap ttl now h fw → 0 < cap → opens fw now pk buf f →
  is_peer_whitelisted (whitelist fw) (mkPublicKey pk) IncomingConnections = false →
  (process_outbound_ip_packet P now pk buf fw).1 = true →
  remembers 0 now (process_outbound_ip_packet P now pk buf fw).2 f.
Proof.
  intros Hip (Hconn & Hicmp & _) Hne [[Hu Hu1 Hu2 _] [Ht Ht1 Ht2 _] [Hi Hi1 Hi2 _]] Hcap Hop Hw.
  unfold process_outbound_ip_packet. rewrite Hip, Hw.
  destruct (negb (ip_check_valid ip)); [done|]. intros _.
  destruct Hop as [key pkt E Hrem|key pkt E Hsyn|key E].
  - rewrite Hconn in E. apply conn_of_proto in E as (-> & link & E & ->).
    apply (outbound_udp_remembers now (mkPublicKey pk) ip link pkt); done || lia.
  - rewrite Hconn in E. apply conn_of_proto in E as (-> & link & E & ->).
    apply (outbound_syn_remembers now (mkPublicKey pk) ip link pkt); done || lia.
  - rewrite Hicmp in E. apply icmp_of_proto in E as ([-> | ->] & E); apply outbound_icmp_remembers; done || lia.
Qed.

(** A flow that is remembered is a pinhole for its packets. *)
Lemma remembers_tracked n t ttl cap h now fw pk buf f :
  fw_inv cap ttl now h fw → (now <= t + ttl)%Z → answers pk buf f → remembers n t fw f → tracked fw now pk buf.
Proof.
  intros [[_ Hu _ _] [_ Ht _ _] [_ Hi _ _]] Hle [key pkt E|key pkt E|key E]; simpl.
  - intros (info & Hr & ?). eapply tracked_udp; [done|eapply recent_peek; [|done]; lia|done].
  - intros (info & Hr & ? & ?). eapply tracked_tcp; [done|eapply recent_peek; [|done]; lia|done..].
  - intros Hr. eapply tracked_icmp; [done|]. eapply recent_peek; [|done]; lia.
Qed.

(** ** Pinholes are used *)

Lemma handle_inbound_udp_pinhole {P} `{IpPacket P} now pol peer (ip : P) link pkt info fw :
  build_conn_info ip true = Some (link, pkt) →
  lru_peek now (mkConnection link peer) (udp fw) = Some info → is_remote_initiated info = false →
  (handle_inbound_udp now pol peer ip fw).1 = true.
Proof.
  intros E Hpk Hri. unfold handle_inbound_udp. rewrite E.
  pose proof (lru_entry_peek now (mkConnection link peer) true (udp fw)) as Hp.
  destruct (lru_entry now _ true (udp fw)) as [[e|e] c]; [|naive_solver].
  destruct Hp as (-> & _ & Hg). by rewrite Hg, Hpk, Hri.
Qed.

Lemma handle_inbound_tcp_pinhole {P} `{IpPacket P} now pol peer (ip : P) link pkt info fw :
  build_conn_info ip true = Some (link, pkt) →
  lru_peek now (mkConnection link peer) (tcp fw) = Some info →
  tx_alive info = true → conn_remote_initiated info = false →
  (handle_inbound_tcp now pol peer ip fw).1 = true.
Proof.
  intros E Hpk Htx Hri. unfold handle_inbound_tcp. rewrite E.
  pose proof (lru_entry_peek now (mkConnection link peer) false (tcp fw)) as Hp.
  destruct (lru_entry now _ false (tcp fw)) as [[e|e] c]; [|naive_solver].
  destruct Hp as (-> & _ & Hg). rewrite Hg, Hpk, Hri, Htx. simpl.
  destruct pkt; [|done]. by rewrite !andb_false_r.
Qed.

Definition family_blocked_types (l : list Z) : Prop :=
  l = ICMP_BLOCKED_TYPES ∨ l = ICMPV6_BLOCKED_TYPES.

(** A reply has a reply's type, which no family blocks. *)
Lemma reply_not_blocked {P} `{IpPacket P} peer (ip : P) key :
  family_blocked_types (icmp_blocked_types (P:=P)) → build_icmp_key peer ip true = Ok key →
  ∃ p, icmp_new (ip_payload ip) = Some p ∧ icmp_get_type p ∉ icmp_blocked_types (P:=P).
Proof.
  intros Hb. unfold build_icmp_key, build_icmp_key_with.
  destruct (icmp_new (ip_payload ip)) as [p|]; [|done]. intros Hk. exists p. split; [done|].
  destruct (is_reply_type (icmp_get_type p)) eqn:Hrt.
  - unfold is_reply_type in Hrt. rewrite !orb_true_iff, !Z.eqb_eq in Hrt.
    destruct Hb as [-> | ->]; intros Hin;
      destruct Hrt as [[[[E|E]|E]|E]|E]; rewrite E in Hin; vm_compute in Hin; set_solver.
  - unfold build_icmp_error_key, nested_error_key in Hk. repeat case_match; discriminate.
Qed.

Lemma handle_inbound_icmp_pinhole {P} `{IpPacket P} now peer (ip : P) key fw :
  family_blocked_types (icmp_blocked_types (P:=P)) → lru_wf now (icmp fw) →
  build_icmp_key peer ip true = Ok key → lru_peek now key (icmp fw) = Some tt →
  (handle_inbound_icmp now peer ip fw).1 = true.
Proof.
  intros Hb Hwf Hk Hpk. unfold handle_inbound_icmp.
  destruct (reply_not_blocked peer ip key Hb Hk) as (p & -> & Hnb).
  case_match; [done|]. rewrite bool_decide_eq_false_2, Hk by done.
  rewrite <-lru_get_peek in Hpk by done. destruct (lru_get now key (icmp fw)) as [[]]; naive_solver.
Qed.

Lemma inbound_accepts_tracked {P} `{IpPacket P} now la pk buf' (ip : P) fw :
  family_blocked_types (icmp_blocked_types (P:=P)) →
  ip_try_from buf' = Some ip → reads_as buf' ip → lru_wf now (icmp fw) → ip_check_valid ip = true →
  decide_packet_handling la fw (mkPublicKey pk) (std_of_ip_addr (ip_get_destination ip)) = HandleLocally →
  (ip_get_next_level_protocol ip = IpNextHeaderProtocols.Icmpv6 → allow_ipv6 fw = true) →
  tracked fw now pk buf' → (process_inbound_ip_packet P now la pk buf' fw).1 = true.
Proof.
  intros Hb Hip (Hconn & Hicmp & _) Hwf Hval Hdec Hv6 Htr. unfold process_inbound_ip_packet.
  rewrite Hip, Hval, Hdec. case_bool_decide; [by repeat case_match|]. cbn [negb].
  destruct Htr as [key pkt info E Hpk Hri|key pkt info E Hpk Htx Hri|key E Hpk].
  - rewrite Hconn in E. apply conn_of_proto in E as (-> & link & E & ->). simpl.
    by eapply handle_inbound_udp_pinhole.
  - rewrite Hconn in E. apply conn_of_proto in E as (-> & link & E & ->). simpl.
    by eapply handle_inbound_tcp_pinhole.
  - rewrite Hicmp in E. apply icmp_of_proto in E as ([E'|E'] & E); rewrite E'; simpl.
    + by eapply handle_inbound_icmp_pinhole.
    + rewrite Hv6 by done. by eapply handle_inbound_icmp_pinhole.
Qed.
End pinholes.

(** ** Pinholes stay

    A packet of another flow, or a change of the configuration, uses at most one
    entry of each cache. *)

Section survival.
Context `{Pnet} `{Ipnet} {M : Type → Type → Type} `{LinkedHashMapLaws M}.
Context (cap : nat) (ttl : Duration).
Implicit Types (fw : StatefullFirewall M) (now t : Instant) (h : list traffic) (f : Flow).

Lemma remembers_le n n' t fw f : n ≤ n' → remembers n t fw f → remembers n' t fw f.
Proof. intros Hn. destruct f; simpl; [intros (info & ? & ?); exists info; split; [by eapply recent_le|done]..|by apply recent_le]. Qed.

Lemma remembers_same n t fw fw' f : udp fw' = udp fw → tcp fw' = tcp fw → icmp fw' = icmp fw →
  remembers n t fw f → remembers (S n) t fw' f.
Proof. intros Hu Ht Hi Hr. apply (remembers_le n); [lia|]. destruct f; simpl in *; by rewrite ?Hu, ?Ht, ?Hi. Qed.

(** A cache that replaces the one of its kind *)
Lemma remembers_set_udp n t fw c f : (∀ key info, f = UdpFlow key → lru_recent n key info t (udp fw) → lru_recent (S n) key info t c) →
  remembers n t fw f → remembers (S n) t (set_udp fw c) f.
Proof.
  intros Hc Hr. destruct f; [|exact (remembers_le n (S n) t fw _ ltac:(lia) Hr)..].
  destruct Hr as (info & ? & ?). exists info. split; [by apply Hc|done].
Qed.

Lemma remembers_set_tcp n t fw c f : (∀ key info, f = TcpFlow key → lru_recent n key info t (tcp fw) → lru_recent (S n) key info t c) →
  remembers n t fw f → remembers (S n) t (set_tcp fw c) f.
Proof.
  intros Hc Hr. destruct f; [exact (remembers_le n (S n) t fw _ ltac:(lia) Hr)| |exact (remembers_le n (S n) t fw _ ltac:(lia) Hr)].
  destruct Hr as (info & ? & ?). exists info. split; [by apply Hc|done].
Qed.

Lemma remembers_set_icmp n t fw c f : (∀ key, f = IcmpFlow key → lru_recent n key tt t (icmp fw) → lru_recent (S n) key tt t c) →
  remembers n t fw f → remembers (S n) t (set_icmp fw c) f.
Proof. intros Hc Hr. destruct f; [exact (remembers_le n (S n) t fw _ ltac:(lia) Hr)..|by apply Hc]. Qed.

(** The operations on an entry of another key *)
Lemma recent_entry_write {K V} `{EqDecision K} n k v t now k' upd (c : LruCache M K V) e c' : k' ≠ k → S n < lru_capacity c →
  lru_entry now k' upd c = (e, c') → lru_recent n k v t c →
  lru_recent (S n) k v t c' ∧
  match e with
  | Occupied e => (∀ v', lru_recent (S n) k v t (occupied_set e v' c')) ∧ lru_recent (S n) k v t (occupied_remove e c') ∧
      ∀ v', lru_recent (S n) k v t (occupied_remove e (occupied_set e v' c'))
  | Vacant e => ∀ v', lru_recent (S n) k v t (vacant_insert now e v' c')
  end.
Proof.
  intros Hne Hn E Hr. pose proof (recent_entry _ _ _ _ _ _ _ _ _ _ Hne E Hr) as Hr'.
  destruct (lru_entry_key _ _ _ _ _ _ E) as (_ & Hcap & He). destruct e as [e|e]; subst e.
  - split_and!; [done|intros v'; by apply recent_occupied_set|by apply recent_occupied_remove|].
    intros v'. by apply recent_occupied_remove, recent_occupied_set.
  - split; [by eapply recent_le; [|done]; lia|]. intros v'. apply recent_vacant_insert; [done|lia|done].
Qed.

Lemma recent_get_remove {K V} `{EqDecision K} n k v t now k' (c : LruCache M K V) v' c' : k' ≠ k → (t <= now <= t + lru_ttl c)%Z →
  lru_get now k' c = (v', c') → lru_recent n k v t c →
  lru_recent (S n) k v t c' ∧ lru_recent (S n) k v t (lru_remove k' c').2.
Proof.
  intros Hne Ht E Hr. pose proof (recent_get n k v t now k' c Ht Hr) as Hr'. rewrite E in Hr'.
  split; [done|by apply recent_remove].
Qed.

Context (n : nat) (Hn : S n < cap).

(** A tactic for the caches of a handler that works on an entry of another key *)
Ltac kept_by_entry Hne E :=
  let key := fresh "key" in let info := fresh "info" in let Hr := fresh "Hr" in let He := fresh "He" in
  intros key info -> Hr;
  unshelve epose proof (recent_entry_write _ _ _ _ _ _ _ _ _ _ _ _ E Hr) as He;
  [intros <-; by apply Hne|lia|destruct He as [? He]; first [done|apply He]].

Lemma outbound_udp_keeps {P} `{IpPacket P} now t h peer (ip : P) fw f : fw_inv cap ttl now h fw →
  (∀ link pkt, build_conn_info ip false = Some (link, pkt) → f ≠ UdpFlow (mkConnection link peer)) →
  remembers n t fw f → remembers (S n) t (handle_outbound_udp now peer ip fw) f.
Proof.
  intros [[_ _ Hcap _] _ _] Hf Hr. unfold handle_outbound_udp.
  destruct (build_conn_info ip false) as [[link pkt]|]; [|by apply (remembers_same n t fw)].
  specialize (Hf link pkt eq_refl). destruct (ip_packet ip); [by apply (remembers_same n t fw)|].
  destruct (lru_entry now _ true (udp fw)) as [[e|e] c] eqn:E; [destruct (occupied_get e c)|];
    (apply remembers_set_udp; [|done]); kept_by_entry Hf E.
Qed.
Lemma outbound_tcp_keeps {P} `{IpPacket P} now t h peer (ip : P) fw f : fw_inv cap ttl now h fw →
  (∀ link pkt, build_conn_info ip false = Some (link, pkt) → f ≠ TcpFlow (mkConnection link peer)) →
  remembers n t fw f → remembers (S n) t (handle_outbound_tcp now peer ip fw) f.
Proof.
  intros [_ [_ _ Hcap _] _] Hf Hr. unfold handle_outbound_tcp.
  destruct (build_conn_info ip false) as [[link pkt]|]; [|by apply (remembers_same n t fw)].
  specialize (Hf link pkt eq_refl). cbv zeta. destruct (flags_match _ TCP_FIRST_PKT_MASK _).
  { apply remembers_set_tcp; [|done]. intros key info -> ?. apply recent_insert; [|lia|done]. intros <-. by apply Hf. }
  destruct (flags_match _ TcpFlags.RST _).
  { apply remembers_set_tcp; [|done]. intros key info -> Hk. apply (recent_le n); [lia|].
    apply recent_remove; [|done]. intros <-. by apply Hf. }
  destruct (flags_match _ TcpFlags.FIN _); [|by apply (remembers_same n t fw)].
  destruct (lru_entry now _ false (tcp fw)) as [[e|e] c] eqn:E; [destruct (occupied_get e c)|];
    (apply remembers_set_tcp; [|done]); kept_by_entry Hf E.
Qed.

Lemma outbound_icmp_keeps {P} `{IpPacket P} now t h peer (ip : P) fw f : fw_inv cap ttl now h fw →
  icmp_key_flow peer (build_icmp_key peer ip false) ≠ Some f →
  remembers n t fw f → remembers (S n) t (handle_outbound_icmp now peer ip fw) f.
Proof.
  intros [_ _ [_ _ Hcap _]] Hf Hr. unfold handle_outbound_icmp.
  destruct (build_icmp_key peer ip false) as [key|]; [|by apply (remembers_same n t fw)].
  simpl in Hf. destruct (lru_entry now key true (icmp fw)) as [[e|e] c] eqn:E;
    (apply remembers_set_icmp; [|done]); intros key' -> Hk;
    (unshelve epose proof (recent_entry_write _ _ _ _ _ _ _ _ _ _ _ _ E Hk) as [? He];
     [intros <-; by apply Hf|lia|done]).
Qed.

Lemma inbound_udp_keeps {P} `{IpPacket P} now t h pol peer (ip : P) fw f : fw_inv cap ttl now h fw →
  (∀ link pkt, build_conn_info ip true = Some (link, pkt) → f ≠ UdpFlow (mkConnection link peer)) →
  remembers n t fw f → remembers (S n) t (handle_inbound_udp now pol peer ip fw).2 f.
Proof.
  intros [[_ _ Hcap _] _ _] Hf Hr. unfold handle_inbound_udp.
  destruct (build_conn_info ip true) as [[link pkt]|]; [|by apply (remembers_same n t fw)].
  specialize (Hf link pkt eq_refl).
  destruct (lru_entry now _ true (udp fw)) as [[e|e] c] eqn:E; repeat case_match; simpl;
    (apply remembers_set_udp; [|done]); kept_by_entry Hf E.
Qed.

Lemma inbound_tcp_keeps {P} `{IpPacket P} now t h pol peer (ip : P) fw f : fw_inv cap ttl now h fw →
  (∀ link pkt, build_conn_info ip true = Some (link, pkt) → f ≠ TcpFlow (mkConnection link peer)) →
  remembers n t fw f → remembers (S n) t (handle_inbound_tcp now pol peer ip fw).2 f.
Proof.
  intros [_ [_ _ Hcap _] _] Hf Hr. unfold handle_inbound_tcp.
  destruct (build_conn_info ip true) as [[link pkt]|]; [|by apply (remembers_same n t fw)].
  specialize (Hf link pkt eq_refl).
  destruct (lru_entry now _ false (tcp fw)) as [[e|e] c] eqn:E; repeat case_match; simpl;
    (apply remembers_set_tcp; [|done]); kept_by_entry Hf E.
Qed.

(** The lookup and removal of an entry of another key *)
Ltac kept_by_get Hne E :=
  match goal with
  | |- context [set_udp] => apply remembers_set_udp
  | |- context [set_tcp] => apply remembers_set_tcp
  | |- context [set_icmp] => apply remembers_set_icmp
  end; [|done];
  intros; subst;
  match goal with Hk : lru_recent _ _ _ _ _ |- _ =>
    unshelve epose proof (recent_get_remove _ _ _ _ _ _ _ _ _ _ _ E Hk) as [? ?];
      [intros <-; by apply Hne|lia|done] end.

Lemma icmp_error_keeps now t h peer key fw f : fw_inv cap ttl now h fw → (t <= now <= t + ttl)%Z →
  icmp_key_flow peer (Err key) ≠ Some f →
  remembers n t fw f → remembers (S n) t (handle_icmp_error now peer key fw).2 f.
Proof.
  intros [[_ Hu _ _] [_ Ht _ _] [_ Hi _ _]] Hnow Hf Hr. unfold handle_icmp_error.
  destruct key as [[link|]|[link|]|[key|]|]; simpl in Hf; try by apply (remembers_same n t fw).
  - destruct (lru_get now _ (udp fw)) as [v c] eqn:E. destruct v; cbn [snd]; kept_by_get Hf E.
  - destruct (lru_get now _ (tcp fw)) as [v c] eqn:E. destruct v; cbn [snd]; kept_by_get Hf E.
  - destruct (lru_get now key (icmp fw)) as [v c] eqn:E. destruct v; cbn [snd]; kept_by_get Hf E.
Qed.

Lemma inbound_icmp_keeps {P} `{IpPacket P} now t h peer (ip : P) fw f : fw_inv cap ttl now h fw →
  (t <= now <= t + ttl)%Z → icmp_key_flow peer (build_icmp_key peer ip true) ≠ Some f →
  remembers n t fw f → remembers (S n) t (handle_inbound_icmp now peer ip fw).2 f.
Proof.
  intros Hinv Hnow Hf Hr. unfold handle_inbound_icmp.
  destruct (icmp_new (ip_payload ip)); [|by apply (remembers_same n t fw)].
  do 2 (case_match; [by apply (remembers_same n t fw)|]).
  destruct (build_icmp_key peer ip true) as [key|key]; [|by eapply icmp_error_keeps].
  pose proof (ok_ttl _ _ _ _ _ (inv_icmp _ _ _ _ _ Hinv)). simpl in Hf.
  destruct (lru_get now key (icmp fw)) as [v c] eqn:E. destruct v; cbn [snd]; kept_by_get Hf E.
Qed.
(** Whatever a handler looks up belongs to a flow of the packet. *)
Lemma flows_of {P} `{IpPacket P} inbound pk buf (ip : P) : reads_as buf ip →
  flows inbound pk buf =
  match conn_of inbound pk ip with
  | Some (proto, key, _) =>
      if (proto =? IpNextHeaderProtocols.Udp)%Z then [UdpFlow key]
      else if (proto =? IpNextHeaderProtocols.Tcp)%Z then [TcpFlow key] else []
  | None => []
  end ++ option_list (icmp_of inbound pk ip ≫= icmp_key_flow (mkPublicKey pk)).
Proof. intros (Hconn & Hicmp & _). unfold flows. by rewrite Hconn, Hicmp. Qed.

Lemma not_in_flows {P} `{IpPacket P} inbound pk buf (ip : P) f : reads_as buf ip → f ∉ flows inbound pk buf →
  let proto := ip_get_next_level_protocol ip in
  (proto = IpNextHeaderProtocols.Udp → ∀ link pkt, build_conn_info ip inbound = Some (link, pkt) →
     f ≠ UdpFlow (mkConnection link (mkPublicKey pk))) ∧
  (proto = IpNextHeaderProtocols.Tcp → ∀ link pkt, build_conn_info ip inbound = Some (link, pkt) →
     f ≠ TcpFlow (mkConnection link (mkPublicKey pk))) ∧
  (proto = IpNextHeaderProtocols.Icmp ∨ proto = IpNextHeaderProtocols.Icmpv6 →
     icmp_key_flow (mkPublicKey pk) (build_icmp_key (mkPublicKey pk) ip inbound) ≠ Some f).
Proof.
  intros Hr Hf proto. rewrite (flows_of inbound pk buf ip Hr), not_elem_of_app in Hf. destruct Hf as [Hc Hi].
  unfold conn_of, icmp_of in *. fold proto in Hc, Hi. split_and!.
  - intros Hp link pkt E. rewrite E, Hp in Hc. simpl in Hc. set_solver.
  - intros Hp link pkt E. rewrite E, Hp in Hc. simpl in Hc. set_solver.
  - intros Hp E. contradict Hi. destruct Hp as [-> | ->]; simpl; rewrite E; set_solver.
Qed.

Lemma process_outbound_ip_keeps {P} `{IpPacket P} now t h pk buf (ip : P) fw f :
  ip_try_from buf = Some ip → reads_as buf ip → fw_inv cap ttl now h fw → f ∉ flows false pk buf →
  remembers n t fw f → remembers (S n) t (process_outbound_ip_packet P now pk buf fw).2 f.
Proof.
  intros Hip Hreads Hinv Hf Hr. pose proof (not_in_flows false pk buf ip f Hreads Hf) as (Hu & Ht & Hi).
  assert (remembers (S n) t fw f) as Hsame by by apply (remembers_le n); [lia|].
  unfold process_outbound_ip_packet. rewrite Hip.
  repeat (case_match; rewrite ?Z.eqb_eq in *; cbn [snd]); try done;
    (eapply outbound_udp_keeps || eapply outbound_tcp_keeps || eapply outbound_icmp_keeps); eauto 3.
Qed.

Lemma process_inbound_ip_keeps {P} `{IpPacket P} now t h la pk buf (ip : P) fw f :
  ip_try_from buf = Some ip → reads_as buf ip → fw_inv cap ttl now h fw → (t <= now <= t + ttl)%Z →
  f ∉ flows true pk buf →
  remembers n t fw f → remembers (S n) t (process_inbound_ip_packet P now la pk buf fw).2 f.
Proof.
  intros Hip Hreads Hinv Hnow Hf Hr. pose proof (not_in_flows true pk buf ip f Hreads Hf) as (Hu & Ht & Hi).
  assert (remembers (S n) t fw f) as Hsame by by apply (remembers_le n); [lia|].
  unfold process_inbound_ip_packet. rewrite Hip.
  repeat (case_match; rewrite ?andb_true_iff, ?Z.eqb_eq in *; cbn [snd]); try done;
    (eapply inbound_udp_keeps || eapply inbound_tcp_keeps || eapply inbound_icmp_keeps); eauto 3; naive_solver.
Qed.

Lemma process_outbound_keeps now t h pk buf fw f : fw_inv cap ttl now h fw → f ∉ flows false pk buf →
  remembers n t fw f → remembers (S n) t (process_outbound_packet now pk buf fw).2 f.
Proof.
  intros Hinv Hf Hr. assert (remembers (S n) t fw f) as Hsame by by apply (remembers_le n); [lia|].
  unfold process_outbound_packet. destruct buf as [|b buf]; [done|]. destruct (Z.shiftr b 4 =? 4)%Z eqn:Hv.
  - destruct (ipv4_new (b :: buf)) as [ip|] eqn:Hip.
    + eapply (process_outbound_ip_keeps (P:=Ipv4Packet)); [done|by apply reads_as_v4|done..].
    + unfold process_outbound_ip_packet. simpl. by rewrite Hip.
  - destruct (Z.shiftr b 4 =? 6)%Z eqn:Hv'; [|done]. destruct (allow_ipv6 fw); [|done]. cbn [andb].
    destruct (ipv6_new (b :: buf)) as [ip|] eqn:Hip.
    + eapply (process_outbound_ip_keeps (P:=Ipv6Packet)); [done|by apply reads_as_v6|done..].
    + unfold process_outbound_ip_packet. simpl. by rewrite Hip.
Qed.

Lemma process_inbound_keeps now t h la pk buf fw f : fw_inv cap ttl now h fw → (t <= now <= t + ttl)%Z →
  f ∉ flows true pk buf → remembers n t fw f → remembers (S n) t (process_inbound_packet now la pk buf fw).2 f.
Proof.
  intros Hinv Hnow Hf Hr. assert (remembers (S n) t fw f) as Hsame by by apply (remembers_le n); [lia|].
  unfold process_inbound_packet. destruct buf as [|b buf]; [done|]. destruct (Z.shiftr b 4 =? 4)%Z eqn:Hv.
  - destruct (ipv4_new (b :: buf)) as [ip|] eqn:Hip.
    + eapply (process_inbound_ip_keeps (P:=Ipv4Packet)); [done|by apply reads_as_v4|done..].
    + unfold process_inbound_ip_packet. simpl. by rewrite Hip.
  - destruct (Z.shiftr b 4 =? 6)%Z eqn:Hv'; [|done]. destruct (allow_ipv6 fw); [|done]. cbn [andb].
    destruct (ipv6_new (b :: buf)) as [ip|] eqn:Hip.
    + eapply (process_inbound_ip_keeps (P:=Ipv6Packet)); [done|by apply reads_as_v6|done..].
    + unfold process_inbound_ip_packet. simpl. by rewrite Hip.
Qed.

Lemma fw_exec_keeps now t h op fw f : fw_inv cap ttl now h fw → (t <= now <= t + ttl)%Z →
  f ∉ op_flows op → remembers n t fw f → remembers (S n) t (fw_exec now op fw) f.
Proof.
  intros Hinv Hnow Hf Hr. pose proof Hinv as [[_ Hu _ _] [_ Ht _ _] _].
  assert (remembers (S n) t fw f) as Hsame by by apply (remembers_le n); [lia|].
  destruct op; simpl; try by apply (remembers_same n t fw).
  - by eapply process_outbound_keeps.
  - by eapply process_inbound_keeps.
  - apply remembers_set_tcp; [|done]. intros key info -> Hk. apply (recent_le n); [lia|].
    destruct debug; [apply recent_len; [lia|]|]; done.
  - apply remembers_set_udp; [|done]. intros key info -> Hk. apply (recent_le n); [lia|].
    destruct debug; [apply recent_len; [lia|]|]; done.
Qed.
End survival.

Lemma in_order_le now ops now' : in_order now ops now' → (now <= now')%Z.
Proof.
  revert now. induction ops as [|[t op] ops IH]; intros now; simpl; [done|].
  intros [? ?%IH]. lia.
Qed.

(** A flow that is remembered outlives fewer than [cap] operations about others. *)
Lemma fw_run_keeps `{Pnet} `{Ipnet} {M : Type → Type → Type} `{LinkedHashMapLaws M} (cap : nat) (ttl : Duration)
    n t h now ops now' (fw : StatefullFirewall M) f :
  fw_inv cap ttl now h fw → (t <= now)%Z → in_order now ops now' → (now' <= t + ttl)%Z →
  n + length ops < cap → Forall (λ op, f ∉ op_flows op.2) ops → remembers n t fw f →
  ∃ h', fw_inv cap ttl now' h' (fw_run ops fw) ∧ remembers (n + length ops) t (fw_run ops fw) f.
Proof.
  revert n h now fw. induction ops as [|[t1 op] ops IH]; intros n h now fw Hinv Ht Hord Hnow' Hn Hops Hr; simpl in *.
  { exists h. split; [by eapply inv_later|]. eapply remembers_le; [|done]. lia. }
  destruct Hord as [Hle Hord]. apply Forall_cons in Hops as [Hop Hops].
  pose proof (in_order_le _ _ _ Hord). assert (fw_inv cap ttl t1 h fw) as Hinv' by by eapply inv_later.
  replace (n + S (length ops)) with (S n + length ops) by lia.
  eapply IH; [by apply fw_exec_inv|lia|done|lia|lia|done|].
  apply (fw_exec_keeps cap ttl n ltac:(lia) t1 t h); [done|lia|done|done].
Qed.

(** ** The guarantees *)

Section guarantees.
Context `{Pnet} `{Ipnet} {M : Type → Type → Type} `{LinkedHashMapLaws M}.
Context (cap : nat) (ttl : Duration) (use_ipv6 : bool) (feature : FeatureFirewall).
Implicit Types (fw : StatefullFirewall M) (now : Instant) (h : list traffic).

(** C1: an inbound packet passes only for a reason.  Either it is permitted: it
    comes from the VPN peer, is for a private network the peer may reach or
    for another destination it may route to, or is for this node and its peer
    or its port is whitelisted.  Or it is solicited: its UDP connection was
    opened from here and was never silent for longer than the time to live, its
    TCP connection had a SYN from here no longer ago than that, it is the reply of
    an ICMP request from here no older than that, or it is an ICMP error about a
    flow that is being tracked. *)
Theorem inbound_packets_are_authorised now h la pk buf fw :
  fw_reach cap ttl use_ipv6 feature now h fw →
  (process_inbound_packet now la pk buf fw).1 = true → authorised ttl now h fw la pk buf.
Proof. intros Hr%fw_reach_inv. by apply (process_inbound_authorised cap). Qed.

(** C40: the conntrack invariant of every reachable firewall: the three caches
    respect their capacity, a remembered packet head fits the reset buffer,
    and a remembered TCP sequence number is a [u32]. *)
Theorem conntrack_bounds now h fw :
  fw_reach cap ttl use_ipv6 feature now h fw →
  length (lru_iter (udp fw)) ≤ cap ∧ length (lru_iter (tcp fw)) ≤ cap ∧
  length (lru_iter (icmp fw)) ≤ cap ∧
  Forall (λ kv, ∀ chunk, last_out_pkg_chunk kv.2 = Some chunk →
                         length chunk ≤ LAST_PKG_MAX_CHUNK_LEN) (lru_iter (udp fw)) ∧
  Forall (λ kv, ∀ seq, next_seq kv.2 = Some seq → is_uint 32 seq) (lru_iter (tcp fw)).
Proof.
  intros [[Hu _ <- Hua] [Ht _ Htc Hta] [Hi _ Hic _]]%fw_reach_inv. unfold lru_iter.
  rewrite !length_fmap, !Forall_fmap. split_and!.
  - apply Hu.
  - rewrite <-Htc. apply Ht.
  - rewrite <-Hic. apply Hi.
  - eapply Forall_impl; [exact Hua|]. by intros [k tv] [_ Hc].
  - eapply Forall_impl; [exact Hta|]. by intros [k tv] [_ Hc].
Qed.

Lemma process_outbound_verdict {P} `{IpPacket P} now pk buf (ip : P) fw :
  ip_try_from buf = Some ip →
  (process_outbound_ip_packet P now pk buf fw).1 =
    is_peer_whitelisted (whitelist fw) (mkPublicKey pk) IncomingConnections || ip_check_valid ip.
Proof.
  intros Hip. unfold process_outbound_ip_packet. rewrite Hip.
  destruct (is_peer_whitelisted _ _ _); [by repeat case_match|].
  destruct (ip_check_valid ip); [|done]. cbn [negb orb]. by repeat case_match.
Qed.

(** The verdict on outbound packets: what parses and is valid, or goes to a
    whitelisted peer, is sent. *)
Definition outbound_allowed fw (pk buf : bytes) : bool :=
  match with_version (λ _, Some true) (λ _, Some (allow_ipv6 fw)) buf with
  | Some true =>
      bool_decide (mkPublicKey pk ∈ get_peer_whitelist IncomingConnections fw) || buffer_valid buf
  | _ => false
  end.

(** The firewall never blocks a well-formed outbound packet: the verdict
    is false exactly when the buffer is no packet of an enabled IP version,
    or is malformed and its peer is not whitelisted.  It does not depend on
    the connections tracked. *)
Theorem outbound_verdict now pk buf fw :
  (process_outbound_packet now pk buf fw).1 = outbound_allowed fw pk buf.
Proof.
  unfold process_outbound_packet, outbound_allowed, with_version.
  destruct buf as [|b buf]; [done|]. destruct (Z.shiftr b 4 =? 4)%Z eqn:Hv.
  - destruct (ipv4_new (b :: buf)) as [ip|] eqn:Hip; simpl.
    + rewrite (process_outbound_verdict (P:=Ipv4Packet) now pk _ ip) by done.
      destruct (reads_as_v4 b buf ip Hv Hip) as (_ & _ & _ & ->). done.
    + unfold process_outbound_ip_packet. simpl. by rewrite Hip.
  - destruct (Z.shiftr b 4 =? 6)%Z eqn:Hv'; [|done]. simpl.
    destruct (ipv6_new (b :: buf)) as [ip|] eqn:Hip; simpl.
    + destruct (allow_ipv6 fw); [|done].
      rewrite (process_outbound_verdict (P:=Ipv6Packet) now pk _ ip) by done.
      destruct (reads_as_v6 b buf ip Hv Hv' Hip) as (_ & _ & _ & ->). done.
    + destruct (allow_ipv6 fw); [|done]. unfold process_outbound_ip_packet. simpl. by rewrite Hip.
Qed.
End guarantees.

Section pinhole_guarantee.
Context `{PnetLaws} `{Ipnet} {M : Type → Type → Type} `{LinkedHashMapLaws M}.
Context (cap : nat) (ttl : Duration) (use_ipv6 : bool) (feature : FeatureFirewall).
Implicit Types (fw : StatefullFirewall M) (now : Instant) (h : list traffic).

(** IPv6 and ICMPv6 need [allow_ipv6]. *)
Definition family_enabled fw (buf : bytes) : bool :=
  match with_version (λ p, Some (negb (ip_get_next_level_protocol p =? IpNextHeaderProtocols.Icmpv6)%Z))
                     (λ _, Some false) buf with
  | Some true => true
  | _ => allow_ipv6 fw
  end.

Lemma process_inbound_pinhole now la pk buf' dst fw :
  lru_wf now (icmp fw) → tracked fw now pk buf' → family_enabled fw buf' = true →
  buffer_valid buf' = true → buffer_dest buf' = Some dst →
  decide_packet_handling la fw (mkPublicKey pk) dst = HandleLocally →
  (process_inbound_packet now la pk buf' fw).1 = true.
Proof.
  intros Hwf Htr Hfam Hval Hdst Hdec. destruct buf' as [|b buf']; [done|].
  unfold process_inbound_packet. unfold family_enabled, with_version in Hfam.
  destruct (Z.shiftr b 4 =? 4)%Z eqn:Hv.
  - destruct (ipv4_new (b :: buf')) as [ip|] eqn:Hip.
    2:{ unfold buffer_dest, with_version in Hdst. by rewrite Hv, Hip in Hdst. }
    pose proof (reads_as_v4 b buf' ip Hv Hip) as Hr. pose proof Hr as (_ & _ & Hd & Hc).
    rewrite Hc in Hval. rewrite Hd in Hdst. injection Hdst as <-.
    apply (inbound_accepts_tracked (P:=Ipv4Packet) now la pk _ ip); try done; [by left|].
    intros Hp. simpl in Hp, Hfam. by rewrite Hp in Hfam.
  - destruct (Z.shiftr b 4 =? 6)%Z eqn:Hv'.
    2:{ unfold buffer_dest, with_version in Hdst. by rewrite Hv, Hv' in Hdst. }
    destruct (ipv6_new (b :: buf')) as [ip|] eqn:Hip.
    2:{ unfold buffer_dest, with_version in Hdst. by rewrite Hv, Hv', Hip in Hdst. }
    pose proof (reads_as_v6 b buf' ip Hv Hv' Hip) as Hr. pose proof Hr as (_ & _ & Hd & Hc).
    rewrite Hc in Hval. rewrite Hd in Hdst. injection Hdst as <-. simpl in Hfam. rewrite Hfam. simpl.
    apply (inbound_accepts_tracked (P:=Ipv6Packet) now la pk _ ip); try done. by right.
Qed.

Lemma process_outbound_remembers h now pk buf f fw :
  fw_inv cap ttl now h fw → 0 < cap → opens fw now pk buf f →
  mkPublicKey pk ∉ get_peer_whitelist IncomingConnections fw →
  (process_outbound_packet now pk buf fw).1 = true →
  remembers 0 now (process_outbound_packet now pk buf fw).2 f.
Proof.
  intros Hinv Hcap Hop Hw. assert (is_peer_whitelisted (whitelist fw) (mkPublicKey pk)
    IncomingConnections = false) as Hw' by by apply bool_decide_eq_false.
  unfold process_outbound_packet. destruct buf as [|b buf]; [done|].
  destruct (Z.shiftr b 4 =? 4)%Z eqn:Hv.
  - destruct (ipv4_new (b :: buf)) as [ip|] eqn:Hip.
    + eapply outbound_remembers; try done; [by apply reads_as_v4|]. simpl.
      by erewrite ipv4_packet_new by done.
    + unfold process_outbound_ip_packet. simpl. by rewrite Hip.
  - destruct (Z.shiftr b 4 =? 6)%Z eqn:Hv'; [|done]. destruct (allow_ipv6 fw); [|done]. cbn [andb].
    destruct (ipv6_new (b :: buf)) as [ip|] eqn:Hip.
    + eapply outbound_remembers; try done; [by apply reads_as_v6|]. simpl.
      by erewrite ipv6_packet_new by done.
    + unfold process_outbound_ip_packet. simpl. by rewrite Hip.
Qed.

(** C2: a packet the firewall let out to a peer that is not whitelisted (a UDP
    packet of a connection the peer has not opened, a TCP SYN, or an ICMP
    request) leaves a pinhole.  A packet of the same flow from that peer (the
    same UDP or TCP connection, or the ICMP reply of the request) passes within
    the time to live, when it is valid, of an enabled family and addressed to
    this node, whatever the firewall did in between, as long as that is fewer
    operations than the capacity of a cache and no packet of that flow. *)
Theorem pinhole_admits_reply now now' h ops la pk buf buf' f dst fw :
  fw_reach cap ttl use_ipv6 feature now h fw →
  mkPublicKey pk ∉ get_peer_whitelist IncomingConnections fw →
  opens fw now pk buf f → answers pk buf' f →
  in_order now ops now' → (now' <= now + ttl)%Z → length ops < cap →
  Forall (λ op, f ∉ op_flows op.2) ops →
  let '(sent, fw') := process_outbound_packet now pk buf fw in
  sent = true →
  let fw'' := fw_run ops fw' in
  family_enabled fw'' buf' = true → buffer_valid buf' = true → buffer_dest buf' = Some dst →
  decide_packet_handling la fw'' (mkPublicKey pk) dst = HandleLocally →
  (process_inbound_packet now' la pk buf' fw'').1 = true.
Proof.
  intros Hr%fw_reach_inv Hw Hop Hans Hord Hnow' Hcap Hops.
  pose proof (fw_exec_inv cap ttl now h (OutboundPacket pk buf) fw Hr) as Hinv.
  pose proof (process_outbound_remembers h now pk buf f fw Hr ltac:(lia) Hop Hw) as Hrem.
  simpl in Hinv. destruct (process_outbound_packet now pk buf fw) as [sent fw'].
  intros ->. destruct (fw_run_keeps cap ttl 0 now _ now ops now' fw' f Hinv ltac:(lia) Hord Hnow' Hcap Hops
    (Hrem eq_refl)) as (h' & Hinv' & Hrem'). intros fw'' Hfam Hval Hdst Hdec.
  eapply process_inbound_pinhole; try done; [apply Hinv'|]. by eapply remembers_tracked.
Qed.
End pinhole_guarantee.

(** ** ICMP replies are consumed *)

Section icmp_once.
Context `{Pnet} `{Ipnet} {M : Type → Type → Type} `{LinkedHashMapLaws M}.
Implicit Types (fw : StatefullFirewall M) (now : Instant).

Lemma lru_get_absent {K V} `{EqDecision K} now k (c : LruCache M K V) :
  assoc k (entries c) = None → (lru_get now k c).1 = None.
Proof.
  intros Hn. destruct (entries_get now k c) as [-> _]. simpl.
  rewrite (proj2 (assoc_None k _)); [done|]. apply assoc_None in Hn. contradict Hn.
  eapply sublist_elem_of; [|done]. apply fmap_sublist, drop_while_sublist.
Qed.

(** [get] and then [remove] when it was found leaves no entry for the key. *)
Lemma lru_take_absent {K V} `{EqDecision K} now k (c : LruCache M K V) v c' :
  lru_get now k c = (v, c') →
  assoc k (entries match v with Some _ => (lru_remove k c').2 | None => c' end) = None.
Proof.
  intros E. destruct v as [v|].
  - rewrite entries_remove. apply assoc_adel_eq.
  - destruct (entries_get now k c) as [E1 E2]. rewrite E in E1, E2. simpl in *.
    injection E1 as E1. rewrite E2. destruct (assoc k (drop_while _ _)) eqn:E3; [done|]. by rewrite E3.
Qed.

Lemma handle_inbound_icmp_consumes {P} `{IpPacket P} now peer (ip : P) key fw :
  build_icmp_key peer ip true = Ok key → family_blocked_types (icmp_blocked_types (P:=P)) →
  is_peer_whitelisted (whitelist fw) peer IncomingConnections = false →
  let '(v, fw') := handle_inbound_icmp now peer ip fw in
  whitelist fw' = whitelist fw ∧ assoc key (entries (icmp fw')) = None ∧
  (assoc key (entries (icmp fw)) = None → v = false).
Proof.
  intros Hk Hb Hw. unfold handle_inbound_icmp.
  destruct (reply_not_blocked peer ip key Hb Hk) as (p & -> & Hnb).
  rewrite Hw, bool_decide_eq_false_2, Hk by done.
  pose proof (lru_get_absent now key (icmp fw)) as Habs.
  destruct (lru_get now key (icmp fw)) as [v c] eqn:E. apply lru_take_absent in E.
  destruct v; simpl in *; split_and!; try done. intros Hn. by apply Habs in Hn.
Qed.

Lemma process_inbound_ip_config {P} `{IpPacket P} now la pk buf fw :
  same_config fw (process_inbound_ip_packet P now la pk buf fw).2.
Proof.
  unfold process_inbound_ip_packet, handle_inbound_udp, handle_inbound_tcp, handle_inbound_icmp,
    handle_icmp_error. repeat case_match; done.
Qed.

(** A packet with an ICMP reply's key, from a peer without privileges. *)
Lemma inbound_reply_consumed {P} `{IpPacket P} now la pk buf (ip : P) key fw :
  family_blocked_types (icmp_blocked_types (P:=P)) → ip_try_from buf = Some ip →
  icmp_of true pk ip = Some (Ok key) →
  decide_packet_handling la fw (mkPublicKey pk) (std_of_ip_addr (ip_get_destination ip)) ≠ PassThrough →
  vpn_peer (whitelist fw) ≠ Some (mkPublicKey pk) →
  is_peer_whitelisted (whitelist fw) (mkPublicKey pk) IncomingConnections = false →
  let '(v, fw') := process_inbound_ip_packet P now la pk buf fw in
  (v = true → assoc key (entries (icmp fw')) = None) ∧
  (assoc key (entries (icmp fw)) = None → v = false).
Proof.
  intros Hb Hip [Hp Hk]%icmp_of_proto Hpt Hvpn Hw. unfold process_inbound_ip_packet. rewrite Hip.
  rewrite bool_decide_eq_false_2 by done. destruct (negb (ip_check_valid ip)); [done|].
  pose proof (handle_inbound_icmp_consumes now _ ip key fw Hk Hb Hw) as Hc.
  destruct (handle_inbound_icmp now (mkPublicKey pk) ip fw) as [v fw'] eqn:E.
  destruct (decide_packet_handling la fw _ _); [done..|].
  destruct Hp as [Hp|Hp]; rewrite Hp; cbn; [naive_solver|]. destruct (allow_ipv6 fw); naive_solver.
Qed.

Lemma same_config_decide la fw fw' peer dst :
  same_config fw fw' → decide_packet_handling la fw' peer dst = decide_packet_handling la fw peer dst.
Proof.
  intros (Hw & _ & _ & Hi & He). unfold decide_packet_handling, is_private_address_except_local_interface.
  by rewrite Hw, Hi, He.
Qed.

Lemma inbound_reply_twice {P} `{IpPacket P} now now' la pk buf (ip : P) key fw :
  family_blocked_types (icmp_blocked_types (P:=P)) → ip_try_from buf = Some ip →
  icmp_of true pk ip = Some (Ok key) →
  decide_packet_handling la fw (mkPublicKey pk) (std_of_ip_addr (ip_get_destination ip)) ≠ PassThrough →
  vpn_peer (whitelist fw) ≠ Some (mkPublicKey pk) →
  is_peer_whitelisted (whitelist fw) (mkPublicKey pk) IncomingConnections = false →
  (process_inbound_ip_packet P now la pk buf fw).1 = true →
  (process_inbound_ip_packet P now' la pk buf (process_inbound_ip_packet P now la pk buf fw).2).1 = false.
Proof.
  intros Hb Hip Hk Hpt Hvpn Hw.
  pose proof (inbound_reply_consumed now la pk buf ip key fw Hb Hip Hk Hpt Hvpn Hw) as Hfst.
  pose proof (process_inbound_ip_config (P:=P) now la pk buf fw) as Hcfg.
  destruct (process_inbound_ip_packet P now la pk buf fw) as [v fw'] eqn:E1. simpl in *. intros ->.
  assert (decide_packet_handling la fw' (mkPublicKey pk) (std_of_ip_addr (ip_get_destination ip))
            ≠ PassThrough) as Hpt' by (by rewrite (same_config_decide la fw)).
  destruct Hcfg as (Hwl & _).
  pose proof (inbound_reply_consumed now' la pk buf ip key fw' Hb Hip Hk Hpt') as Hsnd.
  rewrite Hwl in Hsnd. specialize (Hsnd Hvpn Hw).
  destruct (process_inbound_ip_packet P now' la pk buf fw') as [v2 fw2]. simpl.
  destruct Hfst as [Hfst _], Hsnd as [_ Hsnd]. auto.
Qed.

(** An ICMP reply passes at most once: when one was accepted from a peer
    with no privileges, the same packet is dropped the next time, until
    another request opens the pinhole again. *)
Theorem icmp_reply_passes_once now now' la pk buf key dst fw :
  buffer_icmp true pk buf = Some (Ok key) → buffer_dest buf = Some dst →
  decide_packet_handling la fw (mkPublicKey pk) dst ≠ PassThrough →
  vpn_peer (whitelist fw) ≠ Some (mkPublicKey pk) →
  mkPublicKey pk ∉ get_peer_whitelist IncomingConnections fw →
  let '(v, fw') := process_inbound_packet now la pk buf fw in
  v = true → (process_inbound_packet now' la pk buf fw').1 = false.
Proof.
  intros Hk Hd Hpt Hvpn Hw. apply (bool_decide_eq_false_2 _) in Hw. destruct buf as [|b buf]; [done|].
  unfold process_inbound_packet. destruct (Z.shiftr b 4 =? 4)%Z eqn:Hv.
  - destruct (ipv4_new (b :: buf)) as [ip|] eqn:Hip.
    2:{ unfold buffer_dest, with_version in Hd. by rewrite Hv, Hip in Hd. }
    destruct (reads_as_v4 b buf ip Hv Hip) as (_ & Hi & Hd' & _).
    rewrite Hi in Hk. rewrite Hd' in Hd. injection Hd as <-.
    pose proof (inbound_reply_twice (P:=Ipv4Packet) now now' la pk (b :: buf) ip key fw) as H4.
    destruct (process_inbound_ip_packet Ipv4Packet now la pk (b :: buf) fw) as [v fw'].
    intros Hr. apply H4; try done. by left.
  - destruct (Z.shiftr b 4 =? 6)%Z eqn:Hv'; [|done].
    destruct (ipv6_new (b :: buf)) as [ip|] eqn:Hip.
    2:{ unfold buffer_dest, with_version in Hd. by rewrite Hv, Hv', Hip in Hd. }
    destruct (reads_as_v6 b buf ip Hv Hv' Hip) as (_ & Hi & Hd' & _).
    rewrite Hi in Hk. rewrite Hd' in Hd. injection Hd as <-.
    pose proof (inbound_reply_twice (P:=Ipv6Packet) now now' la pk (b :: buf) ip key fw) as H6.
    pose proof (process_inbound_ip_config (P:=Ipv6Packet) now la pk (b :: buf) fw) as (_ & Hcfg & _).
    destruct (allow_ipv6 fw) eqn:Ha; [|done]. cbn [andb].
    destruct (process_inbound_ip_packet Ipv6Packet now la pk (b :: buf) fw) as [v fw'].
    intros Hr. simpl in Hcfg. rewrite Hcfg. cbn [andb]. apply H6; try done. by right.
Qed.
End icmp_once.

(** ** Witnesses

    A node 100.64.0.2 that talks to 100.64.0.3, on packets laid out after the
    RFCs. *)

Module Samples.
#[local] Existing Instance RfcPnet.

(** Networks as address and prefix length. *)
#[local] Instance prefix_net : Ipnet := {|
  Ipv4Net := Z * Z;
  ipv4net_contains net a := (Z.shiftr net.1 (32 - net.2) =? Z.shiftr a (32 - net.2))%Z
|}.

Definition be (n : nat) (x : Z) : bytes :=
  (λ i, Z.land (Z.shiftr x (8 * Z.of_nat i)) 255) <$> rev (seq 0 n).

Definition ipv4 (proto src dst : Z) (payload : bytes) : bytes :=
  [0x45; 0]%Z ++ be 2 (20 + Z.of_nat (length payload)) ++ [0; 0; 0; 0; 64; proto; 0; 0]%Z
    ++ be 4 src ++ be 4 dst ++ payload.

Definition udp_msg (sport dport : Z) (payload : bytes) : bytes :=
  be 2 sport ++ be 2 dport ++ be 2 (8 + Z.of_nat (length payload)) ++ [0; 0]%Z ++ payload.

Definition tcp_msg (sport dport seq flags : Z) : bytes :=
  be 2 sport ++ be 2 dport ++ be 4 seq ++ be 4 0 ++ [0x50; flags]%Z ++ be 2 1024 ++ be 4 0.

Definition icmp_msg (ty ident : Z) : bytes := [ty; 0; 0; 0]%Z ++ be 4 ident.

Definition me : Z := ipv4_addr 100 64 0 2.
Definition them : Z := ipv4_addr 100 64 0 3.
Definition peer : bytes := replicate 32 7%Z.

Definition no_features : FeatureFirewall := mkFeatureFirewall _ false false None.

(** The firewall of the node, before any packet. *)
Definition fw0 : StatefullFirewall assoc_map :=
  fw_exec 0 (SetIpAddresses [V4 me]) (new_custom 3 1000 true no_features).

Lemma fw0_reach now : (0 <= now)%Z → fw_reach 3 1000 true no_features now [] fw0.
Proof.
  intros. apply (fw_reach_tick _ _ _ _ 0); [done|].
  apply (fw_reach_op _ _ _ _ 0 [] _ (SetIpAddresses [V4 me])), fw_reach_new.
Qed.

Definition udp_out : bytes := ipv4 17 me them (udp_msg 1000 2000 [1; 2; 3]%Z).
Definition udp_in : bytes := ipv4 17 them me (udp_msg 2000 1000 [4; 5]%Z).
Definition syn_out : bytes := ipv4 6 me them (tcp_msg 1000 80 55 TcpFlags.SYN).
Definition syn_ack_in : bytes :=
  ipv4 6 them me (tcp_msg 80 1000 4294967295 (Z.lor TcpFlags.SYN TcpFlags.ACK)).
Definition echo_out : bytes := ipv4 1 me them (icmp_msg IcmpTypes.EchoRequest 77).
Definition echo_in : bytes := ipv4 1 them me (icmp_msg IcmpTypes.EchoReply 77).

Definition fw1 : StatefullFirewall assoc_map := fw_exec 10 (OutboundPacket peer udp_out) fw0.
Definition fw2 : StatefullFirewall assoc_map := fw_exec 20 (OutboundPacket peer syn_out) fw1.
Definition fw3 : StatefullFirewall assoc_map := fw_exec 30 (InboundPacket [] peer syn_ack_in) fw2.

Definition seen2 : list traffic := [(false, 20%Z, peer, syn_out); (false, 10%Z, peer, udp_out)].
Definition seen3 : list traffic := (true, 30%Z, peer, syn_ack_in) :: seen2.

Lemma fw3_reach now : (30 <= now)%Z → fw_reach 3 1000 true no_features now seen3 fw3.
Proof.
  intros. apply (fw_reach_tick _ _ _ _ 30); [done|].
  apply (fw_reach_op _ _ _ _ 30 seen2 _ (InboundPacket [] peer syn_ack_in)).
  apply (fw_reach_tick _ _ _ _ 20); [done|].
  apply (fw_reach_op _ _ _ _ 20 [(false, 10%Z, peer, udp_out)] _ (OutboundPacket peer syn_out)).
  apply (fw_reach_tick _ _ _ _ 10); [done|].
  apply (fw_reach_op _ _ _ _ 10 [] _ (OutboundPacket peer udp_out)), fw0_reach. done.
Qed.

(** The TCP pinhole closes [ttl] after the SYN, whatever was exchanged since. *)
Example tcp_pinhole_not_refreshed :
  (process_inbound_packet 1020 [] peer syn_ack_in fw3).1 = true ∧
  (process_inbound_packet 1021 [] peer syn_ack_in
     (fw_exec 1020 (InboundPacket [] peer syn_ack_in) fw3)).1 = false.
Proof. split; vm_compute; reflexivity. Qed.

(** Inbound UDP traffic does keep its pinhole open. *)
Example udp_pinhole_refreshed :
  (process_inbound_packet 1011 [] peer udp_in fw3).1 = false ∧
  (process_inbound_packet 2009 [] peer udp_in
     (fw_exec 1010 (InboundPacket [] peer udp_in) fw3)).1 = true.
Proof. split; vm_compute; reflexivity. Qed.

Lemma inbound_packets_are_authorised_witness :
  (process_inbound_packet 40 [] peer udp_in fw3).1 = true ∧
  authorised 1000 40 seen3 fw3 [] peer udp_in.
Proof.
  split; [vm_compute; reflexivity|].
  apply (inbound_packets_are_authorised 3 1000 true no_features 40); [by apply fw3_reach|].
  vm_compute. reflexivity.
Defined.

(** What happens before the reply of [udp_out] arrives *)
Definition between : list (Instant * fw_op) :=
  [(20%Z, OutboundPacket peer syn_out); (30%Z, InboundPacket [] peer syn_ack_in)].

Lemma pinhole_admits_reply_witness :
  (process_inbound_packet 1010 [] peer udp_in
     (fw_run between (process_outbound_packet 10 peer udp_out fw0).2)).1 = true.
Proof.
  assert (∃ key pkt, buffer_conn false peer udp_out = Some (IpNextHeaderProtocols.Udp, key, pkt) ∧
    ∃ pkt', buffer_conn true peer udp_in = Some (IpNextHeaderProtocols.Udp, key, pkt') ∧
      bool_decide (Forall (λ op, UdpFlow key ∉ op_flows op.2) between) = true) as (key & pkt & Ho & pkt' & Hi & Hb)
    by (do 2 eexists; split; [vm_compute; reflexivity|]; eexists; split; vm_compute; reflexivity).
  pose proof (pinhole_admits_reply 3 1000 true no_features 10 1010 [] between [] peer udp_out udp_in (UdpFlow key)
    (V4 me) fw0 (fw0_reach 10 ltac:(done))) as Hp.
  destruct (process_outbound_packet 10 peer udp_out fw0) as [sent fw'] eqn:E.
  vm_compute in E. injection E as <- <-.
  apply Hp; [|eapply opens_udp; [done|]|by eapply answers_udp|simpl; lia|lia|simpl; lia| |vm_compute; reflexivity..].
  - apply (bool_decide_unpack _). vm_compute. reflexivity.
  - intros info Hinfo. vm_compute in Hinfo. discriminate.
  - by apply bool_decide_eq_true_1 in Hb.
Defined.

Lemma conntrack_bounds_witness :
  length (lru_iter (tcp fw3)) = 1 ∧ length (lru_iter (tcp fw3)) ≤ 3.
Proof.
  split; [vm_compute; reflexivity|].
  apply (conntrack_bounds 3 1000 true no_features 30 seen3 fw3). by apply fw3_reach.
Defined.

Lemma icmp_reply_passes_once_witness :
  let fw := fw_exec 40 (OutboundPacket peer echo_out) fw3 in
  (process_inbound_packet 50 [] peer echo_in fw).1 = true ∧
  (process_inbound_packet 60 [] peer echo_in (process_inbound_packet 50 [] peer echo_in fw).2).1 = false.
Proof.
  intros fw. split; [vm_compute; reflexivity|].
  assert (∃ key, buffer_icmp true peer echo_in = Some (Ok key)) as [key Hk]
    by (eexists; vm_compute; reflexivity).
  pose proof (icmp_reply_passes_once 50 60 [] peer echo_in key (V4 me) fw Hk) as Hp.
  assert ((process_inbound_packet 50 [] peer echo_in fw).1 = true) as Hv by (vm_compute; reflexivity).
  destruct (process_inbound_packet 50 [] peer echo_in fw) as [v fw'].
  apply Hp; [vm_compute; reflexivity|vm_compute; discriminate|vm_compute; discriminate| |done].
  apply (bool_decide_unpack _). vm_compute. reflexivity.
Defined.
End Samples.
