(* ===== verification/FirewallResetProps.v ===== *)
(** * [telio-firewall]: what a connection reset injects

    The specification of [reset_connections]: the packets a reset has to
    inject, each built from its own connection in fresh buffers, and the sink
    that takes them one after the other.  The theorem says that the code,
    which reuses its buffers from one connection to the next, writes exactly
    those packets. *)

From S2P Require Import Prelude LruCache NetTypes Firewall FirewallReset FirewallProps.

(** ** Specification *)

Section spec.
Context `{PnetMut} {S E : Type} `{Sink S E}.

(** Write packets until the sink fails. *)
Fixpoint write_packets (packets : list bytes) (sink : S) : result (reset_error E) S :=
  match packets with
  | [] => Ok sink
  | p :: packets => let? sink := sink_write p sink in write_packets packets sink
  end.

(** The RST the remote end of a connection would send. *)
Definition rst_packet (src dst sport dport seq : Z) : bytes :=
  let tcppkg :=
    tcp_set TcpSequence seq (tcp_set TcpDestination dport (tcp_set TcpSource sport tcp_reset_buf)) in
  let ipv4pkg :=
    ipv4_set Ipv4Checksum 0
      (ipv4_set Ipv4Destination dst
         (ipv4_set Ipv4Source src (ipv4_reset_buf 40 IpNextHeaderProtocols.Tcp))) in
  ipv4_set Ipv4Checksum (ipv4_checksum ipv4pkg) ipv4pkg
    ++ tcp_set TcpChecksum (tcp_ipv4_checksum tcppkg src dst) tcppkg.

(** One for each IPv4 connection of the peer whose sequence number is known. *)
Definition rst_of (pubkey : PublicKey) (kv : Connection * TcpConnectionInfo) : option bytes :=
  match decide (conn_pubkey kv.1 = pubkey), next_seq kv.2,
        conn_local_addr (link kv.1), conn_remote_addr (link kv.1) with
  | left _, Some seq, Ipv4 local_addr, Ipv4 remote_addr =>
      Some (rst_packet remote_addr local_addr (remote_port (link kv.1)) (local_port (link kv.1)) seq)
  | _, _, _, _ => None
  end.

(** "Port unreachable" from [endpoint], quoting the head of the lost packet. *)
Definition unreachable_packet (endpoint dst : Z) (last_headers : bytes) : bytes :=
  let icmphdr :=
    icmp_set IcmpChecksum 0
      (icmp_set IcmpCodeField DestinationPortUnreachable
         (icmp_set IcmpTypeField IcmpTypes.DestinationUnreachable (replicate 8 0%Z))) in
  let ipv4pkg :=
    ipv4_set Ipv4Checksum 0
      (ipv4_set Ipv4TotalLength (20 + 8 + Z.of_nat (length last_headers))
         (ipv4_set Ipv4Destination dst
            (ipv4_set Ipv4Source endpoint
               (ipv4_reset_buf (20 + 8 + Z.of_nat LAST_PKG_MAX_CHUNK_LEN)
                  IpNextHeaderProtocols.Icmp)))) in
  ipv4_set Ipv4Checksum (ipv4_checksum ipv4pkg) ipv4pkg
    ++ icmp_set IcmpChecksum (icmp_checksum (icmphdr ++ last_headers)) icmphdr ++ last_headers.

Definition unreachable_of (pubkey : PublicKey) (endpoint : Z)
    (kv : Connection * UdpConnectionInfo) : option bytes :=
  match decide (conn_pubkey kv.1 = pubkey), last_out_pkg_chunk kv.2,
        conn_local_addr (link kv.1), conn_remote_addr (link kv.1) with
  | left _, Some last_headers, Ipv4 local_addr, Ipv4 _ =>
      Some (unreachable_packet endpoint local_addr last_headers)
  | _, _, _, _ => None
  end.
End spec.

(** ** The reused buffers *)

Section buffers.
Context `{PnetMutLaws}.

(** [b] and [b0] differ at most in the fields every packet overwrites. *)
Definition tcp_agree (b0 b : bytes) : Prop :=
  ∀ s d q, tcp_set TcpChecksum 0 (tcp_set TcpSequence q (tcp_set TcpDestination d (tcp_set TcpSource s b))) =
           tcp_set TcpChecksum 0 (tcp_set TcpSequence q (tcp_set TcpDestination d (tcp_set TcpSource s b0))).

Definition ipv4_agree (b0 b : bytes) : Prop :=
  ∀ s d, ipv4_set Ipv4Checksum 0 (ipv4_set Ipv4Destination d (ipv4_set Ipv4Source s b)) =
         ipv4_set Ipv4Checksum 0 (ipv4_set Ipv4Destination d (ipv4_set Ipv4Source s b0)).

Lemma tcp_set_3 s d q s' d' q' b :
  tcp_set TcpSequence q (tcp_set TcpDestination d (tcp_set TcpSource s
    (tcp_set TcpSequence q' (tcp_set TcpDestination d' (tcp_set TcpSource s' b))))) =
  tcp_set TcpSequence q (tcp_set TcpDestination d (tcp_set TcpSource s b)).
Proof.
  rewrite (tcp_set_comm TcpSource TcpSequence), (tcp_set_comm TcpSource TcpDestination), tcp_set_set by done.
  rewrite (tcp_set_comm TcpDestination TcpSequence), tcp_set_set by done.
  by rewrite tcp_set_set.
Qed.

Lemma tcp_agree_fields b0 b s d q :
  tcp_agree b0 b →
  tcp_agree b0 (tcp_set TcpSequence q (tcp_set TcpDestination d (tcp_set TcpSource s b))).
Proof. intros Ha s' d' q'. by rewrite tcp_set_3. Qed.

Lemma tcp_agree_checksum b0 b k : tcp_agree b0 b → tcp_agree b0 (tcp_set TcpChecksum k b).
Proof.
  intros Ha s d q. rewrite (tcp_set_comm TcpSource TcpChecksum),
    (tcp_set_comm TcpDestination TcpChecksum), (tcp_set_comm TcpSequence TcpChecksum) by done.
  by rewrite tcp_set_set.
Qed.

(** The finished TCP header is the same whichever buffer it was written in. *)
Lemma tcp_agree_finish b0 b s d q src dst :
  tcp_agree b0 b →
  let hdr b := tcp_set TcpSequence q (tcp_set TcpDestination d (tcp_set TcpSource s b)) in
  tcp_set TcpChecksum (tcp_ipv4_checksum (hdr b) src dst) (hdr b) =
  tcp_set TcpChecksum (tcp_ipv4_checksum (hdr b0) src dst) (hdr b0).
Proof.
  intros Ha hdr. specialize (Ha s d q). fold (hdr b) in Ha. fold (hdr b0) in Ha.
  rewrite <-(tcp_checksum_skips_field 0 (hdr b)), <-(tcp_checksum_skips_field 0 (hdr b0)), Ha.
  set (k := tcp_ipv4_checksum _ _ _).
  by rewrite <-(tcp_set_set TcpChecksum k 0 (hdr b)), Ha, tcp_set_set.
Qed.

Lemma ipv4_agree_packet b0 b s d k :
  ipv4_agree b0 b →
  ipv4_agree b0 (ipv4_set Ipv4Checksum k (ipv4_set Ipv4Checksum 0
                   (ipv4_set Ipv4Destination d (ipv4_set Ipv4Source s b)))).
Proof.
  intros Ha s' d'. rewrite ipv4_set_set.
  rewrite (ipv4_set_comm Ipv4Source Ipv4Checksum), (ipv4_set_comm Ipv4Destination Ipv4Checksum),
    ipv4_set_set by done.
  rewrite (ipv4_set_comm Ipv4Source Ipv4Destination), ipv4_set_set, ipv4_set_set by done. apply Ha.
Qed.
End buffers.

Section udp_buffers.
Context `{PnetMutLaws}.

Definition udp_ipv4_agree (b0 b : bytes) : Prop :=
  ∀ d t, ipv4_set Ipv4Checksum 0 (ipv4_set Ipv4TotalLength t (ipv4_set Ipv4Destination d b)) =
         ipv4_set Ipv4Checksum 0 (ipv4_set Ipv4TotalLength t (ipv4_set Ipv4Destination d b0)).

Lemma udp_ipv4_agree_packet b0 b d t k :
  udp_ipv4_agree b0 b →
  udp_ipv4_agree b0 (ipv4_set Ipv4Checksum k (ipv4_set Ipv4Checksum 0
                       (ipv4_set Ipv4TotalLength t (ipv4_set Ipv4Destination d b)))).
Proof.
  intros Ha d' t'. rewrite ipv4_set_set.
  rewrite (ipv4_set_comm Ipv4Destination Ipv4Checksum), (ipv4_set_comm Ipv4TotalLength Ipv4Checksum),
    ipv4_set_set by done.
  rewrite (ipv4_set_comm Ipv4Destination Ipv4TotalLength), ipv4_set_set, ipv4_set_set by done. apply Ha.
Qed.

(** The three parts of the buffer of [reset_udp_conns], between packets. *)
Record udp_buffer (endpoint : Z) (buf hdr icmphdr data : bytes) : Prop := {
  ub_split : buf = hdr ++ icmphdr ++ data;
  ub_hdr : length hdr = 20;
  ub_icmp : length icmphdr = 8;
  ub_data : length data = LAST_PKG_MAX_CHUNK_LEN;
  ub_hdr_agree : udp_ipv4_agree
    (ipv4_set Ipv4Source endpoint
       (ipv4_reset_buf (20 + 8 + Z.of_nat LAST_PKG_MAX_CHUNK_LEN) IpNextHeaderProtocols.Icmp)) hdr;
  ub_icmp_agree :
    icmp_set IcmpChecksum 0 icmphdr =
    icmp_set IcmpChecksum 0
      (icmp_set IcmpCodeField DestinationPortUnreachable
         (icmp_set IcmpTypeField IcmpTypes.DestinationUnreachable (replicate 8 0%Z)))
}.

Lemma udp_buffer_init endpoint :
  ∃ hdr icmphdr data, udp_buffer endpoint (udp_reset_buf endpoint) hdr icmphdr data.
Proof.
  do 3 eexists. split; [reflexivity|..]; [| |by rewrite length_replicate|done|done].
  - unfold ipv4_reset_buf. by rewrite !length_ipv4_set, length_replicate.
  - by rewrite !length_icmp_set, length_replicate.
Qed.
End udp_buffers.

Section tcp_reset.
Context `{Ipnet} `{PnetMutLaws} {M : Type → Type → Type} `{LinkedHashMapLaws M} {S E : Type} `{Sink S E}.

Lemma reset_tcp_loop pubkey (l : list (Connection * TcpConnectionInfo)) ipv4pkg tcppkg (sink : S) :
  ipv4_agree (ipv4_reset_buf 40 IpNextHeaderProtocols.Tcp) ipv4pkg → tcp_agree tcp_reset_buf tcppkg →
  (let? '(_, _, sink) :=
     fold_result (λ kv st, reset_tcp_conn (link kv.1) kv.2 st)
       (filter (λ kv, conn_pubkey kv.1 = pubkey) l) (ipv4pkg, tcppkg, sink) in Ok sink) =
  write_packets (omap (rst_of pubkey) l) sink.
Proof.
  revert ipv4pkg tcppkg sink. induction l as [|[key val] l IH]; intros ipv4pkg tcppkg sink Hip Htcp;
    [done|]. rewrite filter_cons. csimpl. unfold rst_of at 1. csimpl.
  destruct (decide (conn_pubkey key = pubkey)); [|by apply IH]. csimpl.
  unfold reset_tcp_conn at 1. destruct (next_seq val) as [seq|]; [|by apply IH].
  set (hdr := tcp_set TcpSequence seq _).
  assert (tcp_agree tcp_reset_buf hdr) as Hhdr by by apply tcp_agree_fields.
  destruct (conn_local_addr (link key)) as [la|], (conn_remote_addr (link key)) as [ra|];
    try by apply IH.
  csimpl. unfold rst_packet. rewrite <-(tcp_agree_finish _ tcppkg) by done. fold hdr.
  rewrite <-(Hip ra la). destruct (sink_write _ sink) as [sink'|]; [|done].
  apply IH; [by apply ipv4_agree_packet|by apply tcp_agree_checksum].
Qed.
End tcp_reset.

Section udp_reset.
Context `{PnetMutLaws} {S E : Type} `{Sink S E}.

(** One connection: the packet of the specification, and a buffer in the same
    shape. *)
Lemma reset_udp_step endpoint key hs buf hdr icmphdr data (sink : S) :
  udp_buffer endpoint buf hdr icmphdr data → length hs ≤ LAST_PKG_MAX_CHUNK_LEN →
  ∃ buf' hdr' icmphdr' data', udp_buffer endpoint buf' hdr' icmphdr' data' ∧
    reset_udp_conn key hs (buf, sink) =
      match conn_local_addr key, conn_remote_addr key with
      | Ipv4 la, Ipv4 _ =>
          let? sink := sink_write (unreachable_packet endpoint la hs) sink in Ok (buf', sink)
      | _, _ => Ok (buf', sink)
      end.
Proof.
  intros [-> Hh Hi Hd Ha Hc] Hl.
  assert (take (20 + 8) (hdr ++ icmphdr ++ data) = hdr ++ icmphdr) as Htake.
  { rewrite app_assoc. apply take_app_length'. rewrite length_app. lia. }
  assert (drop (20 + 8 + length hs) (hdr ++ icmphdr ++ data) = drop (length hs) data) as Hdrop.
  { rewrite app_assoc, drop_app_ge by (rewrite length_app; lia).
    f_equal. rewrite length_app. lia. }
  assert (length (hs ++ drop (length hs) data) = LAST_PKG_MAX_CHUNK_LEN) as Hlen.
  { rewrite length_app, length_drop. lia. }
  assert (drop 20 ((hdr ++ icmphdr) ++ hs) = icmphdr ++ hs) as Hd20.
  { rewrite <-app_assoc, drop_app_length' by done. done. }
  assert (take 20 ((hdr ++ icmphdr) ++ hs) = hdr) as Ht20.
  { rewrite <-app_assoc, take_app_length' by done. done. }
  unfold reset_udp_conn. rewrite decide_True by (rewrite !length_app; lia).
  rewrite Htake, Hdrop, Hd20, Ht20.
  assert (udp_buffer endpoint ((hdr ++ icmphdr) ++ hs ++ drop (length hs) data)
            hdr icmphdr (hs ++ drop (length hs) data)) as Hb
    by (split; [by rewrite <-app_assoc|done..]).
  destruct (conn_local_addr key) as [la|], (conn_remote_addr key) as [ra|];
    try (do 4 eexists; split; [exact Hb|by rewrite <-app_assoc]).
  rewrite icmp_set_app by lia. rewrite icmp_set_app by (rewrite length_icmp_set; lia).
  unfold unreachable_packet. rewrite <-Hc, <-(Ha la).
  set (ip := ipv4_set Ipv4Checksum 0 _). set (ic := icmp_set IcmpChecksum 0 icmphdr).
  exists ((ipv4_set Ipv4Checksum (ipv4_checksum ip) ip
           ++ icmp_set IcmpChecksum (icmp_checksum (ic ++ hs)) ic ++ hs) ++ drop (length hs) data).
  exists (ipv4_set Ipv4Checksum (ipv4_checksum ip) ip),
    (icmp_set IcmpChecksum (icmp_checksum (ic ++ hs)) ic), (hs ++ drop (length hs) data).
  split; [|reflexivity]. split; [by rewrite <-!app_assoc| | |exact Hlen| |].
  - unfold ip. by rewrite !length_ipv4_set.
  - unfold ic. by rewrite !length_icmp_set.
  - by apply udp_ipv4_agree_packet.
  - unfold ic. by rewrite !icmp_set_set.
Qed.

Definition udp_candidate (pubkey : PublicKey) (kv : Connection * UdpConnectionInfo)
    : option (IpConnWithPort * bytes) :=
  match last_out_pkg_chunk kv.2 with
  | None => None
  | Some last_headers =>
      if decide (conn_pubkey kv.1 = pubkey) then Some (link kv.1, last_headers) else None
  end.

Lemma reset_udp_loop pubkey endpoint (l : list (Connection * UdpConnectionInfo)) buf hdr icmphdr data
    (sink : S) :
  udp_buffer endpoint buf hdr icmphdr data →
  Forall (λ kv, ∀ chunk, last_out_pkg_chunk kv.2 = Some chunk → length chunk ≤ LAST_PKG_MAX_CHUNK_LEN) l →
  (let? '(_, sink) :=
     fold_result (λ kv st, reset_udp_conn kv.1 kv.2 st) (omap (udp_candidate pubkey) l) (buf, sink) in
   Ok sink) =
  write_packets (omap (unreachable_of pubkey endpoint) l) sink.
Proof.
  revert buf hdr icmphdr data sink.
  induction l as [|[key info] l IH]; intros buf hdr icmphdr data sink Hb Hf; [done|].
  apply Forall_cons in Hf as [Hk Hf]. csimpl. unfold udp_candidate at 1, unreachable_of at 1. csimpl.
  simpl in Hk. destruct (last_out_pkg_chunk info) as [hs|]; [|by case_decide; eapply IH].
  destruct (decide (conn_pubkey key = pubkey)); [|by eapply IH]. cbn [fold_result fst snd].
  destruct (reset_udp_step endpoint (link key) hs buf hdr icmphdr data sink Hb (Hk hs eq_refl))
    as (buf' & hdr' & icmphdr' & data' & Hb' & ->).
  destruct (conn_local_addr (link key)) as [la|], (conn_remote_addr (link key)) as [ra|];
    csimpl; try by eapply IH.
  destruct (sink_write _ sink) as [sink'|]; [by eapply IH|done].
Qed.
End udp_reset.

(** ** The guarantee *)

Section guarantee.
Context `{Pnet} `{Ipnet} `{PnetMutLaws} {M : Type → Type → Type} `{LinkedHashMapLaws M}.
Context {S E : Type} `{Sink S E}.

Lemma lru_iter_log_len {K V} `{EqDecision K} debug now (Q : K → V → Prop) (c : LruCache M K V) :
  Forall (λ kv, Q kv.1 kv.2) (lru_iter c) → Forall (λ kv, Q kv.1 kv.2) (lru_iter (log_len debug now c)).
Proof.
  unfold log_len. destruct debug; [|done]. unfold lru_iter. rewrite !Forall_fmap.
  apply sublist_Forall_1. fold (entries (lru_len now c).2) (entries c).
  change (lru_len now c).2 with (remove_expired now c).2.
  rewrite entries_remove_expired. apply drop_while_sublist.
Qed.

(** A reset of [pubkey] injects exactly one RST for each of its tracked
    IPv4 TCP connections whose sequence number is known, then one "port
    unreachable" for each of its tracked IPv4 UDP connections that sent a
    packet, in the order of the caches, each built from that connection
    alone although the buffers are reused; it stops at the first error of
    the sink, and no slice is ever out of range. *)
Theorem reset_connections_writes cap ttl use_ipv6 feature now h (fw : StatefullFirewall M)
    debug pubkey endpoint (sink : S) :
  fw_reach cap ttl use_ipv6 feature now h fw →
  (reset_connections debug now pubkey endpoint sink fw).1 =
    write_packets (omap (rst_of pubkey) (lru_iter (log_len debug now (tcp fw)))
                   ++ omap (unreachable_of pubkey endpoint) (lru_iter (log_len debug now (udp fw)))) sink.
Proof.
  intros [[_ _ _ Hu] _ _]%fw_reach_inv.
  assert (∀ l1 l2 (s : S), write_packets (l1 ++ l2) s =
    let? s := write_packets l1 s in write_packets l2 s) as Happ.
  { intros l1 l2. induction l1 as [|p l1 IH]; intros s; simpl; [done|].
    destruct (sink_write p s); [apply IH|done]. }
  rewrite Happ. unfold reset_connections.
  destruct (reset_tcp_conns debug now pubkey sink fw) as [r fw'] eqn:Er.
  unfold reset_tcp_conns in Er. rewrite reset_tcp_loop in Er by done. injection Er as <- <-.
  destruct (write_packets _ sink) as [sink'|e]; [|done].
  unfold reset_udp_conns. change (udp (set_tcp fw _)) with (udp fw).
  destruct (udp_buffer_init endpoint) as (hdr & icmphdr & data & Hb). cbn [fst].
  eapply (reset_udp_loop pubkey endpoint); [done|].
  apply (lru_iter_log_len debug now (λ _ info, ∀ chunk, last_out_pkg_chunk info = Some chunk →
                                        length chunk ≤ LAST_PKG_MAX_CHUNK_LEN)).
  unfold lru_iter. apply Forall_fmap. eapply Forall_impl; [exact Hu|]. by intros [k tv] [_ Hc].
Qed.
End guarantee.

(** ** Witness: the RST and the ICMP error for the connections of the sample
    node, collected in a list *)

Module ResetSamples.
Import Samples.
#[local] Existing Instance RfcPnet.
#[local] Existing Instance RfcPnetMut.
#[local] Existing Instance prefix_net.
#[local] Instance collect : Sink (list bytes) unit := λ p l, Ok (l ++ [p]).

Lemma reset_connections_writes_witness :
  (reset_connections false 40 (mkPublicKey peer) (ipv4_addr 10 5 0 1) [] fw3).1 =
  Ok [rst_packet them me 80 1000 0; unreachable_packet (ipv4_addr 10 5 0 1) me udp_out].
Proof.
  rewrite (reset_connections_writes 3 1000 true no_features 40 seen3) by (by apply fw3_reach).
  vm_compute. reflexivity.
Defined.

(** With the debug level off, a connection that expired is reset too; with it
    on, logging the size of the cache dropped it first. *)
Example reset_depends_on_log_level :
  (reset_connections false 5000 (mkPublicKey peer) 0 [] fw3).1 ≠
  (reset_connections true 5000 (mkPublicKey peer) 0 [] fw3).1.
Proof. vm_compute. discriminate. Qed.
End ResetSamples.
