(* ===== verification/WgTypes.v ===== *)
(** * WireGuard peers and interfaces

    The data that the WireGuard layer and the controller share: the keys of
    [src/crates/telio-crypto/src/lib.rs], the states of
    [src/crates/telio-model/src/mesh.rs], the address pairs of
    [src/crates/telio-utils/src/dual_target.rs] and the peers, interfaces and
    events of [src/crates/telio-wg/src/uapi.rs].

    An instant or a duration is a number of nanoseconds.  [Instant::now()] and
    the Unix time are arguments.  The networks of the [ipnet] crate are the
    interface [IpNets]. *)

From S2P Require Import Prelude NetTypes.

Abbreviation Instant := Z.
Abbreviation Duration := Z.

Definition from_nanos (n : Z) : Duration := n.
Definition from_millis (n : Z) : Duration := (n * 1000000)%Z.
Definition from_secs (n : Z) : Duration := (n * 1000000000)%Z.

(** [Instant::elapsed], which saturates at zero *)
Definition elapsed (now t : Instant) : Duration := Z.max 0 (now - t).

(** ** Keys *)

Definition KEY_SIZE : nat := 32.

Record SecretKey := mkSecretKey { secret_bytes : bytes }.
Record PresharedKey := mkPresharedKey { preshared_bytes : bytes }.

#[export] Instance SecretKey_eq_dec : EqDecision SecretKey.
Proof. solve_decision. Defined.
#[export] Instance PresharedKey_eq_dec : EqDecision PresharedKey.
Proof. solve_decision. Defined.

(** [PublicKey::default()] *)
Definition public_key_default : PublicKey := mkPublicKey (replicate KEY_SIZE 0%Z).

(** [SecretKey::new], which clamps the bytes *)
Definition secret_key_new (b : bytes) : SecretKey :=
  mkSecretKey (alter (λ x, Z.lor (Z.land x 127) 64) 31 (alter (λ x, Z.land x 248) 0 b)).

(** [PublicKey::new] and [PresharedKey::new] *)
Definition public_key_new (b : bytes) : PublicKey := mkPublicKey b.
Definition preshared_key_new (b : bytes) : PresharedKey := mkPresharedKey b.

(** The derived [Ord] of [PublicKey]: bytes in lexicographic order *)
Fixpoint bytes_cmp (a b : bytes) : comparison :=
  match a, b with
  | [], [] => Eq
  | [], _ :: _ => Lt
  | _ :: _, [] => Gt
  | x :: a, y :: b => match (x ?= y)%Z with Eq => bytes_cmp a b | c => c end
  end.

(** [meshnet_canonical_key_order] *)
Definition meshnet_canonical_key_order (lhs rhs : PublicKey) : comparison :=
  bytes_cmp (key_bytes lhs) (key_bytes rhs).

(** [smaller_key_in_meshnet_canonical_order] *)
Definition smaller_key_in_meshnet_canonical_order (lhs rhs : PublicKey) : PublicKey :=
  match meshnet_canonical_key_order lhs rhs with
  | Gt => rhs
  | _ => lhs
  end.

Definition key_le (a b : PublicKey) : Prop := meshnet_canonical_key_order a b ≠ Gt.

#[export] Instance key_le_dec : RelDecision key_le.
Proof. unfold RelDecision, key_le. solve_decision. Defined.

Lemma bytes_cmp_antisym a b : bytes_cmp b a = CompOpp (bytes_cmp a b).
Proof.
  revert b. induction a as [|x a IH]; intros [|y b]; simpl; [done..|].
  rewrite (Z.compare_antisym x y). destruct (x ?= y)%Z; simpl; auto.
Qed.

Lemma bytes_cmp_eq a b : bytes_cmp a b = Eq → a = b.
Proof.
  revert b. induction a as [|x a IH]; intros [|y b]; simpl; [done..|].
  destruct (x ?= y)%Z eqn:Hc; [|done..]. apply Z.compare_eq in Hc as ->. by intros ->%IH.
Qed.

Lemma bytes_cmp_trans a b c : bytes_cmp a b ≠ Gt → bytes_cmp b c ≠ Gt → bytes_cmp a c ≠ Gt.
Proof.
  revert b c. induction a as [|x a IH]; intros [|y b] [|z c]; simpl; try done.
  destruct (Z.compare_spec x y), (Z.compare_spec y z), (Z.compare_spec x z); subst; try done; try lia. apply IH.
Qed.

#[export] Instance key_le_trans : Transitive key_le.
Proof. intros a b c. apply bytes_cmp_trans. Qed.

#[export] Instance key_le_total : Total key_le.
Proof.
  intros a b. unfold key_le, meshnet_canonical_key_order. rewrite (bytes_cmp_antisym (key_bytes a) (key_bytes b)).
  destruct (bytes_cmp (key_bytes a) (key_bytes b)); auto.
Qed.

Lemma key_le_antisym a b : key_le a b → key_le b a → a = b.
Proof.
  unfold key_le, meshnet_canonical_key_order. rewrite (bytes_cmp_antisym (key_bytes a) (key_bytes b)).
  destruct (bytes_cmp (key_bytes a) (key_bytes b)) eqn:E; [|done|done]. intros _ _.
  destruct a, b. by apply bytes_cmp_eq in E; simpl in E; subst.
Qed.

(** Iteration over a [BTreeMap<PublicKey, A>] *)
Definition btree_iter {A} (m : gmap PublicKey A) : list (PublicKey * A) :=
  merge_sort (λ x y, key_le x.1 y.1) (map_to_list m).

Lemma btree_iter_perm {A} (m : gmap PublicKey A) : btree_iter m ≡ₚ map_to_list m.
Proof. apply merge_sort_Permutation. Qed.

Lemma elem_of_btree_iter {A} (m : gmap PublicKey A) k x :
  (k, x) ∈ btree_iter m ↔ m !! k = Some x.
Proof. by rewrite btree_iter_perm, elem_of_map_to_list. Qed.

Lemma NoDup_btree_iter {A} (m : gmap PublicKey A) : NoDup (btree_iter m).*1.
Proof. rewrite btree_iter_perm. apply NoDup_fst_map_to_list. Qed.

(** ** Networks *)

Class IpNets := {
  IpNet : Type;
  #[global] IpNet_eq_dec :: EqDecision IpNet;
  ipnet_new : StdIpAddr → Z → option IpNet;
  ipnet_addr : IpNet → StdIpAddr;
  ipnet_network : IpNet → StdIpAddr;
  ipnet_prefix_len : IpNet → Z
}.

(** The number of bits of an address *)
Definition addr_bits (a : StdIpAddr) : Z := match a with V4 _ => 32 | V6 _ => 128 end.

(** What is used of the documentation of [IpNet]: [new] fails exactly on a
    prefix longer than the address and the network keeps its address. *)
Class IpNetsLaws `{IpNets} := {
  ipnet_new_Some a p : is_Some (ipnet_new a p) ↔ (0 <= p <= addr_bits a)%Z;
  ipnet_new_addr a p n : ipnet_new a p = Some n → ipnet_addr n = a;
  ipnet_new_prefix a p n : ipnet_new a p = Some n → ipnet_prefix_len n = p
}.

(** An implementation that keeps the address and the prefix, to run the model *)
Module AddrPrefix.

Record Net := mkNet { addr : StdIpAddr; prefix : Z }.

#[export] Instance Net_eq_dec : EqDecision Net.
Proof. solve_decision. Defined.

Definition number (a : StdIpAddr) : Z := match a with V4 x | V6 x => x end.
Definition with_number (a : StdIpAddr) (x : Z) : StdIpAddr :=
  match a with V4 _ => V4 x | V6 _ => V6 x end.

Definition new (a : StdIpAddr) (p : Z) : option Net :=
  if ((0 <=? p) && (p <=? addr_bits a))%Z then Some (mkNet a p) else None.

Definition network (n : Net) : StdIpAddr :=
  let host := (addr_bits (addr n) - prefix n)%Z in
  with_number (addr n) (Z.shiftl (Z.shiftr (number (addr n)) host) host).

Definition nets : IpNets := {|
  IpNet := Net;
  ipnet_new := new;
  ipnet_addr := addr;
  ipnet_network := network;
  ipnet_prefix_len := prefix
|}.

Lemma nets_laws : @IpNetsLaws nets.
Proof.
  assert (∀ a p n, new a p = Some n → n = mkNet a p) as Hn.
  { intros a p n. unfold new. case_match; naive_solver. }
  split; intros a p; simpl; [|intros n ->%Hn; done..].
  unfold new. destruct (_ && _)%Z eqn:E; rewrite is_Some_alt; lia.
Qed.
End AddrPrefix.

(** ** Address pairs *)

(** [Target] *)
Definition Target : Type := option Z * option Z.

Record DualTarget := mkDualTarget { target : Target }.

Inductive DualTargetError := NoTarget.

#[export] Instance DualTarget_eq_dec : EqDecision DualTarget.
Proof. solve_decision. Defined.

Inductive IpStack := IPv4 | IPv6 | IPv4v6.

Definition dual_target_default : DualTarget := mkDualTarget (None, None).

(** [DualTarget::new] *)
Definition dual_target_new (t : Target) : result DualTargetError DualTarget :=
  match t with
  | (None, None) => Err NoTarget
  | _ => Ok (mkDualTarget t)
  end.

(** [DualTarget::delete_address] *)
Definition delete_address (ip_stack : IpStack) (d : DualTarget) : DualTarget :=
  match ip_stack with
  | IPv4 => mkDualTarget (None, (target d).2)
  | IPv6 => mkDualTarget ((target d).1, None)
  | IPv4v6 => mkDualTarget (None, None)
  end.

(** [DualTarget::get_targets] *)
Definition get_targets (d : DualTarget)
    : result DualTargetError (StdIpAddr * option StdIpAddr) :=
  match target d with
  | (Some ip4, Some ip6) => Ok (V6 ip6, Some (V4 ip4))
  | (Some ip4, None) => Ok (V4 ip4, None)
  | (None, Some ip6) => Ok (V6 ip6, None)
  | (None, None) => Err NoTarget
  end.

(** [build_ping_endpoint] *)
Definition build_ping_endpoint (ip_addresses : list StdIpAddr) (use_ipv6 : bool) : Target :=
  fold_left (λ '(ipv4, ipv6) ip,
    match ip, ipv4, ipv6, use_ipv6 with
    | V4 v4, None, _, _ => (Some v4, ipv6)
    | V6 v6, _, None, true => (ipv4, Some v6)
    | _, _, _, _ => (ipv4, ipv6)
    end) ip_addresses (None, None).

(** ** States *)

Inductive NodeState := Disconnected | Connecting | Connected.
Inductive LinkState := Down | Up.
Inductive UpdateReason := Push | Pull.

(** [telio_model::features::EndpointProvider] *)
Inductive EndpointType := Local | Stun | Upnp.

#[export] Instance EndpointType_eq_dec : EqDecision EndpointType.
Proof. solve_decision. Defined.

#[export] Instance NodeState_eq_dec : EqDecision NodeState.
Proof. solve_decision. Defined.
#[export] Instance LinkState_eq_dec : EqDecision LinkState.
Proof. solve_decision. Defined.
#[export] Instance UpdateReason_eq_dec : EqDecision UpdateReason.
Proof. solve_decision. Defined.
#[export] Instance IpStack_eq_dec : EqDecision IpStack.
Proof. solve_decision. Defined.

(** ** Peers and interfaces *)

Section peers.
Context `{IpNets}.

(** [uapi::Peer] *)
Record Peer := mkPeer {
  public_key : PublicKey;
  endpoint : option SocketAddr;
  endpoint_changed_at : option (Instant * UpdateReason);
  peer_ip_addresses : list StdIpAddr;
  persistent_keepalive_interval : option Z;
  allowed_ips : list IpNet;
  rx_bytes : option Z;
  time_since_last_rx : option Duration;
  tx_bytes : option Z;
  time_since_last_handshake : option Duration;
  preshared_key : option PresharedKey
}.

#[export] Instance Peer_eq_dec : EqDecision Peer.
Proof. solve_decision. Defined.

(** [Peer { public_key, ..Default::default() }] *)
Definition peer_default (k : PublicKey) : Peer :=
  mkPeer k None None [] None [] None None None None None.

Definition set_endpoint (e : option SocketAddr) (p : Peer) : Peer :=
  mkPeer (public_key p) e (endpoint_changed_at p) (peer_ip_addresses p)
    (persistent_keepalive_interval p) (allowed_ips p) (rx_bytes p) (time_since_last_rx p)
    (tx_bytes p) (time_since_last_handshake p) (preshared_key p).

Definition set_endpoint_changed_at (c : option (Instant * UpdateReason)) (p : Peer) : Peer :=
  mkPeer (public_key p) (endpoint p) c (peer_ip_addresses p)
    (persistent_keepalive_interval p) (allowed_ips p) (rx_bytes p) (time_since_last_rx p)
    (tx_bytes p) (time_since_last_handshake p) (preshared_key p).

Definition set_peer_ip_addresses (l : list StdIpAddr) (p : Peer) : Peer :=
  mkPeer (public_key p) (endpoint p) (endpoint_changed_at p) l
    (persistent_keepalive_interval p) (allowed_ips p) (rx_bytes p) (time_since_last_rx p)
    (tx_bytes p) (time_since_last_handshake p) (preshared_key p).

Definition set_keepalive (k : option Z) (p : Peer) : Peer :=
  mkPeer (public_key p) (endpoint p) (endpoint_changed_at p) (peer_ip_addresses p)
    k (allowed_ips p) (rx_bytes p) (time_since_last_rx p)
    (tx_bytes p) (time_since_last_handshake p) (preshared_key p).

Definition set_allowed_ips (l : list IpNet) (p : Peer) : Peer :=
  mkPeer (public_key p) (endpoint p) (endpoint_changed_at p) (peer_ip_addresses p)
    (persistent_keepalive_interval p) l (rx_bytes p) (time_since_last_rx p)
    (tx_bytes p) (time_since_last_handshake p) (preshared_key p).

Definition set_rx_bytes (b : option Z) (p : Peer) : Peer :=
  mkPeer (public_key p) (endpoint p) (endpoint_changed_at p) (peer_ip_addresses p)
    (persistent_keepalive_interval p) (allowed_ips p) b (time_since_last_rx p)
    (tx_bytes p) (time_since_last_handshake p) (preshared_key p).

Definition set_time_since_last_rx (d : option Duration) (p : Peer) : Peer :=
  mkPeer (public_key p) (endpoint p) (endpoint_changed_at p) (peer_ip_addresses p)
    (persistent_keepalive_interval p) (allowed_ips p) (rx_bytes p) d
    (tx_bytes p) (time_since_last_handshake p) (preshared_key p).

Definition set_tx_bytes (b : option Z) (p : Peer) : Peer :=
  mkPeer (public_key p) (endpoint p) (endpoint_changed_at p) (peer_ip_addresses p)
    (persistent_keepalive_interval p) (allowed_ips p) (rx_bytes p) (time_since_last_rx p)
    b (time_since_last_handshake p) (preshared_key p).

Definition set_time_since_last_handshake (d : option Duration) (p : Peer) : Peer :=
  mkPeer (public_key p) (endpoint p) (endpoint_changed_at p) (peer_ip_addresses p)
    (persistent_keepalive_interval p) (allowed_ips p) (rx_bytes p) (time_since_last_rx p)
    (tx_bytes p) d (preshared_key p).

Definition set_preshared_key (k : option PresharedKey) (p : Peer) : Peer :=
  mkPeer (public_key p) (endpoint p) (endpoint_changed_at p) (peer_ip_addresses p)
    (persistent_keepalive_interval p) (allowed_ips p) (rx_bytes p) (time_since_last_rx p)
    (tx_bytes p) (time_since_last_handshake p) k.

(** [uapi::Interface] *)
Record Interface := mkInterface {
  private_key : option SecretKey;
  listen_port : option Z;
  proxy_listen_port : option Z;
  fwmark : Z;
  peers : gmap PublicKey Peer
}.

#[export] Instance Interface_eq_dec : EqDecision Interface.
Proof. solve_decision. Defined.

Definition interface_default : Interface := mkInterface None None None 0 ∅.

Definition set_peers (m : gmap PublicKey Peer) (i : Interface) : Interface :=
  mkInterface (private_key i) (listen_port i) (proxy_listen_port i) (fwmark i) m.
Definition set_private_key (k : option SecretKey) (i : Interface) : Interface :=
  mkInterface k (listen_port i) (proxy_listen_port i) (fwmark i) (peers i).
Definition set_listen_port (p : option Z) (i : Interface) : Interface :=
  mkInterface (private_key i) p (proxy_listen_port i) (fwmark i) (peers i).
Definition set_interface_fwmark (m : Z) (i : Interface) : Interface :=
  mkInterface (private_key i) (listen_port i) (proxy_listen_port i) m (peers i).

(** [uapi::Event] *)
Record Event := mkEvent {
  event_state : NodeState;
  event_link_state : option LinkState;
  event_peer : Peer;
  event_old_peer : option Peer
}.

(** [uapi::AnalyticsEvent] *)
Record AnalyticsEvent := mkAnalyticsEvent {
  ae_public_key : PublicKey;
  ae_dual_ip_addresses : list DualTarget;
  ae_tx_bytes : Z;
  ae_rx_bytes : Z;
  ae_peer_state : NodeState;
  ae_timestamp : Instant
}.

#[export] Instance Event_eq_dec : EqDecision Event.
Proof. solve_decision. Defined.

(** [REJECT_AFTER_TIME] and [REKEY_TIMEOUT_JITTER] of [Peer::is_connected] *)
Definition REJECT_AFTER_TIME : Duration := from_secs 180.
Definition REKEY_TIMEOUT_JITTER : Duration := from_millis 334.

(** [Peer::is_connected] *)
Definition is_connected (p : Peer) : bool :=
  match time_since_last_rx p with
  | Some d => (d <? REJECT_AFTER_TIME + REKEY_TIMEOUT_JITTER)%Z
  | None => false
  end.

(** [Peer::state] *)
Definition peer_node_state (p : Peer) : NodeState :=
  if is_connected p then Connected else Connecting.

(** [Peer::is_same_event] *)
Definition is_same_event (p other : Peer) : bool :=
  bool_decide (public_key p = public_key other) && bool_decide (endpoint p = endpoint other) &&
  bool_decide (allowed_ips p = allowed_ips other).

(** [Peer::calculate_time_since_last_handshake]; [unix_time] is what
    [SystemTime::now().duration_since(UNIX_EPOCH)] returns, [None] for an
    error. *)
Definition calculate_time_since_last_handshake (unix_time : option Duration)
    (lht : option Duration) : option Duration :=
  match lht with
  | Some handshake_time =>
      if (handshake_time =? from_secs 0)%Z then None
      else
        match unix_time with
        | Some now => if (handshake_time <=? now)%Z then Some (now - handshake_time)%Z else None
        | None => None
        end
  | None => None
  end.

Definition dual_target_or_default (t : Target) : DualTarget :=
  match dual_target_new t with Ok dt => dt | Err NoTarget => dual_target_default end.

(** The loop of [Peer::get_dual_ip_addresses]: the pairs pushed so far and the
    pending one *)
Definition dual_ip_step (st : list DualTarget * Target) (ip : StdIpAddr)
    : list DualTarget * Target :=
  let '(out, t) := st in
  match ip with
  | V4 a =>
      match t.1 with
      | None => (out, (Some a, t.2))
      | Some _ => (out ++ [dual_target_or_default t], (Some a, None))
      end
  | V6 a =>
      match t.2 with
      | None => (out, (t.1, Some a))
      | Some _ => (out ++ [dual_target_or_default t], (None, Some a))
      end
  end.

(** [Peer::get_dual_ip_addresses] *)
Definition get_dual_ip_addresses (p : Peer) : list DualTarget :=
  let '(out, t) := fold_left dual_ip_step (peer_ip_addresses p) ([], (None, None)) in
  if bool_decide (t = (None, None)) then out else out ++ [dual_target_or_default t].

(** [AnalyticsEvent::is_from_virtual_peer] and the address test it makes *)
Definition check_virtual_address_range (addr : StdIpAddr) : bool :=
  match addr with
  | V4 a => ((ipv4_addr 100 64 0 1 <=? a) && (a <=? ipv4_addr 100 64 0 7))%Z
  | V6 a =>
      match ipv6_segments a with
      | [s0; s1; s2; s3; s4; s5; s6; s7] =>
          ((s0 =? 0xfd74) && (s1 =? 0x656c) && (s2 =? 0x696f) && (s3 =? 0) && (s4 =? 0) &&
           (s5 =? 0) && (s6 =? 0) && (1 <=? s7) && (s7 <=? 7))%Z
      | _ => false
      end
  end.

Definition is_from_virtual_peer (e : AnalyticsEvent) : bool :=
  existsb (λ dual_addresses,
    match get_targets dual_addresses with
    | Ok (primary, secondary) =>
        check_virtual_address_range primary ||
        match secondary with Some a => check_virtual_address_range a | None => false end
    | Err _ => false
    end) (ae_dual_ip_addresses e).

(** [AnalyticsEvent::from_event] *)
Definition from_event (now : Instant) (e : Event) : AnalyticsEvent :=
  mkAnalyticsEvent (public_key (event_peer e)) (get_dual_ip_addresses (event_peer e))
    (default 0%Z (tx_bytes (event_peer e))) (default 0%Z (rx_bytes (event_peer e)))
    (event_state e) now.
End peers.

(** ** Channels

    The sending half of a [tokio] channel: what was sent, and whether the
    receiver is still there; [send] fails exactly when it is not. *)

Record Chan (T : Type) := mkChan { chan_open : bool; chan_sent : list T }.
Arguments mkChan {T} _ _.
Arguments chan_open {T} _.
Arguments chan_sent {T} _.

Definition chan_send {T} (x : T) (c : Chan T) : bool * Chan T :=
  if chan_open c then (true, mkChan true (chan_sent c ++ [x])) else (false, c).
