(* ===== verification/LinkDetection.v ===== *)
(** * Traffic counters and link detection

    The byte counters [BytesAndTimestamps] of [src/crates/telio-wg/src/wg.rs]
    and the link detection of [src/crates/telio-wg/src/link_detection.rs].

    The counters of a peer are an [Arc<Mutex<_>>] that the WireGuard task and
    link detection share: here they live in a [Heap] of cells, and both hold
    the cell's location.  A poisoned mutex is not modelled.  Whether the
    pinger task of enhanced detection starts is an argument of [ld_new]. *)

From S2P Require Import Prelude NetTypes WgTypes.

(** ** Traffic counters *)

Definition KEEPALIVE_PACKET_SIZE : Z := 32.
Definition WG_KEEPALIVE : Duration := from_secs 10.

Record BytesAndTimestamps := mkBytesAndTimestamps {
  bt_rx_bytes : Z;
  bt_tx_bytes : Z;
  rx_ts : option Instant;
  tx_ts : option Instant
}.

(** [BytesAndTimestamps::new] *)
Definition bt_new (now : Instant) (rx tx : option Z) : BytesAndTimestamps :=
  let rx := default 0%Z rx in
  let tx := default 0%Z tx in
  mkBytesAndTimestamps rx tx
    (if (0 <? rx)%Z then Some now else None) (if (0 <? tx)%Z then Some now else None).

(** [BytesAndTimestamps::update] *)
Definition bt_update (now : Instant) (new_rx new_tx : Z) (b : BytesAndTimestamps)
    : BytesAndTimestamps :=
  let '(rx, rts) :=
    if (bt_rx_bytes b <? new_rx)%Z then (new_rx, Some now) else (bt_rx_bytes b, rx_ts b) in
  let '(tx, tts) :=
    if (bt_tx_bytes b <? new_tx)%Z then
      (new_tx,
       if (new_tx - bt_tx_bytes b =? KEEPALIVE_PACKET_SIZE)%Z then tx_ts b else Some now)
    else (bt_tx_bytes b, tx_ts b) in
  mkBytesAndTimestamps rx tx rts tts.

(** [BytesAndTimestamps::is_link_up] *)
Definition is_link_up (now : Instant) (rtt : Duration) (b : BytesAndTimestamps) : bool :=
  match rx_ts b, tx_ts b with
  | Some rx, Some tx => (tx <=? rx)%Z || (elapsed now rx <? WG_KEEPALIVE + rtt)%Z
  | _, _ => false
  end.

(** The shared cells *)
Abbreviation loc := nat.
Abbreviation Heap := (gmap loc BytesAndTimestamps).

(** ** The state machine of a peer *)

Inductive StateVariant :=
| VariantDown
| PossibleDown (deadline : Instant)
| VariantUp.

#[export] Instance StateVariant_eq_dec : EqDecision StateVariant.
Proof. solve_decision. Defined.

Inductive StateDecision := NoAction | Notify | Ping.

Record LinkDetectionUpdateResult := mkLinkDetectionUpdateResult {
  should_notify : bool;
  link_state : option LinkState
}.

Record StateUpdateResult := mkStateUpdateResult {
  should_ping : bool;
  link_detection_update_result : LinkDetectionUpdateResult
}.

Record LinkPeer := mkLinkPeer { link_stats : loc; variant : StateVariant }.

Definition POSSIBLE_DOWN_DELAY : Duration := from_secs 3.

(** [Duration::checked_add] and, for the clock of Unix systems,
    [Instant::checked_add] *)
Definition DURATION_MAX : Duration := (from_secs (2 ^ 64) - 1)%Z.
Definition INSTANT_MAX : Instant := (from_secs (2 ^ 63) - 1)%Z.

Definition duration_checked_add (a b : Duration) : option Duration :=
  if (a + b <=? DURATION_MAX)%Z then Some (a + b)%Z else None.
Definition instant_checked_add (t : Instant) (d : Duration) : option Instant :=
  if (t + d <=? INSTANT_MAX)%Z then Some (t + d)%Z else None.

(** [State::build_result], with [StateDecision::should_notify] and
    [StateDecision::should_ping] *)
Definition build_result (d : StateDecision) (l : LinkState) : StateUpdateResult :=
  mkStateUpdateResult (match d with Ping => true | _ => false end)
    (mkLinkDetectionUpdateResult (match d with Notify => true | _ => false end) (Some l)).

(** [State::current_link_state] *)
Definition current_link_state (v : StateVariant) : LinkState :=
  match v with
  | VariantUp | PossibleDown _ => Up
  | VariantDown => Down
  end.

(** The delay before a link that seems down is reported down *)
Definition possible_down_delay (cfg_max_allowed_rtt : Duration) (ping_enabled : bool) : Duration :=
  if ping_enabled then default WG_KEEPALIVE (duration_checked_add WG_KEEPALIVE cfg_max_allowed_rtt)
  else POSSIBLE_DOWN_DELAY.

(** [State::update], on whether the counters say that the link is up *)
Definition variant_update (now : Instant) (cfg_max_allowed_rtt : Duration)
    (ping_enabled link_up : bool) (v : StateVariant) : StateUpdateResult * StateVariant :=
  match v with
  | VariantDown =>
      if link_up then (build_result Notify Up, VariantUp)
      else (build_result NoAction Down, VariantDown)
  | PossibleDown deadline =>
      if link_up then (build_result NoAction Up, VariantUp)
      else if (deadline <=? now)%Z then (build_result Notify Down, VariantDown)
      else (build_result NoAction Up, v)
  | VariantUp =>
      if negb link_up then
        let delay := possible_down_delay cfg_max_allowed_rtt ping_enabled in
        (build_result Ping Up, PossibleDown (default now (instant_checked_add now delay)))
      else (build_result NoAction Up, VariantUp)
  end.

(** ** Link detection *)

(** [FeatureLinkDetection] *)
Record FeatureLinkDetection := mkFeatureLinkDetection {
  rtt_seconds : Z;
  no_of_pings : Z;
  cfg_use_for_downgrade : bool
}.

Record LinkDetection := mkLinkDetection {
  cfg_max_allowed_rtt : Duration;
  enhanced_detection : bool;
  ping_channel : Chan (list StdIpAddr * option IpStack);
  link_peers : gmap PublicKey LinkPeer;
  use_for_downgrade : bool
}.

(** [LinkDetection::new]; [started] says whether [EnhancedDetection::start_with]
    succeeds.  Without it the receiving half of the channel is dropped. *)
Definition ld_new (started : bool) (cfg : FeatureLinkDetection) : LinkDetection :=
  let enhanced := negb (no_of_pings cfg =? 0)%Z && started in
  mkLinkDetection (from_secs (rtt_seconds cfg)) enhanced (mkChan enhanced []) ∅
    (cfg_use_for_downgrade cfg).

Definition set_link_peers (m : gmap PublicKey LinkPeer) (ld : LinkDetection) : LinkDetection :=
  mkLinkDetection (cfg_max_allowed_rtt ld) (enhanced_detection ld) (ping_channel ld) m
    (use_for_downgrade ld).
Definition set_ping_channel (c : Chan (list StdIpAddr * option IpStack)) (ld : LinkDetection)
    : LinkDetection :=
  mkLinkDetection (cfg_max_allowed_rtt ld) (enhanced_detection ld) c (link_peers ld)
    (use_for_downgrade ld).

(** What [is_link_up] says of a cell *)
Definition cell_link_up (now : Instant) (h : Heap) (rtt : Duration) (l : loc) : bool :=
  match h !! l with Some b => is_link_up now rtt b | None => false end.

(** [State::new] *)
Definition link_peer_new (now : Instant) (h : Heap) (stats : loc) (rtt : Duration) : LinkPeer :=
  mkLinkPeer stats (if cell_link_up now h rtt stats then VariantUp else VariantDown).

(** [LinkDetection::insert] *)
Definition ld_insert (now : Instant) (h : Heap) (k : PublicKey) (stats : loc) (ld : LinkDetection)
    : LinkDetection :=
  set_link_peers (<[k := link_peer_new now h stats (cfg_max_allowed_rtt ld)]> (link_peers ld)) ld.

(** [LinkDetection::remove] *)
Definition ld_remove (k : PublicKey) (ld : LinkDetection) : LinkDetection :=
  set_link_peers (delete k (link_peers ld)) ld.

(** [LinkDetection::push_update] *)
Definition push_update (k : PublicKey) (ld : LinkDetection) : LinkDetectionUpdateResult :=
  mkLinkDetectionUpdateResult false
    (Some (match link_peers ld !! k with
           | Some p => current_link_state (variant p)
           | None => Down
           end)).

(** [LinkDetection::update] *)
Definition ld_update (now : Instant) (h : Heap) (k : PublicKey) (node_addresses : list StdIpAddr)
    (reason : UpdateReason) (curr_ip_stack : option IpStack) (ld : LinkDetection)
    : LinkDetectionUpdateResult * LinkDetection :=
  match reason with
  | Push => (push_update k ld, ld)
  | Pull =>
      match link_peers ld !! k with
      | Some p =>
          let ping_enabled := enhanced_detection ld in
          let rtt := cfg_max_allowed_rtt ld in
          let '(result, v) :=
            variant_update now rtt ping_enabled (cell_link_up now h rtt (link_stats p)) (variant p) in
          let ld := set_link_peers (<[k := mkLinkPeer (link_stats p) v]> (link_peers ld)) ld in
          let ld :=
            if ping_enabled && should_ping result then
              set_ping_channel (chan_send (node_addresses, curr_ip_stack) (ping_channel ld)).2 ld
            else ld in
          (link_detection_update_result result, ld)
      | None => (mkLinkDetectionUpdateResult false (Some Down), ld)
      end
  end.

(** [LinkDetection::get_link_state_for_downgrade] *)
Definition get_link_state_for_downgrade (k : PublicKey) (ld : LinkDetection) : option LinkState :=
  if use_for_downgrade ld then (current_link_state ∘ variant) <$> link_peers ld !! k else None.

(** One trigger of the pinger task of
    [src/crates/telio-wg/src/link_detection/enhanced_detection.rs]: the targets
    it pings, the addresses of the families that this node has *)
Definition enhanced_targets (trigger : list StdIpAddr * option IpStack) : list DualTarget :=
  match trigger.2 with
  | Some ips =>
      omap (λ t,
        match ips, t with
        | IPv4, V6 _ | IPv6, V4 _ => None
        | _, _ =>
            match dual_target_new (match t with V4 v4 => (Some v4, None) | V6 v6 => (None, Some v6) end) with
            | Ok t => Some t
            | Err _ => None
            end
        end) trigger.1
  | None => []
  end.

(** ** Theorems *)

Section polls.
Variables (rtt : Duration) (ping_enabled : bool).

(** A sequence of polls: the instant of each, and whether the counters said
    that the link was up *)
Fixpoint run_polls (l : list (Instant * bool)) (v : StateVariant)
    : list StateUpdateResult * StateVariant :=
  match l with
  | [] => ([], v)
  | (now, up) :: l =>
      let '(r, v) := variant_update now rtt ping_enabled up v in
      let '(rs, v) := run_polls l v in (r :: rs, v)
  end.

(** The link states that a run notifies *)
Definition notified (rs : list StateUpdateResult) : list LinkState :=
  omap (λ r, if should_notify (link_detection_update_result r)
             then link_state (link_detection_update_result r) else None) rs.

Definition opposite (l : LinkState) : LinkState := match l with Up => Down | Down => Up end.

(** [n] items, each the opposite of the one before, the first the opposite of
    [l] *)
Fixpoint alternate (n : nat) (l : LinkState) : list LinkState :=
  match n with
  | 0 => []
  | S n => opposite l :: alternate n (opposite l)
  end.

Lemma variant_update_report now up v r v' :
  variant_update now rtt ping_enabled up v = (r, v') →
  link_state (link_detection_update_result r) = Some (current_link_state v') ∧
  should_notify (link_detection_update_result r) =
    bool_decide (current_link_state v ≠ current_link_state v') ∧
  should_ping r = bool_decide (v = VariantUp ∧ up = false).
Proof.
  destruct v as [|d|], up; simpl; repeat case_match; intros; by simplify_eq/=.
Qed.

Lemma run_polls_app l1 l2 v :
  run_polls (l1 ++ l2) v =
    let '(r1, v1) := run_polls l1 v in let '(r2, v2) := run_polls l2 v1 in (r1 ++ r2, v2).
Proof.
  revert v. induction l1 as [|[t u] l1 IH]; intros v; simpl; [by destruct (run_polls l2 v)|].
  destruct (variant_update _ _ _ _ _) as [r v1]. rewrite IH.
  destruct (run_polls l1 v1) as [r1 v2]. by destruct (run_polls l2 v2).
Qed.

(** A link suspected to be down has been so since some poll, which set the
    deadline. *)
Lemma possible_down_since l v rs d :
  (∀ d, v ≠ PossibleDown d) → run_polls l v = (rs, PossibleDown d) →
  ∃ l1 t l2, l = l1 ++ (t, false) :: l2 ∧ Forall (λ p, p.2 = false) l2 ∧
    d = default t (instant_checked_add t (possible_down_delay rtt ping_enabled)).
Proof.
  intros Hv. revert rs d. induction l as [|[t up] l IH] using rev_ind; intros rs d.
  { intros [= <- ->]. by destruct (Hv d). }
  rewrite run_polls_app. destruct (run_polls l v) as [r1 v1] eqn:E1. simpl.
  destruct v1 as [|d'|]; simpl; destruct up; simpl; repeat case_match; intros; simplify_eq/=.
  - destruct (IH _ _ eq_refl) as (l1 & t0 & l2 & -> & Hf & ->).
    exists l1, t0, (l2 ++ [(t, false)]). rewrite <-app_assoc. split_and!; [done| |done].
    apply Forall_app. split; [done|by repeat constructor].
  - by exists l, t, [].
Qed.
End polls.

(** Link detection reports a link down only after a silence: when a run of
    polls from a settled state ends by notifying [Down], some earlier poll
    already found the link down, so did every poll since, and the configured
    delay (three seconds, or the keepalive interval plus the round trip time
    when pings are enabled) has passed between the two. *)
Theorem link_down_needs_silence rtt ping_enabled l now up v rs v' :
  (∀ d, v ≠ PossibleDown d) →
  run_polls rtt ping_enabled (l ++ [(now, up)]) v = (rs, v') →
  last rs = Some (build_result Notify Down) →
  (∀ t up, (t, up) ∈ l → t + possible_down_delay rtt ping_enabled <= INSTANT_MAX)%Z →
  ∃ l1 t l2, l = l1 ++ (t, false) :: l2 ∧ Forall (λ p, p.2 = false) (l2 ++ [(now, up)]) ∧
    (t + possible_down_delay rtt ping_enabled <= now)%Z.
Proof.
  intros Hv Hrun Hlast Hmax. rewrite run_polls_app in Hrun.
  destruct (run_polls rtt ping_enabled l v) as [r1 v1] eqn:E1; simpl in Hrun.
  destruct (variant_update now rtt ping_enabled up v1) as [r v2] eqn:E2. simplify_eq/=.
  rewrite last_snoc in Hlast. simplify_eq/=.
  destruct v1 as [|d|]; destruct up; simpl in E2; repeat case_match; simplify_eq/=.
  destruct (possible_down_since rtt ping_enabled l v r1 d Hv E1) as (l1 & t & l2 & -> & Hf & ->).
  exists l1, t, l2. split_and!; [done| |].
  - apply Forall_app. split; [done|by repeat constructor].
  - assert (t + possible_down_delay rtt ping_enabled <= INSTANT_MAX)%Z.
    { apply (Hmax t false). set_solver. }
    unfold instant_checked_add in *. rewrite (proj2 (Z.leb_le _ _)) in * by done. simpl in *. lia.
Qed.

Lemma link_down_needs_silence_witness :
  ∃ l1 t l2, [(0, true); (1, false); (from_secs 2, false)]%Z = l1 ++ (t, false) :: l2 ∧
    Forall (λ p : Z * bool, p.2 = false) (l2 ++ [(from_secs 4, false)]) ∧
    (t + possible_down_delay (from_secs 15) false <= from_secs 4)%Z.
Proof.
  eapply (link_down_needs_silence (from_secs 15) false _ _ _ VariantDown).
  - done.
  - vm_compute. reflexivity.
  - vm_compute. reflexivity.
  - intros t up Hin. repeat (apply elem_of_cons in Hin as [[= -> ->]|Hin]; [by vm_compute|]).
    by apply elem_of_nil in Hin.
Defined.

(** Link detection notifies exactly the changes of the state it reports:
    over any run of polls, every report carries the state that the peer is left
    in, the notified states alternate, starting with the opposite of the state
    before the run, and the last of them is the state after it. *)
Theorem link_notifications_alternate rtt ping_enabled l v :
  let '(rs, v') := run_polls rtt ping_enabled l v in
  notified rs = alternate (length (notified rs)) (current_link_state v) ∧
  current_link_state v' = default (current_link_state v) (last (notified rs)) ∧
  from_option (λ r, link_state (link_detection_update_result r)) (Some (current_link_state v))
    (last rs) = Some (current_link_state v').
Proof.
  revert v. induction l as [|[t up] l IH]; intros v; [done|]. simpl.
  destruct (variant_update t rtt ping_enabled up v) as [r v1] eqn:E1. specialize (IH v1).
  destruct (run_polls rtt ping_enabled l v1) as [rs v2]. destruct IH as (Hn & Hc & Hl).
  apply variant_update_report in E1 as (Hs & Hnt & _).
  destruct r as [sp [sn ls]]; simpl in *. subst ls sn. rewrite last_cons.
  split_and!; [| |by destruct (last rs)].
  - case_bool_decide as Hd; csimpl; [|by rewrite Hd].
    assert (opposite (current_link_state v) = current_link_state v1) as ->
      by (by destruct (current_link_state v), (current_link_state v1)).
    by f_equal.
  - rewrite Hc. case_bool_decide as Hd; csimpl; [rewrite last_cons|rewrite Hd];
      by destruct (last (notified rs)).
Qed.
