(* ===== verification/Wg.v ===== *)
(** * The WireGuard task

    [src/crates/telio-wg/src/wg.rs]: the task behind [DynamicWg], which keeps
    a copy of the interface, writes changes to the adapter, polls the adapter
    for the ones made by WireGuard itself, and reports both as events.

    The task runs its requests one at a time; a request is one action on
    [State] and reads the clock once, as [now].  The adapter is the interface
    [Adapter], the trait of [src/crates/telio-wg/src/adapter.rs] whose
    implementations drive WireGuard proper. *)

From S2P Require Import Prelude NetTypes WgTypes LinkDetection.

Open Scope act_scope.

(** ** Commands *)

Section commands.
Context `{IpNets}.

(** The data of the [wireguard_uapi::xplatform::set] commands *)
Record AllowedIp := mkAllowedIp { ipaddr : StdIpAddr; cidr_mask : Z }.

Record SetPeer := mkSetPeer {
  set_public_key : bytes;
  set_remove : option bool;
  set_update_only : option bool;
  set_psk : option bytes;
  set_peer_endpoint : option SocketAddr;
  set_persistent_keepalive : option Z;
  set_replace_allowed_ips : option bool;
  set_peer_allowed_ips : list AllowedIp
}.

Record SetDevice := mkSetDevice {
  set_dev_private_key : option bytes;
  set_dev_listen_port : option Z;
  set_dev_fwmark : option Z;
  set_dev_replace_peers : option bool;
  set_dev_peers : list SetPeer
}.

Inductive Cmd :=
| CmdGet
| CmdSet (d : SetDevice).

Record Response := mkResponse { errno : Z; response_interface : option Interface }.

(** [adapter::Error]; [AdapterError] stands for the variants that carry an
    error of an adapter implementation. *)
Inductive Error :=
| InternalError (msg : string)
| DuplicateAllowedIPsError
| AdapterError (code : nat).

(** [set::Peer::from_public_key(k).remove(true)] *)
Definition set_peer_remove (k : PublicKey) : SetPeer :=
  mkSetPeer (key_bytes k) (Some true) None None None None None [].

(** [From<&Peer> for set::Peer], with [update_only] and [replace_allowed_ips]
    set *)
Definition set_peer_of (update_only replace_allowed_ips : bool) (p : Peer) : SetPeer :=
  mkSetPeer (key_bytes (public_key p)) None (Some update_only)
    (preshared_bytes <$> preshared_key p) (endpoint p)
    (wrap 16 <$> persistent_keepalive_interval p) (Some replace_allowed_ips)
    ((λ ip, mkAllowedIp (ipnet_network ip) (ipnet_prefix_len ip)) <$> allowed_ips p).

(** [trait Adapter] *)
Class Adapter (A : Type) := {
  send_uapi_cmd : Cmd → A → result Error Response * A;
  drop_sockets : A → A;
  inject_reset_packets : PublicKey → Z → A → A
}.

(** ** State *)

Inductive LibtelioEvent := CriticalError (msg : string).

Record Interval := mkInterval { interval_start : Instant; interval_period : Duration }.

(** [wg::State]; [stats_heap] holds the counters that [stats] and
    [link_detection] point to. *)
Record State (A : Type) := mkState {
  adapter : A;
  interval : Interval;
  interface : Interface;
  event : Chan Event;
  analytics_tx : option (Chan AnalyticsEvent);
  uapi_fail_counter : Z;
  link_detection : option LinkDetection;
  libtelio_event : option (Chan LibtelioEvent);
  stats : gmap PublicKey loc;
  stats_heap : Heap;
  ip_stack : option IpStack;
  polling_period : Duration;
  polling_period_after_update : Duration;
  last_update : Instant
}.
End commands.

Arguments mkState {_ A} _ _ _ _ _ _ _ _ _ _ _ _ _ _.
Arguments adapter {_ A} _.
Arguments interval {_ A} _.
Arguments interface {_ A} _.
Arguments event {_ A} _.
Arguments analytics_tx {_ A} _.
Arguments uapi_fail_counter {_ A} _.
Arguments link_detection {_ A} _.
Arguments libtelio_event {_ A} _.
Arguments stats {_ A} _.
Arguments stats_heap {_ A} _.
Arguments ip_stack {_ A} _.
Arguments polling_period {_ A} _.
Arguments polling_period_after_update {_ A} _.
Arguments last_update {_ A} _.

Section setters.
Context `{IpNets} {A : Type}.
Implicit Types s : State A.

Definition with_adapter a s : State A :=
  mkState a (interval s) (interface s) (event s) (analytics_tx s) (uapi_fail_counter s)
    (link_detection s) (libtelio_event s) (stats s) (stats_heap s) (ip_stack s)
    (polling_period s) (polling_period_after_update s) (last_update s).
Definition with_interval i s : State A :=
  mkState (adapter s) i (interface s) (event s) (analytics_tx s) (uapi_fail_counter s)
    (link_detection s) (libtelio_event s) (stats s) (stats_heap s) (ip_stack s)
    (polling_period s) (polling_period_after_update s) (last_update s).
Definition with_interface i s : State A :=
  mkState (adapter s) (interval s) i (event s) (analytics_tx s) (uapi_fail_counter s)
    (link_detection s) (libtelio_event s) (stats s) (stats_heap s) (ip_stack s)
    (polling_period s) (polling_period_after_update s) (last_update s).
Definition with_event c s : State A :=
  mkState (adapter s) (interval s) (interface s) c (analytics_tx s) (uapi_fail_counter s)
    (link_detection s) (libtelio_event s) (stats s) (stats_heap s) (ip_stack s)
    (polling_period s) (polling_period_after_update s) (last_update s).
Definition with_analytics_tx c s : State A :=
  mkState (adapter s) (interval s) (interface s) (event s) c (uapi_fail_counter s)
    (link_detection s) (libtelio_event s) (stats s) (stats_heap s) (ip_stack s)
    (polling_period s) (polling_period_after_update s) (last_update s).
Definition with_uapi_fail_counter n s : State A :=
  mkState (adapter s) (interval s) (interface s) (event s) (analytics_tx s) n
    (link_detection s) (libtelio_event s) (stats s) (stats_heap s) (ip_stack s)
    (polling_period s) (polling_period_after_update s) (last_update s).
Definition with_link_detection ld s : State A :=
  mkState (adapter s) (interval s) (interface s) (event s) (analytics_tx s) (uapi_fail_counter s)
    ld (libtelio_event s) (stats s) (stats_heap s) (ip_stack s)
    (polling_period s) (polling_period_after_update s) (last_update s).
Definition with_libtelio_event c s : State A :=
  mkState (adapter s) (interval s) (interface s) (event s) (analytics_tx s) (uapi_fail_counter s)
    (link_detection s) c (stats s) (stats_heap s) (ip_stack s)
    (polling_period s) (polling_period_after_update s) (last_update s).
Definition with_stats m h s : State A :=
  mkState (adapter s) (interval s) (interface s) (event s) (analytics_tx s) (uapi_fail_counter s)
    (link_detection s) (libtelio_event s) m h (ip_stack s)
    (polling_period s) (polling_period_after_update s) (last_update s).
Definition with_ip_stack i s : State A :=
  mkState (adapter s) (interval s) (interface s) (event s) (analytics_tx s) (uapi_fail_counter s)
    (link_detection s) (libtelio_event s) (stats s) (stats_heap s) i
    (polling_period s) (polling_period_after_update s) (last_update s).
Definition with_last_update t s : State A :=
  mkState (adapter s) (interval s) (interface s) (event s) (analytics_tx s) (uapi_fail_counter s)
    (link_detection s) (libtelio_event s) (stats s) (stats_heap s) (ip_stack s)
    (polling_period s) (polling_period_after_update s) t.
End setters.

(** ** Operations *)

Definition MAX_UAPI_FAIL_COUNT : Z := 10.

Record DiffKeys := mkDiffKeys {
  delete_keys : gset PublicKey;
  insert_keys : gset PublicKey;
  update_keys : gset PublicKey
}.

Section operations.
Context `{IpNets} `{!HashOrder PublicKey} {A : Type} `{!Adapter A}.
Implicit Types (s : State A) (to : Interface) (now : Instant).

Abbreviation task := (act (State A) Error).

(** [State::uapi_request] *)
Definition uapi_request (cmd : Cmd) : task Response := λ s,
  match send_uapi_cmd cmd (adapter s) with
  | (Err e, a) => (Err e, with_adapter a s)
  | (Ok ret, a) =>
      let s := with_adapter a s in
      let s :=
        with_uapi_fail_counter (if (errno ret =? 0)%Z then 0 else uapi_fail_counter s + 1)%Z s in
      if (MAX_UAPI_FAIL_COUNT <=? uapi_fail_counter s)%Z &&
         negb (bool_decide (is_Some (response_interface ret)))
      then
        (Err (InternalError "Interface gone"),
         with_libtelio_event
           ((λ c, (chan_send (CriticalError "Interface gone") c).2) <$> libtelio_event s) s)
      else (Ok ret, s)
  end.

(** [State::update_calculate_changes] *)
Definition update_calculate_changes to s : DiffKeys :=
  let f_keys : gset PublicKey := dom (peers (interface s)) in
  let t_keys : gset PublicKey := dom (peers to) in
  mkDiffKeys (f_keys ∖ t_keys) (t_keys ∖ f_keys) (f_keys ∩ t_keys).

(** [State::time_since_last_rx], on the counters *)
Definition stats_time_since_last_rx now (st : gmap PublicKey loc) (h : Heap) (k : PublicKey)
    : option Duration :=
  l ← st !! k;
  b ← h !! l;
  if (0 <? bt_rx_bytes b)%Z then elapsed now <$> rx_ts b else None.

(** [State::send_event] *)
Definition send_event (state : NodeState) (ls : option LinkState) (peer : Peer)
    (old_peer : option Peer) : task unit := λ s,
  let ls := match link_detection s with None => None | Some _ => ls end in
  let '(sent, c) := chan_send (mkEvent state ls peer old_peer) (event s) in
  (if sent then Ok tt else Err (InternalError "Failed to send node event"), with_event c s).

(** The three loops of [State::update_send_notification_events] *)
Definition notify_disconnect (key : PublicKey) : task unit :=
  s <-- act_get ;;
  peer <-- act_ok_or (peers (interface s) !! key)
             (InternalError "Disconnected peer missing from old list") ;;
  act_modify (λ s, with_link_detection (ld_remove key <$> link_detection s) s) ;;;
  send_event Disconnected (Some Down) peer (peers (interface s) !! key).

Definition notify_connect now to (key : PublicKey) : task unit :=
  s <-- act_get ;;
  peer <-- act_ok_or (peers to !! key) (InternalError "New peer missing from new list") ;;
  st <-- act_ok_or (stats s !! key) (InternalError "No stats available for peer") ;;
  act_modify (λ s, with_link_detection (ld_insert now (stats_heap s) key st <$> link_detection s) s) ;;;
  send_event Connecting (Some Down) peer (peers (interface s) !! key) ;;;
  act_when (is_connected peer)
    (send_event Connected (Some Up) peer (peers (interface s) !! key)).

Definition notify_update now to (reason : UpdateReason) (key : PublicKey) : task unit :=
  s <-- act_get ;;
  match peers (interface s) !! key, peers to !! key with
  | Some old, Some new =>
      let old_state := peer_node_state old in
      let new_state := peer_node_state new in
      let '(res, ld) :=
        match link_detection s with
        | Some ld =>
            let '(res, ld) :=
              ld_update now (stats_heap s) key (peer_ip_addresses new) reason (ip_stack s) ld in
            (res, Some ld)
        | None => (mkLinkDetectionUpdateResult false None, None)
        end in
      act_modify (with_link_detection ld) ;;;
      act_when (negb (is_same_event old new) || negb (bool_decide (old_state = new_state)) ||
                should_notify res)
        (send_event new_state (link_state res) new (Some old))
  | _, _ => act_ret tt
  end.

(** [State::update_send_notification_events] *)
Definition update_send_notification_events now to (d : DiffKeys) (reason : UpdateReason)
    : task unit :=
  act_for (hash_iter (delete_keys d)) notify_disconnect ;;;
  act_for (hash_iter (insert_keys d)) (notify_connect now to) ;;;
  act_for (hash_iter (update_keys d)) (notify_update now to reason).

(** [State::update_calculate_set_listen_port] *)
Definition update_calculate_set_listen_port (from_listen_port to_listen_port : option Z)
    : option Z :=
  match from_listen_port, to_listen_port with
  | Some from, Some to => if negb (from =? to)%Z then Some to else None
  | None, Some to => Some to
  | _, None => None
  end.

(** [State::update_construct_set_device] *)
Definition update_construct_set_device to (d : DiffKeys) s : SetDevice :=
  let from := interface s in
  let removed_peers :=
    (λ kp, set_peer_remove kp.1) <$>
      filter (λ kp, kp.1 ∈ delete_keys d) (btree_iter (peers from)) in
  let to_peers :=
    (λ kp, set_peer_of (bool_decide (kp.1 ∈ update_keys d))
             (match peers from !! kp.1 with
              | Some p => negb (bool_decide (allowed_ips p = allowed_ips kp.2))
              | None => false
              end) kp.2) <$> btree_iter (peers to) in
  mkSetDevice (secret_bytes <$> private_key to)
    (update_calculate_set_listen_port (listen_port from) (listen_port to))
    (if (fwmark to =? 0)%Z then None else Some (fwmark to))
    None (removed_peers ++ to_peers).

(** [State::update_endpoint_change_timestamps] *)
Definition update_endpoint_change_timestamps now (d : DiffKeys) (reason : UpdateReason) s to
    : Interface :=
  fold_left (λ to key,
    let old_endpoint := peers (interface s) !! key ≫= endpoint in
    let new_endpoint := peers to !! key ≫= endpoint in
    if negb (bool_decide (old_endpoint = new_endpoint)) then
      set_peers (alter (set_endpoint_changed_at (Some (now, reason))) key (peers to)) to
    else to) (hash_iter (insert_keys d) ++ hash_iter (update_keys d)) to.

(** [State::is_same_peer] *)
Definition is_same_peer (lhs rhs : Peer) : bool :=
  bool_decide (public_key lhs = public_key rhs) &&
  bool_decide (endpoint lhs = endpoint rhs) &&
  bool_decide (peer_ip_addresses lhs = peer_ip_addresses rhs) &&
  bool_decide (persistent_keepalive_interval lhs = persistent_keepalive_interval rhs) &&
  bool_decide (allowed_ips lhs = allowed_ips rhs) &&
  bool_decide (rx_bytes lhs = rx_bytes rhs) &&
  bool_decide (tx_bytes lhs = tx_bytes rhs) &&
  bool_decide (time_since_last_handshake lhs = time_since_last_handshake rhs) &&
  bool_decide (preshared_key lhs = preshared_key rhs).

(** [State::is_same_interface] *)
Definition is_same_interface (lhs rhs : Interface) : bool :=
  if negb (bool_decide (private_key lhs = private_key rhs)) ||
     negb (bool_decide (listen_port lhs = listen_port rhs)) ||
     negb (bool_decide (proxy_listen_port lhs = proxy_listen_port rhs)) ||
     negb (fwmark lhs =? fwmark rhs)%Z
  then false
  else
    forallb (λ kp,
      match peers rhs !! kp.1 with
      | Some other_peer => is_same_peer kp.2 other_peer
      | None => false
      end) (btree_iter (peers lhs)) &&
    (size (peers lhs) =? size (peers rhs))%nat.

(** The first loop of [State::update]: refresh or create the counters of one
    peer, then its [time_since_last_rx] *)
Definition refresh_peer now (acc : gmap PublicKey loc * Heap * gmap PublicKey Peer)
    (kp : PublicKey * Peer) : gmap PublicKey loc * Heap * gmap PublicKey Peer :=
  let '(st, h, ps) := acc in
  let '(pk, peer) := kp in
  let '(st, h) :=
    match st !! pk with
    | Some l =>
        (st, alter (bt_update now (default 0%Z (rx_bytes peer)) (default 0%Z (tx_bytes peer))) l h)
    | None =>
        let l := fresh (dom h) in
        (<[pk := l]> st, <[l := bt_new now (rx_bytes peer) (tx_bytes peer)]> h)
    end in
  (st, h, <[pk := set_time_since_last_rx (stats_time_since_last_rx now st h pk) peer]> ps).

(** The second loop of [State::update]: what the adapter does not keep *)
Definition restore_peer (old : option Peer) (peer : Peer) : Peer :=
  let peer :=
    match peer_ip_addresses peer, old with
    | [], Some old_peer => set_peer_ip_addresses (peer_ip_addresses old_peer) peer
    | _, _ => peer
    end in
  set_endpoint_changed_at (old ≫= endpoint_changed_at) peer.

(** The analytics event of [State::update] *)
Definition analytics_event now (d : DiffKeys) (pubkey : PublicKey) (peer : Peer) : AnalyticsEvent :=
  mkAnalyticsEvent pubkey (get_dual_ip_addresses peer) (default 0%Z (tx_bytes peer))
    (default 0%Z (rx_bytes peer))
    (if is_connected peer then Connected
     else if bool_decide (pubkey ∈ delete_keys d) then Disconnected else Connecting) now.

Definition send_analytics now (d : DiffKeys) to s : State A :=
  with_analytics_tx
    ((λ tx, fold_left (λ tx (kp : PublicKey * Peer),
       if bool_decide (is_Some (endpoint kp.2))
       then (chan_send (analytics_event now d kp.1 kp.2) tx).2 else tx)
       (btree_iter (peers to)) tx) <$> analytics_tx s) s.

(** What [State::update] does to [to] and the counters before it compares the
    interfaces *)
Definition prepare now to s : Interface * State A :=
  let '(st, h, ps) :=
    fold_left (refresh_peer now) (btree_iter (peers to)) (stats s, stats_heap s, ∅) in
  let st := filter (λ kl, is_Some (peers to !! kl.1)) st in
  let s := with_stats st h s in
  (set_peers (map_imap (λ pk peer, Some (restore_peer (peers (interface s) !! pk) peer)) ps) to, s).

(** The restart of the polling interval by a push *)
Definition restart_interval now (reason : UpdateReason) s : State A :=
  match reason with
  | Push =>
      with_interval
        (mkInterval (now + polling_period_after_update s) (polling_period_after_update s))
        (with_last_update now s)
  | Pull => s
  end.

(** The command of [State::update]: only a push writes to the adapter. *)
Definition write_device to (d : DiffKeys) (reason : UpdateReason) : task bool := λ s,
  match reason with
  | Push =>
      match uapi_request (CmdSet (update_construct_set_device to d s)) s with
      | (Ok r, s) => (Ok (errno r =? 0)%Z, s)
      | (Err _, s) => (Ok false, s)
      end
  | Pull => (Ok true, s)
  end.

(** [State::update] *)
Definition update now to (reason : UpdateReason) : task bool :=
  act_modify (restart_interval now reason) ;;;
  to <-- (λ s, let '(to, s) := prepare now to s in (Ok to, s)) ;;
  s <-- act_get ;;
  if is_same_interface (interface s) to then
    act_fail (InternalError "Same interface received in update function")
  else
    let diff_keys := update_calculate_changes to s in
    let to := update_endpoint_change_timestamps now diff_keys reason s to in
    update_send_notification_events now to diff_keys reason ;;;
    success <-- write_device to diff_keys reason ;;
    act_modify (send_analytics now diff_keys to) ;;;
    act_modify (with_interface to) ;;;
    act_ret success.

(** [State::sync] *)
Definition sync now : task unit :=
  r <-- uapi_request CmdGet ;;
  match response_interface r with
  | Some to => act_ignore (update now to Pull)
  | None => act_ret tt
  end.

(** [Runtime::wait]: the interval it leaves for the wait that precedes the
    synchronisation *)
Definition wait_interval now s : State A :=
  if (interval_period (interval s) =? polling_period_after_update s)%Z &&
     (polling_period s <=? elapsed now (last_update s))%Z
  then with_interval (mkInterval (now + polling_period s) (polling_period s)) s
  else s.

(** [Runtime::wait], which polls once the interval [ticked] *)
Definition wait now ticked : task unit :=
  act_modify (wait_interval now) ;;; sync ticked.

(** ** [WireGuard for DynamicWg] *)

Definition get_interface : task Interface := s <-- act_get ;; act_ret (interface s).

Definition get_link_state (key : PublicKey) : task (option LinkState) :=
  s <-- act_get ;;
  act_ret (ld ← link_detection s; get_link_state_for_downgrade key ld).

Definition set_secret_key now (key : SecretKey) : task unit :=
  s <-- act_get ;; act_ignore (update now (set_private_key (Some key) (interface s)) Push).

Definition set_fwmark now (mark : Z) : task unit :=
  s <-- act_get ;; act_ignore (update now (set_interface_fwmark mark (interface s)) Push).

(** The test of [add_peer] for allowed IPs held by another peer *)
Definition has_duplicate_allowed_ips (new_peer : Peer) (i : Interface) : bool :=
  existsb (λ kp : PublicKey * Peer,
    existsb (λ ip, bool_decide (ip ∈ allowed_ips kp.2)) (allowed_ips new_peer))
    (filter (λ kp : PublicKey * Peer, public_key kp.2 ≠ public_key new_peer)
       (btree_iter (peers i))).

(** The peer that [add_peer] writes *)
Definition merge_peer (old : option Peer) (new_peer : Peer) : Peer :=
  let new_peer :=
    match old with
    | Some old_peer =>
        set_tx_bytes (tx_bytes old_peer)
          (set_rx_bytes (rx_bytes old_peer)
             (set_time_since_last_handshake (time_since_last_handshake old_peer) new_peer))
    | None => new_peer
    end in
  match persistent_keepalive_interval new_peer with
  | None => set_keepalive (Some 0%Z) new_peer
  | Some _ => new_peer
  end.

Definition add_peer now (new_peer : Peer) : task unit :=
  s <-- act_get ;;
  let to := interface s in
  if has_duplicate_allowed_ips new_peer to then act_fail DuplicateAllowedIPsError
  else
    let new_peer := merge_peer (peers to !! public_key new_peer) new_peer in
    act_ignore (update now (set_peers (<[public_key new_peer := new_peer]> (peers to)) to) Push).

Definition del_peer now (key : PublicKey) : task unit :=
  s <-- act_get ;;
  act_ignore (update now (set_peers (delete key (peers (interface s))) (interface s)) Push).

Definition drop_connected_sockets : task unit :=
  act_modify (λ s, with_adapter (drop_sockets (adapter s)) s).

Definition time_since_last_rx_req now (k : PublicKey) : task (option Duration) :=
  s <-- act_get ;; act_ret (stats_time_since_last_rx now (stats s) (stats_heap s) k).

Definition reset_existing_connections (pubkey : PublicKey) (ipv4 : Z) : task unit :=
  act_modify (λ s, with_adapter (inject_reset_packets pubkey ipv4 (adapter s)) s).

Definition set_ip_stack (i : option IpStack) : task unit := act_modify (with_ip_stack i).

(** [DynamicWg::start_with]: the first state of the task *)
Definition start_with now (a : A) (pinger_started : bool) (ev : Chan Event)
    (an : option (Chan AnalyticsEvent)) (lt : option (Chan LibtelioEvent))
    (ld : option FeatureLinkDetection) (period period_after_update : Duration) : State A :=
  mkState a (mkInterval now period) interface_default ev an 0 (ld_new pinger_started <$> ld) lt
    ∅ ∅ None period period_after_update now.
End operations.
