(* ===== verification/WgProps.v ===== *)
(** * What the WireGuard task guarantees

    Theorems about [Wg]: the invariant that ties the interface, the events, the
    counters and link detection together, and the exact effect of [update] and
    of the requests built on it. *)

From S2P Require Import Prelude NetTypes WgTypes LinkDetection Wg.

Section counters.
Context `{IpNets} `{!HashOrder PublicKey} {A : Type} `{!Adapter A}.
Implicit Types (s : State A) (to : Interface) (now : Instant).

(** ** Counters *)

(** Every peer has a cell of its own. *)
Definition cells_ok (st : gmap PublicKey loc) (h : Heap) : Prop :=
  (∀ k l, st !! k = Some l → is_Some (h !! l)) ∧
  (∀ k1 k2 l, st !! k1 = Some l → st !! k2 = Some l → k1 = k2).

(** The counters of a peer after a sample of its interface *)
Definition sampled now (old : option BytesAndTimestamps) (p : Peer) : BytesAndTimestamps :=
  match old with
  | Some b => bt_update now (default 0%Z (rx_bytes p)) (default 0%Z (tx_bytes p)) b
  | None => bt_new now (rx_bytes p) (tx_bytes p)
  end.

Definition cell_of (st : gmap PublicKey loc) (h : Heap) (k : PublicKey)
    : option BytesAndTimestamps := st !! k ≫= (h !!.).

Definition since_last_rx now (b : option BytesAndTimestamps) : option Duration :=
  b ← b; if (0 <? bt_rx_bytes b)%Z then elapsed now <$> rx_ts b else None.

Lemma stats_time_cell now st h k :
  stats_time_since_last_rx now st h k = since_last_rx now (cell_of st h k).
Proof.
  unfold stats_time_since_last_rx, since_last_rx, cell_of. by destruct (st !! k).
Qed.

(** One step of the first loop of [update] *)
Lemma refresh_peer_spec now st h ps k p :
  cells_ok st h →
  ∃ st' h', refresh_peer now (st, h, ps) (k, p) =
      (st', h', <[k := set_time_since_last_rx (since_last_rx now (cell_of st' h' k)) p]> ps) ∧
    cells_ok st' h' ∧ st ⊆ st' ∧ dom st' = dom st ∪ {[k]} ∧
    cell_of st' h' k = Some (sampled now (cell_of st h k) p) ∧
    ∀ k', k' ≠ k → cell_of st' h' k' = cell_of st h k'.
Proof.
  intros [Hv Hi]. unfold refresh_peer. destruct (st !! k) as [l|] eqn:El.
  - eexists st, _. rewrite stats_time_cell. split; [done|].
    destruct (Hv k l El) as [b Hb].
    split; [split; [|done]; intros k' l' Hl'; rewrite lookup_alter_is_Some; eauto|].
    split; [done|]. split; [apply elem_of_dom_2 in El; set_solver|].
    unfold cell_of. rewrite El. simpl. rewrite lookup_alter_eq, Hb. split; [done|].
    intros k' Hk'. destruct (st !! k') as [l'|] eqn:El'; [|done]. simpl.
    rewrite lookup_alter_ne; [done|]. intros ->. naive_solver.
  - set (l := fresh (dom h)). assert (h !! l = None) as Hl.
    { apply not_elem_of_dom. apply is_fresh. }
    eexists (<[k := l]> st), _. rewrite stats_time_cell. split; [done|]. split; [split|].
    + intros k' l' [[<- <-]|[? ?]]%lookup_insert_Some; [rewrite lookup_insert_eq; eauto|].
      rewrite lookup_insert_is_Some'. eauto.
    + intros k1 k2 l'. rewrite !lookup_insert_Some.
      assert (∀ k, st !! k ≠ Some l) as Hn.
      { intros k' E. destruct (Hv k' l E) as [? Hx]. by rewrite Hl in Hx. }
      naive_solver.
    + split; [by apply insert_subseteq|]. split; [set_solver|].
      unfold cell_of at 1. rewrite lookup_insert_eq. simpl. rewrite lookup_insert_eq.
      unfold cell_of at 1. rewrite El. split; [done|]. intros k' Hk'.
      unfold cell_of. rewrite lookup_insert_ne by done.
      destruct (st !! k') as [l'|] eqn:El'; [|done]. simpl. rewrite lookup_insert_ne; [done|].
      intros ->. destruct (Hv k' l' El') as [? Hx]. by rewrite Hl in Hx.
Qed.

Lemma refresh_all_spec now L st0 h0 :
  NoDup L.*1 → cells_ok st0 h0 →
  ∃ st h ps, fold_left (refresh_peer now) L (st0, h0, ∅) = (st, h, ps) ∧
    cells_ok st h ∧ st0 ⊆ st ∧ dom st = dom st0 ∪ list_to_set L.*1 ∧
    (∀ k p, (k, p) ∈ L → cell_of st h k = Some (sampled now (cell_of st0 h0 k) p) ∧
      ps !! k = Some (set_time_since_last_rx (since_last_rx now (cell_of st h k)) p)) ∧
    (∀ k, k ∉ L.*1 → cell_of st h k = cell_of st0 h0 k ∧ ps !! k = None).
Proof.
  induction L as [|[k p] L IH] using rev_ind; intros Hd Hok.
  { exists st0, h0, ∅. csimpl. split_and!; [done..|set_solver|set_solver|done]. }
  rewrite fmap_app, NoDup_app in Hd. destruct Hd as (Hd & Hk & _).
  assert (k ∉ L.*1) as Hn by (intros Hin; apply (Hk k Hin); simpl; set_solver).
  destruct (IH Hd Hok) as (st1 & h1 & ps1 & E1 & Hok1 & Hsub & Hdom & Hin & Hout).
  destruct (refresh_peer_spec now st1 h1 ps1 k p Hok1) as (st2 & h2 & E2 & Hok2 & Hsub2 & Hdom2 & Hc & Hne).
  exists st2, h2. eexists. rewrite fold_left_app, E1. cbn [fold_left]. rewrite E2.
  split; [done|]. split; [done|]. split; [by etrans|].
  split; [rewrite Hdom2, Hdom, fmap_app, list_to_set_app_L; simpl; set_solver|]. split.
  - intros k' p' [Hin'|Heq]%elem_of_app.
    + assert (k' ≠ k) by (intros ->; apply Hn, list_elem_of_fmap; by exists (k, p')).
      rewrite Hne, lookup_insert_ne by done. auto.
    + apply list_elem_of_singleton in Heq as [= -> ->].
      rewrite lookup_insert_eq, Hc. split; [|done]. by rewrite (proj1 (Hout k Hn)).
  - intros k'. rewrite fmap_app, not_elem_of_app. intros [Hn' Hne'%not_elem_of_cons].
    rewrite Hne, lookup_insert_ne by (simpl in *; naive_solver). auto.
Qed.

Lemma prepare_spec now to s :
  cells_ok (stats s) (stats_heap s) →
  ∃ st h, let s' := with_stats st h s in
    prepare now to s =
      (set_peers (map_imap (λ k p, Some (restore_peer (peers (interface s) !! k)
         (set_time_since_last_rx (since_last_rx now (cell_of st h k)) p))) (peers to)) to, s') ∧
    cells_ok st h ∧ dom st = dom (peers to) ∧
    (∀ k l, stats s !! k = Some l → is_Some (peers to !! k) → st !! k = Some l) ∧
    (∀ k p, peers to !! k = Some p →
      cell_of st h k = Some (sampled now (cell_of (stats s) (stats_heap s) k) p)).
Proof.
  intros Hok. unfold prepare.
  destruct (refresh_all_spec now (btree_iter (peers to)) (stats s) (stats_heap s))
    as (st & h & ps & E & Hok' & Hsub & Hdom & Hin & Hout); [apply NoDup_btree_iter|done|].
  rewrite E. set (st' := filter _ st).
  assert (∀ k, is_Some (peers to !! k) → st' !! k = st !! k) as Hst'.
  { intros k Hk. unfold st'. rewrite map_lookup_filter. destruct (st !! k); [|done]. simpl.
    by rewrite option_guard_True. }
  assert (∀ k p, peers to !! k = Some p → cell_of st' h k = cell_of st h k) as Hcell.
  { intros k p Hp. unfold cell_of. by rewrite Hst' by eauto. }
  exists st', h. split_and!.
  - f_equal. f_equal. apply map_eq. intros k. rewrite !map_lookup_imap. simpl.
    destruct (peers to !! k) as [p|] eqn:Hp; simpl.
    + rewrite (proj2 (Hin k p ltac:(by apply elem_of_btree_iter))). simpl. by erewrite Hcell.
    + rewrite (proj2 (Hout k ltac:(intros ((k', p') & -> & Hx)%list_elem_of_fmap; apply elem_of_btree_iter in Hx; naive_solver))). done.
  - destruct Hok' as [Hv Hi]. split; intros *; unfold st'; rewrite ?map_lookup_filter_Some; naive_solver.
  - apply set_eq. intros k. rewrite !elem_of_dom. split.
    + intros [l [_ ?]%map_lookup_filter_Some]. done.
    + intros Hk. rewrite Hst' by done. apply elem_of_dom. rewrite Hdom. apply elem_of_union_r.
      apply elem_of_list_to_set, list_elem_of_fmap. destruct Hk as [p Hp]. exists (k, p).
      by rewrite elem_of_btree_iter.
  - intros k l Hl Hk. rewrite Hst' by done. by eapply lookup_weaken.
  - intros k p Hp. rewrite (Hcell k p Hp). by apply Hin, elem_of_btree_iter.
Qed.
End counters.

Section notifications.
Context `{IpNets} `{!HashOrder PublicKey} {A : Type} `{!Adapter A}.
Implicit Types (s : State A) (now : Instant).

(** ** Events

    What a receiver of the events knows of the peers: their state, endpoint and
    allowed IPs *)

Definition observed (p : Peer) : NodeState * option SocketAddr * list IpNet :=
  (peer_node_state p, endpoint p, allowed_ips p).

Abbreviation View := (gmap PublicKey (NodeState * option SocketAddr * list IpNet)).

Definition view_event (v : View) (e : Event) : View :=
  let p := event_peer e in
  match event_state e with
  | Disconnected => delete (public_key p) v
  | st => <[public_key p := (st, endpoint p, allowed_ips p)]> v
  end.

Definition view (l : list Event) : View := fold_left view_event l ∅.

Lemma view_snoc l e : view (l ++ [e]) = view_event (view l) e.
Proof. apply fold_left_app. Qed.

(** Every peer is listed under its own key. *)
Definition keyed (m : gmap PublicKey Peer) : Prop := ∀ k p, m !! k = Some p → public_key p = k.

(** The peers as notified when the keys [P] are done *)
Definition cur (from to : gmap PublicKey Peer) (P : list PublicKey) (k : PublicKey) : option Peer :=
  if decide (k ∈ P) then to !! k else from !! k.

Lemma cur_snoc from to P k k' :
  cur from to (P ++ [k]) k' = if decide (k' = k) then to !! k else cur from to P k'.
Proof. unfold cur. repeat case_decide; set_solver. Qed.

(** The task between two notifications *)
Record mid (s0 : State A) (to : gmap PublicKey Peer) (P : list PublicKey) (s : State A) : Prop := {
  mid_frame : s = with_event (event s) (with_link_detection (link_detection s) s0);
  mid_open : chan_open (event s) = true;
  mid_view k : view (chan_sent (event s)) !! k = observed <$> cur (peers (interface s0)) to P k;
  mid_link ld : link_detection s = Some ld →
    (∀ k, is_Some (link_peers ld !! k) ↔ is_Some (cur (peers (interface s0)) to P k)) ∧
    (∀ k p, link_peers ld !! k = Some p → is_Some (to !! k) → stats s0 !! k = Some (link_stats p))
}.

Lemma send_event_open st ls p old s :
  chan_open (event s) = true →
  ∃ ls', send_event st ls p old s =
    (Ok tt, with_event (mkChan true (chan_sent (event s) ++ [mkEvent st ls' p old])) s).
Proof. intros Ho. unfold send_event, chan_send. rewrite Ho. by eexists. Qed.

(** Sending one event while the link table changes for one key *)
Lemma mid_step s0 to P k s ld evs :
  keyed (peers (interface s0)) → keyed to → k ∉ P → mid s0 to P s →
  (∀ v, (∀ k', k' ≠ k → fold_left view_event evs v !! k' = v !! k') ∧
    fold_left view_event evs (view (chan_sent (event s))) !! k = observed <$> to !! k) →
  (∀ l, ld = Some l → ∃ l0, link_detection s = Some l0 ∧
    (∀ k', k' ≠ k → link_stats <$> link_peers l !! k' = link_stats <$> link_peers l0 !! k') ∧
    (is_Some (link_peers l !! k) ↔ is_Some (to !! k)) ∧
    (∀ p, link_peers l !! k = Some p → stats s0 !! k = Some (link_stats p))) →
  mid s0 to (P ++ [k])
    (with_event (mkChan true (chan_sent (event s) ++ evs)) (with_link_detection ld s)).
Proof.
  intros Hkf Hkt Hk [Hf Ho Hv Hl] Hevs Hld. split.
  - rewrite Hf. done.
  - done.
  - intros k'. cbn [event with_event chan_sent]. unfold view. rewrite fold_left_app, cur_snoc.
    case_decide as E; [subst; by apply (Hevs ∅)|]. rewrite <-Hv. by apply Hevs.
  - cbn [link_detection with_event with_link_detection]. intros l ->.
    destruct (Hld l eq_refl) as (l0 & E0 & Hne & Hd & Hst). destruct (Hl l0 E0) as [Hd0 Hst0].
    split.
    + intros k'. rewrite cur_snoc. case_decide as E; [subst; done|]. rewrite <-Hd0.
      rewrite <-(fmap_is_Some link_stats), <-(fmap_is_Some link_stats (link_peers l0 !! k')).
      by rewrite Hne.
    + intros k' p Hp Hto. destruct (decide (k' = k)) as [->|Hk']; [by apply Hst|].
      specialize (Hne k' Hk'). rewrite Hp in Hne. simpl in Hne. symmetry in Hne.
      apply fmap_Some in Hne as (p0 & Hp0 & ->). by apply Hst0.
Qed.

Lemma notify_disconnect_mid s0 to P k s p :
  keyed (peers (interface s0)) → keyed to → k ∉ P → mid s0 to P s →
  peers (interface s0) !! k = Some p → to !! k = None →
  ∃ s', notify_disconnect k s = (Ok tt, s') ∧ mid s0 to (P ++ [k]) s'.
Proof.
  intros Hkf Hkt Hk Hm Hp Hto. pose proof (mid_frame _ _ _ _ Hm) as Hf.
  assert (interface s = interface s0) as Hi by by rewrite Hf.
  unfold notify_disconnect, act_bind, act_get, act_modify, act_ok_or, act_ret. rewrite Hi, Hp.
  edestruct send_event_open as [ls' ->]; [exact (mid_open _ _ _ _ Hm)|]. eexists. split; [done|].
  apply (mid_step s0 to P k s); try done.
  - intros v. rewrite Hto. simpl. unfold view_event. simpl. rewrite (Hkf k p Hp).
    split; [intros k' ?; by rewrite lookup_delete_ne|by rewrite lookup_delete_eq].
  - intros l Hl. apply fmap_Some in Hl as (l0 & E0 & ->). exists l0. split; [done|].
    cbn [link_peers ld_remove set_link_peers]. rewrite lookup_delete_eq, Hto.
    split_and!; [intros k' ?; by rewrite lookup_delete_ne|done|done].
Qed.

Lemma notify_connect_mid now s0 (to : Interface) P k s p l :
  keyed (peers (interface s0)) → keyed (peers to) → k ∉ P → mid s0 (peers to) P s →
  peers (interface s0) !! k = None → peers to !! k = Some p → stats s0 !! k = Some l →
  ∃ s', notify_connect now to k s = (Ok tt, s') ∧ mid s0 (peers to) (P ++ [k]) s'.
Proof.
  intros Hkf Hkt Hk Hm Hn Hp Hst. pose proof (mid_frame _ _ _ _ Hm) as Hf.
  assert (interface s = interface s0) as Hi by by rewrite Hf.
  assert (stats s = stats s0) as Hs by by rewrite Hf.
  unfold notify_connect, act_bind, act_get, act_modify, act_ok_or, act_ret. rewrite Hp, Hs, Hst.
  edestruct send_event_open as [ls1 ->]; [exact (mid_open _ _ _ _ Hm)|].
  pose proof (Hkt k p Hp) as Hpk.
  assert (∃ evs, act_when (is_connected p) (send_event Connected (Some Up) p (peers (interface s) !! k))
      (with_event (mkChan true (chan_sent (event s) ++ [mkEvent Connecting ls1 p (peers (interface s) !! k)]))
         (with_link_detection (ld_insert now (stats_heap s) k l <$> link_detection s) s)) =
      (Ok tt, with_event (mkChan true (chan_sent (event s) ++ evs))
         (with_link_detection (ld_insert now (stats_heap s) k l <$> link_detection s) s)) ∧
      ∀ v, fold_left view_event evs v = <[k := observed p]> v) as (evs & Hsend & Hv).
  { unfold act_when, observed, peer_node_state. destruct (is_connected p).
    - edestruct send_event_open as [ls2 ->]; [done|]. eexists [_; _].
      cbn [event with_event chan_sent]. rewrite <-app_assoc. split; [done|]. intros v. simpl. unfold view_event; simpl. by rewrite Hpk, insert_insert_eq.
    - eexists [_]. split; [done|]. intros v. simpl. unfold view_event; simpl. by rewrite Hpk. }
  cbn [event with_link_detection]. rewrite Hsend. eexists. split; [done|].
  apply (mid_step s0 (peers to) P k s); try done.
  - intros v. rewrite Hp, !Hv. split; [intros k' ?; by rewrite lookup_insert_ne|by rewrite lookup_insert_eq].
  - intros l' Hl. apply fmap_Some in Hl as (l0 & E0 & ->). exists l0. split; [done|].
    cbn [link_peers ld_insert set_link_peers]. rewrite lookup_insert_eq, Hp.
    split_and!; [intros k' ?; by rewrite lookup_insert_ne|done|].
    intros q [= <-]. done.
Qed.

Lemma ld_update_stats now h k addrs reason stack ld k' :
  link_stats <$> link_peers (ld_update now h k addrs reason stack ld).2 !! k' =
  link_stats <$> link_peers ld !! k'.
Proof.
  unfold ld_update. destruct reason; [done|]. destruct (link_peers ld !! k) as [p|] eqn:Hp; [|done].
  destruct (variant_update _ _ _ _ _) as [r v]. cbn [snd].
  assert (∀ c l, link_peers (set_ping_channel c l) = link_peers l) as Hc by done.
  destruct (enhanced_detection ld && should_ping r); rewrite ?Hc; simpl;
    (destruct (decide (k' = k)) as [->|?]; [by rewrite lookup_insert_eq, Hp|by rewrite lookup_insert_ne]).
Qed.

Lemma notify_update_mid now reason s0 (to : Interface) P k s old new :
  keyed (peers (interface s0)) → keyed (peers to) → k ∉ P → mid s0 (peers to) P s →
  peers (interface s0) !! k = Some old → peers to !! k = Some new →
  ∃ s', notify_update now to reason k s = (Ok tt, s') ∧ mid s0 (peers to) (P ++ [k]) s'.
Proof.
  intros Hkf Hkt Hk Hm Ho Hn. pose proof (mid_frame _ _ _ _ Hm) as Hf.
  assert (interface s = interface s0) as Hi by by rewrite Hf.
  assert (cur (peers (interface s0)) (peers to) P k = Some old) as Hcur
    by (unfold cur; by rewrite decide_False).
  unfold notify_update, act_bind, act_get, act_modify, act_ret. rewrite Hi, Ho, Hn.
  match goal with |- context [let '(res, ld) := ?x in _] => set (u := x) end.
  assert (∀ l, u.2 = Some l → ∃ l0, link_detection s = Some l0 ∧
    ∀ k', link_stats <$> link_peers l !! k' = link_stats <$> link_peers l0 !! k') as Hu.
  { unfold u. destruct (link_detection s) as [l0|]; [|done]. intros l.
    pose proof (ld_update_stats now (stats_heap s) k (peer_ip_addresses new) reason (ip_stack s) l0) as Hs.
    destruct (ld_update _ _ _ _ _ _ _) as [r l1]. intros [= <-]. eauto. }
  destruct u as [res ld]. cbn [snd] in Hu.
  assert (∃ evs, act_when (negb (is_same_event old new) ||
        negb (bool_decide (peer_node_state old = peer_node_state new)) || should_notify res)
      (send_event (peer_node_state new) (link_state res) new (Some old)) (with_link_detection ld s) =
      (Ok tt, with_event (mkChan true (chan_sent (event s) ++ evs)) (with_link_detection ld s)) ∧
      (evs = [] ∧ observed old = observed new ∨ ∀ v, fold_left view_event evs v = <[k := observed new]> v))
    as (evs & Hsend & Hv).
  { unfold act_when. destruct (_ || _ || _) eqn:Hc.
    - edestruct send_event_open as [ls ->]; [exact (mid_open _ _ _ _ Hm)|]. eexists [_]. split; [done|].
      right. intros v. simpl. unfold view_event, observed, peer_node_state. simpl.
      rewrite (Hkt k new Hn). by destruct (is_connected new).
    - exists []. rewrite app_nil_r. split.
      + pose proof (mid_open _ _ _ _ Hm) as Hop. destruct s as [? ? ? [op sent]]; simpl in *. by subst op.
      + left. split; [done|]. apply orb_false_elim in Hc as [[Hc1 Hc2]%orb_false_elim _].
        apply negb_false_iff in Hc1, Hc2. unfold is_same_event in Hc1. unfold observed.
        rewrite !andb_true_iff, !bool_decide_eq_true in *. naive_solver congruence. }
  rewrite Hsend. eexists. split; [done|]. apply (mid_step s0 (peers to) P k s); try done.
  - intros v. rewrite Hn. simpl. split.
    + intros k' ?. destruct Hv as [[-> _]|Hv]; [done|]. by rewrite Hv, lookup_insert_ne.
    + destruct Hv as [[-> E]|Hv]; [|by rewrite Hv, lookup_insert_eq].
      simpl. rewrite (mid_view _ _ _ _ Hm), Hcur. simpl. by rewrite E.
  - intros l ->. destruct (Hu l eq_refl) as (l0 & E0 & Hs). exists l0. split; [done|].
    destruct (mid_link _ _ _ _ Hm l0 E0) as [Hd Hst]. split_and!; [auto| |].
    + rewrite <-(fmap_is_Some link_stats), Hs, fmap_is_Some, Hd, Hcur, Hn. by split.
    + intros p Hp. specialize (Hs k). rewrite Hp in Hs. symmetry in Hs.
      apply fmap_Some in Hs as (p0 & Hp0 & ->). apply Hst; [done|by rewrite Hn].
Qed.

(** One loop over keys that are not done yet *)
Lemma mid_loop (f : PublicKey → act (State A) Error unit) s0 to P l s :
  NoDup l → (∀ k, k ∈ l → k ∉ P) → mid s0 to P s →
  (∀ k P s, k ∈ l → k ∉ P → mid s0 to P s →
    ∃ s', f k s = (Ok tt, s') ∧ mid s0 to (P ++ [k]) s') →
  ∃ s', act_for l f s = (Ok tt, s') ∧ mid s0 to (P ++ l) s'.
Proof.
  intros Hd Hn Hm Hf. apply (act_for_ok (λ l s, mid s0 to (P ++ l) s)); [by rewrite app_nil_r|].
  intros l1 k l2 s1 -> Hm1. apply NoDup_app in Hd as (_ & Hl1 & _). rewrite app_assoc.
  apply Hf; [set_solver| |done]. rewrite not_elem_of_app. split; [set_solver|].
  intros Hk. apply (Hl1 k Hk). set_solver.
Qed.

Lemma notifications_mid `{!HashOrderLaws PublicKey} now reason s0 (to : Interface) s :
  keyed (peers (interface s0)) → keyed (peers to) → mid s0 (peers to) [] s →
  (∀ k, is_Some (peers to !! k) → is_Some (stats s0 !! k)) →
  ∃ P s', update_send_notification_events now to (update_calculate_changes to s0) reason s =
      (Ok tt, s') ∧ mid s0 (peers to) P s' ∧
      ∀ k, cur (peers (interface s0)) (peers to) P k = peers to !! k.
Proof.
  intros Hkf Hkt Hm Hst. unfold update_send_notification_events, update_calculate_changes.
  cbn [delete_keys insert_keys update_keys]. set (from := peers (interface s0)) in *.
  set (D := hash_iter (dom from ∖ dom (peers to))). set (I := hash_iter (dom (peers to) ∖ dom from)).
  set (U := hash_iter (dom from ∩ dom (peers to))).
  assert (∀ k, k ∈ D ↔ is_Some (from !! k) ∧ peers to !! k = None) as HD.
  { intros k. unfold D. rewrite elem_of_hash_iter, elem_of_difference, not_elem_of_dom, elem_of_dom. done. }
  assert (∀ k, k ∈ I ↔ is_Some (peers to !! k) ∧ from !! k = None) as HI.
  { intros k. unfold I. rewrite elem_of_hash_iter, elem_of_difference, not_elem_of_dom, elem_of_dom. done. }
  assert (∀ k, k ∈ U ↔ is_Some (from !! k) ∧ is_Some (peers to !! k)) as HU.
  { intros k. unfold U. by rewrite elem_of_hash_iter, elem_of_intersection, !elem_of_dom. }
  destruct (mid_loop notify_disconnect s0 (peers to) [] D s) as (s1 & E1 & Hm1);
    [apply NoDup_hash_iter|set_solver|done| |].
  { intros k P s1 [[p Hp] Hto]%HD HP Hm1. by eapply notify_disconnect_mid. }
  destruct (mid_loop (notify_connect now to) s0 (peers to) ([] ++ D) I s1) as (s2 & E2 & Hm2);
    [apply NoDup_hash_iter|intros k [[? E] _]%HI [_ E']%HD; congruence|done| |].
  { intros k P s2 [[p Hp] Hto]%HI HP Hm2. destruct (Hst k ltac:(eauto)). by eapply notify_connect_mid. }
  destruct (mid_loop (notify_update now to reason) s0 (peers to) (([] ++ D) ++ I) U s2) as (s3 & E3 & Hm3);
    [apply NoDup_hash_iter| |done| |].
  { intros k [[? Ef] [? Et]]%HU [[_ E]%HD|[_ E]%HI]%elem_of_app; congruence. }
  { intros k P s3 [[p Hp] [q Hq]]%HU HP Hm3. by eapply notify_update_mid. }
  exists (([] ++ D) ++ I ++ U), s3. rewrite app_assoc.
  unfold act_bind. rewrite E1, E2, E3. split_and!; [done..|].
  intros k. unfold cur. case_decide as Hin; [done|].
  simpl in Hin. rewrite !elem_of_app, HD, HI, HU in Hin.
  destruct (from !! k), (peers to !! k); [exfalso..|done]; apply Hin; eauto 6.
Qed.
End notifications.

Section updates.
Context `{IpNets} `{!HashOrder PublicKey} `{!HashOrderLaws PublicKey} {A : Type} `{!Adapter A}.
Implicit Types (s : State A) (to : Interface) (now : Instant).

(** ** The effect of [update] *)

(** The endpoint stamp of a peer *)
Definition stamp now reason (old : option Peer) (p : Peer) : Peer :=
  if decide (old ≫= endpoint = endpoint p) then p
  else set_endpoint_changed_at (Some (now, reason)) p.

Lemma timestamps_spec now reason s to :
  ∃ m, update_endpoint_change_timestamps now (update_calculate_changes to s) reason s to =
      set_peers m to ∧
    ∀ k, m !! k = stamp now reason (peers (interface s) !! k) <$> peers to !! k.
Proof.
  unfold update_endpoint_change_timestamps. set (d := update_calculate_changes to s).
  set (L := hash_iter (insert_keys d) ++ hash_iter (update_keys d)).
  assert (∀ k, is_Some (peers to !! k) → k ∈ L) as HL.
  { intros k Hk. unfold L. rewrite elem_of_app, !elem_of_hash_iter. unfold d. simpl.
    rewrite <-elem_of_dom in Hk. destruct (decide (k ∈ dom (peers (interface s)))); set_solver. }
  match goal with |- context [fold_left ?f L to] => set (step := f) end.
  assert (∃ m, fold_left step L to = set_peers m to ∧ ∀ k, m !! k =
    (if decide (k ∈ L) then stamp now reason (peers (interface s) !! k) else id) <$> peers to !! k)
    as (m & -> & Hm).
  { clear HL. induction L as [|key L IH] using rev_ind.
    { exists (peers to). split; [by destruct to|]. intros k. simpl. by destruct (peers to !! k). }
    destruct IH as (m & E & Hm). rewrite fold_left_app, E. cbn [fold_left]. unfold step at 1.
    cbn [peers set_peers].
    assert (m !! key ≫= endpoint = peers to !! key ≫= endpoint) as He.
    { rewrite Hm. destruct (peers to !! key); [|done]. simpl. unfold stamp. by repeat case_decide. }
    rewrite He. assert (∀ k, k ≠ key → (k ∈ L ++ [key]) ↔ k ∈ L) as Hne by set_solver.
    case_bool_decide as Hd; simpl; eexists; (split; [done|]); intros k;
      (destruct (decide (k = key)) as [->|Hk];
       [|rewrite ?lookup_alter_ne by done; by rewrite Hm, (decide_ext _ _ _ _ (Hne k Hk))]);
      rewrite (decide_True (P:=key ∈ L ++ [key])) by set_solver; rewrite ?lookup_alter_eq, Hm;
      destruct (peers to !! key) as [p|]; simpl in *; try done; f_equal; unfold stamp, id;
      destruct (decide (key ∈ L)); repeat case_decide; done || by destruct p. }
  exists m. split; [done|]. intros k. rewrite Hm. destruct (peers to !! k) eqn:E; [|done].
  by rewrite decide_True by eauto.
Qed.

(** The interface that [update] compares with its own; [cell k] are the
    counters of [k] after the sample. *)
Definition prepared now (cell : PublicKey → option BytesAndTimestamps)
    (from : gmap PublicKey Peer) to : Interface :=
  set_peers (map_imap (λ k p, Some (restore_peer (from !! k)
    (set_time_since_last_rx (since_last_rx now (cell k)) p))) (peers to)) to.

(** The interface that [update] leaves *)
Definition settle now reason (cell : PublicKey → option BytesAndTimestamps)
    (from : gmap PublicKey Peer) to : Interface :=
  let to := prepared now cell from to in
  set_peers (map_imap (λ k p, Some (stamp now reason (from !! k) p)) (peers to)) to.

(** The invariant of the task *)
Record wg_inv s : Prop := {
  inv_open : chan_open (event s) = true;
  inv_keyed : keyed (peers (interface s));
  inv_cells : cells_ok (stats s) (stats_heap s);
  inv_dom : dom (stats s) = dom (peers (interface s));
  inv_view k : view (chan_sent (event s)) !! k = observed <$> peers (interface s) !! k;
  inv_link ld : link_detection s = Some ld →
    (∀ k, is_Some (link_peers ld !! k) ↔ is_Some (peers (interface s) !! k)) ∧
    (∀ k p, link_peers ld !! k = Some p → stats s !! k = Some (link_stats p))
}.

(** The parts of the state that the invariant does not read *)
Definition same_core s s' : Prop :=
  event s' = event s ∧ interface s' = interface s ∧ stats s' = stats s ∧
  stats_heap s' = stats_heap s ∧ link_detection s' = link_detection s.

Lemma wg_inv_core s s' : same_core s s' → wg_inv s → wg_inv s'.
Proof.
  intros (He & Hi & Hs & Hh & Hl) [].
  split; rewrite ?He, ?Hi, ?Hs, ?Hh, ?Hl; auto. all: by rewrite ?Hi, ?Hs.
Qed.

Lemma uapi_request_core cmd s : same_core s (uapi_request cmd s).2.
Proof. unfold uapi_request. destruct (send_uapi_cmd _ _) as [[r|e] a]; [|done]. by case_match. Qed.

Lemma restart_interval_core now reason s : same_core s (restart_interval now reason s).
Proof. by destruct reason. Qed.

Lemma keyed_imap (f : PublicKey → Peer → Peer) (m : gmap PublicKey Peer) :
  (∀ k p, public_key (f k p) = public_key p) → keyed m → keyed (map_imap (λ k p, Some (f k p)) m).
Proof.
  intros Hf Hm k p. rewrite map_lookup_imap. destruct (m !! k) as [q|] eqn:E; [|done].
  intros [= <-]. rewrite Hf. by apply Hm.
Qed.

Lemma restore_key o d p :
  public_key (restore_peer o (set_time_since_last_rx d p)) = public_key p.
Proof. unfold restore_peer. repeat case_match; done. Qed.

Lemma stamp_key now reason o p : public_key (stamp now reason o p) = public_key p.
Proof. unfold stamp. by case_decide. Qed.

Lemma is_same_interface_dom (lhs rhs : Interface) :
  is_same_interface lhs rhs = true → dom (peers lhs) = dom (peers rhs).
Proof.
  unfold is_same_interface. case_match; [done|]. intros [Hall Hsz]%andb_true_iff.
  apply Nat.eqb_eq in Hsz. assert (dom (peers lhs) ⊆ dom (peers rhs)) as Hsub.
  { intros k [p Hp]%elem_of_dom. apply elem_of_dom. rewrite forallb_forall in Hall.
    specialize (Hall (k, p)). rewrite <-list_elem_of_In, elem_of_btree_iter in Hall.
    specialize (Hall Hp). simpl in Hall. by destruct (peers rhs !! k). }
  apply leibniz_equiv, set_subseteq_size_equiv; [done|]. rewrite !size_dom. lia.
Qed.

(** A successful push: the adapter took the command that turns [from] into
    [to]. *)
Definition pushed (reason : UpdateReason) (b : bool) (cmd : Cmd) (a a' : A) : Prop :=
  reason = Push → b = true → ∃ r, send_uapi_cmd cmd a = (Ok r, a') ∧ errno r = 0%Z.

Lemma write_device_core to d reason s :
  ∃ b s', write_device to d reason s = (Ok b, s') ∧ same_core s s' ∧
    pushed reason b (CmdSet (update_construct_set_device to d s)) (adapter s) (adapter s').
Proof.
  unfold write_device, pushed. destruct reason; [|by eexists _, _].
  set (c := CmdSet _). pose proof (uapi_request_core c s) as Hc. revert Hc. unfold uapi_request.
  destruct (send_uapi_cmd c (adapter s)) as [[r|e] a']; [|by eexists _, _].
  case_match; eexists _, _; (split; [done|]); (split; [done|]); intros _ Hb; [done|].
  exists r. split; [done|]. by apply Z.eqb_eq.
Qed.

(** Refreshing the counters of the peers that are there already *)
Lemma with_stats_inv s st h :
  wg_inv s → cells_ok st h → dom st = dom (peers (interface s)) →
  (∀ k l, stats s !! k = Some l → is_Some (peers (interface s) !! k) → st !! k = Some l) →
  wg_inv (with_stats st h s).
Proof.
  intros [] Hok Hdom Hkeep. split; try done.
  cbn [link_detection with_stats interface stats]. intros ld Hld.
  destruct (inv_link0 ld Hld) as [Hl1 Hl2]. split; [done|]. intros k q Hq.
  apply Hkeep; [by apply Hl2|]. apply Hl1. by eexists.
Qed.

(** The second half of [update], from the state [s] of the counters on *)
Lemma commit_spec now to reason s :
  chan_open (event s) = true → keyed (peers (interface s)) → keyed (peers to) →
  cells_ok (stats s) (stats_heap s) → dom (stats s) = dom (peers to) →
  (∀ k, view (chan_sent (event s)) !! k = observed <$> peers (interface s) !! k) →
  (∀ ld, link_detection s = Some ld →
    (∀ k, is_Some (link_peers ld !! k) ↔ is_Some (peers (interface s) !! k)) ∧
    (∀ k p, link_peers ld !! k = Some p → is_Some (peers to !! k) → stats s !! k = Some (link_stats p))) →
  let d := update_calculate_changes to s in
  ∃ b s', act_bind (update_send_notification_events now to d reason) (λ _,
      act_bind (write_device to d reason) (λ b, act_bind (act_modify (send_analytics now d to))
        (λ _, act_bind (act_modify (with_interface to)) (λ _, act_ret b)))) s = (Ok b, s') ∧
    wg_inv s' ∧ interface s' = to ∧ stats s' = stats s ∧ stats_heap s' = stats_heap s ∧
    pushed reason b (CmdSet (update_construct_set_device to d s)) (adapter s) (adapter s').
Proof.
  intros Ho Hkf Hkt Hok Hdom Hv Hl d.
  destruct (notifications_mid now reason s to s) as (P & s1 & E1 & Hm & HP); try done.
  { split; [by destruct s|done|done|done]. }
  { intros k. by rewrite <-!elem_of_dom, Hdom. }
  destruct (write_device_core to d reason s1) as (b & s2 & E2 & (He & Hi & Hs & Hh & Hld) & Hpush).
  fold d in E1. exists b. unfold act_bind, act_modify, act_ret. rewrite E1, E2. eexists. split; [done|].
  destruct Hm as [Hf Hop Hmv Hml].
  assert (stats s1 = stats s) as Hs1 by by rewrite Hf.
  assert (stats_heap s1 = stats_heap s) as Hh1 by by rewrite Hf.
  assert (adapter s1 = adapter s) as Ha1 by by rewrite Hf.
  assert (interface s1 = interface s) as Hi1 by by rewrite Hf.
  assert (update_construct_set_device to d s1 = update_construct_set_device to d s) as Hc
    by (unfold update_construct_set_device; by rewrite Hi1).
  split; [|split_and!; [done|simpl; congruence..|simpl; by rewrite <-Hc, <-Ha1]].
  split; simpl; rewrite ?He, ?Hs, ?Hh, ?Hs1, ?Hh1; try done.
  - intros k. by rewrite Hmv, HP.
  - rewrite Hld. intros ld Hld'. destruct (Hml ld Hld') as [Hl1 Hl2]. split.
    + intros k. by rewrite Hl1, HP.
    + intros k p Hp. apply Hl2; [done|]. rewrite <-HP, <-Hl1. by eexists.
Qed.

(** Both ends of [update]: the same interface again, or the new one settled,
    with the invariant kept *)
Lemma update_spec now to reason s :
  wg_inv s → keyed (peers to) →
  ∃ st h r s', update now to reason s = (r, s') ∧ wg_inv s' ∧
    stats s' = st ∧ stats_heap s' = h ∧
    (∀ k p, peers to !! k = Some p →
      cell_of st h k = Some (sampled now (cell_of (stats s) (stats_heap s) k) p)) ∧
    (is_same_interface (interface s) (prepared now (cell_of st h) (peers (interface s)) to) = true ∧
       (∃ e, r = Err e) ∧ interface s' = interface s ∧ event s' = event s ∨
     is_same_interface (interface s) (prepared now (cell_of st h) (peers (interface s)) to) = false ∧
       (∃ b, r = Ok b ∧ pushed reason b
          (CmdSet (update_construct_set_device (interface s')
             (update_calculate_changes (interface s') s) s)) (adapter s) (adapter s')) ∧
       interface s' = settle now reason (cell_of st h) (peers (interface s)) to).
Proof.
  intros Hinv Hkt. unfold update, act_bind at 1, act_modify at 1.
  pose proof (restart_interval_core now reason s) as Hcore.
  pose proof (wg_inv_core _ _ Hcore Hinv) as Hinv0. destruct Hcore as (He0 & Hi0 & Hs0 & Hh0 & _).
  assert (adapter (restart_interval now reason s) = adapter s) as Ha0 by by destruct reason.
  set (s0 := restart_interval now reason s) in *. clearbody s0.
  destruct (prepare_spec now to s0 (inv_cells _ Hinv0)) as (st & h & E & Hok & Hdom & Hkeep & Hcell).
  assert (∀ f, update_construct_set_device f (update_calculate_changes f s) s =
    update_construct_set_device f (update_calculate_changes f s0) s0) as Hcmd
    by (intros f; unfold update_construct_set_device, update_calculate_changes; by rewrite Hi0).
  setoid_rewrite Hcmd. rewrite <-Hi0, <-Hs0, <-Hh0, <-Ha0, <-He0.
  clear s Hinv Hi0 Hs0 Hh0 Ha0 He0 Hcmd.
  set (p := prepared now (cell_of st h) (peers (interface s0)) to).
  assert (keyed (peers p)) as Hkp.
  { apply keyed_imap; [|done]. intros. apply restore_key. }
  assert (dom (peers p) = dom (peers to)) as Hdp.
  { apply set_eq. intros k. rewrite !elem_of_dom. unfold p, prepared. cbn [peers set_peers].
    rewrite map_lookup_imap. by destruct (peers to !! k). }
  assert (prepare now to s0 = (p, with_stats st h s0)) as E' by exact E. clear E.
  unfold act_bind at 1. rewrite E'. unfold act_bind at 1, act_get.
  set (s1 := with_stats st h s0). cbn [interface with_stats s1]. exists st, h.
  destruct (is_same_interface (interface s0) p) eqn:Hsame.
  - eexists _, s1. split; [done|]. apply is_same_interface_dom in Hsame as Hd.
    split; [|split_and!; [done..|left; eauto]]. apply with_stats_inv; [done..|congruence|].
    intros k l Hl Hk. apply Hkeep; [done|]. rewrite <-elem_of_dom in *. congruence.
  - destruct (timestamps_spec now reason s1 p) as (m & Em & Hm).
    assert (set_peers m p = settle now reason (cell_of st h) (peers (interface s0)) to) as Hset.
    { unfold settle. fold p. f_equal. apply map_eq. intros k. rewrite Hm, map_lookup_imap.
      by destruct (peers p !! k). }
    rewrite Em, Hset. set (f := settle _ _ _ _ _) in *.
    assert (dom (peers p) = dom (peers f)) as Hdf.
    { subst f. rewrite <-Hset. apply set_eq. intros k. rewrite !elem_of_dom. cbn [peers set_peers].
      by rewrite Hm, fmap_is_Some. }
    assert (update_calculate_changes p s1 = update_calculate_changes f s1) as ->.
    { unfold update_calculate_changes. by rewrite Hdf. }
    destruct (commit_spec now f reason s1) as (b & s' & E'' & Hinv & Hi & Hs & Hh & Hp).
    + apply Hinv0.
    + apply Hinv0.
    + subst f. rewrite <-Hset. intros k q. cbn [peers set_peers]. rewrite Hm.
      intros (q0 & Hq0 & ->)%fmap_Some. rewrite stamp_key. by apply Hkp.
    + done.
    + by rewrite <-Hdf, Hdp.
    + apply Hinv0.
    + intros ld Hld. destruct (inv_link _ Hinv0 ld Hld) as [Hl1 Hl2]. split; [done|].
      intros k q Hq Hk. apply Hkeep; [by apply Hl2|]. rewrite <-elem_of_dom in *. congruence.
    + exists (Ok b), s'. split; [done|]. split; [done|]. split_and!; [done..|right].
      rewrite Hi. eauto 6.
Qed.

(** ** Requests *)

(** What the controller configures of a peer *)
Definition config (p : Peer) : PublicKey * option SocketAddr * option Z * list IpNet * option PresharedKey :=
  (public_key p, endpoint p, persistent_keepalive_interval p, allowed_ips p, preshared_key p).

Lemma is_same_peer_config (p q : Peer) : is_same_peer p q = true → config p = config q.
Proof.
  unfold is_same_peer, config. rewrite !andb_true_iff, !bool_decide_eq_true.
  intros ((((((((? & ?) & ?) & ?) & ?) & ?) & ?) & ?) & ?). congruence.
Qed.

Lemma is_same_interface_config (lhs rhs : Interface) k :
  is_same_interface lhs rhs = true → config <$> peers lhs !! k = config <$> peers rhs !! k.
Proof.
  intros Hsame. pose proof (is_same_interface_dom _ _ Hsame) as Hdom. revert Hsame.
  unfold is_same_interface. case_match; [done|]. intros [Hall _]%andb_true_iff.
  destruct (peers lhs !! k) as [p|] eqn:Hp.
  - rewrite forallb_forall in Hall. specialize (Hall (k, p)).
    rewrite <-list_elem_of_In, elem_of_btree_iter in Hall. specialize (Hall Hp). simpl in Hall.
    destruct (peers rhs !! k) as [q|]; [|done]. simpl. f_equal. by apply is_same_peer_config.
  - apply not_elem_of_dom in Hp. rewrite Hdom in Hp. apply not_elem_of_dom in Hp. by rewrite Hp.
Qed.

Lemma prepared_config now cell from to k :
  config <$> peers (prepared now cell from to) !! k = config <$> peers to !! k.
Proof.
  unfold prepared. cbn [peers set_peers]. rewrite map_lookup_imap. destruct (peers to !! k); [|done].
  simpl. f_equal. unfold restore_peer. by repeat case_match.
Qed.

Lemma is_same_interface_prepared now cell (i : Interface) :
  is_same_interface i (prepared now cell (peers i) i) = true.
Proof.
  unfold is_same_interface, prepared. cbn [private_key listen_port proxy_listen_port fwmark peers set_peers].
  rewrite !bool_decide_eq_true_2, Z.eqb_refl by done. simpl. apply andb_true_iff. split.
  - apply forallb_forall. intros [k p] Hin%list_elem_of_In%elem_of_btree_iter. simpl.
    rewrite map_lookup_imap, Hin. simpl. unfold is_same_peer, restore_peer.
    destruct p as [? ? ? l]; simpl. destruct l; simpl; by rewrite !bool_decide_eq_true_2.
  - apply Nat.eqb_eq. rewrite <-!size_dom. f_equal. apply set_eq. intros k. rewrite !elem_of_dom.
    rewrite map_lookup_imap. by destruct (peers i !! k).
Qed.

Lemma settle_config now reason cell from to k :
  config <$> peers (settle now reason cell from to) !! k = config <$> peers to !! k.
Proof.
  rewrite <-(prepared_config now cell from to). unfold settle. cbn [peers set_peers].
  rewrite map_lookup_imap. destruct (peers (prepared now cell from to) !! k); [|done].
  simpl. f_equal. unfold stamp. by case_decide.
Qed.

(** Whatever [update] returns, the interface it leaves is configured as
    requested. *)
Lemma update_config now to reason s k :
  wg_inv s → keyed (peers to) →
  config <$> peers (interface (update now to reason s).2) !! k = config <$> peers to !! k.
Proof.
  intros Hinv Hkt.
  destruct (update_spec now to reason s Hinv Hkt) as (st & h & r & s' & -> & _ & _ & _ & _ & Hcases).
  simpl. destruct Hcases as [(Hsame & _ & -> & _)|(_ & _ & ->)]; [|apply settle_config].
  rewrite <-(prepared_config now (cell_of st h) (peers (interface s)) to).
  by apply is_same_interface_config.
Qed.

Lemma update_inv now to reason s :
  wg_inv s → keyed (peers to) → wg_inv (update now to reason s).2.
Proof.
  intros Hinv Hkt.
  by destruct (update_spec now to reason s Hinv Hkt) as (st & h & r & s' & -> & Hinv' & _).
Qed.

Lemma merge_peer_key old p : public_key (merge_peer old p) = public_key p.
Proof. unfold merge_peer. repeat case_match; done. Qed.

Lemma keyed_insert (m : gmap PublicKey Peer) p : keyed m → keyed (<[public_key p := p]> m).
Proof. intros Hm k q [[<- <-]|[_ Hq]]%lookup_insert_Some; [done|by apply Hm]. Qed.

Lemma keyed_delete (m : gmap PublicKey Peer) k : keyed m → keyed (delete k m).
Proof. intros Hm k' q [_ Hq]%lookup_delete_Some. by apply Hm. Qed.

(** The test of [add_peer] finds exactly the allowed IPs held by another peer. *)
Lemma has_duplicate_spec p (i : Interface) :
  keyed (peers i) →
  has_duplicate_allowed_ips p i = true ↔
  ∃ k q ip, peers i !! k = Some q ∧ k ≠ public_key p ∧ ip ∈ allowed_ips p ∧ ip ∈ allowed_ips q.
Proof.
  intros Hk. unfold has_duplicate_allowed_ips. rewrite existsb_exists. split.
  - intros ([k q] & Hin & Hip). rewrite <-list_elem_of_In, list_elem_of_filter in Hin.
    destruct Hin as [Hne Hin%elem_of_btree_iter]. apply existsb_exists in Hip as (ip & Hip & Hq).
    apply bool_decide_eq_true in Hq. simpl in *. rewrite (Hk k q Hin) in Hne.
    exists k, q, ip. by rewrite list_elem_of_In.
  - intros (k & q & ip & Hq & Hne & Hip & Hqip). exists (k, q).
    rewrite <-list_elem_of_In, list_elem_of_filter, elem_of_btree_iter. simpl.
    rewrite (Hk k q Hq). split; [done|]. apply existsb_exists. exists ip.
    by rewrite <-list_elem_of_In, bool_decide_eq_true.
Qed.

(** What [add_peer] does *)
Lemma add_peer_spec now p s :
  wg_inv s →
  let '(r, s') := add_peer now p s in
  ((∃ k q ip, peers (interface s) !! k = Some q ∧ k ≠ public_key p ∧
      ip ∈ allowed_ips p ∧ ip ∈ allowed_ips q) →
    r = Err DuplicateAllowedIPsError ∧ s' = s) ∧
  (¬ (∃ k q ip, peers (interface s) !! k = Some q ∧ k ≠ public_key p ∧
      ip ∈ allowed_ips p ∧ ip ∈ allowed_ips q) →
    r = Ok tt ∧
    config <$> peers (interface s') !! public_key p =
      Some (public_key p, endpoint p, Some (default 0%Z (persistent_keepalive_interval p)),
            allowed_ips p, preshared_key p) ∧
    ∀ k, k ≠ public_key p →
      config <$> peers (interface s') !! k = config <$> peers (interface s) !! k).
Proof.
  intros Hinv. pose proof (inv_keyed _ Hinv) as Hk.
  pose proof (has_duplicate_spec p _ Hk) as Hdup. unfold add_peer, act_bind, act_get, act_fail.
  destruct (has_duplicate_allowed_ips p (interface s)).
  { split; [done|]. intros Hn. destruct Hn. by apply Hdup. }
  split; [intros Hd; by apply Hdup in Hd|]. intros _. clear Hdup.
  cbn [act_ignore]. set (m := merge_peer _ p).
  assert (public_key m = public_key p) as Hm by apply merge_peer_key.
  assert (keyed (peers (set_peers (<[public_key m := m]> (peers (interface s))) (interface s)))) as Hkt
    by by apply keyed_insert.
  split; [done|]. split.
  - rewrite update_config by done. cbn [peers set_peers]. rewrite Hm, lookup_insert_eq. simpl.
    unfold config. rewrite Hm. subst m. destruct p as [? ? ? ? [ka|]]; simpl;
      by destruct (peers (interface s) !! _).
  - intros k Hne. rewrite update_config by done. cbn [peers set_peers]. by rewrite Hm, lookup_insert_ne.
Qed.

Lemma add_peer_inv now p s : wg_inv s → wg_inv (add_peer now p s).2.
Proof.
  intros Hinv. unfold add_peer, act_bind, act_get. case_match; [done|]. apply update_inv; [done|].
  rewrite merge_peer_key. cbn [peers set_peers]. rewrite <-(merge_peer_key (peers (interface s) !! public_key p) p) at 1.
  by apply keyed_insert, inv_keyed.
Qed.

Lemma del_peer_inv now k s : wg_inv s → wg_inv (del_peer now k s).2.
Proof. intros Hinv. apply update_inv; [done|]. by apply keyed_delete, inv_keyed. Qed.

(** [del_peer] removes one peer. *)
Lemma del_peer_spec now key s k :
  wg_inv s → (del_peer now key s).1 = Ok tt ∧
  config <$> peers (interface (del_peer now key s).2) !! k =
    if decide (k = key) then None else config <$> peers (interface s) !! k.
Proof.
  intros Hinv. pose proof (inv_keyed _ Hinv) as Hk. split; [done|].
  unfold del_peer, act_bind, act_get, act_ignore. cbn [snd].
  rewrite update_config by (done || by apply keyed_delete). cbn [peers set_peers].
  case_decide as E; [subst; by rewrite lookup_delete_eq|by rewrite lookup_delete_ne].
Qed.

(** ** Histories *)

Inductive wg_op :=
| SetSecretKey (key : SecretKey)
| SetFwmark (mark : Z)
| AddPeer (p : Peer)
| DelPeer (k : PublicKey)
| DropConnectedSockets
| ResetExistingConnections (k : PublicKey) (ipv4 : Z)
| SetIpStack (i : option IpStack)
| Wait (ticked : Instant).

Definition wg_exec now (o : wg_op) s : State A :=
  match o with
  | SetSecretKey key => (set_secret_key now key s).2
  | SetFwmark m => (set_fwmark now m s).2
  | AddPeer p => (add_peer now p s).2
  | DelPeer k => (del_peer now k s).2
  | DropConnectedSockets => (drop_connected_sockets s).2
  | ResetExistingConnections k ip => (reset_existing_connections k ip s).2
  | SetIpStack i => (set_ip_stack i s).2
  | Wait ticked => (wait now ticked s).2
  end.

(** The states of a task whose event channel has a receiver *)
Inductive wg_reach : State A → Prop :=
| reach_start now a started an lt ld period after :
    wg_reach (start_with now a started (mkChan true []) an lt ld period after)
| reach_step now o s : wg_reach s → wg_reach (wg_exec now o s).

(** An adapter lists every peer under its own key, as [response_from_read] and
    the conversion of [get::Device] do. *)
Definition adapter_keyed : Prop :=
  ∀ (a a' : A) r i, send_uapi_cmd CmdGet a = (Ok r, a') → response_interface r = Some i →
    keyed (peers i).

Lemma sync_inv now s : adapter_keyed → wg_inv s → wg_inv (sync now s).2.
Proof.
  intros Ha Hinv. unfold sync, act_bind. pose proof (uapi_request_core CmdGet s) as Hc.
  destruct (uapi_request CmdGet s) as [[r|e] s'] eqn:E; [|by eapply wg_inv_core].
  apply (wg_inv_core s s' Hc) in Hinv. destruct (response_interface r) as [i|] eqn:Er; [|done].
  apply update_inv; [done|]. revert E. unfold uapi_request.
  destruct (send_uapi_cmd CmdGet (adapter s)) as [[r'|e] a'] eqn:Ea; [|done].
  case_match; [done|]. intros [= -> _]. by eapply Ha.
Qed.

Lemma wg_exec_inv now o s : adapter_keyed → wg_inv s → wg_inv (wg_exec now o s).
Proof.
  intros Ha Hinv. pose proof (inv_keyed _ Hinv) as Hk.
  destruct o; simpl; try (by apply update_inv); try (by eapply wg_inv_core; [|done]).
  - by apply add_peer_inv.
  - by apply del_peer_inv.
  - apply sync_inv; [done|]. eapply wg_inv_core; [|done]. unfold wait_interval. by case_match.
Qed.

Lemma wg_reach_inv s : adapter_keyed → wg_reach s → wg_inv s.
Proof.
  intros Ha. induction 1 as [now a started an lt ld period after|now o s _ IH];
    [|by apply wg_exec_inv].
  split; try done. simpl. intros l Hl. apply fmap_Some in Hl as (cfg & _ & ->). simpl. split.
  - intros k. rewrite !lookup_empty, !is_Some_alt. done.
  - intros k p Hp. by rewrite lookup_empty in Hp.
Qed.
End updates.

(** ** Theorems *)

Section theorems.
Context `{IpNets} `{!HashOrder PublicKey} `{!HashOrderLaws PublicKey} {A : Type} `{!Adapter A}.
Implicit Types (s : State A) (now : Instant).

(** C4: the events of the WireGuard task tell the whole story: in every
    reachable state a receiver that applies them has the state, the endpoint
    and the allowed IPs of exactly the peers of the interface.  Every peer has
    traffic counters, and link detection watches exactly the peers of the
    interface, through the same counters. *)
Theorem wg_task_invariant s :
  adapter_keyed (A:=A) → wg_reach s →
  view (chan_sent (event s)) = observed <$> peers (interface s) ∧
  dom (stats s) = dom (peers (interface s)) ∧
  ∀ ld, link_detection s = Some ld →
    dom (link_peers ld) = dom (peers (interface s)) ∧
    ∀ k p, link_peers ld !! k = Some p → stats s !! k = Some (link_stats p).
Proof.
  intros Ha [_ _ _ Hd Hv Hl]%wg_reach_inv; [|done]. split_and!; [|done|].
  - apply map_eq. intros k. by rewrite Hv, lookup_fmap.
  - intros ld Hld. destruct (Hl ld Hld) as [Hl1 Hl2]. split; [|done].
    apply set_eq. intros k. by rewrite !elem_of_dom.
Qed.

(** [add_peer] refuses a peer that shares an allowed IP with another one
    and then changes nothing; otherwise it leaves the interface configured
    with the new peer (a missing keepalive becomes zero) and every other peer
    as it was, even if the adapter rejects the command. *)
Theorem add_peer_configures now p s :
  adapter_keyed (A:=A) → wg_reach s →
  let '(r, s') := add_peer now p s in
  ((∃ k q ip, peers (interface s) !! k = Some q ∧ k ≠ public_key p ∧
      ip ∈ allowed_ips p ∧ ip ∈ allowed_ips q) →
    r = Err DuplicateAllowedIPsError ∧ s' = s) ∧
  (¬ (∃ k q ip, peers (interface s) !! k = Some q ∧ k ≠ public_key p ∧
      ip ∈ allowed_ips p ∧ ip ∈ allowed_ips q) →
    r = Ok tt ∧
    config <$> peers (interface s') !! public_key p =
      Some (public_key p, endpoint p, Some (default 0%Z (persistent_keepalive_interval p)),
            allowed_ips p, preshared_key p) ∧
    ∀ k, k ≠ public_key p →
      config <$> peers (interface s') !! k = config <$> peers (interface s) !! k).
Proof. intros Ha Hinv%wg_reach_inv; [|done]. by apply add_peer_spec. Qed.

(** A poll that brings nothing new ages nothing: whatever time has passed
    since the last packet, polling the same interface again leaves every peer
    with its [time_since_last_rx], and so its state, as they were, and sends no
    event. *)
Theorem unchanged_poll_keeps_states now s :
  adapter_keyed (A:=A) → wg_reach s →
  interface (update now (interface s) Pull s).2 = interface s ∧
  event (update now (interface s) Pull s).2 = event s.
Proof.
  intros Ha Hinv%wg_reach_inv; [|done].
  destruct (update_spec now (interface s) Pull s Hinv (inv_keyed _ Hinv))
    as (st & h & r & s' & -> & _ & _ & _ & _ & [(_ & _ & Hi & He)|(Hdiff & _)]); [done|].
  by rewrite is_same_interface_prepared in Hdiff.
Qed.
End theorems.

(** ** A run

    An adapter that lists fixed peers, and a task that polled it once *)
Module WgSamples.

#[local] Existing Instance AddrPrefix.nets.
#[local] Existing Instance elements_order.
#[local] Existing Instance elements_order_laws.

Definition fixed_adapter (l : list Peer) : Interface :=
  mkInterface None (Some 51820%Z) None 0 (list_to_map ((λ p, (public_key p, p)) <$> l)).

#[local] Instance FixedAdapter : Adapter (list Peer) := {|
  send_uapi_cmd cmd a :=
    match cmd with
    | CmdGet => (Ok (mkResponse 0 (Some (fixed_adapter a))), a)
    | CmdSet _ => (Ok (mkResponse 0 None), a)
    end;
  drop_sockets a := a;
  inject_reset_packets _ _ a := a
|}.

Lemma fixed_keyed : adapter_keyed (A:=list Peer).
Proof.
  intros a a' r i [= <- <-] [= <-] k p. cbn [peers fixed_adapter].
  intros Hp%elem_of_list_to_map_2. apply list_elem_of_fmap in Hp as (q & [= -> ->] & _). done.
Qed.

Definition key (n : Z) : PublicKey := mkPublicKey (replicate 32 n).

(** A peer with traffic *)
Definition alice : Peer :=
  set_tx_bytes (Some 300%Z) (set_rx_bytes (Some 200%Z)
    (set_allowed_ips [AddrPrefix.mkNet (V4 (ipv4_addr 100 64 0 10)) 32]
       (set_endpoint (Some (SocketAddrV4 (ipv4_addr 1 2 3 4) 5000)) (peer_default (key 1))))).

Definition bob : Peer :=
  set_allowed_ips [AddrPrefix.mkNet (V4 (ipv4_addr 100 64 0 11)) 32] (peer_default (key 2)).

Definition start : State (list Peer) :=
  start_with 0 [alice] false (mkChan true []) None None
    (Some (mkFeatureLinkDetection 15 0 true)) (from_secs 1) (from_millis 50).

Definition polled : State (list Peer) := wg_exec (from_secs 1) (Wait (from_secs 1)) start.

Lemma polled_reach : wg_reach polled.
Proof. apply reach_step, reach_start. Qed.

Lemma wg_task_invariant_witness :
  view (chan_sent (event polled)) !! key 1 =
    Some (Connected, endpoint alice, allowed_ips alice).
Proof.
  destruct (wg_task_invariant polled fixed_keyed polled_reach) as [-> _].
  vm_compute. reflexivity.
Defined.

Lemma add_peer_configures_witness :
  config <$> peers (interface (add_peer (from_secs 2) bob polled).2) !! key 2 =
    Some (key 2, None, Some 0%Z, allowed_ips bob, None).
Proof.
  pose proof (add_peer_configures (from_secs 2) bob polled fixed_keyed polled_reach) as Hadd.
  destruct (add_peer (from_secs 2) bob polled) as [r s']. destruct Hadd as [_ Hadd].
  apply Hadd. intros (k & q & ip & Hq & Hk & Hip & Hip').
  apply list_elem_of_singleton in Hip as ->.
  assert (peers (interface polled) = {[ key 1 := default alice (peers (interface polled) !! key 1) ]})
    as E by (vm_compute; reflexivity).
  rewrite E in Hq. apply lookup_singleton_Some in Hq as [<- <-].
  revert Hip'. apply (bool_decide_unpack _). vm_compute. reflexivity.
Defined.

(** A minute of silence past the limit, the peer still counts as connected. *)
Lemma unchanged_poll_keeps_states_witness :
  is_connected <$>
    peers (interface (update (from_secs 300) (interface polled) Pull polled).2) !! key 1 = Some true ∧
  stats_time_since_last_rx (from_secs 300) (stats polled) (stats_heap polled) (key 1) =
    Some (from_secs 299).
Proof.
  destruct (unchanged_poll_keeps_states (from_secs 300) polled fixed_keyed polled_reach) as [-> _].
  split; vm_compute; reflexivity.
Defined.
End WgSamples.
