(* ===== verification/WgDevice.v ===== *)
(** * What a push does to a WireGuard device

    The commands that [update] of [Wg] writes, run by a device that follows
    the cross-platform interface of WireGuard
    (https://www.wireguard.com/xplatform/), keep the device in agreement with
    the interface the task holds. *)

From S2P Require Import Prelude NetTypes WgTypes LinkDetection Wg WgProps.

Section device.
Context `{IpNets}.

(** A peer of the device; an allowed IP is a network address and its prefix
    length. *)
Record DevPeer := mkDevPeer {
  dev_endpoint : option SocketAddr;
  dev_keepalive : Z;
  dev_psk : option bytes;
  dev_allowed_ips : gset (StdIpAddr * Z)
}.

Definition nets_of (l : list AllowedIp) : gset (StdIpAddr * Z) :=
  list_to_set ((λ a, (ipaddr a, cidr_mask a)) <$> l).

(** The documented effect of the settings of a peer on that peer: [remove]
    removes it, [update_only] skips a peer that is not there, a setting that is
    not given stays as it is, an all-zero preshared key clears it and
    [replace_allowed_ips] drops the allowed IPs before the new ones are added. *)
Definition xplatform_peer (sp : SetPeer) (o : option DevPeer) : option DevPeer :=
  if bool_decide (set_remove sp = Some true) then None
  else if bool_decide (set_update_only sp = Some true ∧ o = None) then None
  else
    let d := default (mkDevPeer None 0 None ∅) o in
    Some (mkDevPeer
      (match set_peer_endpoint sp with Some e => Some e | None => dev_endpoint d end)
      (default (dev_keepalive d) (set_persistent_keepalive sp))
      (match set_psk sp with
       | Some k => if bool_decide (k = replicate KEY_SIZE 0%Z) then None else Some k
       | None => dev_psk d
       end)
      ((if bool_decide (set_replace_allowed_ips sp = Some true) then ∅ else dev_allowed_ips d) ∪
       nets_of (set_peer_allowed_ips sp))).

(** All the settings of a command that name the peer [k], in order *)
Definition xplatform_set (sd : SetDevice) (k : PublicKey) (o : option DevPeer) : option DevPeer :=
  fold_left (λ o sp, if bool_decide (set_public_key sp = key_bytes k) then xplatform_peer sp o else o)
    (set_dev_peers sd) o.

(** No allowed IP of a command belongs to two peers, in the command or with the
    device: the device would take it from one of them. *)
Definition no_overlap (sd : SetDevice) (m : gmap PublicKey DevPeer) : Prop :=
  ∀ sp k, sp ∈ set_dev_peers sd → set_public_key sp ≠ key_bytes k →
    (∀ dp, m !! k = Some dp → nets_of (set_peer_allowed_ips sp) ## dev_allowed_ips dp) ∧
    (∀ sp', sp' ∈ set_dev_peers sd → set_public_key sp' = key_bytes k →
      nets_of (set_peer_allowed_ips sp) ## nets_of (set_peer_allowed_ips sp')).

(** An adapter that drives a device *)
Class XplatformAdapter (A : Type) `{!Adapter A} := {
  dev_peers : A → gmap PublicKey DevPeer;
  dev_set sd a r a' : send_uapi_cmd (CmdSet sd) a = (Ok r, a') → errno r = 0%Z →
    no_overlap sd (dev_peers a) → ∀ k, dev_peers a' !! k = xplatform_set sd k (dev_peers a !! k)
}.

(** The device's view of a peer of the interface *)
Definition dev_of (p : Peer) : DevPeer :=
  mkDevPeer (endpoint p) (wrap 16 (default 0%Z (persistent_keepalive_interval p)))
    (preshared_bytes <$> preshared_key p)
    (list_to_set ((λ ip, (ipnet_network ip, ipnet_prefix_len ip)) <$> allowed_ips p)).

(** The device has the peers of the interface. *)
Definition agrees (m : gmap PublicKey DevPeer) (ps : gmap PublicKey Peer) : Prop :=
  m = dev_of <$> ps.

Definition nets (p : Peer) : gset (StdIpAddr * Z) := dev_allowed_ips (dev_of p).

(** What a command can express of the change from [from] to [to]: a keepalive
    for every peer, no endpoint and no preshared key taken away, no network of
    two peers. *)
Record expressible (from to : gmap PublicKey Peer) : Prop := {
  expr_keepalive k p : to !! k = Some p → is_Some (persistent_keepalive_interval p);
  expr_endpoint k p q : from !! k = Some p → to !! k = Some q →
    endpoint q = None → endpoint p = None;
  expr_psk k p q : from !! k = Some p → to !! k = Some q →
    preshared_key q = None → preshared_key p = None;
  expr_zero k q : to !! k = Some q → preshared_bytes <$> preshared_key q ≠ Some (replicate KEY_SIZE 0%Z);
  expr_nets k1 k2 p1 p2 : to !! k1 = Some p1 → to !! k2 = Some p2 ∨ from !! k2 = Some p2 →
    k1 ≠ k2 → nets p1 ## nets p2
}.

Lemma nets_of_set_peer uo ra p : nets_of (set_peer_allowed_ips (set_peer_of uo ra p)) = nets p.
Proof. unfold nets_of, set_peer_of, nets. simpl. by rewrite <-list_fmap_compose. Qed.

(** Writing one peer of the interface *)
Lemma xplatform_write from to k q :
  expressible from to → to !! k = Some q →
  xplatform_peer (set_peer_of (bool_decide (is_Some (from !! k)))
      (match from !! k with
       | Some p => negb (bool_decide (allowed_ips p = allowed_ips q)) | None => false end) q)
    (dev_of <$> from !! k) = Some (dev_of q).
Proof.
  intros Hx Hq. destruct (expr_keepalive _ _ Hx k q Hq) as [ka Hka].
  pose proof (expr_zero _ _ Hx k q Hq) as Hz.
  unfold xplatform_peer. rewrite bool_decide_eq_false_2 by done.
  rewrite bool_decide_eq_false_2
    by (intros [Hu Hn]; by destruct (from !! k)).
  rewrite nets_of_set_peer. unfold nets, set_peer_of, dev_of. simpl. rewrite Hka. simpl.
  f_equal. destruct (from !! k) as [p|] eqn:Hp; simpl.
  - f_equal.
    + destruct (endpoint q) eqn:E; [done|]. exact (expr_endpoint _ _ Hx k p q Hp Hq E).
    + destruct (preshared_key q) as [z|] eqn:E; simpl in *; [by rewrite bool_decide_eq_false_2 by congruence|].
      by rewrite (expr_psk _ _ Hx k p q Hp Hq E).
    + destruct (decide (allowed_ips p = allowed_ips q)) as [Ha|Ha];
        [rewrite (bool_decide_eq_true_2 _ Ha)|rewrite (bool_decide_eq_false_2 _ Ha)]; simpl.
      * by rewrite Ha, union_idemp_L.
      * by rewrite union_empty_l_L.
  - f_equal.
    + by destruct (endpoint q).
    + destruct (preshared_key q) as [z|]; simpl in *; [|done]. by rewrite bool_decide_eq_false_2 by congruence.
    + by rewrite union_empty_l_L.
Qed.

(** *** Whole commands *)

(** Settings of distinct peers act independently. *)
Lemma xplatform_set_assoc pk lp fm rp (L : list (PublicKey * SetPeer)) k o :
  NoDup L.*1 → (∀ k sp, (k, sp) ∈ L → set_public_key sp = key_bytes k) →
  xplatform_set (mkSetDevice pk lp fm rp L.*2) k o =
    match assoc k L with Some sp => xplatform_peer sp o | None => o end.
Proof.
  unfold xplatform_set. cbn [set_dev_peers]. revert o.
  induction L as [|[k' sp] L IH]; intros o; [done|]. csimpl. intros [Hn Hd]%NoDup_cons Hk.
  rewrite (Hk k' sp) by set_solver. case_decide as E.
  - subst. rewrite bool_decide_eq_true_2, IH by set_solver.
    by rewrite (proj2 (assoc_None k L)) by done.
  - rewrite bool_decide_eq_false_2 by (intros [=]; by destruct k, k'; simplify_eq/=).
    apply IH; set_solver.
Qed.

Context `{!HashOrder PublicKey} `{!HashOrderLaws PublicKey} {A : Type} `{!Adapter A}.
Implicit Types s : State A.

(** The command of a push, by peer *)
Definition command_peers (to : Interface) s : list (PublicKey * SetPeer) :=
  let d := update_calculate_changes to s in
  ((λ kp, (kp.1, set_peer_remove kp.1)) <$>
     filter (λ kp, kp.1 ∈ delete_keys d) (btree_iter (peers (interface s)))) ++
  ((λ kp, (kp.1, set_peer_of (bool_decide (kp.1 ∈ update_keys d))
     (match peers (interface s) !! kp.1 with
      | Some p => negb (bool_decide (allowed_ips p = allowed_ips kp.2)) | None => false end) kp.2)) <$>
     btree_iter (peers to)).

Lemma command_peers_eq (to : Interface) s :
  set_dev_peers (update_construct_set_device to (update_calculate_changes to s) s) =
  (command_peers to s).*2.
Proof. unfold command_peers. by rewrite fmap_app, <-!list_fmap_compose. Qed.

Lemma elem_of_command_peers (to : Interface) s k sp :
  (k, sp) ∈ command_peers to s ↔
  (is_Some (peers (interface s) !! k) ∧ peers to !! k = None ∧ sp = set_peer_remove k) ∨
  (∃ q, peers to !! k = Some q ∧
    sp = set_peer_of (bool_decide (is_Some (peers (interface s) !! k)))
      (match peers (interface s) !! k with
       | Some p => negb (bool_decide (allowed_ips p = allowed_ips q)) | None => false end) q).
Proof.
  unfold command_peers. rewrite elem_of_app, !list_elem_of_fmap. f_equiv; split.
  - intros ([k' p] & [= -> ->] & [Hd Hp%elem_of_btree_iter]%list_elem_of_filter). simpl in *.
    apply elem_of_difference in Hd as [_ Hn%not_elem_of_dom]. eauto.
  - intros ([p Hp] & Hn & ->). exists (k, p). split; [done|].
    rewrite list_elem_of_filter, elem_of_btree_iter. split; [|done]. simpl.
    rewrite elem_of_difference, not_elem_of_dom. split; [by eapply elem_of_dom_2|done].
  - intros ([k' q] & [= -> ->] & Hq%elem_of_btree_iter). exists q. split; [done|]. simpl. f_equal.
    apply bool_decide_ext. rewrite elem_of_intersection, !elem_of_dom. naive_solver.
  - intros (q & Hq & ->). exists (k, q). rewrite elem_of_btree_iter. split; [|done]. simpl.
    do 2 f_equal. apply bool_decide_ext. rewrite elem_of_intersection, !elem_of_dom. naive_solver.
Qed.

Lemma command_peers_NoDup (to : Interface) s : NoDup (command_peers to s).*1.
Proof.
  unfold command_peers. rewrite fmap_app, <-!list_fmap_compose. apply NoDup_app. split_and!.
  - eapply sublist_NoDup; [apply (NoDup_btree_iter (peers (interface s)))|].
    apply fmap_sublist, sublist_filter.
  - intros k ([k1 p] & -> & [Hd _]%list_elem_of_filter)%list_elem_of_fmap
      ([k2 q] & E & Hq%elem_of_btree_iter)%list_elem_of_fmap. simpl in *. subst k2.
    apply elem_of_difference in Hd as [_ Hd]. apply Hd. by eapply elem_of_dom_2.
  - apply NoDup_btree_iter.
Qed.

Lemma command_peers_key (to : Interface) s k sp :
  keyed (peers to) → (k, sp) ∈ command_peers to s → set_public_key sp = key_bytes k.
Proof.
  intros Hk [(_ & _ & ->)|(q & Hq & ->)]%elem_of_command_peers; [done|]. simpl. by rewrite (Hk k q Hq).
Qed.

(** The command of a push, run by a device that agrees with the interface *)
Lemma push_command (to : Interface) s k :
  keyed (peers to) → expressible (peers (interface s)) (peers to) →
  xplatform_set (update_construct_set_device to (update_calculate_changes to s) s) k
    (dev_of <$> peers (interface s) !! k) = dev_of <$> peers to !! k.
Proof.
  intros Hk Hx. pose proof (command_peers_eq to s) as Heq.
  destruct (update_construct_set_device _ _ _) as [pk lp fm rp l]. simpl in Heq. subst l.
  pose proof (command_peers_NoDup to s) as Hd.
  rewrite xplatform_set_assoc by (try apply Hd; intros ??; by apply command_peers_key).
  destruct (peers to !! k) as [q|] eqn:Hq; [|destruct (peers (interface s) !! k) as [p|] eqn:Hp].
  - erewrite elem_of_assoc; [|done|by apply elem_of_command_peers; eauto].
    by rewrite (xplatform_write _ _ _ _ Hx Hq).
  - erewrite elem_of_assoc; [|done|apply elem_of_command_peers; left; by rewrite Hp]. done.
  - rewrite (proj2 (assoc_None k _)); [done|]. intros ([k' sp] & -> & Hin)%list_elem_of_fmap.
    apply elem_of_command_peers in Hin as [([? ?] & _)|(? & ? & _)]; simpl in *; congruence.
Qed.

Lemma push_no_overlap (to : Interface) s :
  keyed (peers to) → expressible (peers (interface s)) (peers to) →
  no_overlap (update_construct_set_device to (update_calculate_changes to s) s)
    (dev_of <$> peers (interface s)).
Proof.
  intros Hk Hx sp k. rewrite command_peers_eq. intros ([k1 sp1] & -> & Hin)%list_elem_of_fmap.
  simpl. rewrite (command_peers_key to s k1 sp1 Hk Hin). intros Hne.
  apply elem_of_command_peers in Hin as [(_ & _ & ->)|(q & Hq & ->)]; [done|].
  rewrite nets_of_set_peer. split.
  - intros dp. rewrite lookup_fmap. intros (p & Hp & ->)%fmap_Some.
    apply (expr_nets _ _ Hx k1 k q p Hq); [by right|congruence].
  - intros sp' ([k2 sp2] & -> & Hin2)%list_elem_of_fmap. simpl.
    rewrite (command_peers_key to s k2 sp2 Hk Hin2). intros Hkk.
    apply elem_of_command_peers in Hin2 as [(_ & _ & ->)|(q2 & Hq2 & ->)]; [set_solver|].
    rewrite nets_of_set_peer. apply (expr_nets _ _ Hx k1 k2 q q2 Hq); [by left|congruence].
Qed.

(** *** Peers with the same configuration *)

Lemma dev_of_config p q : config p = config q → dev_of p = dev_of q.
Proof. unfold config, dev_of. intros [= _ -> -> -> ->]. done. Qed.

Lemma dev_of_same (m1 m2 : gmap PublicKey Peer) :
  (∀ k, config <$> m1 !! k = config <$> m2 !! k) → dev_of <$> m1 = dev_of <$> m2.
Proof.
  intros Hc. apply map_eq. intros k. rewrite !lookup_fmap. specialize (Hc k).
  destruct (m1 !! k), (m2 !! k); simplify_eq/=; [|done]. f_equal. apply dev_of_config.
  unfold config. congruence.
Qed.

Lemma expressible_config from to1 to2 :
  (∀ k, config <$> to2 !! k = config <$> to1 !! k) → expressible from to1 → expressible from to2.
Proof.
  intros Hc [Hka He Hp Hz Hn].
  assert (∀ k q, to2 !! k = Some q → ∃ p, to1 !! k = Some p ∧ config q = config p) as Hto.
  { intros k q Hq. specialize (Hc k). rewrite Hq in Hc. symmetry in Hc.
    apply fmap_Some in Hc as (p & ? & ?). eauto. }
  split.
  - intros k q (p & Hp' & [= _ _ -> _ _])%Hto. eauto.
  - intros k p q Hf (q' & Hq' & [= _ -> _ _ _])%Hto. eauto.
  - intros k p q Hf (q' & Hq' & [= _ _ _ _ ->])%Hto. eauto.
  - intros k q (q' & Hq' & [= _ _ _ _ ->])%Hto. eauto.
  - intros k1 k2 p1 p2 (q1 & Hq1 & E1)%Hto Hp2 Hne. unfold nets. rewrite (dev_of_config _ _ E1).
    destruct Hp2 as [(q2 & Hq2 & E2)%Hto|Hp2]; [rewrite (dev_of_config _ _ E2)|].
    + by apply (Hn k1 k2); [|left|].
    + by apply (Hn k1 k2); [|right|].
Qed.

(** C22: a push that the adapter accepts leaves the WireGuard device with
    exactly the peers of the interface: their endpoints, keepalives (modulo
    2^16), preshared keys and allowed IPs, provided the device follows the
    cross-platform protocol, agreed with the interface before, and the change is one
    that the command can express: every peer has a keepalive interval, no
    peer that stays loses its endpoint or its preshared key, no preshared key is
    all zero, and no network of a peer belongs to another one before or after the
    change. *)
Theorem push_programs_device `{!XplatformAdapter A} now (to : Interface) s :
  adapter_keyed (A:=A) → wg_reach s → keyed (peers to) →
  agrees (dev_peers (adapter s)) (peers (interface s)) →
  expressible (peers (interface s)) (peers to) →
  let '(r, s') := update now to Push s in
  r = Ok true → agrees (dev_peers (adapter s')) (peers (interface s')).
Proof.
  intros Ha Hinv%wg_reach_inv Hk Hag Hx; [|done].
  pose proof (update_config now to Push s) as Hcfg. pose proof (update_inv now to Push s Hinv Hk) as Hinv'.
  destruct (update_spec now to Push s Hinv Hk)
    as (st & h & r & s' & E & _ & _ & _ & _ & [(_ & [e ->] & _)|(_ & (b & -> & Hpush) & _)]);
    rewrite E in *; simpl in *; intros [=]; subst b.
  destruct (Hpush eq_refl eq_refl) as (resp & Hsend & Herr).
  assert (expressible (peers (interface s)) (peers (interface s'))) as Hx'
    by (eapply expressible_config; [|done]; intros k; by apply Hcfg).
  unfold agrees in *. apply map_eq. intros k. rewrite lookup_fmap.
  rewrite (dev_set _ _ _ _ Hsend Herr) by (rewrite Hag; apply push_no_overlap; [apply Hinv'|done]).
  rewrite Hag, lookup_fmap. apply push_command; [apply Hinv'|done].
Qed.
End device.

(** ** A run

    An adapter that is a device after the documentation *)
Module DeviceSamples.

#[local] Existing Instance AddrPrefix.nets.
#[local] Existing Instance elements_order.
#[local] Existing Instance elements_order_laws.

Definition set_all (sd : SetDevice) (m : gmap PublicKey DevPeer) : gmap PublicKey DevPeer :=
  fold_left (λ m sp, partial_alter (xplatform_peer sp) (mkPublicKey (set_public_key sp)) m)
    (set_dev_peers sd) m.

#[local] Instance DeviceAdapter : Adapter (gmap PublicKey DevPeer) := {|
  send_uapi_cmd cmd a :=
    match cmd with
    | CmdGet => (Ok (mkResponse 0 None), a)
    | CmdSet sd => (Ok (mkResponse 0 None), set_all sd a)
    end;
  drop_sockets a := a;
  inject_reset_packets _ _ a := a
|}.

Lemma set_all_lookup sd m k : set_all sd m !! k = xplatform_set sd k (m !! k).
Proof.
  unfold set_all, xplatform_set. generalize (set_dev_peers sd) as l. intros l. revert m.
  induction l as [|sp l IH]; intros m; simpl; [done|]. rewrite IH. f_equal.
  destruct (decide (k = mkPublicKey (set_public_key sp))) as [->|Hne].
  - by rewrite lookup_partial_alter_eq, bool_decide_eq_true_2.
  - rewrite lookup_partial_alter_ne, bool_decide_eq_false_2; [done|intros E; destruct k; simpl in *; congruence|done].
Qed.

#[local] Instance DeviceXplatform : XplatformAdapter (gmap PublicKey DevPeer).
Proof. refine {| dev_peers a := a |}. intros sd a r a' [= <- <-] _ _ k. apply set_all_lookup. Defined.

Definition carol : Peer :=
  set_keepalive (Some 25%Z) (set_allowed_ips [AddrPrefix.mkNet (V4 (ipv4_addr 100 64 0 12)) 32]
    (set_endpoint (Some (SocketAddrV4 (ipv4_addr 1 2 3 4) 5000)) (peer_default (WgSamples.key 3)))).

Definition with_carol : Interface := set_peers {[ WgSamples.key 3 := carol ]} interface_default.

Definition device_start : State (gmap PublicKey DevPeer) :=
  start_with 0 ∅ false (mkChan true []) None None None (from_secs 1) (from_millis 50).

Lemma carol_only k p : peers with_carol !! k = Some p → k = public_key carol ∧ p = carol.
Proof. unfold with_carol. cbn [peers set_peers]. by intros [<- <-]%lookup_singleton_Some. Qed.

Lemma start_empty k p : peers (interface device_start) !! k = Some p → False.
Proof. unfold device_start, start_with. cbn [interface interface_default peers]. by rewrite lookup_empty. Qed.

Lemma carol_expressible : expressible (peers (interface device_start)) (peers with_carol).
Proof.
  split.
  - intros k p [-> ->]%carol_only. exists 25%Z. reflexivity.
  - intros k p q Hp. by apply start_empty in Hp.
  - intros k p q Hp. by apply start_empty in Hp.
  - intros k q [-> ->]%carol_only. discriminate.
  - intros k1 k2 p1 p2 [-> ->]%carol_only [[-> ->]%carol_only|Hp] Hne; [by destruct Hne|].
    by apply start_empty in Hp.
Qed.

Lemma push_programs_device_witness :
  dev_allowed_ips <$> dev_peers (adapter (update 1 with_carol Push device_start).2) !! WgSamples.key 3 =
    Some {[ (V4 (ipv4_addr 100 64 0 12), 32%Z) ]}.
Proof.
  pose proof (push_programs_device 1 with_carol device_start) as Hpush.
  destruct (update 1 with_carol Push device_start) as [r s'] eqn:E. simpl.
  rewrite Hpush.
  - assert (s' = (update 1 with_carol Push device_start).2) as -> by by rewrite E.
    vm_compute. reflexivity.
  - intros a a' r' i [= <- <-] [=].
  - apply reach_start.
  - intros k p [-> ->]%carol_only. reflexivity.
  - reflexivity.
  - exact carol_expressible.
  - assert (r = (update 1 with_carol Push device_start).1) as -> by by rewrite E.
    vm_compute. reflexivity.
Defined.
End DeviceSamples.
