(* ===== verification/Controller.v ===== *)
(** * The WireGuard controller: decisions

    The pure part of [src/src/device/wg_controller.rs] and the requested state
    it works from ([src/src/device.rs], [src/crates/telio-model/src/config.rs],
    [src/crates/telio-model/src/mesh.rs], [src/crates/telio-model/src/features.rs]):
    which addresses a peer gets, whether a peer is proxied, in which state its
    connection is, which endpoint it should have; and the consolidation of the
    firewall, against the interface [FirewallApi] of the trait [Firewall]. *)

From S2P Require Import Prelude NetTypes WgTypes LruCache Firewall.

(** ** The requested state *)

Record PeerBase := mkPeerBase {
  identifier : string;
  base_public_key : PublicKey;
  hostname : string;
  base_ip_addresses : option (list StdIpAddr);
  nickname : option string
}.

(** [telio_model::config::Peer] *)
Record MeshPeer := mkMeshPeer {
  base : PeerBase;
  is_local : bool;
  allow_incoming_connections : bool;
  allow_peer_traffic_routing : bool;
  allow_peer_local_network_access : bool;
  allow_peer_send_files : bool;
  allow_multicast : bool;
  peer_allows_multicast : bool
}.

(** [Deref] of a peer to its base *)
Definition mesh_key (p : MeshPeer) : PublicKey := base_public_key (base p).
Definition mesh_ips (p : MeshPeer) : option (list StdIpAddr) := base_ip_addresses (base p).

(** [telio_model::config::Config], without the relay servers and the DNS
    configuration, which the controller does not read *)
Record MeshConfig := mkMeshConfig {
  this : PeerBase;
  mesh_peers : option (list MeshPeer)
}.

Record FeaturePersistentKeepalive := mkFeaturePersistentKeepalive {
  keepalive_vpn : option Z;
  keepalive_direct : Z;
  keepalive_proxying : option Z;
  keepalive_stun : option Z
}.

(** What the controller reads of [Features] *)
Record Features := mkFeatures {
  ipv6 : bool;
  batching : bool
}.

Section state.
Context `{IpNets}.

Record ExitNode := mkExitNode {
  exit_identifier : string;
  exit_public_key : PublicKey;
  exit_allowed_ips : option (list IpNet);
  exit_endpoint : option SocketAddr
}.

(** [telio_model::config::Server] as a STUN server *)
Record StunServer := mkStunServer {
  stun_public_key : PublicKey;
  stun_ipv4 : Z;
  stun_port : Z
}.

(** What the controller reads of [RequestedState] *)
Record RequestedState := mkRequestedState {
  device_private_key : SecretKey;
  device_fwmark : option Z;
  meshnet_config : option MeshConfig;
  exit_node : option ExitNode;
  upstream_servers : option (list StdIpAddr);
  wg_stun_server : option StunServer;
  keepalive_periods : FeaturePersistentKeepalive
}.

(** [iter_peers] *)
Definition iter_peers (r : RequestedState) : list MeshPeer :=
  match meshnet_config r with
  | Some c => default [] (mesh_peers c)
  | None => []
  end.
End state.

(** ** Addresses *)

(** [process_ips_for_peer] of [deduplicate_peer_ips]: the addresses of each
    peer so far, and the ones taken *)
Definition process_ips_for_peer (st : gmap PublicKey (list StdIpAddr) * list StdIpAddr)
    (peer : MeshPeer) : gmap PublicKey (list StdIpAddr) * list StdIpAddr :=
  let '(peer_ips, occupied_ips) := st in
  match mesh_ips peer with
  | Some ips =>
      let '(kept, occupied_ips) :=
        fold_left (λ '(kept, occupied) ip,
          if bool_decide (ip ∈ occupied) then (kept, occupied)
          else (kept ++ [ip], occupied ++ [ip])) ips ([], occupied_ips) in
      (<[mesh_key peer := kept]> peer_ips, occupied_ips)
  | None => st
  end.

(** [deduplicate_peer_ips] *)
Definition deduplicate_peer_ips (ps : list MeshPeer) : gmap PublicKey (list StdIpAddr) :=
  let external_peers := filter (λ p, is_local p = false) ps in
  let local_peers := filter (λ p, is_local p = true) ps in
  (fold_left process_ips_for_peer external_peers
     (fold_left process_ips_for_peer local_peers (∅, []))).1.

(** ** Connections *)

Definition DEFAULT_PEER_UPGRADE_WINDOW : Z := 15.

Definition EndpointMap : Type := gmap PublicKey (list SocketAddr).

(** [WireGuardEndpointCandidateChangeEvent] *)
Record CheckedEndpoint := mkCheckedEndpoint {
  checked_public_key : PublicKey;
  remote_endpoint : SocketAddr * EndpointType;
  local_endpoint : SocketAddr * EndpointType;
  checked_session : Z;
  changed_at : Instant
}.

(** [wg_controller::PeerState] *)
Inductive PeerState := PeerDisconnected | PeerProxying | PeerUpgrading | PeerDirect.

#[export] Instance PeerState_eq_dec : EqDecision PeerState.
Proof. solve_decision. Defined.

(** [wg_controller::EndpointState] *)
Record EndpointState := mkEndpointState {
  local_address : SocketAddr;
  session : Z;
  local_type : EndpointType;
  remote_type : EndpointType
}.

Section connections.
Context `{IpNets}.

(** [RequestedPeer] *)
Record RequestedPeer := mkRequestedPeer {
  peer : Peer;
  batching_keepalive_interval : option Z;
  requested_endpoint : option EndpointState
}.

(** [compare_peers] *)
Definition compare_peers (a b : Peer) : bool :=
  bool_decide (public_key a = public_key b) &&
  bool_decide (endpoint a = endpoint b) &&
  bool_decide (persistent_keepalive_interval a = persistent_keepalive_interval b) &&
  bool_decide (allowed_ips a = allowed_ips b) &&
  bool_decide (preshared_key a = preshared_key b).

(** [is_peer_proxying] *)
Definition is_peer_proxying (p : Peer) (proxy_endpoints : EndpointMap) : bool :=
  match proxy_endpoints !! public_key p with
  | Some eps =>
      match endpoint p with
      | Some ep => bool_decide (ep ∈ eps)
      | None => false
      end
  | None => false
  end.

(** [peer_state]; [keepalive_period * 3] is a product of [u32]s. *)
Definition peer_state (p : option Peer) (time_since_last_rx time_since_last_endpoint_change : option Duration)
    (link_state : option LinkState) (proxy_endpoints : list SocketAddr) (r : RequestedState)
    : PeerState :=
  let keepalive_period :=
    default (keepalive_direct (keepalive_periods r)) (p ≫= persistent_keepalive_interval) in
  let peer_connectivity_timeout := from_secs (wrap 32 (keepalive_period * 3)) in
  let peer_upgrade_window := from_secs DEFAULT_PEER_UPGRADE_WINDOW in
  match p with
  | None => PeerDisconnected
  | Some p =>
      match time_since_last_endpoint_change with
      | None => PeerDisconnected
      | Some time_since_last_endpoint_change =>
          match time_since_last_rx with
          | None => PeerDisconnected
          | Some time_since_last_rx =>
              let is_proxying :=
                match endpoint p with
                | Some ep => bool_decide (ep ∈ proxy_endpoints)
                | None => false
                end in
              let is_in_upgrade_window := (time_since_last_endpoint_change <? peer_upgrade_window)%Z in
              let has_contact :=
                match link_state with
                | Some link_state =>
                    if (from_secs 180 <? time_since_last_rx)%Z then false
                    else negb (bool_decide (link_state = Down))
                | None => (time_since_last_rx <? peer_connectivity_timeout)%Z
                end in
              match has_contact, is_proxying, is_in_upgrade_window with
              | false, _, _ => PeerDisconnected
              | true, true, _ => PeerProxying
              | true, false, true => PeerUpgrading
              | true, false, false => PeerDirect
              end
          end
      end
  end.

(** [select_endpoint_for_peer] *)
Definition select_endpoint_for_peer (actual_peer : option Peer) (state : PeerState)
    (checked_endpoint : option CheckedEndpoint) (proxy_endpoint : list SocketAddr)
    (upgrade_request_endpoint : option SocketAddr) : option SocketAddr * option EndpointState :=
  let actual_endpoint := actual_peer ≫= endpoint in
  match upgrade_request_endpoint, state, checked_endpoint with
  | Some upgrade_request_endpoint, _, _ =>
      let keep :=
        match actual_endpoint with
        | Some ep =>
            (bool_decide (state = PeerUpgrading) || bool_decide (state = PeerDirect)) &&
            negb (bool_decide (ep ∈ proxy_endpoint))
        | None => false
        end in
      if keep then (actual_endpoint, None) else (Some upgrade_request_endpoint, None)
  | None, PeerDisconnected, _ => (head proxy_endpoint, None)
  | None, PeerProxying, None => (head proxy_endpoint, None)
  | None, PeerProxying, Some checked =>
      (Some (remote_endpoint checked).1,
       Some (mkEndpointState (local_endpoint checked).1 (checked_session checked)
               (local_endpoint checked).2 (remote_endpoint checked).2))
  | None, PeerUpgrading, _ => (actual_endpoint, None)
  | None, PeerDirect, _ => (actual_endpoint, None)
  end.

(** The [try_fold] of [check_allowed_ips_correctness]; a set of networks is the
    list of its members. *)
Fixpoint try_union (all_allowed_ips : list IpNet) (l : list (list IpNet)) : option (list IpNet) :=
  match l with
  | [] => Some all_allowed_ips
  | peer_allowed_ips :: l =>
      if forallb (λ ip, negb (bool_decide (ip ∈ all_allowed_ips))) peer_allowed_ips
      then try_union (all_allowed_ips ++ peer_allowed_ips) l
      else None
  end.

(** [check_allowed_ips_correctness], [false] for [BadAllowedIps] *)
Definition check_allowed_ips_correctness (ps : gmap PublicKey RequestedPeer) : bool :=
  bool_decide (is_Some (try_union []
    ((λ kp : PublicKey * RequestedPeer, allowed_ips (peer kp.2)) <$> btree_iter ps))).
End connections.

(** ** The firewall *)

(** The trait [Firewall] as far as the controller calls it, with what a call
    can change: the two whitelists have getters, the VPN peer and the local
    addresses are what the packet filter uses. *)
Class FirewallApi (F : Type) := {
  fw_get_port_whitelist : F → gmap PublicKey Z;
  fw_get_peer_whitelist : F → Permissions → gset PublicKey;
  fw_add_to_port_whitelist : PublicKey → Z → F → F;
  fw_remove_from_port_whitelist : PublicKey → F → F;
  fw_add_to_peer_whitelist : PublicKey → Permissions → F → F;
  fw_remove_from_peer_whitelist : PublicKey → Permissions → F → F;
  fw_add_vpn_peer : PublicKey → F → F;
  fw_set_ip_addresses : list StdIpAddr → F → F;
  fw_vpn_peer : F → option PublicKey;
  fw_ip_addresses : F → list StdIpAddr
}.

(** What a firewall is to the controller: its port whitelist, its peer
    whitelists, the VPN peer and the local addresses *)
Record fw_is `{FirewallApi F} (f : F) (ports : gmap PublicKey Z)
    (lists : Permissions → gset PublicKey) (vpn : option PublicKey) (ips : list StdIpAddr) : Prop := {
  fw_is_ports : fw_get_port_whitelist f = ports;
  fw_is_lists p : fw_get_peer_whitelist f p = lists p;
  fw_is_vpn : fw_vpn_peer f = vpn;
  fw_is_ips : fw_ip_addresses f = ips
}.

(** The contract of the trait: every call changes one thing. *)
Class FirewallLaws (F : Type) `{!FirewallApi F} := {
  fw_add_to_port_whitelist_is f ports lists vpn ips k port :
    fw_is f ports lists vpn ips →
    fw_is (fw_add_to_port_whitelist k port f) (<[k := port]> ports) lists vpn ips;
  fw_remove_from_port_whitelist_is f ports lists vpn ips k :
    fw_is f ports lists vpn ips →
    fw_is (fw_remove_from_port_whitelist k f) (delete k ports) lists vpn ips;
  fw_add_to_peer_whitelist_is f ports lists vpn ips k p :
    fw_is f ports lists vpn ips →
    fw_is (fw_add_to_peer_whitelist k p f) ports
      (λ q, if decide (q = p) then lists p ∪ {[k]} else lists q) vpn ips;
  fw_remove_from_peer_whitelist_is f ports lists vpn ips k p :
    fw_is f ports lists vpn ips →
    fw_is (fw_remove_from_peer_whitelist k p f) ports
      (λ q, if decide (q = p) then lists p ∖ {[k]} else lists q) vpn ips;
  fw_add_vpn_peer_is f ports lists vpn ips k :
    fw_is f ports lists vpn ips → fw_is (fw_add_vpn_peer k f) ports lists (Some k) ips;
  fw_set_ip_addresses_is f ports lists vpn ips l :
    fw_is f ports lists vpn ips → fw_is (fw_set_ip_addresses l f) ports lists vpn (ips ++ l)
}.

Inductive FirewallError := IpNotSet.

Section consolidate_firewall.
Context `{IpNets} `{!HashOrder PublicKey} {F : Type} `{!FirewallApi F}.

(** The peers that should be whitelisted for a permission *)
Definition has_permission (permission : Permissions) (p : MeshPeer) : bool :=
  match permission with
  | IncomingConnections => allow_incoming_connections p
  | LocalAreaConnections => allow_peer_local_network_access p
  | RoutingConnections => allow_peer_traffic_routing p
  end.

Definition keys_with (f : MeshPeer → bool) (r : RequestedState) : gset PublicKey :=
  list_to_set (mesh_key <$> filter (λ p, f p = true) (iter_peers r)).

(** [upsert_peer_whitelist] *)
Definition upsert_peer_whitelist (r : RequestedState) (permission : Permissions) (f : F) : F :=
  let from_keys := fw_get_peer_whitelist f permission in
  let to_keys := keys_with (has_permission permission) r in
  let f :=
    fold_left (λ f key, fw_remove_from_peer_whitelist key permission f)
      (hash_iter (from_keys ∖ to_keys)) f in
  fold_left (λ f key, fw_add_to_peer_whitelist key permission f)
    (hash_iter (to_keys ∖ from_keys)) f.

(** [consolidate_firewall] *)
Definition consolidate_firewall (r : RequestedState) (starcast_vpeer_pubkey dns_pubkey : option PublicKey)
    (f : F) : result FirewallError unit * F :=
  let from_keys_ports_whitelist : gset PublicKey := dom (fw_get_port_whitelist f) in
  let f :=
    match exit_node r with
    | Some e =>
        if existsb (λ p, bool_decide (mesh_key p = exit_public_key e)) (iter_peers r) then f
        else fw_add_vpn_peer (exit_public_key e) f
    | None => f
    end in
  let to_keys_ports_whitelist := keys_with allow_peer_send_files r in
  let f := fold_left (λ f permission, upsert_peer_whitelist r permission f) Permissions_VALUES f in
  let f :=
    match starcast_vpeer_pubkey with
    | Some key =>
        fw_add_to_peer_whitelist key IncomingConnections
          (fw_add_to_peer_whitelist key RoutingConnections f)
    | None => f
    end in
  let f :=
    match dns_pubkey with
    | Some key => fw_add_to_peer_whitelist key RoutingConnections f
    | None => f
    end in
  let f :=
    fold_left (λ f key, fw_remove_from_port_whitelist key f)
      (hash_iter (from_keys_ports_whitelist ∖ to_keys_ports_whitelist)) f in
  let f :=
    fold_left (λ f key, fw_add_to_port_whitelist key FILE_SEND_PORT f)
      (hash_iter (to_keys_ports_whitelist ∖ from_keys_ports_whitelist)) f in
  match meshnet_config r with
  | Some config =>
      match base_ip_addresses (this config) with
      | Some ips => (Ok tt, fw_set_ip_addresses ips f)
      | None => (Err IpNotSet, f)
      end
  | None => (Ok tt, f)
  end.
End consolidate_firewall.
