(* ===== verification/ControllerProps.v ===== *)
(** * The decisions of the controller

    Theorems about [Controller], and the proof that the packet filter of
    [Firewall] fulfils the contract the controller relies on. *)

From S2P Require Import Prelude NetTypes WgTypes LruCache Firewall FirewallProps Controller.

(** ** Addresses *)

Section addresses.

(** The addresses kept from [ips] when [occupied] are taken *)
Fixpoint kept_ips (occupied ips : list StdIpAddr) : list StdIpAddr :=
  match ips with
  | [] => []
  | ip :: ips =>
      if bool_decide (ip ∈ occupied) then kept_ips occupied ips
      else ip :: kept_ips (occupied ++ [ip]) ips
  end.

Lemma kept_ips_fold ips kept occupied :
  fold_left (λ '(kept, occupied) ip,
    if bool_decide (ip ∈ occupied) then (kept, occupied)
    else (kept ++ [ip], occupied ++ [ip])) ips (kept, occupied) =
  (kept ++ kept_ips occupied ips, occupied ++ kept_ips occupied ips).
Proof.
  revert kept occupied. induction ips as [|ip ips IH]; intros kept occupied; simpl; [by rewrite !app_nil_r|].
  case_bool_decide; rewrite IH; [done|]. by rewrite <-!app_assoc.
Qed.

Lemma process_ips_spec m occupied p :
  process_ips_for_peer (m, occupied) p =
    match mesh_ips p with
    | Some ips => (<[mesh_key p := kept_ips occupied ips]> m, occupied ++ kept_ips occupied ips)
    | None => (m, occupied)
    end.
Proof.
  unfold process_ips_for_peer. destruct (mesh_ips p) as [ips|]; [|done]. by rewrite kept_ips_fold.
Qed.

Lemma elem_of_kept_ips occupied ips ip :
  ip ∈ kept_ips occupied ips ↔ ip ∈ ips ∧ ip ∉ occupied.
Proof.
  revert occupied. induction ips as [|x ips IH]; intros occupied; simpl; [set_solver|].
  case_bool_decide as Hx; [rewrite IH; set_solver|]. rewrite elem_of_cons, IH.
  destruct (decide (ip = x)); set_solver.
Qed.

Lemma kept_ips_sublist occupied ips : kept_ips occupied ips `sublist_of` ips.
Proof.
  revert occupied. induction ips as [|x ips IH]; intros occupied; simpl; [constructor|].
  case_bool_decide; constructor; auto.
Qed.

Lemma NoDup_kept_ips occupied ips : NoDup (kept_ips occupied ips).
Proof.
  revert occupied. induction ips as [|x ips IH]; intros occupied; simpl; [constructor|].
  case_bool_decide; [done|]. constructor; [rewrite elem_of_kept_ips; set_solver|done].
Qed.

(** What holds when the peers [ps] are processed *)
Record dedup_inv (ps : list MeshPeer) (m : gmap PublicKey (list StdIpAddr)) (occupied : list StdIpAddr)
    : Prop := {
  dedup_dom k : is_Some (m !! k) ↔ ∃ p, p ∈ ps ∧ mesh_key p = k ∧ is_Some (mesh_ips p);
  dedup_sub p l : p ∈ ps → m !! mesh_key p = Some l → ∃ ips, mesh_ips p = Some ips ∧ l `sublist_of` ips;
  dedup_NoDup k l : m !! k = Some l → NoDup l;
  dedup_disjoint k1 k2 l1 l2 ip : m !! k1 = Some l1 → m !! k2 = Some l2 → ip ∈ l1 → ip ∈ l2 → k1 = k2;
  dedup_occupied ip : ip ∈ occupied ↔ ∃ k l, m !! k = Some l ∧ ip ∈ l;
  dedup_all ip : ip ∈ occupied ↔ ∃ p ips, p ∈ ps ∧ mesh_ips p = Some ips ∧ ip ∈ ips
}.

Lemma dedup_step ps m occupied p :
  dedup_inv ps m occupied → mesh_key p ∉ mesh_key <$> ps →
  let '(m', occupied') := process_ips_for_peer (m, occupied) p in dedup_inv (ps ++ [p]) m' occupied'.
Proof.
  intros [Hdom Hsub Hnd Hdis Hocc Hall] Hk. rewrite process_ips_spec.
  assert (m !! mesh_key p = None) as Hnone.
  { apply eq_None_not_Some. rewrite Hdom. intros (q & Hq & E & _). apply Hk.
    rewrite <-E. by apply list_elem_of_fmap_2. }
  assert (∀ q, q ∈ ps → mesh_key q ≠ mesh_key p) as Hne.
  { intros q Hq E. apply Hk. rewrite <-E. by apply list_elem_of_fmap_2. }
  destruct (mesh_ips p) as [ips|] eqn:Hips.
  - set (K := kept_ips occupied ips).
    assert (∀ ip, ip ∈ K ↔ ip ∈ ips ∧ ip ∉ occupied) as HK by apply elem_of_kept_ips.
    split.
    + intros k. rewrite lookup_insert_is_Some, Hdom. setoid_rewrite elem_of_app.
      setoid_rewrite list_elem_of_singleton. destruct (decide (k = mesh_key p)) as [->|?].
      * split; [|by left]. intros _. exists p. rewrite Hips. eauto.
      * naive_solver.
    + intros q l [Hq| ->%list_elem_of_singleton]%elem_of_app.
      * rewrite lookup_insert_ne by (intros E; by apply (Hne q)). auto.
      * rewrite lookup_insert_eq. intros [= <-]. exists ips. split; [done|]. apply kept_ips_sublist.
    + intros k l [[<- <-]|[_ Hl]]%lookup_insert_Some; [apply NoDup_kept_ips|eauto].
    + intros k1 k2 l1 l2 ip [[<- <-]|[Hk1 Hl1]]%lookup_insert_Some
        [[<- <-]|[Hk2 Hl2]]%lookup_insert_Some Hip1 Hip2; [done|exfalso..|by eapply Hdis].
      * apply HK in Hip1 as [_ []]. apply Hocc. eauto.
      * apply HK in Hip2 as [_ []]. apply Hocc. eauto.
    + intros ip. rewrite elem_of_app, Hocc. split.
      * intros [(k & l & Hl & Hip)|Hip]; [|exists (mesh_key p), K; by rewrite lookup_insert_eq].
        exists k, l. rewrite lookup_insert_ne by naive_solver. done.
      * intros (k & l & [[<- <-]|[_ Hl]]%lookup_insert_Some & Hip); eauto.
    + intros ip. rewrite elem_of_app, HK, Hall. setoid_rewrite elem_of_app.
      setoid_rewrite list_elem_of_singleton. split; [naive_solver|].
      intros (q & ips' & [Hq| ->] & Hq' & Hip); [eauto 6|]. assert (ips' = ips) as -> by congruence.
      rewrite <-Hall. destruct (decide (ip ∈ occupied)); auto.
  - split; try done.
    + intros k. rewrite Hdom. setoid_rewrite elem_of_app. setoid_rewrite list_elem_of_singleton.
      split; [naive_solver|]. intros (q & [Hq| ->] & E & Hq'); [eauto|]. rewrite Hips in Hq'. by destruct Hq'.
    + intros q l [Hq| ->%list_elem_of_singleton]%elem_of_app; [auto|]. by rewrite Hnone.
    + intros ip. rewrite Hall. setoid_rewrite elem_of_app. setoid_rewrite list_elem_of_singleton.
      split; [naive_solver|]. intros (q & ips' & [Hq| ->] & Hq' & Hip); [eauto|congruence].
Qed.

Lemma dedup_fold ps ps' m occupied :
  NoDup (mesh_key <$> ps' ++ ps) → dedup_inv ps' m occupied →
  let '(m', occupied') := fold_left process_ips_for_peer ps (m, occupied) in
  dedup_inv (ps' ++ ps) m' occupied'.
Proof.
  revert ps' m occupied. induction ps as [|p ps IH]; intros ps' m occupied Hd Hinv;
    cbn [fold_left]; [by rewrite app_nil_r|].
  pose proof (dedup_step ps' m occupied p Hinv) as Hstep.
  destruct (process_ips_for_peer (m, occupied) p) as [m' o'].
  rewrite (app_assoc _ [p] ps : ps' ++ p :: ps = (ps' ++ [p]) ++ ps) in *.
  apply IH; [done|]. apply Hstep. rewrite !fmap_app, !NoDup_app in Hd.
  destruct Hd as ((_ & Hd & _) & _). intros Hin. apply (Hd _ Hin). simpl. set_solver.
Qed.

Lemma dedup_inv_nil : dedup_inv [] ∅ [].
Proof. split; intros *; rewrite ?lookup_empty; try done; set_solver. Qed.

Lemma process_ips_other ps m occupied k :
  k ∉ mesh_key <$> ps → (fold_left process_ips_for_peer ps (m, occupied)).1 !! k = m !! k.
Proof.
  revert m occupied. induction ps as [|p ps IH]; intros m occupied Hk; [done|]. cbn [fold_left].
  rewrite process_ips_spec. csimpl in Hk. apply not_elem_of_cons in Hk as [Hp Hk].
  destruct (mesh_ips p) as [ips|]; rewrite IH by done; [|done]. by rewrite lookup_insert_ne.
Qed.

(** Whatever the keys, an address is handed out once. *)
Lemma process_ips_once ps m occupied :
  let once (m : gmap PublicKey (list StdIpAddr)) occupied :=
    (∀ k1 k2 l1 l2 ip, m !! k1 = Some l1 → m !! k2 = Some l2 → ip ∈ l1 → ip ∈ l2 → k1 = k2) ∧
    (∀ k l ip, m !! k = Some l → ip ∈ l → ip ∈ occupied) in
  once m occupied →
  let '(m', occupied') := fold_left process_ips_for_peer ps (m, occupied) in once m' occupied'.
Proof.
  intros once. revert m occupied. induction ps as [|p ps IH]; intros m occupied Ho; [done|].
  cbn [fold_left]. rewrite process_ips_spec. destruct (mesh_ips p) as [ips|]; [|by apply IH].
  apply IH. destruct Ho as [Hdis Hocc].
  pose proof (elem_of_kept_ips occupied ips) as HK. split.
  - intros k1 k2 l1 l2 ip [[<- <-]|[Hk1 Hl1]]%lookup_insert_Some
      [[<- <-]|[Hk2 Hl2]]%lookup_insert_Some Hip1 Hip2; [done|exfalso..|by eapply Hdis].
    + apply HK in Hip1 as [_ []]. by eapply Hocc.
    + apply HK in Hip2 as [_ []]. by eapply Hocc.
  - intros k l ip [[<- <-]|[_ Hl]]%lookup_insert_Some Hip; apply elem_of_app; [by right|left].
    by eapply Hocc.
Qed.

Lemma deduplicate_peer_ips_once ps k1 k2 l1 l2 ip :
  deduplicate_peer_ips ps !! k1 = Some l1 → deduplicate_peer_ips ps !! k2 = Some l2 →
  ip ∈ l1 → ip ∈ l2 → k1 = k2.
Proof.
  unfold deduplicate_peer_ips.
  pose proof (process_ips_once (filter (λ p, is_local p = true) ps) ∅ []) as H1.
  destruct (fold_left process_ips_for_peer (filter _ ps) (∅, [])) as [m1 o1].
  pose proof (process_ips_once (filter (λ p, is_local p = false) ps) m1 o1) as H2.
  destruct (fold_left process_ips_for_peer (filter _ ps) (m1, o1)) as [m2 o2].
  apply H2, H1. split; intros *; by rewrite lookup_empty.
Qed.

Lemma dedup_phases ps :
  NoDup (mesh_key <$> ps) →
  let locals := filter (λ p, is_local p = true) ps in
  let externals := filter (λ p, is_local p = false) ps in
  ∃ m1 o1 o, dedup_inv locals m1 o1 ∧
    dedup_inv (locals ++ externals) (deduplicate_peer_ips ps) o ∧
    (∀ k l, m1 !! k = Some l → deduplicate_peer_ips ps !! k = Some l) ∧
    ∀ p, p ∈ ps ↔ p ∈ locals ++ externals.
Proof.
  intros Hd locals externals.
  assert (locals ++ externals ≡ₚ ps) as Hperm.
  { unfold locals, externals. clear. induction ps as [|p ps IH]; [done|]. rewrite !filter_cons.
    destruct (is_local p) eqn:E; simpl; rewrite ?decide_True, ?decide_False by done; simpl.
    - by rewrite IH.
    - by rewrite <-Permutation_middle, IH. }
  assert (NoDup (mesh_key <$> locals ++ externals)) as Hd' by by rewrite Hperm.
  pose proof (dedup_fold locals [] ∅ []) as H1. pose proof Hd' as Hd1.
  rewrite fmap_app, NoDup_app in Hd1. destruct Hd1 as (Hdl & Hdis & _).
  unfold deduplicate_peer_ips. fold locals externals.
  destruct (fold_left process_ips_for_peer locals (∅, [])) as [m1 o1] eqn:E1.
  specialize (H1 Hdl dedup_inv_nil). simpl in H1.
  pose proof (dedup_fold externals locals m1 o1 Hd' H1) as H2.
  pose proof (process_ips_other externals m1 o1) as Hother.
  destruct (fold_left process_ips_for_peer externals (m1, o1)) as [m2 o2].
  exists m1, o1, o2. split_and!; [done|done| |intros p; by rewrite Hperm].
  intros k l Hl. simpl. rewrite <-Hl. apply Hother. intros Hin. apply (Hdis k); [|done].
  destruct (proj1 (dedup_dom _ _ _ H1 k)) as (p & Hp & <- & _); [eauto|]. by apply list_elem_of_fmap_2.
Qed.
End addresses.

(** When no two peers share a key, [deduplicate_peer_ips] shares the
    addresses out: a peer keeps, without repetition, some of its own addresses
    in their order, every address of the configuration goes to exactly one
    peer, and a peer that is not local never gets an address that a local
    peer has too. *)
Theorem deduplicate_peer_ips_partition ps :
  NoDup (mesh_key <$> ps) →
  let m := deduplicate_peer_ips ps in
  (∀ k l, m !! k = Some l → NoDup l ∧
    ∃ p ips, p ∈ ps ∧ mesh_key p = k ∧ mesh_ips p = Some ips ∧ l `sublist_of` ips) ∧
  (∀ p ips ip, p ∈ ps → mesh_ips p = Some ips → ip ∈ ips →
    exists! k, ∃ l, m !! k = Some l ∧ ip ∈ l) ∧
  (∀ p q l ips ip, p ∈ ps → q ∈ ps → is_local p = false → is_local q = true →
    m !! mesh_key p = Some l → mesh_ips q = Some ips → ip ∈ l → ip ∉ ips).
Proof.
  intros Hd. destruct (dedup_phases ps Hd) as (m1 & o1 & o & H1 & H2 & Hkeep & Hps).
  cbv zeta. generalize dependent (deduplicate_peer_ips ps). intros m H2 Hkeep. split_and!.
  - intros k l Hl. split; [by eapply dedup_NoDup|].
    destruct (proj1 (dedup_dom _ _ _ H2 k)) as (p & Hp & <- & _); [eauto|].
    destruct (dedup_sub _ _ _ H2 p l Hp Hl) as (ips & ? & ?). exists p, ips. by rewrite Hps.
  - intros p ips ip Hp Hips Hip. rewrite Hps in Hp.
    destruct (proj1 (dedup_occupied _ _ _ H2 ip)) as (k & l & Hl & Hkl).
    { apply (dedup_all _ _ _ H2). eauto. }
    exists k. split; [eauto|]. intros k' (l' & Hl' & Hkl'). by eapply (dedup_disjoint _ _ _ H2).
  - intros p q l ips ip Hp Hq Hpl Hql Hl Hips Hip Hin.
    destruct (proj1 (dedup_occupied _ _ _ H1 ip)) as (k & l1 & Hl1 & Hk1).
    { apply (dedup_all _ _ _ H1). exists q, ips. split; [|done]. by rewrite list_elem_of_filter. }
    assert (mesh_key p = k) as <- by (eapply (dedup_disjoint _ _ _ H2); eauto).
    destruct (proj1 (dedup_dom _ _ _ H1 (mesh_key p))) as (p' & Hp' & E & _); [eauto|].
    apply list_elem_of_filter in Hp' as [Hp'l Hp'].
    assert (p' = p) as -> by (eapply NoDup_fmap_same; eauto).
    congruence.
Qed.

(** ** Allowed IPs *)

Section allowed_ips.
Context `{IpNets}.

Definition no_common (x y : list IpNet) : Prop := ∀ ip, ip ∈ x → ip ∉ y.

Lemma try_union_Some all l :
  is_Some (try_union all l) ↔ Forall (no_common all) l ∧ ForallOrdPairs no_common l.
Proof.
  revert all. induction l as [|x l IH]; intros all; simpl.
  { split; [by split; constructor|eauto]. }
  assert (forallb (λ ip, negb (bool_decide (ip ∈ all))) x = true ↔ no_common all x) as Hx.
  { rewrite forallb_forall. unfold no_common. setoid_rewrite negb_true_iff.
    setoid_rewrite bool_decide_eq_false. setoid_rewrite <-list_elem_of_In. naive_solver. }
  destruct (forallb _ x).
  - rewrite IH, Forall_cons. assert (no_common all x) as Hax by tauto. split.
    + intros [Hf Ho]. rewrite Forall_forall in Hf. unfold no_common in Hf.
      split; [split; [done|]|constructor; [|done]]; apply Forall_forall; intros y Hy ip Hip;
        apply (Hf y Hy); set_solver.
    + intros [[_ Hf] Ho]. inversion Ho as [|? ? Hxl Hl]; subst. split; [|done].
      rewrite Forall_forall in *. unfold no_common in *. set_solver.
  - split; [by intros [? ?]|]. rewrite Forall_cons. intros [[Hax _] _]. naive_solver.
Qed.

Lemma ordpairs_keys {A} (f : PublicKey * A → list IpNet) (l : list (PublicKey * A)) :
  NoDup l.*1 →
  ForallOrdPairs no_common (f <$> l) ↔
  ∀ x y, x ∈ l → y ∈ l → x.1 ≠ y.1 → no_common (f x) (f y).
Proof.
  assert (∀ x y, no_common x y → no_common y x) as Hsym by (unfold no_common; naive_solver).
  induction l as [|a l IH]; intros Hd; csimpl; [split; [set_solver|constructor]|].
  csimpl in Hd. apply NoDup_cons in Hd as [Hn Hd].
  assert (∀ x, x ∈ l → x.1 ≠ a.1) as Hne by (intros x Hx E; apply Hn; rewrite <-E; by apply list_elem_of_fmap_2).
  split.
  - inversion 1 as [|? ? Ha Hl]; subst. rewrite Forall_forall in Ha.
    assert (∀ y, y ∈ l → no_common (f a) (f y)) as Ha' by (intros y Hy; apply Ha; by apply list_elem_of_fmap_2).
    intros x y [->|Hx]%elem_of_cons [->|Hy]%elem_of_cons Hk; [done|auto|auto|]. by apply (proj1 (IH Hd) Hl).
  - intros Hall. constructor; [|apply IH; [done|]; intros x y Hx Hy; apply Hall; by right].
    apply Forall_forall. intros z (y & -> & Hy)%list_elem_of_fmap. apply Hall; [set_solver..|].
    intros E. by apply (Hne y).
Qed.

Lemma check_allowed_ips_correct (ps : gmap PublicKey RequestedPeer) k1 k2 p1 p2 ip :
  check_allowed_ips_correctness ps = true → ps !! k1 = Some p1 → ps !! k2 = Some p2 → k1 ≠ k2 →
  ip ∈ allowed_ips (peer p1) → ip ∉ allowed_ips (peer p2).
Proof.
  unfold check_allowed_ips_correctness. rewrite bool_decide_eq_true, try_union_Some.
  rewrite ordpairs_keys by apply NoDup_btree_iter. intros [_ Hall] H1 H2 Hne.
  apply (Hall (k1, p1) (k2, p2)); [by apply elem_of_btree_iter..|done].
Qed.

Lemma check_allowed_ips_complete (ps : gmap PublicKey RequestedPeer) :
  (∀ k1 k2 p1 p2 ip, ps !! k1 = Some p1 → ps !! k2 = Some p2 → k1 ≠ k2 →
    ip ∈ allowed_ips (peer p1) → ip ∉ allowed_ips (peer p2)) →
  check_allowed_ips_correctness ps = true.
Proof.
  intros Hall. unfold check_allowed_ips_correctness. rewrite bool_decide_eq_true, try_union_Some.
  rewrite ordpairs_keys by apply NoDup_btree_iter.
  split; [apply Forall_forall; intros x _ ip Hip; by apply elem_of_nil in Hip|].
  intros [k1 p1] [k2 p2] H1%elem_of_btree_iter H2%elem_of_btree_iter Hne ip Hip.
  exact (Hall k1 k2 p1 p2 ip H1 H2 Hne Hip).
Qed.

(** [check_allowed_ips_correctness] accepts exactly the requested lists in
    which no allowed IP belongs to two peers. *)
Theorem check_allowed_ips_correctness_iff (ps : gmap PublicKey RequestedPeer) :
  check_allowed_ips_correctness ps = true ↔
  ∀ k1 k2 p1 p2 ip, ps !! k1 = Some p1 → ps !! k2 = Some p2 → k1 ≠ k2 →
    ip ∈ allowed_ips (peer p1) → ip ∉ allowed_ips (peer p2).
Proof.
  split; [|apply check_allowed_ips_complete].
  intros Hc k1 k2 p1 p2 ip. by apply check_allowed_ips_correct.
Qed.
End allowed_ips.

(** ** The firewall *)

Section firewall.
Context `{IpNets} `{!HashOrder PublicKey} `{!HashOrderLaws PublicKey}.
Context {F : Type} `{!FirewallApi F} `{!FirewallLaws F}.

Lemma fw_is_lists_ext f ports lists lists' vpn ips :
  (∀ p, lists p = lists' p) → fw_is f ports lists vpn ips → fw_is f ports lists' vpn ips.
Proof. intros He []. split; try done. intros p. by rewrite <-He. Qed.

Lemma fw_add_all f ports lists vpn ips p l :
  fw_is f ports lists vpn ips →
  fw_is (fold_left (λ f key, fw_add_to_peer_whitelist key p f) l f) ports
    (λ q, if decide (q = p) then lists p ∪ list_to_set l else lists q) vpn ips.
Proof.
  revert f lists. induction l as [|k l IH]; intros f lists Hf; simpl.
  - eapply fw_is_lists_ext; [|done]. intros q. case_decide; subst; set_solver.
  - eapply fw_is_lists_ext; [|apply IH, fw_add_to_peer_whitelist_is, Hf]. intros q. simpl.
    repeat case_decide; subst; try done. set_solver.
Qed.

Lemma fw_remove_all f ports lists vpn ips p l :
  fw_is f ports lists vpn ips →
  fw_is (fold_left (λ f key, fw_remove_from_peer_whitelist key p f) l f) ports
    (λ q, if decide (q = p) then lists p ∖ list_to_set l else lists q) vpn ips.
Proof.
  revert f lists. induction l as [|k l IH]; intros f lists Hf; simpl.
  - eapply fw_is_lists_ext; [|done]. intros q. case_decide; subst; set_solver.
  - eapply fw_is_lists_ext; [|apply IH, fw_remove_from_peer_whitelist_is, Hf]. intros q. simpl.
    repeat case_decide; subst; try done. set_solver.
Qed.

Lemma upsert_peer_whitelist_is f ports lists vpn ips r p :
  fw_is f ports lists vpn ips →
  fw_is (upsert_peer_whitelist r p f) ports
    (λ q, if decide (q = p) then keys_with (has_permission p) r else lists q) vpn ips.
Proof.
  intros Hf. unfold upsert_peer_whitelist. rewrite (fw_is_lists _ _ _ _ _ Hf).
  eapply fw_is_lists_ext; [|apply fw_add_all, fw_remove_all, Hf]. intros q. simpl.
  case_decide; [subst|by rewrite ?decide_False]. rewrite decide_True by done.
  rewrite !hash_iter_perm. apply set_eq. intros k.
  rewrite elem_of_union, elem_of_difference, !elem_of_list_to_set, !elem_of_elements, !elem_of_difference.
  destruct (decide (k ∈ lists p)), (decide (k ∈ keys_with (has_permission p) r)); tauto.
Qed.

Lemma upsert_all_is f ports lists vpn ips r :
  fw_is f ports lists vpn ips →
  fw_is (fold_left (λ f p, upsert_peer_whitelist r p f) Permissions_VALUES f) ports
    (λ q, keys_with (has_permission q) r) vpn ips.
Proof.
  intros Hf. simpl. eapply fw_is_lists_ext; [|by do 3 apply upsert_peer_whitelist_is].
  intros []; reflexivity.
Qed.

(** The port whitelist: delete some keys, then add others *)
Lemma fw_remove_ports f ports lists vpn ips l :
  fw_is f ports lists vpn ips →
  ∃ ports', fw_is (fold_left (λ f key, fw_remove_from_port_whitelist key f) l f) ports' lists vpn ips ∧
    ∀ k, ports' !! k = if decide (k ∈ l) then None else ports !! k.
Proof.
  revert f ports. induction l as [|x l IH]; intros f ports Hf; cbn [fold_left].
  { exists ports. split; [done|]. intros k. by rewrite decide_False by set_solver. }
  destruct (IH (fw_remove_from_port_whitelist x f) (delete x ports)) as (ports' & Hf' & Hp);
    [by apply fw_remove_from_port_whitelist_is|].
  exists ports'. split; [done|]. intros k. rewrite Hp, lookup_delete.
  repeat case_decide; set_solver.
Qed.

Lemma fw_add_ports f ports lists vpn ips port l :
  fw_is f ports lists vpn ips →
  ∃ ports', fw_is (fold_left (λ f key, fw_add_to_port_whitelist key port f) l f) ports' lists vpn ips ∧
    ∀ k, ports' !! k = if decide (k ∈ l) then Some port else ports !! k.
Proof.
  revert f ports. induction l as [|x l IH]; intros f ports Hf; cbn [fold_left].
  { exists ports. split; [done|]. intros k. by rewrite decide_False by set_solver. }
  destruct (IH (fw_add_to_port_whitelist x port f) (<[x := port]> ports)) as (ports' & Hf' & Hp);
    [by apply fw_add_to_port_whitelist_is|].
  exists ports'. split; [done|]. intros k. rewrite Hp, lookup_insert.
  repeat case_decide; set_solver.
Qed.

(** The virtual peers that are whitelisted besides the peers of the meshnet *)
Definition virtual_keys (starcast dns : option PublicKey) (p : Permissions) : gset PublicKey :=
  match p with
  | IncomingConnections => from_option singleton ∅ starcast
  | LocalAreaConnections => ∅
  | RoutingConnections => from_option singleton ∅ starcast ∪ from_option singleton ∅ dns
  end.

(** The VPN peer that is requested: an exit node that is no meshnet peer *)
Definition requested_vpn (r : RequestedState) : option PublicKey :=
  e ← exit_node r;
  if decide (exit_public_key e ∈ mesh_key <$> iter_peers r) then None else Some (exit_public_key e).

Lemma add_virtual_is f ports lists vpn ips starcast dns :
  fw_is f ports lists vpn ips →
  fw_is (let f := match starcast with
           | Some key => fw_add_to_peer_whitelist key IncomingConnections
                           (fw_add_to_peer_whitelist key RoutingConnections f)
           | None => f end in
         match dns with Some key => fw_add_to_peer_whitelist key RoutingConnections f | None => f end)
    ports (λ p, lists p ∪ virtual_keys starcast dns p) vpn ips.
Proof.
  intros Hf. destruct starcast as [sk|], dns as [dk|]; simpl;
    (eapply fw_is_lists_ext; [|repeat apply fw_add_to_peer_whitelist_is; exact Hf]);
    intros []; simpl; set_solver.
Qed.

Lemma add_vpn_is f ports lists vpn ips r :
  fw_is f ports lists vpn ips →
  fw_is (match exit_node r with
         | Some e => if existsb (λ p, bool_decide (mesh_key p = exit_public_key e)) (iter_peers r)
                     then f else fw_add_vpn_peer (exit_public_key e) f
         | None => f end) ports lists
    (match requested_vpn r with Some k => Some k | None => vpn end) ips.
Proof.
  intros Hf. unfold requested_vpn. destruct (exit_node r) as [e|]; [|done]. simpl.
  assert (existsb (λ p, bool_decide (mesh_key p = exit_public_key e)) (iter_peers r) = true ↔
    exit_public_key e ∈ mesh_key <$> iter_peers r) as He.
  { rewrite existsb_exists, list_elem_of_fmap. setoid_rewrite bool_decide_eq_true.
    setoid_rewrite <-list_elem_of_In. naive_solver. }
  destruct (existsb _ _); [by rewrite decide_True by tauto|].
  rewrite decide_False by (rewrite <-He; done). eapply fw_add_vpn_peer_is, Hf.
Qed.

Lemma consolidate_firewall_spec r starcast dns f :
  let '(res, f') := consolidate_firewall r starcast dns f in
  (∀ k, fw_get_port_whitelist f' !! k =
    if decide (k ∈ keys_with allow_peer_send_files r)
    then Some (default FILE_SEND_PORT (fw_get_port_whitelist f !! k)) else None) ∧
  (∀ p, fw_get_peer_whitelist f' p =
    keys_with (has_permission p) r ∪ virtual_keys starcast dns p) ∧
  fw_vpn_peer f' = match requested_vpn r with Some k => Some k | None => fw_vpn_peer f end ∧
  match meshnet_config r with
  | Some c =>
      match base_ip_addresses (this c) with
      | Some ips => res = Ok tt ∧ fw_ip_addresses f' = fw_ip_addresses f ++ ips
      | None => res = Err IpNotSet ∧ fw_ip_addresses f' = fw_ip_addresses f
      end
  | None => res = Ok tt ∧ fw_ip_addresses f' = fw_ip_addresses f
  end.
Proof.
  assert (fw_is f (fw_get_port_whitelist f) (fw_get_peer_whitelist f) (fw_vpn_peer f) (fw_ip_addresses f))
    as Hf by done.
  unfold consolidate_firewall. set (from := dom (fw_get_port_whitelist f)).
  set (to := keys_with allow_peer_send_files r).
  apply (add_vpn_is f _ _ _ _ r) in Hf. eapply (upsert_all_is _ _ _ _ _ r) in Hf.
  eapply (add_virtual_is _ _ _ _ _ starcast dns) in Hf.
  match type of Hf with fw_is ?g _ _ _ _ => set (g0 := g) in * end.
  destruct (fw_remove_ports _ _ _ _ _ (hash_iter (from ∖ to)) Hf) as (ports1 & Hf1 & Hp1).
  destruct (fw_add_ports _ _ _ _ _ FILE_SEND_PORT (hash_iter (to ∖ from)) Hf1) as (ports2 & Hf2 & Hp2).
  set (f2 := fold_left (λ f key, fw_add_to_port_whitelist key FILE_SEND_PORT f) _ _) in *.
  assert (∀ k, ports2 !! k = if decide (k ∈ to)
    then Some (default FILE_SEND_PORT (fw_get_port_whitelist f !! k)) else None) as Hp.
  { intros k. rewrite Hp2, Hp1, !(decide_ext _ _ _ _ (elem_of_hash_iter _ k)).
    unfold from. destruct (fw_get_port_whitelist f !! k) as [x|] eqn:E;
      [apply elem_of_dom_2 in E as Hd|apply not_elem_of_dom in E as Hd];
      repeat case_decide; set_solver. }
  destruct (meshnet_config r) as [c|]; [destruct (base_ip_addresses (this c)) as [own|]|].
  - apply (fw_set_ip_addresses_is _ _ _ _ _ own) in Hf2. destruct Hf2 as [E1 E2 E3 E4].
    split_and!; [intros k; by rewrite E1|done..].
  - destruct Hf2 as [E1 E2 E3 E4]. split_and!; [intros k; by rewrite E1|done..].
  - destruct Hf2 as [E1 E2 E3 E4]. split_and!; [intros k; by rewrite E1|done..].
Qed.
(** [consolidate_firewall] makes the firewall match the requested state:
    the port whitelist has exactly the peers that may send files (on the file
    port, unless they were listed before), each peer whitelist exactly the
    peers with that permission and the virtual peers, the VPN peer is the
    requested exit node that is no meshnet peer (the old one stays when there
    is none) and the own addresses are added to the local ones.  The only
    error is a meshnet configuration without own addresses, found last. *)
Theorem consolidate_firewall_exact r starcast dns f :
  let '(res, f') := consolidate_firewall r starcast dns f in
  (∀ k, fw_get_port_whitelist f' !! k =
    if decide (k ∈ keys_with allow_peer_send_files r)
    then Some (default FILE_SEND_PORT (fw_get_port_whitelist f !! k)) else None) ∧
  (∀ p, fw_get_peer_whitelist f' p =
    keys_with (has_permission p) r ∪ virtual_keys starcast dns p) ∧
  fw_vpn_peer f' = match requested_vpn r with Some k => Some k | None => fw_vpn_peer f end ∧
  match meshnet_config r with
  | Some c =>
      match base_ip_addresses (this c) with
      | Some ips => res = Ok tt ∧ fw_ip_addresses f' = fw_ip_addresses f ++ ips
      | None => res = Err IpNotSet ∧ fw_ip_addresses f' = fw_ip_addresses f
      end
  | None => res = Ok tt ∧ fw_ip_addresses f' = fw_ip_addresses f
  end.
Proof. apply consolidate_firewall_spec. Qed.
End firewall.

(** The packet filter fulfils the contract. *)
Section stateful_firewall.
Context `{Ipnet} {M : Type → Type → Type} `{LinkedHashMap M}.

#[export] Instance StatefullFirewall_api : FirewallApi (StatefullFirewall M) := {|
  fw_get_port_whitelist := get_port_whitelist;
  fw_get_peer_whitelist f p := get_peer_whitelist p f;
  fw_add_to_port_whitelist := add_to_port_whitelist;
  fw_remove_from_port_whitelist := remove_from_port_whitelist;
  fw_add_to_peer_whitelist := add_to_peer_whitelist;
  fw_remove_from_peer_whitelist := remove_from_peer_whitelist;
  fw_add_vpn_peer := add_vpn_peer;
  fw_set_ip_addresses := set_ip_addresses;
  fw_vpn_peer f := vpn_peer (whitelist f);
  fw_ip_addresses := ip_addresses
|}.

Lemma foldl_snoc {A} (l acc : list A) : foldl (λ l x, l ++ [x]) acc l = acc ++ l.
Proof.
  revert acc. induction l as [|x l IH]; intros acc; simpl; [by rewrite app_nil_r|].
  rewrite IH. by rewrite <-app_assoc.
Qed.

Lemma peers_of_set q p s (w : PeerWhitelists) :
  peers_of (set_peers_of p s w) q = if decide (q = p) then s else peers_of w q.
Proof. by destruct p, q. Qed.

#[export] Instance StatefullFirewall_laws : FirewallLaws (StatefullFirewall M).
Proof.
  split; intros f ports lists vpn ips; intros; match goal with h : fw_is _ _ _ _ _ |- _ => destruct h as [E1 E2 E3 E4] end;
    simpl in *; split; simpl; subst; try done.
  - intros q. unfold get_peer_whitelist. simpl. rewrite peers_of_set. case_decide; [|apply E2].
    rewrite <-E2. unfold get_peer_whitelist. set_solver.
  - intros q. unfold get_peer_whitelist. simpl. rewrite peers_of_set. case_decide; [|apply E2].
    by rewrite <-E2.
  - apply foldl_snoc.
Qed.

Context `{IpNets} `{!HashOrder PublicKey} `{!HashOrderLaws PublicKey}.

(** The peers that have a permission by the configuration *)
Definition permitted_keys r (starcast dns : option PublicKey) (permission : Permissions) : gset PublicKey :=
  keys_with (has_permission permission) r ∪ virtual_keys starcast dns permission.

(** The port on which a peer may send files: the one that was listed before, or
    the default one *)
Definition file_port r (f : StatefullFirewall M) (k : PublicKey) : option Z :=
  if decide (k ∈ keys_with allow_peer_send_files r)
  then Some (default FILE_SEND_PORT (get_port_whitelist f !! k)) else None.

Lemma consolidated_lists r starcast dns (f : StatefullFirewall M) :
  let f' := (consolidate_firewall r starcast dns f).2 in
  (∀ k p, is_peer_whitelisted (whitelist f') k p = bool_decide (k ∈ permitted_keys r starcast dns p)) ∧
  (∀ k, get_port_whitelist f' !! k = file_port r f k) ∧
  vpn_peer (whitelist f') = match requested_vpn r with Some k => Some k | None => vpn_peer (whitelist f) end.
Proof.
  cbv zeta. pose proof (consolidate_firewall_spec r starcast dns f) as Hspec.
  destruct (consolidate_firewall r starcast dns f) as [res f']. simpl.
  destruct Hspec as (Hports & Hlists & Hvpn & _). split_and!; [|done..].
  intros k p. apply bool_decide_ext. unfold permitted_keys. specialize (Hlists p).
  simpl in Hlists. unfold get_peer_whitelist in Hlists. by rewrite Hlists.
Qed.

(** A consolidation is a sequence of changes of the configuration. *)
Definition config_op (op : fw_op) : Prop :=
  match op with OutboundPacket _ _ | InboundPacket _ _ _ => False | _ => True end.

Section config.
Context `{Pnet} (now : Instant) (P : StatefullFirewall M → Prop).
Hypothesis HP : ∀ op f, config_op op → P f → P (fw_exec now op f).

Lemma fold_config {A} (op : A → fw_op) (l : list A) f : (∀ a, config_op (op a)) →
  P f → P (fold_left (λ f a, fw_exec now (op a) f) l f).
Proof. intros Hop. revert f. induction l as [|a l IH]; intros f Hf; simpl; auto. Qed.

Lemma upsert_config r p f : P f → P (upsert_peer_whitelist r p f).
Proof.
  intros Hf. unfold upsert_peer_whitelist. simpl.
  apply (fold_config (λ k, AddToPeerWhitelist k p)); [done|].
  by apply (fold_config (λ k, RemoveFromPeerWhitelist k p)).
Qed.

Lemma consolidate_firewall_config r starcast dns f : P f → P (consolidate_firewall r starcast dns f).2.
Proof.
  intros Hf. unfold consolidate_firewall. simpl.
  assert (∀ key p g, P g → P (add_to_peer_whitelist key p g)) as Hadd
    by (intros key p g; by apply (HP (AddToPeerWhitelist key p))).
  match goal with |- context [fold_left (λ f k, add_to_port_whitelist k FILE_SEND_PORT f) ?l ?g] =>
    assert (P (fold_left (λ f k, add_to_port_whitelist k FILE_SEND_PORT f) l g)) as Hr end.
  { apply (fold_config (λ k, AddToPortWhitelist k FILE_SEND_PORT)); [done|].
    apply (fold_config (λ k, RemoveFromPortWhitelist k)); [done|].
    destruct dns as [dk|], starcast as [sk|]; repeat apply Hadd; repeat apply upsert_config;
      (case_match; [|done]); (case_match; [done|]); by apply (HP (AddVpnPeer _)). }
  destruct (meshnet_config r) as [c|]; [|done]. destruct (base_ip_addresses (this c)) as [ips|]; [|done].
  by apply (HP (SetIpAddresses ips)).
Qed.
End config.

Context `{Pnet} `{!LinkedHashMapLaws M}.
Context (cap : nat) (ttl : Duration) (use_ipv6 : bool) (feature : FeatureFirewall).

Lemma consolidate_firewall_reach r starcast dns now h (f : StatefullFirewall M) :
  fw_reach cap ttl use_ipv6 feature now h f →
  fw_reach cap ttl use_ipv6 feature now h (consolidate_firewall r starcast dns f).2.
Proof.
  apply (consolidate_firewall_config now). intros op g Hop Hg.
  assert (log_packet now op h = h) as Hlog by by destruct op. rewrite <-Hlog. by apply fw_reach_op.
Qed.

(** It changes neither the networks that are excluded nor what is recorded. *)
Lemma consolidate_firewall_keeps r starcast dns (f : StatefullFirewall M) :
  exclude_ip_range (consolidate_firewall r starcast dns f).2 = exclude_ip_range f ∧
  record_whitelisted (consolidate_firewall r starcast dns f).2 = record_whitelisted f.
Proof.
  apply (consolidate_firewall_config 0 (λ g, exclude_ip_range g = exclude_ip_range f ∧
    record_whitelisted g = record_whitelisted f)); [|done].
  intros op g Hop Hg. by destruct op.
Qed.

(** What the configuration lets in, given the own addresses [own] and the packet
    filter before the consolidation *)
Inductive granted r starcast dns (f : StatefullFirewall M) (own : list StdIpAddr)
    (local_addrs : list StdIpAddr) (pk buf : bytes) : Prop :=
| granted_vpn :
    match requested_vpn r with Some k => Some k | None => vpn_peer (whitelist f) end = Some (mkPublicKey pk) →
    granted r starcast dns f own local_addrs pk buf
| granted_private dst :
    buffer_dest buf = Some dst → is_private_address_except_local_interface local_addrs f dst = true →
    mkPublicKey pk ∈ permitted_keys r starcast dns LocalAreaConnections →
    granted r starcast dns f own local_addrs pk buf
| granted_routing dst :
    buffer_dest buf = Some dst → is_private_address_except_local_interface local_addrs f dst = false →
    dst ∉ own → mkPublicKey pk ∈ permitted_keys r starcast dns RoutingConnections →
    granted r starcast dns f own local_addrs pk buf
| granted_incoming dst :
    buffer_dest buf = Some dst → dst ∈ own →
    mkPublicKey pk ∈ permitted_keys r starcast dns IncomingConnections →
    granted r starcast dns f own local_addrs pk buf
| granted_files dst proto key pkt :
    buffer_dest buf = Some dst → dst ∈ own → buffer_conn true pk buf = Some (proto, key, pkt) →
    file_port r f (mkPublicKey pk) = Some (local_port (link key)) →
    granted r starcast dns f own local_addrs pk buf.

(** C6: after a consolidation the packet filter decides as the configuration says.
    A new connection of a peer to this node is let in when the peer may connect
    to it, and on its file port when it may send files; a packet for a private
    network passes when its peer may reach the local network, one for an
    address of this node is looked at further, and one for any other
    address passes when its peer may route through this node.  The virtual
    peers of multicast and DNS count as permitted.  A packet that passes is
    granted by that, or comes from the VPN peer (the one that is requested, else
    the previous one), or is solicited by the traffic so far. *)
Theorem consolidated_access r starcast dns now h f :
  fw_reach cap ttl use_ipv6 feature now h f →
  let f' := (consolidate_firewall r starcast dns f).2 in
  let may k permission := bool_decide (k ∈ permitted_keys r starcast dns permission) in
  (∀ k port, decide_connection_handling f' k port =
    if may k IncomingConnections then (if record_whitelisted f then HandleLocally else PassThrough)
    else if bool_decide (file_port r f k = Some port) then HandleLocally else Drop) ∧
  (∀ k local_addrs addr, decide_packet_handling local_addrs f' k addr =
    if is_private_address_except_local_interface local_addrs f addr then
      if may k LocalAreaConnections then PassThrough else Drop
    else if bool_decide (addr ∈ ip_addresses f') then HandleLocally
    else if may k RoutingConnections then PassThrough else Drop) ∧
  (∀ local_addrs pk buf, (process_inbound_packet now local_addrs pk buf f').1 = true →
    granted r starcast dns f (ip_addresses f') local_addrs pk buf ∨ solicited ttl now h f' pk buf).
Proof.
  intros Hr f'. pose proof (consolidate_firewall_reach r starcast dns now h f Hr) as Hr'.
  pose proof (consolidated_lists r starcast dns f) as (Hlists & Hports & Hvpn).
  pose proof (consolidate_firewall_keeps r starcast dns f) as (Hex & Hrec). fold f' in Hr', Hlists, Hports, Hvpn, Hex, Hrec.
  assert (∀ la addr, is_private_address_except_local_interface la f' addr =
    is_private_address_except_local_interface la f addr) as Hpriv
    by (intros; unfold is_private_address_except_local_interface; by rewrite Hex).
  assert (∀ k p, k ∈ get_peer_whitelist p f' → k ∈ permitted_keys r starcast dns p) as Hin.
  { intros k p Hk. specialize (Hlists k p). unfold is_peer_whitelisted in Hlists.
    rewrite bool_decide_eq_true_2 in Hlists by done. by symmetry in Hlists; apply bool_decide_eq_true in Hlists. }
  simpl. split_and!.
  - intros k port. unfold decide_connection_handling, is_port_whitelisted. rewrite Hlists, Hrec.
    specialize (Hports k). unfold get_port_whitelist in Hports. rewrite Hports.
    destruct (bool_decide (k ∈ _)); [done|]. destruct (file_port r f k) as [q|]; [|done].
    destruct (Z.eqb_spec q port); case_bool_decide; congruence.
  - intros k la addr. unfold decide_packet_handling. by rewrite Hpriv, !Hlists.
  - intros la pk buf Hok. apply (process_inbound_authorised cap ttl) with (h := h) in Hok; [|by eapply fw_reach_inv].
    destruct Hok as [[Hv|dst ? Hp ?|dst ? Hp ? ?|dst ? ? ?|dst proto key pkt ? ? ? Hp]|]; [left..|by right].
    + apply granted_vpn. by rewrite <-Hvpn.
    + rewrite Hpriv in Hp. by eapply granted_private; eauto.
    + rewrite Hpriv in Hp. by eapply granted_routing; eauto.
    + by eapply granted_incoming; eauto.
    + rewrite Hports in Hp. by eapply granted_files.
Qed.
End stateful_firewall.

(** ** Endpoints *)

Section endpoints.
Context `{IpNets}.

(** The endpoint that the controller selects for a peer: only a proxied
    peer in contact, with a checked endpoint and no request from the other
    side, advertises a local endpoint, and it then moves to the checked one; a
    direct connection in contact is never left, even on request; without
    contact and without a request the peer falls back to its first proxy
    endpoint. *)
Theorem endpoint_selection p rx change link proxies r checked request :
  let state := peer_state p rx change link proxies r in
  let '(remote, local) := select_endpoint_for_peer p state checked proxies request in
  (is_Some local ↔ state = PeerProxying ∧ request = None ∧ is_Some checked) ∧
  (∀ l, local = Some l → ∃ c, checked = Some c ∧ remote = Some (remote_endpoint c).1 ∧
    local_address l = (local_endpoint c).1 ∧ session l = checked_session c) ∧
  (∀ ep, (p ≫= endpoint) = Some ep → ep ∉ proxies → state ≠ PeerDisconnected → remote = Some ep) ∧
  (request = None → state = PeerDisconnected → remote = head proxies) ∧
  (∀ e, request = Some e → remote = Some e ∨
    ∃ ep, (p ≫= endpoint) = Some ep ∧ (ep ∉ proxies) ∧ remote = Some ep).
Proof.
  cbv zeta. set (state := peer_state _ _ _ _ _ _).
  assert (∀ ep, (p ≫= endpoint) = Some ep → ep ∉ proxies → state ≠ PeerProxying) as Hprox.
  { intros ep Hep Hn. subst state. unfold peer_state. destruct p as [p|]; [|done]. simpl in Hep.
    rewrite Hep, bool_decide_eq_false_2 by done. by repeat case_match. }
  clearbody state. unfold select_endpoint_for_peer.
  destruct request as [e|]; [|destruct state, checked as [c|]]; simpl.
  2-9: split_and!; rewrite ?is_Some_alt; naive_solver.
  destruct (p ≫= endpoint) as [ep|] eqn:Hep; simpl.
  - destruct ((bool_decide (state = PeerUpgrading) || bool_decide (state = PeerDirect)) &&
      negb (bool_decide (ep ∈ proxies))) eqn:Hk.
    + apply andb_true_iff in Hk as [_ Hn%negb_true_iff%bool_decide_eq_false].
      split_and!; rewrite ?is_Some_alt; naive_solver.
    + split_and!; try (rewrite ?is_Some_alt; naive_solver). intros ep' [= <-] Hn Hs.
      specialize (Hprox ep eq_refl Hn). apply andb_false_iff in Hk.
      rewrite negb_false_iff, bool_decide_eq_true, orb_false_iff, !bool_decide_eq_false in Hk.
      destruct state; naive_solver.
  - split_and!; rewrite ?is_Some_alt; naive_solver.
Qed.
End endpoints.

(** ** A configuration

    A local and an external peer that both claim an address *)
Module ControllerSamples.

#[local] Existing Instance AddrPrefix.nets.
#[local] Existing Instance elements_order.
#[local] Existing Instance elements_order_laws.

#[local] Instance no_nets : Ipnet := {| Ipv4Net := unit; ipv4net_contains _ _ := false |}.

Definition key (n : Z) : PublicKey := mkPublicKey (replicate 32 n).
Definition addr (n : Z) : StdIpAddr := V4 (ipv4_addr 100 64 0 n).

Definition mesh_peer (n : Z) (ips : list StdIpAddr) (local incoming files : bool) : MeshPeer :=
  mkMeshPeer (mkPeerBase "id" (key n) "host" (Some ips) None) local incoming false false files false false.

Definition two_peers : list MeshPeer :=
  [mesh_peer 1 [addr 10; addr 11] false false true; mesh_peer 2 [addr 10] true true false].

Lemma deduplicate_peer_ips_partition_witness :
  deduplicate_peer_ips two_peers !! key 1 = Some [addr 11] ∧ addr 11 ∉ [addr 10].
Proof.
  assert (deduplicate_peer_ips two_peers !! key 1 = Some [addr 11]) as E
    by (vm_compute; reflexivity). split; [exact E|].
  destruct (deduplicate_peer_ips_partition two_peers) as (_ & _ & Hlocal).
  { apply (bool_decide_unpack _). vm_compute. reflexivity. }
  apply (Hlocal (mesh_peer 1 [addr 10; addr 11] false false true) (mesh_peer 2 [addr 10] true true false)
    [addr 11] [addr 10]).
  - left.
  - right; left.
  - reflexivity.
  - reflexivity.
  - exact E.
  - reflexivity.
  - left.
Defined.

Definition requested : RequestedState :=
  mkRequestedState (mkSecretKey []) None
    (Some (mkMeshConfig (mkPeerBase "id" (key 9) "me" (Some [addr 9]) None) (Some two_peers)))
    None None None (mkFeaturePersistentKeepalive None 5 (Some 25%Z) None).

Definition fw0 : StatefullFirewall assoc_map := firewall_new true (mkFeatureFirewall _ false false None).

Lemma consolidate_firewall_exact_witness :
  fw_get_peer_whitelist (consolidate_firewall requested None None fw0).2 IncomingConnections = {[ key 2 ]}.
Proof.
  pose proof (consolidate_firewall_exact requested None None fw0) as Hex.
  destruct (consolidate_firewall requested None None fw0) as [res f'].
  destruct Hex as (_ & Hlists & _). cbn [snd]. rewrite Hlists. vm_compute. reflexivity.
Defined.

#[local] Existing Instance RfcPnet.

Lemma consolidated_access_witness :
  decide_connection_handling (consolidate_firewall requested None None fw0).2 (key 1) 80 = Drop ∧
  decide_connection_handling (consolidate_firewall requested None None fw0).2 (key 1) FILE_SEND_PORT = HandleLocally.
Proof.
  destruct (consolidated_access LRU_CAPACITY LRU_TIMEOUT true (mkFeatureFirewall _ false false None)
    requested None None 0 [] fw0 (fw_reach_new _ _ _ _ 0)) as [Hacc _].
  rewrite !Hacc. split; vm_compute; reflexivity.
Defined.
End ControllerSamples.
