(* ===== verification/Consolidation.v ===== *)
(** * The WireGuard controller: consolidation

    The effectful part of [src/src/device/wg_controller.rs], which brings the
    WireGuard interface, the session keeper, the endpoint providers and the
    firewall in line with the requested state.

    The other components are the interface [Entities]: one operation for each
    method the controller calls, on a world [W] that stands for all of them.  A
    method that can fail is an action; its error ends the consolidation where
    the source has a [?].  Which optional components exist is [Present]. *)

From S2P Require Import Prelude NetTypes WgTypes LruCache Firewall LinkDetection Wg Controller.

Open Scope act_scope.

(** ** Interfaces *)

(** [UpgradeRequest] *)
Record UpgradeRequest := mkUpgradeRequest {
  upgrade_endpoint : SocketAddr;
  requested_at : Instant;
  upgrade_session : Z
}.

(** [SessionData] *)
Record SessionData := mkSessionData { local_ep : EndpointType; remote_ep : EndpointType }.

(** [telio_pq::Keys] *)
Record PqKeys := mkPqKeys { wg_secret : SecretKey; pq_shared : PresharedKey }.

Record Present := mkPresent {
  has_meshnet : bool;
  has_cross_ping_check : bool;
  has_upgrade_sync : bool;
  has_session_keeper : bool;
  has_stun : bool;
  has_upnp : bool;
  has_starcast : bool
}.

Section entities.
Context `{IpNets}.

(** [wg_controller::Error] and the errors of the components it calls *)
Inductive CtlError :=
| BadAllowedIps
| PeerNotFound
| CtlIpNotSet
| NetParseError
| WireGuardError (e : Error)
| OtherError (code : nat).

(** What is read of a [DnsResolver] *)
Record Resolver := mkResolver {
  resolver_public_key : PublicKey;
  resolver_get_peer : list IpNet → Peer;
  get_default_dns_allowed_ips : list IpNet;
  get_exit_connected_dns_allowed_ips : list IpNet
}.

Class Entities (W F : Type) := {
  (** [WireGuard] *)
  wg_get_interface : act W CtlError Interface;
  wg_time_since_last_rx : PublicKey → act W CtlError (option Duration);
  wg_get_link_state : PublicKey → act W CtlError (option LinkState);
  wg_add_peer : Peer → act W CtlError unit;
  wg_del_peer : PublicKey → act W CtlError unit;
  wg_set_secret_key : SecretKey → act W CtlError unit;
  wg_set_fwmark : Z → act W CtlError unit;
  (** [Proxy] *)
  proxy_get_endpoint_map : act W CtlError EndpointMap;
  proxy_mute_peer : PublicKey → option Duration → act W CtlError unit;
  (** [CrossPingCheckTrait] *)
  cpc_get_validated_endpoints : act W CtlError (gmap PublicKey CheckedEndpoint);
  cpc_notify_failed_wg_connection : PublicKey → act W CtlError unit;
  cpc_notify_successfull_wg_connection_upgrade : PublicKey → act W CtlError unit;
  (** [UpgradeSyncTrait] *)
  us_get_upgrade_requests : act W CtlError (gmap PublicKey UpgradeRequest);
  us_request_upgrade : PublicKey → SocketAddr * EndpointType → SocketAddr * EndpointType → Z →
    act W CtlError bool;
  us_get_accepted_session : PublicKey → W → option SessionData * W;
  (** [SessionKeeperTrait] *)
  sk_add_node : PublicKey → Target → Duration → act W CtlError unit;
  sk_remove_node : PublicKey → act W CtlError unit;
  sk_get_interval : PublicKey → W → option Z * W;
  (** [DnsResolver] *)
  dns_resolver : W → option Resolver;
  dns_set_peer_public_key : PublicKey → W → W;
  (** [StarcastPeer] *)
  starcast_get_peer : act W CtlError Peer;
  (** [EndpointProvider] *)
  stun_pause : W → W;
  stun_unpause : W → W;
  stun_is_paused : W → bool * W;
  stun_trigger_endpoint_candidates_discovery : bool → act W CtlError unit;
  upnp_pause : W → W;
  upnp_unpause : W → W;
  (** [PostQuantum] and the task behind it *)
  pq_keys : W → option PqKeys;
  pq_is_rotating_keys : W → bool;
  pq_peer_pubkey : W → option PublicKey;
  pq_restart : W → W;
  (** [ConnectivityDataAggregator] *)
  report_peer_state_relayed : AnalyticsEvent → W → W;
  report_peer_state_direct : AnalyticsEvent → EndpointType → EndpointType → W → W;
  (** [DerpRelay] *)
  get_remote_peer_states : W → gmap PublicKey bool * W;
  (** the firewall *)
  world_firewall : W → F;
  set_world_firewall : F → W → W;
  (** [SecretKey::public], from [crypto_box] *)
  secret_public : SecretKey → PublicKey
}.
End entities.

Section consolidation.
Context `{IpNets} `{!HashOrder PublicKey} {W F : Type} `{!FirewallApi F} `{!Entities W F}.

Abbreviation ctl := (act W CtlError).

(** ** Keys and marks *)

(** [maybe_restart_pq] *)
Definition maybe_restart_pq : ctl unit :=
  w <-- act_get ;;
  match pq_peer_pubkey w with
  | Some pubkey =>
      ifc <-- act_ok wg_get_interface ;;
      let time_since_last_handshake :=
        ifc ← ifc;
        time_since_last_handshake ∘ snd <$>
          head (filter (λ kp : PublicKey * Peer, public_key kp.2 = pubkey) (btree_iter (peers ifc))) in
      act_when (bool_decide (time_since_last_handshake = Some None)) (act_modify pq_restart)
  | None => act_ret tt
  end.

(** [consolidate_wg_private_key] *)
Definition consolidate_wg_private_key (r : RequestedState) : ctl unit :=
  w <-- act_get ;;
  let key := match pq_keys w with Some pq => wg_secret pq | None => device_private_key r end in
  ifc <-- wg_get_interface ;;
  act_when (negb (bool_decide (private_key ifc = Some key)))
    (wg_set_secret_key key ;;;
     w <-- act_get ;;
     match dns_resolver w with
     | Some _ => act_modify (dns_set_peer_public_key (secret_public key))
     | None => act_ret tt
     end).

(** [consolidate_wg_fwmark] *)
Definition consolidate_wg_fwmark (r : RequestedState) : ctl unit :=
  ifc <-- wg_get_interface ;;
  let requested_fwmark := default 0%Z (device_fwmark r) in
  act_when (negb (fwmark ifc =? requested_fwmark)%Z) (wg_set_fwmark requested_fwmark).

(** ** Endpoint invalidation *)

(** The decision for one peer of [consolidate_endpoint_invalidation] *)
Definition should_invalidate_endpoints (actual_peer : Peer) (proxy_endpoints : EndpointMap)
    (published : option CheckedEndpoint) : bool :=
  let is_proxying := is_peer_proxying actual_peer proxy_endpoints in
  match endpoint_changed_at actual_peer, changed_at <$> published with
  | Some (changed, reason), Some published_at =>
      (is_proxying && (published_at <? changed)%Z) ||
      (negb is_proxying && bool_decide (reason = Pull) && (published_at <? changed)%Z)
  | _, _ => false
  end.

(** [consolidate_endpoint_invalidation] *)
Definition consolidate_endpoint_invalidation (c : Present) : ctl unit :=
  if has_meshnet c && has_cross_ping_check c then
    proxy_endpoints <-- proxy_get_endpoint_map ;;
    checked_endpoints <-- cpc_get_validated_endpoints ;;
    ifc <-- wg_get_interface ;;
    act_for (btree_iter (peers ifc)) (λ kp,
      act_when (should_invalidate_endpoints kp.2 proxy_endpoints (checked_endpoints !! kp.1))
        (act_ignore (cpc_notify_failed_wg_connection kp.1)))
  else act_ret tt.

(** ** Requested peers *)

(** The keepalive of a peer, for WireGuard or for the session keeper *)
Definition keepalive_pair (features : Features) (period : option Z) : option Z * option Z :=
  if batching features then (None, period) else (period, None).

(** The first loop of [build_requested_meshnet_peers_list]: one peer of the
    configuration; [ips] are the addresses not handed out yet *)
Definition collect_mesh_peer (r : RequestedState) (features : Features) (proxy_endpoints : EndpointMap)
    (acc : gmap PublicKey (list StdIpAddr) * gmap PublicKey RequestedPeer) (p : MeshPeer)
    : gmap PublicKey (list StdIpAddr) * gmap PublicKey RequestedPeer :=
  let '(ips, out) := acc in
  let k := mesh_key p in
  let '(keepalive, batching_keepalive) :=
    keepalive_pair features (keepalive_proxying (keepalive_periods r)) in
  let allowed :=
    match ips !! k with
    | Some l =>
        omap (λ ip,
          match ip with
          | V4 _ => ipnet_new ip 32
          | V6 _ => if ipv6 features then ipnet_new ip 128 else None
          end) l
    | None => []
    end in
  let wg_peer :=
    set_keepalive keepalive
      (set_allowed_ips allowed
         (set_peer_ip_addresses (default [] (ips !! k))
            (set_endpoint (proxy_endpoints !! k ≫= head) (peer_default k)))) in
  (delete k ips, <[k := mkRequestedPeer wg_peer batching_keepalive None]> out).

(** The times of the second loop *)
Definition last_rx_or_handshake (rx hs : option Duration) : option Duration :=
  match rx, hs with
  | Some rx, Some hs => Some (Z.min rx hs)
  | Some rx, None => Some rx
  | None, Some hs => Some hs
  | None, None => None
  end.

(** The second loop of [build_requested_meshnet_peers_list]: choose the
    endpoint of one peer *)
Definition upgrade_mesh_peer (now : Instant) (r : RequestedState) (c : Present) (features : Features)
    (proxy_endpoints : EndpointMap) (remote_peer_states : gmap PublicKey bool)
    (actual_peers : gmap PublicKey Peer) (checked_endpoints : gmap PublicKey CheckedEndpoint)
    (upgrade_requests : gmap PublicKey UpgradeRequest) (k : PublicKey) (rp : RequestedPeer)
    : ctl RequestedPeer :=
  let actual_peer := actual_peers !! k in
  let since_change := elapsed now ∘ fst <$> (actual_peer ≫= endpoint_changed_at) in
  let proxies := default [] (proxy_endpoints !! k) in
  rx <-- wg_time_since_last_rx k ;;
  let since_rx := last_rx_or_handshake rx (actual_peer ≫= time_since_last_handshake) in
  link <-- wg_get_link_state k ;;
  let state := peer_state actual_peer since_rx since_change link proxies r in
  act_when (bool_decide (state = PeerDirect) && has_cross_ping_check c)
    (cpc_notify_successfull_wg_connection_upgrade k) ;;;
  let '(remote, local) :=
    select_endpoint_for_peer actual_peer state (checked_endpoints !! k) proxies
      (upgrade_endpoint <$> upgrade_requests !! k) in
  let wg_peer := set_endpoint remote (peer rp) in
  let keepalive :=
    if is_peer_proxying wg_peer proxy_endpoints then
      if bool_decide (remote_peer_states !! public_key wg_peer = Some false) then None
      else keepalive_proxying (keepalive_periods r)
    else Some (keepalive_direct (keepalive_periods r)) in
  let '(keepalive, batching_keepalive) := keepalive_pair features keepalive in
  act_ret (mkRequestedPeer (set_keepalive keepalive wg_peer) batching_keepalive local).

(** [build_requested_meshnet_peers_list] *)
Definition build_requested_meshnet_peers_list (now : Instant) (r : RequestedState) (c : Present)
    (proxy_endpoints : EndpointMap) (remote_peer_states : gmap PublicKey bool) (features : Features)
    : ctl (gmap PublicKey RequestedPeer) :=
  match meshnet_config r ≫= mesh_peers with
  | None => act_ret ∅
  | Some config_peers =>
      let '(_, requested_peers) :=
        fold_left (collect_mesh_peer r features proxy_endpoints) config_peers
          (deduplicate_peer_ips config_peers, ∅) in
      ifc <-- wg_get_interface ;;
      checked_endpoints <--
        (if has_cross_ping_check c then cpc_get_validated_endpoints else act_ret ∅) ;;
      upgrade_requests <--
        (if has_upgrade_sync c then us_get_upgrade_requests else act_ret ∅) ;;
      act_foldl (λ out kp,
        rp <-- upgrade_mesh_peer now r c features proxy_endpoints remote_peer_states (peers ifc)
                 checked_endpoints upgrade_requests kp.1 kp.2 ;;
        act_ret (<[kp.1 := rp]> out)) requested_peers (btree_iter requested_peers)
  end.

Definition VPN_INTERNAL_IPV4 : StdIpAddr := V4 (ipv4_addr 100 64 0 1).
Definition VPN_INTERNAL_IPV6 : StdIpAddr := V6 (ipv6_addr [0xfd74; 0x656c; 0x696f; 0; 0; 0; 0; 1]%Z).
Definition VPN_EXTERNAL_IPV4 : StdIpAddr := V4 (ipv4_addr 10 5 0 1).
Definition STUN_IPV4 : StdIpAddr := V4 (ipv4_addr 100 64 0 4).
Definition STUN_IPV6 : StdIpAddr := V6 (ipv6_addr [0xfd74; 0x656c; 0x696f; 0; 0; 0; 0; 4]%Z).

Definition is_ipv4 (a : StdIpAddr) : bool := match a with V4 _ => true | V6 _ => false end.

(** The exit node of [build_requested_peers_list]; the flag says that it is a
    meshnet peer *)
Definition add_exit_node (r : RequestedState) (features : Features)
    (requested_peers : gmap PublicKey RequestedPeer) : ctl (gmap PublicKey RequestedPeer * bool) :=
  match exit_node r with
  | None => act_ret (requested_peers, false)
  | Some e =>
      all_v4 <-- act_ok_or (ipnet_new (V4 0) 0) NetParseError ;;
      all_v6 <-- act_ok_or (ipnet_new (V6 0) 0) NetParseError ;;
      let allowed :=
        filter (λ n, ipv6 features || is_ipv4 (ipnet_addr n) = true)
          (default [all_v4; all_v6] (exit_allowed_ips e)) in
      let k := exit_public_key e in
      match requested_peers !! k with
      | Some rp =>
          act_ret (<[k := mkRequestedPeer (set_allowed_ips allowed (peer rp))
                            (batching_keepalive_interval rp) (requested_endpoint rp)]> requested_peers, true)
      | None =>
          w <-- act_get ;;
          let ips := [VPN_INTERNAL_IPV4] ++ (if ipv6 features then [VPN_INTERNAL_IPV6] else []) ++
                     [VPN_EXTERNAL_IPV4] in
          let '(keepalive, batching_keepalive) :=
            keepalive_pair features (keepalive_vpn (keepalive_periods r)) in
          match pq_is_rotating_keys w, pq_keys w with
          | true, None => act_ret (requested_peers, false)
          | _, keys =>
              let wg_peer :=
                set_preshared_key (pq_shared <$> keys)
                  (set_allowed_ips allowed
                     (set_keepalive keepalive
                        (set_peer_ip_addresses ips
                           (set_endpoint (exit_endpoint e) (peer_default k))))) in
              act_ret (<[k := mkRequestedPeer wg_peer batching_keepalive None]> requested_peers, false)
          end
      end
  end.

(** The DNS peer of [build_requested_peers_list] *)
Definition add_dns_peer (r : RequestedState) (exit_node_exists : bool)
    (requested_peers : gmap PublicKey RequestedPeer) : ctl (gmap PublicKey RequestedPeer) :=
  w <-- act_get ;;
  match upstream_servers r, dns_resolver w with
  | Some _, Some resolver =>
      let dns_allowed_ips :=
        if exit_node_exists then get_exit_connected_dns_allowed_ips resolver
        else get_default_dns_allowed_ips resolver in
      let dns_peer := resolver_get_peer resolver dns_allowed_ips in
      let dns_peer := set_peer_ip_addresses (ipnet_addr <$> allowed_ips dns_peer) dns_peer in
      act_ret (<[public_key dns_peer := mkRequestedPeer dns_peer None None]> requested_peers)
  | _, _ => act_ret requested_peers
  end.

(** The multicast peer of [build_requested_peers_list] *)
Definition add_starcast_peer (c : Present) (requested_peers : gmap PublicKey RequestedPeer)
    : ctl (gmap PublicKey RequestedPeer) :=
  if has_starcast c then
    starcast_peer <-- starcast_get_peer ;;
    act_ret (<[public_key starcast_peer := mkRequestedPeer starcast_peer None None]> requested_peers)
  else act_ret requested_peers.

(** The STUN peer of [build_requested_peers_list] *)
Definition add_stun_peer (r : RequestedState) (c : Present) (features : Features)
    (requested_peers : gmap PublicKey RequestedPeer) : ctl (gmap PublicKey RequestedPeer) :=
  match wg_stun_server r, has_stun c with
  | Some server, true =>
      paused <-- act_lift stun_is_paused ;;
      if negb paused then
        let '(keepalive, batching_keepalive) :=
          keepalive_pair features (keepalive_stun (keepalive_periods r)) in
        v4 <-- act_ok_or (ipnet_new STUN_IPV4 32) NetParseError ;;
        v6 <-- (if ipv6 features then
                  n <-- act_ok_or (ipnet_new STUN_IPV6 128) NetParseError ;; act_ret [n]
                else act_ret []) ;;
        let allowed := v4 :: v6 in
        let k := stun_public_key server in
        let wg_peer :=
          set_allowed_ips allowed
            (set_keepalive keepalive
               (set_peer_ip_addresses (ipnet_addr <$> allowed)
                  (set_endpoint (Some (SocketAddrV4 (stun_ipv4 server) (stun_port server)))
                     (peer_default k)))) in
        act_ret (<[k := mkRequestedPeer wg_peer batching_keepalive None]> requested_peers)
      else act_ret requested_peers
  | _, _ => act_ret requested_peers
  end.

(** [build_requested_peers_list] *)
Definition build_requested_peers_list (now : Instant) (r : RequestedState) (c : Present)
    (proxy_endpoints : EndpointMap) (remote_peer_states : gmap PublicKey bool) (features : Features)
    : ctl (gmap PublicKey RequestedPeer) :=
  requested_peers <--
    build_requested_meshnet_peers_list now r c proxy_endpoints remote_peer_states features ;;
  with_exit <-- add_exit_node r features requested_peers ;;
  with_dns <-- add_dns_peer r with_exit.2 with_exit.1 ;;
  with_starcast <-- add_starcast_peer c with_dns ;;
  add_stun_peer r c features with_starcast.

(** ** The interface *)

(** An analytics event about a peer *)
Definition peer_event (now : Instant) (k : PublicKey) (p : Peer) (state : NodeState) : AnalyticsEvent :=
  mkAnalyticsEvent k (get_dual_ip_addresses p) (default 0%Z (tx_bytes p)) (default 0%Z (rx_bytes p))
    state now.

(** [sk.add_node] with the addresses of a peer, if it has any *)
Definition keep_session (features : Features) (k : PublicKey) (ips : list StdIpAddr) (seconds : Z)
    : ctl unit :=
  let target := build_ping_endpoint ips (ipv6 features) in
  act_when (bool_decide (is_Some target.1) || bool_decide (is_Some target.2))
    (sk_add_node k target (from_secs seconds)).

(** The first loop of [consolidate_wg_peers] *)
Definition delete_peer (now : Instant) (c : Present) (actual_peers : gmap PublicKey Peer)
    (key : PublicKey) : ctl unit :=
  actual_peer <-- act_ok_or (actual_peers !! key) PeerNotFound ;;
  act_modify (report_peer_state_relayed (peer_event now key actual_peer Disconnected)) ;;;
  wg_del_peer key ;;;
  act_when (has_session_keeper c) (sk_remove_node key).

(** The second loop of [consolidate_wg_peers] *)
Definition insert_peer (r : RequestedState) (c : Present) (features : Features)
    (requested_peers : gmap PublicKey RequestedPeer) (key : PublicKey) : ctl unit :=
  rp <-- act_ok_or (requested_peers !! key) PeerNotFound ;;
  wg_add_peer (peer rp) ;;;
  match has_session_keeper c, batching_keepalive_interval rp with
  | true, Some keepalive_interval =>
      keep_session features key (peer_ip_addresses (peer rp)) keepalive_interval
  | _, _ => act_ret tt
  end ;;;
  match has_stun c, wg_stun_server r with
  | true, Some server =>
      act_when (bool_decide (stun_public_key server = key))
        (stun_trigger_endpoint_candidates_discovery false)
  | _, _ => act_ret tt
  end.

(** The session keeper in the third loop *)
Definition update_session (c : Present) (features : Features) (rp : RequestedPeer) (actual_peer : Peer)
    (actual_proxying requested_proxying : bool) (key : PublicKey) : ctl unit :=
  act_when (has_session_keeper c)
    (if negb actual_proxying && requested_proxying && negb (batching features) then sk_remove_node key
     else
       match batching_keepalive_interval rp with
       | Some interval =>
           current <-- act_lift (sk_get_interval key) ;;
           act_when (negb (bool_decide (current = Some interval)) ||
                     negb (bool_decide (peer_ip_addresses (peer rp) = peer_ip_addresses actual_peer)) ||
                     negb (bool_decide (actual_proxying = requested_proxying)))
             (keep_session features key (peer_ip_addresses (peer rp)) interval)
       | None => act_ret tt
       end).

(** The analytics of the third loop *)
Definition report_peer (now : Instant) (c : Present) (actual_peer : Peer) (actual_proxying : bool)
    (key : PublicKey) : ctl unit :=
  let event := peer_event now key actual_peer (peer_node_state actual_peer) in
  if actual_proxying then act_modify (report_peer_state_relayed event)
  else
    act_when (has_upgrade_sync c)
      (accepted <-- act_lift (us_get_accepted_session key) ;;
       match accepted with
       | Some s => act_modify (report_peer_state_direct event (local_ep s) (remote_ep s))
       | None => act_ret tt
       end).

(** What an upgrade to a direct connection leads to, in the third loop *)
Definition announce_upgrade (r : RequestedState) (c : Present) (features : Features) (rp : RequestedPeer)
    : ctl unit :=
  let k := public_key (peer rp) in
  match endpoint (peer rp), requested_endpoint rp, has_upgrade_sync c with
  | Some remote_endpoint, Some e, true =>
      us_request_upgrade k (remote_endpoint, remote_type e) (local_address e, local_type e) (session e) ;;;
      act_ret tt
  | _, _, _ => act_ret tt
  end ;;;
  act_when (has_meshnet c) (proxy_mute_peer k (Some (from_secs DEFAULT_PEER_UPGRADE_WINDOW))) ;;;
  act_when (negb (batching features) && has_session_keeper c)
    (keep_session features k (peer_ip_addresses (peer rp))
       (default (keepalive_direct (keepalive_periods r)) (persistent_keepalive_interval (peer rp)))).

(** The third loop of [consolidate_wg_peers] *)
Definition update_peer (now : Instant) (r : RequestedState) (c : Present) (features : Features)
    (proxy_endpoints : EndpointMap) (requested_peers : gmap PublicKey RequestedPeer)
    (actual_peers : gmap PublicKey Peer) (key : PublicKey) : ctl unit :=
  rp <-- act_ok_or (requested_peers !! key) PeerNotFound ;;
  actual_peer <-- act_ok_or (actual_peers !! key) PeerNotFound ;;
  act_when (negb (compare_peers (peer rp) actual_peer)) (wg_add_peer (peer rp)) ;;;
  let actual_proxying := is_peer_proxying actual_peer proxy_endpoints in
  let requested_proxying := is_peer_proxying (peer rp) proxy_endpoints in
  update_session c features rp actual_peer actual_proxying requested_proxying key ;;;
  report_peer now c actual_peer actual_proxying key ;;;
  act_when (actual_proxying && negb requested_proxying) (announce_upgrade r c features rp).

(** The endpoint providers run while some proxied peer can be upgraded. *)
Definition control_providers (c : Present) (eligible : bool) (w : W) : W :=
  let w := if has_stun c then if eligible then stun_unpause w else stun_pause w else w in
  if has_upnp c then if eligible then upnp_unpause w else upnp_pause w else w.

(** The difference between the requested and the actual peers, applied *)
Definition apply_peers (now : Instant) (r : RequestedState) (c : Present) (features : Features)
    (proxy_endpoints : EndpointMap) (requested_peers : gmap PublicKey RequestedPeer)
    (actual_peers : gmap PublicKey Peer) : ctl unit :=
  let requested_keys : gset PublicKey := dom requested_peers in
  let actual_keys : gset PublicKey := dom actual_peers in
  act_for (hash_iter (actual_keys ∖ requested_keys)) (delete_peer now c actual_peers) ;;;
  act_for (hash_iter (requested_keys ∖ actual_keys)) (insert_peer r c features requested_peers) ;;;
  act_for (hash_iter (requested_keys ∩ actual_keys))
    (update_peer now r c features proxy_endpoints requested_peers actual_peers).

(** [consolidate_wg_peers] *)
Definition consolidate_wg_peers (now : Instant) (r : RequestedState) (c : Present)
    (remote_peer_states : gmap PublicKey bool) (features : Features) : ctl unit :=
  proxy_endpoints <-- (if has_meshnet c then proxy_get_endpoint_map else act_ret ∅) ;;
  ifc <-- wg_get_interface ;;
  let actual_peers := peers ifc in
  let eligible :=
    existsb (λ kp : PublicKey * Peer, is_peer_proxying kp.2 proxy_endpoints &&
      bool_decide (peer_node_state kp.2 = Connected)) (btree_iter actual_peers) in
  act_modify (control_providers c eligible) ;;;
  requested_peers <--
    build_requested_peers_list now r c proxy_endpoints remote_peer_states features ;;
  (if check_allowed_ips_correctness requested_peers then act_ret tt else act_fail BadAllowedIps) ;;;
  apply_peers now r c features proxy_endpoints requested_peers actual_peers.

(** [consolidate_wg_state] *)
Definition consolidate_wg_state (now : Instant) (r : RequestedState) (c : Present) (features : Features)
    : ctl unit :=
  maybe_restart_pq ;;;
  remote_peer_states <-- (if has_meshnet c then act_lift get_remote_peer_states else act_ret ∅) ;;
  consolidate_wg_private_key r ;;;
  consolidate_wg_fwmark r ;;;
  consolidate_endpoint_invalidation c ;;;
  consolidate_wg_peers now r c remote_peer_states features ;;;
  consolidate_endpoint_invalidation c ;;;
  starcast_pub_key <--
    (if has_starcast c then p <-- starcast_get_peer ;; act_ret (Some (public_key p)) else act_ret None) ;;
  w <-- act_get ;;
  let dns_pubkey := resolver_public_key <$> dns_resolver w in
  let '(res, f) := consolidate_firewall r starcast_pub_key dns_pubkey (world_firewall w) in
  act_modify (set_world_firewall f) ;;;
  match res with
  | Ok _ => act_ret tt
  | Err IpNotSet => act_fail CtlIpNotSet
  end.
End consolidation.
