(* ===== verification/ConsolidationProps.v ===== *)
(** * Consolidation reaches the requested state

    Theorems about [Consolidation] against a contract of the components it
    calls: the WireGuard component carries out [add_peer] and [del_peer], and
    no other call touches the configuration of its peers.  A second
    contract, of components that answer, is for the theorem that a
    consolidation succeeds.  [Integration] shows that the task of [Wg] fulfils
    both. *)

From S2P Require Import Prelude NetTypes WgTypes LruCache Firewall LinkDetection Wg WgProps Controller ControllerProps Consolidation.

Open Scope act_scope.

(** ** The contract *)

Section contract.
Context `{IpNets} {W F : Type} `{!FirewallApi F} `{!Entities W F}.

(** The configuration that [add_peer] leaves: a missing keepalive is zero. *)
Definition normal_config (p : Peer)
    : PublicKey * option SocketAddr * option Z * list IpNet * option PresharedKey :=
  (public_key p, endpoint p, Some (default 0%Z (persistent_keepalive_interval p)), allowed_ips p,
   preshared_key p).

Lemma normal_config_eq p q : config p = config q → normal_config p = normal_config q.
Proof. unfold config, normal_config. by intros [= -> -> -> -> ->]. Qed.

(** [wg_state_ok] is the invariant of the WireGuard component and [wg_peers] are
    its peers. *)
Class WireGuardView (W : Type) := {
  wg_state_ok : W → Prop;
  wg_peers : W → gmap PublicKey Peer
}.

Context `{!WireGuardView W}.

Definition same_config (w w' : W) : Prop :=
  wg_state_ok w' ∧ ∀ k, config <$> wg_peers w' !! k = config <$> wg_peers w !! k.

(** A call that leaves the configuration of WireGuard alone *)
Definition quiet {A} (m : act W CtlError A) : Prop :=
  ∀ w, wg_state_ok w → same_config w (m w).2.

Definition quiet_fun (f : W → W) : Prop := ∀ w, wg_state_ok w → same_config w (f w).
End contract.

Class EntitiesLaws (W F : Type) `{IpNets} `{!FirewallApi F} `{!Entities W F} `{!WireGuardView W} : Prop := {
  law_get_interface : quiet wg_get_interface;
  law_get_interface_peers w i w' : wg_state_ok w →
    wg_get_interface w = (Ok i, w') → peers i = wg_peers w;
  law_add_peer p w w' : wg_state_ok w → wg_add_peer p w = (Ok tt, w') →
    wg_state_ok w' ∧ ∀ k, config <$> wg_peers w' !! k =
      if decide (k = public_key p) then Some (normal_config p) else config <$> wg_peers w !! k;
  law_del_peer key w w' : wg_state_ok w → wg_del_peer key w = (Ok tt, w') →
    wg_state_ok w' ∧ ∀ k, config <$> wg_peers w' !! k =
      if decide (k = key) then None else config <$> wg_peers w !! k;
  law_time_since_last_rx k : quiet (wg_time_since_last_rx k);
  law_get_link_state k : quiet (wg_get_link_state k);
  law_get_endpoint_map : quiet proxy_get_endpoint_map;
  law_mute_peer k d : quiet (proxy_mute_peer k d);
  law_get_validated_endpoints : quiet cpc_get_validated_endpoints;
  law_notify_successfull k : quiet (cpc_notify_successfull_wg_connection_upgrade k);
  law_get_upgrade_requests : quiet us_get_upgrade_requests;
  law_request_upgrade k a b s : quiet (us_request_upgrade k a b s);
  law_get_accepted_session k : quiet_fun (λ w, (us_get_accepted_session k w).2);
  law_add_node k t d : quiet (sk_add_node k t d);
  law_remove_node k : quiet (sk_remove_node k);
  law_get_interval k : quiet_fun (λ w, (sk_get_interval k w).2);
  law_starcast_get_peer : quiet starcast_get_peer;
  law_stun_pause : quiet_fun stun_pause;
  law_stun_unpause : quiet_fun stun_unpause;
  law_stun_is_paused : quiet_fun (λ w, (stun_is_paused w).2);
  law_stun_trigger b : quiet (stun_trigger_endpoint_candidates_discovery b);
  law_upnp_pause : quiet_fun upnp_pause;
  law_upnp_unpause : quiet_fun upnp_unpause;
  law_report_relayed e : quiet_fun (report_peer_state_relayed e);
  law_report_direct e a b : quiet_fun (report_peer_state_direct e a b)
}.

Create HintDb quiet.
#[export] Hint Resolve law_get_interface law_time_since_last_rx law_get_link_state law_get_endpoint_map
  law_mute_peer law_get_validated_endpoints law_notify_successfull law_get_upgrade_requests
  law_request_upgrade law_get_accepted_session law_add_node law_remove_node law_get_interval
  law_starcast_get_peer law_stun_pause law_stun_unpause law_stun_is_paused law_stun_trigger
  law_upnp_pause law_upnp_unpause law_report_relayed law_report_direct : quiet.

Section quiet.
Context `{IpNets} `{!HashOrder PublicKey} `{!HashOrderLaws PublicKey}.
Context {W F : Type} `{!FirewallApi F} `{!Entities W F} `{!WireGuardView W} `{!EntitiesLaws W F}.

Lemma same_config_refl (w : W) : wg_state_ok w → same_config w w.
Proof. by split. Qed.

Lemma same_config_trans (w1 w2 w3 : W) : same_config w1 w2 → same_config w2 w3 → same_config w1 w3.
Proof. intros [_ E1] [Hok E2]. split; [done|]. intros k. by rewrite E2, E1. Qed.

Lemma quiet_ret {A} (a : A) : quiet (W:=W) (act_ret a).
Proof. intros w Hw. by apply same_config_refl. Qed.

Lemma quiet_fail {A} e : quiet (W:=W) (A:=A) (act_fail e).
Proof. intros w Hw. by apply same_config_refl. Qed.

Lemma quiet_get : quiet (W:=W) act_get.
Proof. intros w Hw. by apply same_config_refl. Qed.

Lemma quiet_bind {A B} (m : act W CtlError A) (f : A → act W CtlError B) :
  quiet m → (∀ a, quiet (f a)) → quiet (act_bind m f).
Proof.
  intros Hm Hf w Hw. specialize (Hm w Hw). unfold act_bind. destruct (m w) as [[a|e] w1]; [|done].
  simpl in Hm. eapply same_config_trans; [done|]. apply Hf, Hm.
Qed.

Lemma quiet_when b (m : act W CtlError unit) : quiet m → quiet (act_when b m).
Proof. destruct b; [done|]. intros _. apply quiet_ret. Qed.

Lemma quiet_modify (f : W → W) : quiet_fun f → quiet (act_modify f).
Proof. done. Qed.

Lemma quiet_lift {A} (f : W → A * W) : quiet_fun (λ w, (f w).2) → quiet (act_lift f).
Proof. intros Hf w Hw. specialize (Hf w Hw). simpl in Hf. unfold act_lift. by destruct (f w). Qed.

Lemma quiet_ok_or {A} (o : option A) e : quiet (W:=W) (act_ok_or o e).
Proof. destruct o; [apply quiet_ret|apply quiet_fail]. Qed.

Lemma quiet_foldl {A B} (f : B → A → act W CtlError B) b l :
  (∀ b x, quiet (f b x)) → quiet (act_foldl f b l).
Proof.
  intros Hf. revert b. induction l as [|x l IH]; intros b; simpl; [apply quiet_ret|].
  by apply quiet_bind.
Qed.
End quiet.

#[export] Hint Resolve quiet_ret quiet_fail quiet_get quiet_ok_or : quiet.

(** Reduce a call to the calls it is made of. *)
Ltac quiet_step :=
  match goal with
  | |- forall _, _ => intros
  | |- quiet (act_bind _ _) => apply quiet_bind
  | |- quiet (act_when _ _) => apply quiet_when
  | |- quiet (act_modify _) => apply quiet_modify
  | |- quiet (act_lift _) => apply quiet_lift
  | |- quiet (act_foldl _ _ _) => apply quiet_foldl
  | |- quiet (match ?x with _ => _ end) => destruct x
  | |- quiet _ => solve [eauto with quiet]
  | |- quiet_fun _ => solve [eauto with quiet]
  end.
Ltac quiet_calls := repeat quiet_step.

Section requested.
Context `{IpNets} `{!HashOrder PublicKey} `{!HashOrderLaws PublicKey}.
Context {W F : Type} `{!FirewallApi F} `{!Entities W F} `{!WireGuardView W} `{!EntitiesLaws W F}.

(** ** The requested list *)

Lemma upgrade_mesh_peer_quiet now r c features pe rs ap ce ur k rp :
  quiet (upgrade_mesh_peer now r c features pe rs ap ce ur k rp).
Proof. unfold upgrade_mesh_peer, keepalive_pair. quiet_calls. Qed.

Lemma build_mesh_quiet now r c pe rs features :
  quiet (build_requested_meshnet_peers_list now r c pe rs features).
Proof.
  unfold build_requested_meshnet_peers_list. quiet_calls. apply upgrade_mesh_peer_quiet.
Qed.

Lemma build_requested_peers_list_quiet now r c pe rs features :
  quiet (build_requested_peers_list now r c pe rs features).
Proof.
  unfold build_requested_peers_list, add_exit_node, add_dns_peer, add_starcast_peer, add_stun_peer,
    keepalive_pair.
  quiet_calls. apply build_mesh_quiet.
Qed.

(** A successful call returns a value with the property. *)
Definition yields {A} (P : A → Prop) (m : act W CtlError A) : Prop :=
  ∀ w a w', m w = (Ok a, w') → P a.

Lemma yields_ret {A} (P : A → Prop) a : P a → yields P (act_ret a).
Proof. intros Ha w b w' [= <- _]. done. Qed.

Lemma yields_bind {A B} (Q : A → Prop) (P : B → Prop) m (f : A → act W CtlError B) :
  yields Q m → (∀ a, Q a → yields P (f a)) → yields P (act_bind m f).
Proof. intros Hm Hf w b w' (a & w1 & E1 & E2)%act_bind_Ok. eapply Hf; [|done]. by eapply Hm. Qed.

Lemma yields_bind_any {A B} (P : B → Prop) m (f : A → act W CtlError B) :
  (∀ a, yields P (f a)) → yields P (act_bind m f).
Proof. intros Hf. apply (yields_bind (λ _, True)); [done|auto]. Qed.

Lemma yields_foldl {A B} (P : B → Prop) (f : B → A → act W CtlError B) b l :
  P b → (∀ b x, x ∈ l → P b → yields P (f b x)) → yields P (act_foldl f b l).
Proof.
  revert b. induction l as [|x l IH]; intros b Hb Hf; simpl; [by apply yields_ret|].
  apply (yields_bind P); [apply Hf; [left|done]|]. intros b' Hb'. apply IH; [done|].
  intros b'' y Hy. apply Hf. by right.
Qed.

(** Every requested peer is listed under its own key. *)
Definition req_keyed (m : gmap PublicKey RequestedPeer) : Prop :=
  ∀ k rp, m !! k = Some rp → public_key (peer rp) = k.

Lemma req_keyed_insert m k rp : public_key (peer rp) = k → req_keyed m → req_keyed (<[k := rp]> m).
Proof. intros Hk Hm k' rp' [[<- <-]|[_ Hl]]%lookup_insert_Some; [done|by apply Hm]. Qed.

Lemma collect_keyed r features pe l ips m :
  req_keyed m → req_keyed (fold_left (collect_mesh_peer r features pe) l (ips, m)).2.
Proof.
  revert ips m. induction l as [|p l IH]; intros ips m Hm; [done|]. cbn [fold_left].
  unfold collect_mesh_peer at 2, keepalive_pair. destruct (batching features);
    (apply IH, req_keyed_insert; [reflexivity|done]).
Qed.

Lemma upgrade_mesh_peer_key now r c features pe rs ap ce ur k rp :
  yields (λ rp', public_key (peer rp') = public_key (peer rp))
    (upgrade_mesh_peer now r c features pe rs ap ce ur k rp).
Proof.
  unfold upgrade_mesh_peer, keepalive_pair. do 3 (apply yields_bind_any; intros ?).
  destruct (select_endpoint_for_peer _ _ _ _ _). destruct (batching features); by apply yields_ret.
Qed.

Lemma build_mesh_keyed now r c pe rs features :
  yields req_keyed (build_requested_meshnet_peers_list now r c pe rs features).
Proof.
  unfold build_requested_meshnet_peers_list. case_match; [|by apply yields_ret].
  pose proof (collect_keyed r features pe l (deduplicate_peer_ips l) ∅) as Hc.
  destruct (fold_left _ _ _) as [ips m]. simpl in Hc.
  assert (req_keyed m) as Hm by by apply Hc.
  do 3 (apply yields_bind_any; intros ?). apply yields_foldl; [done|].
  intros b [k rp] Hin%elem_of_btree_iter Hb. eapply yields_bind; [apply upgrade_mesh_peer_key|].
  intros rp' Hrp'. apply yields_ret, req_keyed_insert; [|done]. simpl in *. rewrite Hrp'. by apply Hm.
Qed.

Lemma build_requested_peers_list_keyed now r c pe rs features :
  yields req_keyed (build_requested_peers_list now r c pe rs features).
Proof.
  unfold build_requested_peers_list. eapply yields_bind; [apply build_mesh_keyed|]. intros m1 Hm1.
  apply (yields_bind (λ x, req_keyed x.1)).
  { unfold add_exit_node, keepalive_pair. destruct (exit_node r) as [e|]; [|by apply yields_ret].
    do 2 (apply yields_bind_any; intros ?). destruct (m1 !! exit_public_key e) as [rp|] eqn:E.
    - apply yields_ret, req_keyed_insert; [|done]. simpl. by apply Hm1.
    - apply yields_bind_any. intros w. destruct (batching features);
        repeat case_match; apply yields_ret; try done; by apply req_keyed_insert. }
  intros [m2 b] Hm2. simpl in Hm2. apply (yields_bind req_keyed).
  { apply yields_bind_any. intros w.
    repeat case_match; apply yields_ret; try done; by apply req_keyed_insert. }
  intros m3 Hm3. apply (yields_bind req_keyed).
  { unfold add_starcast_peer. case_match; [|by apply yields_ret]. apply yields_bind_any. intros p.
    apply yields_ret. by apply req_keyed_insert. }
  intros m4 Hm4. unfold add_stun_peer, keepalive_pair. repeat case_match; try (by apply yields_ret).
  all: apply yields_bind_any; intros paused; destruct paused; simpl; try (by apply yields_ret).
  all: repeat case_match; do 2 (apply yields_bind_any; intros ?); apply yields_ret; by apply req_keyed_insert.
Qed.
End requested.

(** ** The meshnet list *)

Section meshnet.
Context `{IpNets} `{!IpNetsLaws} `{!HashOrder PublicKey} `{!HashOrderLaws PublicKey}.
Context {W F : Type} `{!FirewallApi F} `{!Entities W F}.

(** The allowed IPs of a requested peer are addresses handed out to it. *)
Definition from_config (ips : gmap PublicKey (list StdIpAddr)) (m : gmap PublicKey RequestedPeer) : Prop :=
  ∀ k rp net, m !! k = Some rp → net ∈ allowed_ips (peer rp) → ∃ l, ips !! k = Some l ∧ ipnet_addr net ∈ l.

Lemma collect_allowed r features pe p ips m ips0 :
  (∀ k l, ips !! k = Some l → ips0 !! k = Some l) → from_config ips0 m →
  let '(ips', m') := collect_mesh_peer r features pe (ips, m) p in
  (∀ k l, ips' !! k = Some l → ips0 !! k = Some l) ∧ from_config ips0 m'.
Proof.
  intros Hips Hm. unfold collect_mesh_peer.
  destruct (keepalive_pair features _) as [ka bka]. split.
  { intros k l [_ Hl]%lookup_delete_Some. auto. }
  intros k rp net [[<- <-]|[_ Hl]]%lookup_insert_Some; [|by apply Hm]. simpl.
  destruct (ips !! mesh_key p) as [l|] eqn:E; [|by intros ?%elem_of_nil]. intros Hnet.
  exists l. split; [auto|]. apply list_elem_of_omap in Hnet as (ip & Hip & Hnew).
  destruct ip as [a|a]; [|destruct (ipv6 features); [|done]]; by rewrite (ipnet_new_addr _ _ _ Hnew).
Qed.

Lemma collect_all_allowed r features pe l ips m ips0 :
  (∀ k l, ips !! k = Some l → ips0 !! k = Some l) → from_config ips0 m →
  from_config ips0 (fold_left (collect_mesh_peer r features pe) l (ips, m)).2.
Proof.
  revert ips m. induction l as [|p l IH]; intros ips m Hips Hm; [done|]. cbn [fold_left].
  pose proof (collect_allowed r features pe p ips m ips0 Hips Hm) as Hstep.
  destruct (collect_mesh_peer r features pe (ips, m) p) as [ips' m']. destruct Hstep. by apply IH.
Qed.

Lemma upgrade_mesh_peer_allowed now r c features pe rs ap ce ur k rp :
  yields (W:=W) (λ rp', allowed_ips (peer rp') = allowed_ips (peer rp))
    (upgrade_mesh_peer now r c features pe rs ap ce ur k rp).
Proof.
  unfold upgrade_mesh_peer, keepalive_pair. do 3 (apply yields_bind_any; intros ?).
  destruct (select_endpoint_for_peer _ _ _ _ _). destruct (batching features); by apply yields_ret.
Qed.

Lemma build_mesh_from_config now r c pe rs features :
  yields (W:=W) (λ m, ∃ ps, from_config (deduplicate_peer_ips ps) m)
    (build_requested_meshnet_peers_list now r c pe rs features).
Proof.
  unfold build_requested_meshnet_peers_list. destruct (meshnet_config r ≫= mesh_peers) as [l|].
  2:{ apply yields_ret. exists []. intros k rp net Hl. by rewrite lookup_empty in Hl. }
  pose proof (collect_all_allowed r features pe l (deduplicate_peer_ips l) ∅ (deduplicate_peer_ips l)) as Hc.
  destruct (fold_left _ _ _) as [ips m0]. simpl in Hc.
  assert (from_config (deduplicate_peer_ips l) m0) as Hm0
    by (apply Hc; [done|intros k rp net Hl; by rewrite lookup_empty in Hl]).
  do 3 (apply yields_bind_any; intros ?). intros w m w' E. exists l. revert w m w' E.
  apply yields_foldl; [done|].
  intros b [k rp] Hin%elem_of_btree_iter Hb. eapply yields_bind; [apply upgrade_mesh_peer_allowed|].
  intros rp' Hrp'. apply yields_ret.
  intros k' rp'' net [[<- <-]|[_ Hl]]%lookup_insert_Some; [|by apply Hb].
  simpl in *. rewrite Hrp'. by apply Hm0.
Qed.

(** The list of meshnet peers always passes the check of the allowed IPs:
    whatever addresses and keys the configuration holds, no two of the peers
    that [build_requested_meshnet_peers_list] returns share an allowed IP. *)
Theorem meshnet_list_passes_check now r c pe rs features (w : W) m w' :
  build_requested_meshnet_peers_list now r c pe rs features w = (Ok m, w') →
  check_allowed_ips_correctness m = true.
Proof.
  intros (ps & Hm)%build_mesh_from_config. apply check_allowed_ips_complete.
  intros k1 k2 p1 p2 ip E1 E2 Hne Hip1 Hip2. destruct (Hm k1 p1 ip E1 Hip1) as (l1 & ? & ?).
  destruct (Hm k2 p2 ip E2 Hip2) as (l2 & ? & ?). apply Hne.
  by apply (deduplicate_peer_ips_once ps k1 k2 l1 l2 (ipnet_addr ip)).
Qed.

Lemma upgrade_mesh_peer_batching now r c features pe rs ap ce ur k rp :
  batching features = true →
  yields (W:=W) (λ rp', persistent_keepalive_interval (peer rp') = None)
    (upgrade_mesh_peer now r c features pe rs ap ce ur k rp).
Proof.
  intros Hb. unfold upgrade_mesh_peer, keepalive_pair. do 3 (apply yields_bind_any; intros ?).
  destruct (select_endpoint_for_peer _ _ _ _ _). rewrite Hb. by apply yields_ret.
Qed.

(** Every meshnet peer of a batching device is requested without keepalive. *)
Definition no_keepalive (m : gmap PublicKey RequestedPeer) : Prop :=
  ∀ k rp, m !! k = Some rp → persistent_keepalive_interval (peer rp) = None.

Lemma collect_batching r features pe l ips m :
  batching features = true → no_keepalive m →
  no_keepalive (fold_left (collect_mesh_peer r features pe) l (ips, m)).2.
Proof.
  intros Hb. revert ips m. induction l as [|p l IH]; intros ips m Hm; [done|]. cbn [fold_left].
  unfold collect_mesh_peer at 2, keepalive_pair. rewrite Hb. apply IH.
  intros k rp [[<- <-]|[_ Hl]]%lookup_insert_Some; [done|by apply (Hm k)].
Qed.

Lemma build_mesh_batching now r c pe rs features :
  batching features = true →
  yields (W:=W) no_keepalive (build_requested_meshnet_peers_list now r c pe rs features).
Proof.
  intros Hb. unfold build_requested_meshnet_peers_list.
  assert (no_keepalive ∅) as Hempty by (intros k rp Hl; by rewrite lookup_empty in Hl).
  destruct (meshnet_config r ≫= mesh_peers) as [l|]; [|by apply yields_ret].
  pose proof (collect_batching r features pe l (deduplicate_peer_ips l) ∅ Hb Hempty) as Hc.
  destruct (fold_left _ _ _) as [ips m0]. do 3 (apply yields_bind_any; intros ?).
  apply yields_foldl; [done|]. intros b [k rp] _ Hb'. eapply yields_bind; [by apply upgrade_mesh_peer_batching|].
  intros rp' Hrp'. apply yields_ret.
  intros k' rp'' [[<- <-]|[_ Hl]]%lookup_insert_Some; [done|by apply (Hb' k')].
Qed.

(** A device that batches keepalives and does not use link detection for
    downgrades never keeps a direct connection: its meshnet peers are
    requested without keepalive, [add_peer] stores that as a keepalive of
    zero, and three times zero is the time after which [peer_state] calls the
    peer disconnected, whatever was received; so, but for a request of the
    other side, the endpoint chosen is the one of the proxy. *)
Theorem batching_forces_proxy now r c pe rs features (w : W) m w' k rp old rx change checked proxies :
  batching features = true →
  build_requested_meshnet_peers_list now r c pe rs features w = (Ok m, w') → m !! k = Some rp →
  (∀ d, rx = Some d → (0 <= d)%Z) →
  let p := Some (merge_peer old (peer rp)) in
  let state := peer_state p rx change None proxies r in
  state = PeerDisconnected ∧
  select_endpoint_for_peer p state checked proxies None = (head proxies, None).
Proof.
  intros Hb Hm Hk Hrx p state.
  assert (persistent_keepalive_interval (merge_peer old (peer rp)) = Some 0%Z) as Hka.
  { pose proof (build_mesh_batching now r c pe rs features Hb w m w' Hm k rp Hk) as Hka.
    unfold merge_peer. destruct old, (peer rp); simpl in *; by subst. }
  assert (state = PeerDisconnected) as ->; [|done]. unfold state, p, peer_state. simpl. rewrite Hka.
  destruct change as [d|]; [|done]. destruct rx as [x|]; [|done]. specialize (Hrx x eq_refl). simpl.
  replace (x <? from_secs (wrap 32 (0 * 3)))%Z with false; [done|].
  symmetry. apply Z.ltb_ge. done.
Qed.
End meshnet.

Section apply.
Context `{IpNets} `{!HashOrder PublicKey} `{!HashOrderLaws PublicKey}.
Context {W F : Type} `{!FirewallApi F} `{!Entities W F} `{!WireGuardView W} `{!EntitiesLaws W F}.
Variables (now : Instant) (r : RequestedState) (c : Present) (features : Features).
Variables (proxy_endpoints : EndpointMap).
Variables (requested : gmap PublicKey RequestedPeer) (actual : gmap PublicKey Peer).

(** ** Applying the difference *)

(** The configuration when the keys [P] are done *)
Definition reached (P : list PublicKey) (w : W) : Prop :=
  wg_state_ok w ∧ ∀ k, normal_config <$> wg_peers w !! k =
    if decide (k ∈ P) then normal_config ∘ peer <$> requested !! k else normal_config <$> actual !! k.

Lemma normal_of_config (p q : option Peer) :
  config <$> p = config <$> q → normal_config <$> p = normal_config <$> q.
Proof.
  destruct p as [p|], q as [q|]; simpl; try done. intros [= E]. f_equal. apply normal_config_eq.
  unfold config. congruence.
Qed.

Lemma normal_config_idem q p : config <$> q = Some (normal_config p) → normal_config <$> q = Some (normal_config p).
Proof. destruct q as [q|]; [|done]. unfold config, normal_config. simpl. by intros [= -> -> -> -> ->]. Qed.

Lemma reached_same P w w' : reached P w → same_config w w' → reached P w'.
Proof.
  intros [Hok Hr] [Hok' Hs]. split; [done|]. intros k. rewrite <-Hr. by apply normal_of_config.
Qed.

(** A call after which key [k] is done *)
Lemma reached_step P k w w' :
  reached P w → wg_state_ok w' →
  normal_config <$> wg_peers w' !! k = normal_config ∘ peer <$> requested !! k →
  (∀ k', k' ≠ k → config <$> wg_peers w' !! k' = config <$> wg_peers w !! k') →
  reached (P ++ [k]) w'.
Proof.
  intros [_ Hr] Hok Hk Hne. split; [done|]. intros k'.
  destruct (decide (k' = k)) as [->|E]; [by rewrite decide_True by set_solver|].
  rewrite (normal_of_config _ _ (Hne k' E)), Hr.
  by rewrite (decide_ext (k' ∈ P ++ [k]) (k' ∈ P)) by set_solver.
Qed.

Lemma delete_peer_reached P k w w' :
  requested !! k = None → reached P w → delete_peer now c actual k w = (Ok tt, w') →
  reached (P ++ [k]) w'.
Proof.
  intros Hk Hr Hrun. unfold delete_peer in Hrun.
  apply act_bind_Ok in Hrun as (p & w0 & E0 & Hrun). apply act_bind_Ok in Hrun as ([] & w1 & E1 & Hrun).
  apply act_bind_Ok in Hrun as ([] & w2 & E2 & Hrun).
  assert (w0 = w) as -> by (unfold act_ok_or, act_ret in E0; destruct (actual !! k); by simplify_eq).
  assert (same_config w w1) as H1.
  { injection E1 as <-. apply law_report_relayed, Hr. }
  destruct (law_del_peer k w1 w2 (proj1 H1) E2) as [Hok2 Hd].
  assert (same_config w2 w') as H3.
  { replace w' with (act_when (has_session_keeper c) (sk_remove_node k) w2).2 by by rewrite Hrun.
    apply quiet_when; [apply law_remove_node|done]. }
  eapply reached_same; [|done]. eapply reached_step; [by eapply reached_same|done| |].
  - specialize (Hd k). rewrite decide_True in Hd by done. rewrite Hk.
    by destruct (wg_peers w2 !! k).
  - intros k' Hne. specialize (Hd k'). by rewrite decide_False in Hd.
Qed.

(** [wg_add_peer] of a requested peer *)
Lemma add_peer_reached P k rp w w' :
  req_keyed requested → requested !! k = Some rp → reached P w →
  wg_add_peer (peer rp) w = (Ok tt, w') → reached (P ++ [k]) w'.
Proof.
  intros Hkey Hk Hr Hadd. pose proof (Hkey k rp Hk) as Hpk.
  destruct (law_add_peer (peer rp) w w' (proj1 Hr) Hadd) as [Hok Ha]. rewrite Hpk in Ha.
  eapply reached_step; [done|done| |].
  - specialize (Ha k). rewrite decide_True in Ha by done. rewrite Hk. by apply normal_config_idem.
  - intros k' Hne. specialize (Ha k'). by rewrite decide_False in Ha.
Qed.

Lemma quiet_Ok {A} (m : act W CtlError A) w a w' :
  quiet m → m w = (Ok a, w') → wg_state_ok w → same_config w w'.
Proof. intros Hq E Hw. specialize (Hq w Hw). by rewrite E in Hq. Qed.

Lemma insert_peer_reached P k w w' :
  req_keyed requested → reached P w → insert_peer r c features requested k w = (Ok tt, w') →
  reached (P ++ [k]) w'.
Proof.
  intros Hkey Hr Hrun. unfold insert_peer in Hrun.
  apply act_bind_Ok in Hrun as (rp & w0 & E0 & Hrun). apply act_bind_Ok in Hrun as ([] & w1 & E1 & Hrun).
  unfold act_ok_or in E0. destruct (requested !! k) as [rp'|] eqn:Hk; [|done].
  injection E0 as -> ->. assert (reached (P ++ [k]) w1) as H1 by by eapply add_peer_reached.
  eapply reached_same; [done|]. eapply quiet_Ok; [|done|apply H1]. unfold keep_session. quiet_calls.
Qed.

Lemma compare_peers_config p q : compare_peers p q = true → config p = config q.
Proof.
  unfold compare_peers, config. rewrite !andb_true_iff, !bool_decide_eq_true.
  intros ((((? & ?) & ?) & ?) & ?). congruence.
Qed.

Lemma update_peer_reached P k w w' :
  req_keyed requested → k ∉ P → reached P w →
  update_peer now r c features proxy_endpoints requested actual k w = (Ok tt, w') →
  reached (P ++ [k]) w'.
Proof.
  intros Hkey HP Hr Hrun. unfold update_peer in Hrun.
  apply act_bind_Ok in Hrun as (rp & w0 & E0 & Hrun). apply act_bind_Ok in Hrun as (p & w1 & E1 & Hrun).
  apply act_bind_Ok in Hrun as ([] & w2 & E2 & Hrun).
  unfold act_ok_or in E0, E1. destruct (requested !! k) as [rp'|] eqn:Hk; [|done]. injection E0 as -> ->.
  destruct (actual !! k) as [p'|] eqn:Ha; [|done]. injection E1 as -> ->.
  assert (reached (P ++ [k]) w2) as H2.
  { destruct (compare_peers (peer rp) p) eqn:Hc; simpl in E2; [|by eapply add_peer_reached].
    injection E2 as ->. eapply reached_step; [done|apply Hr| |done].
    rewrite (proj2 Hr k), decide_False, Ha, Hk by done. simpl. f_equal.
    by apply normal_config_eq, eq_sym, compare_peers_config. }
  eapply reached_same; [done|]. eapply quiet_Ok; [|done|apply H2].
  unfold update_session, report_peer, announce_upgrade, keep_session. quiet_calls.
Qed.

(** One loop over keys that are not done yet *)
Lemma reached_loop (f : PublicKey → act W CtlError unit) P l w w' :
  NoDup l → (∀ k, k ∈ l → k ∉ P) → reached P w → act_for l f w = (Ok tt, w') →
  (∀ k P w w', k ∈ l → k ∉ P → reached P w → f k w = (Ok tt, w') → reached (P ++ [k]) w') →
  reached (P ++ l) w'.
Proof.
  intros Hd Hn Hr Hrun Hf. apply (act_for_Ok (λ l w, reached (P ++ l) w) f l w w' Hrun);
    [by rewrite app_nil_r|].
  intros l1 k l2 w1 w2 -> Hr1 E. apply NoDup_app in Hd as (_ & Hl1 & _). rewrite app_assoc.
  eapply Hf; [set_solver| |done|done]. rewrite not_elem_of_app. split; [set_solver|].
  intros Hk. apply (Hl1 k Hk). set_solver.
Qed.

Lemma apply_peers_reached w w' :
  req_keyed requested → wg_state_ok w →
  (∀ k, config <$> wg_peers w !! k = config <$> actual !! k) →
  apply_peers now r c features proxy_endpoints requested actual w = (Ok tt, w') →
  wg_state_ok w' ∧ ∀ k, normal_config <$> wg_peers w' !! k = normal_config ∘ peer <$> requested !! k.
Proof.
  intros Hkey Hok Hact Hrun. unfold apply_peers in Hrun.
  set (D := hash_iter (dom actual ∖ dom requested)) in Hrun.
  set (I := hash_iter (dom requested ∖ dom actual)) in Hrun.
  set (U := hash_iter (dom requested ∩ dom actual)) in Hrun.
  assert (∀ k, k ∈ D ↔ is_Some (actual !! k) ∧ requested !! k = None) as HD.
  { intros k. unfold D. by rewrite elem_of_hash_iter, elem_of_difference, not_elem_of_dom, elem_of_dom. }
  assert (∀ k, k ∈ I ↔ is_Some (requested !! k) ∧ actual !! k = None) as HI.
  { intros k. unfold I. by rewrite elem_of_hash_iter, elem_of_difference, not_elem_of_dom, elem_of_dom. }
  assert (∀ k, k ∈ U ↔ is_Some (requested !! k) ∧ is_Some (actual !! k)) as HU.
  { intros k. unfold U. by rewrite elem_of_hash_iter, elem_of_intersection, !elem_of_dom. }
  apply act_bind_Ok in Hrun as ([] & w1 & E1 & Hrun). apply act_bind_Ok in Hrun as ([] & w2 & E2 & E3).
  assert (reached [] w) as H0.
  { split; [done|]. intros k. by apply normal_of_config. }
  assert (reached ([] ++ D) w1) as H1.
  { eapply reached_loop; [apply NoDup_hash_iter|set_solver|done|exact E1|].
    intros k P v v' [_ Hn]%HD _ Hr. by apply delete_peer_reached. }
  assert (reached (([] ++ D) ++ I) w2) as H2.
  { eapply reached_loop; [apply NoDup_hash_iter| |done|exact E2|].
    - intros k [[? E] _]%HI [_ E']%HD. congruence.
    - intros k P v v' _ _ Hr. by apply insert_peer_reached. }
  assert (reached ((([] ++ D) ++ I) ++ U) w') as [Hok' H3].
  { eapply reached_loop; [apply NoDup_hash_iter| |done|exact E3|].
    - intros k [[? Er] [? Ea]]%HU [[_ E]%HD|[_ E]%HI]%elem_of_app; congruence.
    - intros k P v v' _ HP Hr. by apply update_peer_reached. }
  split; [done|]. intros k. rewrite H3. case_decide as Hin; [done|].
  simpl in Hin. rewrite !elem_of_app, HD, HI, HU in Hin.
  destruct (requested !! k), (actual !! k); [exfalso..|done]; apply Hin; eauto 6.
Qed.
End apply.

Section theorems.
Context `{IpNets} `{!HashOrder PublicKey} `{!HashOrderLaws PublicKey}.
Context {W F : Type} `{!FirewallApi F} `{!Entities W F} `{!WireGuardView W} `{!EntitiesLaws W F}.

Lemma control_providers_quiet c e : quiet_fun (control_providers (W:=W) c e).
Proof.
  intros w Hw. unfold control_providers.
  match goal with |- context [if has_upnp c then if e then upnp_unpause ?v else _ else _] => set (w1 := v) end.
  assert (same_config w w1) as H1.
  { subst w1. destruct (has_stun c), e; [by apply law_stun_unpause|by apply law_stun_pause|by apply same_config_refl..]. }
  eapply same_config_trans; [exact H1|].
  destruct (has_upnp c), e; [apply law_upnp_unpause, H1|apply law_upnp_pause, H1|apply same_config_refl, H1..].
Qed.

(** The steps of [consolidate_wg_peers] before the difference is applied: from
    [w] they lead to [w'], with the proxy endpoints, the peers found on the
    interface and the requested peers. *)
Definition planned now r c remote_states features (w : W) (pe : EndpointMap)
    (actual : gmap PublicKey Peer) (requested : gmap PublicKey RequestedPeer) (w' : W) : Prop :=
  ∃ w1 ifc w2,
    (if has_meshnet c then proxy_get_endpoint_map else act_ret ∅) w = (Ok pe, w1) ∧
    wg_get_interface w1 = (Ok ifc, w2) ∧ peers ifc = actual ∧
    build_requested_peers_list now r c pe remote_states features
      (control_providers c
         (existsb (λ kp : PublicKey * Peer, is_peer_proxying kp.2 pe &&
            bool_decide (peer_node_state kp.2 = Connected)) (btree_iter actual)) w2) =
      (Ok requested, w').

Lemma consolidate_planned now r c remote_states features w pe actual requested w' :
  planned now r c remote_states features w pe actual requested w' →
  consolidate_wg_peers now r c remote_states features w =
    if check_allowed_ips_correctness requested
    then apply_peers now r c features pe requested actual w' else (Err BadAllowedIps, w').
Proof.
  intros (w1 & ifc & w2 & E1 & E2 & <- & E3). unfold consolidate_wg_peers.
  unfold act_bind at 1. rewrite E1. unfold act_bind at 1. rewrite E2.
  unfold act_bind at 1, act_modify at 1. unfold act_bind at 1. rewrite E3. unfold act_bind at 1.
  by destruct (check_allowed_ips_correctness requested).
Qed.

Lemma consolidate_Ok_planned now r c remote_states features w w' :
  consolidate_wg_peers now r c remote_states features w = (Ok tt, w') →
  ∃ pe actual requested w1, planned now r c remote_states features w pe actual requested w1 ∧
    check_allowed_ips_correctness requested = true ∧
    apply_peers now r c features pe requested actual w1 = (Ok tt, w').
Proof.
  intros Hrun. unfold consolidate_wg_peers in Hrun.
  apply act_bind_Ok in Hrun as (pe & w1 & E1 & Hrun). apply act_bind_Ok in Hrun as (ifc & w2 & E2 & Hrun).
  apply act_bind_Ok in Hrun as ([] & w3 & E3 & Hrun).
  apply act_bind_Ok in Hrun as (requested & w4 & E4 & Hrun).
  apply act_bind_Ok in Hrun as ([] & w5 & E5 & Hrun). injection E3 as <-.
  destruct (check_allowed_ips_correctness requested) eqn:Hc; [|done]. injection E5 as ->.
  exists pe, (peers ifc), requested, w5. split_and!; [|done|exact Hrun]. by exists w1, ifc, w2.
Qed.

(** What the plan leaves alone, and what the peers it found are *)
Lemma planned_config now r c remote_states features w pe actual requested w' :
  wg_state_ok w → planned now r c remote_states features w pe actual requested w' →
  wg_state_ok w' ∧ req_keyed requested ∧
  ∀ k, config <$> wg_peers w' !! k = config <$> actual !! k.
Proof.
  intros Hok (w1 & ifc & w2 & E1 & E2 & <- & E3).
  assert (same_config w w1) as H1 by (eapply quiet_Ok; [|exact E1|done]; quiet_calls).
  assert (same_config w1 w2) as H2 by (eapply quiet_Ok; [|exact E2|apply H1]; quiet_calls).
  match type of E3 with build_requested_peers_list _ _ _ _ _ _ ?v = _ =>
    assert (same_config w2 v) as H3 by apply control_providers_quiet, H2;
    assert (same_config v w') as H4
      by (eapply quiet_Ok; [apply build_requested_peers_list_quiet|exact E3|apply H3]) end.
  split; [apply H4|]. split; [by eapply build_requested_peers_list_keyed|]. intros k.
  rewrite (law_get_interface_peers w1 ifc w2 (proj1 H1) E2).
  by rewrite (proj2 H4), (proj2 H3), (proj2 H2).
Qed.

Lemma consolidate_reaches now r c remote_states features w w' :
  wg_state_ok w → consolidate_wg_peers now r c remote_states features w = (Ok tt, w') →
  wg_state_ok w' ∧
  ∃ pe actual requested w1, planned now r c remote_states features w pe actual requested w1 ∧
    ∀ k, normal_config <$> wg_peers w' !! k = normal_config ∘ peer <$> requested !! k.
Proof.
  intros Hok (pe & actual & requested & w1 & Hp & Hc & Hrun)%consolidate_Ok_planned.
  destruct (planned_config _ _ _ _ _ _ _ _ _ _ Hok Hp) as (Hok1 & Hkey & Hact).
  destruct (apply_peers_reached now r c features pe requested actual w1 w' Hkey Hok1 Hact Hrun) as [Hok' Hr].
  split; [done|]. by exists pe, actual, requested, w1.
Qed.

(** C3: a consolidation of the peers that succeeds leaves WireGuard configured
    as requested: the peers of the interface are exactly those of the list
    that [build_requested_peers_list] built, with the requested endpoint,
    keepalive (none is zero), allowed IPs and preshared key. *)
Theorem consolidate_wg_peers_converges now r c remote_states features w w' :
  wg_state_ok w → consolidate_wg_peers now r c remote_states features w = (Ok tt, w') →
  ∃ pe actual requested w1, planned now r c remote_states features w pe actual requested w1 ∧
    ∀ k, normal_config <$> wg_peers w' !! k = normal_config ∘ peer <$> requested !! k.
Proof. intros Hok Hrun. by apply consolidate_reaches. Qed.
End theorems.

(** ** Calls that succeed *)

(** A call that succeeds and leaves the configuration of WireGuard alone *)
Definition serves {W A : Type} `{IpNets} `{!WireGuardView W} (m : act W CtlError A) : Prop :=
  ∀ w, wg_state_ok w → ∃ a w', m w = (Ok a, w') ∧ same_config w w'.

(** [p] wants an allowed IP that another peer holds. *)
Definition conflicts {W : Type} `{IpNets} `{!WireGuardView W} (p : Peer) (w : W) : Prop :=
  ∃ k q ip, wg_peers w !! k = Some q ∧ k ≠ public_key p ∧ ip ∈ allowed_ips p ∧ ip ∈ allowed_ips q.

(** Components that do not fail, but for a WireGuard that refuses exactly the
    peers with an allowed IP that another one holds *)
Class Reliable (W F : Type) `{IpNets} `{!FirewallApi F} `{!Entities W F} `{!WireGuardView W} : Prop := {
  rel_get_interface : serves wg_get_interface;
  rel_add_peer p w : wg_state_ok w → ¬ conflicts p w → ∃ w', wg_add_peer p w = (Ok tt, w');
  rel_add_peer_refused p w : wg_state_ok w → conflicts p w →
    wg_add_peer p w = (Err (WireGuardError DuplicateAllowedIPsError), w);
  rel_del_peer k w : wg_state_ok w → ∃ w', wg_del_peer k w = (Ok tt, w');
  rel_time_since_last_rx k : serves (wg_time_since_last_rx k);
  rel_get_link_state k : serves (wg_get_link_state k);
  rel_get_endpoint_map : serves proxy_get_endpoint_map;
  rel_mute_peer k d : serves (proxy_mute_peer k d);
  rel_get_validated_endpoints : serves cpc_get_validated_endpoints;
  rel_notify_successfull k : serves (cpc_notify_successfull_wg_connection_upgrade k);
  rel_get_upgrade_requests : serves us_get_upgrade_requests;
  rel_request_upgrade k a b s : serves (us_request_upgrade k a b s);
  rel_add_node k t d : serves (sk_add_node k t d);
  rel_remove_node k : serves (sk_remove_node k);
  rel_starcast_get_peer : serves starcast_get_peer;
  rel_stun_trigger b : serves (stun_trigger_endpoint_candidates_discovery b)
}.

Create HintDb serves.
#[export] Hint Resolve rel_get_interface rel_time_since_last_rx rel_get_link_state
  rel_get_endpoint_map rel_mute_peer rel_get_validated_endpoints rel_notify_successfull
  rel_get_upgrade_requests rel_request_upgrade rel_add_node rel_remove_node rel_starcast_get_peer
  rel_stun_trigger : serves.

Section serves.
Context {W : Type} `{IpNets} `{!WireGuardView W}.

Lemma serves_ret {A} (a : A) : serves (W:=W) (act_ret a).
Proof. intros w Hw. by exists a, w. Qed.

Lemma serves_get : serves (W:=W) act_get.
Proof. intros w Hw. by exists w, w. Qed.

Lemma serves_bind {A B} (m : act W CtlError A) (f : A → act W CtlError B) :
  serves m → (∀ a, serves (f a)) → serves (act_bind m f).
Proof.
  intros Hm Hf w Hw. unfold act_bind. destruct (Hm w Hw) as (a & w1 & -> & H1).
  destruct (Hf a w1 (proj1 H1)) as (b & w2 & -> & H2). exists b, w2. split; [done|].
  by apply (same_config_trans w w1 w2).
Qed.

Lemma serves_when b (m : act W CtlError unit) : serves m → serves (act_when b m).
Proof. destruct b; [done|]. intros _. apply serves_ret. Qed.

Lemma serves_modify (f : W → W) : quiet_fun f → serves (act_modify f).
Proof. intros Hf w Hw. exists tt, (f w). split; [done|]. by apply Hf. Qed.

Lemma serves_lift {A} (f : W → A * W) : quiet_fun (λ w, (f w).2) → serves (act_lift f).
Proof.
  intros Hf w Hw. specialize (Hf w Hw). simpl in Hf. unfold act_lift. destruct (f w) as [a w'].
  by exists a, w'.
Qed.

Lemma serves_ok_or {A} (o : option A) e : is_Some o → serves (W:=W) (act_ok_or o e).
Proof. intros [a ->]. apply serves_ret. Qed.

Lemma serves_foldl {A B} (f : B → A → act W CtlError B) b l :
  (∀ b x, serves (f b x)) → serves (act_foldl f b l).
Proof.
  intros Hf. revert b. induction l as [|x l IH]; intros b; simpl; [apply serves_ret|].
  by apply serves_bind.
Qed.
End serves.

#[export] Hint Resolve serves_ret serves_get : serves.

Ltac serves_step :=
  match goal with
  | |- forall _, _ => intros
  | |- serves (act_bind _ _) => apply serves_bind
  | |- serves (act_when _ _) => apply serves_when
  | |- serves (act_foldl _ _ _) => apply serves_foldl
  | |- serves (act_modify _) => apply serves_modify; solve [eauto with quiet]
  | |- serves (act_lift _) => apply serves_lift; solve [eauto with quiet]
  | |- serves (match ?x with _ => _ end) => destruct x
  | |- serves _ => solve [eauto with serves]
  end.
Ltac serves_calls := repeat serves_step.

Section reliable.
Context `{IpNets} `{!IpNetsLaws} `{!HashOrder PublicKey} `{!HashOrderLaws PublicKey}.
Context {W F : Type} `{!FirewallApi F} `{!Entities W F} `{!WireGuardView W} `{!EntitiesLaws W F}.
Context `{!Reliable W F}.

Lemma build_requested_meshnet_peers_list_serves now r c pe rs features :
  serves (build_requested_meshnet_peers_list now r c pe rs features).
Proof.
  unfold build_requested_meshnet_peers_list, upgrade_mesh_peer, keepalive_pair. serves_calls.
Qed.

Lemma build_requested_peers_list_serves now r c pe rs features :
  serves (build_requested_peers_list now r c pe rs features).
Proof.
  unfold build_requested_peers_list, add_exit_node, add_dns_peer, add_starcast_peer, add_stun_peer,
    keepalive_pair.
  serves_calls; try apply build_requested_meshnet_peers_list_serves;
    apply serves_ok_or, ipnet_new_Some; simpl; lia.
Qed.

Lemma planned_exists now r c remote_states features w :
  wg_state_ok w → ∃ pe actual requested w', planned now r c remote_states features w pe actual requested w'.
Proof.
  intros Hw.
  assert (serves (if has_meshnet c then proxy_get_endpoint_map else act_ret (S:=W) ∅)) as Hs
    by serves_calls.
  destruct (Hs w Hw) as (pe & w1 & E1 & H1).
  destruct (rel_get_interface w1 (proj1 H1)) as (ifc & w2 & E2 & H2).
  exists pe, (peers ifc). unfold planned.
  match goal with |- context [control_providers c ?e] =>
    pose proof (control_providers_quiet c e w2 (proj1 H2)) as H3 end.
  edestruct build_requested_peers_list_serves as (requested & w3 & E3 & _); [exact (proj1 H3)|].
  exists requested, w3, w1, ifc, w2. split_and!; [exact E1|exact E2|done|exact E3].
Qed.
(** No requested peer wants an allowed IP that a peer which stays holds now. *)
Definition free (requested : gmap PublicKey RequestedPeer) (actual : gmap PublicKey Peer) : Prop :=
  ∀ k k' rp p ip, requested !! k = Some rp → actual !! k' = Some p → is_Some (requested !! k') →
    k ≠ k' → ip ∈ allowed_ips (peer rp) → ip ∉ allowed_ips p.

Section steps.
Variables (now : Instant) (r : RequestedState) (c : Present) (features : Features).
Variables (pe : EndpointMap).
Variables (requested : gmap PublicKey RequestedPeer) (actual : gmap PublicKey Peer).
Hypothesis Hkey : req_keyed requested.

Lemma reached_ips P w k q :
  reached requested actual P w → wg_peers w !! k = Some q →
  if decide (k ∈ P) then ∃ rp, requested !! k = Some rp ∧ allowed_ips q = allowed_ips (peer rp)
  else ∃ p, actual !! k = Some p ∧ allowed_ips q = allowed_ips p.
Proof.
  intros [_ Hr] Hq. specialize (Hr k). rewrite Hq in Hr. case_decide.
  - destruct (requested !! k) as [rp|]; [|done]. injection Hr as _ _ _ E _. by exists rp.
  - destruct (actual !! k) as [p|]; [|done]. injection Hr as _ _ _ E _. by exists p.
Qed.

Lemma reached_no_conflict P w k rp :
  check_allowed_ips_correctness requested = true → free requested actual →
  (∀ k, is_Some (actual !! k) → requested !! k = None → k ∈ P) →
  reached requested actual P w → requested !! k = Some rp → ¬ conflicts (peer rp) w.
Proof.
  intros Hc Hf HD Hr Hk (k' & q & ip & Hq & Hne & Hip & Hip'). rewrite (Hkey k rp Hk) in Hne.
  pose proof (reached_ips P w k' q Hr Hq) as Hips. case_decide as HP.
  - destruct Hips as (rp' & Hk' & E). rewrite E in Hip'.
    exact (check_allowed_ips_correct requested k k' rp rp' ip Hc Hk Hk' (not_eq_sym Hne) Hip Hip').
  - destruct Hips as (p & Ha & E). rewrite E in Hip'.
    destruct (requested !! k') as [rp'|] eqn:Hk'; [|by apply HP, HD].
    exact (Hf k k' rp p ip Hk Ha (ex_intro _ rp' Hk') (not_eq_sym Hne) Hip Hip').
Qed.

Lemma serves_run {A} (m : act W CtlError A) w : serves m → wg_state_ok w → ∃ a w', m w = (Ok a, w').
Proof. intros Hm Hw. destruct (Hm w Hw) as (a & w' & E & _). by exists a, w'. Qed.

Lemma delete_peer_runs k w :
  is_Some (actual !! k) → wg_state_ok w → ∃ w', delete_peer now c actual k w = (Ok tt, w').
Proof.
  intros [p Hp] Hw. unfold delete_peer. rewrite Hp. unfold act_bind, act_ok_or, act_ret, act_modify.
  pose proof (law_report_relayed (peer_event now k p Disconnected) w Hw) as [H1 _].
  destruct (rel_del_peer k _ H1) as (w2 & E2). rewrite E2.
  pose proof (law_del_peer k _ w2 H1 E2) as [H2 _].
  destruct (serves_run (act_when (has_session_keeper c) (sk_remove_node k)) w2) as ([] & w3 & E3);
    [serves_calls|done|]. by exists w3.
Qed.

Lemma insert_peer_runs k rp w :
  requested !! k = Some rp → wg_state_ok w → ¬ conflicts (peer rp) w →
  ∃ w', insert_peer r c features requested k w = (Ok tt, w').
Proof.
  intros Hk Hw Hn. unfold insert_peer. rewrite Hk. unfold act_bind at 1, act_ok_or, act_ret at 1.
  destruct (rel_add_peer _ _ Hw Hn) as (w1 & E1). unfold act_bind at 1. rewrite E1.
  pose proof (law_add_peer _ _ _ Hw E1) as [H1 _].
  match goal with |- ∃ w', ?m w1 = _ => assert (serves m) as Hm by (unfold keep_session; serves_calls) end.
  destruct (serves_run _ w1 Hm H1) as ([] & w2 & E2). by exists w2.
Qed.

Lemma update_peer_runs k rp p w :
  requested !! k = Some rp → actual !! k = Some p → wg_state_ok w → ¬ conflicts (peer rp) w →
  ∃ w', update_peer now r c features pe requested actual k w = (Ok tt, w').
Proof.
  intros Hk Hp Hw Hn. unfold update_peer. rewrite Hk, Hp.
  do 2 (unfold act_bind at 1, act_ok_or at 1, act_ret at 1).
  destruct (rel_add_peer _ _ Hw Hn) as (w1 & E1). pose proof (law_add_peer _ _ _ Hw E1) as [H1 _].
  assert (∃ w2, act_when (negb (compare_peers (peer rp) p)) (wg_add_peer (peer rp)) w = (Ok tt, w2) ∧
    wg_state_ok w2) as (w2 & E2 & H2)
    by (destruct (negb (compare_peers (peer rp) p)); [by exists w1|by exists w]).
  unfold act_bind at 1. rewrite E2.
  match goal with |- ∃ w', ?m w2 = _ => assert (serves m) as Hm
    by (unfold update_session, report_peer, announce_upgrade, keep_session; serves_calls) end.
  destruct (serves_run _ w2 Hm H2) as ([] & w3 & E3). by exists w3.
Qed.

(** One loop, each step of which succeeds *)
Lemma loop_runs (f : PublicKey → act W CtlError unit) P l w :
  NoDup l → (∀ k, k ∈ l → k ∉ P) → reached requested actual P w →
  (∀ k P' w, k ∈ l → k ∉ P' → (∀ k, k ∈ P → k ∈ P') → reached requested actual P' w →
     ∃ w', f k w = (Ok tt, w') ∧ reached requested actual (P' ++ [k]) w') →
  ∃ w', act_for l f w = (Ok tt, w') ∧ reached requested actual (P ++ l) w'.
Proof.
  intros Hd Hn Hr Hf. apply (act_for_ok (λ l w, reached requested actual (P ++ l) w));
    [by rewrite app_nil_r|].
  intros l1 k l2 w1 -> Hr1. apply NoDup_app in Hd as (_ & Hl1 & _). rewrite app_assoc.
  apply Hf; [set_solver| |set_solver|done]. rewrite not_elem_of_app. split; [set_solver|].
  intros Hk. apply (Hl1 k Hk). set_solver.
Qed.

(** The peers that go away are gone in [P]. *)
Definition past_deletes (P : list PublicKey) : Prop :=
  ∀ k, is_Some (actual !! k) → requested !! k = None → k ∈ P.

Lemma deletes_run w :
  reached requested actual [] w →
  ∃ w', act_for (hash_iter (dom actual ∖ dom requested)) (delete_peer now c actual) w = (Ok tt, w') ∧
    reached requested actual (hash_iter (dom actual ∖ dom requested)) w'.
Proof.
  intros Hr. apply (loop_runs _ []); [apply NoDup_hash_iter|set_solver|done|].
  intros k P v Hk%elem_of_hash_iter _ _ Hv. rewrite elem_of_difference, not_elem_of_dom, elem_of_dom in Hk.
  destruct (delete_peer_runs k v (proj1 Hk) (proj1 Hv)) as (v' & E). exists v'. split; [done|].
  exact (delete_peer_reached now c requested actual P k v v' (proj2 Hk) Hv E).
Qed.

(** A new peer that wants an allowed IP of a peer that stays *)
Lemma inserts_refused P l w w' k rp k' p ip :
  NoDup l → (∀ k, k ∈ l → k ∉ P) → reached requested actual P w →
  k ∈ l → requested !! k = Some rp → actual !! k' = Some p → (k' ∉ P ++ l) →
  ip ∈ allowed_ips (peer rp) → ip ∈ allowed_ips p →
  act_for l (insert_peer r c features requested) w ≠ (Ok tt, w').
Proof.
  intros Hd Hn Hr Hkl Hk Hk' HP Hip Hip' Hrun.
  cut (reached requested actual (P ++ l) w' ∧ k ∉ l); [by intros [_ ?]|].
  apply (act_for_Ok (λ l w, reached requested actual (P ++ l) w ∧ k ∉ l) _ l w w' Hrun);
    [rewrite app_nil_r; by split; [|apply not_elem_of_nil]|].
  intros l1 x l2 v v' -> [Hv Hl1] E. rewrite app_assoc. split.
  { exact (insert_peer_reached r c features requested actual _ x v v' Hkey Hv E). }
  rewrite not_elem_of_app, list_elem_of_singleton. split; [done|]. intros <-.
  assert (k' ∉ P ++ l1) as HP1 by set_solver.
  destruct (wg_peers v !! k') as [q|] eqn:Hq.
  2:{ destruct Hv as [_ Hv]. specialize (Hv k'). by rewrite decide_False, Hq, Hk' in Hv by done. }
  pose proof (reached_ips _ _ _ _ Hv Hq) as Hips. rewrite decide_False in Hips by done.
  destruct Hips as (p' & Hp' & Eq). simplify_eq. rewrite <-Eq in Hip'.
  assert (conflicts (peer rp) v) as Hconf.
  { exists k', q, ip. split_and!; try done. rewrite (Hkey k rp Hk). intros ->. set_solver. }
  unfold insert_peer, act_bind, act_ok_or in E. rewrite Hk in E. unfold act_ret in E.
  rewrite (rel_add_peer_refused _ _ (proj1 Hv) Hconf) in E. done.
Qed.
Hypothesis Hc : check_allowed_ips_correctness requested = true.
Hypothesis Hf : free requested actual.

Lemma inserts_run P l w :
  NoDup l → (∀ k, k ∈ l → (k ∉ P) ∧ is_Some (requested !! k)) → past_deletes P →
  reached requested actual P w →
  ∃ w', act_for l (insert_peer r c features requested) w = (Ok tt, w') ∧
    reached requested actual (P ++ l) w'.
Proof.
  intros Hd Hl HD Hr. apply loop_runs; [done|by intros k [? _]%Hl|done|].
  intros k P' v Hk _ HP Hv. destruct (Hl k Hk) as [_ [rp Hrp]].
  assert (¬ conflicts (peer rp) v) as Hn
    by (apply (reached_no_conflict P' v k rp Hc Hf); [intros k' ??; by apply HP, HD|done..]).
  destruct (insert_peer_runs k rp v Hrp (proj1 Hv) Hn) as (v' & E). exists v'. split; [done|].
  exact (insert_peer_reached r c features requested actual P' k v v' Hkey Hv E).
Qed.

Lemma updates_run P l w :
  NoDup l → (∀ k, k ∈ l → (k ∉ P) ∧ is_Some (requested !! k) ∧ is_Some (actual !! k)) →
  past_deletes P → reached requested actual P w →
  ∃ w', act_for l (update_peer now r c features pe requested actual) w = (Ok tt, w') ∧
    reached requested actual (P ++ l) w'.
Proof.
  intros Hd Hl HD Hr. apply loop_runs; [done|by intros k [? _]%Hl|done|].
  intros k P' v Hk HkP HP Hv. destruct (Hl k Hk) as (_ & [rp Hrp] & [p Hp]).
  assert (¬ conflicts (peer rp) v) as Hn
    by (apply (reached_no_conflict P' v k rp Hc Hf); [intros k' ??; by apply HP, HD|done..]).
  destruct (update_peer_runs k rp p v Hrp Hp (proj1 Hv) Hn) as (v' & E). exists v'. split; [done|].
  exact (update_peer_reached now r c features pe requested actual P' k v v' Hkey HkP Hv E).
Qed.

Lemma apply_peers_runs w :
  reached requested actual [] w →
  ∃ w', apply_peers now r c features pe requested actual w = (Ok tt, w').
Proof.
  intros Hr0. unfold apply_peers, act_bind. destruct (deletes_run w Hr0) as (w1 & -> & Hr1).
  assert (past_deletes (hash_iter (dom actual ∖ dom requested))) as HD.
  { intros k Ha Hn. by rewrite elem_of_hash_iter, elem_of_difference, not_elem_of_dom, elem_of_dom. }
  edestruct (inserts_run (hash_iter (dom actual ∖ dom requested)) (hash_iter (dom requested ∖ dom actual)) w1) as (w2 & -> & Hr2);
    [apply NoDup_hash_iter| |exact HD|exact Hr1|].
  { intros k. rewrite !elem_of_hash_iter, <-elem_of_dom. set_solver. }
  edestruct (updates_run (hash_iter (dom actual ∖ dom requested) ++ hash_iter (dom requested ∖ dom actual))
    (hash_iter (dom requested ∩ dom actual)) w2) as (w3 & -> & _);
    [apply NoDup_hash_iter| | |exact Hr2|by exists w3].
  - intros k. rewrite elem_of_app, !elem_of_hash_iter, <-!elem_of_dom. set_solver.
  - intros k Ha Hn. apply elem_of_app. left. by apply HD.
Qed.

End steps.

Lemma reached_nil requested actual w :
  wg_state_ok w → (∀ k, config <$> wg_peers w !! k = config <$> actual !! k) →
  reached requested actual [] w.
Proof. intros Hok Hact. split; [done|]. intros k. by apply normal_of_config. Qed.

(** C19: with components that answer, [consolidate_wg_peers] returns: it gives
    up with [BadAllowedIps] before it touches the peers when two requested
    peers share an allowed IP, and it succeeds when none does and none wants
    an allowed IP that another peer which stays holds on the interface.  In
    neither case is a peer reported as not found. *)
Theorem consolidate_wg_peers_succeeds now r c remote_states features w :
  wg_state_ok w →
  (∃ pe actual requested w1, planned now r c remote_states features w pe actual requested w1) ∧
  ∀ pe actual requested w1, planned now r c remote_states features w pe actual requested w1 →
    (check_allowed_ips_correctness requested = false →
       consolidate_wg_peers now r c remote_states features w = (Err BadAllowedIps, w1)) ∧
    (check_allowed_ips_correctness requested = true → free requested actual →
       ∃ w', consolidate_wg_peers now r c remote_states features w = (Ok tt, w')).
Proof.
  intros Hok. split; [by apply planned_exists|]. intros pe actual requested w1 Hp.
  rewrite (consolidate_planned _ _ _ _ _ _ _ _ _ _ Hp). split; [by intros ->|]. intros Hc Hf. rewrite Hc.
  destruct (planned_config _ _ _ _ _ _ _ _ _ _ Hok Hp) as (Hok1 & Hkey & Hact).
  apply apply_peers_runs; [done..|]. by apply reached_nil.
Qed.

(** [consolidate_wg_peers] adds the new peers before it updates the ones
    that stay, so a new peer that is to take over an allowed IP from a peer
    that stays is refused, and the consolidation does not succeed: an exit
    node cannot be replaced by a new one while it remains a peer. *)
Theorem takeover_not_consolidated now r c remote_states features w w' pe actual requested w1 k rp k' p ip :
  wg_state_ok w → planned now r c remote_states features w pe actual requested w1 →
  requested !! k = Some rp → actual !! k = None →
  actual !! k' = Some p → is_Some (requested !! k') →
  ip ∈ allowed_ips (peer rp) → ip ∈ allowed_ips p →
  consolidate_wg_peers now r c remote_states features w ≠ (Ok tt, w').
Proof.
  intros Hok Hp Hk Hka Hk' Hr' Hip Hip'. rewrite (consolidate_planned _ _ _ _ _ _ _ _ _ _ Hp).
  case_match; [|done]. destruct (planned_config _ _ _ _ _ _ _ _ _ _ Hok Hp) as (Hok1 & Hkey & Hact).
  pose proof (reached_nil requested actual w1 Hok1 Hact) as Hr0.
  destruct (deletes_run now c requested actual Hkey w1 Hr0) as (w2 & E & Hr2).
  unfold apply_peers. intros Hrun. apply act_bind_Ok in Hrun as ([] & w3 & E1 & Hrun).
  rewrite E in E1. injection E1 as <-. apply act_bind_Ok in Hrun as ([] & w4 & E2 & _).
  revert E2. apply (inserts_refused r c features requested actual Hkey
    (hash_iter (dom actual ∖ dom requested)) _ _ _ k rp k' p ip); try done.
  - apply NoDup_hash_iter.
  - intros x. rewrite !elem_of_hash_iter. set_solver.
  - rewrite elem_of_hash_iter, elem_of_difference, elem_of_dom, not_elem_of_dom. by rewrite Hk.
  - rewrite elem_of_app, !elem_of_hash_iter, !elem_of_difference, !elem_of_dom. rewrite Hk'.
    intros [[_ Hn]|[_ Hn]]; apply Hn; [done|by exists p].
Qed.
End reliable.
