(* ===== verification/Integration.v ===== *)
(** * The WireGuard task under the controller

    The task of [Wg] keeps the contract that the theorems of
    [ConsolidationProps] ask of WireGuard: a world made of a clock, the task,
    whatever adapter it drives, and the firewall, for a device without the
    optional components.  The witnesses run the controller in that world. *)

From S2P Require Import Prelude NetTypes WgTypes LruCache Firewall LinkDetection Wg WgProps Controller ControllerProps Consolidation ConsolidationProps.

Open Scope act_scope.

Record World {nets : IpNets} (A F : Type) := mkWorld {
  clock : Instant;
  task : State A;
  world_fw : F
}.
Arguments mkWorld {_ A F} _ _ _.
Arguments clock {_ A F} _.
Arguments task {_ A F} _.
Arguments world_fw {_ A F} _.

Section world.
Context `{IpNets} `{!HashOrder PublicKey} `{!HashOrderLaws PublicKey}.
Context {A : Type} `{!Adapter A} {F : Type} `{!FirewallApi F}.

(** A request to the task, at the time of the clock *)
Definition on_task {X} (m : Instant → act (State A) Error X) : act (World A F) CtlError X := λ w,
  let '(r, s) := m (clock w) (task w) in
  (match r with Ok a => Ok a | Err e => Err (WireGuardError e) end, mkWorld (clock w) s (world_fw w)).

#[export] Instance World_entities : Entities (World A F) F := {|
  wg_get_interface := on_task (λ _, get_interface);
  wg_time_since_last_rx k := on_task (λ now, time_since_last_rx_req now k);
  wg_get_link_state k := on_task (λ _, get_link_state k);
  wg_add_peer p := on_task (λ now, add_peer now p);
  wg_del_peer k := on_task (λ now, del_peer now k);
  wg_set_secret_key k := on_task (λ now, set_secret_key now k);
  wg_set_fwmark m := on_task (λ now, set_fwmark now m);
  proxy_get_endpoint_map := act_ret ∅;
  proxy_mute_peer _ _ := act_ret tt;
  cpc_get_validated_endpoints := act_ret ∅;
  cpc_notify_failed_wg_connection _ := act_ret tt;
  cpc_notify_successfull_wg_connection_upgrade _ := act_ret tt;
  us_get_upgrade_requests := act_ret ∅;
  us_request_upgrade _ _ _ _ := act_ret false;
  us_get_accepted_session _ w := (None, w);
  sk_add_node _ _ _ := act_ret tt;
  sk_remove_node _ := act_ret tt;
  sk_get_interval _ w := (None, w);
  dns_resolver _ := None;
  dns_set_peer_public_key _ w := w;
  starcast_get_peer := act_ret (peer_default public_key_default);
  stun_pause w := w;
  stun_unpause w := w;
  stun_is_paused w := (true, w);
  stun_trigger_endpoint_candidates_discovery _ := act_ret tt;
  upnp_pause w := w;
  upnp_unpause w := w;
  pq_keys _ := None;
  pq_is_rotating_keys _ := false;
  pq_peer_pubkey _ := None;
  pq_restart w := w;
  report_peer_state_relayed _ w := w;
  report_peer_state_direct _ _ _ w := w;
  get_remote_peer_states w := (∅, w);
  world_firewall := world_fw;
  set_world_firewall f w := mkWorld (clock w) (task w) f;
  secret_public _ := public_key_default
|}.

#[export] Instance World_view : WireGuardView (World A F) := {|
  wg_state_ok w := wg_inv (task w);
  wg_peers w := peers (interface (task w))
|}.

Lemma World_same (w : World A F) : wg_state_ok w → same_config w w.
Proof. by split. Qed.

(** A request that only reads *)
Lemma on_task_reads {X} (f : Instant → State A → X) :
  serves (on_task (λ now, s <-- act_get ;; act_ret (f now s))).
Proof. intros w Hw. exists (f (clock w) (task w)), w. split; [by destruct w|]. by apply World_same. Qed.

Lemma serves_quiet {X} (m : act (World A F) CtlError X) : serves m → quiet m.
Proof. intros Hm w Hw. by destruct (Hm w Hw) as (a & w' & -> & Hs). Qed.

Lemma quiet_fun_id : quiet_fun (λ w : World A F, w).
Proof. intros w. apply World_same. Qed.

#[export] Instance World_laws : EntitiesLaws (World A F) F.
Proof.
  split; try (intros; exact quiet_fun_id); try (intros; apply serves_quiet, serves_ret);
    try (intros; apply serves_quiet, on_task_reads).
  - intros w i w' _ [= <- _]. done.
  - intros p w w' Hw. simpl. unfold on_task. pose proof (add_peer_inv (clock w) p _ Hw) as Hinv.
    pose proof (add_peer_spec (clock w) p _ Hw) as Hs. destruct (add_peer (clock w) p (task w)) as [r s'].
    destruct Hs as [Hdup Hok]. intros E. injection E as Er <-. split; [done|]. intros k. cbn [task].
    destruct (has_duplicate_allowed_ips p (interface (task w))) eqn:Hd.
    + apply (has_duplicate_spec p _ (inv_keyed _ Hw)) in Hd. destruct (Hdup Hd) as [-> _]. done.
    + destruct Hok as (_ & Hp & Hne).
      { intros Hd'. apply (has_duplicate_spec p _ (inv_keyed _ Hw)) in Hd'. congruence. }
      case_decide as E; [by subst|]. by apply Hne.
  - intros key w w' Hw. simpl. unfold on_task. pose proof (del_peer_inv (clock w) key _ Hw) as Hinv.
    pose proof (λ k, del_peer_spec (clock w) key _ k Hw) as Hs.
    destruct (del_peer (clock w) key (task w)) as [r s']. intros E. injection E as Er <-.
    split; [done|]. intros k. apply Hs.
Qed.

#[export] Instance World_reliable : Reliable (World A F) F.
Proof.
  split; try (intros; apply serves_ret); try (intros; apply on_task_reads).
  - intros p w Hw Hn. simpl. unfold on_task. pose proof (add_peer_spec (clock w) p _ Hw) as Hs.
    destruct (add_peer (clock w) p (task w)) as [r s']. destruct Hs as [_ Hok].
    destruct (Hok Hn) as [-> _]. by eexists.
  - intros p w Hw Hn. simpl. unfold on_task. pose proof (add_peer_spec (clock w) p _ Hw) as Hs.
    destruct (add_peer (clock w) p (task w)) as [r s']. destruct Hs as [Hdup _].
    destruct (Hdup Hn) as [-> ->]. by destruct w.
  - intros k w Hw. simpl. unfold on_task.
    destruct (del_peer_spec (clock w) k (task w) k Hw) as [E _].
    destruct (del_peer (clock w) k (task w)) as [r s']. simpl in E. subst. by eexists.
Qed.
End world.

(** ** Runs of the controller *)
Module IntegrationSamples.

#[local] Existing Instance AddrPrefix.nets.
#[local] Existing Instance AddrPrefix.nets_laws.
#[local] Existing Instance elements_order.
#[local] Existing Instance elements_order_laws.
#[local] Existing Instance WgSamples.FixedAdapter.
#[local] Existing Instance ControllerSamples.no_nets.

Abbreviation Sample := (World (list Peer) (StatefullFirewall assoc_map)).

(** A device that was just started, with no optional components *)
Definition standalone : Present := mkPresent false false false false false false false.
Definition features : Features := mkFeatures true false.

Definition started : Sample :=
  mkWorld (from_secs 2)
    (start_with 0 [] false (mkChan true []) None None None (from_secs 1) (from_millis 50))
    ControllerSamples.fw0.

Lemma started_ok : wg_state_ok started.
Proof. apply wg_reach_inv; [exact WgSamples.fixed_keyed|apply reach_start]. Qed.

Definition consolidated (r : RequestedState) (w : Sample) : result CtlError () * Sample :=
  consolidate_wg_peers (from_secs 2) r standalone ∅ features w.

Definition with_exit_node (e : ExitNode) : RequestedState :=
  let r := ControllerSamples.requested in
  mkRequestedState (device_private_key r) (device_fwmark r) (meshnet_config r) (Some e)
    (upstream_servers r) (wg_stun_server r) (keepalive_periods r).

Definition mesh_exit : RequestedState :=
  with_exit_node (mkExitNode "exit" (ControllerSamples.key 1) None None).
Definition vpn_exit : RequestedState :=
  with_exit_node (mkExitNode "vpn" (ControllerSamples.key 7) None
    (Some (SocketAddrV4 (ipv4_addr 1 2 3 4) 51820))).

(** The interface gets the two meshnet peers, one of them as exit node. *)
Lemma consolidate_wg_peers_converges_witness :
  ∃ (w' : Sample) pe actual requested w1,
    planned (from_secs 2) mesh_exit standalone ∅ features started pe actual requested w1 ∧
    ∀ k, normal_config <$> wg_peers w' !! k = normal_config ∘ peer <$> requested !! k.
Proof.
  assert ((consolidated mesh_exit started).1 = Ok tt) as E by (vm_compute; reflexivity).
  exists (consolidated mesh_exit started).2.
  apply (consolidate_wg_peers_converges (from_secs 2) mesh_exit standalone ∅ features started);
    [exact started_ok|]. unfold consolidated in *. destruct (consolidate_wg_peers _ _ _ _ _ _) as [r w'].
  simpl in E. by subst.
Defined.

Definition requested_of (r : RequestedState) (w : Sample) : gmap PublicKey RequestedPeer :=
  match (build_requested_peers_list (from_secs 2) r standalone ∅ ∅ features w).1 with
  | Ok m => m
  | Err _ => ∅
  end.

Lemma standalone_planned r w :
  wg_state_ok w →
  planned (from_secs 2) r standalone ∅ features w ∅ (peers (interface (task w))) (requested_of r w)
    (build_requested_peers_list (from_secs 2) r standalone ∅ ∅ features w).2.
Proof.
  intros Hw. exists w, (interface (task w)), w. split_and!; [done|by destruct w|done|].
  unfold requested_of. cbn [control_providers has_stun has_upnp standalone].
  destruct (build_requested_peers_list_serves (from_secs 2) r standalone ∅ ∅ features w Hw)
    as (m & w' & E & _). by rewrite E.
Qed.

Lemma consolidate_wg_peers_succeeds_witness :
  ∃ w', consolidate_wg_peers (from_secs 2) mesh_exit standalone ∅ features started = (Ok tt, w').
Proof.
  destruct (consolidate_wg_peers_succeeds (from_secs 2) mesh_exit standalone ∅ features started started_ok)
    as [_ Hrun].
  apply (Hrun _ _ _ _ (standalone_planned mesh_exit started started_ok)).
  - vm_compute. reflexivity.
  - intros k k' rp p ip _ Hp. exfalso. revert Hp. cbn. rewrite lookup_empty. discriminate.
Defined.

(** The device routes its traffic through the meshnet peer [key 1]. *)
Definition via_mesh : Sample := (consolidated mesh_exit started).2.

Lemma via_mesh_ok : wg_state_ok via_mesh.
Proof.
  assert ((consolidated mesh_exit started).1 = Ok tt) as E by (vm_compute; reflexivity).
  apply (consolidate_reaches (from_secs 2) mesh_exit standalone ∅ features started via_mesh started_ok).
  unfold via_mesh, consolidated in *. destruct (consolidate_wg_peers _ _ _ _ _ _) as [r w'].
  simpl in *. by subst.
Qed.

Definition all_v4 : IpNet := AddrPrefix.mkNet (V4 0) 0.

(** Its next exit node is a VPN server, and the consolidation does not get
    there. *)
Lemma takeover_not_consolidated_witness :
  consolidated vpn_exit via_mesh ≠ (Ok tt, (consolidated vpn_exit via_mesh).2).
Proof.
  assert (∃ rp, requested_of vpn_exit via_mesh !! ControllerSamples.key 7 = Some rp ∧
    bool_decide (all_v4 ∈ allowed_ips (peer rp)) = true) as (rp & Hk & Hip)
    by (eexists; split; vm_compute; reflexivity).
  assert (∃ p, peers (interface (task via_mesh)) !! ControllerSamples.key 1 = Some p ∧
    bool_decide (all_v4 ∈ allowed_ips p) = true) as (p & Hk' & Hip')
    by (eexists; split; vm_compute; reflexivity).
  apply bool_decide_eq_true in Hip, Hip'.
  assert (peers (interface (task via_mesh)) !! ControllerSamples.key 7 = None) as Hnew
    by (vm_compute; reflexivity).
  assert (is_Some (requested_of vpn_exit via_mesh !! ControllerSamples.key 1)) as Hstays
    by (apply (bool_decide_unpack _); vm_compute; reflexivity).
  unfold consolidated.
  exact (takeover_not_consolidated (from_secs 2) vpn_exit standalone ∅ features via_mesh _ ∅
    (peers (interface (task via_mesh))) (requested_of vpn_exit via_mesh) _
    (ControllerSamples.key 7) rp (ControllerSamples.key 1) p all_v4
    via_mesh_ok (standalone_planned vpn_exit via_mesh via_mesh_ok) Hk Hnew Hk' Hstays Hip Hip').
Defined.
(** The list of the two meshnet peers, which both want the same address *)
Definition mesh_list (f : Features) : gmap PublicKey RequestedPeer :=
  match (build_requested_meshnet_peers_list (from_secs 2) ControllerSamples.requested standalone ∅ ∅ f started).1 with
  | Ok m => m
  | Err _ => ∅
  end.

Lemma mesh_list_run f :
  build_requested_meshnet_peers_list (from_secs 2) ControllerSamples.requested standalone ∅ ∅ f started =
    (Ok (mesh_list f),
     (build_requested_meshnet_peers_list (from_secs 2) ControllerSamples.requested standalone ∅ ∅ f started).2).
Proof.
  unfold mesh_list. destruct (build_requested_meshnet_peers_list_serves (from_secs 2)
    ControllerSamples.requested standalone ∅ ∅ f started started_ok) as (m & w' & E & _). by rewrite E.
Qed.

Lemma meshnet_list_passes_check_witness : check_allowed_ips_correctness (mesh_list features) = true.
Proof.
  exact (meshnet_list_passes_check (from_secs 2) ControllerSamples.requested standalone ∅ ∅ features
    started _ _ (mesh_list_run features)).
Defined.

(** A peer that was heard of a millisecond ago counts as disconnected. *)
Lemma batching_forces_proxy_witness :
  peer_state (merge_peer None ∘ peer <$> mesh_list (mkFeatures true true) !! ControllerSamples.key 1)
    (Some (from_millis 1)) (Some (from_secs 60)) None [] ControllerSamples.requested = PeerDisconnected.
Proof.
  assert (∃ rp, mesh_list (mkFeatures true true) !! ControllerSamples.key 1 = Some rp) as [rp Hk]
    by (eexists; vm_compute; reflexivity).
  rewrite Hk.
  apply (batching_forces_proxy (from_secs 2) ControllerSamples.requested standalone ∅ ∅
    (mkFeatures true true) started _ _ (ControllerSamples.key 1) rp None (Some (from_millis 1))
    (Some (from_secs 60)) None [] eq_refl (mesh_list_run _) Hk).
  intros d [= <-]. unfold from_millis. lia.
Defined.
End IntegrationSamples.
