(* ===== verification/Crypto.v ===== *)
(** * [telio-crypto]: keys in text form, boxes and encrypted requests

    [src/crates/telio-crypto/src/lib.rs], [chachabox.rs] and [encryption.rs].
    The ciphers and the curve belong to the crates [crypto_box],
    [curve25519-dalek], [chacha20] and [chacha20poly1305]; they are the
    interface [Ciphers], with the laws [CiphersLaws].  The text encodings of
    the crates [hex] and [base64] are the interface [TextCodecs].  [ToyCiphers]
    and [ToyCodecs] meet the laws and let the definitions run.

    Random draws are arguments, in the order in which the source draws them. *)

From S2P Require Import Prelude NetTypes WgTypes.

(** A Rust [String], as its characters *)
Abbreviation text := (list Ascii.ascii).

(** ** Keys in text form *)

Class TextCodecs := {
  (** [hex::encode_to_slice], [hex::decode_to_slice] *)
  hex_encode : bytes → text;
  hex_decode : text → option bytes;
  (** [base64::encode_config_slice], [base64::decode_config_slice] *)
  base64_encode : bytes → text;
  base64_decode : text → option bytes
}.

Class TextCodecsLaws `{TextCodecs} : Prop := {
  length_hex_encode b : length (hex_encode b) = 2 * length b;
  hex_decode_encode b : is_bytes b → hex_decode (hex_encode b) = Some b;
  (** standard alphabet, padded *)
  length_base64_encode b : length (base64_encode b) = 4 * ((length b + 2) / 3);
  base64_decode_encode b : is_bytes b → base64_decode (base64_encode b) = Some b
}.

Inductive KeyDecodeError :=
| InvalidLength (len : nat)
| Base64
| Hex.

Section key_text.
Context `{TextCodecs}.

(** [Display] of a [PublicKey] *)
Definition public_key_to_string (k : PublicKey) : text := base64_encode (key_bytes k).

(** [LowerHex] of a [PublicKey] *)
Definition public_key_to_hex (k : PublicKey) : text := hex_encode (key_bytes k).

(** [FromStr] of the macro [gen_common], for a key type with constructor [new].
    The decoders write to an array of [KEY_SIZE] zeros: the [hex] one fails if
    the lengths differ, the [base64] one panics if the array is too small and
    leaves the rest of it alone if it is too large. *)
Definition key_from_str {K} (new : bytes → K) (s : text) : outcome (result KeyDecodeError K) :=
  if decide (length s = 64) then
    match hex_decode s with
    | Some key =>
        if decide (length key = KEY_SIZE) then Returns (Ok (new key)) else Returns (Err Hex)
    | None => Returns (Err Hex)
    end
  else if decide (length s = 44) then
    match base64_decode s with
    | Some key =>
        if decide (length key ≤ KEY_SIZE)
        then Returns (Ok (new (key ++ replicate (KEY_SIZE - length key) 0%Z)))
        else Panics
    | None => Returns (Err Base64)
    end
  else Returns (Err (InvalidLength (length s))).

(** [TryFrom<&[u8]>] and [TryFrom<Vec<u8>>] of the macro [gen_common] *)
Definition key_try_from {K} (wrap_key : bytes → K) (slice : bytes) : option K :=
  if decide (length slice = KEY_SIZE) then Some (wrap_key slice) else None.
End key_text.

(** ** The ciphers *)

Class Ciphers := {
  (** [Scalar::from_bytes_mod_order(clamp_integer(sk)) * MontgomeryPoint(pk)] *)
  scalar_mult : bytes → bytes → bytes;
  (** [crypto_box::SecretKey::public_key] *)
  curve_public_key : bytes → bytes;
  (** [hchacha::<U10>] with the default input *)
  hchacha : bytes → bytes;
  (** [XChaCha20Poly1305]: key, nonce, message *)
  xchacha_encrypt : bytes → bytes → bytes → option bytes;
  xchacha_decrypt : bytes → bytes → bytes → option bytes;
  (** [SalsaBox::new] and [encrypt]: remote key, local key, nonce, message *)
  salsa_box_encrypt : PublicKey → SecretKey → bytes → bytes → option bytes
}.

Definition NONCE_SIZE : nat := 24.
Definition TAG_SIZE : nat := 16.

Class CiphersLaws `{Ciphers} : Prop := {
  (** Diffie-Hellman on Curve25519 *)
  scalar_mult_public a b :
    scalar_mult a (curve_public_key b) = scalar_mult b (curve_public_key a);
  length_curve_public_key sk : length sk = KEY_SIZE → length (curve_public_key sk) = KEY_SIZE;
  (** messages of less than 2^32 bytes are within the limit of the cipher *)
  xchacha_encrypt_some key nonce m :
    (Z.of_nat (length m) < 2 ^ 32)%Z →
    ∃ c, xchacha_encrypt key nonce m = Some c ∧ length c = length m + TAG_SIZE;
  xchacha_decrypt_encrypt key nonce m c :
    xchacha_encrypt key nonce m = Some c → xchacha_decrypt key nonce c = Some m
}.

Section boxes.
Context `{Ciphers}.

(** [SecretKey::public] *)
Definition secret_key_public (sk : SecretKey) : PublicKey :=
  mkPublicKey (curve_public_key (secret_bytes sk)).

(** [SecretKey::gen_with], for the bytes that [fill_bytes] wrote *)
Definition secret_key_gen_with (raw : bytes) : SecretKey :=
  mkSecretKey (alter (λ x, Z.lor (Z.land x 127) 64) (length raw - 1)
    (alter (λ x, Z.land x 248) 0 raw)).

(** [ChaChaBox], a newtype of the keyed cipher *)
Record ChaChaBox := mkChaChaBox { box_key : bytes }.

(** [ChaChaBox::new] *)
Definition chachabox_new (public_key : PublicKey) (secret_key : SecretKey) : ChaChaBox :=
  mkChaChaBox (hchacha (scalar_mult (secret_bytes secret_key) (key_bytes public_key))).

(** [ChaChaBox::encrypt] *)
Definition chachabox_encrypt (b : ChaChaBox) (nonce plaintext : bytes) : option bytes :=
  xchacha_encrypt (box_key b) nonce plaintext.

(** [ChaChaBox::decrypt] *)
Definition chachabox_decrypt (b : ChaChaBox) (nonce ciphertext : bytes) : option bytes :=
  xchacha_decrypt (box_key b) nonce ciphertext.
End boxes.

(** ** Requests and responses *)

Module Encryption.

Inductive Error :=
| EncryptionFailed
| ForbiddenKey (k : PublicKey)
| InvalidLength.

Definition ok_or {E A} (o : option A) (e : E) : result E A :=
  match o with Some a => Ok a | None => Err e end.

(** The draws of [encrypt_request] *)
Record Draws := mkDraws { inner_nonce : bytes; ephemeral : bytes; outer_nonce : bytes }.

Section encryption.
Context `{Ciphers}.

(** [encrypt_request] *)
Definition encrypt_request (msg : bytes) (rng : Draws) (local_sk : SecretKey) (remote_pk : PublicKey)
    : result Error bytes :=
  let inner_secret_box := chachabox_new remote_pk local_sk in
  let? inner_encrypted_payload :=
    ok_or (chachabox_encrypt inner_secret_box (inner_nonce rng) msg) EncryptionFailed in
  let local_pk := secret_key_public local_sk in
  let outer_msg := key_bytes local_pk ++ inner_nonce rng ++ inner_encrypted_payload in
  let ephemeral_sk := secret_key_gen_with (ephemeral rng) in
  let ephemeral_pk := secret_key_public ephemeral_sk in
  let outer_secret_box := chachabox_new remote_pk ephemeral_sk in
  let? outer_encrypted_payload :=
    ok_or (chachabox_encrypt outer_secret_box (outer_nonce rng) outer_msg) EncryptionFailed in
  Ok (key_bytes ephemeral_pk ++ outer_nonce rng ++ outer_encrypted_payload).

(** [decrypt_request] *)
Definition decrypt_request (msg : bytes) (local_sk : SecretKey) (is_allowed : PublicKey → bool)
    : result Error (bytes * PublicKey) :=
  let? ephemeral_pk := ok_or (slice 0 KEY_SIZE msg) InvalidLength in
  let? outer_nonce := ok_or (slice KEY_SIZE NONCE_SIZE msg) InvalidLength in
  let? outer_encrypted_payload := ok_or (slice_from (KEY_SIZE + NONCE_SIZE) msg) InvalidLength in
  let outer_secret_box := chachabox_new (mkPublicKey ephemeral_pk) local_sk in
  let? outer_msg :=
    ok_or (chachabox_decrypt outer_secret_box outer_nonce outer_encrypted_payload)
      EncryptionFailed in
  let? remote_pk := ok_or (slice 0 KEY_SIZE outer_msg) InvalidLength in
  let remote_pk := mkPublicKey remote_pk in
  if is_allowed remote_pk then
    let? inner_nonce := ok_or (slice KEY_SIZE NONCE_SIZE outer_msg) InvalidLength in
    let? inner_encrypted_payload :=
      ok_or (slice_from (KEY_SIZE + NONCE_SIZE) outer_msg) InvalidLength in
    let inner_secret_box := chachabox_new remote_pk local_sk in
    let? inner_msg :=
      ok_or (chachabox_decrypt inner_secret_box inner_nonce inner_encrypted_payload)
        EncryptionFailed in
    Ok (inner_msg, remote_pk)
  else Err (ForbiddenKey remote_pk).

(** [encrypt_response] *)
Definition encrypt_response (msg nonce : bytes) (local_sk : SecretKey) (remote_pk : PublicKey)
    : result Error bytes :=
  let secret_box := chachabox_new remote_pk local_sk in
  let? encrypted_msg := ok_or (chachabox_encrypt secret_box nonce msg) EncryptionFailed in
  Ok (nonce ++ encrypted_msg).

(** [decrypt_response] *)
Definition decrypt_response (msg : bytes) (local_sk : SecretKey) (remote_pk : PublicKey)
    : result Error bytes :=
  let? nonce := ok_or (slice 0 NONCE_SIZE msg) InvalidLength in
  let? message := ok_or (slice_from NONCE_SIZE msg) InvalidLength in
  let secret_box := chachabox_new remote_pk local_sk in
  ok_or (chachabox_decrypt secret_box nonce message) EncryptionFailed.
End encryption.
End Encryption.

(** ** Theorems *)

(** The text forms of a public key are read back.  It is the length of the text
    that selects the decoder, so this also says that the two forms are told
    apart. *)
Lemma public_key_from_string `{TextCodecsLaws} (k : PublicKey) :
  length (key_bytes k) = KEY_SIZE → is_bytes (key_bytes k) →
  key_from_str public_key_new (public_key_to_string k) = Returns (Ok k) ∧
  key_from_str public_key_new (public_key_to_hex k) = Returns (Ok k).
Proof.
  intros Hl Hb. unfold key_from_str, public_key_to_string, public_key_to_hex.
  rewrite length_base64_encode, length_hex_encode, Hl. destruct k as [k]; simpl in *. split.
  - rewrite base64_decode_encode by done. rewrite decide_True by (rewrite Hl; done).
    by rewrite Hl, app_nil_r.
  - rewrite hex_decode_encode by done. by rewrite decide_True.
Qed.

(** A public key is read back from both of its text forms; a text of another
    length is refused with that length; and a text of 44 characters without
    padding, which stands for 33 bytes, does not give an error but a panic, for
    every key type. *)
Theorem key_text_roundtrip `{TextCodecsLaws} :
  (∀ k, length (key_bytes k) = KEY_SIZE → is_bytes (key_bytes k) →
    key_from_str public_key_new (public_key_to_string k) = Returns (Ok k) ∧
    key_from_str public_key_new (public_key_to_hex k) = Returns (Ok k)) ∧
  (∀ K (new : bytes → K) s, length s ≠ 64 → length s ≠ 44 →
    key_from_str new s = Returns (Err (InvalidLength (length s)))) ∧
  (∀ K (new : bytes → K) b, length b = 33 → is_bytes b →
    key_from_str new (base64_encode b) = Panics).
Proof.
  split_and!.
  - intros k. apply public_key_from_string.
  - intros K new s H64 H44. unfold key_from_str. by rewrite !decide_False.
  - intros K new b Hl Hb. unfold key_from_str. rewrite length_base64_encode, Hl. simpl.
    rewrite base64_decode_encode by done. rewrite decide_False; [done|]. rewrite Hl. unfold KEY_SIZE. lia.
Qed.

Section encryption_laws.
Context `{CiphersLaws}.

(** Both ends of a box derive the same key. *)
Lemma chachabox_new_sym (a b : SecretKey) :
  chachabox_new (secret_key_public b) a = chachabox_new (secret_key_public a) b.
Proof. unfold chachabox_new. simpl. by rewrite scalar_mult_public. Qed.

Lemma length_secret_key_public (sk : SecretKey) :
  length (secret_bytes sk) = KEY_SIZE → length (key_bytes (secret_key_public sk)) = KEY_SIZE.
Proof. apply length_curve_public_key. Qed.

Lemma length_secret_key_gen_with raw :
  length (secret_bytes (secret_key_gen_with raw)) = length raw.
Proof. simpl. by rewrite !length_alter. Qed.

Lemma chachabox_encrypt_decrypt (a b : SecretKey) nonce m :
  (Z.of_nat (length m) < 2 ^ 32)%Z →
  ∃ c, chachabox_encrypt (chachabox_new (secret_key_public b) a) nonce m = Some c ∧
       length c = length m + TAG_SIZE ∧
       chachabox_decrypt (chachabox_new (secret_key_public a) b) nonce c = Some m.
Proof.
  intros Hm. unfold chachabox_encrypt, chachabox_decrypt.
  destruct (xchacha_encrypt_some (box_key (chachabox_new (secret_key_public b) a)) nonce m Hm)
    as (c & Hc & Hl).
  exists c. split_and!; [done..|]. rewrite <-chachabox_new_sym. by apply xchacha_decrypt_encrypt.
Qed.

(** The layout [key ++ nonce ++ payload] of both layers *)
Lemma layer_slices (key nonce payload : bytes) :
  length key = KEY_SIZE → length nonce = NONCE_SIZE →
  slice 0 KEY_SIZE (key ++ nonce ++ payload) = Some key ∧
  slice KEY_SIZE NONCE_SIZE (key ++ nonce ++ payload) = Some nonce ∧
  slice_from (KEY_SIZE + NONCE_SIZE) (key ++ nonce ++ payload) = Some payload.
Proof.
  intros Hk Hn. split_and!.
  - by apply (slice_app []).
  - by apply slice_app.
  - rewrite (assoc_L (++)). apply slice_from_app. rewrite length_app. lia.
Qed.
End encryption_laws.

(** Draws of the sizes that the source fixes *)
Definition draws_ok (rng : Encryption.Draws) : Prop :=
  length (Encryption.inner_nonce rng) = NONCE_SIZE ∧
  length (Encryption.ephemeral rng) = KEY_SIZE ∧
  length (Encryption.outer_nonce rng) = NONCE_SIZE.

(** An encrypted request is read by the owner of the key it is for. *)
Lemma decrypt_encrypt_request `{CiphersLaws} (msg : bytes) (rng : Encryption.Draws)
    (local_sk remote_sk : SecretKey) (is_allowed : PublicKey → bool)
    (Hmsg : (Z.of_nat (length msg) < 2 ^ 31)%Z) (Hrng : draws_ok rng)
    (Hsk : length (secret_bytes local_sk) = KEY_SIZE) :
  ∃ c, Encryption.encrypt_request msg rng local_sk (secret_key_public remote_sk) = Ok c ∧
    Encryption.decrypt_request c remote_sk is_allowed =
      if is_allowed (secret_key_public local_sk)
      then Ok (msg, secret_key_public local_sk)
      else Err (Encryption.ForbiddenKey (secret_key_public local_sk)).
Proof.
  destruct Hrng as (Hi & He & Ho). unfold Encryption.encrypt_request.
  destruct (chachabox_encrypt_decrypt local_sk remote_sk (Encryption.inner_nonce rng) msg)
    as (ci & -> & Hli & Hdi); [lia|]. simpl.
  set (esk := secret_key_gen_with (Encryption.ephemeral rng)).
  assert (length (secret_bytes esk) = KEY_SIZE) as Hesk by (unfold esk; by rewrite length_secret_key_gen_with).
  pose proof (length_secret_key_public _ Hsk) as Hpk.
  destruct (chachabox_encrypt_decrypt esk remote_sk (Encryption.outer_nonce rng)
    (key_bytes (secret_key_public local_sk) ++ Encryption.inner_nonce rng ++ ci))
    as (co & Hco & Hlo & Hdo); [rewrite !length_app, Hpk, Hi, Hli; unfold KEY_SIZE, NONCE_SIZE, TAG_SIZE; lia|].
  change (curve_public_key (secret_bytes local_sk)) with (key_bytes (secret_key_public local_sk)).
  rewrite Hco. simpl. eexists. split; [done|]. unfold Encryption.decrypt_request.
  change (curve_public_key (alter _ _ _)) with (key_bytes (secret_key_public esk)).
  destruct (layer_slices (key_bytes (secret_key_public esk)) (Encryption.outer_nonce rng) co)
    as (-> & -> & ->); [by apply length_secret_key_public|done|]. cbn [Encryption.ok_or].
  change (mkPublicKey (key_bytes ?k)) with k. rewrite Hdo. cbn [Encryption.ok_or].
  destruct (layer_slices (key_bytes (secret_key_public local_sk)) (Encryption.inner_nonce rng) ci)
    as (-> & -> & ->); [done..|]. cbn [Encryption.ok_or].
  change (mkPublicKey (key_bytes (secret_key_public local_sk))) with (secret_key_public local_sk).
  rewrite Hdi. by destruct (is_allowed (secret_key_public local_sk)).
Qed.

Lemma decrypt_encrypt_response `{CiphersLaws} (msg nonce : bytes) (local_sk remote_sk : SecretKey) :
  (Z.of_nat (length msg) < 2 ^ 32)%Z → length nonce = NONCE_SIZE →
  ∃ c, Encryption.encrypt_response msg nonce local_sk (secret_key_public remote_sk) = Ok c ∧
    Encryption.decrypt_response c remote_sk (secret_key_public local_sk) = Ok msg.
Proof.
  intros Hm Hn. unfold Encryption.encrypt_response, Encryption.decrypt_response.
  destruct (chachabox_encrypt_decrypt local_sk remote_sk nonce msg Hm) as (c & -> & _ & Hd).
  exists (nonce ++ c). split; [done|].
  pose proof (slice_app [] nonce c 0 NONCE_SIZE eq_refl ltac:(done)) as Hs. simpl in Hs. rewrite Hs.
  rewrite slice_from_app by done. simpl. by rewrite Hd.
Qed.

Lemma decrypt_request_allowed `{Ciphers} (c : bytes) (sk : SecretKey) (is_allowed : PublicKey → bool) m k :
  Encryption.decrypt_request c sk is_allowed = Ok (m, k) → is_allowed k = true.
Proof.
  unfold Encryption.decrypt_request, Encryption.ok_or.
  repeat (case_match; try done); intros; simplify_eq; done.
Qed.

(** Encryption and decryption are inverse to each other across two nodes.  A
    request is read by the owner of the key it is for, who learns the message
    and the sender's key if that key is allowed, and otherwise only the key; no
    buffer whatever yields a message under a key that is not allowed; and a
    response is read by the node that it is for. *)
Theorem encryption_roundtrip `{CiphersLaws} (msg : bytes) (rng : Encryption.Draws)
    (local_sk remote_sk : SecretKey) (is_allowed : PublicKey → bool)
    (Hmsg : (Z.of_nat (length msg) < 2 ^ 31)%Z) (Hrng : draws_ok rng)
    (Hsk : length (secret_bytes local_sk) = KEY_SIZE) :
  (∃ c, Encryption.encrypt_request msg rng local_sk (secret_key_public remote_sk) = Ok c ∧
    Encryption.decrypt_request c remote_sk is_allowed =
      if is_allowed (secret_key_public local_sk)
      then Ok (msg, secret_key_public local_sk)
      else Err (Encryption.ForbiddenKey (secret_key_public local_sk))) ∧
  (∀ c m k, Encryption.decrypt_request c remote_sk is_allowed = Ok (m, k) → is_allowed k = true) ∧
  (∃ c, Encryption.encrypt_response msg (Encryption.inner_nonce rng) local_sk
          (secret_key_public remote_sk) = Ok c ∧
    Encryption.decrypt_response c remote_sk (secret_key_public local_sk) = Ok msg).
Proof.
  split_and!.
  - by apply decrypt_encrypt_request.
  - intros c m k. apply decrypt_request_allowed.
  - apply decrypt_encrypt_response; [lia|apply Hrng].
Qed.

(** ** Instances

    [ToyCiphers]: the group is the bytes under multiplication, key by key; a
    box appends a tag made from its key.  [Rfc4648]: the text encodings. *)

Module ToyCrypto.

Definition mul (s p : bytes) : bytes := zip_with (λ x y, (x * y) `mod` 256)%Z s p.

Definition tag (key nonce : bytes) : bytes := take TAG_SIZE (key ++ nonce ++ replicate TAG_SIZE 0%Z).

Definition strip (t m : bytes) : option bytes :=
  let n := length m - length t in
  if decide (drop n m = t) then Some (take n m) else None.

Definition ToyCiphers : Ciphers := {|
  scalar_mult := mul;
  curve_public_key := λ sk, sk;
  hchacha := λ k, k;
  xchacha_encrypt := λ key nonce m, Some (m ++ tag key nonce);
  xchacha_decrypt := λ key nonce c, strip (tag key nonce) c;
  salsa_box_encrypt := λ pk sk nonce m, Some (m ++ tag (mul (secret_bytes sk) (key_bytes pk)) nonce)
|}.

Lemma length_tag key nonce : length (tag key nonce) = TAG_SIZE.
Proof. unfold tag. rewrite length_take, !length_app, length_replicate. lia. Qed.

Lemma ToyCiphers_laws : @CiphersLaws ToyCiphers.
Proof.
  split; cbn [ToyCiphers scalar_mult curve_public_key xchacha_encrypt xchacha_decrypt].
  - intros a. unfold mul. induction a as [|x a IH]; intros [|y b]; simpl; [done..|].
    by rewrite Z.mul_comm, IH.
  - done.
  - intros key nonce m _. eexists. split; [done|]. by rewrite length_app, length_tag.
  - intros key nonce m c [= <-]. unfold strip. rewrite length_app.
    replace (length m + length (tag key nonce) - length (tag key nonce)) with (length m) by lia.
    by rewrite drop_app_length, take_app_length, decide_True.
Qed.

End ToyCrypto.

Module Rfc4648.

Definition char (code : Z) : Ascii.ascii := Ascii.ascii_of_nat (Z.to_nat code).
Definition code (c : Ascii.ascii) : Z := Z.of_nat (Ascii.nat_of_ascii c).

(** A character of an alphabet stands for its position. *)
Definition position (alphabet : text) (c : Ascii.ascii) : option Z :=
  (λ p, Z.of_nat p.1) <$> list_find (λ c', c' = c) alphabet.

Definition symbol (alphabet : text) (x : Z) : Ascii.ascii :=
  default Ascii.zero (alphabet !! Z.to_nat x).

Definition seqc (first : Z) (n : nat) : text := (λ i, char (first + Z.of_nat i)) <$> seq 0 n.

Definition hex_alphabet : text := seqc 48 10 ++ seqc 97 6.
Definition base64_alphabet : text := seqc 65 26 ++ seqc 97 26 ++ seqc 48 10 ++ [char 43; char 47].
Definition pad : Ascii.ascii := char 61.

Fixpoint hex_enc (b : bytes) : text :=
  match b with
  | [] => []
  | x :: b => symbol hex_alphabet (x / 16) :: symbol hex_alphabet (x `mod` 16) :: hex_enc b
  end.

Fixpoint hex_dec (t : text) : option bytes :=
  match t with
  | [] => Some []
  | h :: l :: t =>
      h ← position hex_alphabet h; l ← position hex_alphabet l; b ← hex_dec t;
      Some ((h * 16 + l)%Z :: b)
  | _ => None
  end.

Definition sym := symbol base64_alphabet.
Definition pos := position base64_alphabet.

Fixpoint base64_enc (b : bytes) : text :=
  match b with
  | [] => []
  | [x] => [sym (x / 4); sym (x `mod` 4 * 16); pad; pad]%Z
  | [x; y] => [sym (x / 4); sym (x `mod` 4 * 16 + y / 16); sym (y `mod` 16 * 4); pad]%Z
  | x :: y :: z :: b =>
      (sym (x / 4) :: sym (x `mod` 4 * 16 + y / 16) :: sym (y `mod` 16 * 4 + z / 64) ::
       sym (z `mod` 64) :: base64_enc b)%Z
  end.

(** Padding may end the last group. *)
Fixpoint base64_dec (t : text) : option bytes :=
  match t with
  | [] => Some []
  | c1 :: c2 :: c3 :: c4 :: t =>
      v1 ← pos c1; v2 ← pos c2;
      let x := (v1 * 4 + v2 / 16)%Z in
      if decide (t = [] ∧ c3 = pad ∧ c4 = pad) then
        if decide (v2 `mod` 16 = 0)%Z then Some [x] else None
      else
        v3 ← pos c3;
        let y := (v2 `mod` 16 * 16 + v3 / 4)%Z in
        if decide (t = [] ∧ c4 = pad) then
          if decide (v3 `mod` 4 = 0)%Z then Some [x; y] else None
        else
          v4 ← pos c4; b ← base64_dec t;
          Some (x :: y :: (v3 `mod` 4 * 64 + v4)%Z :: b)
  | _ => None
  end.

Lemma pos_sym x : (0 <= x < 64)%Z → pos (sym x) = Some x.
Proof.
  intros Hx. assert (Forall (λ x, pos (sym x) = Some x) (seqZ 0 64)) as Hf.
  { apply (bool_decide_unpack _). vm_compute. reflexivity. }
  rewrite Forall_forall in Hf. apply Hf, elem_of_seqZ. lia.
Qed.

Lemma sym_not_pad x : (0 <= x < 64)%Z → sym x ≠ pad.
Proof.
  intros Hx. assert (Forall (λ x, sym x ≠ pad) (seqZ 0 64)) as Hf.
  { apply (bool_decide_unpack _). vm_compute. reflexivity. }
  rewrite Forall_forall in Hf. apply Hf, elem_of_seqZ. lia.
Qed.

Lemma position_symbol_hex x : (0 <= x < 16)%Z → position hex_alphabet (symbol hex_alphabet x) = Some x.
Proof.
  intros Hx. assert (Forall (λ x, position hex_alphabet (symbol hex_alphabet x) = Some x) (seqZ 0 16)) as Hf.
  { apply (bool_decide_unpack _). vm_compute. reflexivity. }
  rewrite Forall_forall in Hf. apply Hf, elem_of_seqZ. lia.
Qed.

Lemma hex_dec_enc b : is_bytes b → hex_dec (hex_enc b) = Some b.
Proof.
  unfold is_bytes, is_uint. induction 1 as [|x b Hx Hb IH]; cbn [hex_enc hex_dec]; [done|].
  rewrite !position_symbol_hex by (Z.to_euclidean_division_equations; lia). cbn [mbind option_bind].
  rewrite IH. cbn [mbind option_bind]. do 2 f_equal. Z.to_euclidean_division_equations; lia.
Qed.

(** Induction in steps of three *)
Lemma list_ind3 {A} (P : list A → Prop) :
  P [] → (∀ x, P [x]) → (∀ x y, P [x; y]) → (∀ x y z l, P l → P (x :: y :: z :: l)) → ∀ l, P l.
Proof.
  intros Hn H1 H2 H3. fix IH 1. intros [|x [|y [|z l]]]; [done|apply H1|apply H2|].
  apply H3, IH.
Qed.

Ltac b64_arith := Z.to_euclidean_division_equations; lia.

Lemma base64_dec_enc b : is_bytes b → base64_dec (base64_enc b) = Some b.
Proof.
  unfold is_bytes, is_uint. induction b as [|x|x y|x y z b IH] using list_ind3; [done|..];
    rewrite ?Forall_cons; intros Hb; destruct_and?; cbn [base64_enc base64_dec].
  - rewrite !pos_sym by b64_arith. cbn [mbind option_bind]. rewrite decide_True by done.
    rewrite decide_True by b64_arith. do 2 f_equal. b64_arith.
  - rewrite !pos_sym by b64_arith. cbn [mbind option_bind].
    rewrite decide_False by (pose proof (sym_not_pad (y `mod` 16 * 4)); naive_solver b64_arith).
    rewrite decide_True, decide_True by (done || b64_arith). f_equal; f_equal; [|f_equal]; b64_arith.
  - rewrite !pos_sym by b64_arith. cbn [mbind option_bind].
    pose proof (sym_not_pad (z `mod` 64) ltac:(b64_arith)).
    rewrite !decide_False by naive_solver. rewrite IH by done. cbn [mbind option_bind].
    f_equal; f_equal; [|f_equal; [|f_equal]]; b64_arith.
Qed.

Lemma length_base64_enc b : length (base64_enc b) = 4 * ((length b + 2) / 3).
Proof.
  induction b as [|x|x y|x y z b IH] using list_ind3; [done..|]. cbn [base64_enc length].
  rewrite IH. replace (S (S (S (length b))) + 2) with (length b + 2 + 1 * 3) by lia.
  rewrite Nat.div_add by done. lia.
Qed.

Lemma length_hex_enc b : length (hex_enc b) = 2 * length b.
Proof. induction b as [|x b IH]; cbn [hex_enc length]; lia. Qed.

Definition codecs : TextCodecs := {|
  hex_encode := hex_enc;
  hex_decode := hex_dec;
  base64_encode := base64_enc;
  base64_decode := base64_dec
|}.

Lemma codecs_laws : @TextCodecsLaws codecs.
Proof.
  split; cbn [codecs hex_encode hex_decode base64_encode base64_decode].
  - apply length_hex_enc.
  - apply hex_dec_enc.
  - apply length_base64_enc.
  - apply base64_dec_enc.
Qed.
End Rfc4648.

Module CryptoSamples.
Import ToyCrypto.

Definition alice : SecretKey := secret_key_gen_with (replicate 32 3%Z).
Definition bob : SecretKey := secret_key_gen_with (replicate 32 7%Z).
Definition rng : Encryption.Draws :=
  Encryption.mkDraws (replicate 24 1%Z) (replicate 32 9%Z) (replicate 24 2%Z).

Lemma encryption_roundtrip_witness :
  let allowed := λ k, bool_decide (k = @secret_key_public ToyCiphers alice) in
  ∃ c, @Encryption.encrypt_request ToyCiphers [1; 2; 3]%Z rng alice (@secret_key_public ToyCiphers bob) = Ok c ∧
    @Encryption.decrypt_request ToyCiphers c bob allowed =
      Ok ([1; 2; 3]%Z, @secret_key_public ToyCiphers alice).
Proof.
  intros allowed.
  destruct (@encryption_roundtrip ToyCiphers ToyCiphers_laws [1; 2; 3]%Z rng alice bob allowed)
    as [(c & Hc & Hd) _]; [done|done|done|].
  exists c. split; [exact Hc|]. rewrite Hd. unfold allowed. by rewrite bool_decide_eq_true_2.
Defined.

Lemma key_text_roundtrip_witness :
  @key_from_str Rfc4648.codecs _ public_key_new (Rfc4648.base64_enc (replicate 32 5%Z))
    = Returns (Ok (mkPublicKey (replicate 32 5%Z))) ∧
  @key_from_str Rfc4648.codecs _ public_key_new (Rfc4648.base64_enc (replicate 33 5%Z)) = Panics.
Proof.
  destruct (@key_text_roundtrip Rfc4648.codecs Rfc4648.codecs_laws) as (Hk & _ & Hp). split.
  - apply (Hk (mkPublicKey (replicate 32 5%Z))); [done|].
    apply Forall_replicate. unfold is_uint. lia.
  - apply (Hp _ public_key_new (replicate 33 5%Z)); [done|]. apply Forall_replicate. unfold is_uint. lia.
Defined.
End CryptoSamples.
