(* ===== verification/NetText.v ===== *)
(** * Text forms of socket addresses

    [Display] and [FromStr] of [std::net::SocketAddr], which the messages of
    [telio-proto] use to carry endpoints: printing as in [core::net::display],
    parsing with the recursive-descent parser of [core::net::parser].  The flow
    label of an IPv6 endpoint is not printed.

    A parser takes the rest of the input and returns a value and what is left;
    [None] leaves the input alone ([read_atomically]). *)

From S2P Require Import Prelude NetTypes Crypto.

(** ** Characters *)

Definition chr (code : Z) : Ascii.ascii := Ascii.ascii_of_nat (Z.to_nat code).
Definition ord (c : Ascii.ascii) : Z := Z.of_nat (Ascii.nat_of_ascii c).

Definition dot : Ascii.ascii := chr 46.
Definition colon : Ascii.ascii := chr 58.
Definition open_bracket : Ascii.ascii := chr 91.
Definition close_bracket : Ascii.ascii := chr 93.
Definition percent : Ascii.ascii := chr 37.

(** A string literal *)
Definition str (s : string) : text := String.list_ascii_of_string s.

(** [String::pop], for its effect *)
Definition pop (t : text) : text := take (length t - 1) t.

(** Pushing a character and popping it *)
Lemma pop_snoc t c : pop (t ++ [c]) = t.
Proof. unfold pop. rewrite length_app. simpl. rewrite Nat.add_sub. by rewrite take_app_length. Qed.

(** [char::to_digit] *)
Definition to_digit (radix : Z) (c : Ascii.ascii) : option Z :=
  let x := ord c in
  let d :=
    if bool_decide (48 <= x <= 57)%Z then Some (x - 48)%Z
    else if bool_decide (97 <= x <= 122)%Z then Some (x - 87)%Z
    else if bool_decide (65 <= x <= 90)%Z then Some (x - 55)%Z
    else None in
  d ← d; if bool_decide (d < radix)%Z then Some d else None.

Definition from_digit (d : Z) : Ascii.ascii := chr (if bool_decide (d < 10)%Z then 48 + d else 87 + d)%Z.

(** ** Printing *)

(** A number in [radix], of at most [width] digits *)
Fixpoint print_number (radix : Z) (width : nat) (n : Z) : text :=
  match width with
  | O => []
  | S width =>
      if bool_decide (n < radix)%Z then [from_digit n]
      else print_number radix width (n / radix) ++ [from_digit (n `mod` radix)]
  end.

(** The numbers of the formatted output, of at most 64 bits *)
Definition print_u64 (n : Z) : text := print_number 10 20 n.

Definition octets (a : Z) : list Z := to_be_bytes 4 a.

(** [Display] of [Ipv4Addr] *)
Definition print_ipv4 (a : Z) : text :=
  match octets a with
  | [o1; o2; o3; o4] =>
      print_number 10 3 o1 ++ [dot] ++ print_number 10 3 o2 ++ [dot] ++
      print_number 10 3 o3 ++ [dot] ++ print_number 10 3 o4
  | _ => []
  end.

(** The longest run of zero segments, and the current one: start and length *)
Definition zeroes_step (st : nat * nat * (nat * nat) * nat) (segment : Z)
    : nat * nat * (nat * nat) * nat :=
  let '(longest, current, i) := st in
  if bool_decide (segment = 0%Z) then
    let current := if decide (current.2 = 0) then (i, 1) else (current.1, S current.2) in
    (if decide (longest.2 < current.2) then current else longest, current, S i)
  else (longest, (0, 0), S i).

Definition longest_zeroes (segments : list Z) : nat * nat :=
  (fold_left zeroes_step segments ((0, 0), (0, 0), 0)).1.1.

(** [fmt_subslice] *)
Definition print_segments (segments : list Z) : text :=
  match segments with
  | [] => []
  | first :: rest =>
      print_number 16 4 first ++ concat ((λ s, colon :: print_number 16 4 s) <$> rest)
  end.

(** [Ipv6Addr::to_ipv4_mapped] *)
Definition to_ipv4_mapped (a : Z) : option Z :=
  if bool_decide (Z.shiftr a 32 = 65535)%Z then Some (Z.land a (Z.ones 32)) else None.

(** [Display] of [Ipv6Addr] *)
Definition print_ipv6 (a : Z) : text :=
  match to_ipv4_mapped a with
  | Some v4 => [colon; colon] ++ print_number 16 4 65535 ++ [colon] ++ print_ipv4 v4
  | None =>
      let segments := ipv6_segments a in
      let '(start, len) := longest_zeroes segments in
      if decide (1 < len) then
        print_segments (take start segments) ++ [colon; colon] ++
        print_segments (drop (start + len) segments)
      else print_segments segments
  end.

(** [Display] of [SocketAddr] *)
Definition socket_addr_to_string (s : SocketAddr) : text :=
  match s with
  | SocketAddrV4 ip port => print_ipv4 ip ++ [colon] ++ print_number 10 5 port
  | SocketAddrV6 ip port _ scope_id =>
      [open_bracket] ++ print_ipv6 ip ++
      (if bool_decide (scope_id = 0)%Z then [] else [percent] ++ print_number 10 10 scope_id) ++
      [close_bracket; colon] ++ print_number 10 5 port
  end.

(** ** Parsing *)

Abbreviation parser A := (text → option (A * text)).

(** [read_given_char] *)
Definition read_given_char (c : Ascii.ascii) : parser unit := λ p,
  match p with
  | c' :: p => if decide (c' = c) then Some (tt, p) else None
  | [] => None
  end.

(** The loop of [read_number]; [fits] says whether the number so far, of so many
    digits, is still acceptable. *)
Fixpoint read_digits (radix : Z) (fits : Z → nat → bool) (result : Z) (digit_count : nat) (p : text)
    : option (Z * nat * text) :=
  match p with
  | c :: p' =>
      match to_digit radix c with
      | Some d =>
          let result := (result * radix + d)%Z in
          if fits result (S digit_count) then read_digits radix fits result (S digit_count) p' else None
      | None => Some (result, digit_count, p)
      end
  | [] => Some (result, digit_count, [])
  end.

(** [read_number], for a type of [bits] bits *)
Definition read_number (bits radix : Z) (max_digits : option nat) (allow_zero_prefix : bool)
    : parser Z := λ p,
  let has_leading_zero := bool_decide (head p = Some (from_digit 0)) in
  let fits result digit_count :=
    match max_digits with
    | Some m => bool_decide (digit_count ≤ m)
    | None => bool_decide (result < 2 ^ bits)%Z
    end in
  match read_digits radix fits 0 0 p with
  | Some (result, digit_count, p) =>
      if decide (digit_count = 0) then None
      else if negb allow_zero_prefix && has_leading_zero && bool_decide (1 < digit_count) then None
      else if bool_decide (result < 2 ^ bits)%Z then Some (result, p) else None
  | None => None
  end.

(** [read_separator] *)
Definition read_separator {A} (sep : Ascii.ascii) (index : nat) (inner : parser A) : parser A := λ p,
  match index with
  | O => inner p
  | S _ => '(_, p) ← read_given_char sep p; inner p
  end.

(** [read_ipv4_addr] *)
Definition read_ipv4_addr : parser Z := λ p,
  let octet i := read_separator dot i (read_number 8 10 (Some 3) false) in
  '(o1, p) ← octet 0 p; '(o2, p) ← octet 1 p; '(o3, p) ← octet 2 p; '(o4, p) ← octet 3 p;
  Some (ipv4_addr o1 o2 o3 o4, p).

(** [read_groups], from group [i] up to [limit]: the groups read, and whether an
    embedded IPv4 address ended them *)
Fixpoint read_groups (limit : nat) (left_ : nat) (p : text) : list Z * bool * text :=
  match left_ with
  | O => ([], false, p)
  | S left' =>
      let i := limit - left_ in
      let ipv4 :=
        if decide (i + 1 < limit) then read_separator colon i read_ipv4_addr p else None in
      match ipv4 with
      | Some (v4, p) => ([Z.shiftr v4 16; Z.land v4 65535]%Z, true, p)
      | None =>
          match read_separator colon i (read_number 16 16 (Some 4) true) p with
          | Some (g, p) =>
              let '(gs, ipv4, p) := read_groups limit left' p in (g :: gs, ipv4, p)
          | None => ([], false, p)
          end
      end
  end.

(** [read_ipv6_addr] *)
Definition read_ipv6_addr : parser Z := λ p,
  let '(head, head_ipv4, p) := read_groups 8 8 p in
  if decide (length head = 8) then Some (ipv6_addr head, p)
  else if (head_ipv4 : bool) then None
  else
    '(_, p) ← read_given_char colon p; '(_, p) ← read_given_char colon p;
    let limit := 8 - (length head + 1) in
    let '(tail, _, p) := read_groups limit limit p in
    Some (ipv6_addr (head ++ replicate (8 - length head - length tail) 0%Z ++ tail), p).

(** [read_port] *)
Definition read_port : parser Z := λ p,
  '(_, p) ← read_given_char colon p; read_number 16 10 None true p.

(** [read_scope_id] *)
Definition read_scope_id : parser Z := λ p,
  '(_, p) ← read_given_char percent p; read_number 32 10 None true p.

(** [read_socket_addr_v4] *)
Definition read_socket_addr_v4 : parser SocketAddr := λ p,
  '(ip, p) ← read_ipv4_addr p; '(port, p) ← read_port p; Some (SocketAddrV4 ip port, p).

(** [read_socket_addr_v6] *)
Definition read_socket_addr_v6 : parser SocketAddr := λ p,
  '(_, p) ← read_given_char open_bracket p;
  '(ip, p) ← read_ipv6_addr p;
  let '(scope_id, p) := match read_scope_id p with Some (s, p) => (s, p) | None => (0%Z, p) end in
  '(_, p) ← read_given_char close_bracket p;
  '(port, p) ← read_port p;
  Some (SocketAddrV6 ip port 0 scope_id, p).

(** [FromStr] of [SocketAddr]: the whole text has to be read *)
Definition socket_addr_parse (s : text) : option SocketAddr :=
  let read := match read_socket_addr_v4 s with Some r => Some r | None => read_socket_addr_v6 s end in
  '(a, p) ← read; if decide (p = []) then Some a else None.

(** ** Numbers are read back *)

Lemma to_digit_from_digit radix d :
  (0 <= d < radix)%Z → (radix <= 16)%Z → to_digit radix (from_digit d) = Some d.
Proof.
  intros Hd Hr. assert (Forall (λ d, to_digit 16 (from_digit d) = Some d) (seqZ 0 16)) as Hf.
  { apply (bool_decide_unpack _). vm_compute. reflexivity. }
  rewrite Forall_forall in Hf. assert (d ∈ seqZ 0 16) as Hin by (apply elem_of_seqZ; lia). specialize (Hf d Hin). clear Hin.
  unfold to_digit in *. revert Hf.
  match goal with |- (?o ≫= _) = _ → _ => destruct o as [x|] end; simpl; [|done].
  destruct (bool_decide (x < 16)%Z); [|done]. intros [= ->]. by rewrite bool_decide_true by lia.
Qed.

Lemma length_print_number radix width n :
  length (print_number radix width n) ≤ width ∧
  (width ≠ 0 → 1 ≤ length (print_number radix width n)).
Proof.
  revert n. induction width as [|width IH]; intros n; cbn [print_number]; [simpl; lia|].
  case_bool_decide; simpl; [lia|]. rewrite length_app. simpl. specialize (IH (n / radix)%Z). lia.
Qed.

(** Reading the digits of a number continues with the number as result. *)
Lemma read_digits_print radix fits width n acc cnt rest :
  (2 <= radix <= 16)%Z → (0 <= n < radix ^ Z.of_nat width)%Z → (0 <= acc)%Z →
  let len := length (print_number radix width n) in
  (∀ r c, (r <= acc * radix ^ Z.of_nat len + n)%Z → c ≤ cnt + len → fits r c = true) →
  read_digits radix fits acc cnt (print_number radix width n ++ rest) =
    read_digits radix fits (acc * radix ^ Z.of_nat len + n)%Z (cnt + len) rest.
Proof.
  intros Hr. revert n rest. induction width as [|width IH]; intros n rest Hn Ha len Hfits.
  { unfold len. cbn [print_number length app]. change (Z.of_nat 0) with 0%Z in *.
    rewrite Z.pow_0_r in *. f_equal; lia. }
  unfold len in *. clear len. cbn [print_number] in *. case_bool_decide as Hlt.
  { cbn [app read_digits length]. rewrite to_digit_from_digit by lia.
    change (Z.of_nat (length [from_digit n])) with 1%Z in *. rewrite Z.pow_1_r in *.
    simpl length in *. rewrite Hfits by lia. f_equal. lia. }
  rewrite length_app in *. cbn [length] in *. set (l := length (print_number radix width (n / radix))) in *.
  replace (Z.of_nat (l + 1)) with (Z.of_nat l + 1)%Z in * by lia.
  replace (Z.of_nat (S width)) with (Z.of_nat width + 1)%Z in Hn by lia.
  rewrite !Z.pow_add_r, !Z.pow_1_r in * by lia.
  assert (0 <= n / radix < radix ^ Z.of_nat width)%Z.
  { split; [apply Z.div_pos; lia|]. apply Z.div_lt_upper_bound; lia. }
  assert (0 <= radix ^ Z.of_nat l)%Z by (apply Z.pow_nonneg; lia).
  pose proof (Z.div_mod n radix ltac:(lia)). pose proof (Z.mod_pos_bound n radix ltac:(lia)).
  rewrite <-(assoc_L (++)), IH; [|done..|]; fold l.
  2: { intros r c Hrc Hcc. apply Hfits; nia. }
  cbn [app read_digits]. rewrite to_digit_from_digit by lia. rewrite Hfits by nia.
  f_equal; [nia|lia].
Qed.

Definition starts_with (q : Ascii.ascii → bool) (p : text) : bool :=
  match p with c :: _ => q c | [] => false end.

Definition is_digit (radix : Z) (c : Ascii.ascii) : bool := bool_decide (is_Some (to_digit radix c)).

Lemma read_digits_stop radix fits acc cnt rest :
  starts_with (is_digit radix) rest = false →
  read_digits radix fits acc cnt rest = Some (acc, cnt, rest).
Proof.
  destruct rest as [|c rest]; simpl; [done|]. unfold is_digit.
  rewrite bool_decide_eq_false. destruct (to_digit radix c); [|done]. intros []. done.
Qed.

(** A number is printed without leading zeros. *)
Lemma head_print_number radix width n :
  (2 <= radix <= 16)%Z → (0 < n < radix ^ Z.of_nat width)%Z →
  ∃ d l, print_number radix width n = from_digit d :: l ∧ (0 < d < radix)%Z.
Proof.
  intros Hr. revert n. induction width as [|width IH]; intros n Hn; [simpl in Hn; lia|].
  cbn [print_number]. case_bool_decide; [exists n, []; split; [done|lia]|].
  replace (Z.of_nat (S width)) with (Z.of_nat width + 1)%Z in Hn by lia.
  rewrite Z.pow_add_r, Z.pow_1_r in Hn by lia.
  destruct (IH (n / radix)%Z) as (d & l & -> & Hd); [|by exists d, (l ++ [from_digit (n `mod` radix)])].
  split; [apply Z.div_str_pos; lia|]. apply Z.div_lt_upper_bound; lia.
Qed.

Lemma from_digit_zero d : (0 <= d < 16)%Z → from_digit d = from_digit 0 → d = 0%Z.
Proof.
  intros Hd E. apply (f_equal (to_digit 16)) in E.
  rewrite !to_digit_from_digit in E by lia. congruence.
Qed.

Lemma no_leading_zero radix width n rest :
  (2 <= radix <= 16)%Z → (0 <= n < radix ^ Z.of_nat width)%Z →
  bool_decide (head (print_number radix width n ++ rest) = Some (from_digit 0)) &&
  bool_decide (1 < length (print_number radix width n)) = false.
Proof.
  intros Hr Hn. apply andb_false_iff. destruct (decide (n = 0%Z)) as [->|Hz].
  - right. apply bool_decide_eq_false. destruct width; cbn [print_number]; [simpl; lia|].
    rewrite bool_decide_true by lia. simpl. lia.
  - left. apply bool_decide_eq_false.
    destruct (head_print_number radix width n Hr ltac:(lia)) as (d & l & -> & Hd). simpl.
    intros [= E]. apply from_digit_zero in E; lia.
Qed.

Lemma read_number_print bits radix width max_digits zero n rest :
  (2 <= radix <= 16)%Z → width ≠ 0 → (0 <= n < radix ^ Z.of_nat width)%Z → (n < 2 ^ bits)%Z →
  max_digits = Some width ∨ max_digits = None →
  starts_with (is_digit radix) rest = false →
  read_number bits radix max_digits zero (print_number radix width n ++ rest) = Some (n, rest).
Proof.
  intros Hr Hw Hn Hb Hm Hrest. unfold read_number.
  pose proof (length_print_number radix width n) as [Hl1 Hl2].
  rewrite read_digits_print; [|done|done|lia|].
  - rewrite read_digits_stop by done. rewrite decide_False by lia. simpl.
    pose proof (no_leading_zero radix width n rest Hr Hn) as Hz.
    rewrite <-andb_assoc, Hz, andb_false_r. rewrite bool_decide_true by lia.
    by do 2 f_equal.
  - intros r c Hrc Hc. destruct Hm as [-> | ->]; apply bool_decide_eq_true; lia.
Qed.

(** ** IPv4 *)

Lemma octets_spec a :
  is_uint 32 a →
  ∃ o1 o2 o3 o4, octets a = [o1; o2; o3; o4] ∧ ipv4_addr o1 o2 o3 o4 = a ∧
    is_uint 8 o1 ∧ is_uint 8 o2 ∧ is_uint 8 o3 ∧ is_uint 8 o4.
Proof.
  intros Ha. unfold octets. pose proof (be_bytes_to_be_bytes 4 a Ha) as Hb.
  pose proof (is_bytes_to_be_bytes 4 a) as Hu. pose proof (length_to_be_bytes 4 a) as Hl.
  destruct (to_be_bytes 4 a) as [|o1 [|o2 [|o3 [|o4 []]]]]; try done.
  exists o1, o2, o3, o4. split_and!; [done|done|..]; revert Hu; unfold is_bytes;
    rewrite !Forall_cons; tauto.
Qed.

Lemma read_octet o rest :
  is_uint 8 o → starts_with (is_digit 10) rest = false →
  read_number 8 10 (Some 3) false (print_number 10 3 o ++ rest) = Some (o, rest).
Proof.
  unfold is_uint. intros Ho Hr. apply read_number_print; [lia|done|simpl; lia|lia|by left|done].
Qed.

Lemma read_given_char_eq c p : read_given_char c (c :: p) = Some (tt, p).
Proof. simpl. by rewrite decide_True. Qed.

Lemma read_given_char_ne c c' p : c' ≠ c → read_given_char c (c' :: p) = None.
Proof. intros. simpl. by rewrite decide_False. Qed.

Lemma read_separator_0 {A} sep (inner : parser A) rest : read_separator sep 0 inner rest = inner rest.
Proof. done. Qed.

Lemma read_separator_S {A} sep i (inner : parser A) rest :
  read_separator sep (S i) inner ([sep] ++ rest) = inner rest.
Proof. unfold read_separator, read_given_char. simpl. by rewrite decide_True. Qed.

Lemma read_ipv4_print a rest :
  is_uint 32 a → starts_with (is_digit 10) rest = false →
  read_ipv4_addr (print_ipv4 a ++ rest) = Some (a, rest).
Proof.
  intros Ha Hr. destruct (octets_spec a Ha) as (o1 & o2 & o3 & o4 & Ho & Hv & H1 & H2 & H3 & H4).
  unfold print_ipv4, read_ipv4_addr. rewrite Ho, <-!(assoc_L (++)).
  rewrite read_separator_0, read_octet by done. cbn [mbind option_bind].
  do 2 (rewrite (read_separator_S dot), read_octet by done; cbn [mbind option_bind]).
  rewrite (read_separator_S dot), read_octet by done. cbn [mbind option_bind]. by rewrite Hv.
Qed.

Lemma read_port_print port :
  is_uint 16 port → read_port ([colon] ++ print_number 10 5 port) = Some (port, []).
Proof.
  unfold is_uint. intros Hp. unfold read_port. cbn [read_given_char app]. rewrite decide_True by done.
  cbn [mbind option_bind]. rewrite <-(app_nil_r (print_number 10 5 port)).
  apply read_number_print; [lia|done|simpl; lia|lia|by right|done].
Qed.

Lemma socket_addr_v4_text ip port :
  is_uint 32 ip → is_uint 16 port →
  socket_addr_parse (socket_addr_to_string (SocketAddrV4 ip port)) = Some (SocketAddrV4 ip port).
Proof.
  intros Hi Hp. unfold socket_addr_parse, read_socket_addr_v4, socket_addr_to_string.
  rewrite read_ipv4_print by done. cbn [mbind option_bind]. by rewrite read_port_print.
Qed.

(** ** IPv6 *)

Abbreviation skip_hex := (drop_while (is_digit 16)).
Definition is_dot (c : Ascii.ascii) : bool := bool_decide (c = dot).

Lemma is_digit_10_16 c : is_digit 10 c = true → is_digit 16 c = true.
Proof.
  unfold is_digit, to_digit. rewrite !bool_decide_eq_true.
  match goal with |- is_Some (?o ≫= _) → _ => destruct o as [x|] end; simpl; [|done].
  destruct (bool_decide_reflect (x < 10)%Z); [|by intros []]. intros _. rewrite bool_decide_true by lia. done.
Qed.

Lemma read_digits_skip fits acc cnt p r c p' :
  read_digits 10 fits acc cnt p = Some (r, c, p') → skip_hex p' = skip_hex p.
Proof.
  revert acc cnt. induction p as [|x p IH]; intros acc cnt; cbn [read_digits].
  { intros; by simplify_eq. }
  destruct (to_digit 10 x) as [d|] eqn:Hd; [|intros; by simplify_eq].
  assert (is_digit 16 x = true) as Hx.
  { apply is_digit_10_16. unfold is_digit. rewrite Hd. by apply bool_decide_eq_true. }
  case_match; [|done]. intros Hp. apply IH in Hp. rewrite Hp. simpl. by rewrite Hx.
Qed.

(** What is not followed by a dot is not an IPv4 address. *)
Lemma read_ipv4_None p : starts_with is_dot (skip_hex p) = false → read_ipv4_addr p = None.
Proof.
  intros Hd. unfold read_ipv4_addr. rewrite read_separator_0. unfold read_number.
  destruct (read_digits 10 _ 0 0 p) as [[[r c] p']|] eqn:E; [|done]. apply read_digits_skip in E.
  repeat (case_decide || case_match); try done; cbn [mbind option_bind read_separator];
    unfold read_given_char; destruct p' as [|x p']; try done;
    (destruct (decide (x = dot)) as [->|]; [|done]); simpl in E; rewrite <-E in Hd; done.
Qed.

Lemma from_digit_hex d : (0 <= d < 16)%Z → is_digit 16 (from_digit d) = true.
Proof. intros Hd. unfold is_digit. by rewrite to_digit_from_digit by lia. Qed.

Lemma skip_hex_print width n rest :
  (0 <= n)%Z → starts_with (is_digit 16) rest = false →
  skip_hex (print_number 16 width n ++ rest) = rest.
Proof.
  intros Hn Hr. assert (skip_hex rest = rest) as Hs by (destruct rest; simpl in *; by rewrite ?Hr).
  assert (∀ p, skip_hex (print_number 16 width n ++ p) = skip_hex p) as ->; [|done].
  revert n Hn. induction width as [|width IH]; intros n Hn p; [done|]. cbn [print_number].
  case_bool_decide; simpl; [by rewrite from_digit_hex|].
  rewrite <-(assoc_L (++)), IH by (apply Z.div_pos; lia). simpl.
  by rewrite from_digit_hex by (apply Z.mod_pos_bound; lia).
Qed.

(** Groups, with a colon before each but the first *)
Definition groups_text (i : nat) (gs : list Z) : text :=
  match i with
  | O => print_segments gs
  | S _ => concat ((λ s, colon :: print_number 16 4 s) <$> gs)
  end.

Lemma groups_text_cons i g gs :
  groups_text i (g :: gs) =
    (if decide (i = 0) then [] else [colon]) ++ print_number 16 4 g ++ groups_text (S i) gs.
Proof. by destruct i. Qed.

(** The text after the groups: it does not continue the last one, and no further
    group follows. *)
Definition group_end (rest : text) : Prop :=
  starts_with (is_digit 16) rest = false ∧ starts_with is_dot rest = false.

Definition no_group (i : nat) (rest : text) : Prop :=
  read_separator colon i read_ipv4_addr rest = None ∧
  read_separator colon i (read_number 16 16 (Some 4) true) rest = None.

Lemma read_group_print g rest :
  is_uint 16 g → group_end rest →
  read_ipv4_addr (print_number 16 4 g ++ rest) = None ∧
  read_number 16 16 (Some 4) true (print_number 16 4 g ++ rest) = Some (g, rest).
Proof.
  unfold is_uint. intros Hg [He Hd]. split.
  - apply read_ipv4_None. rewrite skip_hex_print by (done || lia). done.
  - apply read_number_print; [lia|done|simpl; lia|lia|by left|done].
Qed.

Lemma groups_text_end i gs rest : group_end rest → group_end (groups_text (S i) gs ++ rest).
Proof. intros [He Hd]. by destruct gs. Qed.

Lemma read_groups_print limit left_ gs rest :
  left_ ≤ limit → length gs ≤ left_ → Forall (is_uint 16) gs → group_end rest →
  (length gs < left_ → ∀ i, no_group i rest) →
  read_groups limit left_ (groups_text (limit - left_) gs ++ rest) = (gs, false, rest).
Proof.
  intros Hll Hlen Hgs He Hstop. revert left_ Hll Hlen Hstop.
  induction Hgs as [|g gs Hg Hgs IH]; intros [|left_] Hll Hlen Hstop; cbn [read_groups].
  - by destruct (limit - 0).
  - assert (groups_text (limit - S left_) [] = []) as -> by by destruct (limit - S left_). cbn [app].
    destruct (Hstop ltac:(simpl; lia) (limit - S left_)) as [H4 Hn]. rewrite H4, Hn. by case_decide.
  - simpl in Hlen. lia.
  - set (i := limit - S left_). rewrite groups_text_cons, <-!(assoc_L (++)).
    destruct (read_group_print g (groups_text (S i) gs ++ rest)) as [H4 Hn]; [done|by apply groups_text_end|].
    assert (∀ A (inner : parser A) p, read_separator colon i inner
      ((if decide (i = 0) then [] else [colon]) ++ p) = inner p) as Hsep.
    { intros A inner p. destruct i as [|i']; [done|]. apply read_separator_S. }
    rewrite !Hsep, H4, Hn. replace (S i) with (limit - left_) by lia.
    rewrite IH; [destruct (decide (i + 1 < limit)); reflexivity|lia|simpl in Hlen; lia|]. intros Hlt. apply Hstop. simpl. lia.
Qed.

Lemma read_groups_start limit gs rest :
  length gs ≤ limit → Forall (is_uint 16) gs → group_end rest →
  (length gs < limit → ∀ i, no_group i rest) →
  read_groups limit limit (print_segments gs ++ rest) = (gs, false, rest).
Proof.
  intros Hlen Hgs He Hstop. pose proof (read_groups_print limit limit gs rest) as Hr.
  rewrite Nat.sub_diag in Hr. by apply Hr.
Qed.

Lemma no_group_char i c rest :
  is_digit 16 c = false → c ≠ colon → c ≠ dot → no_group i (c :: rest).
Proof.
  intros Hc Hn Hd. unfold no_group. destruct i as [|i]; cbn [read_separator].
  - split; [apply read_ipv4_None; simpl; rewrite Hc; by apply bool_decide_eq_false|].
    unfold read_number. rewrite read_digits_stop by done. done.
  - unfold read_given_char. by rewrite decide_False.
Qed.

Lemma no_group_colons i rest : no_group i ([colon; colon] ++ rest).
Proof.
  destruct i as [|i]; [|done]. split; [by apply read_ipv4_None|].
  unfold read_separator, read_number. by rewrite read_digits_stop.
Qed.

(** The longest run of zeros is a run of zeros. *)
Definition zero_run (l : list Z) (r : nat * nat) : Prop :=
  r.1 + r.2 ≤ length l ∧ ∀ i, r.1 ≤ i → i < r.1 + r.2 → l !! i = Some 0%Z.

Lemma zero_run_app l l' r : zero_run l r → zero_run (l ++ l') r.
Proof.
  intros [Hl Hz]. split; [rewrite length_app; lia|]. intros i Hi1 Hi2.
  rewrite lookup_app_l by lia. auto.
Qed.

Lemma longest_zeroes_run l : zero_run l (longest_zeroes l).
Proof.
  unfold longest_zeroes.
  cut (zero_run l (fold_left zeroes_step l (0, 0, (0, 0), 0)).1.1 ∧
       zero_run l (fold_left zeroes_step l (0, 0, (0, 0), 0)).1.2 ∧
       (let c := (fold_left zeroes_step l (0, 0, (0, 0), 0)).1.2 in c.2 = 0 ∨ c.1 + c.2 = length l) ∧
       (fold_left zeroes_step l (0, 0, (0, 0), 0)).2 = length l); [tauto|].
  induction l as [|x l IH] using rev_ind.
  { split_and!; [split; simpl; [lia|]; intros; lia..| |done]. by left. }
  rewrite fold_left_app. destruct (fold_left zeroes_step l (0, 0, (0, 0), 0)) as [[[ls ln] [cs cn]] i].
  cbn [fst snd fold_left] in *. destruct IH as (Hl & Hc & Hend & ->). unfold zeroes_step.
  rewrite length_app. cbn [length fst snd]. case_bool_decide as Hx; cbn [fst snd].
  - subst x. assert (zero_run (l ++ [0%Z]) (if decide (cn = 0) then (length l, 1) else (cs, S cn))) as Hrun.
    { destruct Hc as [Hc1 Hc2]. simpl in *. case_decide as Hcn; (split; simpl; [rewrite length_app; simpl; lia|]);
        intros i Hi1 Hi2.
      - assert (i = length l) as -> by lia. by rewrite list_lookup_middle.
      - destruct (decide (i < length l)); [rewrite lookup_app_l by lia; apply Hc2; lia|].
        assert (i = length l) as -> by lia. by rewrite list_lookup_middle. }
    split_and!; [|done| |lia].
    + pose proof (zero_run_app _ [0%Z] _ Hl). destruct (decide (cn = 0)); by case_decide.
    + right. case_decide; simpl; lia.
  - split_and!; [by apply zero_run_app|split; simpl; [lia|intros; lia]|by left|lia].
Qed.

Lemma zero_run_split l s n :
  zero_run l (s, n) → l = take s l ++ replicate n 0%Z ++ drop (s + n) l.
Proof.
  intros [Hl Hz]. simpl in *. apply list_eq. intros i.
  destruct (decide (i < s)); [rewrite lookup_app_l, lookup_take_lt; [done|lia|rewrite length_take; lia]|].
  rewrite lookup_app_r by (rewrite length_take; lia). rewrite length_take, Nat.min_l by lia.
  destruct (decide (i < s + n)).
  - rewrite lookup_app_l by (rewrite length_replicate; lia). rewrite lookup_replicate_2 by lia. apply Hz; lia.
  - rewrite lookup_app_r by (rewrite length_replicate; lia). rewrite length_replicate, lookup_drop.
    f_equal. lia.
Qed.

Lemma ipv6_segments_uint a : Forall (is_uint 16) (ipv6_segments a).
Proof.
  unfold ipv6_segments. apply Forall_fmap, Forall_true. intros i. simpl.
  change 65535%Z with (Z.ones 16). rewrite Z.land_ones by lia. by apply (wrap_is_uint 16).
Qed.

Lemma ipv6_addr_segments a : is_uint 128 a → ipv6_addr (ipv6_segments a) = a.
Proof.
  unfold is_uint, ipv6_addr, ipv6_segments. intros Ha. cbn [fmap list_fmap fold_left].
  change 65535%Z with (Z.ones 16). rewrite !Z.land_ones, !Z.shiftr_div_pow2 by lia.
  change (Z.of_nat 0) with 0%Z. Z.to_euclidean_division_equations. lia.
Qed.

(** What may follow an address inside brackets *)
Definition addr_end (rest : text) : Prop :=
  group_end rest ∧ starts_with (is_digit 10) rest = false ∧ ∀ i, no_group i rest.

Lemma addr_end_cons c rest : c = close_bracket ∨ c = percent → addr_end (c :: rest).
Proof. intros [-> | ->]; (split_and!; [done|done|]; intros i; by apply no_group_char). Qed.

Lemma read_two_colons rest :
  ('(_, p) ← read_given_char colon ([colon; colon] ++ rest); read_given_char colon p) = Some (tt, rest).
Proof. done. Qed.

Lemma ipv6_addr_zeroes n l : ipv6_addr (replicate n 0%Z ++ l) = ipv6_addr l.
Proof. induction n as [|n IH]; [done|]. exact IH. Qed.

Lemma read_groups_S limit left_ i p :
  i = limit - S left_ →
  read_groups limit (S left_) p =
    match (if decide (i + 1 < limit) then read_separator colon i read_ipv4_addr p else None) with
    | Some (v4, p) => ([Z.shiftr v4 16; Z.land v4 65535]%Z, true, p)
    | None =>
        match read_separator colon i (read_number 16 16 (Some 4) true) p with
        | Some (g, p) => let '(gs, ipv4, p) := read_groups limit left_ p in (g :: gs, ipv4, p)
        | None => ([], false, p)
        end
    end.
Proof. by intros ->. Qed.

Lemma read_groups_mapped v4 rest :
  is_uint 32 v4 → starts_with (is_digit 10) rest = false →
  read_groups 7 7 (print_number 16 4 65535 ++ [colon] ++ print_ipv4 v4 ++ rest) =
    ([65535; Z.shiftr v4 16; Z.land v4 65535]%Z, true, rest).
Proof.
  intros Hv Hd. rewrite (read_groups_S 7 6 0), !read_separator_0 by done.
  destruct (read_group_print 65535 ([colon] ++ print_ipv4 v4 ++ rest)) as [H4 Hg]; [done|done|].
  rewrite H4, Hg, (read_groups_S 7 5 1), !(read_separator_S colon), read_ipv4_print by done. done.
Qed.

Lemma read_ipv6_mapped v4 rest :
  is_uint 32 v4 → addr_end rest →
  read_ipv6_addr ([colon; colon] ++ print_number 16 4 65535 ++ [colon] ++ print_ipv4 v4 ++ rest) =
    Some (65535 * 2 ^ 32 + v4, rest)%Z.
Proof.
  intros Hv (He & Hd & Hn). unfold read_ipv6_addr.
  set (p := print_number 16 4 65535 ++ [colon] ++ print_ipv4 v4 ++ rest).
  pose proof (read_groups_start 8 [] ([colon; colon] ++ p) ltac:(simpl; lia) ltac:(done) ltac:(done)
    ltac:(intros _ i; apply no_group_colons)) as Hh. cbn [print_segments app] in Hh. cbn [app].
  rewrite Hh.
  cbn [length decide]. rewrite decide_False by done. rewrite read_given_char_eq. cbn [mbind option_bind].
  rewrite read_given_char_eq. cbn [mbind option_bind Nat.sub Nat.add]. unfold p.
  rewrite read_groups_mapped by done. cbn [length Nat.sub app]. rewrite ipv6_addr_zeroes.
  do 2 f_equal. unfold ipv6_addr, is_uint in *. cbn [fold_left]. change 65535%Z with (Z.ones 16) at 2.
  rewrite Z.land_ones, Z.shiftr_div_pow2 by lia. Z.to_euclidean_division_equations. lia.
Qed.

Lemma read_ipv6_print a rest :
  is_uint 128 a → addr_end rest → read_ipv6_addr (print_ipv6 a ++ rest) = Some (a, rest).
Proof.
  intros Ha Hr. pose proof Hr as (He & Hd & Hn). unfold print_ipv6.
  destruct (to_ipv4_mapped a) as [v4|] eqn:Hm.
  { unfold to_ipv4_mapped in Hm. case_bool_decide as Hs; [|done]. injection Hm as <-.
    rewrite <-!(assoc_L (++)), read_ipv6_mapped; [|by rewrite Z.land_ones; [apply (wrap_is_uint 32)|]|done].
    do 2 f_equal. rewrite Z.land_ones by lia. rewrite Z.shiftr_div_pow2 in Hs by lia.
    Z.to_euclidean_division_equations. lia. }
  pose proof (longest_zeroes_run (ipv6_segments a)) as Hz.
  pose proof (ipv6_segments_uint a) as Hu. pose proof (ipv6_addr_segments a Ha) as Hv.
  assert (length (ipv6_segments a) = 8) as Hl by done.
  set (segs := ipv6_segments a) in *. clearbody segs.
  destruct (longest_zeroes segs) as [s n]. unfold read_ipv6_addr.
  case_decide as Hn1.
  - apply zero_run_split in Hz as Hsplit. destruct Hz as [Hle _]. simpl in Hle.
    rewrite <-!(assoc_L (++)).
    rewrite read_groups_start;
      [|rewrite length_take; lia|by apply Forall_take|done|intros _ i; apply no_group_colons].
    rewrite length_take, Nat.min_l, decide_False by lia. cbn [app]. rewrite read_given_char_eq.
    cbn [mbind option_bind]. rewrite read_given_char_eq. cbn [mbind option_bind].
    rewrite read_groups_start; [|rewrite length_drop; lia|by apply Forall_drop|done|auto].
    rewrite length_drop. replace (8 - s - (length segs - (s + n))) with n by lia.
    by rewrite <-Hsplit, Hv.
  - rewrite read_groups_start; [|lia|done|done|intros; lia].
    by rewrite Hl, Hv.
Qed.

(** An endpoint whose parts are in range; the flow label is not printed, so it
    has to be zero. *)
Definition addr_ok (s : SocketAddr) : Prop :=
  match s with
  | SocketAddrV4 ip port => is_uint 32 ip ∧ is_uint 16 port
  | SocketAddrV6 ip port flowinfo scope_id =>
      is_uint 128 ip ∧ is_uint 16 port ∧ flowinfo = 0%Z ∧ is_uint 32 scope_id
  end.

(** Every endpoint is read back from its text. *)
Lemma socket_addr_text (s : SocketAddr) :
  addr_ok s → socket_addr_parse (socket_addr_to_string s) = Some s.
Proof.
  destruct s as [ip port|ip port flow scope]; [intros []; by apply socket_addr_v4_text|].
  intros (Hi & Hp & -> & Hs). unfold socket_addr_parse, socket_addr_to_string.
  assert (∀ p, read_socket_addr_v4 ([open_bracket] ++ p) = None) as Hv4.
  { intros p. unfold read_socket_addr_v4. by rewrite read_ipv4_None. }
  rewrite Hv4. unfold read_socket_addr_v6. cbn [app]. rewrite read_given_char_eq.
  cbn [mbind option_bind]. case_bool_decide as Hz.
  - rewrite read_ipv6_print by (done || (apply addr_end_cons; auto)). cbn [mbind option_bind app].
    unfold read_scope_id. rewrite read_given_char_ne by done. cbn [mbind option_bind].
    rewrite read_given_char_eq. cbn [mbind option_bind].
    change (colon :: ?l) with ([colon] ++ l). rewrite read_port_print by done. subst. done.
  - rewrite read_ipv6_print by (done || (apply addr_end_cons; auto)). cbn [mbind option_bind app].
    unfold read_scope_id. rewrite read_given_char_eq. cbn [mbind option_bind].
    rewrite read_number_print; [|lia|done|unfold is_uint in *; simpl; lia|by apply Hs|by right|done].
    rewrite read_given_char_eq. cbn [mbind option_bind].
    change (colon :: ?l) with ([colon] ++ l). by rewrite read_port_print.
Qed.
