(* ===== verification/Proto.v ===== *)
(** * [telio-proto]: packets between nodes and to the relay

    [src/crates/telio-proto/src/packet.rs] and the messages under [packet/],
    with their codecs.  The messages that travel as protobuf are records after
    [src/crates/telio-proto/protos/*.proto]; the code that the protobuf
    compiler makes of them is the interface [Protobuf], one instance for each
    message, gathered in [Messages].  Unknown fields of a message, which the
    code never reads, are left out.

    An [impl Codec for X] is a pair of definitions [x_decode] and [x_encode]. *)

From S2P Require Import Prelude NetTypes WgTypes Crypto NetText.

(** [telio_proto::CodecError]; the texts of the last two are for the log *)
Inductive CodecError :=
| InvalidLength
| InvalidType
| DecodeFailed
| Encode
| EncryptionFailed
| DecryptionFailed.

#[export] Instance CodecError_eq_dec : EqDecision CodecError.
Proof. solve_decision. Defined.

Abbreviation CodecResult := (result CodecError).

Definition ok_or {A} (o : option A) (e : CodecError) : CodecResult A :=
  match o with Some a => Ok a | None => Err e end.

(** [Session], a [u64] *)
Abbreviation Session := Z.

Definition MAX_PACKET_SIZE : Z := 65536.

(** ** Protobuf *)

Class Protobuf (M : Type) := {
  (** [parse_from_bytes] *)
  parse_from_bytes : bytes → option M;
  (** [write_to_vec], what it appends *)
  write_to_bytes : M → option bytes
}.

(** A message without required fields can always be written, and what was
    written is parsed to the same message. *)
Class ProtobufLaws (M : Type) `{Protobuf M} : Prop := {
  write_parse (m : M) : ∃ b, write_to_bytes m = Some b ∧ parse_from_bytes b = Some m
}.

(** *** [natter.proto] *)

Inductive CallMeMaybe_Type := INITIATOR | RESPONDER.

Record CallMeMaybe := mkCallMeMaybe {
  i_am : CallMeMaybe_Type;
  my_addresses : list text;
  cmm_session : Session
}.

Record CallMeMaybeDeprecated := mkCallMeMaybeDeprecated {
  dep_i_am : CallMeMaybe_Type;
  dep_my_addresses : list text;
  dep_my_peer_id : Z;
  dep_session : Session
}.

(** *** [nurse.proto] *)

Inductive Heartbeat_Type := REQUEST | RESPONSE.

Inductive Heartbeat_NatType :=
| UdpBlocked | OpenInternet | SymmetricUdpFirewall | FullCone
| RestrictedCone | PortRestrictedCone | Symmetric | Unknown.

Record Heartbeat_Status := mkHeartbeat_Status { status_node : bytes; connection_state : Z }.

Record Heartbeat := mkHeartbeat {
  message_type : Heartbeat_Type;
  meshnet_id : bytes;
  node_fingerprint : text;
  statuses : list Heartbeat_Status;
  nat_type : Heartbeat_NatType
}.

(** *** [pinger.proto] *)

Inductive PingSourceAddress := source_v4 (a : Z) | source_v6 (b : bytes).

Record Pinger := mkPinger {
  pinger_start_timestamp : Z;
  pinger_wg_port : Z;
  pinger_source : option PingSourceAddress
}.

Record Ponger := mkPonger {
  ponger_start_timestamp : Z;
  ponger_wg_port : Z;
  ponger_source : option PingSourceAddress;
  ponging_ep_provider : Z
}.

(** *** [upgrade.proto] *)

Inductive Pb_Decision :=
| Pb_Accepted | Pb_RejectedDueToUnknownSession | Pb_RejectedDueToConcurrentUpgrade.

Record Upgrade := mkUpgrade {
  pb_endpoint : text;
  pb_session : Session;
  pb_endpoint_type : Z;
  pb_receiver_endpoint_type : Z
}.

Record UpgradeDecision := mkUpgradeDecision {
  pb_decision : Pb_Decision;
  pb_decision_session : Session
}.

(** *** [derppoll.proto] *)

Record DerpPollRequest := mkDerpPollRequest { poll_peers : list text }.
Record DerpPollResponse := mkDerpPollResponse { poll_peer_states : gmap text bool }.

Class Messages := {
  pb_call_me_maybe :: Protobuf CallMeMaybe;
  pb_call_me_maybe_deprecated :: Protobuf CallMeMaybeDeprecated;
  pb_heartbeat :: Protobuf Heartbeat;
  pb_pinger :: Protobuf Pinger;
  pb_ponger :: Protobuf Ponger;
  pb_upgrade :: Protobuf Upgrade;
  pb_upgrade_decision :: Protobuf UpgradeDecision;
  pb_poll_request :: Protobuf DerpPollRequest;
  pb_poll_response :: Protobuf DerpPollResponse
}.

Class MessagesLaws `{Messages} : Prop := {
  pb_call_me_maybe_laws :: ProtobufLaws CallMeMaybe;
  pb_call_me_maybe_deprecated_laws :: ProtobufLaws CallMeMaybeDeprecated;
  pb_heartbeat_laws :: ProtobufLaws Heartbeat;
  pb_pinger_laws :: ProtobufLaws Pinger;
  pb_ponger_laws :: ProtobufLaws Ponger;
  pb_upgrade_laws :: ProtobufLaws Upgrade;
  pb_upgrade_decision_laws :: ProtobufLaws UpgradeDecision;
  pb_poll_request_laws :: ProtobufLaws DerpPollRequest;
  pb_poll_response_laws :: ProtobufLaws DerpPollResponse
}.

(** ** Packet types *)

Inductive PacketTypeRelayed :=
| TData
| TGenData
| THeartbeat
| TCallMeMaybeDeprecated
| TEncrypted
| TCallMeMaybe
| TPinger
| TUpgrade
| TPonger
| TUpgradeDecision
| TReserved
| TInvalid.

#[export] Instance PacketTypeRelayed_eq_dec : EqDecision PacketTypeRelayed.
Proof. solve_decision. Defined.

(** [packet_type as u8] *)
Definition relayed_code (t : PacketTypeRelayed) : Z :=
  match t with
  | TData => 0x00
  | TGenData => 0x01
  | THeartbeat => 0x02
  | TCallMeMaybeDeprecated => 0x03
  | TEncrypted => 0x05
  | TCallMeMaybe => 0x06
  | TPinger => 0x07
  | TUpgrade => 0x08
  | TPonger => 0x09
  | TUpgradeDecision => 0x0a
  | TReserved => 0xfe
  | TInvalid => 0xff
  end.

Definition relayed_types : list PacketTypeRelayed :=
  [TData; TGenData; THeartbeat; TCallMeMaybeDeprecated; TEncrypted; TCallMeMaybe; TPinger;
   TUpgrade; TPonger; TUpgradeDecision; TReserved; TInvalid].

(** [From<u8> for PacketTypeRelayed] *)
Definition relayed_from (val : Z) : PacketTypeRelayed :=
  match list_find (λ t, relayed_code t = val) relayed_types with
  | Some (_, t) => t
  | None => TInvalid
  end.

Inductive PacketTypeControl := CDerpPollRequest | CDerpPollResponse | CReserved | CInvalid.

#[export] Instance PacketTypeControl_eq_dec : EqDecision PacketTypeControl.
Proof. solve_decision. Defined.

Definition control_code (t : PacketTypeControl) : Z :=
  match t with
  | CDerpPollRequest => 0x00
  | CDerpPollResponse => 0x01
  | CReserved => 0xfe
  | CInvalid => 0xff
  end.

Definition control_types : list PacketTypeControl := [CDerpPollRequest; CDerpPollResponse; CReserved; CInvalid].

(** [From<u8> for PacketTypeControl] *)
Definition control_from (val : Z) : PacketTypeControl :=
  match list_find (λ t, control_code t = val) control_types with
  | Some (_, t) => t
  | None => CInvalid
  end.

(** [*bytes.first().unwrap_or(&(Invalid as u8))], as a type *)
Definition first_type (b : bytes) : PacketTypeRelayed :=
  relayed_from (match b with x :: _ => x | [] => relayed_code TInvalid end).

Definition first_control_type (b : bytes) : PacketTypeControl :=
  control_from (match b with x :: _ => x | [] => control_code CInvalid end).

(** [PeerId] and [WGPort], newtypes of [u16] *)
Record PeerId := mkPeerId { peer_id : Z }.
Record WGPort := mkWGPort { wg_port : Z }.

(** [TryFrom<&[u8]> for PeerId] *)
Definition peer_id_try_from (other : bytes) : CodecResult PeerId :=
  match other with
  | [b0; b1] => Ok (mkPeerId (be_bytes [b0; b1]))
  | _ => Err DecodeFailed
  end.

(** [TryFrom<&[u8]> for WGPort] *)
Definition wg_port_try_from (other : bytes) : CodecResult WGPort :=
  match other with
  | [b0; b1] => Ok (mkWGPort (be_bytes [b0; b1]))
  | _ => Err DecodeFailed
  end.

(** ** [Generation] *)

Record Generation := mkGeneration { generation : Z }.

(** [Generation::next] *)
Definition generation_next (g : Generation) : Generation := mkGeneration (wrap 8 (generation g + 1)).

(** [PartialOrd::partial_cmp] *)
Definition generation_partial_cmp (a b : Generation) : comparison :=
  if bool_decide (generation a = generation b) then Eq
  else if bool_decide (255 / 2 < wrap 8 (generation b - generation a))%Z then Gt
  else Lt.

(** ** [DataMsg] *)

Record DataMsg := mkDataMsg { data_bytes : bytes }.

(** [DataMsg::new] *)
Definition data_msg_new (wg_data : bytes) : DataMsg := mkDataMsg ([relayed_code TData] ++ wg_data).

(** [DataMsg::with_generation] *)
Definition data_msg_with_generation (wg_data : bytes) (g : Generation) (p : PeerId) : DataMsg :=
  mkDataMsg ([relayed_code TGenData] ++ [generation g] ++ to_be_bytes 2 (peer_id p) ++ wg_data).

(** [packet_type] *)
Definition data_msg_packet_type (m : DataMsg) : PacketTypeRelayed := first_type (data_bytes m).

(** [DataMsg::get_generation] *)
Definition get_generation (m : DataMsg) : option Generation :=
  if decide (data_msg_packet_type m = TGenData)
  then Some (mkGeneration (default (relayed_code TInvalid) (data_bytes m !! 1))) else None.

(** [DataMsg::get_peer_id] *)
Definition get_peer_id (m : DataMsg) : option PeerId :=
  if decide (data_msg_packet_type m = TGenData) then
    match peer_id_try_from (default [] (slice 2 2 (data_bytes m))) with
    | Ok p => Some p
    | Err _ => None
    end
  else None.

(** [DataMsg::get_payload] *)
Definition get_payload (m : DataMsg) : bytes :=
  let offset := match data_msg_packet_type m with TGenData => 4 | _ => 1 end in
  default [] (slice_from offset (data_bytes m)).

(** [rotate_right] *)
Definition rotate_right {A} (n : nat) (l : list A) : list A :=
  drop (length l - n) l ++ take (length l - n) l.

(** [DataMsg::convert_to_gen_data].  If there were fewer than four bytes,
    [copy_from_slice] would panic. *)
Definition convert_to_gen_data (m : DataMsg) : outcome DataMsg :=
  match data_msg_packet_type m with
  | TData =>
      let b := rotate_right 3 (data_bytes m ++ replicate 3 0%Z) in
      if decide (4 ≤ length b)
      then Returns (mkDataMsg ([relayed_code TGenData; 0; 0; 0]%Z ++ drop 4 b)) else Panics
  | _ => Returns m
  end.

(** [DataMsg::set_generation] *)
Definition set_generation (g : Generation) (m : DataMsg) : outcome DataMsg :=
  match convert_to_gen_data m with
  | Returns m => Returns (mkDataMsg (<[1 := generation g]> (data_bytes m)))
  | Panics => Panics
  end.

(** [DataMsg::set_peer_id].  [splice] panics if the range is out of bounds. *)
Definition set_peer_id (p : PeerId) (m : DataMsg) : outcome (CodecResult DataMsg) :=
  if decide (data_msg_packet_type m = TGenData) then
    if decide (4 ≤ length (data_bytes m))
    then Returns (Ok (mkDataMsg (take 2 (data_bytes m) ++ to_be_bytes 2 (peer_id p) ++ drop 4 (data_bytes m))))
    else Panics
  else Returns (Err InvalidType).

(** [DataMsg::decode] *)
Definition data_msg_decode (b : bytes) : CodecResult DataMsg :=
  match b with
  | [] => Err InvalidLength
  | _ =>
      match first_type b with
      | TData => let? rest := ok_or (slice_from 1 b) DecodeFailed in Ok (data_msg_new rest)
      | TGenData =>
          if decide (length b < 4) then Err InvalidLength
          else
            let? wg_data := ok_or (slice_from 4 b) DecodeFailed in
            let? id := ok_or (slice 2 2 b) DecodeFailed in
            let? id := peer_id_try_from id in
            Ok (data_msg_with_generation wg_data (mkGeneration (default 0%Z (b !! 1))) id)
      | _ => Err DecodeFailed
      end
  end.

(** [DataMsg::encode] *)
Definition data_msg_encode (m : DataMsg) : CodecResult bytes := Ok (data_bytes m).

(** ** Messages with a protobuf body *)

(** The decryption of a packet: the plaintext and the sender's key, if known *)
Abbreviation Decrypt := (PacketTypeRelayed → bytes → CodecResult (bytes * option PublicKey)).

Section messages.
Context `{Messages} `{TextCodecs}.

(** [type byte ++ message], as several codecs write it *)
Definition encode_tagged {M} `{!Protobuf M} (t : PacketTypeRelayed) (m : M) : CodecResult bytes :=
  let? body := ok_or (write_to_bytes m) Encode in Ok ([relayed_code t] ++ body).

(** The reverse, as they read it *)
Definition decode_tagged {M} `{!Protobuf M} (t : PacketTypeRelayed) (b : bytes) : CodecResult M :=
  match b with
  | [] => Err InvalidLength
  | _ =>
      if decide (first_type b = t) then
        let? body := ok_or (slice_from 1 b) DecodeFailed in
        ok_or (parse_from_bytes body) DecodeFailed
      else Err DecodeFailed
  end.

(** *** [CallMeMaybeMsg] and [CallMeMaybeMsgDeprecated] *)

Definition CallMeMaybeMsg : Type := CallMeMaybe.
Definition CallMeMaybeMsgDeprecated : Type := CallMeMaybeDeprecated.

(** [CallMeMaybeMsg::new] *)
Definition call_me_maybe_new (initiator : bool) (addrs : list SocketAddr) (session : Session)
    : CallMeMaybeMsg :=
  mkCallMeMaybe (if initiator then INITIATOR else RESPONDER)
    (socket_addr_to_string <$> addrs) session.

(** [CallMeMaybeMsg::get_addrs] *)
Definition call_me_maybe_get_addrs (m : CallMeMaybeMsg) : list SocketAddr :=
  omap socket_addr_parse (my_addresses m).

Definition call_me_maybe_decode : bytes → CodecResult CallMeMaybeMsg := decode_tagged TCallMeMaybe.
Definition call_me_maybe_encode (m : CallMeMaybeMsg) : CodecResult bytes := encode_tagged TCallMeMaybe m.

(** [CallMeMaybeMsgDeprecated::new] *)
Definition call_me_maybe_deprecated_new (initiator : bool) (addrs : list SocketAddr)
    (session : Session) (p : PeerId) : CallMeMaybeMsgDeprecated :=
  mkCallMeMaybeDeprecated (if initiator then INITIATOR else RESPONDER)
    (socket_addr_to_string <$> addrs) (peer_id p) session.

(** [CallMeMaybeMsgDeprecated::get_addrs] *)
Definition call_me_maybe_deprecated_get_addrs (m : CallMeMaybeMsgDeprecated) : list SocketAddr :=
  omap socket_addr_parse (dep_my_addresses m).

(** [CallMeMaybeMsgDeprecated::get_peer_id]: [as u16] *)
Definition call_me_maybe_deprecated_get_peer_id (m : CallMeMaybeMsgDeprecated) : PeerId :=
  mkPeerId (wrap 16 (dep_my_peer_id m)).

Definition call_me_maybe_deprecated_decode : bytes → CodecResult CallMeMaybeMsgDeprecated :=
  decode_tagged TCallMeMaybeDeprecated.
Definition call_me_maybe_deprecated_encode (m : CallMeMaybeMsgDeprecated) : CodecResult bytes :=
  encode_tagged TCallMeMaybeDeprecated m.

(** *** [HeartbeatMessage] *)

Definition HeartbeatMessage : Type := Heartbeat.

(** [HeartbeatMessage::request]; the defaults are the first values *)
Definition heartbeat_request : HeartbeatMessage := mkHeartbeat REQUEST [] [] [] UdpBlocked.

(** [HeartbeatMessage::response] *)
Definition heartbeat_response (id : bytes) (fingerprint : text) (sts : list Heartbeat_Status)
    (nat_type : Heartbeat_NatType) : HeartbeatMessage :=
  mkHeartbeat RESPONSE id fingerprint sts nat_type.

Definition heartbeat_decode : bytes → CodecResult HeartbeatMessage := decode_tagged THeartbeat.
Definition heartbeat_encode (m : HeartbeatMessage) : CodecResult bytes := encode_tagged THeartbeat m.

(** *** [UpgradeMsg] and [UpgradeDecisionMsg] *)

(** [u32::from(EndpointProvider)], [EndpointProvider::try_from(u32)] *)
Definition endpoint_provider_code (p : EndpointType) : Z :=
  match p with Local => 1 | Stun => 2 | Upnp => 3 end.

Definition endpoint_provider_try_from (x : Z) : option EndpointType :=
  snd <$> list_find (λ p, endpoint_provider_code p = x) [Local; Stun; Upnp].

Record UpgradeMsg := mkUpgradeMsg {
  msg_endpoint : SocketAddr;
  msg_session : Session;
  msg_endpoint_type : EndpointType;
  msg_receiver_endpoint_type : EndpointType
}.

(** [UpgradeMsg::decode] *)
Definition upgrade_msg_decode (b : bytes) : CodecResult UpgradeMsg :=
  let? proto_upgrade := decode_tagged (M:=Upgrade) TUpgrade b in
  let? endpoint := ok_or (socket_addr_parse (pb_endpoint proto_upgrade)) DecodeFailed in
  let? endpoint_type :=
    ok_or (endpoint_provider_try_from (pb_endpoint_type proto_upgrade)) DecodeFailed in
  let? receiver_endpoint_type :=
    ok_or (endpoint_provider_try_from (pb_receiver_endpoint_type proto_upgrade)) DecodeFailed in
  Ok (mkUpgradeMsg endpoint (pb_session proto_upgrade) endpoint_type receiver_endpoint_type).

(** [UpgradeMsg::encode] *)
Definition upgrade_msg_encode (m : UpgradeMsg) : CodecResult bytes :=
  encode_tagged TUpgrade (mkUpgrade (socket_addr_to_string (msg_endpoint m)) (msg_session m)
    (endpoint_provider_code (msg_endpoint_type m))
    (endpoint_provider_code (msg_receiver_endpoint_type m))).

Inductive Decision := Accepted | RejectedDueToUnknownSession | RejectedDueToConcurrentUpgrade.

(** [From<messages::upgrade::Decision> for Decision] *)
Definition decision_from (d : Pb_Decision) : Decision :=
  match d with
  | Pb_Accepted => Accepted
  | Pb_RejectedDueToUnknownSession => RejectedDueToUnknownSession
  | Pb_RejectedDueToConcurrentUpgrade => RejectedDueToConcurrentUpgrade
  end.

(** [From<Decision> for messages::upgrade::Decision] *)
Definition decision_into (d : Decision) : Pb_Decision :=
  match d with
  | Accepted => Pb_Accepted
  | RejectedDueToUnknownSession => Pb_RejectedDueToUnknownSession
  | RejectedDueToConcurrentUpgrade => Pb_RejectedDueToConcurrentUpgrade
  end.

Record UpgradeDecisionMsg := mkUpgradeDecisionMsg { decision : Decision; decision_session : Session }.

(** [UpgradeDecisionMsg::decode] *)
Definition upgrade_decision_decode (b : bytes) : CodecResult UpgradeDecisionMsg :=
  match b with
  | [] => Err InvalidLength
  | first :: rest =>
      match relayed_from first with
      | TUpgradeDecision =>
          let? p := ok_or (parse_from_bytes rest) DecodeFailed in
          Ok (mkUpgradeDecisionMsg (decision_from (pb_decision p)) (pb_decision_session p))
      | _ => Err DecodeFailed
      end
  end.

(** [UpgradeDecisionMsg::encode] *)
Definition upgrade_decision_encode (m : UpgradeDecisionMsg) : CodecResult bytes :=
  encode_tagged TUpgradeDecision
    (mkUpgradeDecision (decision_into (decision m)) (decision_session m)).

(** *** [PingerMsg], [PartialPongerMsg] and [PlaintextPongerMsg] *)

Record PingerMsg := mkPingerMsg { pinger_session : Session; pinger_msg : Pinger }.

(** The reply with its inner data still encrypted *)
Record PartialPongerMsg := mkPartialPongerMsg { partial_session : Session; partial_msg : bytes }.

Record PlaintextPongerMsg := mkPlaintextPongerMsg { ponger_session : Session; ponger_msg : Ponger }.

(** [PingerMsg::ping] *)
Definition ping (p : WGPort) (session : Session) (ts : Z) : PingerMsg :=
  mkPingerMsg session (mkPinger ts (wg_port p) None).

(** [PingerMsg::pong] *)
Definition pong (m : PingerMsg) (p : WGPort) (ping_source : StdIpAddr) (ep_provider : EndpointType)
    : option PlaintextPongerMsg :=
  match ping_source with
  | V4 v4address =>
      Some (mkPlaintextPongerMsg (pinger_session m)
        (mkPonger (pinger_start_timestamp (pinger_msg m)) (wg_port p) (Some (source_v4 v4address))
          (endpoint_provider_code ep_provider)))
  | V6 _ => None
  end.

(** [get_wg_port]: [as u16] *)
Definition pinger_get_wg_port (m : PingerMsg) : WGPort := mkWGPort (wrap 16 (pinger_wg_port (pinger_msg m))).
Definition ponger_get_wg_port (m : PlaintextPongerMsg) : WGPort :=
  mkWGPort (wrap 16 (ponger_wg_port (ponger_msg m))).

(** [PlaintextPongerMsg::get_ping_source_address] *)
Definition get_ping_source_address (m : PlaintextPongerMsg) : CodecResult Z :=
  match ponger_source (ponger_msg m) with
  | Some (source_v4 a) => Ok a
  | _ => Err DecodeFailed
  end.

(** [PlaintextPongerMsg::get_ponging_ep_provider] *)
Definition get_ponging_ep_provider (m : PlaintextPongerMsg) : CodecResult (option EndpointType) :=
  let ep_provider_raw := ponging_ep_provider (ponger_msg m) in
  if bool_decide (ep_provider_raw = 0%Z) then Ok None
  else match endpoint_provider_try_from ep_provider_raw with
       | Some p => Ok (Some p)
       | None => Err DecodeFailed
       end.

(** [PingerMsg::decode_and_decrypt] *)
Definition pinger_decode_and_decrypt (b : bytes) (decrypt : Decrypt)
    : CodecResult (PingerMsg * option PublicKey) :=
  match b with
  | [] => Err InvalidLength
  | _ =>
      let packet_type := first_type b in
      match packet_type with
      | TPinger =>
          let? body := ok_or (slice_from 1 b) InvalidLength in
          let? '(b, public_key) := decrypt packet_type body in
          let? session := ok_or (slice 0 8 b) InvalidLength in
          let? rest := ok_or (slice_from 8 b) InvalidLength in
          let? pinger := ok_or (parse_from_bytes rest) DecodeFailed in
          Ok (mkPingerMsg (be_bytes session) pinger, public_key)
      | _ => Err DecodeFailed
      end
  end.

(** [PingerMsg::encode_and_encrypt] *)
Definition pinger_encode_and_encrypt (m : PingerMsg) (encrypt : bytes → CodecResult bytes)
    : CodecResult bytes :=
  let? body := ok_or (write_to_bytes (pinger_msg m)) Encode in
  let? transformed := encrypt (to_be_bytes 8 (pinger_session m) ++ body) in
  Ok ([relayed_code TPinger] ++ transformed).

(** [PingerMsg::decode] and [PingerMsg::encode] *)
Definition pinger_decode (b : bytes) : CodecResult PingerMsg :=
  let? '(m, _) := pinger_decode_and_decrypt b (λ _ b, Ok (b, None)) in Ok m.
Definition pinger_encode (m : PingerMsg) : CodecResult bytes := pinger_encode_and_encrypt m Ok.

(** [PlaintextPongerMsg::encode_and_encrypt] *)
Definition ponger_encode_and_encrypt (m : PlaintextPongerMsg) (encrypt : bytes → CodecResult bytes)
    : CodecResult bytes :=
  let? buf := ok_or (write_to_bytes (ponger_msg m)) Encode in
  let? transformed := encrypt buf in
  Ok ([relayed_code TPonger] ++ to_be_bytes 8 (ponger_session m) ++ transformed).

(** [PartialPongerMsg::decrypt] *)
Definition partial_ponger_decrypt (m : PartialPongerMsg) (decrypt : bytes → CodecResult bytes)
    : CodecResult PlaintextPongerMsg :=
  let? transformed := decrypt (partial_msg m) in
  let? msg := ok_or (parse_from_bytes transformed) DecodeFailed in
  Ok (mkPlaintextPongerMsg (partial_session m) msg).

(** [PartialPongerMsg::decode_and_decrypt] *)
Definition partial_ponger_decode_and_decrypt (b : bytes) (decrypt : Decrypt)
    : CodecResult PartialPongerMsg :=
  match b with
  | [] => Err InvalidLength
  | _ =>
      let packet_type := first_type b in
      match packet_type with
      | TPonger =>
          let? session := ok_or (slice 1 8 b) InvalidLength in
          let? rest := ok_or (slice_from 9 b) InvalidLength in
          let? '(b, _) := decrypt packet_type rest in
          Ok (mkPartialPongerMsg (be_bytes session) b)
      | _ => Err DecodeFailed
      end
  end.

(** [PartialPongerMsg::decode] *)
Definition partial_ponger_decode (b : bytes) : CodecResult PartialPongerMsg :=
  match b with
  | [] => Err InvalidLength
  | _ =>
      match first_type b with
      | TPonger =>
          let? session := ok_or (slice 1 8 b) InvalidLength in
          let? rest := ok_or (slice_from 9 b) InvalidLength in
          Ok (mkPartialPongerMsg (be_bytes session) rest)
      | _ => Err DecodeFailed
      end
  end.

(** [PartialPongerMsg::encode] *)
Definition partial_ponger_encode (m : PartialPongerMsg) : CodecResult bytes :=
  Ok ([relayed_code TPonger] ++ to_be_bytes 8 (partial_session m) ++ partial_msg m).

(** *** [DerpPollRequestMsg] and [DerpPollResponseMsg] *)

Record DerpPollRequestMsg := mkDerpPollRequestMsg { request_session : Session; request_msg : DerpPollRequest }.
Record DerpPollResponseMsg := mkDerpPollResponseMsg { response_session : Session; response_msg : DerpPollResponse }.

(** [DerpPollRequestMsg::new] *)
Definition poll_request_new `{!HashOrder PublicKey} (session : Session) (peers : gset PublicKey)
    : DerpPollRequestMsg :=
  mkDerpPollRequestMsg session (mkDerpPollRequest (public_key_to_string <$> hash_iter peers)).

(** [peer.parse().ok()], which may panic *)
Definition parse_key (s : text) : outcome (option PublicKey) :=
  match key_from_str public_key_new s with
  | Returns (Ok k) => Returns (Some k)
  | Returns (Err _) => Returns None
  | Panics => Panics
  end.

(** [DerpPollRequestMsg::get_peers] *)
Definition get_peers (m : DerpPollRequestMsg) : outcome (list PublicKey) :=
  foldr (λ s rest,
    match parse_key s, rest with
    | Returns k, Returns l => Returns (option_list k ++ l)
    | _, _ => Panics
    end) (Returns []) (poll_peers (request_msg m)).

(** [DerpPollResponseMsg::new] *)
Definition poll_response_new `{!HashOrder PublicKey} (session : Session) (peer_states : gmap PublicKey bool)
    : DerpPollResponseMsg :=
  mkDerpPollResponseMsg session (mkDerpPollResponse
    (foldl (λ m pk, match peer_states !! pk with
                    | Some state => <[public_key_to_string pk := state]> m
                    | None => m
                    end) ∅ (hash_iter (dom peer_states)))).

(** [DerpPollResponseMsg::get_peers_statuses] *)
Definition get_peers_statuses `{!HashOrder text} (m : DerpPollResponseMsg)
    : outcome (gmap PublicKey bool) :=
  let peer_states := poll_peer_states (response_msg m) in
  foldl (λ acc peer,
    match acc, parse_key peer, peer_states !! peer with
    | Returns acc, Returns (Some pk), Some state => Returns (<[pk := state]> acc)
    | Returns acc, Returns _, _ => Returns acc
    | _, _, _ => Panics
    end) (Returns ∅) (hash_iter (dom peer_states)).

(** The common layout: type, session, message *)
Definition encode_control {M} `{!Protobuf M} (t : PacketTypeControl) (session : Session) (m : M)
    : CodecResult bytes :=
  let? body := ok_or (write_to_bytes m) Encode in
  Ok ([control_code t] ++ to_be_bytes 8 session ++ body).

Definition decode_control {M} `{!Protobuf M} (t : PacketTypeControl) (b : bytes)
    : CodecResult (Session * M) :=
  match b with
  | [] => Err InvalidLength
  | _ =>
      if decide (first_control_type b = t) then
        let? b := ok_or (slice_from 1 b) InvalidLength in
        let? session := ok_or (slice 0 8 b) InvalidLength in
        let? rest := ok_or (slice_from 8 b) InvalidLength in
        let? m := ok_or (parse_from_bytes rest) DecodeFailed in
        Ok (be_bytes session, m)
      else Err DecodeFailed
  end.

(** [DerpPollRequestMsg::decode] and [encode] *)
Definition poll_request_decode (b : bytes) : CodecResult DerpPollRequestMsg :=
  let? '(session, msg) := decode_control CDerpPollRequest b in Ok (mkDerpPollRequestMsg session msg).
Definition poll_request_encode (m : DerpPollRequestMsg) : CodecResult bytes :=
  encode_control CDerpPollRequest (request_session m) (request_msg m).

(** [DerpPollResponseMsg::decode] and [encode] *)
Definition poll_response_decode (b : bytes) : CodecResult DerpPollResponseMsg :=
  let? '(session, msg) := decode_control CDerpPollResponse b in Ok (mkDerpPollResponseMsg session msg).
Definition poll_response_encode (m : DerpPollResponseMsg) : CodecResult bytes :=
  encode_control CDerpPollResponse (response_session m) (response_msg m).

(** ** [PacketRelayed] *)

Inductive PacketRelayed :=
| PData (msg : DataMsg)
| PHeartbeat (msg : HeartbeatMessage)
| PCallMeMaybeDeprecated (msg : CallMeMaybeMsgDeprecated)
| PCallMeMaybe (msg : CallMeMaybeMsg)
| PPinger (msg : PingerMsg)
| PPonger (msg : PartialPongerMsg)
| PUpgrade (msg : UpgradeMsg)
| PUpgradeDecision (msg : UpgradeDecisionMsg).

(** [Result::map] *)
Definition result_map {A B} (f : A → B) (r : CodecResult A) : CodecResult B :=
  let? a := r in Ok (f a).

(** [PacketRelayed::decode] *)
Definition relayed_decode (b : bytes) : CodecResult PacketRelayed :=
  match b with
  | [] => Err InvalidLength
  | _ =>
      match first_type b with
      | TData | TGenData => result_map PData (data_msg_decode b)
      | THeartbeat => result_map PHeartbeat (heartbeat_decode b)
      | TCallMeMaybe => result_map PCallMeMaybe (call_me_maybe_decode b)
      | TPinger => result_map PPinger (pinger_decode b)
      | TPonger => result_map PPonger (partial_ponger_decode b)
      | TCallMeMaybeDeprecated => result_map PCallMeMaybeDeprecated (call_me_maybe_deprecated_decode b)
      | TUpgrade => result_map PUpgrade (upgrade_msg_decode b)
      | TUpgradeDecision => result_map PUpgradeDecision (upgrade_decision_decode b)
      | TReserved | TInvalid | TEncrypted => Err DecodeFailed
      end
  end.

(** [PacketRelayed::decode_and_decrypt] *)
Definition relayed_decode_and_decrypt (b : bytes) (decrypt : Decrypt)
    : CodecResult (PacketRelayed * option PublicKey) :=
  match b with
  | [] => Err InvalidLength
  | _ =>
      let plain r := result_map (λ p, (p, None)) r in
      match first_type b with
      | TData | TGenData => plain (result_map PData (data_msg_decode b))
      | THeartbeat => plain (result_map PHeartbeat (heartbeat_decode b))
      | TCallMeMaybe => plain (result_map PCallMeMaybe (call_me_maybe_decode b))
      | TPinger =>
          let? '(msg, public_key) := pinger_decode_and_decrypt b decrypt in Ok (PPinger msg, public_key)
      | TPonger => plain (result_map PPonger (partial_ponger_decode_and_decrypt b decrypt))
      | TCallMeMaybeDeprecated =>
          plain (result_map PCallMeMaybeDeprecated (call_me_maybe_deprecated_decode b))
      | TUpgrade => plain (result_map PUpgrade (upgrade_msg_decode b))
      | TUpgradeDecision => plain (result_map PUpgradeDecision (upgrade_decision_decode b))
      | TReserved | TInvalid | TEncrypted => Err DecodeFailed
      end
  end.

(** [PacketRelayed::encode] *)
Definition relayed_encode (p : PacketRelayed) : CodecResult bytes :=
  match p with
  | PData msg => data_msg_encode msg
  | PHeartbeat msg => heartbeat_encode msg
  | PCallMeMaybe msg => call_me_maybe_encode msg
  | PPinger msg => pinger_encode msg
  | PPonger msg => partial_ponger_encode msg
  | PCallMeMaybeDeprecated msg => call_me_maybe_deprecated_encode msg
  | PUpgrade msg => upgrade_msg_encode msg
  | PUpgradeDecision msg => upgrade_decision_encode msg
  end.

(** [PacketRelayed::packet_type] *)
Definition relayed_packet_type (p : PacketRelayed) : PacketTypeRelayed :=
  match p with
  | PData msg => data_msg_packet_type msg
  | PHeartbeat _ => THeartbeat
  | PCallMeMaybe _ => TCallMeMaybe
  | PPinger _ => TPinger
  | PPonger _ => TPonger
  | PCallMeMaybeDeprecated _ => TCallMeMaybeDeprecated
  | PUpgrade _ => TUpgrade
  | PUpgradeDecision _ => TUpgradeDecision
  end.

(** ** [PacketControl] *)

Inductive PacketControl :=
| PDerpPollRequest (msg : DerpPollRequestMsg)
| PDerpPollResponse (msg : DerpPollResponseMsg).

(** [PacketControl::decode] *)
Definition control_decode (b : bytes) : CodecResult PacketControl :=
  match b with
  | [] => Err InvalidLength
  | _ =>
      match first_control_type b with
      | CDerpPollRequest => result_map PDerpPollRequest (poll_request_decode b)
      | CDerpPollResponse => result_map PDerpPollResponse (poll_response_decode b)
      | CReserved | CInvalid => Err DecodeFailed
      end
  end.

(** [PacketControl::encode] *)
Definition control_encode (p : PacketControl) : CodecResult bytes :=
  match p with
  | PDerpPollRequest msg => poll_request_encode msg
  | PDerpPollResponse msg => poll_response_encode msg
  end.

(** [PacketControl::packet_type] *)
Definition control_packet_type (p : PacketControl) : PacketTypeControl :=
  match p with
  | PDerpPollRequest _ => CDerpPollRequest
  | PDerpPollResponse _ => CDerpPollResponse
  end.
End messages.
