(* ===== verification/ProtoProps.v ===== *)
(** * Packets: theorems

    What is encoded is decoded to the same packet, for both kinds of packets;
    and the operations on data messages keep their layout. *)

From S2P Require Import Prelude NetTypes WgTypes Crypto NetText Proto.

(** ** Type bytes *)

Lemma first_type_code t b : first_type (relayed_code t :: b) = t.
Proof. by destruct t. Qed.

Lemma relayed_from_code t : relayed_from (relayed_code t) = t.
Proof. by destruct t. Qed.

Lemma first_control_type_code t b : first_control_type (control_code t :: b) = t.
Proof. by destruct t. Qed.

Lemma relayed_code_from x : relayed_from x ≠ TInvalid → relayed_code (relayed_from x) = x.
Proof.
  unfold relayed_from. destruct (list_find _ relayed_types) as [[i t]|] eqn:E; [|done].
  by apply list_find_Some in E as (_ & -> & _).
Qed.

Lemma endpoint_provider_try_from_code p : endpoint_provider_try_from (endpoint_provider_code p) = Some p.
Proof. by destruct p. Qed.

Lemma decision_from_into d : decision_from (decision_into d) = d.
Proof. by destruct d. Qed.

Lemma slice_from_1 {A} (x : A) l : slice_from 1 (x :: l) = Some l.
Proof. exact (slice_from_app [x] l 1 eq_refl). Qed.

(** ** Data messages *)

(** The two layouts *)
Inductive data_layout : bytes → Prop :=
| plain_layout payload : is_bytes payload → data_layout ([relayed_code TData] ++ payload)
| gen_layout g p payload :
    is_uint 8 g → is_uint 16 p → is_bytes payload →
    data_layout ([relayed_code TGenData] ++ [g] ++ to_be_bytes 2 p ++ payload).

Lemma to_be_bytes_2 p : to_be_bytes 2 p = [(p / 256) `mod` 256; p `mod` 256]%Z.
Proof. done. Qed.

Lemma two_bytes b0 b1 :
  is_uint 8 b0 → is_uint 8 b1 →
  to_be_bytes 2 (be_bytes [b0; b1]) = [b0; b1] ∧ is_uint 16 (be_bytes [b0; b1]).
Proof.
  intros H0 H1. assert (is_bytes [b0; b1]) as Hb by (unfold is_bytes; by rewrite !Forall_cons).
  split; [exact (to_be_bytes_be_bytes _ Hb)|exact (be_bytes_is_uint _ Hb)].
Qed.

Lemma peer_id_to_be p : is_uint 16 p → peer_id_try_from (to_be_bytes 2 p) = Ok (mkPeerId p).
Proof.
  intros Hp. rewrite to_be_bytes_2. unfold peer_id_try_from. rewrite <-to_be_bytes_2.
  by rewrite be_bytes_to_be_bytes.
Qed.

Lemma gen_accessors g p payload :
  is_uint 16 p →
  let m := mkDataMsg ([relayed_code TGenData] ++ [g] ++ to_be_bytes 2 p ++ payload) in
  data_msg_packet_type m = TGenData ∧ get_generation m = Some (mkGeneration g) ∧
  get_peer_id m = Some (mkPeerId p) ∧ get_payload m = payload.
Proof.
  intros Hp m. assert (data_msg_packet_type m = TGenData) as Ht by apply first_type_code.
  unfold get_generation, get_peer_id, get_payload. rewrite Ht. cbn [decide].
  rewrite !decide_True by done. split_and!; [done|done| |done].
  pose proof (slice_app [relayed_code TGenData; g] (to_be_bytes 2 p) payload 2 2 eq_refl eq_refl) as Hs.
  cbn [app] in Hs. unfold m. cbn [data_bytes app]. rewrite Hs. change (default [] (Some ?x)) with x. by rewrite peer_id_to_be.
Qed.

Lemma plain_accessors payload :
  let m := mkDataMsg ([relayed_code TData] ++ payload) in
  data_msg_packet_type m = TData ∧ get_generation m = None ∧ get_peer_id m = None ∧
  get_payload m = payload.
Proof. done. Qed.

Lemma rotate_right_app {A} n (l1 l2 : list A) :
  length l2 = n → rotate_right n (l1 ++ l2) = l2 ++ l1.
Proof.
  intros <-. unfold rotate_right. rewrite length_app.
  replace (length l1 + length l2 - length l2) with (length l1) by lia.
  by rewrite drop_app_length, take_app_length.
Qed.

Lemma set_generation_plain g payload :
  set_generation (mkGeneration g) (mkDataMsg ([relayed_code TData] ++ payload)) =
    Returns (mkDataMsg ([relayed_code TGenData] ++ [g] ++ to_be_bytes 2 0 ++ payload)).
Proof.
  unfold set_generation, convert_to_gen_data.
  change (data_msg_packet_type (mkDataMsg ([relayed_code TData] ++ payload))) with TData.
  cbn [data_bytes]. rewrite rotate_right_app by done. by rewrite decide_True by (simpl; lia).
Qed.

Lemma data_msg_decode_layout b :
  data_layout b → data_msg_decode b = Ok (mkDataMsg b).
Proof.
  intros [payload Hp|g p payload Hg Hp Hb]; [done|].
  pose proof (slice_app [relayed_code TGenData; g] (to_be_bytes 2 p) payload 2 2 eq_refl eq_refl) as Hs.
  pose proof (slice_from_app ([relayed_code TGenData; g] ++ to_be_bytes 2 p) payload 4 eq_refl) as Hf.
  rewrite <-(assoc_L (++)) in Hf. cbn [app] in Hs, Hf.
  unfold data_msg_decode. cbn [app]. rewrite first_type_code. rewrite decide_False by (simpl; lia).
  rewrite Hf, Hs. cbn [ok_or]. by rewrite peer_id_to_be.
Qed.

Lemma data_msg_decode_inv b m :
  is_bytes b → data_msg_decode b = Ok m → data_layout b ∧ data_bytes m = b.
Proof.
  intros Hb. destruct b as [|x b]; [done|]. unfold data_msg_decode.
  apply Forall_cons in Hb as [Hx Hb]. assert (first_type (x :: b) = relayed_from x) as Ht by done.
  destruct (first_type (x :: b)) eqn:E; try done.
  - rewrite slice_from_1. intros [= <-]. rewrite <-(relayed_code_from x), <-Ht by congruence.
    split; [by constructor|done].
  - case_decide as Hl; [done|]. destruct b as [|g [|p0 [|p1 b]]]; simpl in Hl; [lia..|].
    rewrite !Forall_cons in Hb. destruct Hb as (Hg & Hp0 & Hp1 & Hb).
    destruct (two_bytes p0 p1 Hp0 Hp1) as [Hp Hpu].
    pose proof (slice_from_app [x; g; p0; p1] b 4 eq_refl) as Hf.
    pose proof (slice_app [x; g] [p0; p1] b 2 2 eq_refl eq_refl) as Hs.
    cbn [app] in Hf, Hs. rewrite Hf, Hs.
    cbn [ok_or peer_id_try_from]. intros [= <-]. cbn [data_msg_with_generation data_bytes peer_id generation].
    rewrite Hp, <-(relayed_code_from x), <-Ht by congruence. split; [|done].
    pose proof (gen_layout g (be_bytes [p0; p1]) b Hg Hpu Hb) as HL. by rewrite Hp in HL.
Qed.

(** C38: A data message always has one of its two layouts, whatever made it.  What
    the constructors put in is what the accessors return; decoding accepts
    exactly the buffers with such a layout and keeps them; setting the
    generation turns a plain message into one with a generation and the peer
    identifier zero, and keeps the payload; setting the peer identifier keeps
    the rest, and is refused for a plain message.  None of them panics. *)
Theorem data_msg_layout :
  (∀ wg_data, is_bytes wg_data →
    let m := data_msg_new wg_data in
    data_layout (data_bytes m) ∧ get_payload m = wg_data ∧ get_generation m = None ∧ get_peer_id m = None) ∧
  (∀ wg_data g p, is_bytes wg_data → is_uint 8 (generation g) → is_uint 16 (peer_id p) →
    let m := data_msg_with_generation wg_data g p in
    data_layout (data_bytes m) ∧ get_payload m = wg_data ∧ get_generation m = Some g ∧ get_peer_id m = Some p) ∧
  (∀ b m, is_bytes b → data_msg_decode b = Ok m ↔ data_layout b ∧ m = mkDataMsg b) ∧
  (∀ m g, data_layout (data_bytes m) → is_uint 8 (generation g) →
    ∃ m', set_generation g m = Returns m' ∧ data_layout (data_bytes m') ∧
      get_payload m' = get_payload m ∧ get_generation m' = Some g ∧
      get_peer_id m' = Some (default (mkPeerId 0) (get_peer_id m))) ∧
  (∀ m p, data_layout (data_bytes m) → is_uint 16 (peer_id p) →
    match get_generation m with
    | None => set_peer_id p m = Returns (Err InvalidType)
    | Some g =>
        ∃ m', set_peer_id p m = Returns (Ok m') ∧ data_layout (data_bytes m') ∧
          get_payload m' = get_payload m ∧ get_generation m' = Some g ∧ get_peer_id m' = Some p
    end).
Proof.
  split_and!.
  - intros wg_data Hw m. split_and!; [by constructor|done..].
  - intros wg_data [g] [p] Hw Hg Hp m. destruct (gen_accessors g p wg_data Hp) as (_ & ? & ? & ?).
    split_and!; [by apply gen_layout|done..].
  - intros b m Hb. split; [|intros [Hl ->]; by apply data_msg_decode_layout].
    intros Hd. destruct (data_msg_decode_inv b m Hb Hd) as [Hl <-]. by destruct m.
  - intros [b] [g] Hl Hg. simpl in *. destruct Hl as [payload Hp|g' p payload Hg' Hp Hb].
    + rewrite set_generation_plain. destruct (gen_accessors g 0 payload ltac:(done)) as (_ & ? & ? & ?).
      eexists. split_and!; [done|by apply gen_layout|done..].
    + destruct (gen_accessors g p payload Hp) as (_ & ? & ? & ?).
      destruct (gen_accessors g' p payload Hp) as (Ht & _ & Hi & Hpl). rewrite Hi, Hpl.
      exists (mkDataMsg ([relayed_code TGenData] ++ [g] ++ to_be_bytes 2 p ++ payload)).
      split_and!; [|by apply gen_layout|done..].
      unfold set_generation, convert_to_gen_data. by rewrite Ht.
  - intros [b] [p] Hl Hp. simpl in *. destruct Hl as [payload Hb|g p' payload Hg Hp' Hb]; [done|].
    destruct (gen_accessors g p' payload Hp') as (Ht & Hge & _ & Hpl). rewrite Hge, Hpl.
    destruct (gen_accessors g p payload Hp) as (_ & ? & ? & ?).
    exists (mkDataMsg ([relayed_code TGenData] ++ [g] ++ to_be_bytes 2 p ++ payload)).
    split_and!; [|by apply gen_layout|done..].
    unfold set_peer_id. rewrite Ht, decide_True by done. by rewrite decide_True by (simpl; lia).
Qed.

(** ** Generations

    A generation is before the 127 that follow it and after the 128 others, so
    two generations at distance 128 are each after the other. *)

Lemma generation_order g d :
  is_uint 8 g → (0 < d < 256)%Z →
  generation_partial_cmp (mkGeneration g) (mkGeneration (wrap 8 (g + d))) =
    if bool_decide (d <= 127)%Z then Lt else Gt.
Proof.
  unfold is_uint. intros Hg Hd. unfold generation_partial_cmp. simpl.
  assert (wrap 8 (wrap 8 (g + d) - g) = d) as ->.
  { unfold wrap. change (2 ^ 8)%Z with 256%Z in *. Z.to_euclidean_division_equations. lia. }
  rewrite bool_decide_false.
  2: { unfold wrap. change (2 ^ 8)%Z with 256%Z in *. Z.to_euclidean_division_equations. lia. }
  change (255 / 2)%Z with 127%Z. repeat case_bool_decide; done || lia.
Qed.

(** ** Tagged messages *)

Section roundtrip.
Context `{MessagesLaws}.

Lemma tagged_roundtrip {M} `{!Protobuf M, !ProtobufLaws M} t (m : M) :
  ∃ b, encode_tagged t m = Ok (relayed_code t :: b) ∧ decode_tagged t (relayed_code t :: b) = Ok m ∧
       parse_from_bytes b = Some m.
Proof.
  destruct (write_parse m) as (b & Hw & Hp). exists b. unfold encode_tagged, decode_tagged.
  rewrite Hw, first_type_code, decide_True, slice_from_1 by done. simpl. by rewrite Hp.
Qed.

Lemma session_slices session (b : bytes) :
  slice 0 8 (to_be_bytes 8 session ++ b) = Some (to_be_bytes 8 session) ∧
  slice_from 8 (to_be_bytes 8 session ++ b) = Some b.
Proof.
  pose proof (length_to_be_bytes 8 session) as Hl. split.
  - by apply (slice_app [] (to_be_bytes 8 session) b).
  - by apply slice_from_app.
Qed.

Lemma be_session session : is_uint 64 session → be_bytes (to_be_bytes 8 session) = session.
Proof. apply (be_bytes_to_be_bytes 8). Qed.

Lemma control_roundtrip {M} `{!Protobuf M, !ProtobufLaws M} t session (m : M) :
  is_uint 64 session →
  ∃ b, encode_control t session m = Ok (control_code t :: b) ∧
       decode_control t (control_code t :: b) = Ok (session, m).
Proof.
  intros Hs. destruct (write_parse m) as (b & Hw & Hp). unfold encode_control, decode_control.
  rewrite Hw. exists (to_be_bytes 8 session ++ b). split; [done|].
  rewrite first_control_type_code, decide_True, slice_from_1 by done. cbn [ok_or].
  destruct (session_slices session b) as [-> ->]. cbn [ok_or]. by rewrite Hp, be_session.
Qed.

(** A ping and a pong, for any encryption that the other side undoes *)
Lemma pinger_roundtrip (m : PingerMsg) :
  is_uint 64 (pinger_session m) →
  ∃ body, write_to_bytes (pinger_msg m) = Some body ∧
  let plain := to_be_bytes 8 (pinger_session m) ++ body in
  ∀ (encrypt : bytes → CodecResult bytes) (decrypt : Decrypt) c key,
    encrypt plain = Ok c → decrypt TPinger c = Ok (plain, key) →
    pinger_encode_and_encrypt m encrypt = Ok (relayed_code TPinger :: c) ∧
    pinger_decode_and_decrypt (relayed_code TPinger :: c) decrypt = Ok (m, key).
Proof.
  intros Hs. destruct (write_parse (pinger_msg m)) as (b & Hw & Hp). exists b. split; [done|].
  intros plain encrypt decrypt c key Hc Hd.
  unfold pinger_encode_and_encrypt, pinger_decode_and_decrypt. rewrite Hw. cbn [ok_or]. fold plain.
  rewrite Hc. split; [done|]. rewrite first_type_code, slice_from_1. cbn [ok_or]. rewrite Hd. unfold plain.
  destruct (session_slices (pinger_session m) b) as [-> ->]. cbn [ok_or]. rewrite Hp, be_session by done.
  by destruct m.
Qed.

Lemma ponger_slices session (b : bytes) :
  slice 1 8 (relayed_code TPonger :: to_be_bytes 8 session ++ b) = Some (to_be_bytes 8 session) ∧
  slice_from 9 (relayed_code TPonger :: to_be_bytes 8 session ++ b) = Some b.
Proof.
  pose proof (length_to_be_bytes 8 session) as Hl. split.
  - by apply (slice_app [relayed_code TPonger] (to_be_bytes 8 session) b).
  - apply (slice_from_app (relayed_code TPonger :: to_be_bytes 8 session) b). simpl. lia.
Qed.

Lemma ponger_roundtrip (m : PlaintextPongerMsg) :
  is_uint 64 (ponger_session m) →
  ∃ body, write_to_bytes (ponger_msg m) = Some body ∧
  ∀ (encrypt decrypt : bytes → CodecResult bytes) c,
    encrypt body = Ok c → decrypt c = Ok body →
    ∃ b, ponger_encode_and_encrypt m encrypt = Ok (relayed_code TPonger :: b) ∧
      partial_ponger_decode (relayed_code TPonger :: b) =
        Ok (mkPartialPongerMsg (ponger_session m) c) ∧
      partial_ponger_decode_and_decrypt (relayed_code TPonger :: b) (λ _ b, Ok (b, None)) =
        Ok (mkPartialPongerMsg (ponger_session m) c) ∧
      partial_ponger_decrypt (mkPartialPongerMsg (ponger_session m) c) decrypt = Ok m.
Proof.
  intros Hs. destruct (write_parse (ponger_msg m)) as (body & Hw & Hp). exists body. split; [done|].
  intros encrypt decrypt c Hc Hd. exists (to_be_bytes 8 (ponger_session m) ++ c).
  unfold ponger_encode_and_encrypt, partial_ponger_decode, partial_ponger_decode_and_decrypt, partial_ponger_decrypt.
  rewrite Hw. cbn [ok_or]. rewrite Hc. split; [done|]. rewrite first_type_code.
  destruct (ponger_slices (ponger_session m) c) as [-> ->]. cbn [ok_or partial_msg partial_session].
  rewrite be_session, Hd by done. cbn [ok_or]. rewrite Hp. cbn [ok_or]. by destruct m.
Qed.

(** ** All packets *)

(** The fields are in range, and the endpoint of an upgrade can be printed. *)
Definition relayed_ok (p : PacketRelayed) : Prop :=
  match p with
  | PData m => data_layout (data_bytes m)
  | PPinger m => is_uint 64 (pinger_session m)
  | PPonger m => is_uint 64 (partial_session m)
  | PUpgrade m => addr_ok (msg_endpoint m)
  | _ => True
  end.

Definition control_ok (p : PacketControl) : Prop :=
  match p with
  | PDerpPollRequest m => is_uint 64 (request_session m)
  | PDerpPollResponse m => is_uint 64 (response_session m)
  end.

Lemma upgrade_msg_roundtrip (m : UpgradeMsg) :
  addr_ok (msg_endpoint m) →
  ∃ b, upgrade_msg_encode m = Ok (relayed_code TUpgrade :: b) ∧
       upgrade_msg_decode (relayed_code TUpgrade :: b) = Ok m.
Proof.
  intros Ha. unfold upgrade_msg_encode, upgrade_msg_decode.
  match goal with |- context [encode_tagged _ ?u] => destruct (tagged_roundtrip TUpgrade u) as (b & He & Hd & _) end.
  exists b. rewrite Hd. split; [done|]. cbn [pb_endpoint pb_session pb_endpoint_type pb_receiver_endpoint_type].
  rewrite socket_addr_text by done. cbn [ok_or]. rewrite !endpoint_provider_try_from_code. by destruct m.
Qed.

Lemma upgrade_decision_roundtrip (m : UpgradeDecisionMsg) :
  ∃ b, upgrade_decision_encode m = Ok (relayed_code TUpgradeDecision :: b) ∧
       upgrade_decision_decode (relayed_code TUpgradeDecision :: b) = Ok m.
Proof.
  unfold upgrade_decision_encode, upgrade_decision_decode.
  match goal with |- context [encode_tagged _ ?u] =>
    destruct (tagged_roundtrip TUpgradeDecision u) as (b & He & _ & Hp) end.
  exists b. split; [done|]. rewrite relayed_from_code, Hp. cbn [ok_or pb_decision pb_decision_session].
  rewrite decision_from_into. by destruct m.
Qed.

Lemma relayed_roundtrip_tagged (p : PacketRelayed) :
  relayed_ok p →
  ∃ b, relayed_encode p = Ok (relayed_code (relayed_packet_type p) :: b) ∧
       relayed_decode (relayed_code (relayed_packet_type p) :: b) = Ok p.
Proof.
  intros Hok. unfold relayed_decode.
  destruct p as [m|m|m|m|m|m|m|m]; cbn [relayed_encode relayed_packet_type relayed_ok] in *.
  - destruct m as [b]. simpl in Hok. pose proof (data_msg_decode_layout b Hok) as Hd.
    destruct Hok as [payload Hp|g p payload Hg Hp Hb]; (eexists; split; [done|]);
      cbn [app] in Hd; unfold data_msg_packet_type; cbn [data_bytes app];
      rewrite !first_type_code; by rewrite Hd.
  - destruct (tagged_roundtrip THeartbeat m) as (b & He & Hd & _). exists b. split; [done|].
    unfold heartbeat_decode. by rewrite Hd.
  - destruct (tagged_roundtrip TCallMeMaybeDeprecated m) as (b & He & Hd & _). exists b. split; [done|].
    unfold call_me_maybe_deprecated_decode. by rewrite Hd.
  - destruct (tagged_roundtrip TCallMeMaybe m) as (b & He & Hd & _). exists b. split; [done|].
    unfold call_me_maybe_decode. by rewrite Hd.
  - destruct (pinger_roundtrip m Hok) as (body & _ & Hr). destruct (Hr Ok (λ _ b, Ok (b, None)) _ None eq_refl eq_refl)
      as [He Hd]. eexists. split; [done|]. unfold pinger_decode. by rewrite Hd.
  - exists (to_be_bytes 8 (partial_session m) ++ partial_msg m). split; [done|].
    unfold partial_ponger_decode. rewrite first_type_code.
    destruct (ponger_slices (partial_session m) (partial_msg m)) as [-> ->]. cbn [ok_or result_map].
    rewrite be_session by done. by destruct m.
  - destruct (upgrade_msg_roundtrip m Hok) as (b & He & Hd). exists b. split; [done|]. by rewrite Hd.
  - destruct (upgrade_decision_roundtrip m) as (b & He & Hd). exists b. split; [done|]. by rewrite Hd.
Qed.

Lemma control_roundtrip_tagged (p : PacketControl) :
  control_ok p →
  ∃ b, control_encode p = Ok (control_code (control_packet_type p) :: b) ∧
       control_decode (control_code (control_packet_type p) :: b) = Ok p.
Proof.
  destruct p as [m|m]; cbn [control_encode control_packet_type control_ok]; intros Hs; unfold control_decode.
  - destruct (control_roundtrip CDerpPollRequest _ (request_msg m) Hs) as (b & He & Hd).
    exists b. split; [done|]. rewrite first_control_type_code. unfold poll_request_decode. rewrite Hd. by destruct m.
  - destruct (control_roundtrip CDerpPollResponse _ (response_msg m) Hs) as (b & He & Hd).
    exists b. split; [done|]. rewrite first_control_type_code. unfold poll_response_decode. rewrite Hd. by destruct m.
Qed.
End roundtrip.

(** ** Addresses and keys inside messages *)

Lemma call_me_maybe_addrs initiator addrs session :
  Forall addr_ok addrs → call_me_maybe_get_addrs (call_me_maybe_new initiator addrs session) = addrs.
Proof.
  unfold call_me_maybe_get_addrs. simpl. induction 1 as [|a addrs Ha _ IH]; [done|].
  csimpl. rewrite socket_addr_text by done. f_equal. exact IH.
Qed.

Definition key_ok (k : PublicKey) : Prop := length (key_bytes k) = KEY_SIZE ∧ is_bytes (key_bytes k).

Lemma parse_key_to_string `{TextCodecsLaws} k :
  key_ok k → parse_key (public_key_to_string k) = Returns (Some k).
Proof.
  intros [Hl Hb]. unfold parse_key. by destruct (public_key_from_string k Hl Hb) as [-> _].
Qed.

Lemma poll_request_peers `{TextCodecsLaws, !HashOrder PublicKey} session peers :
  (∀ k, k ∈ hash_iter peers → key_ok k) →
  get_peers (poll_request_new session peers) = Returns (hash_iter peers).
Proof.
  unfold get_peers. simpl. generalize (hash_iter peers). intros l.
  induction l as [|k l IH]; intros Hk; [done|]. csimpl.
  rewrite parse_key_to_string by (apply Hk; set_solver). rewrite IH; [done|].
  intros k' Hk'. apply Hk. set_solver.
Qed.

(** C23: What a node encodes is what the node at the other end decodes.  Every
    packet between nodes and every packet to the relay whose fields are in their
    ranges (a data message with its layout, sessions of 64 bits, an address
    without IPv6 flow information, which has no place in its text) is encoded,
    with its type in front, and decoded to itself; the endpoints, without flow
    information, that a call-me-maybe message was made of are the endpoints read
    from it, and the keys of a poll request likewise.  Empty input and packets of
    an unassigned or a reserved type are refused by both decoders, and packets of
    the encrypted type by the first one. *)
Theorem packet_roundtrip `{MessagesLaws, TextCodecsLaws, !HashOrder PublicKey} :
  (∀ p, relayed_ok p →
    ∃ b, relayed_encode p = Ok (relayed_code (relayed_packet_type p) :: b) ∧
      relayed_decode (relayed_code (relayed_packet_type p) :: b) = Ok p) ∧
  (∀ p, control_ok p →
    ∃ b, control_encode p = Ok (control_code (control_packet_type p) :: b) ∧
      control_decode (control_code (control_packet_type p) :: b) = Ok p) ∧
  (∀ initiator addrs session, Forall addr_ok addrs →
    call_me_maybe_get_addrs (call_me_maybe_new initiator addrs session) = addrs) ∧
  (∀ session peers, (∀ k, k ∈ hash_iter peers → key_ok k) →
    get_peers (poll_request_new session peers) = Returns (hash_iter peers)) ∧
  (relayed_decode [] = Err InvalidLength ∧ control_decode [] = Err InvalidLength) ∧
  (∀ x b, relayed_from x ∈ [TInvalid; TReserved; TEncrypted] →
    relayed_decode (x :: b) = Err DecodeFailed) ∧
  (∀ x b, control_from x ∈ [CInvalid; CReserved] → control_decode (x :: b) = Err DecodeFailed).
Proof.
  split_and!.
  - apply relayed_roundtrip_tagged.
  - apply control_roundtrip_tagged.
  - apply call_me_maybe_addrs.
  - apply poll_request_peers.
  - done.
  - done.
  - intros x b Hx. unfold relayed_decode, first_type. rewrite !elem_of_cons, elem_of_nil in Hx.
    by destruct Hx as [->|[->|[->|[]]]].
  - intros x b Hx. unfold control_decode, first_control_type. rewrite !elem_of_cons, elem_of_nil in Hx.
    by destruct Hx as [->|[->|[]]].
Qed.

(** ** An implementation of the protobuf interface

    A message is a number, by [Countable], written bit by bit. *)

Module CountablePb.

Fixpoint bits (p : positive) : bytes :=
  match p with
  | xH => []
  | xO p => 0%Z :: bits p
  | xI p => 1%Z :: bits p
  end.

Fixpoint unbits (b : bytes) : positive :=
  match b with
  | [] => xH
  | x :: b => if bool_decide (x = 0%Z) then xO (unbits b) else xI (unbits b)
  end.

Lemma unbits_bits p : unbits (bits p) = p.
Proof. induction p as [p IH|p IH|]; simpl; by rewrite ?IH. Qed.

Definition countable_protobuf {M} `{Countable M} : Protobuf M := {|
  parse_from_bytes := λ b, decode (unbits b);
  write_to_bytes := λ m, Some (bits (encode m))
|}.

Lemma countable_protobuf_laws {M} `{Countable M} : @ProtobufLaws M countable_protobuf.
Proof. split. intros m. eexists. split; [done|]. simpl. by rewrite unbits_bits, decode_encode. Qed.

Ltac countable_by f g := by apply (inj_countable' f g); intros [].

#[local] Instance e1 : EqDecision CallMeMaybe_Type. Proof. solve_decision. Defined.
#[local] Instance c1 : Countable CallMeMaybe_Type.
Proof.
  countable_by (λ x, match x with INITIATOR => true | RESPONDER => false end)
    (λ b : bool, if b then INITIATOR else RESPONDER).
Defined.
#[local] Instance e2 : EqDecision CallMeMaybe. Proof. solve_decision. Defined.
#[local] Instance c2 : Countable CallMeMaybe.
Proof.
  countable_by (λ m, (i_am m, my_addresses m, cmm_session m))
    (λ '(a, b, c), mkCallMeMaybe a b c).
Defined.
#[local] Instance e3 : EqDecision CallMeMaybeDeprecated. Proof. solve_decision. Defined.
#[local] Instance c3 : Countable CallMeMaybeDeprecated.
Proof.
  countable_by (λ m, (dep_i_am m, dep_my_addresses m, dep_my_peer_id m, dep_session m))
    (λ '(a, b, c, d), mkCallMeMaybeDeprecated a b c d).
Defined.
#[local] Instance e4 : EqDecision Heartbeat_Type. Proof. solve_decision. Defined.
#[local] Instance c4 : Countable Heartbeat_Type.
Proof.
  countable_by (λ x, match x with REQUEST => true | RESPONSE => false end)
    (λ b : bool, if b then REQUEST else RESPONSE).
Defined.
#[local] Instance e5 : EqDecision Heartbeat_NatType. Proof. solve_decision. Defined.
#[local] Instance c5 : Countable Heartbeat_NatType.
Proof.
  countable_by (λ x, match x with
    | UdpBlocked => 0 | OpenInternet => 1 | SymmetricUdpFirewall => 2 | FullCone => 3
    | RestrictedCone => 4 | PortRestrictedCone => 5 | Symmetric => 6 | Unknown => 7 end)
    (λ n : nat, match n with
    | 0 => UdpBlocked | 1 => OpenInternet | 2 => SymmetricUdpFirewall | 3 => FullCone
    | 4 => RestrictedCone | 5 => PortRestrictedCone | 6 => Symmetric | _ => Unknown end).
Defined.
#[local] Instance e6 : EqDecision Heartbeat_Status. Proof. solve_decision. Defined.
#[local] Instance c6 : Countable Heartbeat_Status.
Proof. countable_by (λ m, (status_node m, connection_state m)) (λ '(a, b), mkHeartbeat_Status a b). Defined.
#[local] Instance e7 : EqDecision Heartbeat. Proof. solve_decision. Defined.
#[local] Instance c7 : Countable Heartbeat.
Proof.
  countable_by (λ m, (message_type m, meshnet_id m, node_fingerprint m, statuses m, nat_type m))
    (λ '(a, b, c, d, e), mkHeartbeat a b c d e).
Defined.
#[local] Instance e8 : EqDecision PingSourceAddress. Proof. solve_decision. Defined.
#[local] Instance c8 : Countable PingSourceAddress.
Proof.
  countable_by (λ x, match x with source_v4 a => inl a | source_v6 b => inr b end)
    (λ x, match x with inl a => source_v4 a | inr b => source_v6 b end).
Defined.
#[local] Instance e9 : EqDecision Pinger. Proof. solve_decision. Defined.
#[local] Instance c9 : Countable Pinger.
Proof.
  countable_by (λ m, (pinger_start_timestamp m, pinger_wg_port m, pinger_source m))
    (λ '(a, b, c), mkPinger a b c).
Defined.
#[local] Instance e10 : EqDecision Ponger. Proof. solve_decision. Defined.
#[local] Instance c10 : Countable Ponger.
Proof.
  countable_by (λ m, (ponger_start_timestamp m, ponger_wg_port m, ponger_source m, ponging_ep_provider m))
    (λ '(a, b, c, d), mkPonger a b c d).
Defined.
#[local] Instance e11 : EqDecision Pb_Decision. Proof. solve_decision. Defined.
#[local] Instance c11 : Countable Pb_Decision.
Proof.
  countable_by (λ x, match x with
    | Pb_Accepted => 0 | Pb_RejectedDueToUnknownSession => 1 | Pb_RejectedDueToConcurrentUpgrade => 2 end)
    (λ n : nat, match n with
    | 0 => Pb_Accepted | 1 => Pb_RejectedDueToUnknownSession | _ => Pb_RejectedDueToConcurrentUpgrade end).
Defined.
#[local] Instance e12 : EqDecision Upgrade. Proof. solve_decision. Defined.
#[local] Instance c12 : Countable Upgrade.
Proof.
  countable_by (λ m, (pb_endpoint m, pb_session m, pb_endpoint_type m, pb_receiver_endpoint_type m))
    (λ '(a, b, c, d), mkUpgrade a b c d).
Defined.
#[local] Instance e13 : EqDecision UpgradeDecision. Proof. solve_decision. Defined.
#[local] Instance c13 : Countable UpgradeDecision.
Proof. countable_by (λ m, (pb_decision m, pb_decision_session m)) (λ '(a, b), mkUpgradeDecision a b). Defined.
#[local] Instance e14 : EqDecision DerpPollRequest. Proof. solve_decision. Defined.
#[local] Instance c14 : Countable DerpPollRequest.
Proof. countable_by poll_peers mkDerpPollRequest. Defined.
#[local] Instance e15 : EqDecision DerpPollResponse. Proof. solve_decision. Defined.
#[local] Instance c15 : Countable DerpPollResponse.
Proof. countable_by poll_peer_states mkDerpPollResponse. Defined.

Definition messages : Messages := {|
  pb_call_me_maybe := countable_protobuf;
  pb_call_me_maybe_deprecated := countable_protobuf;
  pb_heartbeat := countable_protobuf;
  pb_pinger := countable_protobuf;
  pb_ponger := countable_protobuf;
  pb_upgrade := countable_protobuf;
  pb_upgrade_decision := countable_protobuf;
  pb_poll_request := countable_protobuf;
  pb_poll_response := countable_protobuf
|}.

Lemma messages_laws : @MessagesLaws messages.
Proof. split; apply countable_protobuf_laws. Qed.
End CountablePb.

Module ProtoSamples.

#[local] Existing Instance CountablePb.messages.
#[local] Existing Instance CountablePb.messages_laws.
#[local] Existing Instance Rfc4648.codecs.
#[local] Existing Instance Rfc4648.codecs_laws.
#[local] Existing Instance elements_order.

Definition upgrade : UpgradeMsg :=
  mkUpgradeMsg (SocketAddrV6 (ipv6_addr [0xfd00; 0; 0; 0; 0; 0; 0; 1]%Z) 51820 0 3) 42 Local Stun.

Lemma data_msg_layout_witness :
  ∃ m, set_generation (mkGeneration 8) (data_msg_new [1; 2]%Z) = Returns m ∧
    get_payload m = [1; 2]%Z ∧ get_peer_id m = Some (mkPeerId 0).
Proof.
  destruct data_msg_layout as (_ & _ & _ & Hg & _).
  destruct (Hg (data_msg_new [1; 2]%Z) (mkGeneration 8)) as (m & Hs & _ & Hp & _ & Hi).
  - constructor. by repeat constructor.
  - done.
  - exists m. rewrite Hp, Hi. done.
Defined.

Lemma packet_roundtrip_witness :
  ∃ b, relayed_encode (PUpgrade upgrade) = Ok (8 :: b)%Z ∧ relayed_decode (8 :: b)%Z = Ok (PUpgrade upgrade).
Proof.
  destruct packet_roundtrip as [Hr _].
  destruct (Hr (PUpgrade upgrade)) as (b & He & Hd); [by repeat split|]. by exists b.
Defined.
End ProtoSamples.
