(* ===== verification/Derp.v ===== *)
(** * [telio-relay]: the DERP protocol ([derp/proto.rs])

    Frames on the connection to a relay server: the two loops that read and
    write them and the key exchange that opens the connection.

    A reader is what the connection will still deliver and how it ends; a
    writer is what was written, and the error that a broken connection gives.
    The loops talk to the rest of the relay over channels, of which the sending
    halves are [Chan] and the receiving halves are lists of what arrives. *)

From Equations Require Import Equations.
From S2P Require Import Prelude NetTypes WgTypes Crypto.

Open Scope act_scope.

(** ** Frames *)

Definition MAGIC : bytes := [0x44; 0x45; 0x52; 0x50; 0xF0; 0x9F; 0x94; 0x91]%Z.

Inductive FrameType :=
| ServerKey
| ClientInfo
| ServerInfo
| SendPacket
| RecvPacket
| KeepAlive
| NotePreferred
| PeerGone
| PeerPersistent
| WatchConns
| ClosePeer
| Ping
| Pong
| ControlMessage.

#[export] Instance FrameType_eq_dec : EqDecision FrameType.
Proof. solve_decision. Defined.

(** [frame_type as u8] *)
Definition frame_type_code (t : FrameType) : Z :=
  match t with
  | ServerKey => 0x01
  | ClientInfo => 0x02
  | ServerInfo => 0x03
  | SendPacket => 0x04
  | RecvPacket => 0x05
  | KeepAlive => 0x06
  | NotePreferred => 0x07
  | PeerGone => 0x08
  | PeerPersistent => 0x09
  | WatchConns => 0x10
  | ClosePeer => 0x11
  | Ping => 0x12
  | Pong => 0x13
  | ControlMessage => 0x14
  end.

Definition frame_types : list FrameType :=
  [ServerKey; ClientInfo; ServerInfo; SendPacket; RecvPacket; KeepAlive; NotePreferred; PeerGone;
   PeerPersistent; WatchConns; ClosePeer; Ping; Pong; ControlMessage].

(** [TryFromPrimitive] *)
Definition frame_type_try_from (b : Z) : option FrameType :=
  snd <$> list_find (λ t, frame_type_code t = b) frame_types.

(** [std::io::ErrorKind], as far as it occurs *)
Inductive ErrorKind := UnexpectedEof | InvalidData | TimedOut | Other | ConnectionReset.

Inductive Error :=
| ConnectionTimeoutError
| ControlMsgSendError
| HttpParseError
| FrameTypeParseError (b : Z)
| InvalidServerName
| IoError (k : ErrorKind)
| PublicKeyParseError
| PayloadTooLargeError
| RelayedMsgSendError
| UrlParseError.

(** [telio_model::config::RelayConnectionChangeReason] *)
Inductive RelayConnectionChangeReason :=
| ConfigurationChange
| DisabledByUser
| ClientError
| ReasonIoError (k : ErrorKind).

(** [From<Error> for RelayConnectionChangeReason] *)
Definition change_reason (err : Error) : RelayConnectionChangeReason :=
  match err with
  | IoError k => ReasonIoError k
  | ConnectionTimeoutError => ReasonIoError TimedOut
  | _ => ClientError
  end.

(** ** Readers and writers *)

(** The bytes that will arrive, and the error after them: [UnexpectedEof] if the
    other end closes the connection *)
Record Reader := mkReader { rd_bytes : bytes; rd_end : ErrorKind }.

(** The bytes written, and the error of a broken connection *)
Record Writer := mkWriter { wr_bytes : bytes; wr_broken : option ErrorKind }.

(** [read_exact] *)
Definition read_exact (n : nat) (r : Reader) : result Error (bytes * Reader) :=
  if decide (n ≤ length (rd_bytes r))
  then Ok (take n (rd_bytes r), mkReader (drop n (rd_bytes r)) (rd_end r))
  else Err (IoError (rd_end r)).

(** [write_all] *)
Definition write_all (b : bytes) (w : Writer) : result Error Writer :=
  match wr_broken w with
  | None => Ok (mkWriter (wr_bytes w ++ b) None)
  | Some k => Err (IoError k)
  end.

(** [read_frame] *)
Definition read_frame (r : Reader) : result Error (FrameType * bytes * Reader) :=
  let? '(buf, r) := read_exact 1 r in
  let b := be_bytes buf in
  match frame_type_try_from b with
  | None => Err (FrameTypeParseError b)
  | Some frame_type =>
      let? '(buf, r) := read_exact 4 r in
      let frame_length := be_bytes buf in
      let? '(buf, r) := read_exact (Z.to_nat frame_length) r in
      Ok (frame_type, buf, r)
  end.

(** The buffer that [write_frame] fills *)
Definition frame_bytes (frame_type : FrameType) (data : bytes) : result Error bytes :=
  if decide (Z.of_nat (length data) < 2 ^ 32)%Z
  then Ok ([frame_type_code frame_type] ++ to_be_bytes 4 (Z.of_nat (length data)) ++ data)
  else Err PayloadTooLargeError.

(** [write_frame] *)
Definition write_frame (frame_type : FrameType) (data : bytes) (w : Writer) : result Error Writer :=
  let? buf := frame_bytes frame_type data in write_all buf w.

Lemma read_frame_shorter r t data r' :
  read_frame r = Ok (t, data, r') → length (rd_bytes r') < length (rd_bytes r).
Proof.
  unfold read_frame, read_exact. destruct r as [b k]. simpl.
  repeat (case_decide || case_match || simplify_eq/=); intros; simplify_eq/=.
  rewrite !length_drop in *. lia.
Qed.

(** ** The reading loop *)

(** The two channels that [start_read] sends to *)
Record Senders := mkSenders {
  sender_relayed : Chan (PublicKey * bytes);
  sender_direct : Chan bytes
}.

(** One frame: [Returns (Ok senders)] continues the loop.  [data.drain(0..KEY_SIZE)]
    panics if there are fewer bytes. *)
Definition handle_frame (frame_type : FrameType) (data : bytes) (s : Senders)
    : outcome (result Error Senders) :=
  match frame_type with
  | RecvPacket =>
      if decide (KEY_SIZE ≤ length data) then
        match key_try_from mkPublicKey (take KEY_SIZE data) with
        | Some public_key =>
            let '(sent, c) := chan_send (public_key, drop KEY_SIZE data) (sender_relayed s) in
            Returns (if sent then Ok (mkSenders c (sender_direct s)) else Err RelayedMsgSendError)
        | None => Returns (Err PublicKeyParseError)
        end
      else Panics
  | ControlMessage =>
      let '(sent, c) := chan_send data (sender_direct s) in
      Returns (if sent then Ok (mkSenders (sender_relayed s) c) else Err ControlMsgSendError)
  | _ => Returns (Ok s)
  end.

(** A value together with the equation that a recursive call needs of it *)
Definition inspect {A} (a : A) : {b | a = b} := exist _ a eq_refl.

(** [start_read]: how the loop ends, and the channels then.  A frame takes
    bytes off the reader, so the loop ends when the connection does. *)
Equations start_read (r : Reader) (s : Senders) : outcome Error * Senders
  by wf (length (rd_bytes r)) lt :=
start_read r s with inspect (read_frame r) := {
  | exist _ (Err e) _ => (Returns e, s)
  | exist _ (Ok (t, data, r')) Hr with handle_frame t data s := {
      | Returns (Ok s') => start_read r' s'
      | Returns (Err e) => (Returns e, s)
      | Panics => (Panics, s) } }.
Next Obligation. intros r t data r' Hr _ _ _. exact (read_frame_shorter r t data r' Hr). Defined.

(** ** The writing loop *)

(** What [select!] picks: a message of one of the receivers, or that it is closed *)
Inductive WriteInput :=
| FromRelayed (received : option (PublicKey * bytes))
| FromDirect (received : option bytes).

(** Where the loop is after the inputs so far *)
Inductive WriteStatus :=
| Waiting
| Finished (r : result Error unit).

(** [start_write] *)
Fixpoint start_write (inputs : list WriteInput) (w : Writer) : WriteStatus * Writer :=
  match inputs with
  | [] => (Waiting, w)
  | FromRelayed (Some (public_key, data)) :: inputs =>
      match write_frame SendPacket (key_bytes public_key ++ data) w with
      | Ok w => start_write inputs w
      | Err e => (Finished (Err e), w)
      end
  | FromDirect (Some data) :: inputs =>
      match write_frame ControlMessage data w with
      | Ok w => start_write inputs w
      | Err e => (Finished (Err e), w)
      end
  | (FromRelayed None | FromDirect None) :: _ => (Finished (Ok tt), w)
  end.

(** ** The key exchange *)

(** [read_server_key] *)
Definition read_server_key (r : Reader) : result Error (PublicKey * Reader) :=
  let? '(frame_type, buf, r) := read_frame r in
  if decide (frame_type ≠ ServerKey) then Err (IoError InvalidData)
  else if decide (length buf < 40) then Err (IoError InvalidData)
  else if decide (take (length MAGIC) buf ≠ MAGIC) then Err (IoError InvalidData)
  else
    match key_try_from mkPublicKey (drop (length MAGIC) buf) with
    | Some key => Ok (key, r)
    | None => Err (IoError InvalidData)
    end.

(** The bytes of the JSON object with version 2 and an empty mesh key *)
Definition client_info : bytes :=
  [123; 34; 118; 101; 114; 115; 105; 111; 110; 34; 58; 32; 50; 44; 32; 34; 109; 101; 115;
   104; 75; 101; 121; 34; 58; 32; 34; 34; 125]%Z.

Section exchange.
Context `{Ciphers}.

(** [write_client_key]; [nonce] is the draw of [SalsaBox::generate_nonce] *)
Definition write_client_key (nonce : bytes) (secret_key : SecretKey) (server_key : PublicKey)
    (w : Writer) : result Error Writer :=
  let public_key := secret_key_public secret_key in
  match salsa_box_encrypt server_key secret_key nonce client_info with
  | Some ciphertext =>
      write_frame ClientInfo (key_bytes public_key ++ nonce ++ ciphertext) w
  | None => Err (IoError Other)
  end.

(** [exchange_keys] *)
Definition exchange_keys (nonce : bytes) (secret_key : SecretKey) (r : Reader) (w : Writer)
    : result Error (Reader * Writer) :=
  let? '(server_key, r) := read_server_key r in
  let? w := write_client_key nonce secret_key server_key w in
  Ok (r, w).
End exchange.

(** [read_server_info] *)
Definition read_server_info (r : Reader) : result Error Reader :=
  let? '(frame_type, _, r) := read_frame r in
  if decide (frame_type ≠ ServerInfo) then Err (IoError InvalidData) else Ok r.

(** ** Frames are read back *)

Lemma frame_type_try_from_code t : frame_type_try_from (frame_type_code t) = Some t.
Proof. by destruct t. Qed.

Definition small (data : bytes) : Prop := (Z.of_nat (length data) < 2 ^ 32)%Z.

(** The bytes of a frame whose payload is not too large *)
Definition frame (t : FrameType) (data : bytes) : bytes :=
  [frame_type_code t] ++ to_be_bytes 4 (Z.of_nat (length data)) ++ data.

Lemma frame_bytes_small t data : small data → frame_bytes t data = Ok (frame t data).
Proof. intros Hs. unfold frame_bytes. by rewrite decide_True. Qed.

Lemma write_frame_small t data w :
  small data → wr_broken w = None →
  write_frame t data w = Ok (mkWriter (wr_bytes w ++ frame t data) None).
Proof. intros Hs Hw. unfold write_frame, write_all. by rewrite frame_bytes_small, Hw. Qed.

Lemma read_exact_app b rest k n :
  n = length b → read_exact n (mkReader (b ++ rest) k) = Ok (b, mkReader rest k).
Proof.
  intros ->. unfold read_exact. simpl. rewrite length_app, decide_True by lia.
  by rewrite take_app_length, drop_app_length.
Qed.

Lemma read_frame_frame t data rest k :
  small data → read_frame (mkReader (frame t data ++ rest) k) = Ok (t, data, mkReader rest k).
Proof.
  intros Hs. unfold read_frame, frame. rewrite <-!(assoc_L (++)), read_exact_app by done.
  replace (be_bytes [frame_type_code t]) with (frame_type_code t) by by destruct t.
  rewrite frame_type_try_from_code, read_exact_app by by rewrite length_to_be_bytes.
  rewrite be_bytes_to_be_bytes by (unfold small, is_uint in *; simpl; lia).
  rewrite Nat2Z.id. by rewrite read_exact_app.
Qed.

Lemma start_read_eq r s :
  start_read r s =
    match read_frame r with
    | Err e => (Returns e, s)
    | Ok (t, data, r') =>
        match handle_frame t data s with
        | Returns (Ok s') => start_read r' s'
        | Returns (Err e) => (Returns e, s)
        | Panics => (Panics, s)
        end
    end.
Proof.
  simp start_read. destruct (inspect (read_frame r)) as [[[[t data] r']|e] Hr]; simp start_read.
  - destruct (handle_frame t data s) as [[s'|e]|] eqn:Hh; simpl; rewrite Hr, Hh; done.
  - simpl. by rewrite Hr.
Qed.

Abbreviation Frame := (FrameType * bytes)%type.

(** A sequence of frames on the wire *)
Definition stream (frames : list Frame) : bytes := concat ((λ f, frame f.1 f.2) <$> frames).

Lemma stream_cons t data frames : stream ((t, data) :: frames) = frame t data ++ stream frames.
Proof. done. Qed.

(** What a frame has to meet: the payload fits the length field, and a relayed
    packet has a key. *)
Definition frame_ok (f : Frame) : Prop :=
  small f.2 ∧ (f.1 = RecvPacket → KEY_SIZE ≤ length f.2).

(** The packets and the control messages of a sequence of frames *)
Definition packets (frames : list Frame) : list (PublicKey * bytes) :=
  omap (λ f, match f.1 with
             | RecvPacket => Some (mkPublicKey (take KEY_SIZE f.2), drop KEY_SIZE f.2)
             | _ => None
             end) frames.

Definition controls (frames : list Frame) : list bytes :=
  omap (λ f, match f.1 with ControlMessage => Some f.2 | _ => None end) frames.

Definition delivered (frames : list Frame) (s : Senders) : Senders :=
  mkSenders (mkChan true (chan_sent (sender_relayed s) ++ packets frames))
            (mkChan true (chan_sent (sender_direct s) ++ controls frames)).

Definition senders_open (s : Senders) : Prop :=
  chan_open (sender_relayed s) = true ∧ chan_open (sender_direct s) = true.

Lemma delivered_nil s : senders_open s → delivered [] s = s.
Proof.
  destruct s as [[o1 l1] [o2 l2]]. intros [H1 H2]. simpl in *. subst. unfold delivered. simpl.
  by rewrite !app_nil_r.
Qed.

Lemma handle_frame_ok f s :
  frame_ok f → senders_open s → handle_frame f.1 f.2 s = Returns (Ok (delivered [f] s)).
Proof.
  destruct f as [t data], s as [[o1 l1] [o2 l2]]. intros [_ Hk] [H1 H2]. simpl in *. subst.
  unfold handle_frame, delivered, key_try_from, chan_send. destruct t; simpl; rewrite ?app_nil_r; try done.
  rewrite decide_True by auto. by rewrite decide_True by (rewrite length_take; specialize (Hk eq_refl); lia).
Qed.

Lemma delivered_cons f frames s :
  delivered frames (delivered [f] s) = delivered (f :: frames) s.
Proof.
  unfold delivered. destruct f as [t data]. simpl. rewrite <-!(assoc_L (++)).
  by destruct t.
Qed.

(** The frames at the front of the stream are handled one after the other. *)
Lemma start_read_stream frames rest k s :
  Forall frame_ok frames → senders_open s →
  start_read (mkReader (stream frames ++ rest) k) s =
    start_read (mkReader rest k) (delivered frames s).
Proof.
  intros Hf. revert s. induction Hf as [|[t data] frames Hok Hf IH]; intros s Hs.
  { by rewrite delivered_nil. }
  rewrite stream_cons, <-(assoc_L (++)), start_read_eq, read_frame_frame by apply Hok.
  pose proof (handle_frame_ok _ s Hok Hs) as Hh. simpl in Hh. rewrite Hh. by rewrite IH, delivered_cons.
Qed.

(** The frames that [start_write] makes of its inputs *)
Definition written (inputs : list WriteInput) : list Frame :=
  omap (λ i, match i with
             | FromRelayed (Some (k, data)) => Some (SendPacket, key_bytes k ++ data)
             | FromDirect (Some data) => Some (ControlMessage, data)
             | _ => None
             end) inputs.

Definition still_open (i : WriteInput) : Prop := i ≠ FromRelayed None ∧ i ≠ FromDirect None.

Lemma start_write_stream inputs w :
  Forall still_open inputs → Forall (λ f, small f.2) (written inputs) → wr_broken w = None →
  start_write inputs w = (Waiting, mkWriter (wr_bytes w ++ stream (written inputs)) None).
Proof.
  intros Ho. revert w. induction Ho as [|i inputs Hi Ho IH]; intros w Hs Hw.
  { destruct w. simpl in *. subst. unfold stream. simpl. by rewrite app_nil_r. }
  destruct Hi as [Hr Hd]. destruct i as [[[key data]|]|[data|]]; try done; simpl in *;
    apply Forall_cons in Hs as [Hs1 Hs]; rewrite write_frame_small by done; rewrite IH by done;
    by rewrite stream_cons, (assoc_L (++)).
Qed.

Lemma read_exact_short n b k :
  length b < n → read_exact n (mkReader b k) = Err (IoError k).
Proof. intros Hn. unfold read_exact. simpl. by rewrite decide_False by lia. Qed.

(** A frame that is cut short is an error of the connection. *)
Lemma read_frame_truncated t data n k :
  small data → n < length (frame t data) →
  read_frame (mkReader (take n (frame t data)) k) = Err (IoError k).
Proof.
  unfold frame. rewrite !length_app, length_to_be_bytes. cbn [length]. intros Hs Hn. unfold read_frame.
  destruct n as [|n]; [done|]. cbn [app take].
  pose proof (λ l, read_exact_app [frame_type_code t] l k 1 eq_refl) as Hr. cbn [app] in Hr. rewrite Hr.
  replace (be_bytes [frame_type_code t]) with (frame_type_code t) by by destruct t.
  rewrite frame_type_try_from_code.
  pose proof (length_to_be_bytes 4 (Z.of_nat (length data))) as Hl.
  rewrite take_app, Hl. destruct (decide (n < 4)) as [Hlt|Hge].
  { rewrite read_exact_short; [done|]. rewrite length_app, !length_take, Hl. lia. }
  rewrite take_ge by lia. rewrite read_exact_app by done.
  rewrite be_bytes_to_be_bytes by (unfold small, is_uint in *; simpl; lia).
  rewrite Nat2Z.id, read_exact_short; [done|]. rewrite length_take. lia.
Qed.

(** So many calls of [read_frame], one after the other *)
Fixpoint read_frames (n : nat) (r : Reader) : result Error (list Frame * Reader) :=
  match n with
  | 0 => Ok ([], r)
  | S n =>
      let? '(frame_type, data, r) := read_frame r in
      let? '(frames, r) := read_frames n r in
      Ok ((frame_type, data) :: frames, r)
  end.

Lemma read_frames_stream frames more k : Forall (λ f, small f.2) frames →
  read_frames (length frames) (mkReader (stream frames ++ more) k) = Ok (frames, mkReader more k).
Proof.
  intros Hf. induction Hf as [|[t data] frames Hd Hf IH]; [done|]. cbn [length read_frames].
  rewrite stream_cons, <-app_assoc, read_frame_frame by done. cbv beta iota. by rewrite IH.
Qed.

(** C37: What is written to a connection is what is read at its other end.  While the
    channels it takes its messages from are open, the connection takes what is written
    and no payload has 2^32 bytes, [start_write] writes one frame for each message, in
    order, and as many calls of [read_frame], whatever comes after, give back these
    frames.  While the channels it sends to are open, [start_read] hands out the packets
    and the control messages of the frames that arrive, each below 2^32 bytes and a
    relayed one not shorter than a key, in order and once each, until the connection
    ends, be it in the middle of a frame, and then returns the error of the connection.
    A relayed frame with less than a key as payload makes it panic instead, after the
    frames before it were delivered. *)
Theorem derp_stream_roundtrip (frames : list Frame) (inputs : list WriteInput)
    (k : ErrorKind) (s : Senders) (w : Writer)
    (Hf : Forall frame_ok frames) (Hs : senders_open s)
    (Hi : Forall still_open inputs) (Hi' : Forall (λ f, small f.2) (written inputs))
    (Hw : wr_broken w = None) :
  start_write inputs w = (Waiting, mkWriter (wr_bytes w ++ stream (written inputs)) None) ∧
  (∀ more k', read_frames (length (written inputs)) (mkReader (stream (written inputs) ++ more) k') =
    Ok (written inputs, mkReader more k')) ∧
  (∀ t data n, small data → n < length (frame t data) →
    start_read (mkReader (stream frames ++ take n (frame t data)) k) s =
      (Returns (IoError k), delivered frames s)) ∧
  (∀ data more, length data < KEY_SIZE →
    start_read (mkReader (stream frames ++ frame RecvPacket data ++ more) k) s =
      (Panics, delivered frames s)).
Proof.
  split_and!; [by apply start_write_stream|by intros; apply read_frames_stream|..].
  - intros t data n Hd Hn. rewrite start_read_stream by done.
    by rewrite start_read_eq, read_frame_truncated.
  - intros data more Hd. rewrite start_read_stream by done.
    rewrite start_read_eq, read_frame_frame by (unfold small, KEY_SIZE in *; lia).
    simpl. by rewrite decide_False by lia.
Qed.

(** The key in the payload of a server key frame *)
Definition server_key (t : FrameType) (data : bytes) : option PublicKey :=
  match t with
  | ServerKey =>
      if decide (length data = length MAGIC + KEY_SIZE ∧ take (length MAGIC) data = MAGIC)
      then Some (mkPublicKey (drop (length MAGIC) data)) else None
  | _ => None
  end.

Lemma read_server_key_frame t data rest k :
  small data →
  read_server_key (mkReader (frame t data ++ rest) k) =
    match server_key t data with
    | Some key => Ok (key, mkReader rest k)
    | None => Err (IoError InvalidData)
    end.
Proof.
  intros Hs. unfold read_server_key. rewrite read_frame_frame by done. unfold server_key, key_try_from.
  rewrite length_drop. destruct t; try done. rewrite decide_False by tauto. change (length MAGIC) with 8.
  unfold KEY_SIZE. destruct (decide (take 8 data = MAGIC)) as [->|]; repeat case_decide; destruct_and?;
    done || lia || naive_solver lia.
Qed.

(** The key exchange succeeds exactly for a server key frame that is the
    magic number followed by a key and by nothing else, and then writes one
    client info frame, with the client's key, the nonce and the box; every
    other frame is refused as invalid data before anything is written.  In
    particular bytes after the key are refused. *)
Theorem key_exchange `{Ciphers} (nonce : bytes) (sk : SecretKey) (t : FrameType) (data rest : bytes)
    (k : ErrorKind) (w : Writer)
    (Hdata : small data) (Hw : wr_broken w = None)
    (Hbox : ∀ key, ∃ c, salsa_box_encrypt key sk nonce client_info = Some c ∧
      small (key_bytes (secret_key_public sk) ++ nonce ++ c)) :
  (∀ key, server_key t data = Some key →
    ∃ c, salsa_box_encrypt key sk nonce client_info = Some c ∧
      exchange_keys nonce sk (mkReader (frame t data ++ rest) k) w =
        Ok (mkReader rest k,
            mkWriter (wr_bytes w ++ frame ClientInfo (key_bytes (secret_key_public sk) ++ nonce ++ c)) None)) ∧
  (server_key t data = None →
    exchange_keys nonce sk (mkReader (frame t data ++ rest) k) w = Err (IoError InvalidData)) ∧
  (∀ key extra, length key = KEY_SIZE → extra ≠ [] → server_key ServerKey (MAGIC ++ key ++ extra) = None).
Proof.
  unfold exchange_keys. rewrite read_server_key_frame by done. split_and!.
  - intros key ->. destruct (Hbox key) as (c & Hc & Hsm). exists c. split; [done|].
    unfold write_client_key. rewrite Hc. by rewrite write_frame_small.
  - by intros ->.
  - intros key extra Hk He. unfold server_key. rewrite decide_False; [done|].
    rewrite !length_app, Hk. intros [Hl _]. destruct extra; [done|]. unfold KEY_SIZE in *. simpl in Hl. lia.
Qed.

Module DerpSamples.

Definition key (b : Z) : bytes := replicate 32 b.
Definition senders : Senders := mkSenders (mkChan true []) (mkChan true []).
Definition frames : list Frame :=
  [(RecvPacket, key 7 ++ [1; 2]%Z); (KeepAlive, []); (ControlMessage, [3]%Z); (RecvPacket, key 8)].
Definition inputs : list WriteInput :=
  [FromRelayed (Some (mkPublicKey (key 9), [5]%Z)); FromDirect (Some [6]%Z)].

Lemma derp_stream_roundtrip_witness :
  start_write inputs (mkWriter [] None) =
    (Waiting, mkWriter ([4; 0; 0; 0; 33]%Z ++ key 9 ++ [5; 0x14; 0; 0; 0; 1; 6]%Z) None) ∧
  read_frames 2 (mkReader ([4; 0; 0; 0; 33]%Z ++ key 9 ++ [5; 0x14; 0; 0; 0; 1; 6]%Z) UnexpectedEof) =
    Ok ([(SendPacket, key 9 ++ [5]%Z); (ControlMessage, [6]%Z)], mkReader [] UnexpectedEof) ∧
  start_read (mkReader (stream frames ++ take 3 (frame Ping [1; 2]%Z)) ConnectionReset) senders =
    (Returns (IoError ConnectionReset),
     mkSenders (mkChan true [(mkPublicKey (key 7), [1; 2]%Z); (mkPublicKey (key 8), [])])
               (mkChan true [[3]%Z])) ∧
  (start_read (mkReader (frame RecvPacket [1; 2]%Z) UnexpectedEof) senders).1 = Panics.
Proof.
  destruct (derp_stream_roundtrip frames inputs ConnectionReset senders (mkWriter [] None))
    as (Hwr & Hfr & Hrd & _).
  1: by repeat constructor. 1: done. 1, 2: by repeat constructor. 1: done.
  split_and!.
  - rewrite Hwr. vm_compute. reflexivity.
  - exact (Hfr [] UnexpectedEof).
  - rewrite Hrd; [vm_compute; reflexivity|..]; apply (bool_decide_unpack _); vm_compute; reflexivity.
  - vm_compute. reflexivity.
Defined.

Lemma key_exchange_witness :
  ∃ c, @exchange_keys ToyCrypto.ToyCiphers (replicate 24 1%Z) CryptoSamples.alice
    (mkReader (frame ServerKey (MAGIC ++ key 5)) UnexpectedEof) (mkWriter [] None) =
  Ok (mkReader [] UnexpectedEof,
      mkWriter (frame ClientInfo
        (key_bytes (@secret_key_public ToyCrypto.ToyCiphers CryptoSamples.alice) ++ replicate 24 1%Z ++ c)) None).
Proof.
  destruct (@key_exchange ToyCrypto.ToyCiphers (replicate 24 1%Z) CryptoSamples.alice ServerKey
    (MAGIC ++ key 5) [] UnexpectedEof (mkWriter [] None)) as [Hx _].
  - done.
  - done.
  - intros k'. eexists. split; [done|]. unfold small. rewrite !length_app. simpl length.
    rewrite ToyCrypto.length_tag. unfold TAG_SIZE. lia.
  - destruct (Hx (mkPublicKey (key 5)) eq_refl) as (c & _ & He). exists c.
    rewrite app_nil_r in He. exact He.
Defined.
End DerpSamples.
