(* ===== verification/PingPong.v ===== *)
(** * [telio-traversal]: pings and pongs ([ping_pong_handler.rs])

    The handler that encrypts pings, answers the pings of known keys and reports
    the pongs of known sessions.  The endpoint providers call it with the
    socket they own; a socket is the channel of the datagrams sent to it, whose
    [send_to] fails when it is closed.  The time is in microseconds since the
    epoch, as the source reads it. *)

From S2P Require Import Prelude NetTypes WgTypes Crypto NetText Proto ProtoProps.

Open Scope act_scope.

(** What occurs of [endpoint_providers::Error] *)
Inductive ProviderError :=
| IOError
| PongRxedPublishError
| PacketParserError (e : CodecError)
| FailedToBuildPongPacket.

(** [PongEvent] *)
Record PongEvent := mkPongEvent {
  pong_addr : SocketAddr;
  pong_rtt : Duration;
  pong_msg : PlaintextPongerMsg
}.

(** [PingPongHandler], without its random number generator *)
Record PingPongHandler := mkPingPongHandler {
  handler_secret_key : SecretKey;
  known_keys : gset PublicKey;
  known_sessions : gmap Session PublicKey
}.

(** What a call has access to: the socket and the subscriber to pongs *)
Record PingIo := mkPingIo {
  udp_socket : Chan (bytes * SocketAddr);
  pong_publisher : option (Chan PongEvent)
}.

Abbreviation io A := (act PingIo ProviderError A).

(** [?] on the result of a codec *)
Definition codec {A} (r : CodecResult A) : io A :=
  match r with Ok a => act_ret a | Err e => act_fail (PacketParserError e) end.

(** [send_to] *)
Definition send_to (buf : bytes) (addr : SocketAddr) : io unit := λ s,
  let '(sent, c) := chan_send (buf, addr) (udp_socket s) in
  if sent then (Ok tt, mkPingIo c (pong_publisher s)) else (Err IOError, s).

(** [pong_publisher.send(event).await?] *)
Definition publish_pong (e : PongEvent) : io unit := λ s,
  match pong_publisher s with
  | Some p =>
      let '(sent, c) := chan_send e p in
      if sent then (Ok tt, mkPingIo (udp_socket s) (Some c)) else (Err PongRxedPublishError, s)
  | None => (Ok tt, s)
  end.

(** [PingPongHandler::new] *)
Definition ping_pong_new (sk : SecretKey) : PingPongHandler := mkPingPongHandler sk ∅ ∅.

(** [PingPongHandler::configure] *)
Definition ping_pong_configure (sessions : gmap Session PublicKey) (h : PingPongHandler)
    : PingPongHandler :=
  mkPingPongHandler (handler_secret_key h)
    (list_to_set (snd <$> map_to_list sessions)) sessions.

(** [.map_err(|e| CodecError::EncryptionFailed(..))] and the like *)
Definition map_err {A} (e : CodecError) (r : result Encryption.Error A) : CodecResult A :=
  match r with Ok a => Ok a | Err _ => Err e end.

Section handler.
Context `{Messages} `{Ciphers}.

(** [PingPongHandler::send_ping]; [ts] is the current time, [rng] the draws *)
Definition send_ping (ts : Z) (rng : Encryption.Draws) (h : PingPongHandler) (addr : SocketAddr)
    (p : WGPort) (session_id : Session) (public_key : PublicKey) : io unit :=
  let msg := ping p session_id (wrap 64 ts) in
  let encrypt_transform b :=
    map_err EncryptionFailed (Encryption.encrypt_request b rng (handler_secret_key h) public_key) in
  buf <-- codec (pinger_encode_and_encrypt msg encrypt_transform) ;;
  send_to buf addr.

(** The closure [decrypt_transform] of [handle_rx_packet] *)
Definition decrypt_transform (h : PingPongHandler) (packet_type : PacketTypeRelayed) (buf : bytes)
    : CodecResult (bytes * option PublicKey) :=
  match packet_type with
  | TPinger =>
      let? '(buf, pk) :=
        map_err DecryptionFailed (Encryption.decrypt_request buf (handler_secret_key h)
          (λ k, bool_decide (k ∈ known_keys h))) in
      Ok (buf, Some pk)
  | TPonger => Ok (buf, None)
  | _ => Err InvalidType
  end.

(** The answer to a ping *)
Definition answer_ping (nonce : bytes) (h : PingPongHandler) (packet : PingerMsg) (remote_pk : PublicKey)
    (addr : SocketAddr) (p : WGPort) (endpoint_provider : EndpointType) : io unit :=
  pong <-- act_ok_or (pong packet p (socket_ip addr) endpoint_provider) FailedToBuildPongPacket ;;
  let encrypt_transform b :=
    map_err EncryptionFailed (Encryption.encrypt_response b nonce (handler_secret_key h) remote_pk) in
  buf <-- codec (ponger_encode_and_encrypt pong encrypt_transform) ;;
  send_to buf addr.

(** The report of a pong.  [rtt] takes the difference of two times in
    microseconds for milliseconds; the subtraction is unsigned. *)
Definition report_pong (ts : Z) (h : PingPongHandler) (packet : PartialPongerMsg) (addr : SocketAddr)
    : io unit :=
  s <-- act_get ;;
  match pong_publisher s with
  | Some _ =>
      match known_sessions h !! partial_session packet with
      | Some remote_pk =>
          let decrypt_transform b :=
            map_err DecryptionFailed (Encryption.decrypt_response b (handler_secret_key h) remote_pk) in
          msg <-- codec (partial_ponger_decrypt packet decrypt_transform) ;;
          publish_pong (mkPongEvent addr
            (from_millis (wrap 64 (wrap 64 ts - ponger_start_timestamp (ponger_msg msg)))) msg)
      | None => act_ret tt
      end
  | None => act_ret tt
  end.

(** [PingPongHandler::handle_rx_packet] *)
Definition handle_rx_packet (ts : Z) (nonce : bytes) (h : PingPongHandler) (encrypted_buf : bytes)
    (addr : SocketAddr) (p : WGPort) (endpoint_provider : EndpointType) : io unit :=
  r <-- codec (relayed_decode_and_decrypt encrypted_buf (decrypt_transform h)) ;;
  match r with
  | (PPinger packet, Some remote_pk) => answer_ping nonce h packet remote_pk addr p endpoint_provider
  | (PPonger packet, _) => report_pong ts h packet addr
  | _ => act_ret tt
  end.
End handler.

(** ** A ping and its pong across two nodes *)

Section exchange.
Context `{MessagesLaws, CiphersLaws}.

(** The encoded message is far from the limits of the cipher. *)
Definition fits {M} `{!Protobuf M} (m : M) : Prop :=
  ∀ b, write_to_bytes m = Some b → (Z.of_nat (length b) < 2 ^ 30)%Z.

Lemma send_to_open buf addr s :
  chan_open (udp_socket s) = true →
  send_to buf addr s =
    (Ok tt, mkPingIo (mkChan true (chan_sent (udp_socket s) ++ [(buf, addr)])) (pong_publisher s)).
Proof. intros Ho. unfold send_to, chan_send. by rewrite Ho. Qed.

(** What [send_ping] puts on the wire, and what the handler at the other end
    makes of it *)
Lemma send_ping_decodes ts rng (a b : PingPongHandler) addr p session s :
  draws_ok rng → length (secret_bytes (handler_secret_key a)) = KEY_SIZE →
  is_uint 64 session → fits (pinger_msg (ping p session (wrap 64 ts))) →
  chan_open (udp_socket s) = true →
  let key_a := secret_key_public (handler_secret_key a) in
  let key_b := secret_key_public (handler_secret_key b) in
  ∃ c, send_ping ts rng a addr p session key_b s =
      (Ok tt, mkPingIo (mkChan true (chan_sent (udp_socket s) ++ [(relayed_code TPinger :: c, addr)]))
        (pong_publisher s)) ∧
    relayed_decode_and_decrypt (relayed_code TPinger :: c) (decrypt_transform b) =
      if bool_decide (key_a ∈ known_keys b)
      then Ok (PPinger (ping p session (wrap 64 ts)), Some key_a) else Err DecryptionFailed.
Proof.
  intros Hrng Hsk Hs Hfits Ho key_a key_b.
  destruct (pinger_roundtrip (ping p session (wrap 64 ts)) Hs) as (body & Hw & Hr). cbn [pinger_session pinger_msg ping] in Hr.
  set (plain := to_be_bytes 8 session ++ body) in *.
  destruct (decrypt_encrypt_request plain rng (handler_secret_key a) (handler_secret_key b)
    (λ k, bool_decide (k ∈ known_keys b))) as (c & He & Hd); [|done|done|].
  { specialize (Hfits _ Hw). unfold plain. rewrite length_app, length_to_be_bytes. lia. }
  fold key_a in Hd. fold key_b in He. exists c. unfold send_ping. split.
  - destruct (Hr (λ b0, map_err EncryptionFailed (Encryption.encrypt_request b0 rng (handler_secret_key a) key_b))
      (λ _ _, Ok (plain, None)) c None) as [Henc _]; [cbn beta; by rewrite He|done|].
    rewrite Henc. cbn [codec]. unfold act_bind, act_ret. by rewrite send_to_open.
  - unfold relayed_decode_and_decrypt. rewrite first_type_code. case_bool_decide as Hk.
    + destruct (Hr (λ _, Ok c) (decrypt_transform b) c (Some key_a)) as [_ Hdec]; [done| |by rewrite Hdec].
      cbn [decrypt_transform]. by rewrite Hd.
    + unfold pinger_decode_and_decrypt. rewrite first_type_code, slice_from_1. cbn [ok_or decrypt_transform].
      by rewrite Hd.
Qed.

(** What [answer_ping] puts on the wire, and what the handler that sent the ping
    makes of it *)
Lemma answer_ping_reported ts nonce (a b : PingPongHandler) (m : PingerMsg) ip port addr_b p ep sa sb pub :
  length nonce = NONCE_SIZE → is_uint 64 (pinger_session m) →
  let key_a := secret_key_public (handler_secret_key a) in
  let key_b := secret_key_public (handler_secret_key b) in
  let addr_a := SocketAddrV4 ip port in
  let reply := mkPonger (pinger_start_timestamp (pinger_msg m)) (wg_port p) (Some (source_v4 ip))
    (endpoint_provider_code ep) in
  fits reply →
  chan_open (udp_socket sb) = true →
  known_sessions a !! pinger_session m = Some key_b →
  pong_publisher sa = Some pub → chan_open pub = true →
  ∃ c, answer_ping nonce b m key_a addr_a p ep sb =
      (Ok tt, mkPingIo (mkChan true (chan_sent (udp_socket sb) ++ [(relayed_code TPonger :: c, addr_a)]))
        (pong_publisher sb)) ∧
    ∀ nonce' p' ep',
      handle_rx_packet ts nonce' a (relayed_code TPonger :: c) addr_b p' ep' sa =
        (Ok tt, mkPingIo (udp_socket sa) (Some (mkChan true (chan_sent pub ++
          [mkPongEvent addr_b
             (from_millis (wrap 64 (wrap 64 ts - pinger_start_timestamp (pinger_msg m))))
             (mkPlaintextPongerMsg (pinger_session m) reply)])))).
Proof.
  intros Hn Hs key_a key_b addr_a reply Hfits Ho Hk Hpub Hpo.
  destruct (ponger_roundtrip (mkPlaintextPongerMsg (pinger_session m) reply) Hs) as (body & Hw & Hr).
  destruct (decrypt_encrypt_response body nonce (handler_secret_key b) (handler_secret_key a))
    as (c & He & Hd); [specialize (Hfits _ Hw); lia|done|].
  fold key_a in He. fold key_b in Hd.
  destruct (Hr (λ b0, map_err EncryptionFailed (Encryption.encrypt_response b0 nonce (handler_secret_key b) key_a))
    (λ b0, map_err DecryptionFailed (Encryption.decrypt_response b0 (handler_secret_key a) key_b)) c)
    as (w & Henc & _ & Hdec & Hplain); [cbn beta; by rewrite He|cbn beta; by rewrite Hd|].
  cbn [ponger_session] in Hplain. exists w. split.
  - unfold answer_ping. unfold act_bind, act_ok_or. simpl. fold reply. rewrite Henc. cbn [codec].
    unfold act_ret. by rewrite send_to_open.
  - intros nonce' p' ep'. unfold handle_rx_packet, relayed_decode_and_decrypt. rewrite first_type_code.
    assert (partial_ponger_decode_and_decrypt (relayed_code TPonger :: w) (decrypt_transform a) =
      Ok (mkPartialPongerMsg (pinger_session m) c)) as -> by exact Hdec.
    cbn [result_map codec]. unfold act_bind, act_ret, report_pong, act_get, act_bind. rewrite Hpub.
    cbn [partial_session]. rewrite Hk. fold key_b. rewrite Hplain. cbn [codec]. unfold act_ret.
    unfold publish_pong, chan_send. by rewrite Hpub, Hpo.
Qed.
End exchange.

(** A ping, its answer and the report of it, from one node to another and
    back.  The ping reaches the node that its key is for.  If that node knows
    the sender's key, it answers, and the sender reports one pong: for the
    session of the ping, with the other node's WireGuard port and kind of
    endpoint, and with the address from which the ping came.  If it does not
    know the key, it fails to decrypt the ping and sends nothing.  The round
    trip time in the report is a thousand times the time that passed. *)
Theorem ping_pong_exchange `{MessagesLaws, CiphersLaws} (a b : PingPongHandler) (rng : Encryption.Draws)
    (nonce : bytes) (ts ts' : Z) (session : Session) (pa pb : WGPort) (ep : EndpointType)
    (ip port : Z) (addr_b : SocketAddr) (sa sb : PingIo) (pub : Chan PongEvent)
    (Hrng : draws_ok rng) (Hnonce : length nonce = NONCE_SIZE)
    (Hska : length (secret_bytes (handler_secret_key a)) = KEY_SIZE)
    (Hts : (0 <= ts <= ts')%Z ∧ is_uint 64 ts') (Hs : is_uint 64 session) (Hpb : is_uint 16 (wg_port pb))
    (Hfits : fits (pinger_msg (ping pa session ts)) ∧
      fits (mkPonger ts (wg_port pb) (Some (source_v4 ip)) (endpoint_provider_code ep)))
    (Hopen : chan_open (udp_socket sa) = true ∧ chan_open (udp_socket sb) = true)
    (Hpub : pong_publisher sa = Some pub ∧ chan_open pub = true)
    (Hsession : known_sessions a !! session = Some (secret_key_public (handler_secret_key b))) :
  let addr_a := SocketAddrV4 ip port in
  ∃ ping_packet,
    send_ping ts rng a addr_b pa session (secret_key_public (handler_secret_key b)) sa =
      (Ok tt, mkPingIo (mkChan true (chan_sent (udp_socket sa) ++ [(ping_packet, addr_b)])) (Some pub)) ∧
    (secret_key_public (handler_secret_key a) ∈ known_keys b →
      ∃ pong_packet e,
        handle_rx_packet ts nonce b ping_packet addr_a pb ep sb =
          (Ok tt, mkPingIo (mkChan true (chan_sent (udp_socket sb) ++ [(pong_packet, addr_a)]))
            (pong_publisher sb)) ∧
        (∀ nonce' p' ep',
          handle_rx_packet ts' nonce' a pong_packet addr_b p' ep' sa =
            (Ok tt, mkPingIo (udp_socket sa) (Some (mkChan true (chan_sent pub ++ [e]))))) ∧
        pong_addr e = addr_b ∧ ponger_session (pong_msg e) = session ∧
        ponger_get_wg_port (pong_msg e) = pb ∧ get_ping_source_address (pong_msg e) = Ok ip ∧
        get_ponging_ep_provider (pong_msg e) = Ok (Some ep) ∧
        pong_rtt e = (1000 * ((ts' - ts) * 1000))%Z) ∧
    (secret_key_public (handler_secret_key a) ∉ known_keys b →
      handle_rx_packet ts nonce b ping_packet addr_a pb ep sb =
        (Err (PacketParserError DecryptionFailed), sb)).
Proof.
  intros addr_a. destruct Hopen as [Hoa Hob], Hpub as [Hpub Hpo], Hfits as [Hf1 Hf2], Hts as [Hts Hts'].
  assert (wrap 64 ts = ts) as Hwts by (apply wrap_small; unfold is_uint in *; lia).
  assert (wrap 64 ts' = ts') as Hwts' by by apply wrap_small.
  destruct (send_ping_decodes ts rng a b addr_b pa session sa) as (c & Hsend & Hdec);
    [done|done|done|by rewrite Hwts|done|].
  rewrite Hwts in Hdec. rewrite Hpub in Hsend. exists (relayed_code TPinger :: c). split; [done|]. split.
  - intros Hk. rewrite bool_decide_true in Hdec by done.
    destruct (answer_ping_reported ts' nonce a b (ping pa session ts) ip port addr_b pb ep sa sb pub)
      as (w & Hans & Hrep); try done.
    eexists (relayed_code TPonger :: w), _. split; [|split; [exact Hrep|]].
    { unfold handle_rx_packet. rewrite Hdec. exact Hans. }
    cbn [pong_addr pong_msg pong_rtt ponger_session pinger_session ping].
    split_and!; [done|done| |done| |].
    + unfold ponger_get_wg_port. simpl. rewrite wrap_small by done. by destruct pb.
    + unfold get_ponging_ep_provider. simpl. by destruct ep.
    + rewrite Hwts'. cbn [pinger_start_timestamp pinger_msg ping].
      rewrite wrap_small by (unfold is_uint in *; lia). unfold from_millis. lia.
  - intros Hk. rewrite bool_decide_false in Hdec by done. unfold handle_rx_packet. by rewrite Hdec.
Qed.

Module PingPongSamples.
Import ToyCrypto CryptoSamples.

#[local] Existing Instance CountablePb.messages.
#[local] Existing Instance CountablePb.messages_laws.
#[local] Existing Instance ToyCiphers.
#[local] Existing Instance ToyCiphers_laws.

Definition node (sk peer : SecretKey) (session : Session) : PingPongHandler :=
  ping_pong_configure {[session := secret_key_public peer]} (ping_pong_new sk).

Definition socket : Chan (bytes * SocketAddr) := mkChan true [].

Lemma fits_ping : fits (pinger_msg (ping (mkWGPort 5) 42 1000)).
Proof. intros b [= <-]. vm_compute. reflexivity. Qed.

Lemma fits_pong : fits (mkPonger 1000 51820 (Some (source_v4 (ipv4_addr 192 168 1 2))) (endpoint_provider_code Upnp)).
Proof. intros b [= <-]. vm_compute. reflexivity. Qed.

Lemma ping_pong_exchange_witness :
  ∃ pong_packet e,
    handle_rx_packet 4000 [] (node alice bob 42) pong_packet (SocketAddrV4 (ipv4_addr 10 0 0 1) 3) (mkWGPort 5) Local
      (mkPingIo socket (Some (mkChan true []))) =
      (Ok tt, mkPingIo socket (Some (mkChan true [e]))) ∧
    ponger_session (pong_msg e) = 42%Z ∧ pong_rtt e = 3000000000%Z.
Proof.
  destruct (ping_pong_exchange (node alice bob 42) (node bob alice 7) rng (replicate 24 4%Z) 1000 4000 42
    (mkWGPort 5) (mkWGPort 51820) Upnp (ipv4_addr 192 168 1 2) 6000 (SocketAddrV4 (ipv4_addr 10 0 0 1) 3)
    (mkPingIo socket (Some (mkChan true []))) (mkPingIo socket None) (mkChan true []))
    as (packet & _ & Hk & _).
  1, 2, 3: done. 1: split; [lia|done]. 1, 2: done. 1: split; [exact fits_ping|exact fits_pong]. 1, 2, 3: done.
  destruct Hk as (pong_packet & e & _ & Hr & _ & Hs & _ & _ & _ & Ht).
  { apply (bool_decide_unpack _). vm_compute. reflexivity. }
  exists pong_packet, e. split; [exact (Hr [] (mkWGPort 5) Local)|]. split; [exact Hs|]. rewrite Ht. reflexivity.
Defined.
End PingPongSamples.
