(* ===== verification/Backoff.v ===== *)
(** * [telio-utils]: exponential backoff ([exponential_backoff.rs])

    The trait [Backoff] is a class, [ExponentialBackoff] its instance.  A
    duration is a number of nanoseconds, of which [std] can hold those below
    [DURATION_LIMIT]; a multiplication beyond it panics. *)

From S2P Require Import Prelude WgTypes.

(** [Duration::MAX] has 2^64 - 1 seconds and 999999999 nanoseconds. *)
Definition DURATION_LIMIT : Z := (2 ^ 64 * 1000000000)%Z.

Definition EXPONENTIAL_BACKOFF_MULTIPLIER : Z := 2.

Inductive BackoffError := InvalidExponentialBackoffBounds.

Record ExponentialBackoffBounds := mkExponentialBackoffBounds {
  initial : Duration;
  maximal : option Duration
}.

(** [ExponentialBackoffBounds::default()] *)
Definition backoff_bounds_default : ExponentialBackoffBounds :=
  mkExponentialBackoffBounds (from_secs 2) (Some (from_secs 120)).

(** [trait Backoff]; moving on may panic *)
Class Backoff (E : Type) := {
  get_backoff : E → Duration;
  next_backoff : E → outcome E;
  reset_backoff : E → E
}.

Record ExponentialBackoff := mkExponentialBackoff {
  bounds : ExponentialBackoffBounds;
  current_backoff : Duration
}.

(** [ExponentialBackoff::new] *)
Definition exponential_backoff_new (b : ExponentialBackoffBounds)
    : result BackoffError ExponentialBackoff :=
  if bool_decide (initial b = 0%Z) ||
     match maximal b with Some t => bool_decide (t < initial b)%Z | None => false end
  then Err InvalidExponentialBackoffBounds
  else Ok (mkExponentialBackoff b (initial b)).

(** [Backoff for ExponentialBackoff] *)
Definition exponential_next_backoff (e : ExponentialBackoff) : outcome ExponentialBackoff :=
  let current := (current_backoff e * EXPONENTIAL_BACKOFF_MULTIPLIER)%Z in
  if bool_decide (current < DURATION_LIMIT)%Z then
    Returns (mkExponentialBackoff (bounds e)
      match maximal (bounds e) with
      | Some maximal => if bool_decide (maximal < current)%Z then maximal else current
      | None => current
      end)
  else Panics.

#[export] Instance ExponentialBackoff_backoff : Backoff ExponentialBackoff := {
  get_backoff := current_backoff;
  next_backoff := exponential_next_backoff;
  reset_backoff e := mkExponentialBackoff (bounds e) (initial (bounds e))
}.

(** [n] moves in a row *)
Fixpoint next_backoffs (n : nat) (e : ExponentialBackoff) : outcome ExponentialBackoff :=
  match n with
  | O => Returns e
  | S n => match next_backoff e with Returns e => next_backoffs n e | Panics => Panics end
  end.

(** Bounds that [new] accepts, and that leave room for one doubling *)
Definition bounds_ok (b : ExponentialBackoffBounds) (max : Duration) : Prop :=
  maximal b = Some max ∧ (0 < initial b <= max)%Z ∧ (max * 2 < DURATION_LIMIT)%Z.

(** What the state of a backoff can be *)
Definition backoff_ok (b : ExponentialBackoffBounds) (max : Duration) (e : ExponentialBackoff) : Prop :=
  bounds e = b ∧ (initial b <= current_backoff e <= max)%Z.

Lemma backoff_ok_new b max e :
  bounds_ok b max → exponential_backoff_new b = Ok e → backoff_ok b max e.
Proof.
  intros (Hm & Hi & _). unfold exponential_backoff_new. case_match; [done|]. intros [= <-].
  split; simpl; [done|lia].
Qed.

Lemma backoff_ok_reset b max e : bounds_ok b max → backoff_ok b max e → backoff_ok b max (reset_backoff e).
Proof. intros (_ & Hi & _) [<- _]. split; simpl; [done|lia]. Qed.

Lemma next_backoff_min b max e :
  bounds_ok b max → backoff_ok b max e →
  ∃ e', next_backoff e = Returns e' ∧ backoff_ok b max e' ∧
    current_backoff e' = Z.min (current_backoff e * 2) max.
Proof.
  intros (Hm & Hi & Hl) [Hb Hc]. simpl. unfold exponential_next_backoff, EXPONENTIAL_BACKOFF_MULTIPLIER.
  rewrite bool_decide_true by lia. rewrite Hb, Hm. eexists. split; [done|]. unfold backoff_ok. simpl.
  case_bool_decide; split_and!; done || lia.
Qed.

(** The backoff doubles from the initial bound until it reaches the maximal
    one and stays there: after [n] moves it is the smaller of the two, so it is
    always within the bounds, it never overflows, and resetting it at any time
    starts over. *)
Theorem backoff_sequence (b : ExponentialBackoffBounds) (max : Duration) (n : nat) (Hb : bounds_ok b max) :
  ∃ e0 e, exponential_backoff_new b = Ok e0 ∧ next_backoffs n e0 = Returns e ∧
    get_backoff e = Z.min (initial b * 2 ^ Z.of_nat n) max ∧
    (initial b <= get_backoff e <= max)%Z ∧
    reset_backoff e = e0.
Proof.
  pose proof Hb as (Hm & Hi & Hl).
  assert (exponential_backoff_new b = Ok (mkExponentialBackoff b (initial b))) as Hn.
  { unfold exponential_backoff_new. rewrite Hm, !bool_decide_false by lia. done. }
  eexists. cut (∀ k, ∃ e, next_backoffs k (mkExponentialBackoff b (initial b)) = Returns e ∧
    backoff_ok b max e ∧ current_backoff e = Z.min (initial b * 2 ^ Z.of_nat k) max).
  { intros Hk. destruct (Hk n) as (e & He & [Hbe Hce] & Hcur). exists e. simpl. rewrite Hbe. done. }
  intros k. pose proof (backoff_ok_new _ _ _ Hb Hn) as Hok.
  assert (∀ j e, backoff_ok b max e → ∃ e', next_backoffs j e = Returns e' ∧ backoff_ok b max e' ∧
    current_backoff e' = Z.min (current_backoff e * 2 ^ Z.of_nat j) max) as Hj; [|by apply Hj].
  induction j as [|j IH]; intros e He; cbn [next_backoffs].
  - exists e. split_and!; [done..|]. destruct He as [_ He]. simpl. lia.
  - destruct (next_backoff_min b max e Hb He) as (e1 & -> & He1 & Hc1).
    destruct (IH e1 He1) as (e2 & Hr & He2 & Hc2). exists e2. split_and!; [done..|].
    rewrite Hc2, Hc1. replace (Z.of_nat (S j)) with (Z.of_nat j + 1)%Z by lia.
    rewrite Z.pow_add_r by lia. assert (1 <= 2 ^ Z.of_nat j)%Z by (pose proof (Z.pow_pos_nonneg 2 (Z.of_nat j)); lia).
    destruct He as [_ He]. destruct (Z.min_spec (current_backoff e * 2) max) as [[? ->]|[? ->]]; nia.
Qed.

Module BackoffSamples.

Definition sample : ExponentialBackoffBounds :=
  mkExponentialBackoffBounds (from_millis 100) (Some (from_millis 700)).

Lemma backoff_sequence_witness :
  ∃ e0 e, exponential_backoff_new sample = Ok e0 ∧ next_backoffs 3 e0 = Returns e ∧
    get_backoff e = from_millis 700 ∧ reset_backoff e = e0.
Proof.
  destruct (backoff_sequence sample (from_millis 700) 3) as (e0 & e & Hn & Hr & Hg & _ & Hs).
  { split_and!; done. }
  exists e0, e. rewrite Hg. done.
Defined.
End BackoffSamples.
