(* ===== verification/CrossPing.v ===== *)
(** * [telio-traversal]: the cross ping check

    The state machine of a session ([endpoint_state.rs]) and the component that
    runs one session for each pair of a local endpoint and a peer
    ([connectivity_check/cross_ping_check.rs]): it exchanges call-me-maybe
    messages over the relay, pings the endpoints learnt from them, and
    publishes the endpoint of the first pong.

    The endpoint providers are records of what they were asked to do and of the
    endpoints they have.  The [PingPongHandler] that the providers share with
    the check is a field of the state.  Random session numbers come from the
    sequence [rand], of which [rand_next] counts the used ones.  What the
    provider of the time since the last packet would answer is an argument. *)

From S2P Require Import Prelude NetTypes WgTypes LruCache Crypto NetText Proto ProtoProps.
From S2P Require Import PingPong Backoff Firewall Controller.

Open Scope act_scope.

#[export] Instance SocketAddr_countable : Countable SocketAddr.
Proof.
  apply (inj_countable'
    (λ s, match s with SocketAddrV4 a p => inl (a, p) | SocketAddrV6 a p f i => inr (a, p, f, i) end)
    (λ s, match s with inl (a, p) => SocketAddrV4 a p | inr (a, p, f, i) => SocketAddrV6 a p f i end)).
  by intros [].
Defined.

(** ** The state machine of a session *)

Inductive EpEvent :=
| StartUp
| SendCallMeMaybeRequest
| ReceiveCallMeMaybeResponse
| Publish
| Timeout
| EndpointGone.

Inductive EpState :=
| EpDisconnected (event : EpEvent)
| EndpointGathering
| EpPing
| Published.

#[export] Instance EpEvent_eq_dec : EqDecision EpEvent.
Proof. solve_decision. Defined.
#[export] Instance EpState_eq_dec : EqDecision EpState.
Proof. solve_decision. Defined.

(** [EndpointState::default()] *)
Definition ep_state_default : EpState := EpDisconnected StartUp.

(** [EndpointStateMachine::handle_event]; an event that does not fit is logged
    and ignored *)
Definition handle_event (state : EpState) (event : EpEvent) : EpState :=
  match state, event with
  | EpDisconnected _, SendCallMeMaybeRequest => EndpointGathering
  | EndpointGathering, ReceiveCallMeMaybeResponse => EpPing
  | EpPing, Publish => Published
  | (EndpointGathering | EpPing), Timeout => EpDisconnected event
  | Published, EndpointGone => EpDisconnected event
  | _, _ => state
  end.

(** ** Candidates and providers *)

(** [EndpointProviderType] *)
Inductive EndpointProviderType := LocalInterfaces | StunProvider | UpnpProvider.

#[export] Instance EndpointProviderType_eq_dec : EqDecision EndpointProviderType.
Proof. solve_decision. Defined.

(** [From<EndpointProviderType> for EndpointProvider] *)
Definition endpoint_type_of (t : EndpointProviderType) : EndpointType :=
  match t with LocalInterfaces => Local | StunProvider => Stun | UpnpProvider => Upnp end.

Record EndpointCandidate := mkEndpointCandidate { candidate_wg : SocketAddr; candidate_udp : SocketAddr }.

#[export] Instance EndpointCandidate_eq_dec : EqDecision EndpointCandidate.
Proof. solve_decision. Defined.
#[export] Instance EndpointCandidate_countable : Countable EndpointCandidate.
Proof.
  apply (inj_countable' (λ c, (candidate_wg c, candidate_udp c)) (λ '(w, u), mkEndpointCandidate w u)).
  by intros [].
Defined.

(** An [EndpointProvider]: the endpoints it has, the pings it was asked to send,
    and how often it was told that an endpoint is gone *)
Record Provider := mkProvider {
  current_endpoints : option (list EndpointCandidate);
  requested_pings : list (SocketAddr * Session * PublicKey);
  gone_notifications : nat
}.

(** [EnumMap<EndpointProviderType, HashSet<EndpointCandidate>>] *)
Record EndpointCache := mkEndpointCache {
  cache_local : gset EndpointCandidate;
  cache_stun : gset EndpointCandidate;
  cache_upnp : gset EndpointCandidate
}.

Definition cache_get (t : EndpointProviderType) (c : EndpointCache) : gset EndpointCandidate :=
  match t with
  | LocalInterfaces => cache_local c
  | StunProvider => cache_stun c
  | UpnpProvider => cache_upnp c
  end.

Definition cache_set (t : EndpointProviderType) (x : gset EndpointCandidate) (c : EndpointCache) : EndpointCache :=
  match t with
  | LocalInterfaces => mkEndpointCache x (cache_stun c) (cache_upnp c)
  | StunProvider => mkEndpointCache (cache_local c) x (cache_upnp c)
  | UpnpProvider => mkEndpointCache (cache_local c) (cache_stun c) x
  end.

(** The order in which an [EnumMap] is iterated *)
Definition provider_types : list EndpointProviderType := [LocalInterfaces; StunProvider; UpnpProvider].

(** What the [TimeSinceLastRxProvider] answers: [None] is an error *)
Record RxProvider := mkRxProvider {
  last_rx_time : PublicKey → option (option Duration);
  max_no_rx_time : Duration
}.

(** [is_peer_alive] *)
Definition is_peer_alive (p : RxProvider) (public_key : PublicKey) : bool :=
  match last_rx_time p public_key with
  | Some (Some time) => bool_decide (time < max_no_rx_time p)%Z
  | _ => false
  end.

(** ** Sessions *)

Definition CPC_TIMEOUT : Duration := from_secs 10.
Definition UPGRADE_TIMEOUT : Duration := from_secs 60.
Definition MAX_SESSION_CANDIDATES : nat := 512.

(** [connectivity_check::Error], as far as it occurs *)
Inductive CpcError :=
| UnkownSessionForRxedPongPacket
| ExponentialBackoffError
| RespondingToCMMInitiatorError
| PublishingWireGuardEndpointError
| UnexpectedPeer (k : PublicKey)
| BackoffPanic.

(** [EndpointConnectivityCheckState] *)
Record CheckState (E : Type) := mkCheckState {
  cs_public_key : PublicKey;
  local_endpoint_candidate : EndpointCandidate;
  local_session : Session;
  ep_state : EpState;
  last_state_transition : Instant;
  last_validated_endpoint : option (SocketAddr * EndpointType);
  exponential_backoff : E;
  provider_type : EndpointType
}.
Arguments mkCheckState {E} _ _ _ _ _ _ _ _.
Arguments cs_public_key {E} _.
Arguments local_endpoint_candidate {E} _.
Arguments local_session {E} _.
Arguments ep_state {E} _.
Arguments last_state_transition {E} _.
Arguments last_validated_endpoint {E} _.
Arguments exponential_backoff {E} _.
Arguments provider_type {E} _.

Inductive ShouldSendCMMResult := Yes | Backoff_ | Unresponsive.

Abbreviation Cmm := (PublicKey * CallMeMaybeMsg)%type.

Section session.
Context {E : Type} `{!Backoff E}.
Implicit Types (c : CheckState E).

(** [do_state_transition!] *)
Definition do_state_transition (now : Instant) (event : EpEvent) c : CheckState E :=
  mkCheckState (cs_public_key c) (local_endpoint_candidate c) (local_session c)
    (handle_event (ep_state c) event) now (last_validated_endpoint c) (exponential_backoff c)
    (provider_type c).

Definition set_backoff (e : E) c : CheckState E :=
  mkCheckState (cs_public_key c) (local_endpoint_candidate c) (local_session c) (ep_state c)
    (last_state_transition c) (last_validated_endpoint c) e (provider_type c).

Definition set_validated (v : SocketAddr * EndpointType) c : CheckState E :=
  mkCheckState (cs_public_key c) (local_endpoint_candidate c) (local_session c) (ep_state c)
    (last_state_transition c) (Some v) (exponential_backoff c) (provider_type c).

(** [send_call_me_maybe_request] *)
Definition send_call_me_maybe_request (session : Session) c (tx : Chan Cmm) : result CpcError unit * Chan Cmm :=
  let call_me_maybe_init :=
    call_me_maybe_new true [candidate_udp (local_endpoint_candidate c)] session in
  let '(sent, tx) := chan_send (cs_public_key c, call_me_maybe_init) tx in
  (if sent then Ok tt else Err RespondingToCMMInitiatorError, tx).

(** [EndpointConnectivityCheckState::handle_endpoint_gone_notification] *)
Definition session_endpoint_gone (now : Instant) c : CheckState E :=
  if decide (ep_state c = Published) then do_state_transition now EndpointGone c else c.

(** [EndpointConnectivityCheckState::handle_endpoint_successful_notification] *)
Definition session_endpoint_successful c : CheckState E :=
  if decide (ep_state c = Published) then set_backoff (reset_backoff (exponential_backoff c)) c else c.

(** [send_ping_via_all_endpoint_providers]; failures are only logged *)
Definition send_ping_via_all (target : SocketAddr) (session_id : Session) (public_key : PublicKey)
    (ps : list Provider) : list Provider :=
  (λ p, mkProvider (current_endpoints p) (requested_pings p ++ [(target, session_id, public_key)])
          (gone_notifications p)) <$> ps.

(** [EndpointConnectivityCheckState::handle_call_me_maybe_response_rxed_event] *)
Definition session_cmm_response (now : Instant) (session_id : Session) (public_key : PublicKey)
    (message : CallMeMaybeMsg) c (ps : list Provider) : CheckState E * list Provider :=
  match ep_state c with
  | EndpointGathering =>
      let ps := fold_left (λ ps addr, send_ping_via_all addr session_id public_key ps)
                  (call_me_maybe_get_addrs message) ps in
      (do_state_transition now ReceiveCallMeMaybeResponse c, ps)
  | _ => (c, ps)
  end.

(** [EndpointConnectivityCheckState::handle_pong_rx_event] *)
Definition session_pong (now : Instant) (event : PongEvent) c (tx : Chan CheckedEndpoint)
    : result CpcError unit * CheckState E * Chan CheckedEndpoint :=
  match ep_state c with
  | EpPing =>
      let nice_ep_provider :=
        match get_ponging_ep_provider (pong_msg event) with
        | Ok (Some Local) | Ok (Some Upnp) => true
        | _ => false
        end in
      match get_ping_source_address (pong_msg event) with
      | Ok ping_source =>
          if bool_decide (V4 ping_source = socket_ip (candidate_udp (local_endpoint_candidate c))) || nice_ep_provider
          then
            let remote_endpoint :=
              socket_addr_new (socket_ip (pong_addr event)) (wg_port (ponger_get_wg_port (pong_msg event))) in
            let remote_endpoint_type :=
              match get_ponging_ep_provider (pong_msg event) with Ok (Some ep) => ep | _ => Local end in
            let c := do_state_transition now Publish c in
            let c := set_backoff (reset_backoff (exponential_backoff c)) c in
            let wg_publish_event :=
              mkCheckedEndpoint (cs_public_key c) (remote_endpoint, remote_endpoint_type)
                (candidate_wg (local_endpoint_candidate c), provider_type c) (local_session c)
                (last_state_transition c) in
            let c := set_validated (remote_endpoint, remote_endpoint_type) c in
            let '(sent, tx) := chan_send wg_publish_event tx in
            (if sent then Ok tt else Err PublishingWireGuardEndpointError, c, tx)
          else (Ok tt, c, tx)
      | Err _ => (Ok tt, c, tx)
      end
  | _ => (Ok tt, c, tx)
  end.

(** [should_resend_call_me_maybe_request] *)
Definition should_resend_call_me_maybe_request (rx : option RxProvider) (duration_in_state : Duration) c
    : ShouldSendCMMResult :=
  if bool_decide (get_backoff (exponential_backoff c) < duration_in_state)%Z then
    match rx with
    | Some rx => if is_peer_alive rx (cs_public_key c) then Yes else Unresponsive
    | None => Yes
    end
  else Backoff_.

(** The branches of a tick that ask again: after a timeout and after the
    endpoint was gone *)
Definition resend_call_me_maybe (now : Instant) (rx : option RxProvider) (session : Session)
    (duration_in_state : Duration) c (tx : Chan Cmm) : result CpcError unit * CheckState E * Chan Cmm :=
  match should_resend_call_me_maybe_request rx duration_in_state c with
  | Yes =>
      match next_backoff (exponential_backoff c) with
      | Returns e =>
          let c := set_backoff e c in
          match send_call_me_maybe_request session c tx with
          | (Ok _, tx) => (Ok tt, do_state_transition now SendCallMeMaybeRequest c, tx)
          | (Err e, tx) => (Err e, c, tx)
          end
      | Panics => (Err BackoffPanic, c, tx)
      end
  | _ => (Ok tt, c, tx)
  end.

(** [EndpointConnectivityCheckState::handle_tick_event] *)
Definition session_tick (now : Instant) (rx : option RxProvider) (session : Session) c (tx : Chan Cmm)
    : result CpcError unit * CheckState E * Chan Cmm :=
  let duration_in_state := Z.max 0 (now - last_state_transition c) in
  match ep_state c with
  | EndpointGathering | EpPing =>
      (Ok tt,
       if bool_decide (CPC_TIMEOUT < duration_in_state)%Z then do_state_transition now Timeout c else c,
       tx)
  | EpDisconnected StartUp =>
      match send_call_me_maybe_request session c tx with
      | (Ok _, tx) => (Ok tt, do_state_transition now SendCallMeMaybeRequest c, tx)
      | (Err e, tx) => (Err e, c, tx)
      end
  | EpDisconnected (Timeout | EndpointGone) => resend_call_me_maybe now rx session duration_in_state c tx
  | _ => (Ok tt, c, tx)
  end.
End session.

(** ** The component *)

Section component.
Context {E : Type} `{!Backoff E} {M : Type → Type → Type} `{!LinkedHashMap M}.
Context `{!HashOrder PublicKey} `{!HashOrder EndpointCandidate} `{!HashOrder Session}.
(** The random numbers, and what the helper provider returns *)
Context (rand : nat → Session) (backoff_provider : result BackoffError E).

(** [State], of the cross ping check *)
Record CpcState := mkCpcState {
  cpc_publisher : Chan CheckedEndpoint;
  cpc_intercoms : Chan Cmm;
  endpoint_providers : list Provider;
  check_states : gmap Session (CheckState E);
  node_cache : gset PublicKey;
  local_endpoint_cache : EndpointCache;
  ping_pong_handler : PingPongHandler;
  session_id_candidates : LruCache M Session PublicKey;
  rand_next : nat
}.

Abbreviation cpc A := (act CpcState CpcError A).

Definition with_check_states (m : gmap Session (CheckState E)) (s : CpcState) : CpcState :=
  mkCpcState (cpc_publisher s) (cpc_intercoms s) (endpoint_providers s) m (node_cache s)
    (local_endpoint_cache s) (ping_pong_handler s) (session_id_candidates s) (rand_next s).
Definition with_node_cache (n : gset PublicKey) (s : CpcState) : CpcState :=
  mkCpcState (cpc_publisher s) (cpc_intercoms s) (endpoint_providers s) (check_states s) n
    (local_endpoint_cache s) (ping_pong_handler s) (session_id_candidates s) (rand_next s).
Definition with_local_cache (c : EndpointCache) (s : CpcState) : CpcState :=
  mkCpcState (cpc_publisher s) (cpc_intercoms s) (endpoint_providers s) (check_states s) (node_cache s)
    c (ping_pong_handler s) (session_id_candidates s) (rand_next s).
Definition with_handler (h : PingPongHandler) (s : CpcState) : CpcState :=
  mkCpcState (cpc_publisher s) (cpc_intercoms s) (endpoint_providers s) (check_states s) (node_cache s)
    (local_endpoint_cache s) h (session_id_candidates s) (rand_next s).
Definition with_providers (p : list Provider) (s : CpcState) : CpcState :=
  mkCpcState (cpc_publisher s) (cpc_intercoms s) p (check_states s) (node_cache s)
    (local_endpoint_cache s) (ping_pong_handler s) (session_id_candidates s) (rand_next s).
Definition with_intercoms (c : Chan Cmm) (s : CpcState) : CpcState :=
  mkCpcState (cpc_publisher s) c (endpoint_providers s) (check_states s) (node_cache s)
    (local_endpoint_cache s) (ping_pong_handler s) (session_id_candidates s) (rand_next s).
Definition with_publisher (c : Chan CheckedEndpoint) (s : CpcState) : CpcState :=
  mkCpcState c (cpc_intercoms s) (endpoint_providers s) (check_states s) (node_cache s)
    (local_endpoint_cache s) (ping_pong_handler s) (session_id_candidates s) (rand_next s).
Definition with_candidates (c : LruCache M Session PublicKey) (s : CpcState) : CpcState :=
  mkCpcState (cpc_publisher s) (cpc_intercoms s) (endpoint_providers s) (check_states s) (node_cache s)
    (local_endpoint_cache s) (ping_pong_handler s) c (rand_next s).
Definition with_rand_next (n : nat) (s : CpcState) : CpcState :=
  mkCpcState (cpc_publisher s) (cpc_intercoms s) (endpoint_providers s) (check_states s) (node_cache s)
    (local_endpoint_cache s) (ping_pong_handler s) (session_id_candidates s) n.

(** [start_with_backoff_provider] *)
Definition cpc_start (publisher : Chan CheckedEndpoint) (intercoms : Chan Cmm) (ps : list Provider)
    (h : PingPongHandler) : CpcState :=
  mkCpcState publisher intercoms ps ∅ ∅ (mkEndpointCache ∅ ∅ ∅) h
    (lru_new UPGRADE_TIMEOUT MAX_SESSION_CANDIDATES) 0.

(** The iteration over the sessions *)
Definition iter_sessions (m : gmap Session (CheckState E)) : list (Session * CheckState E) :=
  omap (λ k, (λ v, (k, v)) <$> m !! k) (hash_iter (dom m)).

(** [get_validated_endpoints]: a later session of a peer replaces an earlier one *)
Definition get_validated_endpoints (s : CpcState) : gmap PublicKey CheckedEndpoint :=
  fold_left (λ acc '(session, v),
    match ep_state v, last_validated_endpoint v with
    | Published, Some ep =>
        <[cs_public_key v :=
          mkCheckedEndpoint (cs_public_key v) ep
            (candidate_wg (local_endpoint_candidate v), provider_type v) session
            (last_state_transition v)]> acc
    | _, _ => acc
    end) (iter_sessions (check_states s)) ∅.

(** [notify_successfull_wg_connection_upgrade] *)
Definition notify_successfull_wg_connection_upgrade (public_key : PublicKey) (s : CpcState) : CpcState :=
  with_check_states ((λ v, if decide (cs_public_key v = public_key) then session_endpoint_successful v else v)
    <$> check_states s) s.

(** [gather_all_local_endpoints] *)
Definition gather_all_local_endpoints (s : CpcState) : gset EndpointCandidate :=
  cache_local (local_endpoint_cache s) ∪ cache_stun (local_endpoint_cache s) ∪
  cache_upnp (local_endpoint_cache s).

(** [gather_provider_local_endpoints] *)
Definition gather_provider_local_endpoints (t : EndpointProviderType) (s : CpcState)
    : gset EndpointCandidate := cache_get t (local_endpoint_cache s).

(** A new session: [rand::random], the record, the insertion *)
Definition create_session (now : Instant) (node : PublicKey) (t : EndpointProviderType)
    (endpoint : EndpointCandidate) : cpc unit := λ s,
  let session_id := rand (rand_next s) in
  let s := with_rand_next (S (rand_next s)) s in
  match backoff_provider with
  | Ok e =>
      let session := mkCheckState node endpoint session_id ep_state_default now None e (endpoint_type_of t) in
      (Ok tt, with_check_states (<[session_id := session]> (check_states s)) s)
  | Err _ => (Err ExponentialBackoffError, s)
  end.

(** The update of the [PingPongHandler] *)
Definition update_known_sessions (s : CpcState) : CpcState :=
  with_handler (ping_pong_configure (cs_public_key <$> check_states s) (ping_pong_handler s)) s.

(** [State::configure] *)
Definition cpc_configure (now : Instant) (config : option MeshConfig) : cpc unit :=
  s <-- act_get ;;
  let old_nodes := node_cache s in
  let new_nodes : gset PublicKey :=
    list_to_set (mesh_key <$> default [] (config ≫= mesh_peers)) in
  let added_nodes := new_nodes ∖ old_nodes in
  let removed_nodes := old_nodes ∖ new_nodes in
  act_modify (λ s, with_check_states
    (filter (λ kv, cs_public_key kv.2 ∉ removed_nodes) (check_states s)) s) ;;;
  act_for (hash_iter added_nodes) (λ added_node,
    act_for provider_types (λ t,
      act_for (hash_iter (cache_get t (local_endpoint_cache s))) (create_session now added_node t))) ;;;
  act_modify update_known_sessions ;;;
  act_modify (with_node_cache new_nodes).

(** [State::handle_endpoint_change_event] *)
Definition handle_endpoint_change_event (now : Instant) (t : EndpointProviderType)
    (candidates : list EndpointCandidate) : cpc unit :=
  s <-- act_get ;;
  let old_endpoints := gather_provider_local_endpoints t s in
  let new_endpoints : gset EndpointCandidate := list_to_set candidates in
  let added_endpoints := new_endpoints ∖ old_endpoints in
  let removed_endpoints := old_endpoints ∖ new_endpoints in
  act_modify (λ s, with_check_states
    (filter (λ kv, local_endpoint_candidate kv.2 ∉ removed_endpoints) (check_states s)) s) ;;;
  act_for (hash_iter added_endpoints) (λ added_endpoint,
    act_for (hash_iter (node_cache s)) (λ node, create_session now node t added_endpoint)) ;;;
  act_modify update_known_sessions ;;;
  act_modify (λ s, with_local_cache (cache_set t new_endpoints (local_endpoint_cache s)) s).

(** [State::handle_pong_rx_event] *)
Definition handle_pong_rx_event (now : Instant) (event : PongEvent) : cpc unit := λ s,
  let session_id := ponger_session (pong_msg event) in
  match check_states s !! session_id with
  | Some c =>
      let '(r, c, tx) := session_pong now event c (cpc_publisher s) in
      (r, with_publisher tx (with_check_states (<[session_id := c]> (check_states s)) s))
  | None => (Err UnkownSessionForRxedPongPacket, s)
  end.

(** [State::handle_call_me_maybe_rxed_event] *)
Definition handle_call_me_maybe_rxed_event (now : Instant) (public_key : PublicKey) (message : CallMeMaybeMsg)
    : cpc unit := λ s,
  match i_am message with
  | INITIATOR =>
      match list_find (λ kv : Session * CheckState E, cs_public_key kv.2 = public_key)
              (iter_sessions (check_states s)) with
      | Some (_, (local_session_id, _)) =>
          let ps := fold_left (λ ps endpoint, send_ping_via_all endpoint local_session_id public_key ps)
                      (call_me_maybe_get_addrs message) (endpoint_providers s) in
          let remote_session_id := cmm_session message in
          let s := with_candidates (lru_insert now remote_session_id public_key (session_id_candidates s))
                     (with_providers ps s) in
          let call_me_maybe_response :=
            call_me_maybe_new false (candidate_udp <$> hash_iter (gather_all_local_endpoints s))
              remote_session_id in
          let '(sent, tx) := chan_send (public_key, call_me_maybe_response) (cpc_intercoms s) in
          (if sent then Ok tt else Err RespondingToCMMInitiatorError, with_intercoms tx s)
      | None => (Err (UnexpectedPeer public_key), s)
      end
  | RESPONDER =>
      let session_id := cmm_session message in
      match check_states s !! session_id with
      | Some c =>
          let '(c, ps) := session_cmm_response now session_id public_key message c (endpoint_providers s) in
          (Ok tt, with_providers ps (with_check_states (<[session_id := c]> (check_states s)) s))
      | None => (Err UnkownSessionForRxedPongPacket, s)
      end
  end.

(** [State::handle_tick_event]: the session is updated in place, also if the
    loop then ends with an error *)
Definition tick_session (now : Instant) (rx : option RxProvider) (session : Session) : cpc unit := λ s,
  match check_states s !! session with
  | Some c =>
      let '(r, c, tx) := session_tick now rx session c (cpc_intercoms s) in
      (r, with_intercoms tx (with_check_states (<[session := c]> (check_states s)) s))
  | None => (Ok tt, s)
  end.

Definition handle_tick_event (now : Instant) (rx : option RxProvider) : cpc unit :=
  s <-- act_get ;;
  act_for (hash_iter (dom (check_states s))) (tick_session now rx).

(** [State::check_if_upgrade_is_allowed] *)
Definition check_if_upgrade_is_allowed (now : Instant) (session : Session) (public_key : PublicKey)
    (s : CpcState) : bool * CpcState :=
  let '(pk, cache) := lru_get now session (session_id_candidates s) in
  (bool_decide (pk = Some public_key), with_candidates cache s).

(** [e.handle_endpoint_gone_notification()] for the providers that have the
    endpoint *)
Definition notify_provider (candidate : EndpointCandidate) (p : Provider) : Provider :=
  match current_endpoints p with
  | Some l =>
      if bool_decide (candidate ∈ l)
      then mkProvider (current_endpoints p) (requested_pings p) (S (gone_notifications p)) else p
  | None => p
  end.

(** [notify_failed_wg_connection] *)
Definition notify_failed_wg_connection (now : Instant) (public_key : PublicKey) (s : CpcState) : CpcState :=
  fold_left (λ s '(session, v),
    if decide (cs_public_key v = public_key) then
      with_providers (notify_provider (local_endpoint_candidate v) <$> endpoint_providers s)
        (with_check_states (<[session := session_endpoint_gone now v]> (check_states s)) s)
    else s) (iter_sessions (check_states s)) s.

(** What the task does in one turn: [wait_with_update] and the requests of the
    trait.  Errors are logged. *)
Inductive CpcOp :=
| OpConfigure (now : Instant) (config : option MeshConfig)
| OpEndpoints (now : Instant) (t : EndpointProviderType) (candidates : list EndpointCandidate)
| OpPong (now : Instant) (event : PongEvent)
| OpCallMeMaybe (now : Instant) (k : PublicKey) (message : CallMeMaybeMsg)
| OpTick (now : Instant) (rx : option RxProvider)
| OpSuccessful (k : PublicKey)
| OpFailed (now : Instant) (k : PublicKey)
| OpCheckUpgrade (now : Instant) (session : Session) (k : PublicKey).

Definition cpc_exec (op : CpcOp) (s : CpcState) : CpcState :=
  match op with
  | OpConfigure now config => (cpc_configure now config s).2
  | OpEndpoints now t candidates => (handle_endpoint_change_event now t candidates s).2
  | OpPong now event => (handle_pong_rx_event now event s).2
  | OpCallMeMaybe now k message => (handle_call_me_maybe_rxed_event now k message s).2
  | OpTick now rx => (handle_tick_event now rx s).2
  | OpSuccessful k => notify_successfull_wg_connection_upgrade k s
  | OpFailed now k => notify_failed_wg_connection now k s
  | OpCheckUpgrade now session k => (check_if_upgrade_is_allowed now session k s).2
  end.

(** A provider does not report an endpoint that another one has. *)
Definition op_disjoint (op : CpcOp) (s : CpcState) : Prop :=
  match op with
  | OpEndpoints _ t candidates =>
      ∀ t', t' ≠ t → (list_to_set candidates : gset EndpointCandidate) ## cache_get t' (local_endpoint_cache s)
  | _ => True
  end.

(** The states of a check that was started with a fresh handler, and whether no
    two providers had the same endpoint on the way *)
Inductive cpc_reach : Prop → CpcState → Prop :=
| cpc_reach_start publisher intercoms ps sk :
    cpc_reach True (cpc_start publisher intercoms ps (ping_pong_new sk))
| cpc_reach_step apart s op : cpc_reach apart s → cpc_reach (apart ∧ op_disjoint op s) (cpc_exec op s).
End component.
