(* ===== verification/CrossPingProps.v ===== *)
(** * The cross ping check: theorems

    In every state that configurations, endpoint changes, messages, pongs and
    ticks can lead to there is at most one session for each peer and each local
    endpoint of a provider, and exactly one while session numbers and endpoints are
    distinct; a round of the check over the relay ends with
    the endpoint published. *)

From S2P Require Import Prelude NetTypes WgTypes LruCache Crypto NetText Proto ProtoProps.
From S2P Require Import PingPong Backoff Firewall Controller CrossPing.

Open Scope act_scope.

(** ** Sessions *)

Definition Triple : Type := PublicKey * EndpointType * EndpointCandidate.

Lemma endpoint_type_of_inj t t' : endpoint_type_of t = endpoint_type_of t' → t = t'.
Proof. by destruct t, t'. Qed.

Lemma elem_of_provider_types t : t ∈ provider_types.
Proof. destruct t; unfold provider_types; set_solver. Qed.

Lemma cache_get_set t t' x c :
  cache_get t (cache_set t' x c) = if decide (t = t') then x else cache_get t c.
Proof. by destruct t, t'. Qed.

Lemma handle_event_Published st ev : handle_event st ev = Published → ev ≠ Publish → st = Published.
Proof. by destruct st, ev. Qed.

Lemma handle_event_Disconnected st ev e :
  (∀ e', st = EpDisconnected e' → e' = StartUp ∨ e' = Timeout ∨ e' = EndpointGone) →
  handle_event st ev = EpDisconnected e → e = StartUp ∨ e = Timeout ∨ e = EndpointGone.
Proof. intros Hst. destruct st as [e'| | |], ev; simpl; intros [= <-]; auto. Qed.

Section sessions.
Context {E : Type} `{!Backoff E} (ok : E → Prop).
Hypothesis next_ok : ∀ e, ok e → ∃ e', next_backoff e = Returns e' ∧ ok e'.
Hypothesis reset_ok : ∀ e, ok e → ok (reset_backoff e).

Definition triple (c : CheckState E) : Triple :=
  (cs_public_key c, provider_type c, local_endpoint_candidate c).

(** What holds of every session *)
Record session_ok (sid : Session) (c : CheckState E) : Prop := {
  so_session : local_session c = sid;
  so_validated : ep_state c = Published → is_Some (last_validated_endpoint c);
  so_backoff : ok (exponential_backoff c);
  so_state ev : ep_state c = EpDisconnected ev → ev = StartUp ∨ ev = Timeout ∨ ev = EndpointGone
}.

(** A step of a session keeps what it is for, and keeps it well formed. *)
Definition session_step (sid : Session) (c c' : CheckState E) : Prop :=
  triple c' = triple c ∧ (session_ok sid c → session_ok sid c').

Lemma session_step_refl sid c : session_step sid c c.
Proof. done. Qed.

Lemma session_step_trans sid c1 c2 c3 :
  session_step sid c1 c2 → session_step sid c2 c3 → session_step sid c1 c3.
Proof. intros [Ht1 Hs1] [Ht2 Hs2]. split; [congruence|auto]. Qed.

Lemma transition_step sid now ev c : ev ≠ Publish → session_step sid c (do_state_transition now ev c).
Proof.
  intros Hev. split; [done|]. intros [Hs Hv Hb Hd]. split; [done| |done|]; simpl.
  - intros Hp. apply Hv. by eapply handle_event_Published.
  - intros ev'. by apply handle_event_Disconnected.
Qed.

Lemma set_backoff_step sid e c : (ok (exponential_backoff c) → ok e) → session_step sid c (set_backoff e c).
Proof. intros He. split; [done|]. intros [Hs Hv Hb Hd]. split; simpl; auto. Qed.

Lemma endpoint_gone_step sid now c : session_step sid c (session_endpoint_gone now c).
Proof. unfold session_endpoint_gone. case_decide; [by apply transition_step|done]. Qed.

Lemma endpoint_successful_step sid c : session_step sid c (session_endpoint_successful c).
Proof. unfold session_endpoint_successful. case_decide; [by apply set_backoff_step, reset_ok|done]. Qed.

Lemma cmm_response_step sid now pk m c ps :
  session_step sid c (session_cmm_response now sid pk m c ps).1.
Proof. unfold session_cmm_response. case_match; try done. by apply transition_step. Qed.

Lemma pong_step sid now ev c tx : session_step sid c (session_pong now ev c tx).1.2.
Proof.
  unfold session_pong. destruct (ep_state c) eqn:Hst; try done.
  destruct (get_ping_source_address (pong_msg ev)); [|done]. case_match; [|done].
  destruct (chan_send _ tx) as [sent tx']. split; [done|]. intros [Hs Hv Hb Hd].
  split; simpl; [done|done|by apply reset_ok|]. by rewrite Hst.
Qed.

Lemma resend_step sid now rx d c tx : session_step sid c (resend_call_me_maybe now rx sid d c tx).1.2.
Proof.
  unfold resend_call_me_maybe. case_match; try done.
  destruct (next_backoff (exponential_backoff c)) as [e|] eqn:Hn; [|done].
  assert (session_step sid c (set_backoff e c)) as Hb.
  { apply set_backoff_step. intros Ho. destruct (next_ok _ Ho) as (e' & Hn' & He'). congruence. }
  destruct (send_call_me_maybe_request sid _ tx) as [[[]|e'] tx']; [|done].
  eapply session_step_trans; [done|by apply transition_step].
Qed.

Lemma tick_step sid now rx c tx : session_step sid c (session_tick now rx sid c tx).1.2.
Proof.
  unfold session_tick. destruct (ep_state c) as [[]| | |]; try done; try apply resend_step;
    try (case_bool_decide; [by apply transition_step|done]).
  destruct (send_call_me_maybe_request sid c tx) as [[[]|e] tx']; [by apply transition_step|done].
Qed.
End sessions.

(** ** The set of sessions *)

(** The pairs of a peer and a local endpoint that there have to be sessions for *)
Definition wanted (nodes : gset PublicKey) (cache : EndpointCache) : Triple → Prop := λ '(k, ty, e),
  k ∈ nodes ∧ ∃ t, ty = endpoint_type_of t ∧ e ∈ cache_get t cache.

Section component.
Context {E : Type} `{!Backoff E} (ok : E → Prop).
Hypothesis next_ok : ∀ e, ok e → ∃ e', next_backoff e = Returns e' ∧ ok e'.
Hypothesis reset_ok : ∀ e, ok e → ok (reset_backoff e).
Context {M : Type → Type → Type} `{!LinkedHashMap M}.
Context `{!HashOrder PublicKey, !HashOrder EndpointCandidate, !HashOrder Session}.
Context `{!HashOrderLaws PublicKey, !HashOrderLaws EndpointCandidate, !HashOrderLaws Session}.
Context (rand : nat → Session) (e0 : E).
Hypothesis e0_ok : ok e0.

Abbreviation State := (CpcState (E:=E) (M:=M)).
Implicit Types (s : State) (c : CheckState E) (m : gmap Session (CheckState E)).

(** The first [n] numbers that were drawn are distinct. *)
Definition distinct (n : nat) : Prop := ∀ i j, i < j → j < n → rand i ≠ rand j.

(** [m] has no session for what is no member of [A], and at most one for each
    member; if [C] holds and the numbers are distinct, it has one. *)
Record exact (C : Prop) (A : Triple → Prop) (n : nat) (m : gmap Session (CheckState E)) : Prop := {
  ex_sound sid c : m !! sid = Some c → A (triple c);
  ex_complete tr : C → distinct n → A tr → ∃ sid c, m !! sid = Some c ∧ triple c = tr;
  ex_unique sid sid' c c' : m !! sid = Some c → m !! sid' = Some c' → triple c = triple c' → sid = sid';
  ex_used sid c : m !! sid = Some c → ∃ i, i < n ∧ sid = rand i;
  ex_ok sid c : m !! sid = Some c → session_ok ok sid c
}.

Lemma exact_ext (C C' : Prop) A B n m : (∀ tr, A tr → B tr) → (C' → C ∧ ∀ tr, B tr → A tr) → exact C A n m → exact C' B n m.
Proof.
  intros HAB HBA [H1 H2 H3 H4 H5]. split; [|intros tr [HC HBA']%HBA Hd Htr|done..].
  - intros sid c Hc. apply HAB. eauto.
  - apply H2; [done..|]. by apply HBA'.
Qed.

Lemma exact_empty C n : exact C (λ _, False) n ∅.
Proof. split; try done; by intros ??; rewrite lookup_empty. Qed.

Lemma exact_filter C A P n m `{!∀ kv : Session * CheckState E, base.Decision (P (triple kv.2))} :
  exact C A n m → exact C (λ tr, A tr ∧ P tr) n (filter (λ kv, P (triple kv.2)) m).
Proof.
  intros [H1 H2 H3 H4 H5]. split.
  - intros sid c Hc. apply map_lookup_filter_Some in Hc as [Hc HP]. eauto.
  - intros tr HC Hd [Htr HP]. destruct (H2 tr HC Hd Htr) as (sid & c & Hc & <-). exists sid, c. split; [|done].
    by apply map_lookup_filter_Some.
  - intros sid sid' c c' [Hc _]%map_lookup_filter_Some [Hc' _]%map_lookup_filter_Some. by apply H3.
  - intros sid c [Hc _]%map_lookup_filter_Some. eauto.
  - intros sid c [Hc _]%map_lookup_filter_Some. eauto.
Qed.

Lemma exact_insert C A n m tr c :
  exact C A n m → ¬ A tr → triple c = tr → session_ok ok (rand n) c →
  exact C (λ tr', tr' = tr ∨ A tr') (S n) (<[rand n := c]> m).
Proof.
  intros [H1 H2 H3 H4 H5] Hn Htr Hok. split.
  - intros sid c' [[<- <-]|[_ Hc]]%lookup_insert_Some; [by left|right; eauto].
  - intros tr' HC Hd [-> | Ht]; [exists (rand n), c; by rewrite lookup_insert_eq|].
    destruct (H2 tr' HC (λ i j Hi Hj, Hd i j Hi (Nat.lt_lt_succ_r _ _ Hj)) Ht) as (sid & c' & Hc & Hc').
    exists sid, c'. split; [|done]. destruct (H4 _ _ Hc) as (i & Hi & ->).
    rewrite lookup_insert_ne; [done|]. apply not_eq_sym, Hd; lia.
  - intros sid sid' c1 c2 Hc1 Hc2 Heq.
    apply lookup_insert_Some in Hc1 as [[<- <-]|[_ Hc1]]; apply lookup_insert_Some in Hc2 as [[<- <-]|[_ Hc2]].
    + done.
    + destruct Hn. rewrite <-Htr, Heq. eauto.
    + destruct Hn. rewrite <-Htr, <-Heq. eauto.
    + by eapply H3.
  - intros sid c' [[<- <-]|[_ Hc]]%lookup_insert_Some; [exists n; split; [lia|done]|].
    destruct (H4 _ _ Hc) as (i & Hi & ->). exists i. split; [lia|done].
  - intros sid c' [[<- <-]|[_ Hc]]%lookup_insert_Some; [done|eauto].
Qed.

Lemma exact_step C A n m sid c c' :
  exact C A n m → m !! sid = Some c → session_step ok sid c c' → exact C A n (<[sid := c']> m).
Proof.
  intros [H1 H2 H3 H4 H5] Hc [Ht Hs]. split.
  - intros sid1 c1 [[<- <-]|[_ Hc1]]%lookup_insert_Some; [rewrite Ht; eauto|eauto].
  - intros tr HC Hd Htr. destruct (H2 tr HC Hd Htr) as (sid1 & c1 & Hc1 & <-).
    destruct (decide (sid1 = sid)) as [->|Hne].
    + exists sid, c'. rewrite lookup_insert_eq. split; [done|]. congruence.
    + exists sid1, c1. by rewrite lookup_insert_ne.
  - intros sid1 sid2 c1 c2 Hc1 Hc2 Heq.
    apply lookup_insert_Some in Hc1 as [[<- <-]|[_ Hc1]]; apply lookup_insert_Some in Hc2 as [[<- <-]|[_ Hc2]];
      [done|eapply H3; [done|done|congruence]..].
  - intros sid1 c1 [[<- <-]|[_ Hc1]]%lookup_insert_Some; eauto.
  - intros sid1 c1 [[<- <-]|[_ Hc1]]%lookup_insert_Some; eauto.
Qed.

Lemma exact_fmap C A n m (f : CheckState E → CheckState E) :
  (∀ sid c, session_step ok sid c (f c)) → exact C A n m → exact C A n (f <$> m).
Proof.
  intros Hf [H1 H2 H3 H4 H5]. split.
  - intros sid c Hc. apply lookup_fmap_Some in Hc as (c0 & <- & Hc). destruct (Hf sid c0) as [-> _]. eauto.
  - intros tr HC Hd Htr. destruct (H2 tr HC Hd Htr) as (sid & c & Hc & <-). exists sid, (f c).
    rewrite lookup_fmap, Hc. split; [done|]. apply (Hf sid c).
  - intros sid sid' c c' Hc Hc' Heq.
    apply lookup_fmap_Some in Hc as (c0 & <- & Hc). apply lookup_fmap_Some in Hc' as (c0' & <- & Hc').
    destruct (Hf sid c0) as [Ht _], (Hf sid' c0') as [Ht' _]. eapply H3; [done|done|congruence].
  - intros sid c Hc. apply lookup_fmap_Some in Hc as (c0 & <- & Hc). eauto.
  - intros sid c Hc. apply lookup_fmap_Some in Hc as (c0 & <- & Hc). apply (Hf sid c0). eauto.
Qed.

(** *** New sessions *)

Definition to_triple (p : PublicKey * EndpointProviderType * EndpointCandidate) : Triple :=
  (p.1.1, endpoint_type_of p.1.2, p.2).

Lemma to_triple_inj p q : to_triple p = to_triple q → p = q.
Proof.
  destruct p as [[k t] e], q as [[k' t'] e']. unfold to_triple. simpl. intros [= -> Ht ->].
  by apply endpoint_type_of_inj in Ht as ->.
Qed.

Lemma create_loop now (L : list (PublicKey * EndpointProviderType * EndpointCandidate)) C A s :
  exact C A (rand_next s) (check_states s) → NoDup L → (∀ p, p ∈ L → ¬ A (to_triple p)) →
  ∃ n m, act_for L (λ p, create_session rand (Ok e0) now p.1.1 p.1.2 p.2) s =
      (Ok tt, with_rand_next n (with_check_states m s)) ∧
    exact C (λ tr, (∃ p, p ∈ L ∧ tr = to_triple p) ∨ A tr) n m.
Proof.
  intros Hex Hnd. revert A s Hex. induction Hnd as [|p L Hp Hnd IH]; intros A s Hex HA; cbn [act_for].
  { exists (rand_next s), (check_states s). split; [by destruct s|].
    eapply exact_ext; [by right| |done]. intros HC. split; [done|]. intros tr [(p & Hp & _)|]; [|done].
    by apply not_elem_of_nil in Hp. }
  unfold act_bind, create_session at 1. destruct p as [[k t] e]. cbn [fst snd].
  set (c := mkCheckState k e (rand (rand_next s)) ep_state_default now None e0 (endpoint_type_of t)).
  set (s1 := with_check_states _ _).
  assert (exact C (λ tr, tr = to_triple (k, t, e) ∨ A tr) (rand_next s1) (check_states s1)) as Hex1.
  { apply (exact_insert C A (rand_next s) (check_states s) _ c Hex); [|done|split; [done..|intros ev [= <-]; by left]].
    apply HA. by constructor. }
  destruct (IH _ s1 Hex1) as (n & m & Hrun & Hres).
  { intros q Hq [Heq|HAq]; [apply to_triple_inj in Heq; congruence|]. eapply HA; [|done]. by constructor. }
  exists n, m. split; [exact Hrun|]. eapply exact_ext; [intros tr| |done].
  - intros [(q & Hq & ->)|[->|]]; [left; exists q; split; [by constructor|done]| |by right].
    left. exists (k, t, e). split; [by constructor|done].
  - intros HC. split; [done|].
    intros tr [(q & [->|Hq]%elem_of_cons & ->)|]; [right; by left|left; by exists q|right; by right].
Qed.

(** ** The invariant *)

Record cpc_inv (apart : Prop) s : Prop := {
  ci_exact : exact apart (wanted (node_cache s) (local_endpoint_cache s)) (rand_next s) (check_states s);
  ci_known : known_sessions (ping_pong_handler s) = cs_public_key <$> check_states s;
  ci_keys k : k ∈ known_keys (ping_pong_handler s) ↔
    ∃ sid c, check_states s !! sid = Some c ∧ cs_public_key c = k;
  ci_disjoint t t' : apart → t ≠ t' → cache_get t (local_endpoint_cache s) ## cache_get t' (local_endpoint_cache s)
}.

Lemma configured_keys m h k :
  k ∈ known_keys (ping_pong_configure (cs_public_key <$> m) h) ↔
    ∃ sid c, m !! sid = Some c ∧ cs_public_key c = k.
Proof.
  simpl. rewrite elem_of_list_to_set, list_elem_of_fmap. split.
  - intros ([sid k'] & -> & Hin). apply elem_of_map_to_list, lookup_fmap_Some in Hin as (c & <- & Hc).
    by exists sid, c.
  - intros (sid & c & Hc & <-). exists (sid, cs_public_key c). split; [done|].
    apply elem_of_map_to_list, lookup_fmap_Some. by exists c.
Qed.

(** The loops of [configure] and of [handle_endpoint_change_event], as one loop *)
Definition configure_list (nodes : gset PublicKey) (cache : EndpointCache)
    : list (PublicKey * EndpointProviderType * EndpointCandidate) :=
  (λ p, (p.1, p.2.1, p.2.2)) <$>
    pairs (hash_iter nodes) (λ _, pairs provider_types (λ t, hash_iter (cache_get t cache))).

Definition change_list (added : gset EndpointCandidate) (nodes : gset PublicKey) (t : EndpointProviderType)
    : list (PublicKey * EndpointProviderType * EndpointCandidate) :=
  (λ p, (p.2, t, p.1)) <$> pairs (hash_iter added) (λ _, hash_iter nodes).

Lemma elem_of_configure_list nodes cache k t e :
  (k, t, e) ∈ configure_list nodes cache ↔ k ∈ nodes ∧ e ∈ cache_get t cache.
Proof.
  unfold configure_list. rewrite list_elem_of_fmap. split.
  - intros ([k' [t' e']] & [= -> -> ->] & [Hk Hin]%elem_of_pairs). apply elem_of_pairs in Hin as [_ He].
    rewrite elem_of_hash_iter in Hk. by rewrite elem_of_hash_iter in He.
  - intros [Hk He]. exists (k, (t, e)). split; [done|]. apply elem_of_pairs. rewrite elem_of_hash_iter.
    split; [done|]. apply elem_of_pairs. rewrite elem_of_hash_iter. split; [apply elem_of_provider_types|done].
Qed.

Lemma elem_of_change_list added nodes t k t' e :
  (k, t', e) ∈ change_list added nodes t ↔ t' = t ∧ k ∈ nodes ∧ e ∈ added.
Proof.
  unfold change_list. rewrite list_elem_of_fmap. split.
  - intros ([e' k'] & [= -> -> ->] & [He Hk]%elem_of_pairs).
    rewrite elem_of_hash_iter in Hk. by rewrite elem_of_hash_iter in He.
  - intros (-> & Hk & He). exists (e, k). split; [done|]. apply elem_of_pairs. by rewrite !elem_of_hash_iter.
Qed.

Lemma NoDup_configure_list nodes cache : NoDup (configure_list nodes cache).
Proof.
  apply NoDup_fmap_2; [intros [? [??]] [? [??]] [= -> -> ->]; done|]. apply NoDup_pairs; [apply NoDup_hash_iter|].
  intros _. apply NoDup_pairs; [by apply (bool_decide_unpack _)|]. intros t. apply NoDup_hash_iter.
Qed.

Lemma NoDup_change_list added nodes t : NoDup (change_list added nodes t).
Proof.
  apply NoDup_fmap_2; [intros [??] [??] [= -> ->]; done|]. apply NoDup_pairs; [apply NoDup_hash_iter|].
  intros _. apply NoDup_hash_iter.
Qed.

Abbreviation create now := (λ p, create_session rand (Ok e0) now p.1.1 p.1.2 p.2).

Lemma configure_loop now nodes cache s :
  act_for (hash_iter nodes) (λ k, act_for provider_types (λ t,
    act_for (hash_iter (cache_get t cache)) (create_session rand (Ok e0) now k t))) s =
  act_for (configure_list nodes cache) (create now) s.
Proof.
  unfold configure_list. rewrite act_for_fmap. cbn [fst snd].
  rewrite <-(act_for_pairs _ _ (λ k p, create_session rand (Ok e0) now k p.1 p.2)).
  apply act_for_ext. intros k s'. apply act_for_pairs.
Qed.

Lemma change_loop now added nodes t s :
  act_for (hash_iter added) (λ e, act_for (hash_iter nodes) (λ k, create_session rand (Ok e0) now k t e)) s =
  act_for (change_list added nodes t) (create now) s.
Proof. unfold change_list. rewrite act_for_fmap. cbn [fst snd]. by rewrite act_for_pairs. Qed.

Ltac diff := rewrite ?elem_of_difference, ?not_elem_of_difference in *; tauto.

(** Creating the missing sessions and telling the handler gives the invariant
    for what is wanted then. *)
Lemma resync_inv now (C C' : Prop) A L nodes cache s :
  exact C A (rand_next s) (check_states s) → NoDup L → (∀ p, p ∈ L → ¬ A (to_triple p)) →
  (∀ tr, (∃ p, p ∈ L ∧ tr = to_triple p) ∨ A tr → wanted nodes cache tr) →
  (C' → C ∧ ∀ tr, wanted nodes cache tr → (∃ p, p ∈ L ∧ tr = to_triple p) ∨ A tr) →
  (∀ t t', C' → t ≠ t' → cache_get t cache ## cache_get t' cache) →
  ∃ s', act_for L (create now) s = (Ok tt, s') ∧
    node_cache s' = node_cache s ∧ local_endpoint_cache s' = local_endpoint_cache s ∧
    cpc_inv C' (with_node_cache nodes (with_local_cache cache (update_known_sessions s'))).
Proof.
  intros Hex Hnd Hnew Hw Hw' Hdis. destruct (create_loop now L C A s Hex Hnd Hnew) as (n & m & Hrun & Hres).
  eexists. split_and!; [exact Hrun|done|done|]. split; simpl.
  - by eapply exact_ext; [| |exact Hres].
  - done.
  - intros k. apply (configured_keys m (ping_pong_handler s)).
  - done.
Qed.

Lemma cpc_configure_inv now config apart s :
  cpc_inv apart s →
  ∃ s', cpc_configure rand (Ok e0) now config s = (Ok tt, s') ∧ cpc_inv apart s' ∧
    node_cache s' = list_to_set (mesh_key <$> default [] (config ≫= mesh_peers)) ∧
    local_endpoint_cache s' = local_endpoint_cache s.
Proof.
  intros [Hex Hkn Hke Hdis]. unfold cpc_configure, act_bind at 1, act_get.
  set (new := list_to_set (mesh_key <$> default [] (config ≫= mesh_peers)) : gset PublicKey).
  pose proof (exact_filter _ _ (λ tr : Triple, tr.1.1 ∉ node_cache s ∖ new) _ _ Hex) as Hf.
  unfold act_bind at 1, act_modify at 1. set (s1 := with_check_states _ s). unfold act_bind at 1.
  destruct (resync_inv now apart apart _ (configure_list (new ∖ node_cache s) (local_endpoint_cache s)) new
    (local_endpoint_cache s) s1 Hf (NoDup_configure_list _ _)) as (s2 & Hrun & Hn & Hc & Hinv); [| | |done|].
  { intros [[k t] e] Hin%elem_of_configure_list [Hw _]. destruct Hw as [Hk _]. simpl in Hk. diff. }
  { intros [[k ty] e] [([[k' t] e'] & Hin & [= -> -> ->])|[[Hk (t & -> & He)] Hr]].
    - apply elem_of_configure_list in Hin as [Hk He]. split; [diff|]. by exists t.
    - cbn [fst] in Hr. split; [destruct (decide (k ∈ new)); diff|]. by exists t. }
  { intros Hap. split; [done|]. intros [[k ty] e] [Hk (t & -> & He)]. cbn [fst]. destruct (decide (k ∈ node_cache s)).
    - right. split; [|diff]. split; [done|]. by exists t.
    - left. exists (k, t, e). rewrite elem_of_configure_list. split; [diff|done]. }
  rewrite configure_loop, Hrun. eexists. split; [reflexivity|].
  simpl in Hc. destruct s2. simpl in *. subst. done.
Qed.

Lemma handle_endpoint_change_inv now t cands apart s :
  cpc_inv apart s →
  ∃ s', handle_endpoint_change_event rand (Ok e0) now t cands s = (Ok tt, s') ∧
    cpc_inv (apart ∧ op_disjoint (OpEndpoints now t cands) s) s' ∧
    node_cache s' = node_cache s ∧
    local_endpoint_cache s' = cache_set t (list_to_set cands) (local_endpoint_cache s).
Proof.
  intros [Hex Hkn Hke Hdis]. unfold handle_endpoint_change_event, act_bind at 1, act_get. cbn [op_disjoint].
  set (new := list_to_set cands : gset EndpointCandidate) in *.
  unfold gather_provider_local_endpoints. set (old := cache_get t (local_endpoint_cache s)).
  pose proof (exact_filter _ _ (λ tr : Triple, tr.2 ∉ old ∖ new) _ _ Hex) as Hf.
  unfold act_bind at 1, act_modify at 1. set (s1 := with_check_states _ s). unfold act_bind at 1.
  destruct (resync_inv now apart (apart ∧ ∀ t', t' ≠ t → new ## cache_get t' (local_endpoint_cache s)) _
    (change_list (new ∖ old) (node_cache s) t) (node_cache s)
    (cache_set t new (local_endpoint_cache s)) s1 Hf (NoDup_change_list _ _ _)) as (s2 & Hrun & Hn & Hc & Hinv).
  { intros [[k t1] e] (-> & Hk & He)%elem_of_change_list [[_ (t' & Ht & He')] _].
    apply endpoint_type_of_inj in Ht as <-. diff. }
  { intros [[k ty] e] [([[k' t'] e'] & (-> & Hk & He)%elem_of_change_list & [= -> -> ->])|[[Hk (t' & -> & He)] Hr]].
    - split; [done|]. exists t. rewrite cache_get_set, decide_True by done. split; [done|diff].
    - cbn [snd] in Hr. split; [done|]. exists t'. rewrite cache_get_set. split; [done|].
      case_decide; [subst; destruct (decide (e ∈ new)); diff|done]. }
  { intros [Hap Hnew]. split; [done|]. intros [[k ty] e] [Hk (t' & -> & He)]. cbn [snd].
    rewrite cache_get_set in He. destruct (decide (t' = t)) as [->|Hne].
    - destruct (decide (e ∈ old)).
      + right. split; [|diff]. split; [done|]. by exists t.
      + left. exists (k, t, e). rewrite elem_of_change_list. split; [diff|done].
    - right. split; [split; [done|]; by exists t'|]. intros [He' _]%elem_of_difference. exact (Hdis t' t Hap Hne e He He'). }
  { intros t1 t2 [Hap Hnew] Hne. rewrite !cache_get_set.
    repeat case_decide; subst; [done|by apply Hnew|by apply symmetry, Hnew|auto]. }
  rewrite change_loop, Hrun. eexists. split; [reflexivity|].
  simpl in Hn, Hc. destruct s2. simpl in *. subst. done.
Qed.

(** *** Steps of sessions *)

Definition same_base s s' : Prop :=
  node_cache s' = node_cache s ∧ local_endpoint_cache s' = local_endpoint_cache s ∧
  rand_next s' = rand_next s ∧ ping_pong_handler s' = ping_pong_handler s.

Lemma cpc_inv_sessions apart s s' :
  cpc_inv apart s → same_base s s' →
  exact apart (wanted (node_cache s) (local_endpoint_cache s)) (rand_next s) (check_states s') →
  cs_public_key <$> check_states s' = cs_public_key <$> check_states s →
  cpc_inv apart s'.
Proof.
  intros [Hex Hkn Hke Hdis] (Hn & Hc & Hr & Hh) Hex' Hpk. split; rewrite ?Hn, ?Hc, ?Hr, ?Hh; [done| | |done].
  - by rewrite Hkn, Hpk.
  - intros k. rewrite Hke. apply (f_equal (λ m : gmap Session PublicKey, ∃ sid, m !! sid = Some k)) in Hpk.
    assert (∀ m : gmap Session (CheckState E), (∃ sid, (cs_public_key <$> m) !! sid = Some k) ↔
      ∃ sid c, m !! sid = Some c ∧ cs_public_key c = k) as Hm.
    { intros m. setoid_rewrite lookup_fmap_Some. naive_solver. }
    by rewrite <-!Hm, Hpk.
Qed.

Lemma cpc_inv_insert apart s s' sid c c' :
  cpc_inv apart s → same_base s s' → check_states s !! sid = Some c → session_step ok sid c c' →
  check_states s' = <[sid := c']> (check_states s) → cpc_inv apart s'.
Proof.
  intros Hinv Hb Hc Hstep Hm. eapply cpc_inv_sessions; [done|done|rewrite Hm..].
  - eapply exact_step; [apply Hinv|done|done].
  - rewrite fmap_insert. apply insert_id. rewrite lookup_fmap, Hc. simpl. destruct Hstep as [[= -> _ _] _]. done.
Qed.

Lemma cpc_inv_same apart s s' :
  cpc_inv apart s → same_base s s' → check_states s' = check_states s → cpc_inv apart s'.
Proof.
  intros Hinv Hb Hm. eapply cpc_inv_sessions; [done|done|rewrite Hm; apply Hinv|by rewrite Hm].
Qed.

Lemma handle_pong_inv now ev apart s : cpc_inv apart s → cpc_inv apart (handle_pong_rx_event now ev s).2.
Proof.
  intros Hinv. unfold handle_pong_rx_event.
  destruct (check_states s !! ponger_session (pong_msg ev)) as [c|] eqn:Hc; [|done].
  pose proof (pong_step ok reset_ok (ponger_session (pong_msg ev)) now ev c (cpc_publisher s)) as Hs.
  destruct (session_pong now ev c (cpc_publisher s)) as [[r c'] tx]. by eapply cpc_inv_insert.
Qed.

Lemma handle_call_me_maybe_inv now k msg apart s :
  cpc_inv apart s → cpc_inv apart (handle_call_me_maybe_rxed_event now k msg s).2.
Proof.
  intros Hinv. unfold handle_call_me_maybe_rxed_event. destruct (i_am msg).
  - destruct (list_find _ _) as [[? [sid ?]]|]; [|done]. destruct (chan_send _ _) as [sent tx].
    by eapply cpc_inv_same.
  - destruct (check_states s !! cmm_session msg) as [c|] eqn:Hc; [|done].
    pose proof (cmm_response_step ok (cmm_session msg) now k msg c (endpoint_providers s)) as Hs.
    destruct (session_cmm_response now (cmm_session msg) k msg c (endpoint_providers s)) as [c' ps].
    by eapply cpc_inv_insert.
Qed.

Lemma handle_tick_inv now rx apart s : cpc_inv apart s → cpc_inv apart (handle_tick_event now rx s).2.
Proof.
  intros Hinv. unfold handle_tick_event, act_bind, act_get. apply act_for_inv; [|done].
  intros sid s1 _ Hs1. unfold tick_session. destruct (check_states s1 !! sid) as [c|] eqn:Hc; [|done].
  pose proof (tick_step ok next_ok sid now rx c (cpc_intercoms s1)) as Hs.
  destruct (session_tick now rx sid c (cpc_intercoms s1)) as [[r c'] tx]. by eapply cpc_inv_insert.
Qed.

Lemma notify_successfull_inv k apart s : cpc_inv apart s → cpc_inv apart (notify_successfull_wg_connection_upgrade k s).
Proof.
  intros Hinv. eapply cpc_inv_sessions; [done|done|..]; simpl.
  - apply exact_fmap; [|apply Hinv]. intros sid c. case_decide; [by apply endpoint_successful_step|done].
  - rewrite <-map_fmap_compose. apply map_fmap_ext. intros sid c _. simpl.
    case_decide; [|done]. unfold session_endpoint_successful. by case_decide.
Qed.

Lemma iter_sessions_lookup m sid c : (sid, c) ∈ iter_sessions m → m !! sid = Some c.
Proof.
  unfold iter_sessions. rewrite list_elem_of_omap. intros (sid' & _ & Hc).
  apply fmap_Some in Hc as (c' & Hc & [= -> ->]). done.
Qed.

Lemma notify_failed_inv now k apart s : cpc_inv apart s → cpc_inv apart (notify_failed_wg_connection now k s).
Proof.
  intros Hinv. unfold notify_failed_wg_connection.
  pose proof (iter_sessions_lookup (check_states s)) as Hin.
  assert (NoDup (iter_sessions (check_states s)).*1) as Hnd.
  { unfold iter_sessions. eapply sublist_NoDup; [apply (NoDup_hash_iter (dom (check_states s)))|].
    generalize (hash_iter (dom (check_states s))). intros l. induction l as [|x l IH]; csimpl; [done|].
    destruct (check_states s !! x); csimpl; by constructor. }
  revert Hin Hnd Hinv. generalize (iter_sessions (check_states s)). intros l. revert s.
  induction l as [|[sid c] l IH]; intros s Hin Hnd Hinv; [done|]. simpl. csimpl in Hnd.
  apply NoDup_cons in Hnd as [Hsid Hnd]. apply IH; [|done|].
  - intros sid' c' Hin'. case_decide; [|apply Hin; by constructor]. simpl.
    rewrite lookup_insert_ne; [apply Hin; by constructor|]. intros <-. apply Hsid, list_elem_of_fmap.
    by exists (sid, c').
  - case_decide; [|done]. eapply cpc_inv_insert; [done|done|apply Hin; by constructor| |done].
    apply endpoint_gone_step.
Qed.

Lemma check_if_upgrade_inv now sid k apart s : cpc_inv apart s → cpc_inv apart (check_if_upgrade_is_allowed now sid k s).2.
Proof.
  intros Hinv. unfold check_if_upgrade_is_allowed. destruct (lru_get _ _ _). by eapply cpc_inv_same.
Qed.

Lemma cpc_inv_start publisher intercoms ps sk :
  cpc_inv True (cpc_start publisher intercoms ps (ping_pong_new sk)).
Proof.
  split; simpl.
  - apply (exact_ext True True (λ _, False)); [done| |apply exact_empty]. intros _. split; [done|].
    intros [[k ty] e]. by intros [?%not_elem_of_empty _].
  - by rewrite fmap_empty.
  - intros k. split; [by intros ?%not_elem_of_empty|]. intros (sid & c & Hc & _). by rewrite lookup_empty in Hc.
  - intros [] [] _ Hne; done || apply disjoint_empty_l.
Qed.

(** An operation that is no change of endpoints keeps the providers apart. *)
Lemma cpc_inv_apart (C C' : Prop) s : (C' → C) → cpc_inv C s → cpc_inv C' s.
Proof.
  intros HC [Hex Hkn Hke Hdis]. split; [|done|done|auto]. eapply exact_ext; [done| |done]. auto.
Qed.

Lemma cpc_reach_inv apart s : cpc_reach rand (Ok e0) apart s → cpc_inv apart s.
Proof.
  induction 1 as [publisher intercoms ps sk|apart s op Hr IH]; [apply cpc_inv_start|].
  destruct op as [now config|now t cands|now ev|now k msg|now rx|k|now k|now sid k]; cbn [cpc_exec];
    [|destruct (handle_endpoint_change_inv now t cands apart s IH) as (s' & -> & Hinv & _); done|..];
    (apply (cpc_inv_apart apart); [by intros []|]).
  - destruct (cpc_configure_inv now config apart s IH) as (s' & -> & Hinv & _). done.
  - by apply handle_pong_inv.
  - by apply handle_call_me_maybe_inv.
  - by apply handle_tick_inv.
  - by apply notify_successfull_inv.
  - by apply notify_failed_inv.
  - by apply check_if_upgrade_inv.
Qed.

(** What is reported as validated *)
Lemma get_validated_published s k ep :
  get_validated_endpoints s !! k = Some ep →
  checked_public_key ep = k ∧
  ∃ c, check_states s !! checked_session ep = Some c ∧ ep_state c = Published ∧ cs_public_key c = k ∧
    last_validated_endpoint c = Some (remote_endpoint ep).
Proof.
  unfold get_validated_endpoints.
  pose proof (iter_sessions_lookup (check_states s)) as Hin.
  revert Hin. generalize (iter_sessions (check_states s)). intros l Hin.
  induction l as [|[sid c] l IH] using rev_ind; [simpl; by rewrite lookup_empty|].
  rewrite fold_left_app. simpl.
  assert (check_states s !! sid = Some c) as Hc by (apply Hin, elem_of_app; right; by apply list_elem_of_singleton).
  specialize (IH (λ sid c H, Hin sid c (proj2 (elem_of_app _ _ _) (or_introl H)))).
  destruct (ep_state c) eqn:Hst; try done. destruct (last_validated_endpoint c) as [v|] eqn:Hv; [|done].
  rewrite lookup_insert_Some. intros [[Hk <-]|[_ Hep]]; [|by apply IH]. simpl.
  split; [done|]. by exists c.
Qed.

(** ** A round of the check *)

(** A session that a tick makes ask its peer for endpoints *)
Definition asks (now : Instant) (rx : option RxProvider) c : Prop :=
  ep_state c = EpDisconnected StartUp ∨
  (ep_state c = EpDisconnected Timeout ∨ ep_state c = EpDisconnected EndpointGone) ∧
  should_resend_call_me_maybe_request rx (Z.max 0 (now - last_state_transition c)) c = Yes.

(** The session asked, and waits for the answer. *)
Definition asked (now : Instant) (sid : Session) c c' (sent : list Cmm) : Prop :=
  triple c' = triple c ∧ local_session c' = local_session c ∧ ep_state c' = EndpointGathering ∧
  last_state_transition c' = now ∧
  sent = [(cs_public_key c, call_me_maybe_new true [candidate_udp (local_endpoint_candidate c)] sid)].

(** A session that waited too long *)
Definition late (now : Instant) c : Prop :=
  (ep_state c = EndpointGathering ∨ ep_state c = EpPing) ∧ (CPC_TIMEOUT < now - last_state_transition c)%Z.

(** With an open channel a tick of a session does not fail. *)
Lemma session_tick_ok now rx sid c (tx : Chan Cmm) :
  session_ok ok sid c → chan_open tx = true →
  ∃ c' sent, session_tick now rx sid c tx = (Ok tt, c', mkChan true (chan_sent tx ++ sent)) ∧
    (asks now rx c → asked now sid c c' sent) ∧
    (late now c → c' = do_state_transition now Timeout c).
Proof.
  intros Hok Ho. destruct tx as [o l]. simpl in Ho. subst o.
  assert (∀ ev, ep_state c = EpDisconnected ev → late now c → False) as Hl by (intros ev Hev [[Hs|Hs] _]; congruence).
  unfold session_tick, resend_call_me_maybe. destruct (ep_state c) as [ev| | |] eqn:Hst.
  - destruct (so_state _ _ _ Hok ev Hst) as [-> | Hev].
    { simpl. eexists _, _. split; [reflexivity|]. unfold asked. simpl. rewrite Hst.
      split; [done|]. intros H. by destruct (Hl _ eq_refl). }
    destruct (next_ok _ (so_backoff _ _ _ Hok)) as (e' & Hn & _).
    assert (asks now rx c → should_resend_call_me_maybe_request rx (Z.max 0 (now - last_state_transition c)) c = Yes) as Ha.
    { intros [Hs|[_ Hs]]; [|done]. rewrite Hst in Hs. by destruct Hev as [-> | ->]. }
    destruct Hev as [-> | ->]; (destruct (should_resend_call_me_maybe_request _ _ _) eqn:Hsh;
      [rewrite Hn; simpl; eexists _, _; split; [reflexivity|]; unfold asked; simpl; rewrite Hst
      |exists c, []; simpl; rewrite app_nil_r; split_and!; [done|intros H; by specialize (Ha H)|]..];
      [split; [done|]|..]; intros H; by destruct (Hl _ eq_refl)).
  - eexists _, []. rewrite app_nil_r. simpl. split_and!; [reflexivity| |].
    + unfold asks. rewrite Hst. naive_solver.
    + intros [_ H]. by rewrite bool_decide_true by lia.
  - eexists _, []. rewrite app_nil_r. simpl. split_and!; [reflexivity| |].
    + unfold asks. rewrite Hst. naive_solver.
    + intros [_ H]. by rewrite bool_decide_true by lia.
  - exists c, []. rewrite app_nil_r. split_and!; [done| |]; unfold asks, late; rewrite Hst; naive_solver.
Qed.

(** What a tick does to the session [sid], with the messages it sends *)
Definition ticked (now : Instant) (rx : option RxProvider) (sid : Session) c
    (m' : gmap Session (CheckState E)) (sent : list Cmm) : Prop :=
  ∃ c' sent', m' !! sid = Some c' ∧ sent' ⊆ sent ∧
    (asks now rx c → asked now sid c c' sent') ∧
    (late now c → c' = do_state_transition now Timeout c).

Lemma tick_loop now rx L s :
  NoDup L → (∀ sid c, check_states s !! sid = Some c → session_ok ok sid c) →
  chan_open (cpc_intercoms s) = true →
  ∃ m' sent, act_for L (tick_session now rx) s =
      (Ok tt, with_intercoms (mkChan true (chan_sent (cpc_intercoms s) ++ sent)) (with_check_states m' s)) ∧
    (∀ sid c, sid ∈ L → check_states s !! sid = Some c → ticked now rx sid c m' sent) ∧
    (∀ sid, sid ∉ L → m' !! sid = check_states s !! sid).
Proof.
  revert s. induction L as [|sid0 L IH]; intros s Hnd Hok Ho; cbn [act_for].
  { exists (check_states s), []. rewrite app_nil_r. split_and!; [|by intros ?? ?%not_elem_of_nil|done].
    destruct s as [? [o l]]. simpl in Ho. by subst o. }
  apply NoDup_cons in Hnd as [Hni Hnd]. unfold act_bind, tick_session at 1.
  destruct (check_states s !! sid0) as [c0|] eqn:Hc0.
  2: { destruct (IH s Hnd Hok Ho) as (m' & sent & -> & Hin & Hout). exists m', sent. split_and!; [done| |].
       - intros sid c [->|Hs]%elem_of_cons Hc; [congruence|by apply Hin].
       - intros sid [_ Hs]%not_elem_of_cons. by apply Hout. }
  destruct (session_tick_ok now rx sid0 c0 (cpc_intercoms s)) as (c' & sent0 & Ht & Hasks & Hlate); [by apply Hok|done|].
  pose proof (tick_step ok next_ok sid0 now rx c0 (cpc_intercoms s)) as [_ Hk]. rewrite Ht in *. simpl in Hk.
  destruct (IH (with_intercoms (mkChan true (chan_sent (cpc_intercoms s) ++ sent0))
    (with_check_states (<[sid0:=c']> (check_states s)) s)) Hnd) as (m' & sent & -> & Hin & Hout); [|done|].
  { simpl. intros sid c [[<- <-]|[_ Hc]]%lookup_insert_Some; [by apply Hk, Hok|by apply Hok]. }
  simpl in Hin, Hout. simpl. exists m', (sent0 ++ sent). split_and!; [by rewrite <-app_assoc| |].
  - intros sid c [->|Hs]%elem_of_cons Hc.
    + exists c', sent0. rewrite Hout, lookup_insert_eq by done. replace c with c0 by congruence.
      split; [done|]. split; [by apply list_subseteq_app_l|done].
    + destruct (Hin sid c Hs) as (c1 & sent1 & H1 & H2 & H3); [rewrite lookup_insert_ne; [done|]; by intros -> |].
      exists c1, sent1. split; [done|]. split; [by apply list_subseteq_app_r|done].
  - intros sid [Hne Hs]%not_elem_of_cons. rewrite Hout by done. by rewrite lookup_insert_ne.
Qed.

(** A tick of the component reaches every session. *)
Lemma handle_tick_ok now rx apart s :
  cpc_inv apart s → chan_open (cpc_intercoms s) = true →
  ∃ m' sent, handle_tick_event now rx s =
      (Ok tt, with_intercoms (mkChan true (chan_sent (cpc_intercoms s) ++ sent)) (with_check_states m' s)) ∧
    ∀ sid c, check_states s !! sid = Some c → ticked now rx sid c m' sent.
Proof.
  intros Hinv Ho. unfold handle_tick_event, act_bind, act_get.
  destruct (tick_loop now rx (hash_iter (dom (check_states s))) s) as (m' & sent & -> & Hin & _);
    [apply NoDup_hash_iter|apply Hinv|done|].
  exists m', sent. split; [done|]. intros sid c Hc. apply Hin; [|done].
  apply elem_of_hash_iter, elem_of_dom. by exists c.
Qed.

(** A session whose wait is over by the longest backoff asks at the first tick,
    or gives up waiting at the first and asks at the second one. *)
Lemma asks_eventually now rx sid c max :
  session_ok ok sid c → (∀ e, ok e → (get_backoff e <= max)%Z) →
  match rx with Some rx => is_peer_alive rx (cs_public_key c) = true | None => True end →
  (CPC_TIMEOUT < now - last_state_transition c)%Z → (max < now - last_state_transition c)%Z →
  ep_state c = Published ∨ asks now rx c ∨ late now c.
Proof.
  intros Hok Hmax Hrx Ht Hm. unfold asks, late. destruct (ep_state c) as [ev| | |] eqn:Hst; [|by auto..].
  right; left. destruct (so_state _ _ _ Hok ev Hst) as [-> | Hev]; [by left|right].
  split; [destruct Hev as [-> | ->]; auto|]. unfold should_resend_call_me_maybe_request.
  specialize (Hmax _ (so_backoff _ _ _ Hok)). rewrite bool_decide_true by lia.
  destruct rx; [by rewrite Hrx|done].
Qed.

(** A published session with an endpoint is reported for its peer. *)
Lemma get_validated_complete s sid c k :
  check_states s !! sid = Some c → ep_state c = Published → is_Some (last_validated_endpoint c) →
  cs_public_key c = k → is_Some (get_validated_endpoints s !! k).
Proof.
  intros Hc Hst [v Hv] <-. unfold get_validated_endpoints.
  assert ((sid, c) ∈ iter_sessions (check_states s)) as Hin.
  { unfold iter_sessions. apply list_elem_of_omap. exists sid.
    rewrite Hc, elem_of_hash_iter, elem_of_dom. by split; [exists c|]. }
  revert Hin. generalize (iter_sessions (check_states s)). intros l.
  induction l as [|[sid' c'] l IH] using rev_ind; [by intros ?%not_elem_of_nil|].
  rewrite fold_left_app. simpl. intros [Hin|[= <- <-]%list_elem_of_singleton]%elem_of_app.
  - specialize (IH Hin). destruct (ep_state c'), (last_validated_endpoint c'); try done.
    apply lookup_insert_is_Some'. by right.
  - rewrite Hst, Hv. apply lookup_insert_is_Some'. by left.
Qed.

(** The pings that an answer makes the providers send *)
Lemma send_pings_all sid k addrs ps :
  Forall2 (λ p p', requested_pings p' = requested_pings p ++ ((λ a, (a, sid, k)) <$> addrs))
    ps (fold_left (λ ps a, send_ping_via_all a sid k ps) addrs ps).
Proof.
  revert ps. induction addrs as [|a addrs IH]; intros ps; simpl.
  - apply Forall_Forall2_diag, Forall_true. intros p. by rewrite app_nil_r.
  - specialize (IH (send_ping_via_all a sid k ps)). unfold send_ping_via_all in IH at 1.
    apply Forall2_fmap_l in IH. eapply Forall2_impl; [done|]. simpl. intros p p' ->.
    by rewrite <-app_assoc.
Qed.
End component.

(** ** The theorems, for the exponential backoff *)

Section theorems.
Context {M : Type → Type → Type} `{!LinkedHashMap M}.
Context `{!HashOrder PublicKey, !HashOrder EndpointCandidate, !HashOrder Session}.
Context `{!HashOrderLaws PublicKey, !HashOrderLaws EndpointCandidate, !HashOrderLaws Session}.
Context (rand : nat → Session) (b : ExponentialBackoffBounds) (max : Duration).
Hypothesis b_ok : bounds_ok b max.

Abbreviation State := (CpcState (E:=ExponentialBackoff) (M:=M)).
Implicit Types (s : State).

Lemma exponential_next_ok e :
  backoff_ok b max e → ∃ e', next_backoff e = Returns e' ∧ backoff_ok b max e'.
Proof. intros He. destruct (next_backoff_min b max e b_ok He) as (e' & ? & ? & _). eauto. Qed.

Lemma cpc_reach_exponential apart s :
  cpc_reach rand (exponential_backoff_new b) apart s → cpc_inv (backoff_ok b max) rand apart s.
Proof.
  destruct (exponential_backoff_new b) as [e0|e] eqn:He0.
  - intros Hr. refine (cpc_reach_inv (backoff_ok b max) exponential_next_ok _ rand e0 _ apart s Hr);
      [intros e; by apply backoff_ok_reset|by eapply backoff_ok_new].
  - destruct b_ok as (Hm & Hi & _). unfold exponential_backoff_new in He0.
    rewrite Hm, !bool_decide_false in He0 by lia. done.
Qed.

(** C20: In every state that the check can reach, whatever session numbers are
    drawn and whatever endpoints the providers report, there is no session but for
    a peer of the mesh and a local endpoint of a provider, and at most one for each
    such pair.  There is exactly one if the numbers drawn so far are distinct and no
    provider reported an endpoint that another one had.  A session is filed under
    its own number and its backoff is within the bounds; the ping handler knows
    exactly these sessions with the keys they are for; and an endpoint is reported
    as validated for a peer only if a session of this peer, which is in the mesh,
    is published with it. *)
Theorem cross_ping_sessions apart s (Hr : cpc_reach rand (exponential_backoff_new b) apart s) :
  (∀ sid sid' c c', check_states s !! sid = Some c → check_states s !! sid' = Some c' → triple c = triple c' → sid = sid') ∧
  (apart → distinct rand (rand_next s) → ∀ k t e, k ∈ node_cache s → e ∈ cache_get t (local_endpoint_cache s) →
    exists ! sid, ∃ c, check_states s !! sid = Some c ∧ triple c = (k, endpoint_type_of t, e)) ∧
  (∀ sid c, check_states s !! sid = Some c →
    cs_public_key c ∈ node_cache s ∧
    (∃ t, provider_type c = endpoint_type_of t ∧
      local_endpoint_candidate c ∈ cache_get t (local_endpoint_cache s)) ∧
    local_session c = sid ∧ (initial b <= get_backoff (exponential_backoff c) <= max)%Z) ∧
  known_sessions (ping_pong_handler s) = cs_public_key <$> check_states s ∧
  (∀ k ep, get_validated_endpoints s !! k = Some ep → k ∈ node_cache s ∧ checked_public_key ep = k ∧
    ∃ c, check_states s !! checked_session ep = Some c ∧ ep_state c = Published ∧ cs_public_key c = k ∧
      last_validated_endpoint c = Some (remote_endpoint ep)).
Proof.
  pose proof (cpc_reach_exponential apart s Hr) as [Hex Hkn Hke Hdis].
  assert (∀ sid c, check_states s !! sid = Some c → cs_public_key c ∈ node_cache s ∧
    ∃ t, provider_type c = endpoint_type_of t ∧
      local_endpoint_candidate c ∈ cache_get t (local_endpoint_cache s)) as Hsound.
  { intros sid c Hc. exact (ex_sound _ _ _ _ _ _ Hex sid c Hc). }
  split_and!; [apply (ex_unique _ _ _ _ _ _ Hex)| | |done|].
  - intros Hap Hd k t e Hk He.
    destruct (ex_complete _ _ _ _ _ _ Hex (k, endpoint_type_of t, e) Hap Hd) as (sid & c & Hc & Ht).
    { split; [done|]. by exists t. }
    exists sid. split; [by exists c|]. intros sid' (c' & Hc' & Ht').
    eapply (ex_unique _ _ _ _ _ _ Hex); [done|done|congruence].
  - intros sid c Hc. destruct (Hsound sid c Hc) as [Hk Ht].
    destruct (ex_ok _ _ _ _ _ _ Hex sid c Hc) as [Hs _ [_ Hb] _]. done.
  - intros k ep Hep. destruct (get_validated_published s k ep Hep) as (Hk & c & Hc & Hst & Hck & Hv).
    split; [rewrite <-Hck; by destruct (Hsound _ c Hc)|]. split; [done|]. by exists c.
Qed.

(** A round of the check succeeds.  From any reachable state with open
    channels a new session asks its peer at the next tick, with its endpoint and
    its number; the peer's answer makes every provider ping every endpoint of the
    answer under this number; and a pong for the number, whose source address is
    the session's own or whose provider is not STUN, publishes the pong's address
    with the peer's WireGuard port, after which the peer has a validated
    endpoint. *)
Theorem connectivity_check_round apart s sid c (now1 now2 now3 : Instant) (rx : option RxProvider)
    (msg : CallMeMaybeMsg) (ev : PongEvent) (src : Z)
    (Hr : cpc_reach rand (exponential_backoff_new b) apart s)
    (Hopen : chan_open (cpc_intercoms s) = true ∧ chan_open (cpc_publisher s) = true)
    (Hc : check_states s !! sid = Some c) (Hst : ep_state c = EpDisconnected StartUp)
    (Hmsg : i_am msg = RESPONDER ∧ cmm_session msg = sid)
    (Hev : ponger_session (pong_msg ev) = sid ∧ get_ping_source_address (pong_msg ev) = Ok src)
    (Hnice : V4 src = socket_ip (candidate_udp (local_endpoint_candidate c)) ∨
      get_ponging_ep_provider (pong_msg ev) = Ok (Some Local) ∨
      get_ponging_ep_provider (pong_msg ev) = Ok (Some Upnp)) :
  ∃ s1 s2 s3 sent published,
    handle_tick_event now1 rx s = (Ok tt, s1) ∧
    chan_sent (cpc_intercoms s1) = chan_sent (cpc_intercoms s) ++ sent ∧
    (cs_public_key c, call_me_maybe_new true [candidate_udp (local_endpoint_candidate c)] sid) ∈ sent ∧
    handle_call_me_maybe_rxed_event now2 (cs_public_key c) msg s1 = (Ok tt, s2) ∧
    Forall2 (λ p p', requested_pings p' = requested_pings p ++
        ((λ a, (a, sid, cs_public_key c)) <$> call_me_maybe_get_addrs msg))
      (endpoint_providers s) (endpoint_providers s2) ∧
    handle_pong_rx_event now3 ev s2 = (Ok tt, s3) ∧
    chan_sent (cpc_publisher s3) = chan_sent (cpc_publisher s) ++ [published] ∧
    checked_public_key published = cs_public_key c ∧ checked_session published = sid ∧
    (remote_endpoint published).1 =
      socket_addr_new (socket_ip (pong_addr ev)) (wg_port (ponger_get_wg_port (pong_msg ev))) ∧
    local_endpoint published = (candidate_wg (local_endpoint_candidate c), provider_type c) ∧
    is_Some (get_validated_endpoints s3 !! cs_public_key c).
Proof.
  destruct Hopen as [Ho Hp], Hmsg as [Hi Hs], Hev as [He Hsrc].
  pose proof (cpc_reach_exponential apart s Hr) as Hinv.
  destruct (ex_ok _ _ _ _ _ _ (ci_exact _ _ _ _ Hinv) sid c Hc) as [Hls _ _ _].
  destruct (handle_tick_ok (backoff_ok b max) exponential_next_ok rand now1 rx apart s Hinv Ho) as (m1 & sent & Ht1 & Htick).
  destruct (Htick sid c Hc) as (c1 & sent1 & Hc1 & Hsub & Hasks & _).
  destruct (Hasks (or_introl Hst)) as (Htr & Hl1 & Hst1 & _ & ->). injection Htr as Hk1 Hp1 He1.
  eexists _, _, _, sent, _. split; [exact Ht1|]. split; [done|]. split; [set_solver|].
  split.
  { unfold handle_call_me_maybe_rxed_event. rewrite Hi. cbn [check_states with_intercoms with_check_states].
    rewrite Hs, Hc1. unfold session_cmm_response. rewrite Hst1. reflexivity. }
  split; [apply send_pings_all|]. split.
  { unfold handle_pong_rx_event. cbn [check_states with_providers with_intercoms with_check_states].
    rewrite He, lookup_insert_eq. unfold session_pong. cbn [ep_state do_state_transition]. rewrite Hst1.
    cbn [handle_event local_endpoint_candidate do_state_transition]. rewrite Hsrc. rewrite He1.
    replace (_ || _) with true; [|symmetry; destruct Hnice as [Hn|[Hn|Hn]];
      [by rewrite bool_decide_true|rewrite Hn; apply orb_true_r..]].
    unfold chan_send. simpl. rewrite Hp. reflexivity. }
  simpl. split_and!; try done.
  - cbn. congruence.
  - cbn. congruence.
  - eapply (get_validated_complete _ sid); [apply lookup_insert_eq|cbn; by rewrite Hst1|by eexists|done].
Qed.

(** No session is given up.  Whatever state a session is in, unless it is
    published, once it has been there for longer than the timeout and the longest
    backoff, and its peer is alive, one of the next two ticks (the second one
    later than the longest backoff) makes it ask its peer again: at the first
    tick, or, if it was waiting for an answer, at the second. *)
Theorem connectivity_check_retries apart s sid c (now1 now2 : Instant) (rx1 rx2 : option RxProvider)
    (Hr : cpc_reach rand (exponential_backoff_new b) apart s)
    (Hopen : chan_open (cpc_intercoms s) = true)
    (Hc : check_states s !! sid = Some c) (Hst : ep_state c ≠ Published)
    (Halive : ∀ rx, rx1 = Some rx ∨ rx2 = Some rx → is_peer_alive rx (cs_public_key c) = true)
    (Hnow1 : (Z.max CPC_TIMEOUT max < now1 - last_state_transition c)%Z)
    (Hnow2 : (max < now2 - now1)%Z) :
  ∃ s1 s2 sent1 sent2,
    handle_tick_event now1 rx1 s = (Ok tt, s1) ∧
    handle_tick_event now2 rx2 s1 = (Ok tt, s2) ∧
    chan_sent (cpc_intercoms s2) = chan_sent (cpc_intercoms s) ++ sent1 ++ sent2 ∧
    (cs_public_key c, call_me_maybe_new true [candidate_udp (local_endpoint_candidate c)] sid)
      ∈ sent1 ++ sent2 ∧
    ∃ s' c', (s' = s1 ∨ s' = s2) ∧ check_states s' !! sid = Some c' ∧ triple c' = triple c ∧
      ep_state c' = EndpointGathering.
Proof.
  pose proof (cpc_reach_exponential apart s Hr) as Hinv.
  pose proof (ex_ok _ _ _ _ _ _ (ci_exact _ _ _ _ Hinv) sid c Hc) as Hok.
  assert (∀ e, backoff_ok b max e → (get_backoff e <= max)%Z) as Hmax by (intros e [_ He]; apply He).
  destruct (handle_tick_ok (backoff_ok b max) exponential_next_ok rand now1 rx1 apart s Hinv Hopen)
    as (m1 & sent1 & Ht1 & Htick1).
  set (s1 := with_intercoms _ _) in Ht1.
  assert (cpc_inv (backoff_ok b max) rand apart s1) as Hinv1.
  { replace s1 with (handle_tick_event now1 rx1 s).2 by (by rewrite Ht1).
    by apply (handle_tick_inv _ exponential_next_ok). }
  destruct (handle_tick_ok (backoff_ok b max) exponential_next_ok rand now2 rx2 apart s1 Hinv1 eq_refl)
    as (m2 & sent2 & Ht2 & Htick2).
  exists s1. eexists. exists sent1, sent2. split; [done|]. split; [exact Ht2|]. split; [by rewrite app_assoc|].
  destruct (Htick1 sid c Hc) as (c1 & sent1' & Hc1 & Hsub1 & Hasks1 & Hlate1).
  destruct (asks_eventually (backoff_ok b max) now1 rx1 sid c max Hok Hmax) as [?|[Ha|Hl]]; [|lia|lia|done|..].
  { destruct rx1 as [rx|]; [|done]. apply Halive. by left. }
  - destruct (Hasks1 Ha) as (Htr & _ & Hg & _ & ->). split; [apply elem_of_app; left; set_solver|].
    exists s1, c1. auto.
  - specialize (Hlate1 Hl). subst c1. destruct (Htick2 sid _ Hc1) as (c2 & sent2' & Hc2 & Hsub2 & Hasks2 & _).
    assert (ep_state (do_state_transition now1 Timeout c) = EpDisconnected Timeout) as Hd
      by (destruct Hl as [[Hs|Hs] _]; simpl; by rewrite Hs).
    destruct Hasks2 as (Htr & _ & Hg & _ & ->).
    { right. split; [by left|]. unfold should_resend_call_me_maybe_request. simpl.
      pose proof (Hmax _ (so_backoff _ _ _ Hok)) as Hm. simpl in Hm. rewrite bool_decide_true by lia.
      destruct rx2 as [rx|]; [|done]. rewrite Halive by (by right). done. }
    split; [apply elem_of_app; right; set_solver|]. eexists _, c2. split; [by right|]. done.
Qed.
End theorems.

Module CrossPingSamples.
Import ToyCrypto CryptoSamples.

#[local] Existing Instance elements_order.
#[local] Existing Instance elements_order_laws.
#[local] Existing Instance ToyCiphers.

Definition bob_key : PublicKey := secret_key_public bob.

Definition config : MeshConfig :=
  mkMeshConfig (mkPeerBase "a" (secret_key_public alice) "alice" None None)
    (Some [mkMeshPeer (mkPeerBase "b" bob_key "bob" None None) false true false false false false false]).

Definition bounds0 : ExponentialBackoffBounds := backoff_bounds_default.

Definition candidate : EndpointCandidate :=
  mkEndpointCandidate (SocketAddrV4 (ipv4_addr 192 168 1 2) 51820) (SocketAddrV4 (ipv4_addr 192 168 1 2) 6000).

(** The check with one provider, after a configuration and the first endpoint *)
Definition start : CpcState (E:=ExponentialBackoff) (M:=assoc_map) :=
  cpc_start (mkChan true []) (mkChan true []) [mkProvider (Some [candidate]) [] 0] (ping_pong_new alice).

Definition s0 : CpcState (E:=ExponentialBackoff) (M:=assoc_map) :=
  cpc_exec Z.of_nat (exponential_backoff_new bounds0) (OpEndpoints 20 LocalInterfaces [candidate])
    (cpc_exec Z.of_nat (exponential_backoff_new bounds0) (OpConfigure 10 (Some config)) start).

Definition c0 : CheckState ExponentialBackoff :=
  mkCheckState bob_key candidate 0 (EpDisconnected StartUp) 20 None
    (mkExponentialBackoff bounds0 (from_secs 2)) Local.

Lemma s0_reach : ∃ apart : Prop, apart ∧ cpc_reach Z.of_nat (exponential_backoff_new bounds0) apart s0.
Proof.
  eexists. split; [|eapply cpc_reach_step, cpc_reach_step, cpc_reach_start]. split; [done|]. intros t Ht.
  set (c := local_endpoint_cache _). assert (c = mkEndpointCache ∅ ∅ ∅) as -> by (vm_compute; reflexivity).
  destruct t; apply disjoint_empty_r.
Qed.

Lemma s0_session : check_states s0 !! 0%Z = Some c0.
Proof. vm_compute. reflexivity. Qed.

Lemma bounds0_ok : bounds_ok bounds0 (from_secs 120).
Proof. by split_and!. Qed.

Lemma cross_ping_sessions_witness :
  exists ! sid, ∃ c, check_states s0 !! sid = Some c ∧ triple c = (bob_key, Local, candidate).
Proof.
  destruct s0_reach as (apart & Hap & Hr).
  destruct (cross_ping_sessions Z.of_nat bounds0 (from_secs 120) bounds0_ok apart s0 Hr) as (_ & Hone & _).
  apply (Hone Hap) with (k := bob_key) (t := LocalInterfaces) (e := candidate).
  - intros i j Hij _ Heq%Nat2Z.inj. lia.
  - apply (bool_decide_unpack _); vm_compute; reflexivity.
  - apply (bool_decide_unpack _); vm_compute; reflexivity.
Defined.

Definition answer : CallMeMaybeMsg :=
  call_me_maybe_new false [SocketAddrV4 (ipv4_addr 10 0 0 1) 7000] 0.

Definition pong_event : PongEvent :=
  mkPongEvent (SocketAddrV4 (ipv4_addr 10 0 0 1) 7000) 5
    (mkPlaintextPongerMsg 0
      (mkPonger 1000 51821 (Some (source_v4 (ipv4_addr 192 168 1 2))) (endpoint_provider_code Stun))).

Lemma connectivity_check_round_witness :
  ∃ s3 published, handle_pong_rx_event 50 pong_event
      (handle_call_me_maybe_rxed_event 40 bob_key answer (handle_tick_event 30 None s0).2).2 = (Ok tt, s3) ∧
    chan_sent (cpc_publisher s3) = [published] ∧
    (remote_endpoint published).1 = SocketAddrV4 (ipv4_addr 10 0 0 1) 51821.
Proof.
  destruct s0_reach as (apart & _ & Hr).
  destruct (connectivity_check_round Z.of_nat bounds0 (from_secs 120) bounds0_ok apart s0 0 c0 30 40 50 None
    answer pong_event (ipv4_addr 192 168 1 2) Hr)
    as (s1 & s2 & s3 & sent & published & H1 & _ & _ & H2 & _ & H3 & H4 & _ & _ & H5 & _).
  1: split; vm_compute; reflexivity. 1: exact s0_session. 1: done. 1, 2: by split. 1: by left.
  exists s3, published. rewrite H1. cbn [snd]. change bob_key with (cs_public_key c0). rewrite H2. split; [exact H3|].
  split; [exact H4|]. rewrite H5. vm_compute. reflexivity.
Defined.

Lemma connectivity_check_retries_witness :
  ∃ s1 s2 sent, handle_tick_event (from_secs 200) None s0 = (Ok tt, s1) ∧
    handle_tick_event (from_secs 400) None s1 = (Ok tt, s2) ∧
    chan_sent (cpc_intercoms s2) = sent ∧ (bob_key, call_me_maybe_new true [candidate_udp candidate] 0) ∈ sent.
Proof.
  destruct s0_reach as (apart & _ & Hr).
  destruct (connectivity_check_retries Z.of_nat bounds0 (from_secs 120) bounds0_ok apart s0 0 c0
    (from_secs 200) (from_secs 400) None None Hr) as (s1 & s2 & sent1 & sent2 & H1 & H2 & H3 & H4 & _).
  1: vm_compute; reflexivity. 1: exact s0_session. 1: done. 1: by intros ? [?|?]. 1, 2: done.
  exists s1, s2, (sent1 ++ sent2). split; [exact H1|]. split; [exact H2|]. split; [exact H3|exact H4].
Defined.
End CrossPingSamples.
