(* ===== verification/UpgradeSync.v ===== *)
(** * [telio-traversal]: the upgrade synchronisation

    [upgrade_sync.rs]: how two peers agree to move their WireGuard connection to
    a direct endpoint.  A node asks with an [UpgradeMsg] and the peer answers
    with a decision; who may ask is decided by the [UpgradeController], which is
    the cross ping check.

    [UpgradeController] is the interface to the controller, with
    [UpgradeControllerLaws] what is promised by it; the instance for the cross
    ping check follows it.  The time that [Instant::now()] reads is an argument
    of the operations. *)

From S2P Require Import Prelude NetTypes WgTypes LruCache Crypto NetText Proto ProtoProps.
From S2P Require Import PingPong Backoff Firewall Controller Consolidation CrossPing.

Open Scope act_scope.

(** ** Interface *)

(** [trait UpgradeController]; the error of the check is not looked at, nor is
    the result of the notification *)
Class UpgradeController (W : Type) := {
  uc_check_if_upgrade_is_allowed : Instant → Session → PublicKey → W → result CpcError bool * W;
  uc_notify_failed_wg_connection : Instant → PublicKey → W → W
}.

(** [impl UpgradeController for CrossPingCheck] *)
#[export] Instance CpcState_controller {E M} `{!Backoff E, !LinkedHashMap M, !HashOrder Session} :
  UpgradeController (CpcState (E:=E) (M:=M)) := {
  uc_check_if_upgrade_is_allowed now session public_key s :=
    let '(b, s) := check_if_upgrade_is_allowed now session public_key s in (Ok b, s);
  uc_notify_failed_wg_connection := notify_failed_wg_connection
}.

(** ** Data *)

Definition MAX_PENDING_SESSIONS : nat := 512.

(** [Direction<PublicKey>] *)
Inductive Direction := Sent (t : PublicKey) | Received (t : PublicKey).

#[export] Instance Direction_eq_dec : EqDecision Direction.
Proof. solve_decision. Defined.
#[export] Instance Direction_countable : Countable Direction.
Proof.
  apply (inj_countable' (λ d, match d with Sent k => inl k | Received k => inr k end)
    (λ d, match d with inl k => Sent k | inr k => Received k end)). by intros [].
Defined.

(** [Direction::into] *)
Definition direction_into (d : Direction) : PublicKey := match d with Sent t => t | Received t => t end.

#[export] Instance Decision_eq_dec : EqDecision Proto.Decision.
Proof. solve_decision. Defined.

(** [upgrade_sync::Error], as far as it occurs *)
Inductive UpgradeError :=
| SendUpgradeMsgErr
| SendUpgradeDecisionMsgErr
| SendUpgradeRequestChangeEventErr
| Rejected (decision : Proto.Decision).

Inductive UpgradeRequestChangeEvent := upgrade_request_change_event.

Section component.
Context {W : Type} `{!UpgradeController W} {M : Type → Type → Type} `{!LinkedHashMap M}.
Context `{!HashOrder Direction}.

(** [State], of the upgrade synchronisation; its timer is not part of it *)
Record UpgradeState := mkUpgradeState {
  upgrade_request_publisher : Chan UpgradeRequestChangeEvent;
  upgrade_intercoms : Chan (PublicKey * UpgradeMsg);
  upgrade_requests : gmap Direction UpgradeRequest;
  expiration_period : Duration;
  upgrade_controller : W;
  upgrade_decision_intercoms : Chan (PublicKey * UpgradeDecisionMsg);
  pending_direct_sessions : LruCache M Session SessionData;
  accepted_direct_sessions : gmap PublicKey SessionData;
  our_public_key : PublicKey
}.

Abbreviation us A := (act UpgradeState UpgradeError A).

Definition with_request_publisher (c : Chan UpgradeRequestChangeEvent) (s : UpgradeState) : UpgradeState :=
  mkUpgradeState c (upgrade_intercoms s) (upgrade_requests s) (expiration_period s) (upgrade_controller s)
    (upgrade_decision_intercoms s) (pending_direct_sessions s) (accepted_direct_sessions s) (our_public_key s).
Definition with_upgrade_intercoms (c : Chan (PublicKey * UpgradeMsg)) (s : UpgradeState) : UpgradeState :=
  mkUpgradeState (upgrade_request_publisher s) c (upgrade_requests s) (expiration_period s)
    (upgrade_controller s) (upgrade_decision_intercoms s) (pending_direct_sessions s)
    (accepted_direct_sessions s) (our_public_key s).
Definition with_requests (r : gmap Direction UpgradeRequest) (s : UpgradeState) : UpgradeState :=
  mkUpgradeState (upgrade_request_publisher s) (upgrade_intercoms s) r (expiration_period s)
    (upgrade_controller s) (upgrade_decision_intercoms s) (pending_direct_sessions s)
    (accepted_direct_sessions s) (our_public_key s).
Definition with_controller (w : W) (s : UpgradeState) : UpgradeState :=
  mkUpgradeState (upgrade_request_publisher s) (upgrade_intercoms s) (upgrade_requests s)
    (expiration_period s) w (upgrade_decision_intercoms s) (pending_direct_sessions s)
    (accepted_direct_sessions s) (our_public_key s).
Definition with_decision_intercoms (c : Chan (PublicKey * UpgradeDecisionMsg)) (s : UpgradeState) : UpgradeState :=
  mkUpgradeState (upgrade_request_publisher s) (upgrade_intercoms s) (upgrade_requests s)
    (expiration_period s) (upgrade_controller s) c (pending_direct_sessions s) (accepted_direct_sessions s)
    (our_public_key s).
Definition with_pending (p : LruCache M Session SessionData) (s : UpgradeState) : UpgradeState :=
  mkUpgradeState (upgrade_request_publisher s) (upgrade_intercoms s) (upgrade_requests s)
    (expiration_period s) (upgrade_controller s) (upgrade_decision_intercoms s) p (accepted_direct_sessions s)
    (our_public_key s).
Definition with_accepted (a : gmap PublicKey SessionData) (s : UpgradeState) : UpgradeState :=
  mkUpgradeState (upgrade_request_publisher s) (upgrade_intercoms s) (upgrade_requests s)
    (expiration_period s) (upgrade_controller s) (upgrade_decision_intercoms s) (pending_direct_sessions s) a
    (our_public_key s).

(** [UpgradeSync::new] *)
Definition upgrade_sync_new (publisher : Chan UpgradeRequestChangeEvent)
    (intercoms : Chan (PublicKey * UpgradeMsg)) (expiration : Duration) (upgrade_verifier : W)
    (decisions : Chan (PublicKey * UpgradeDecisionMsg)) (our_key : PublicKey) : UpgradeState :=
  mkUpgradeState publisher intercoms ∅ expiration upgrade_verifier decisions
    (lru_new (from_secs 15) MAX_PENDING_SESSIONS) ∅ our_key.

(** ** Operations *)

(** [State::is_expired]; the difference of two instants is not negative *)
Definition request_is_expired (now : Instant) (period : Duration) (r : UpgradeRequest) : bool :=
  bool_decide (period < Z.max 0 (now - requested_at r))%Z.

(** [State::set_public_key] *)
Definition set_public_key (public_key : PublicKey) (s : UpgradeState) : UpgradeState :=
  mkUpgradeState (upgrade_request_publisher s) (upgrade_intercoms s) (upgrade_requests s)
    (expiration_period s) (upgrade_controller s) (upgrade_decision_intercoms s) (pending_direct_sessions s)
    (accepted_direct_sessions s) public_key.

(** The iteration over the requests *)
Definition iter_requests (m : gmap Direction UpgradeRequest) : list (Direction * UpgradeRequest) :=
  omap (λ d, (λ r, (d, r)) <$> m !! d) (hash_iter (dom m)).

(** [get_upgrade_requests]: of two requests of one peer the later in the
    iteration is kept *)
Definition get_upgrade_requests (s : UpgradeState) : gmap PublicKey UpgradeRequest :=
  fold_left (λ acc '(d, r), <[direction_into d := r]> acc) (iter_requests (upgrade_requests s)) ∅.

(** [get_accepted_session] *)
Definition get_accepted_session (public_key : PublicKey) (s : UpgradeState) : option SessionData :=
  accepted_direct_sessions s !! public_key.

(** [clear_accepted_session] *)
Definition clear_accepted_session (public_key : PublicKey) (s : UpgradeState) : UpgradeState :=
  with_accepted (delete public_key (accepted_direct_sessions s)) s.

(** [send] on the three channels *)
Definition send_upgrade_msg (x : PublicKey * UpgradeMsg) : us unit := λ s,
  let '(sent, tx) := chan_send x (upgrade_intercoms s) in
  (if sent then Ok tt else Err SendUpgradeMsgErr, with_upgrade_intercoms tx s).
Definition send_decision (x : PublicKey * UpgradeDecisionMsg) : us unit := λ s,
  let '(sent, tx) := chan_send x (upgrade_decision_intercoms s) in
  (if sent then Ok tt else Err SendUpgradeDecisionMsgErr, with_decision_intercoms tx s).
Definition send_change_event : us unit := λ s,
  let '(sent, tx) := chan_send upgrade_request_change_event (upgrade_request_publisher s) in
  (if sent then Ok tt else Err SendUpgradeRequestChangeEventErr, with_request_publisher tx s).

(** [State::request_upgrade] *)
Definition request_upgrade (now : Instant) (public_key : PublicKey)
    (remote_endpoint local_direct_endpoint : SocketAddr * EndpointType) (session : Session) : us bool :=
  s <-- act_get ;;
  if match upgrade_requests s !! Received public_key with
     | Some r => negb (request_is_expired now (expiration_period s) r)
     | None => false
     end
  then act_ret false
  else
    send_upgrade_msg (public_key,
      mkUpgradeMsg local_direct_endpoint.1 session local_direct_endpoint.2 remote_endpoint.2) ;;;
    act_modify (λ s, with_requests
      (<[Sent public_key := mkUpgradeRequest remote_endpoint.1 now session]> (upgrade_requests s)) s) ;;;
    act_modify (λ s, with_pending
      (lru_insert now session (mkSessionData local_direct_endpoint.2 remote_endpoint.2)
        (pending_direct_sessions s)) s) ;;;
    act_ret true.

(** [request_upgrade] of the trait: an error is [false] *)
Definition request_upgrade_or_default (now : Instant) (public_key : PublicKey)
    (remote_endpoint local_direct_endpoint : SocketAddr * EndpointType) (session : Session)
    (s : UpgradeState) : bool * UpgradeState :=
  match request_upgrade now public_key remote_endpoint local_direct_endpoint session s with
  | (Ok b, s) => (b, s)
  | (Err _, s) => (false, s)
  end.

(** The decision about a request that the controller allows *)
Definition decide_upgrade (now : Instant) (public_key : PublicKey) (s : UpgradeState) : Proto.Decision :=
  match upgrade_requests s !! Sent public_key with
  | Some v =>
      if request_is_expired now (expiration_period s) v then Accepted
      else if bool_decide (our_public_key s =
                 smaller_key_in_meshnet_canonical_order (our_public_key s) public_key)
      then RejectedDueToConcurrentUpgrade
      else Accepted
  | None => Accepted
  end.

(** [check_if_upgrade_is_allowed] of the controller *)
Definition ask_controller (now : Instant) (session : Session) (public_key : PublicKey)
    : us (result CpcError bool) := λ s,
  let '(r, w) := uc_check_if_upgrade_is_allowed now session public_key (upgrade_controller s) in
  (Ok r, with_controller w s).

(** [State::handle_upgrade_request_msg] *)
Definition handle_upgrade_request_msg (now : Instant) (public_key : PublicKey) (upgrade_msg : UpgradeMsg)
    : us unit :=
  allowed <-- ask_controller now (msg_session upgrade_msg) public_key ;;
  match allowed with
  | Ok true =>
      s <-- act_get ;;
      let decision := decide_upgrade now public_key s in
      send_decision (public_key, mkUpgradeDecisionMsg decision (msg_session upgrade_msg)) ;;;
      act_when (negb (bool_decide (decision = Accepted))) (act_fail (Rejected decision)) ;;;
      act_modify (λ s, with_accepted
        (<[public_key := mkSessionData (msg_receiver_endpoint_type upgrade_msg) (msg_endpoint_type upgrade_msg)]>
          (accepted_direct_sessions s)) s)
  | Ok false | Err _ =>
      let decision := RejectedDueToUnknownSession in
      send_decision (public_key, mkUpgradeDecisionMsg decision (msg_session upgrade_msg)) ;;;
      act_fail (Rejected decision)
  end ;;;
  act_modify (λ s, with_requests
    (<[Received public_key := mkUpgradeRequest (msg_endpoint upgrade_msg) now (msg_session upgrade_msg)]>
      (upgrade_requests s)) s) ;;;
  send_change_event.

(** The branch of [wait_with_update] for a decision *)
Definition handle_decision (now : Instant) (public_key : PublicKey) (msg : UpgradeDecisionMsg)
    (s : UpgradeState) : UpgradeState :=
  match decision msg with
  | Accepted =>
      let '(data, pending) := lru_remove (decision_session msg) (pending_direct_sessions s) in
      let s := with_pending pending s in
      match data with
      | Some data => with_accepted (<[public_key := data]> (accepted_direct_sessions s)) s
      | None => s
      end
  | RejectedDueToUnknownSession =>
      match list_find (λ dr : Direction * UpgradeRequest, upgrade_session dr.2 = decision_session msg)
              (iter_requests (upgrade_requests s)) with
      | Some (_, (d, _)) =>
          with_controller (uc_notify_failed_wg_connection now (direction_into d) (upgrade_controller s)) s
      | None => s
      end
  | RejectedDueToConcurrentUpgrade =>
      with_requests (filter (λ dr, ¬ (dr.1 = Sent public_key ∧ upgrade_session dr.2 = decision_session msg))
        (upgrade_requests s)) s
  end.

(** [State::handle_tick]: an event for each expired request; if one cannot be
    sent nothing is removed *)
Definition upgrade_handle_tick (now : Instant) : us unit :=
  s <-- act_get ;;
  act_for (filter (λ dr, request_is_expired now (expiration_period s) dr.2 = true)
    (iter_requests (upgrade_requests s))) (λ _, send_change_event) ;;;
  act_modify (λ s, with_requests
    (filter (λ dr, request_is_expired now (expiration_period s) dr.2 = false) (upgrade_requests s)) s).

(** What the task does in one turn; errors are logged *)
Inductive UpgradeOp :=
| UsRequest (now : Instant) (k : PublicKey) (remote local : SocketAddr * EndpointType) (session : Session)
| UsUpgrade (now : Instant) (k : PublicKey) (msg : UpgradeMsg)
| UsDecision (now : Instant) (k : PublicKey) (msg : UpgradeDecisionMsg)
| UsTick (now : Instant)
| UsSetPublicKey (k : PublicKey)
| UsClear (k : PublicKey).

Definition upgrade_exec (op : UpgradeOp) (s : UpgradeState) : UpgradeState :=
  match op with
  | UsRequest now k remote local session => (request_upgrade_or_default now k remote local session s).2
  | UsUpgrade now k msg => (handle_upgrade_request_msg now k msg s).2
  | UsDecision now k msg => handle_decision now k msg s
  | UsTick now => (upgrade_handle_tick now s).2
  | UsSetPublicKey k => set_public_key k s
  | UsClear k => clear_accepted_session k s
  end.
End component.
