(* ===== verification/UpgradeSyncProps.v ===== *)
(** * The upgrade synchronisation: two nodes agree

    Two nodes that ask each other for an upgrade, with any interleaving of their
    requests and of the deliveries of their messages, agree on one of the two
    requests; and a node accepts a request only for a session that the asking
    peer announced. *)

From S2P Require Import Prelude NetTypes WgTypes LruCache Crypto NetText Proto ProtoProps.
From S2P Require Import PingPong Backoff Firewall Controller Consolidation CrossPing.
From S2P Require Import CrossPingProps UpgradeSync.

Open Scope act_scope.

Create HintDb keeps discriminated.

(** ** The order of the keys *)

Lemma smaller_key_comm a b :
  smaller_key_in_meshnet_canonical_order a b = smaller_key_in_meshnet_canonical_order b a.
Proof.
  unfold smaller_key_in_meshnet_canonical_order, meshnet_canonical_key_order.
  rewrite (bytes_cmp_antisym (key_bytes a) (key_bytes b)).
  destruct (bytes_cmp (key_bytes a) (key_bytes b)) eqn:Hc; simpl; [|done..].
  apply bytes_cmp_eq in Hc. destruct a, b. simpl in *. by subst.
Qed.

Lemma smaller_key_cases a b :
  smaller_key_in_meshnet_canonical_order a b = a ∨ smaller_key_in_meshnet_canonical_order a b = b.
Proof. unfold smaller_key_in_meshnet_canonical_order. case_match; auto. Qed.

(** ** What the controller promises *)

(** The controller allows upgrades for [session] of the peer [k] throughout a
    period, however often it is asked. *)
Class UpgradeControllerLaws (W : Type) `{!UpgradeController W} := {
  uc_allows : Instant → Instant → Session → PublicKey → W → Prop;
  uc_allows_check t0 t1 now session k w :
    uc_allows t0 t1 session k w → (t0 <= now <= t1)%Z →
    ∃ w', uc_check_if_upgrade_is_allowed now session k w = (Ok true, w') ∧ uc_allows t0 t1 session k w'
}.

(** ** Two nodes *)

Inductive Side := SideA | SideB.
Definition other (sd : Side) : Side := match sd with SideA => SideB | SideB => SideA end.
#[export] Instance Side_eq_dec : EqDecision Side.
Proof. solve_decision. Defined.

Lemma other_other sd : other (other sd) = sd.
Proof. by destruct sd. Qed.

(** The arguments of a call of [request_upgrade] *)
Record Call := mkCall {
  call_remote : SocketAddr * EndpointType;
  call_local : SocketAddr * EndpointType;
  call_session : Session
}.

Section net.
Context {W : Type} `{!UpgradeController W} {M : Type → Type → Type} `{!LinkedHashMap M}.
Context `{!HashOrder Direction}.
Abbreviation State := (UpgradeState (W:=W) (M:=M)).

(** The nodes, and what their calls returned so far.  The messages in flight
    are those in the sending channels. *)
Record Net := mkNet {
  net_node : Side → State;
  net_result : Side → option bool
}.

Definition set_node (sd : Side) (s : State) (n : Net) : Net :=
  mkNet (λ sd', if decide (sd' = sd) then s else net_node n sd') (net_result n).
Definition set_result (sd : Side) (b : bool) (n : Net) : Net :=
  mkNet (net_node n) (λ sd', if decide (sd' = sd) then Some b else net_result n sd').

Context (key : Side → PublicKey) (call : Side → Call) (t0 t1 : Instant).

(** A step: a node makes its call, or the oldest request or decision of a
    node reaches the other one *)
Inductive net_step : Net → Net → Prop :=
| step_request sd now n b s :
    (t0 <= now <= t1)%Z → net_result n sd = None →
    request_upgrade_or_default now (key (other sd)) (call_remote (call sd)) (call_local (call sd))
      (call_session (call sd)) (net_node n sd) = (b, s) →
    net_step n (set_result sd b (set_node sd s n))
| step_upgrade sd now n k msg rest :
    (t0 <= now <= t1)%Z → chan_sent (upgrade_intercoms (net_node n sd)) = (k, msg) :: rest →
    net_step n (set_node (other sd) (handle_upgrade_request_msg now (key sd) msg (net_node n (other sd))).2
      (set_node sd (with_upgrade_intercoms (mkChan true rest) (net_node n sd)) n))
| step_decision sd now n k msg rest :
    (t0 <= now <= t1)%Z → chan_sent (upgrade_decision_intercoms (net_node n sd)) = (k, msg) :: rest →
    net_step n (set_node (other sd) (handle_decision now (key sd) msg (net_node n (other sd)))
      (set_node sd (with_decision_intercoms (mkChan true rest) (net_node n sd)) n)).

(** A run of [i] steps *)
Inductive net_run (n0 : Net) : nat → Net → Prop :=
| run_start : net_run n0 0 n0
| run_step i n n' : net_run n0 i n → net_step n n' → net_run n0 (S i) n'.

(** No message is in flight. *)
Definition net_quiet (n : Net) : Prop :=
  ∀ sd, chan_sent (upgrade_intercoms (net_node n sd)) = [] ∧
        chan_sent (upgrade_decision_intercoms (net_node n sd)) = [].

(** Fresh nodes that may upgrade *)
Definition net_start `{!UpgradeControllerLaws W} (n : Net) : Prop := ∀ sd,
  net_result n sd = None ∧
  ∃ period w, (t1 - t0 <= period)%Z ∧
    uc_allows t0 t1 (call_session (call (other sd))) (key (other sd)) w ∧
    net_node n sd = upgrade_sync_new (mkChan true []) (mkChan true []) period w (mkChan true []) (key sd).

(** The nodes agree on the request of [w]: it is the only one that is in force
    on either side, with the endpoints of the two sides, and both know the kinds
    of the endpoints. *)
Definition net_agreed (w : Side) (n : Net) : Prop :=
  let c := call w in
  (∃ t, upgrade_requests (net_node n w) =
    {[Sent (key (other w)) := mkUpgradeRequest (call_remote c).1 t (call_session c)]}) ∧
  (∃ t, upgrade_requests (net_node n (other w)) =
    {[Received (key w) := mkUpgradeRequest (call_local c).1 t (call_session c)]}) ∧
  get_accepted_session (key (other w)) (net_node n w) =
    Some (mkSessionData (call_local c).2 (call_remote c).2) ∧
  get_accepted_session (key w) (net_node n (other w)) =
    Some (mkSessionData (call_remote c).2 (call_local c).2).
End net.

(** ** The progress of a request

    Where the request of a node is: [t] is when it was made, [ta] when it was
    answered. *)

Inductive Status :=
| Idle
| Declined
| Flying (t : Instant)
| Answered (t : Instant) (d : Proto.Decision) (ta : Instant)
| Settled (t : Instant) (d : Proto.Decision) (ta : Instant).

(** The request as its sender has it *)
Definition own_request (c : Call) (x : Status) : option UpgradeRequest :=
  match x with
  | Flying t | Answered t _ _ | Settled t Accepted _ =>
      Some (mkUpgradeRequest (call_remote c).1 t (call_session c))
  | _ => None
  end.

(** The request as its receiver has it *)
Definition peer_request (c : Call) (x : Status) : option UpgradeRequest :=
  match x with
  | Answered _ Accepted ta | Settled _ Accepted ta =>
      Some (mkUpgradeRequest (call_local c).1 ta (call_session c))
  | _ => None
  end.

Definition own_data (c : Call) : SessionData := mkSessionData (call_local c).2 (call_remote c).2.
Definition peer_data (c : Call) : SessionData := mkSessionData (call_remote c).2 (call_local c).2.

(** The session that a node has accepted, from its own request [x] and its
    peer's [y] *)
Definition accepted_data (c c' : Call) (x y : Status) : option SessionData :=
  match peer_request c' y, x with
  | Some _, _ => Some (peer_data c')
  | None, Settled _ Accepted _ => Some (own_data c)
  | None, _ => None
  end.

Definition pending_entries (c : Call) (x : Status) : list (Session * TimedValue SessionData) :=
  match x with
  | Flying t | Answered t _ _ | Settled t (RejectedDueToConcurrentUpgrade | RejectedDueToUnknownSession) _ =>
      [(call_session c, mkTimedValue (own_data c) t)]
  | _ => []
  end.

Definition flying_messages (k : PublicKey) (c : Call) (x : Status) : list (PublicKey * UpgradeMsg) :=
  match x with
  | Flying _ => [(k, mkUpgradeMsg (call_local c).1 (call_session c) (call_local c).2 (call_remote c).2)]
  | _ => []
  end.

Definition flying_decisions (k : PublicKey) (c : Call) (y : Status) : list (PublicKey * UpgradeDecisionMsg) :=
  match y with
  | Answered _ d _ => [(k, mkUpgradeDecisionMsg d (call_session c))]
  | _ => []
  end.

Definition status_result (x : Status) : option bool :=
  match x with Idle => None | Declined => Some false | _ => Some true end.

Definition accepted_status (x : Status) : bool :=
  match x with Answered _ Accepted _ | Settled _ Accepted _ => true | _ => false end.
Definition rejected_status (x : Status) : bool :=
  match x with
  | Answered _ RejectedDueToConcurrentUpgrade _ | Settled _ RejectedDueToConcurrentUpgrade _ => true
  | _ => false
  end.

(** The pairs of a status [x] of the node with the smaller key and a status [y]
    of the other node that can occur *)
Definition compatible (x y : Status) : bool :=
  match x, y with
  | Idle, (Idle | Flying _) => true
  | Idle, _ => accepted_status y
  | Declined, _ => accepted_status y
  | Flying _, (Idle | Flying _) => true
  | Flying _, _ => rejected_status y
  | _, (Idle | Declined | Flying _) => accepted_status x
  | _, _ => accepted_status x && rejected_status y
  end.

(** The steps that are left *)
Definition steps_left (x : Status) : nat :=
  match x with Idle => 3 | Flying _ => 2 | Answered _ _ _ => 1 | Declined | Settled _ _ _ => 0 end.

Section node.
Context {W : Type} `{!UpgradeController W, !UpgradeControllerLaws W}.
Context {M : Type → Type → Type} `{!LinkedHashMap M, !LinkedHashMapLaws M}.
Context `{!HashOrder Direction}.
Context (k k' : PublicKey) (c c' : Call) (t0 t1 : Instant).
Abbreviation State := (UpgradeState (W:=W) (M:=M)).
Implicit Types (s : State) (x y : Status) (now : Instant).

(** A node with the key [k] that calls with [c], whose peer has the key [k'] and
    calls with [c']; its request is at [x], the one of its peer at [y]. *)
Record node_ok x y s : Prop := {
  no_requests d : upgrade_requests s !! d =
    match d with
    | Sent k0 => if decide (k0 = k') then own_request c x else None
    | Received k0 => if decide (k0 = k') then peer_request c' y else None
    end;
  no_times r d : upgrade_requests s !! d = Some r → (t0 <= requested_at r)%Z;
  no_pending : entries (pending_direct_sessions s) = pending_entries c x;
  no_capacity : lru_capacity (pending_direct_sessions s) = MAX_PENDING_SESSIONS;
  no_accepted k0 : accepted_direct_sessions s !! k0 =
    if decide (k0 = k') then accepted_data c c' x y else None;
  no_messages : upgrade_intercoms s = mkChan true (flying_messages k' c x);
  no_decisions : upgrade_decision_intercoms s = mkChan true (flying_decisions k' c' y);
  no_publisher : chan_open (upgrade_request_publisher s) = true;
  no_key : our_public_key s = k;
  no_period : (t1 - t0 <= expiration_period s)%Z;
  no_allows : uc_allows t0 t1 (call_session c') k' (upgrade_controller s)
}.

Lemma not_expired x y s d r now :
  node_ok x y s → (t0 <= now <= t1)%Z → upgrade_requests s !! d = Some r →
  request_is_expired now (expiration_period s) r = false.
Proof.
  intros Hs Hnow Hr. pose proof (no_times _ _ _ Hs _ _ Hr). pose proof (no_period _ _ _ Hs).
  unfold request_is_expired. apply bool_decide_eq_false. lia.
Qed.

(** The call is declined if the peer's request was accepted. *)
Lemma node_declines x y s now :
  node_ok x y s → (t0 <= now <= t1)%Z → peer_request c' y ≠ None →
  request_upgrade_or_default now k' (call_remote c) (call_local c) (call_session c) s = (false, s).
Proof.
  intros Hs Hnow Hy. unfold request_upgrade_or_default, request_upgrade, act_bind at 1, act_get.
  pose proof (no_requests _ _ _ Hs (Received k')) as Hr. simpl in Hr. rewrite decide_True in Hr by done.
  destruct (peer_request c' y) as [r|] eqn:Hp; [|done]. rewrite Hr. by rewrite (not_expired x y s _ _ now Hs Hnow Hr).
Qed.

Lemma node_declined y s : node_ok Idle y s → node_ok Declined y s.
Proof. by intros []. Qed.

(** Otherwise the request is sent. *)
Lemma node_requests y s now :
  node_ok Idle y s → (t0 <= now <= t1)%Z → peer_request c' y = None →
  ∃ s', request_upgrade_or_default now k' (call_remote c) (call_local c) (call_session c) s = (true, s') ∧
    node_ok (Flying now) y s'.
Proof.
  intros [Hr Ht Hp Hcap Ha Hm Hd Hpub Hk Hper Hal] Hnow Hy.
  unfold request_upgrade_or_default, request_upgrade, act_bind at 1, act_get.
  pose proof (Hr (Received k')) as Hrk. simpl in Hrk. rewrite decide_True, Hy in Hrk by done. rewrite Hrk.
  unfold act_bind, send_upgrade_msg, chan_send. rewrite Hm. simpl. eexists. split; [reflexivity|].
  split; simpl; try done.
  - intros d. destruct (decide (d = Sent k')) as [->|Hne].
    + rewrite lookup_insert_eq. by rewrite decide_True.
    + rewrite lookup_insert_ne by done. rewrite Hr. destruct d as [k0|]; [|done].
      by rewrite !decide_False by congruence.
  - intros r d [[_ <-]|[_ Hd']]%lookup_insert_Some; [simpl; lia|by eapply Ht].
  - by rewrite entries_insert, Hcap, Hp.
Qed.

(** The message leaves the sender. *)
Lemma node_popped t d ta y s :
  node_ok (Flying t) y s → node_ok (Answered t d ta) y (with_upgrade_intercoms (mkChan true []) s).
Proof. by intros []. Qed.

(** The decision about the peer's request *)
Definition node_decision x : Proto.Decision :=
  match own_request c x with
  | Some _ => if decide (k = smaller_key_in_meshnet_canonical_order k k')
              then RejectedDueToConcurrentUpgrade else Accepted
  | None => Accepted
  end.

Lemma node_answers x t s now :
  node_ok x (Flying t) s → (t0 <= now <= t1)%Z →
  node_ok x (Answered t (node_decision x) now)
    (handle_upgrade_request_msg now k'
      (mkUpgradeMsg (call_local c').1 (call_session c') (call_local c').2 (call_remote c').2) s).2.
Proof.
  intros Hs Hnow. pose proof Hs as [Hr Ht Hp Hcap Ha Hm Hd Hpub Hk Hper Hal].
  destruct (uc_allows_check t0 t1 now _ _ _ Hal Hnow) as (w' & Hchk & Hal').
  unfold handle_upgrade_request_msg, act_bind at 1, ask_controller. simpl msg_session. rewrite Hchk.
  assert (decide_upgrade now k' (with_controller w' s) = node_decision x) as Hdec.
  { unfold decide_upgrade, node_decision. simpl. pose proof (Hr (Sent k')) as Hrk. simpl in Hrk.
    rewrite decide_True in Hrk by done. rewrite Hrk. destruct (own_request c x) as [r|]; [|done].
    rewrite (not_expired _ _ _ _ _ _ Hs Hnow Hrk). rewrite Hk. by case_bool_decide; case_decide. }
  unfold act_bind, act_get, send_decision, chan_send. cbn [upgrade_decision_intercoms with_controller].
  rewrite Hd, Hdec. cbn [chan_open chan_sent flying_decisions app].
  assert (node_decision x = Accepted ∨ node_decision x = RejectedDueToConcurrentUpgrade) as [->| ->].
  { unfold node_decision. destruct (own_request c x); [case_decide|]; auto. }
  - simpl. unfold send_change_event, chan_send. simpl. rewrite Hpub. simpl. split; simpl; try done.
    + intros d. destruct (decide (d = Received k')) as [->|Hne].
      * rewrite lookup_insert_eq. by rewrite decide_True.
      * rewrite lookup_insert_ne by done. rewrite Hr. destruct d as [|k0]; [done|].
        by rewrite !decide_False by congruence.
    + intros r d [[_ <-]|[_ Hd']]%lookup_insert_Some; [simpl; lia|by eapply Ht].
    + intros k0. destruct (decide (k0 = k')) as [->|Hne]; [by rewrite lookup_insert_eq|].
      rewrite lookup_insert_ne by done. by rewrite Ha, decide_False.
  - simpl. by split.
Qed.

(** The decision leaves the node that made it. *)
Lemma node_decision_popped x t d ta s :
  node_ok x (Answered t d ta) s → node_ok x (Settled t d ta) (with_decision_intercoms (mkChan true []) s).
Proof. intros []. split; try done. Qed.

(** The decision reaches the node that asked. *)
Lemma node_settles t d ta y s now :
  node_ok (Answered t d ta) y s → d ≠ RejectedDueToUnknownSession →
  (d = Accepted → peer_request c' y = None) →
  node_ok (Settled t d ta) y (handle_decision now k' (mkUpgradeDecisionMsg d (call_session c)) s).
Proof.
  intros [Hr Ht Hp Hcap Ha Hm Hd Hpub Hk Hper Hal] Hu Hacc. unfold handle_decision. cbn [decision decision_session].
  destruct d; [|done|].
  - assert (lru_remove (call_session c) (pending_direct_sessions s) =
      (Some (own_data c), (lru_remove (call_session c) (pending_direct_sessions s)).2)) as ->.
    { unfold lru_remove at 1 2. simpl. f_equal. rewrite lhm_get_iter. fold (entries (pending_direct_sessions s)).
      rewrite Hp. simpl. by rewrite decide_True. }
    split; simpl; try done.
    + change (with_map _ _) with (lru_remove (call_session c) (pending_direct_sessions s)).2.
      rewrite entries_remove, Hp. unfold adel. simpl. by rewrite filter_cons_False by (simpl; tauto).
    + intros k0. destruct (decide (k0 = k')) as [->|Hne].
      * rewrite lookup_insert_eq. unfold accepted_data. by rewrite Hacc.
      * rewrite lookup_insert_ne by done. by rewrite Ha, decide_False.
  - split; simpl; try done.
    + intros d. destruct (decide (d = Sent k')) as [->|Hne].
      * rewrite decide_True by done. apply map_lookup_filter_None. right. intros r Hr' Hn. apply Hn.
        split; [done|]. rewrite Hr in Hr'. simpl in Hr'. rewrite decide_True in Hr' by done. by simplify_eq.
      * transitivity (upgrade_requests s !! d).
        { rewrite map_lookup_filter. destruct (upgrade_requests s !! d); simpl; [|done].
          rewrite option_guard_True; [done|]. by intros [? _]. }
        rewrite Hr. destruct d as [k0|k0]; [|done]. by rewrite !decide_False by congruence.
    + intros r d [Hd' _]%map_lookup_filter_Some. by eapply Ht.
Qed.
End node.

(** ** The two requests together *)

Lemma peer_request_accepted c x : accepted_status x = true ↔ peer_request c x ≠ None.
Proof. by destruct x as [| | |t [] ta|t [] ta]. Qed.

Lemma peer_request_None c x : accepted_status x = false ↔ peer_request c x = None.
Proof. by destruct x as [| | |t [] ta|t [] ta]. Qed.

Lemma compatible_requests x y now :
  (compatible Idle y = true → accepted_status y = false → compatible (Flying now) y = true) ∧
  (compatible Idle y = true → accepted_status y = true → compatible Declined y = true) ∧
  (compatible x Idle = true → accepted_status x = false → compatible x (Flying now) = true) ∧
  (compatible x Idle = true → accepted_status x = true → compatible x Declined = true).
Proof.
  split_and!; [destruct y as [| | |t [] ta|t [] ta]..|destruct x as [| | |t [] ta|t [] ta]|
    destruct x as [| | |t [] ta|t [] ta]]; done.
Qed.

Lemma compatible_answers x y c t ta :
  (compatible (Flying t) y = true → compatible (Answered t Accepted ta) y = true) ∧
  (compatible x (Flying t) = true → compatible x (Answered t
    match own_request c x with Some _ => RejectedDueToConcurrentUpgrade | None => Accepted end ta) = true).
Proof. split; [destruct y as [| | |? [] ?|? [] ?]|destruct x as [| | |? [] ?|? [] ?]]; done. Qed.

Lemma compatible_settles x y t d ta :
  (compatible (Answered t d ta) y = true →
    compatible (Settled t d ta) y = true ∧ d ≠ RejectedDueToUnknownSession ∧
    (d = Accepted → accepted_status y = false)) ∧
  (compatible x (Answered t d ta) = true →
    compatible x (Settled t d ta) = true ∧ d ≠ RejectedDueToUnknownSession ∧
    (d = Accepted → accepted_status x = false)).
Proof.
  split; [destruct y as [| | |? [] ?|? [] ?], d|destruct x as [| | |? [] ?|? [] ?], d]; try done; by split_and!.
Qed.

Section agreement.
Context {W : Type} `{!UpgradeController W, !UpgradeControllerLaws W}.
Context {M : Type → Type → Type} `{!LinkedHashMap M, !LinkedHashMapLaws M}.
Context `{!HashOrder Direction}.
Context (key : Side → PublicKey) (call : Side → Call) (t0 t1 : Instant).
Context (small : Side).
Hypothesis key_ne : key SideA ≠ key SideB.
Hypothesis key_small : smaller_key_in_meshnet_canonical_order (key small) (key (other small)) = key small.
Implicit Types (n : Net (W:=W) (M:=M)) (st : Side → Status) (sd : Side).

Lemma sides (P : Side → Prop) sd : P sd → P (other sd) → ∀ sd', P sd'.
Proof. intros. by destruct sd, sd'. Qed.

Lemma other_ne sd : other sd ≠ sd.
Proof. by destruct sd. Qed.

Lemma key_other_ne sd : key (other sd) ≠ key sd.
Proof. destruct sd; simpl; congruence. Qed.

(** The compatibility of the two statuses, from the side [sd] *)
Definition compatible_at sd x y : bool := if decide (sd = small) then compatible x y else compatible y x.

Lemma compatible_at_other sd x y : compatible_at (other sd) x y = compatible_at sd y x.
Proof. unfold compatible_at. destruct sd, small; done. Qed.

Abbreviation ok sd := (node_ok (key sd) (key (other sd)) (call sd) (call (other sd)) t0 t1).

Record net_inv (i : nat) (st : Side → Status) n : Prop := {
  ni_node sd : ok sd (st sd) (st (other sd)) (net_node n sd);
  ni_compatible sd : compatible_at sd (st sd) (st (other sd)) = true;
  ni_result sd : net_result n sd = status_result (st sd);
  ni_steps : i + steps_left (st SideA) + steps_left (st SideB) <= 6
}.

Definition upd sd x st : Side → Status := λ sd', if decide (sd' = sd) then x else st sd'.

Lemma upd_eq sd x st : upd sd x st sd = x.
Proof. unfold upd. by rewrite decide_True. Qed.
Lemma upd_other sd x st : upd sd x st (other sd) = st (other sd).
Proof. unfold upd. by rewrite decide_False by apply other_ne. Qed.

(** A step moves the request of [sd] to [x]. *)
Lemma net_inv_upd i st n n' sd x :
  net_inv i st n → steps_left x < steps_left (st sd) →
  ok sd x (st (other sd)) (net_node n' sd) →
  ok (other sd) (st (other sd)) x (net_node n' (other sd)) →
  compatible_at sd x (st (other sd)) = true →
  net_result n' sd = status_result x → net_result n' (other sd) = net_result n (other sd) →
  net_inv (S i) (upd sd x st) n'.
Proof.
  intros [Hn Hc Hr Hs] Hlt H1 H2 Hc' Hr1 Hr2. split.
  - apply (sides _ sd).
    + by rewrite upd_eq, upd_other.
    + rewrite (other_other sd) in *. by rewrite upd_eq, upd_other.
  - apply (sides _ sd).
    + by rewrite upd_eq, upd_other.
    + rewrite compatible_at_other, other_other, upd_eq, upd_other. done.
  - apply (sides _ sd); [by rewrite upd_eq|]. by rewrite upd_other, Hr2.
  - destruct sd; unfold upd; simpl in *; lia.
Qed.

(** Moving to [x] is not visible to the peer. *)
Lemma node_ok_peer k k' c c' x y y' (s : UpgradeState (W:=W) (M:=M)) :
  node_ok k k' c c' t0 t1 x y s → peer_request c' y' = peer_request c' y →
  flying_decisions k' c' y' = flying_decisions k' c' y → node_ok k k' c c' t0 t1 x y' s.
Proof. intros [] H1 H2. split; try done; unfold accepted_data; rewrite ?H1, ?H2; done. Qed.

Lemma compatible_at_request sd y now :
  compatible_at sd Idle y = true →
  compatible_at sd (if accepted_status y then Declined else Flying now) y = true.
Proof.
  unfold compatible_at. pose proof (compatible_requests y y now) as (H1 & H2 & H3 & H4).
  case_decide; destruct (accepted_status y); auto.
Qed.

Lemma net_inv_request i st n sd now b s :
  net_inv i st n → (t0 <= now <= t1)%Z → net_result n sd = None →
  request_upgrade_or_default now (key (other sd)) (call_remote (call sd)) (call_local (call sd))
    (call_session (call sd)) (net_node n sd) = (b, s) →
  net_inv (S i) (upd sd (if accepted_status (st (other sd)) then Declined else Flying now) st)
    (set_result sd b (set_node sd s n)).
Proof.
  intros Hinv Hnow Hres Hreq. pose proof Hinv as [Hn Hc Hr _].
  assert (st sd = Idle) as Hidle by (rewrite Hr in Hres; by destruct (st sd)).
  pose proof (Hn sd) as Hsd. pose proof (Hc sd) as Hcsd. rewrite Hidle in Hsd, Hcsd.
  assert (net_node (set_result sd b (set_node sd s n)) sd = s) as Hg1 by (simpl; by rewrite decide_True).
  assert (net_node (set_result sd b (set_node sd s n)) (other sd) = net_node n (other sd)) as Hg2
    by (simpl; by rewrite decide_False by apply other_ne).
  pose proof (Hn (other sd)) as Ho. rewrite other_other, Hidle in Ho.
  pose proof (compatible_at_request sd (st (other sd)) now Hcsd) as Hc'.
  assert (ok sd (if accepted_status (st (other sd)) then Declined else Flying now) (st (other sd)) s ∧
    b = negb (accepted_status (st (other sd)))) as [Hsd' Hb].
  { destruct (accepted_status (st (other sd))) eqn:Hacc.
    - rewrite (node_declines _ _ _ _ _ _ _ _ _ _ Hsd Hnow) in Hreq by (by apply peer_request_accepted).
      simplify_eq. split; [by apply node_declined|done].
    - destruct (node_requests _ _ _ _ _ _ _ _ now Hsd Hnow) as (s' & Hs' & Hok); [by apply peer_request_None|].
      rewrite Hs' in Hreq. by simplify_eq. }
  eapply net_inv_upd; [done|rewrite Hidle; case_match; simpl; lia|by rewrite Hg1|rewrite Hg2|done|..].
  - eapply node_ok_peer; [by rewrite other_other| |]; by case_match.
  - simpl. rewrite decide_True, Hb by done. by case_match.
  - simpl. by rewrite decide_False by apply other_ne.
Qed.

Lemma compatible_at_answer sd t y now :
  compatible_at sd (Flying t) y = true →
  compatible_at sd (Answered t (node_decision (key (other sd)) (key sd) (call (other sd)) y) now) y = true.
Proof.
  unfold compatible_at, node_decision. pose proof (compatible_answers y y (call (other sd)) t now) as [H1 H2].
  case_decide as Hsd.
  - intros Hc. subst sd. rewrite decide_False; [destruct (own_request _ y); auto|].
    rewrite smaller_key_comm, key_small. apply key_other_ne.
  - intros Hc. assert (other sd = small) as Hos by (by destruct sd, small). rewrite decide_True; [auto|].
    rewrite Hos. replace sd with (other small) by (by rewrite <-Hos, other_other). by rewrite key_small.
Qed.

(** What is in flight, from the node that sends it *)
Lemma flying_cons k c x m rest :
  flying_messages k c x = m :: rest → ∃ t, x = Flying t ∧ rest = [] ∧
    m = (k, mkUpgradeMsg (call_local c).1 (call_session c) (call_local c).2 (call_remote c).2).
Proof. destruct x; simpl; intros [= <- <-]. by eexists. Qed.

Lemma decisions_cons k c y m rest :
  flying_decisions k c y = m :: rest → ∃ t d ta, y = Answered t d ta ∧ rest = [] ∧
    m = (k, mkUpgradeDecisionMsg d (call_session c)).
Proof. destruct y; simpl; intros [= <- <-]. by eexists _, _, _. Qed.

Lemma set_nodes sd s1 s2 n :
  net_node (set_node (other sd) s2 (set_node sd s1 n)) sd = s1 ∧
  net_node (set_node (other sd) s2 (set_node sd s1 n)) (other sd) = s2.
Proof. split; by destruct sd. Qed.

Lemma net_inv_upgrade i st n sd now k msg rest :
  net_inv i st n → (t0 <= now <= t1)%Z → chan_sent (upgrade_intercoms (net_node n sd)) = (k, msg) :: rest →
  ∃ st', net_inv (S i) st'
    (set_node (other sd) (handle_upgrade_request_msg now (key sd) msg (net_node n (other sd))).2
      (set_node sd (with_upgrade_intercoms (mkChan true rest) (net_node n sd)) n)).
Proof.
  intros Hinv Hnow Hch. pose proof Hinv as [Hn Hc Hr _].
  pose proof (Hn sd) as Hsd. rewrite (no_messages _ _ _ _ _ _ _ _ _ Hsd) in Hch. simpl in Hch.
  apply flying_cons in Hch as (t & Hx & -> & [= _ ->]).
  pose proof (Hc sd) as Hcsd. pose proof (Hn (other sd)) as Ho. rewrite other_other in Ho. rewrite Hx in Hsd, Hcsd, Ho.
  pose proof (node_answers _ _ _ _ _ _ _ _ _ now Ho Hnow) as Ha.
  eexists (upd sd (Answered t _ now) st). eapply net_inv_upd; [done|rewrite Hx; simpl; lia| | |..];
    rewrite ?(proj1 (set_nodes _ _ _ _)), ?(proj2 (set_nodes _ _ _ _)).
  - by eapply node_popped.
  - rewrite other_other. exact Ha.
  - by apply compatible_at_answer.
  - simpl. by rewrite Hr, Hx.
  - done.
Qed.

Lemma compatible_at_settle sd t d ta y :
  compatible_at sd (Answered t d ta) y = true →
  compatible_at sd (Settled t d ta) y = true ∧ d ≠ RejectedDueToUnknownSession ∧
  (d = Accepted → accepted_status y = false).
Proof.
  unfold compatible_at. pose proof (compatible_settles y y t d ta) as [H1 H2]. case_decide; auto.
Qed.

Lemma net_inv_decision i st n sd now k msg rest :
  net_inv i st n → chan_sent (upgrade_decision_intercoms (net_node n sd)) = (k, msg) :: rest →
  ∃ st', net_inv (S i) st'
    (set_node (other sd) (handle_decision now (key sd) msg (net_node n (other sd)))
      (set_node sd (with_decision_intercoms (mkChan true rest) (net_node n sd)) n)).
Proof.
  intros Hinv Hch. pose proof Hinv as [Hn Hc Hr _].
  pose proof (Hn sd) as Hsd. rewrite (no_decisions _ _ _ _ _ _ _ _ _ Hsd) in Hch. simpl in Hch.
  apply decisions_cons in Hch as (t & d & ta & Hx & -> & [= _ ->]).
  pose proof (Hc (other sd)) as Hco. pose proof (Hn (other sd)) as Ho. rewrite other_other in Ho, Hco.
  rewrite Hx in Hsd, Hco, Ho. apply compatible_at_settle in Hco as (Hco & Hu & Hacc).
  exists (upd (other sd) (Settled t d ta) st).
  eapply net_inv_upd; rewrite ?other_other; [done|rewrite Hx; simpl; lia| | |..];
    rewrite ?(proj1 (set_nodes _ _ _ _)), ?(proj2 (set_nodes _ _ _ _)).
  - apply node_settles; [done..|]. intros Hd. by apply peer_request_None, Hacc.
  - by apply node_decision_popped.
  - done.
  - simpl. by rewrite Hr, Hx.
  - done.
Qed.

Lemma net_run_inv n0 i n :
  net_start key call t0 t1 n0 → net_run key call t0 t1 n0 i n → ∃ st, net_inv i st n.
Proof.
  intros H0 Hrun. induction Hrun as [|i n n' _ [st Hinv] Hstep].
  - exists (λ _, Idle). split; simpl; [|intros sd; unfold compatible_at; by case_decide|intros sd; apply H0|lia].
    intros sd. destruct (H0 sd) as (_ & period & w & Hp & Hw & ->). split; simpl; try done.
    + intros []; rewrite lookup_empty; by case_decide.
    + unfold entries, lru_new. simpl. by rewrite lhm_iter_default.
    + intros k0. rewrite lookup_empty. by case_decide.
  - destruct Hstep; [eexists; by eapply net_inv_request|by eapply net_inv_upgrade|by eapply net_inv_decision].
Qed.

(** The request of [w] was accepted, and the other one came to nothing. *)
Lemma net_inv_agreed i st n w t ta :
  net_inv i st n → st w = Settled t Accepted ta →
  own_request (call (other w)) (st (other w)) = None → accepted_status (st (other w)) = false →
  net_agreed key call w n.
Proof.
  intros [Hn _ _ _] Hw Ho Hacc. pose proof (Hn w) as [Hr _ _ _ Ha _ _ _ _ _ _].
  pose proof (Hn (other w)) as [Hr' _ _ _ Ha' _ _ _ _ _ _]. rewrite other_other in Hr', Ha'. rewrite Hw in *.
  pose proof (proj1 (peer_request_None (call (other w)) _) Hacc) as Hp.
  assert (∀ k0, accepted_data (call (other w)) k0 (st (other w)) (Settled t Accepted ta) =
    Some (peer_data k0)) as Hd by done.
  split_and!.
  - exists t. apply map_eq. intros d. rewrite Hr. destruct d as [k0|k0].
    + case_decide as Hk; [subst; by rewrite lookup_singleton_eq|]. symmetry. apply lookup_singleton_ne. congruence.
    + rewrite Hp. rewrite lookup_singleton_ne by done. by case_decide.
  - exists ta. apply map_eq. intros d. rewrite Hr'. destruct d as [k0|k0].
    + rewrite Ho. rewrite lookup_singleton_ne by done. by case_decide.
    + case_decide as Hk; [subst; by rewrite lookup_singleton_eq|]. symmetry. apply lookup_singleton_ne. congruence.
  - unfold get_accepted_session. rewrite Ha, decide_True by done. unfold accepted_data. by rewrite Hp.
  - unfold get_accepted_session. by rewrite Ha', decide_True.
Qed.

(** When nothing is in flight, every request has come to an end. *)
Lemma net_quiet_status i st n sd :
  net_inv i st n → net_quiet n →
  match st sd with Flying _ | Answered _ _ _ => False | _ => True end.
Proof.
  intros [Hn _ _ _] Hq. destruct (Hq sd) as [Hm _], (Hq (other sd)) as [_ Hd].
  rewrite (no_messages _ _ _ _ _ _ _ _ _ (Hn sd)) in Hm.
  rewrite (no_decisions _ _ _ _ _ _ _ _ _ (Hn (other sd))), other_other in Hd.
  by destruct (st sd).
Qed.

Lemma net_quiet_agreed i st n :
  net_inv i st n → net_quiet n → (∃ sd, is_Some (net_result n sd)) →
  ∃ w, net_result n w = Some true ∧ net_agreed key call w n ∧
    (net_result n (other w) = Some true → w = small).
Proof.
  intros Hinv Hq [sd0 Hsd0]. pose proof Hinv as [_ Hc Hr _].
  pose proof (net_quiet_status i st n small Hinv Hq) as Hx.
  pose proof (net_quiet_status i st n (other small) Hinv Hq) as Hy.
  pose proof (Hc small) as Hcs. unfold compatible_at in Hcs. rewrite decide_True in Hcs by done.
  assert (st small ≠ Idle ∨ st (other small) ≠ Idle) as Hcalled.
  { revert Hsd0. rewrite Hr. assert (sd0 = small ∨ sd0 = other small) as [-> | ->] by (destruct sd0, small; auto);
      intros [b Hb]; [left|right]; intros H; by rewrite H in Hb. }
  assert (∀ t ta, st small = Settled t Accepted ta → own_request (call (other small)) (st (other small)) = None →
    accepted_status (st (other small)) = false →
    ∃ w, net_result n w = Some true ∧ net_agreed key call w n ∧
      (net_result n (other w) = Some true → w = small)) as Hwin.
  { intros t ta Hw H1 H2. exists small. split_and!; [by rewrite Hr, Hw| |done]. by eapply net_inv_agreed. }
  assert (∀ t ta, st (other small) = Settled t Accepted ta → st small = Idle ∨ st small = Declined →
    ∃ w, net_result n w = Some true ∧ net_agreed key call w n ∧
      (net_result n (other w) = Some true → w = small)) as Hlose.
  { intros t ta Hw H1. exists (other small). rewrite !Hr, other_other, Hw. split_and!; [done| |].
    - eapply net_inv_agreed; [done..| |]; rewrite other_other; by destruct H1 as [-> | ->].
    - by destruct H1 as [-> | ->]. }
  destruct (st small) as [| | | |t [] ta] eqn:Hs, (st (other small)) as [| | | |t' [] ta'] eqn:Ho; try done;
    try (by destruct Hcalled); try (by eapply Hwin); by eapply Hlose; eauto.
Qed.
End agreement.

(** C5: Two nodes with different keys ask each other for an upgrade, each at most
    once, in any order and with any interleaving of the deliveries of their
    messages, within the time that a request is valid.  After at most six steps
    nothing more happens, and whenever nothing is in flight (after at least one
    of them asked) they agree on exactly one of the requests: the other one is
    gone from both sides, both have the endpoints of the agreed one, and both
    know the kinds of the two endpoints.  If both requests were sent, the agreed
    one is that of the smaller key. *)
Theorem concurrent_upgrade_agreement
    {W : Type} `{!UpgradeController W, !UpgradeControllerLaws W}
    {M : Type → Type → Type} `{!LinkedHashMap M, !LinkedHashMapLaws M} `{!HashOrder Direction}
    (key : Side → PublicKey) (call : Side → Call) (t0 t1 : Instant) (n0 n : Net (W:=W) (M:=M)) (i : nat)
    (Hkeys : key SideA ≠ key SideB) (Hstart : net_start key call t0 t1 n0)
    (Hrun : net_run key call t0 t1 n0 i n) :
  i <= 6 ∧
  (net_quiet n → (∃ sd, is_Some (net_result n sd)) →
    ∃ w, net_result n w = Some true ∧ net_agreed key call w n ∧
      (net_result n (other w) = Some true →
        smaller_key_in_meshnet_canonical_order (key w) (key (other w)) = key w)).
Proof.
  assert (∃ small, smaller_key_in_meshnet_canonical_order (key small) (key (other small)) = key small) as [small Hs].
  { destruct (smaller_key_cases (key SideA) (key SideB)) as [H|H]; [by exists SideA|exists SideB].
    simpl. by rewrite smaller_key_comm. }
  destruct (net_run_inv key call t0 t1 small Hkeys Hs n0 i n Hstart Hrun) as [st Hinv]. split.
  - pose proof (ni_steps _ _ _ _ _ _ _ _ Hinv). lia.
  - intros Hq Hsome. destruct (net_quiet_agreed key call t0 t1 small Hs i st n Hinv Hq Hsome) as (w & Hw & Ha & Hsm).
    exists w. split_and!; [done..|]. intros Ho. by rewrite (Hsm Ho).
Qed.

(** ** The cross ping check as the controller *)

Section cross_ping.
Context {E : Type} `{!Backoff E} {M : Type → Type → Type} `{!LinkedHashMap M, !LinkedHashMapLaws M}.
Context `{!HashOrder PublicKey, !HashOrder EndpointCandidate, !HashOrder Session}.

(** A session that was announced is allowed until it expires; asking for it
    keeps it. *)
#[export] Program Instance CpcState_controller_laws : UpgradeControllerLaws (CpcState (E:=E) (M:=M)) := {
  uc_allows t0 t1 session k s :=
    ∃ tv, assoc session (entries (session_id_candidates s)) = Some tv ∧ data tv = k ∧
      (t1 <= last_access tv + lru_ttl (session_id_candidates s))%Z ∧
      (t1 <= t0 + lru_ttl (session_id_candidates s))%Z
}.
Next Obligation.
  intros t0 t1 now session k s (tv & Htv & Hk & Hl & Ht) Hnow. simpl. unfold check_if_upgrade_is_allowed.
  destruct (entries_get now session (session_id_candidates s)) as [Hg He].
  rewrite (assoc_drop_while _ _ tv) in Hg, He;
    [|done|apply Z.ltb_ge; simpl; lia|done|apply Z.ltb_ge; simpl; lia].
  rewrite Hg. simpl. rewrite Hk, bool_decide_true by done. eexists. split; [reflexivity|].
  exists (mkTimedValue k now). simpl. rewrite He, assoc_app, assoc_adel_eq. simpl. rewrite decide_True, Hk by done.
  split_and!; [done..| |]; (replace (lru_ttl (lru_get _ _ _).2) with (lru_ttl (session_id_candidates s));
    [lia|unfold lru_get; by case_match]).
Qed.

(** *** The two components together *)

Context `{!HashOrder Direction} (rand : nat → Session) (backoff_provider : result BackoffError E).
Abbreviation Cpc := (CpcState (E:=E) (M:=M)).
Abbreviation State := (UpgradeState (W:=Cpc) (M:=M)).
Implicit Types (s : State) (w : Cpc).

Inductive SysOp := SysCpc (op : CpcOp) | SysUs (op : UpgradeOp).

Definition sys_exec (op : SysOp) s : State :=
  match op with
  | SysCpc op => with_controller (cpc_exec rand backoff_provider op (upgrade_controller s)) s
  | SysUs op => upgrade_exec op s
  end.

(** The operation reads the time [now], if it reads it. *)
Definition op_at (now : Instant) (op : SysOp) : Prop :=
  match op with
  | SysCpc (OpConfigure t _ | OpEndpoints t _ _ | OpPong t _ | OpCallMeMaybe t _ _ | OpTick t _
           | OpFailed t _ | OpCheckUpgrade t _ _) => t = now
  | SysUs (UsRequest t _ _ _ _ | UsUpgrade t _ _ | UsDecision t _ _ | UsTick t) => t = now
  | _ => True
  end.

(** The states that are reached by the operations [tr], the latest first, at the
    time [now] *)
Inductive sys_reach : Instant → list SysOp → State → Prop :=
| sys_reach_start now publisher intercoms period decisions k cp ci ps sk :
    sys_reach now [] (upgrade_sync_new publisher intercoms period
      (cpc_start cp ci ps (ping_pong_new sk)) decisions k)
| sys_reach_step now now' op tr s :
    sys_reach now tr s → (now <= now')%Z → op_at now' op → sys_reach now' (op :: tr) (sys_exec op s).

(** The peer [k] announced the session. *)
Definition announced_at (tr : list SysOp) (session : Session) (k : PublicKey) (t : Instant) : Prop :=
  ∃ msg, SysCpc (OpCallMeMaybe t k msg) ∈ tr ∧ i_am msg = INITIATOR ∧ cmm_session msg = session.

(** The session was announced, or an upgrade for it was asked for. *)
Definition touched_at (tr : list SysOp) (session : Session) (t : Instant) : Prop :=
  (∃ k, announced_at tr session k t) ∨
  (∃ k msg, SysUs (UsUpgrade t k msg) ∈ tr ∧ msg_session msg = session) ∨
  (∃ k, SysCpc (OpCheckUpgrade t session k) ∈ tr).

(** What is remembered of a session *)
Definition provenance (tr : list SysOp) (session : Session) (k : PublicKey) (t : Instant) : Prop :=
  (∃ ta, announced_at tr session k ta) ∧ touched_at tr session t.

Lemma announced_weaken op tr session k t : announced_at tr session k t → announced_at (op :: tr) session k t.
Proof. intros (msg & Hin & H). exists msg. split; [by apply elem_of_cons; right|done]. Qed.

Lemma provenance_weaken op tr session k t : provenance tr session k t → provenance (op :: tr) session k t.
Proof.
  intros [[ta Ha] Ht]. split; [exists ta; by apply announced_weaken|].
  destruct Ht as [[k' Hk]|[(k' & msg & Hin & Hm)|[k' Hk]]]; [left|right; left|right; right].
  - exists k'. by apply announced_weaken.
  - exists k', msg. split; [by apply elem_of_cons; right|done].
  - exists k'. by apply elem_of_cons; right.
Qed.

(** The sessions of the cache are well formed, announced and recent. *)
Definition candidates_ok (now : Instant) (tr : list SysOp) (c : LruCache M Session PublicKey) : Prop :=
  lru_wf now c ∧ lru_ttl c = UPGRADE_TIMEOUT ∧ lru_all (provenance tr) c.

Lemma candidates_ok_later now now' op tr c : (now <= now')%Z → candidates_ok now tr c → candidates_ok now' (op :: tr) c.
Proof.
  intros Hle (Hwf & Httl & Hall). split_and!; [by eapply lru_wf_later|done|].
  eapply lru_all_impl; [|done]. intros sess k t. apply provenance_weaken.
Qed.

Lemma candidates_ok_insert now tr session k c :
  provenance tr session k now → candidates_ok now tr c → candidates_ok now tr (lru_insert now session k c).
Proof. intros Hp (Hwf & Httl & Hall). split_and!; [by apply lru_wf_insert|done|by apply lru_all_insert]. Qed.

Lemma candidates_ok_get now tr session c :
  touched_at tr session now → candidates_ok now tr c → candidates_ok now tr (lru_get now session c).2.
Proof.
  intros Ht (Hwf & Httl & Hall). split_and!; [by apply lru_wf_get| |].
  - unfold lru_get. by case_match.
  - apply lru_all_get; [|done]. by intros v t [Ha _].
Qed.

(** Code of the check that does not touch the cache *)
Definition keeps {A} (m : act Cpc CpcError A) : Prop :=
  ∀ w, session_id_candidates (m w).2 = session_id_candidates w.

Lemma keeps_bind {A B} (m : act Cpc CpcError A) (f : A → act Cpc CpcError B) :
  keeps m → (∀ a, keeps (f a)) → keeps (act_bind m f).
Proof.
  intros Hm Hf w. unfold act_bind. specialize (Hm w). destruct (m w) as [[a|e] w']; simpl in *; [|done].
  by rewrite Hf.
Qed.

Lemma keeps_for {A} (l : list A) (f : A → act Cpc CpcError unit) : (∀ x, keeps (f x)) → keeps (act_for l f).
Proof.
  intros Hf w. apply (act_for_inv (λ w', session_id_candidates w' = session_id_candidates w)); [|done].
  intros x w' _ <-. apply Hf.
Qed.

Lemma keeps_modify (f : Cpc → Cpc) :
  (∀ w, session_id_candidates (f w) = session_id_candidates w) → keeps (act_modify f).
Proof. intros Hf w. apply Hf. Qed.

Lemma keeps_get : keeps act_get.
Proof. done. Qed.

Lemma keeps_create_session now k t e : keeps (create_session rand backoff_provider now k t e).
Proof. intros w. unfold create_session. by destruct backoff_provider. Qed.

Lemma keeps_tick_session now rx sid : keeps (tick_session now rx sid).
Proof.
  intros w. unfold tick_session. destruct (check_states w !! sid); [|done].
  by destruct (session_tick _ _ _ _ _) as [[? ?] ?].
Qed.

#[local] Hint Resolve keeps_bind keeps_for keeps_modify keeps_get keeps_create_session keeps_tick_session : keeps.

Lemma keeps_configure now config : keeps (cpc_configure rand backoff_provider now config).
Proof. unfold cpc_configure. auto 9 with keeps. Qed.

Lemma keeps_endpoint_change now t cands : keeps (handle_endpoint_change_event rand backoff_provider now t cands).
Proof. unfold handle_endpoint_change_event. auto 9 with keeps. Qed.

Lemma keeps_tick now rx : keeps (handle_tick_event now rx).
Proof. unfold handle_tick_event. auto with keeps. Qed.

Lemma notify_failed_cands now k w :
  session_id_candidates (notify_failed_wg_connection now k w) = session_id_candidates w.
Proof.
  unfold notify_failed_wg_connection. generalize (iter_sessions (check_states w)). intros l. revert w.
  induction l as [|[sid v] l IH]; intros w; simpl; [done|]. rewrite IH. by case_decide.
Qed.

(** Which operations of the check touch the cache *)
Lemma cpc_exec_cands (P : LruCache M Session PublicKey → Prop) op w :
  P (session_id_candidates w) →
  (∀ now k msg, op = OpCallMeMaybe now k msg → i_am msg = INITIATOR →
    P (lru_insert now (cmm_session msg) k (session_id_candidates w))) →
  (∀ now sess k, op = OpCheckUpgrade now sess k → P (lru_get now sess (session_id_candidates w)).2) →
  P (session_id_candidates (cpc_exec rand backoff_provider op w)).
Proof.
  intros HP Hins Hget. destruct op as [now config|now t cands|now ev|now k msg|now rx|k|now k|now sid k]; simpl.
  - by rewrite keeps_configure.
  - by rewrite keeps_endpoint_change.
  - unfold handle_pong_rx_event. destruct (check_states w !! _); [|done]. by destruct (session_pong _ _ _ _) as [[? ?] ?].
  - unfold handle_call_me_maybe_rxed_event. specialize (Hins _ _ _ eq_refl). destruct (i_am msg).
    + destruct (list_find _ _) as [[? [sid ?]]|]; [|done]. destruct (chan_send _ _). by apply Hins.
    + destruct (check_states w !! _); [|done]. by destruct (session_cmm_response _ _ _ _ _ _).
  - by rewrite keeps_tick.
  - done.
  - by rewrite notify_failed_cands.
  - unfold check_if_upgrade_is_allowed. specialize (Hget _ _ _ eq_refl). by destruct (lru_get _ _ _).
Qed.

(** A request is stored only after the controller allowed it. *)
Lemma handle_upgrade_effects now k msg s r s' :
  handle_upgrade_request_msg now k msg s = (r, s') →
  let '(allowed, w) := check_if_upgrade_is_allowed now (msg_session msg) k (upgrade_controller s) in
  upgrade_controller s' = w ∧
  (allowed = false → upgrade_requests s' = upgrade_requests s ∧ r ≠ Ok tt) ∧
  (upgrade_requests s' = upgrade_requests s ∨
   upgrade_requests s' =
     <[Received k := mkUpgradeRequest (msg_endpoint msg) now (msg_session msg)]> (upgrade_requests s)).
Proof.
  unfold handle_upgrade_request_msg, act_bind at 1, ask_controller, uc_check_if_upgrade_is_allowed. simpl.
  destruct (check_if_upgrade_is_allowed now (msg_session msg) k (upgrade_controller s)) as [[] w];
    unfold act_bind, act_get, send_decision, chan_send; simpl.
  - destruct (chan_open (upgrade_decision_intercoms s)); simpl; [|intros [= <- <-]; split_and!; auto; done].
    generalize (decide_upgrade now k (with_controller w s)). intros d.
    destruct (bool_decide (d = Accepted)); simpl; [|intros [= <- <-]; split_and!; auto; done].
    unfold send_change_event, chan_send. simpl.
    destruct (chan_open (upgrade_request_publisher s)); simpl; intros [= <- <-]; split_and!; auto; done.
  - destruct (chan_open (upgrade_decision_intercoms s)); simpl; intros [= <- <-]; split_and!; auto; done.
Qed.

(** The other operations store no request of a peer. *)
Definition no_new_received s s' : Prop :=
  (∀ k r, upgrade_requests s' !! Received k = Some r → upgrade_requests s !! Received k = Some r) ∧
  session_id_candidates (upgrade_controller s') = session_id_candidates (upgrade_controller s).

Lemma request_no_new now k remote local session s :
  no_new_received s (request_upgrade_or_default now k remote local session s).2.
Proof.
  unfold request_upgrade_or_default, request_upgrade, act_bind, act_get, send_upgrade_msg, chan_send. simpl.
  destruct (match upgrade_requests s !! Received k with Some _ => _ | None => _ end); [done|].
  destruct (chan_open (upgrade_intercoms s)); [|done]. split; [|done]. simpl. intros k0 r.
  by rewrite lookup_insert_ne.
Qed.

Lemma decision_no_new now k msg s : no_new_received s (handle_decision now k msg s).
Proof.
  unfold handle_decision. destruct (decision msg); simpl.
  - case_match; done.
  - destruct (list_find _ _) as [[? [d ?]]|]; [|done]. split; [done|]. apply notify_failed_cands.
  - split; [|done]. simpl. intros k0 r. by intros [? _]%map_lookup_filter_Some.
Qed.

Lemma tick_no_new now s : no_new_received s (upgrade_handle_tick now s).2.
Proof.
  unfold upgrade_handle_tick, act_bind at 1, act_get.
  assert (∀ l : list (Direction * UpgradeRequest), let s' := (act_for l (λ _, send_change_event) s).2 in
    upgrade_requests s' = upgrade_requests s ∧ upgrade_controller s' = upgrade_controller s) as Hloop.
  { intros l. simpl. apply (act_for_inv (λ s', upgrade_requests s' = upgrade_requests s ∧
      upgrade_controller s' = upgrade_controller s)); [|done].
    intros x s' _ [<- <-]. unfold send_change_event. by destruct (chan_send _ _). }
  unfold act_bind. match goal with |- context [act_for ?l _ s] => specialize (Hloop l) end.
  destruct (act_for _ _ s) as [[[]|e] s']; simpl in *; destruct Hloop as [Hr Hc]; split; simpl; rewrite ?Hc; try done.
  - simpl. intros k r [H _]%map_lookup_filter_Some. by rewrite Hr in H.
  - intros k r. by rewrite Hr.
Qed.

(** The invariant of the two components *)
Record sys_inv (now : Instant) (tr : list SysOp) s : Prop := {
  si_cache : candidates_ok now tr (session_id_candidates (upgrade_controller s));
  si_received k r : upgrade_requests s !! Received k = Some r → ∃ t, announced_at tr (upgrade_session r) k t
}.

Lemma sys_inv_no_new now now' op tr s s' :
  sys_inv now tr s → (now <= now')%Z → no_new_received s s' → sys_inv now' (op :: tr) s'.
Proof.
  intros [Hc Hr] Hle [H1 H2]. split; [rewrite H2; by eapply candidates_ok_later|].
  intros k r [t Ht]%H1%Hr. exists t. by apply announced_weaken.
Qed.

(** What the controller allows was announced, and recently touched. *)
Lemma allowed_announced now tr session k (w : Cpc) :
  candidates_ok now tr (session_id_candidates w) →
  (check_if_upgrade_is_allowed now session k w).1 = true →
  (∃ t, announced_at tr session k t) ∧
  ∃ t, touched_at tr session t ∧ (now <= t + UPGRADE_TIMEOUT)%Z.
Proof.
  intros (Hwf & Httl & Hall). unfold check_if_upgrade_is_allowed.
  destruct (lru_get now session (session_id_candidates w)) as [o c'] eqn:Hg. simpl. intros Ho%bool_decide_eq_true.
  assert (lru_peek now session (session_id_candidates w) = Some k) as Hp.
  { rewrite <-lru_get_peek by done. by rewrite Hg. }
  destruct (lru_all_peek _ _ _ _ _ Hall Hp) as (t & [Ha Ht] & Hle). rewrite Httl in Hle. eauto.
Qed.

Lemma check_is_get now session k (w : Cpc) :
  session_id_candidates (check_if_upgrade_is_allowed now session k w).2 =
    (lru_get now session (session_id_candidates w)).2.
Proof. unfold check_if_upgrade_is_allowed. by destruct (lru_get _ _ _). Qed.

Lemma sys_inv_upgrade now now' tr k msg s :
  sys_inv now tr s → (now <= now')%Z →
  sys_inv now' (SysUs (UsUpgrade now' k msg) :: tr) (handle_upgrade_request_msg now' k msg s).2.
Proof.
  intros [Hc Hr] Hle. destruct (handle_upgrade_request_msg now' k msg s) as [r s'] eqn:Hrun.
  apply handle_upgrade_effects in Hrun. simpl. pose proof (check_is_get now' (msg_session msg) k (upgrade_controller s)) as Hw.
  pose proof (candidates_ok_later _ _ (SysUs (UsUpgrade now' k msg)) _ _ Hle Hc) as Hc'.
  pose proof (allowed_announced now' _ (msg_session msg) k _ Hc') as Hall.
  destruct (check_if_upgrade_is_allowed now' (msg_session msg) k (upgrade_controller s)) as [allowed w].
  simpl in *. destruct Hrun as (<- & Hno & Hreq). split.
  - rewrite Hw. apply candidates_ok_get; [|done]. right; left. exists k, msg. split; [by constructor|done].
  - intros k0 r0. destruct allowed.
    + destruct Hreq as [-> | ->]; [intros [t Ht]%Hr; exists t; by apply announced_weaken|].
      intros [[[= <-] <-]|[_ [t Ht]%Hr]]%lookup_insert_Some; [by apply Hall|]. exists t. by apply announced_weaken.
    + destruct (Hno eq_refl) as [-> _]. intros [t Ht]%Hr. exists t. by apply announced_weaken.
Qed.

Lemma sys_inv_cpc now now' tr op s :
  sys_inv now tr s → (now <= now')%Z → op_at now' (SysCpc op) →
  sys_inv now' (SysCpc op :: tr) (sys_exec (SysCpc op) s).
Proof.
  intros [Hc Hr] Hle Hat. pose proof (candidates_ok_later _ _ (SysCpc op) _ _ Hle Hc) as Hc'. split.
  - apply (cpc_exec_cands (candidates_ok now' (SysCpc op :: tr)) op (upgrade_controller s)); [done|..].
    + intros t k msg -> Hi. simpl in Hat. subst t.
      assert (announced_at (SysCpc (OpCallMeMaybe now' k msg) :: tr) (cmm_session msg) k now') as Ha.
      { exists msg. split; [by constructor|done]. }
      apply candidates_ok_insert; [|done]. split; [by exists now'|left; by exists k].
    + intros t sess k ->. simpl in Hat. subst t. apply candidates_ok_get; [|done]. right; right. exists k. by constructor.
  - simpl. intros k r [t Ht]%Hr. exists t. by apply announced_weaken.
Qed.

Lemma sys_reach_inv now tr s : sys_reach now tr s → sys_inv now tr s.
Proof.
  induction 1 as [|now now' op tr s Hr IH Hle Hat].
  - split; [|simpl; intros k0 r; by rewrite lookup_empty]. simpl.
    split_and!; [apply lru_wf_new|done|apply lru_all_new].
  - destruct op as [op|op]; [by eapply sys_inv_cpc|]. destruct op; simpl in Hat; subst; simpl.
    + eapply sys_inv_no_new; [done..|]. apply request_no_new.
    + by eapply sys_inv_upgrade.
    + eapply sys_inv_no_new; [done..|]. apply decision_no_new.
    + eapply sys_inv_no_new; [done..|]. apply tick_no_new.
    + by eapply sys_inv_no_new.
    + by eapply sys_inv_no_new.
Qed.

(** C21: An upgrade is granted only to the peer that announced it.  In every
    state that the upgrade synchronisation and the cross ping check can reach
    together, a stored request of a peer is for a session that this very peer
    announced with a call-me-maybe message; and a request that is accepted now is
    for such a session which was announced, or last asked about, at most a minute
    ago. *)
Theorem upgrade_accepted_only_if_announced now tr s (Hreach : sys_reach now tr s) :
  (∀ k r, upgrade_requests s !! Received k = Some r → ∃ t, announced_at tr (upgrade_session r) k t) ∧
  (∀ now' k msg, (now <= now')%Z → (handle_upgrade_request_msg now' k msg s).1 = Ok tt →
    (∃ t, announced_at tr (msg_session msg) k t) ∧
    ∃ t, touched_at tr (msg_session msg) t ∧ (now' <= t + UPGRADE_TIMEOUT)%Z).
Proof.
  apply sys_reach_inv in Hreach as [Hc Hr]. split; [done|]. intros now' k msg Hle.
  destruct (handle_upgrade_request_msg now' k msg s) as [r s'] eqn:Hrun. apply handle_upgrade_effects in Hrun.
  simpl. intros ->. destruct Hc as (Hwf & Httl & Hall).
  apply (allowed_announced now' _ _ _ (upgrade_controller s)); [split_and!; [by eapply lru_wf_later|done..]|].
  destruct (check_if_upgrade_is_allowed now' (msg_session msg) k (upgrade_controller s)) as [[] w]; [done|].
  destruct Hrun as (_ & Hno & _). by destruct (Hno eq_refl).
Qed.
End cross_ping.

Module UpgradeSamples.
Import ToyCrypto CryptoSamples CrossPingSamples.

#[local] Existing Instance elements_order.
#[local] Existing Instance elements_order_laws.
#[local] Existing Instance ToyCiphers.

Abbreviation Controller := (CpcState (E:=ExponentialBackoff) (M:=assoc_map)).

Section steps.
Context {W : Type} `{!UpgradeController W} {M : Type → Type → Type} `{!LinkedHashMap M}.
Context `{!HashOrder Direction} (key : Side → PublicKey) (call : Side → Call) (t0 t1 : Instant).
Implicit Types (n : Net (W:=W) (M:=M)) (sd : Side) (now : Instant).

Definition do_request sd now n : Net :=
  let r := request_upgrade_or_default now (key (other sd)) (call_remote (call sd)) (call_local (call sd))
             (call_session (call sd)) (net_node n sd) in
  set_result sd r.1 (set_node sd r.2 n).

Definition do_upgrade sd now n : Net :=
  match chan_sent (upgrade_intercoms (net_node n sd)) with
  | (_, msg) :: rest =>
      set_node (other sd) (handle_upgrade_request_msg now (key sd) msg (net_node n (other sd))).2
        (set_node sd (with_upgrade_intercoms (mkChan true rest) (net_node n sd)) n)
  | [] => n
  end.

Definition do_decision sd now n : Net :=
  match chan_sent (upgrade_decision_intercoms (net_node n sd)) with
  | (_, msg) :: rest =>
      set_node (other sd) (handle_decision now (key sd) msg (net_node n (other sd)))
        (set_node sd (with_decision_intercoms (mkChan true rest) (net_node n sd)) n)
  | [] => n
  end.

Lemma do_request_step sd now n :
  (t0 <= now <= t1)%Z → net_result n sd = None → net_step key call t0 t1 n (do_request sd now n).
Proof. intros. eapply step_request; [done..|]. by destruct (request_upgrade_or_default _ _ _ _ _ _). Qed.

Lemma do_upgrade_step sd now n :
  (t0 <= now <= t1)%Z → chan_sent (upgrade_intercoms (net_node n sd)) ≠ [] →
  net_step key call t0 t1 n (do_upgrade sd now n).
Proof.
  intros Hnow. unfold do_upgrade. destruct (chan_sent _) as [|[k msg] rest] eqn:Hs; [done|]. intros _.
  by eapply step_upgrade.
Qed.

Lemma do_decision_step sd now n :
  (t0 <= now <= t1)%Z → chan_sent (upgrade_decision_intercoms (net_node n sd)) ≠ [] →
  net_step key call t0 t1 n (do_decision sd now n).
Proof.
  intros Hnow. unfold do_decision. destruct (chan_sent _) as [|[k msg] rest] eqn:Hs; [done|]. intros _.
  by eapply step_decision.
Qed.
End steps.

(** Alice and Bob ask each other at the same time. *)
Definition keys (sd : Side) : PublicKey := secret_key_public match sd with SideA => alice | SideB => bob end.

Definition calls (sd : Side) : Call :=
  match sd with
  | SideA => mkCall (SocketAddrV4 (ipv4_addr 10 0 0 2) 51820, Stun) (SocketAddrV4 (ipv4_addr 10 0 0 1) 51820, Local) 77
  | SideB => mkCall (SocketAddrV4 (ipv4_addr 10 0 0 1) 51821, Upnp) (SocketAddrV4 (ipv4_addr 10 0 0 2) 51821, Stun) 88
  end.

(** Each has heard the other's announcement. *)
Definition controller (sd : Side) : Controller :=
  with_candidates (lru_insert 0 (call_session (calls (other sd))) (keys (other sd))
    (lru_new UPGRADE_TIMEOUT MAX_SESSION_CANDIDATES)) start.

Definition net0 : Net (W:=Controller) (M:=assoc_map) :=
  mkNet (λ sd, upgrade_sync_new (mkChan true []) (mkChan true []) (from_secs 10) (controller sd)
    (mkChan true []) (keys sd)) (λ _, None).

Definition net6 : Net (W:=Controller) (M:=assoc_map) :=
  do_decision keys SideB 6 (do_decision keys SideA 5 (do_upgrade keys SideB 4 (do_upgrade keys SideA 3
    (do_request keys calls SideB 2 (do_request keys calls SideA 1 net0))))).

Lemma net6_run : net_run keys calls 0 10 net0 6 net6.
Proof.
  unfold net6. do 2 (eapply run_step; [|apply do_decision_step; [lia|vm_compute; discriminate]]).
  do 2 (eapply run_step; [|apply do_upgrade_step; [lia|vm_compute; discriminate]]).
  do 2 (eapply run_step; [|apply do_request_step; [lia|vm_compute; reflexivity]]).
  apply run_start.
Qed.

Lemma concurrent_upgrade_agreement_witness :
  ∃ w, net_result net6 w = Some true ∧ net_agreed keys calls w net6.
Proof.
  destruct (concurrent_upgrade_agreement keys calls 0 10 net0 net6 6) as [_ H].
  - vm_compute. discriminate.
  - intros sd. split; [done|]. eexists (from_secs 10), (controller sd). split; [done|]. split; [|done].
    destruct sd; eexists; (split; [vm_compute; reflexivity|]; split; [done|]; split; vm_compute; discriminate).
  - exact net6_run.
  - destruct H as (w & Hw & Ha & _).
    + intros sd. destruct sd; vm_compute; done.
    + exists SideA. exists true. vm_compute. reflexivity.
    + exists w. split; [exact Hw|exact Ha].
Defined.

(** Bob announces the session 77 and asks for it. *)
Abbreviation exec := (sys_exec Z.of_nat (exponential_backoff_new bounds0)).

Definition announcement : SysOp :=
  SysCpc (OpCallMeMaybe 30 bob_key (call_me_maybe_new true [SocketAddrV4 (ipv4_addr 10 0 0 1) 7000] 77)).

Definition upgrade_start : UpgradeState (W:=Controller) (M:=assoc_map) :=
  upgrade_sync_new (mkChan true []) (mkChan true []) (from_secs 10) start (mkChan true []) (secret_key_public alice).

Definition trace : list SysOp :=
  [announcement; SysCpc (OpEndpoints 20 LocalInterfaces [candidate]); SysCpc (OpConfigure 10 (Some config))].

Definition announced_state : UpgradeState (W:=Controller) (M:=assoc_map) :=
  exec announcement (exec (SysCpc (OpEndpoints 20 LocalInterfaces [candidate]))
    (exec (SysCpc (OpConfigure 10 (Some config))) upgrade_start)).

Lemma upgrade_accepted_only_if_announced_witness :
  ∃ t, announced_at trace 77 bob_key t.
Proof.
  destruct (upgrade_accepted_only_if_announced Z.of_nat (exponential_backoff_new bounds0) 30 trace announced_state)
    as [_ H].
  - apply (sys_reach_step _ _ 20); [|done..]. apply (sys_reach_step _ _ 10); [|done..].
    apply (sys_reach_step _ _ 0); [|done..]. apply sys_reach_start.
  - apply (H 40%Z bob_key (mkUpgradeMsg (SocketAddrV4 (ipv4_addr 10 0 0 1) 51820) 77 Local Local)).
    + discriminate.
    + vm_compute. reflexivity.
Defined.
End UpgradeSamples.
