(* ===== verification/PostQuantum.v ===== *)
(** * The post-quantum entity

    [src/crates/telio-pq/src/entity.rs]: the state behind a post-quantum
    tunnel, the peer with the keys negotiated for it so far.  The task that
    negotiates them is third-party cryptography over a socket: what the entity
    sees of it are the events it sends.  The channel of events is the list of
    what was sent and not received yet.

    [PqWorld] puts the entity into the world of the controller: its operations
    on post-quantum tunnels are the ones of the entity, all others are the ones
    of the world around it. *)

From S2P Require Import Prelude NetTypes WgTypes LruCache Firewall LinkDetection Wg Controller Consolidation.

Open Scope act_scope.

(** [telio_pq::Event] *)
Inductive PqEvent :=
| PqConnecting (k : PublicKey)
| PqDisconnected (k : PublicKey)
| PqHandshake (addr : SocketAddr) (keys : PqKeys)
| PqRekey (keys : PqKeys).

(** [Peer], without the guard of the task *)
Record PqPeer := mkPqPeer {
  pq_pubkey : PublicKey;
  pq_wg_secret : SecretKey;
  pq_addr : SocketAddr;
  pq_negotiated : option PqKeys;
  last_handshake_ts : option Instant
}.

(** [Entity]: what it keeps, and the channel it shares with the device *)
Record PqEntity := mkPqEntity {
  pq_peer : option PqPeer;
  pq_chan : list PqEvent
}.

Definition PQ_REJECT_AFTER_TIME : Duration := from_secs 180.

(** [Entity::new] *)
Definition pq_entity_new : PqEntity := mkPqEntity None [].

(** [keys], [is_rotating_keys] and [peer_pubkey] *)
Definition entity_keys (e : PqEntity) : option PqKeys := pq_peer e ≫= pq_negotiated.
Definition entity_is_rotating_keys (e : PqEntity) : bool := bool_decide (is_Some (pq_peer e)).
Definition entity_peer_pubkey (e : PqEntity) : option PublicKey := pq_pubkey <$> pq_peer e.

Definition send_pq (ev : PqEvent) (e : PqEntity) : PqEntity := mkPqEntity (pq_peer e) (pq_chan e ++ [ev]).

(** [on_event] *)
Definition entity_on_event (now : Instant) (ev : PqEvent) (e : PqEntity) : PqEntity :=
  match pq_peer e with
  | None => e
  | Some p =>
      let p' :=
        match ev with
        | PqHandshake addr keys =>
            if bool_decide (pq_addr p = addr) then
              mkPqPeer (pq_pubkey p) (pq_wg_secret p) (pq_addr p) (Some keys) (Some now)
            else p
        | PqRekey new =>
            match pq_negotiated p with
            | Some keys =>
                if bool_decide (wg_secret keys = wg_secret new) then
                  mkPqPeer (pq_pubkey p) (pq_wg_secret p) (pq_addr p)
                    (Some (mkPqKeys (wg_secret keys) (pq_shared new))) (last_handshake_ts p)
                else p
            | None => p
            end
        | _ => p
        end in
      mkPqEntity (Some p') (pq_chan e)
  end.

(** [stop] *)
Definition entity_stop (e : PqEntity) : PqEntity :=
  match pq_peer e with
  | Some p => send_pq (PqDisconnected (pq_pubkey p)) (mkPqEntity None (pq_chan e))
  | None => e
  end.

(** [start_impl] *)
Definition entity_start_impl (addr : SocketAddr) (secret : SecretKey) (k : PublicKey) (e : PqEntity)
    : PqEntity :=
  send_pq (PqConnecting k) (mkPqEntity (Some (mkPqPeer k secret addr None None)) (pq_chan e)).

(** [start] *)
Definition entity_start (addr : SocketAddr) (secret : SecretKey) (k : PublicKey) (e : PqEntity) : PqEntity :=
  entity_start_impl addr secret k (entity_stop e).

(** [restart] *)
Definition entity_restart (now : Instant) (e : PqEntity) : PqEntity :=
  match pq_peer e with
  | Some p =>
      match last_handshake_ts p with
      | Some ts =>
          if (PQ_REJECT_AFTER_TIME <? elapsed now ts)%Z then
            entity_start_impl (pq_addr p) (pq_wg_secret p) (pq_pubkey p) e
          else e
      | None => e
      end
  | None => e
  end.

(** ** The entity in the world of the controller *)

Record PqWorld (W : Type) := mkPqWorld {
  pq_clock : Instant;
  pq_entity : PqEntity;
  pq_others : W
}.
Arguments mkPqWorld {W} _ _ _.
Arguments pq_clock {W} _.
Arguments pq_entity {W} _.
Arguments pq_others {W} _.

Section world.
Context `{IpNets} {W F : Type} `{!FirewallApi F} `{!Entities W F}.

Definition on_entity (f : Instant → PqEntity → PqEntity) (w : PqWorld W) : PqWorld W :=
  mkPqWorld (pq_clock w) (f (pq_clock w) (pq_entity w)) (pq_others w).
Definition on_others (f : W → W) (w : PqWorld W) : PqWorld W :=
  mkPqWorld (pq_clock w) (pq_entity w) (f (pq_others w)).
Definition lift_others {A} (f : W → A * W) (w : PqWorld W) : A * PqWorld W :=
  let '(a, o) := f (pq_others w) in (a, mkPqWorld (pq_clock w) (pq_entity w) o).
Definition act_others {E A} (m : act W E A) : act (PqWorld W) E A := lift_others m.

#[export] Instance PqWorld_entities : Entities (PqWorld W) F := {|
  wg_get_interface := act_others wg_get_interface;
  wg_time_since_last_rx k := act_others (wg_time_since_last_rx k);
  wg_get_link_state k := act_others (wg_get_link_state k);
  wg_add_peer p := act_others (wg_add_peer p);
  wg_del_peer k := act_others (wg_del_peer k);
  wg_set_secret_key k := act_others (wg_set_secret_key k);
  wg_set_fwmark m := act_others (wg_set_fwmark m);
  proxy_get_endpoint_map := act_others proxy_get_endpoint_map;
  proxy_mute_peer k d := act_others (proxy_mute_peer k d);
  cpc_get_validated_endpoints := act_others cpc_get_validated_endpoints;
  cpc_notify_failed_wg_connection k := act_others (cpc_notify_failed_wg_connection k);
  cpc_notify_successfull_wg_connection_upgrade k :=
    act_others (cpc_notify_successfull_wg_connection_upgrade k);
  us_get_upgrade_requests := act_others us_get_upgrade_requests;
  us_request_upgrade k r l s := act_others (us_request_upgrade k r l s);
  us_get_accepted_session k := lift_others (us_get_accepted_session k);
  sk_add_node k t d := act_others (sk_add_node k t d);
  sk_remove_node k := act_others (sk_remove_node k);
  sk_get_interval k := lift_others (sk_get_interval k);
  dns_resolver w := dns_resolver (pq_others w);
  dns_set_peer_public_key k := on_others (dns_set_peer_public_key k);
  starcast_get_peer := act_others starcast_get_peer;
  stun_pause := on_others stun_pause;
  stun_unpause := on_others stun_unpause;
  stun_is_paused := lift_others stun_is_paused;
  stun_trigger_endpoint_candidates_discovery b :=
    act_others (stun_trigger_endpoint_candidates_discovery b);
  upnp_pause := on_others upnp_pause;
  upnp_unpause := on_others upnp_unpause;
  pq_keys w := entity_keys (pq_entity w);
  pq_is_rotating_keys w := entity_is_rotating_keys (pq_entity w);
  pq_peer_pubkey w := entity_peer_pubkey (pq_entity w);
  pq_restart := on_entity entity_restart;
  report_peer_state_relayed e := on_others (report_peer_state_relayed e);
  report_peer_state_direct e l r := on_others (report_peer_state_direct e l r);
  get_remote_peer_states := lift_others get_remote_peer_states;
  world_firewall w := world_firewall (pq_others w);
  set_world_firewall f := on_others (set_world_firewall f);
  secret_public := secret_public
|}.
End world.

(** The world is known where its operations are looked for. *)
#[export] Hint Mode Entities - ! - : typeclass_instances.
