(* ===== verification/DeviceTypes.v ===== *)
(** * The data of the device

    [Node] and [Config] of [src/crates/telio-model/src/], the parts of the
    features that the runtime of [src/src/device.rs] reads, nicknames
    ([validation.rs]) and the DNS records that are made of a configuration
    ([RequestedState::collect_dns_records] and its companions). *)

From stdpp Require Import strings.
From S2P Require Import Prelude NetTypes WgTypes Controller Consolidation.

(** ** Nodes and servers *)

Inductive PathType := PathRelay | PathDirect.

#[export] Instance PathType_eq_dec : EqDecision PathType.
Proof. solve_decision. Defined.

Inductive RelayState := RelayDisconnected | RelayConnecting | RelayConnected.

#[export] Instance RelayState_eq_dec : EqDecision RelayState.
Proof. solve_decision. Defined.

(** [telio_model::config::Server] *)
Record Server := mkServer {
  region_code : string;
  server_name : string;
  server_hostname : string;
  server_ipv4 : Z;
  relay_port : Z;
  server_stun_port : Z;
  stun_plaintext_port : Z;
  server_public_key : PublicKey;
  weight : Z;
  use_plain_text : bool;
  conn_state : RelayState
}.

#[export] Instance Server_eq_dec : EqDecision Server.
Proof. solve_decision. Defined.

(** [telio_model::config::Config]; the runtime does not read its DNS part *)
Record Config := mkConfig {
  config_mesh : MeshConfig;
  derp_servers : option (list Server)
}.

(** The peers of a configuration *)
Definition config_peers (c : MeshConfig) : list MeshPeer := default [] (mesh_peers c).

(** [get_ip_stack] *)
Definition get_ip_stack (ips : list StdIpAddr) : option IpStack :=
  let v4 := existsb (λ a, match a with V4 _ => true | V6 _ => false end) ips in
  let v6 := existsb (λ a, match a with V4 _ => false | V6 _ => true end) ips in
  match v4, v6 with
  | false, false => None
  | true, false => Some IPv4
  | false, true => Some IPv6
  | true, true => Some IPv4v6
  end.

(** [MeshConfigUpdateEvent] of [src/crates/telio-nurse/src/data.rs] *)
Record MeshConfigUpdateEvent := mkMeshConfigUpdateEvent {
  update_enabled : bool;
  update_nodes : gmap PublicKey bool;
  update_ip_stack : option IpStack
}.

(** [MeshConfigUpdateEvent::from] *)
Definition config_update_event (c : option MeshConfig) : MeshConfigUpdateEvent :=
  mkMeshConfigUpdateEvent (bool_decide (is_Some c))
    (fold_left (λ m p, <[mesh_key p := is_local p]> m) (default [] (config_peers <$> c)) ∅)
    (c ≫= λ c, get_ip_stack (default [] (base_ip_addresses (this c)))).

Section node.
Context `{IpNets}.

(** [telio_model::mesh::Node] *)
Record Node := mkNode {
  node_identifier : string;
  node_public_key : PublicKey;
  node_nickname : option string;
  node_state : NodeState;
  node_link_state : option LinkState;
  node_is_exit : bool;
  node_is_vpn : bool;
  node_ip_addresses : list StdIpAddr;
  node_allowed_ips : list IpNet;
  node_endpoint : option SocketAddr;
  node_hostname : option string;
  node_allow_incoming_connections : bool;
  node_allow_peer_traffic_routing : bool;
  node_allow_peer_local_network_access : bool;
  node_allow_peer_send_files : bool;
  node_path : PathType;
  node_allow_multicast : bool;
  node_peer_allows_multicast : bool
}.

#[export] Instance Node_eq_dec : EqDecision Node.
Proof. solve_decision. Defined.

(** [node_from_exit_node] *)
Definition node_from_exit_node (e : ExitNode) : Node :=
  mkNode (exit_identifier e) (exit_public_key e) None Disconnected None true
    (bool_decide (is_Some (exit_endpoint e))) [VPN_EXTERNAL_IPV4; VPN_INTERNAL_IPV4]
    (default [] (exit_allowed_ips e)) (exit_endpoint e) None false false false false PathDirect false false.

(** [Node { state, link_state, .. }], the rest from another node *)
Definition node_with_state (state : NodeState) (link : option LinkState) (n : Node) : Node :=
  mkNode (node_identifier n) (node_public_key n) (node_nickname n) state link (node_is_exit n)
    (node_is_vpn n) (node_ip_addresses n) (node_allowed_ips n) (node_endpoint n) (node_hostname n)
    (node_allow_incoming_connections n) (node_allow_peer_traffic_routing n)
    (node_allow_peer_local_network_access n) (node_allow_peer_send_files n) (node_path n)
    (node_allow_multicast n) (node_peer_allows_multicast n).

(** [Node { allowed_ips, path, .. }] *)
Definition node_with_path (allowed : list IpNet) (path : PathType) (n : Node) : Node :=
  mkNode (node_identifier n) (node_public_key n) (node_nickname n) (node_state n) (node_link_state n)
    (node_is_exit n) (node_is_vpn n) (node_ip_addresses n) allowed (node_endpoint n) (node_hostname n)
    (node_allow_incoming_connections n) (node_allow_peer_traffic_routing n)
    (node_allow_peer_local_network_access n) (node_allow_peer_send_files n) path
    (node_allow_multicast n) (node_peer_allows_multicast n).

(** The events for the integrators: [Event::Node] and [Event::Relay] *)
Inductive DevEvent :=
| NodeEvent (n : Node)
| RelayEvent (s : Server).
End node.

(** ** Features *)

Record FeatureDerp := mkFeatureDerp {
  tcp_keepalive : option Z;
  derp_keepalive : option Z;
  poll_keepalive : option bool;
  enable_polling : option bool;
  use_built_in_root_certificates : bool
}.

Definition feature_derp_default : FeatureDerp := mkFeatureDerp None None None None false.

(** [DerpKeepaliveConfig] and its conversion from the features *)
Record DerpKeepaliveConfig := mkDerpKeepaliveConfig {
  config_tcp_keepalive : Z;
  config_derp_keepalive : Z;
  config_poll_keepalive : bool
}.

Definition DERP_TCP_KEEPALIVE_INTERVAL : Z := 15.
Definition DERP_KEEPALIVE_INTERVAL : Z := 60.

Definition derp_keepalive_config (f : option FeatureDerp) : DerpKeepaliveConfig :=
  mkDerpKeepaliveConfig (default DERP_TCP_KEEPALIVE_INTERVAL (f ≫= tcp_keepalive))
    (default DERP_KEEPALIVE_INTERVAL (f ≫= derp_keepalive))
    (default false (f ≫= poll_keepalive)).

(** [telio_relay::derp::Config] *)
Record DerpConfig := mkDerpConfig {
  derp_secret_key : SecretKey;
  derp_sorted_servers : list Server;
  derp_meshnet_peers : gset PublicKey;
  derp_timeout : Duration;
  derp_server_keepalives : DerpKeepaliveConfig;
  derp_enable_polling : bool;
  derp_built_in_root_certificates : bool
}.

(** [SortedServers::new]: [sort_by] is stable *)
Fixpoint insert_server (s : Server) (l : list Server) : list Server :=
  match l with
  | [] => [s]
  | t :: l' => if (weight s <=? weight t)%Z then s :: l else t :: insert_server s l'
  end.
Definition sorted_servers (l : list Server) : list Server := foldr insert_server [] l.

(** What the runtime reads of [Features]; of [direct], the endpoint providers
    that it starts *)
Record DeviceFeatures := mkDeviceFeatures {
  ctl_features : Features;
  validate_keys : bool;
  nicknames : bool;
  multicast : bool;
  ttl_value : Z;
  exit_dns : option (option bool);
  direct_providers : option (option (list EndpointType));
  link_detection_feature : bool;
  derp_feature : option FeatureDerp
}.

Definition disable_batching (f : DeviceFeatures) : DeviceFeatures :=
  mkDeviceFeatures (mkFeatures (ipv6 (ctl_features f)) false) (validate_keys f) (nicknames f) (multicast f)
    (ttl_value f) (exit_dns f) (direct_providers f) (link_detection_feature f) (derp_feature f).

(** ** Nicknames *)

(** [str::starts_with] is [String.prefix]; [str::ends_with] and
    [str::contains] *)
Fixpoint ends_with (suffix s : string) : bool :=
  String.eqb s suffix || match s with EmptyString => false | String _ s => ends_with suffix s end.
Fixpoint contains (pattern s : string) : bool :=
  String.prefix pattern s || match s with EmptyString => false | String _ s => contains pattern s end.

(** [validate_nickname] *)
Definition validate_nickname (name : string) : bool :=
  if (25 <? String.length name)%nat then false
  else if (String.length name =? 0)%nat then false
  else if contains " " name then false
  else if contains "--" name then false
  else if ends_with "-" name then false
  else if ends_with ".nord" name then false
  else if ends_with "." name then false
  else if String.prefix "-" name then false
  else true.

(** ** DNS records *)

Abbreviation Records := (gmap string (list StdIpAddr)).

Section records.
Context `{IpNets}.

(** [RequestedState::collect_dns_records] *)
Definition collect_dns_records (r : RequestedState) : Records :=
  match meshnet_config r with
  | Some c =>
      fold_left (λ m (p : PeerBase),
        match base_ip_addresses p with
        | Some ips => <[hostname p := ips]> m
        | None => m
        end) ((base <$> config_peers c) ++ [this c]) ∅
  | None => ∅
  end.

(** [to_record] of [collect_dns_nickname_records] *)
Definition nickname_record (p : PeerBase) : option (string * list StdIpAddr) :=
  nick ← nickname p; ips ← base_ip_addresses p; Some (nick, ips).

(** [RequestedState::collect_dns_nickname_records] *)
Definition collect_dns_nickname_records (r : RequestedState) : Records :=
  match meshnet_config r with
  | Some c =>
      fold_left (λ m (record : string * list StdIpAddr),
        let name := String.append record.1 ".nord" in
        match m !! name with
        | None => <[name := record.2]> m
        | Some _ => m
        end)
        (filter (λ record, validate_nickname record.1 = true)
           (omap nickname_record (this c :: (base <$> config_peers c)))) ∅
  | None => ∅
  end.

(** The records that [upsert_dns_peers] hands to the resolver *)
Definition dns_peers (use_nicknames : bool) (r : RequestedState) : Records :=
  collect_dns_records r ∪ (if use_nicknames then collect_dns_nickname_records r else ∅).
Definition dns_peer_records (use_nicknames : bool) (r : RequestedState) : Records :=
  let peers := dns_peers use_nicknames r in
  kmap (String.append "*.") peers ∪ peers.
End records.
