(* ===== verification/Device.v ===== *)
(** * The runtime of the device

    [Runtime] of [src/src/device.rs]: the requested state, the calls of the
    integrators that change it, the lifecycle of the meshnet components and the
    events that go out.  Every call ends in a consolidation of the WireGuard
    interface ([Consolidation]) where the source has one.

    The components are a world: the post-quantum entity of [PostQuantum], and
    around it the operations of [Entities], which the controller also uses, and
    of [DeviceOps], which only the runtime uses.  Reading the time is reading
    the clock of that world. *)

From S2P Require Import Prelude NetTypes WgTypes LruCache Firewall LinkDetection Wg Controller.
From S2P Require Import Consolidation PostQuantum DeviceTypes.

Open Scope act_scope.

(** ** What the runtime uses of the components *)

(** [ProxyConfig] *)
Record ProxyConfig := mkProxyConfig { proxy_wg_port : option Z; proxy_peers : gset PublicKey }.

(** [StarcastPeerConfig] *)
Record StarcastPeerConfig := mkStarcastPeerConfig { starcast_public_key : PublicKey; starcast_wg_port : Z }.

(** The optional tasks of a running meshnet: [DirectEntities] and
    [MeshnetEntities] *)
Record DirectEntities := mkDirectEntities {
  local_provider : bool;
  stun_provider : bool;
  upnp_provider : bool
}.
Record MeshnetEntities := mkMeshnetEntities {
  direct : option DirectEntities;
  starcast : bool;
  session_keeper : bool
}.

(** The tasks that [MeshnetEntities::stop] and [Runtime::stop] stop *)
Inductive MeshTask :=
| UpgradeSyncTask
| CrossPingCheckTask
| LocalInterfacesTask
| StunTask
| UpnpTask
| SessionKeeperTask
| MultiplexerTask
| DerpTask
| UdpProxyTask
| StarcastPeerTask
| StarcastTransportTask
| NurseTask
| WireGuardTask.

Section ops.
Context `{IpNets}.

Class DeviceOps (W : Type) := {
  (** [WireGuard] *)
  wg_wait_for_listen_port : Duration → act W CtlError Z;
  wg_wait_for_proxy_listen_port : Duration → act W CtlError Z;
  wg_set_ip_stack : option IpStack → act W CtlError unit;
  wg_drop_connected_sockets : act W CtlError unit;
  wg_reset_existing_connections : PublicKey → Z → act W CtlError unit;
  (** [LocalDnsResolver] and the place where it is kept *)
  dns_new : PublicKey → Z → list StdIpAddr → option (option bool) → act W CtlError Resolver;
  dns_start : Resolver → W → W;
  dns_set_resolver : option Resolver → W → W;
  dns_forward : Resolver → list StdIpAddr → act W CtlError unit;
  dns_upsert : Resolver → string → Records → Z → act W CtlError unit;
  dns_stop : Resolver → W → W;
  dns_auto_switch_ips : Resolver → bool;
  dns_default_servers : Resolver → list StdIpAddr;
  (** [UdpProxy] *)
  proxy_configure : ProxyConfig → act W CtlError unit;
  proxy_on_network_change : W → W;
  (** [StarcastPeer] and [Transport] *)
  starcast_transport_configure : list (PublicKey * StdIpAddr * bool * bool) → act W CtlError unit;
  starcast_vpeer_configure : StarcastPeerConfig → act W CtlError unit;
  (** [DerpRelay] *)
  derp_configure : option DerpConfig → W → W;
  derp_get_config : W → option DerpConfig;
  derp_reconnect : W → W;
  (** [EndpointProvider] *)
  stun_configure : list Server → bool → W → W;
  stun_reconnect : W → W;
  local_trigger_discovery : bool → act W CtlError unit;
  upnp_trigger_discovery : bool → act W CtlError unit;
  (** [CrossPingCheck] and [UpgradeSync] *)
  cpc_set_config : option MeshConfig → act W CtlError unit;
  us_set_public_key : PublicKey → act W CtlError unit;
  us_clear_accepted_session : PublicKey → W → W;
  (** starting and stopping the meshnet components *)
  start_multiplexer : act W CtlError unit;
  start_session_keeper : bool → act W CtlError unit;
  start_local_provider : act W CtlError unit;
  start_stun_provider : act W CtlError unit;
  start_upnp_provider : act W CtlError unit;
  start_cross_ping_check : act W CtlError unit;
  start_upgrade_sync : PublicKey → act W CtlError unit;
  start_starcast_peer : bool → act W CtlError unit;
  start_starcast_transport : StdIpAddr → act W CtlError unit;
  stop_task : MeshTask → W → W;
  (** analytics, sockets and path MTU discovery, which do nothing when they are
      not enabled *)
  nurse_configure_meshnet : bool → W → W;
  nurse_set_private_key : SecretKey → W → W;
  nurse_config_update : MeshConfigUpdateEvent → W → W;
  aggregator_set_local_key : PublicKey → W → W;
  aggregator_force_save : W → W;
  aggregator_clear_segments : W → W;
  socket_pool_set_fwmark : Z → W → W;
  set_should_bind : bool → W → W;
  pmtu_run : StdIpAddr → W → W;
  pmtu_stop : W → W;
  (** [StatefullFirewall::remove_vpn_peer] *)
  firewall_remove_vpn_peer : W → W
}.

(** [device::Error], as far as the calls of the runtime produce it; the errors
    of the components carry what the component reported *)
Inductive DevError :=
| MeshnetNotConfigured
| AdapterConfig
| BadPrivateKey
| BadPublicKey
| InvalidNode
| EndpointNotProvided
| NoMeshnetIP
| DnsNotDisabled
| MeshnetUnavailableWithPQ
| DnsResolverError (e : CtlError)
| ControllerError (e : CtlError)
| ComponentError (e : CtlError).
End ops.

(** ** The state *)

(** [MeshnetState] *)
Inductive MeshnetState :=
| MeshEntities (m : MeshnetEntities)
| LastState (endpoint_map : EndpointMap).

(** [MeshnetState::left] *)
Definition left_entities (m : MeshnetState) : option MeshnetEntities :=
  match m with MeshEntities m => Some m | LastState _ => None end.

Section state.
Context `{IpNets} {W : Type}.

(** [Runtime]: the requested state, with the two fields that the controller
    does not read, the components, the events published so far and the last
    event of every node *)
Record Runtime := mkRuntime {
  rt_features : DeviceFeatures;
  requested_state : RequestedState;
  old_meshnet_config : option MeshConfig;
  last_exit_node : option ExitNode;
  meshnet : MeshnetState;
  world : PqWorld W;
  published : list DevEvent;
  last_transmitted_event : gmap PublicKey Node
}.

Definition set_features f (rt : Runtime) : Runtime :=
  mkRuntime f (requested_state rt) (old_meshnet_config rt) (last_exit_node rt) (meshnet rt) (world rt)
    (published rt) (last_transmitted_event rt).
Definition set_requested r (rt : Runtime) : Runtime :=
  mkRuntime (rt_features rt) r (old_meshnet_config rt) (last_exit_node rt) (meshnet rt) (world rt)
    (published rt) (last_transmitted_event rt).
Definition set_old_config c (rt : Runtime) : Runtime :=
  mkRuntime (rt_features rt) (requested_state rt) c (last_exit_node rt) (meshnet rt) (world rt)
    (published rt) (last_transmitted_event rt).
Definition set_last_exit e (rt : Runtime) : Runtime :=
  mkRuntime (rt_features rt) (requested_state rt) (old_meshnet_config rt) e (meshnet rt) (world rt)
    (published rt) (last_transmitted_event rt).
Definition set_meshnet m (rt : Runtime) : Runtime :=
  mkRuntime (rt_features rt) (requested_state rt) (old_meshnet_config rt) (last_exit_node rt) m (world rt)
    (published rt) (last_transmitted_event rt).
Definition set_world w (rt : Runtime) : Runtime :=
  mkRuntime (rt_features rt) (requested_state rt) (old_meshnet_config rt) (last_exit_node rt) (meshnet rt) w
    (published rt) (last_transmitted_event rt).
Definition set_events es last (rt : Runtime) : Runtime :=
  mkRuntime (rt_features rt) (requested_state rt) (old_meshnet_config rt) (last_exit_node rt) (meshnet rt)
    (world rt) es last.

(** Changes of the requested state *)
Definition request_key k (r : RequestedState) : RequestedState :=
  mkRequestedState k (device_fwmark r) (meshnet_config r) (exit_node r) (upstream_servers r)
    (wg_stun_server r) (keepalive_periods r).
Definition request_fwmark m (r : RequestedState) : RequestedState :=
  mkRequestedState (device_private_key r) m (meshnet_config r) (exit_node r) (upstream_servers r)
    (wg_stun_server r) (keepalive_periods r).
Definition request_config c (r : RequestedState) : RequestedState :=
  mkRequestedState (device_private_key r) (device_fwmark r) c (exit_node r) (upstream_servers r)
    (wg_stun_server r) (keepalive_periods r).
Definition request_exit e (r : RequestedState) : RequestedState :=
  mkRequestedState (device_private_key r) (device_fwmark r) (meshnet_config r) e (upstream_servers r)
    (wg_stun_server r) (keepalive_periods r).
Definition request_dns d (r : RequestedState) : RequestedState :=
  mkRequestedState (device_private_key r) (device_fwmark r) (meshnet_config r) (exit_node r) d
    (wg_stun_server r) (keepalive_periods r).
Definition request_stun s (r : RequestedState) : RequestedState :=
  mkRequestedState (device_private_key r) (device_fwmark r) (meshnet_config r) (exit_node r)
    (upstream_servers r) s (keepalive_periods r).
End state.
Arguments Runtime {_} W.

(** ** The calls *)

Section runtime.
Context `{IpNets} `{!HashOrder PublicKey} {W F : Type} `{!FirewallApi F} `{!Entities W F} `{!DeviceOps W}.

Abbreviation run := (act (Runtime W) DevError).
Abbreviation key_public := (secret_public (W:=W) (F:=F)).

(** A call to a component *)
Definition call {A} (error : CtlError → DevError) (m : act (PqWorld W) CtlError A) : run A := λ rt,
  let '(r, w) := m (world rt) in
  (match r with Ok a => Ok a | Err e => Err (error e) end, set_world w rt).
Definition component {A} (m : act W CtlError A) : run A := call ComponentError (act_others m).
Definition tell (f : W → W) : run unit := act_modify (λ rt, set_world (on_others f (world rt)) rt).
Definition pq (f : Instant → PqEntity → PqEntity) : run unit :=
  act_modify (λ rt, set_world (on_entity f (world rt)) rt).
Definition request (f : RequestedState → RequestedState) : run unit :=
  act_modify (λ rt, set_requested (f (requested_state rt)) rt).

(** The components that the controller finds in [Entities] *)
Definition present (m : MeshnetState) : Present :=
  match m with
  | MeshEntities m =>
      mkPresent true (bool_decide (is_Some (direct m))) (bool_decide (is_Some (direct m)))
        (session_keeper m) (from_option stun_provider false (direct m))
        (from_option upnp_provider false (direct m)) (starcast m)
  | LastState _ => mkPresent false false false false false false false
  end.

(** [wg_controller::consolidate_wg_state(..).await?] *)
Definition consolidate : run unit := λ rt,
  call ControllerError
    (consolidate_wg_state (F:=F) (pq_clock (world rt)) (requested_state rt) (present (meshnet rt))
       (ctl_features (rt_features rt))) rt.

Definition get_resolver (rt : Runtime W) : option Resolver := dns_resolver (pq_others (world rt)).

(** *** DNS *)

(** [upsert_dns_peers] *)
Definition upsert_dns_peers : run unit :=
  rt <-- act_get ;;
  match get_resolver rt with
  | Some dns =>
      call DnsResolverError (act_others
        (dns_upsert dns "nord" (dns_peer_records (nicknames (rt_features rt)) (requested_state rt))
           (ttl_value (rt_features rt))))
  | None => act_ret tt
  end.

(** [reconfigure_dns_peer] *)
Definition reconfigure_dns_peer (dns : Resolver) (forward_ips : list StdIpAddr) : run unit :=
  act_when (dns_auto_switch_ips dns) (call DnsResolverError (act_others (dns_forward dns forward_ips))).

(** [start_dns] *)
Definition rt_start_dns (upstream_dns_servers : list StdIpAddr) : run unit :=
  request (request_dns (Some upstream_dns_servers)) ;;;
  itf <-- component wg_get_interface ;;
  key <-- act_ok_or (private_key itf) AdapterConfig ;;
  rt <-- act_get ;;
  match get_resolver rt with
  | Some dns => call DnsResolverError (act_others (dns_forward dns upstream_dns_servers))
  | None =>
      port <-- component (wg_wait_for_listen_port (from_millis 100)) ;;
      dns <-- call DnsResolverError
        (act_others (dns_new (key_public key) port upstream_dns_servers (exit_dns (rt_features rt)))) ;;
      tell (dns_start dns) ;;;
      tell (dns_set_resolver (Some dns))
  end ;;;
  upsert_dns_peers ;;;
  consolidate.

(** [stop_dns] *)
Definition rt_stop_dns : run unit :=
  request (request_dns None) ;;;
  rt <-- act_get ;;
  match get_resolver rt with
  | Some dns => tell (dns_set_resolver None) ;;; tell (dns_stop dns)
  | None => act_ret tt
  end ;;;
  consolidate.

(** *** Keys, marks and the network *)

(** [set_private_key] *)
Definition rt_set_private_key (key : SecretKey) : run unit :=
  rt <-- act_get ;;
  if validate_keys (rt_features rt) && bool_decide (is_Some (meshnet_config (requested_state rt))) &&
     negb (bool_decide (device_private_key (requested_state rt) = key))
  then act_fail BadPublicKey
  else if bool_decide (is_Some (get_resolver rt)) then act_fail DnsNotDisabled
  else
    match left_entities (meshnet rt) with
    | Some m =>
        tell (λ w, derp_configure
          ((λ c, mkDerpConfig key (derp_sorted_servers c) (derp_meshnet_peers c) (derp_timeout c)
                   (derp_server_keepalives c) (derp_enable_polling c)
                   (derp_built_in_root_certificates c)) <$> derp_get_config w) w) ;;;
        act_when (bool_decide (is_Some (direct m)))
          (act_ignore (component (us_set_public_key (key_public key))))
    | None => act_ret tt
    end ;;;
    tell (aggregator_set_local_key (key_public key)) ;;;
    request (request_key key) ;;;
    tell (nurse_set_private_key key) ;;;
    consolidate.

(** [set_fwmark] *)
Definition rt_set_fwmark (mark : Z) : run unit :=
  request (request_fwmark (Some mark)) ;;;
  tell (socket_pool_set_fwmark mark) ;;;
  consolidate.

(** [notify_network_change] *)
Definition notify_network_change : run unit :=
  component wg_drop_connected_sockets ;;;
  rt <-- act_get ;;
  match left_entities (meshnet rt) with
  | Some m =>
      tell proxy_on_network_change ;;;
      match direct m with
      | Some d =>
          act_when (stun_provider d) (tell stun_reconnect) ;;;
          act_when (upnp_provider d) (tell upnp_unpause)
      | None => act_ret tt
      end ;;;
      tell derp_reconnect
  | None => act_ret tt
  end.

(** [notify_sleep] and [notify_wakeup] *)
Definition notify_sleep : run unit := tell aggregator_force_save.
Definition notify_wakeup : run unit := tell aggregator_clear_segments.

(** *** The meshnet components *)

(** [build_starcast] *)
Definition build_starcast : run bool :=
  rt <-- act_get ;;
  if multicast (rt_features rt) then
    component (start_starcast_peer (ipv6 (ctl_features (rt_features rt)))) ;;;
    config <-- act_ok_or (meshnet_config (requested_state rt)) MeshnetNotConfigured ;;
    ips <-- act_ok_or (base_ip_addresses (this config)) NoMeshnetIP ;;
    ip <-- act_ok_or (head ips) NoMeshnetIP ;;
    component (start_starcast_transport ip) ;;;
    act_ret true
  else act_ret false.

(** [has_provider] of [start_meshnet_entities] *)
Definition has_provider (providers : option (list EndpointType)) (p : EndpointType) : bool :=
  match providers with
  | Some l => bool_decide (p ∈ l)
  | None => negb (bool_decide (p = Upnp))
  end.

(** The direct entities of [start_meshnet_entities] *)
Definition start_direct_entities (providers : option (list EndpointType)) : run DirectEntities :=
  act_when (has_provider providers Local) (component start_local_provider) ;;;
  act_when (has_provider providers Stun) (component start_stun_provider) ;;;
  act_when (has_provider providers Upnp) (component start_upnp_provider) ;;;
  component start_cross_ping_check ;;;
  rt <-- act_get ;;
  component (start_upgrade_sync (key_public (device_private_key (requested_state rt)))) ;;;
  act_ret (mkDirectEntities (has_provider providers Local) (has_provider providers Stun)
             (has_provider providers Upnp)).

(** [start_meshnet_entities] *)
Definition start_meshnet_entities : run MeshnetEntities :=
  component start_multiplexer ;;;
  tell (nurse_configure_meshnet true) ;;;
  rt <-- act_get ;;
  keeper <-- act_ok (component (start_session_keeper (batching (ctl_features (rt_features rt))))) ;;
  let has_keeper := bool_decide (is_Some keeper) in
  act_when (negb has_keeper) (act_modify (λ rt, set_features (disable_batching (rt_features rt)) rt)) ;;;
  direct <--
    match has_keeper, direct_providers (rt_features rt) with
    | true, Some providers => d <-- start_direct_entities providers ;; act_ret (Some d)
    | _, _ => act_ret None
    end ;;
  cast <-- act_ok build_starcast ;;
  act_ret (mkMeshnetEntities direct (default false cast) has_keeper).

(** [MeshnetEntities::stop] *)
Definition stop_meshnet_entities (m : MeshnetEntities) : run EndpointMap :=
  match direct m with
  | Some d =>
      tell (stop_task UpgradeSyncTask) ;;;
      tell (stop_task CrossPingCheckTask) ;;;
      act_when (local_provider d) (tell (stop_task LocalInterfacesTask)) ;;;
      act_when (stun_provider d) (tell (stop_task StunTask)) ;;;
      act_when (upnp_provider d) (tell (stop_task UpnpTask))
  | None => act_ret tt
  end ;;;
  act_when (session_keeper m) (tell (stop_task SessionKeeperTask)) ;;;
  tell (stop_task MultiplexerTask) ;;;
  tell (stop_task DerpTask) ;;;
  endpoint_map <-- act_ok (component proxy_get_endpoint_map) ;;
  tell (stop_task UdpProxyTask) ;;;
  act_when (starcast m)
    (tell (stop_task StarcastPeerTask) ;;; tell (stop_task StarcastTransportTask)) ;;;
  act_ret (default ∅ endpoint_map).

(** *** The configuration *)

(** The multicast peers of a configuration *)
Definition multicast_peers (c : MeshConfig) : list (PublicKey * StdIpAddr * bool * bool) :=
  omap (λ p,
    ip ← head (filter (λ ip, is_ipv4 ip = true) (default [] (mesh_ips p)));
    Some (mesh_key p, ip, allow_multicast p, peer_allows_multicast p))
    (filter (λ p, allow_multicast p || peer_allows_multicast p = true) (config_peers c)).

(** The relay configuration that [set_config] makes *)
Definition derp_config (f : DeviceFeatures) (secret : SecretKey) (c : Config) (keys : gset PublicKey)
    : DerpConfig :=
  let derp := default feature_derp_default (derp_feature f) in
  mkDerpConfig secret (sorted_servers (default [] (derp_servers c))) keys (from_secs 10)
    (derp_keepalive_config (derp_feature f)) (default false (enable_polling derp))
    (use_built_in_root_certificates derp).

(** [set_config] with a configuration: the components of the meshnet.  The IP
    stack of the node is computed for a call that is never awaited: the
    future around [set_ip_stack] is dropped. *)
Definition configure_meshnet (config : Config) (secret : SecretKey) (keys : gset PublicKey) : run unit :=
  let mesh := config_mesh config in
  wg_port <-- component (wg_wait_for_proxy_listen_port (from_secs 1)) ;;
  rt <-- act_get ;;
  act_modify (set_meshnet (LastState ∅)) ;;;
  m <-- match meshnet rt with
        | MeshEntities m => act_ret m
        | LastState _ => start_meshnet_entities
        end ;;
  component (proxy_configure (mkProxyConfig (Some wg_port) keys)) ;;;
  act_when (starcast m)
    (component (starcast_transport_configure (multicast_peers mesh)) ;;;
     component (starcast_vpeer_configure (mkStarcastPeerConfig (key_public secret) wg_port))) ;;;
  rt <-- act_get ;;
  tell (derp_configure (Some (derp_config (rt_features rt) secret config keys))) ;;;
  act_when (from_option stun_provider false (direct m))
    (tell (stun_configure (default [] (derp_servers config))
       (ipv6 (ctl_features (rt_features rt)) &&
        existsb (λ a, negb (is_ipv4 a)) (default [] (base_ip_addresses (this mesh)))))) ;;;
  act_modify (set_meshnet (MeshEntities m)) ;;;
  upsert_dns_peers.

(** [set_config] without a configuration: the meshnet ends. *)
Definition end_meshnet : run unit :=
  act_ignore (component (wg_set_ip_stack None)) ;;;
  tell (nurse_configure_meshnet false) ;;;
  rt <-- act_get ;;
  act_modify (set_meshnet (LastState ∅)) ;;;
  match meshnet rt with
  | MeshEntities m =>
      endpoint_map <-- stop_meshnet_entities m ;;
      act_modify (set_meshnet (LastState endpoint_map))
  | LastState _ => act_ret tt
  end ;;;
  request (request_stun None) ;;;
  upsert_dns_peers.

(** [set_config]: an exit node of the meshnet that ends *)
Definition clear_meshnet_exit_node : run unit :=
  rt <-- act_get ;;
  match meshnet_config (requested_state rt), exit_node (requested_state rt), old_meshnet_config rt with
  | None, Some e, Some old =>
      act_when (existsb (λ p, bool_decide (exit_public_key e = mesh_key p)) (config_peers old))
        (request (request_exit None))
  | _, _, _ => act_ret tt
  end.

(** The endpoint providers, in the order they were started *)
Definition trigger_endpoint_providers : run unit :=
  rt <-- act_get ;;
  match left_entities (meshnet rt) ≫= direct with
  | Some d =>
      act_when (local_provider d) (act_ignore (component (local_trigger_discovery true))) ;;;
      act_when (stun_provider d)
        (act_ignore (component (stun_trigger_endpoint_candidates_discovery true))) ;;;
      act_when (upnp_provider d) (act_ignore (component (upnp_trigger_discovery true)))
  | None => act_ret tt
  end.

(** [set_config] *)
Definition rt_set_config (config : option Config) : run unit :=
  rt <-- act_get ;;
  let mesh := config_mesh <$> config in
  if pq_is_rotating_keys (F:=F) (world rt) && bool_decide (is_Some config)
  then act_fail MeshnetUnavailableWithPQ
  else if validate_keys (rt_features rt) &&
          from_option (λ c, negb (bool_decide (base_public_key (this c) =
            key_public (device_private_key (requested_state rt))))) false mesh
  then act_fail BadPublicKey
  else
    act_modify (λ rt, set_old_config (meshnet_config (requested_state rt)) rt) ;;;
    request (request_config mesh) ;;;
    itf <-- component wg_get_interface ;;
    secret <-- act_ok_or (private_key itf) BadPrivateKey ;;
    match config with
    | Some c => configure_meshnet c secret (list_to_set (mesh_key <$> config_peers (config_mesh c)))
    | None => end_meshnet
    end ;;;
    rt <-- act_get ;;
    act_when (has_cross_ping_check (present (meshnet rt))) (component (cpc_set_config mesh)) ;;;
    clear_meshnet_exit_node ;;;
    consolidate ;;;
    trigger_endpoint_providers ;;;
    tell (nurse_config_update (config_update_event mesh)).

(** *** Exit nodes *)

Definition find_mesh_peer (k : PublicKey) (c : option MeshConfig) : option MeshPeer :=
  c ← c; peers ← mesh_peers c; snd <$> list_find (λ p, mesh_key p = k) peers.

(** The address of the last exit node whose connections are reset *)
Definition last_exit_ipv4 (r : RequestedState) (last_exit : ExitNode) : Z :=
  match meshnet_config r with
  | Some _ =>
      default (ipv4_addr 100 64 0 1)
        (p ← find_mesh_peer (exit_public_key last_exit) (meshnet_config r);
         ips ← mesh_ips p;
         head (omap (λ ip, match ip with V4 ip => Some ip | V6 _ => None end) ips))
  | None => ipv4_addr 10 5 0 1
  end.

(** [connect_exit_node_internal] *)
Definition connect_exit_node_internal (e : ExitNode) (postquantum : bool) : run unit :=
  pq (λ _, entity_stop) ;;;
  act_when postquantum
    (addr <-- act_ok_or (exit_endpoint e) EndpointNotProvided ;;
     rt <-- act_get ;;
     pq (λ _, entity_start addr (device_private_key (requested_state rt)) (exit_public_key e))) ;;;
  tell (set_should_bind true) ;;;
  rt <-- act_get ;;
  match find_mesh_peer (exit_public_key e) (meshnet_config (requested_state rt)), exit_endpoint e with
  | Some _, _ =>
      match get_resolver rt with
      | Some dns => reconfigure_dns_peer dns (dns_default_servers dns)
      | None => act_ret tt
      end
  | None, Some addr => tell (pmtu_run (socket_ip addr))
  | None, None => act_fail EndpointNotProvided
  end ;;;
  rt <-- act_get ;;
  let old_exit_node := exit_node (requested_state rt) in
  request (request_exit (Some e)) ;;;
  consolidate ;;;
  rt <-- act_get ;;
  match (match old_exit_node with Some old => Some old | None => last_exit_node rt end) with
  | Some last_exit =>
      component (wg_reset_existing_connections (exit_public_key last_exit)
        (last_exit_ipv4 (requested_state rt) last_exit))
  | None => act_ret tt
  end.

(** [connect_exit_node] *)
Definition connect_exit_node (e : ExitNode) : run unit := connect_exit_node_internal e false.

(** [connect_exit_node_pq] *)
Definition connect_exit_node_pq (e : ExitNode) : run unit := λ rt,
  match meshnet_config (requested_state rt) with
  | Some _ => (Err MeshnetUnavailableWithPQ, rt)
  | None =>
      let '(res, rt) := connect_exit_node_internal e true rt in
      (res, match res with Ok _ => rt | Err _ => (pq (λ _, entity_stop) rt).2 end)
  end.

(** [disconnect_exit_nodes] *)
Definition disconnect_exit_nodes : run unit :=
  rt <-- act_get ;;
  match exit_node (requested_state rt) with
  | Some e =>
      request (request_exit None) ;;;
      act_modify (set_last_exit (Some e)) ;;;
      tell (set_should_bind false) ;;;
      match get_resolver rt, upstream_servers (requested_state rt) with
      | Some dns, Some forward_dns => reconfigure_dns_peer dns forward_dns
      | _, _ => act_ret tt
      end ;;;
      consolidate
  | None => act_ret tt
  end ;;;
  pq (λ _, entity_stop) ;;;
  tell pmtu_stop.

(** [disconnect_exit_node] *)
Definition disconnect_exit_node (k : PublicKey) : run unit :=
  rt <-- act_get ;;
  match exit_node (requested_state rt) with
  | Some e =>
      if bool_decide (exit_public_key e = k) then
        tell firewall_remove_vpn_peer ;;; disconnect_exit_nodes
      else act_fail InvalidNode
  | None => act_fail InvalidNode
  end.

(** *** Nodes *)

(** [is_unspecified] *)
Definition is_unspecified (a : StdIpAddr) : bool := match a with V4 x | V6 x => (x =? 0)%Z end.

(** The exit node that [peer_to_node] recognises *)
Definition reported_exit_node (rt : Runtime W) (k : PublicKey) : option ExitNode :=
  match (match exit_node (requested_state rt) with Some e => Some e | None => last_exit_node rt end) with
  | Some e => if bool_decide (exit_public_key e = k) then Some e else None
  | None => None
  end.

(** The meshnet peer that [peer_to_node] recognises *)
Definition reported_mesh_peer (rt : Runtime W) (k : PublicKey) : option MeshPeer :=
  match find_mesh_peer k (meshnet_config (requested_state rt)) with
  | Some p => Some p
  | None => find_mesh_peer k (old_meshnet_config rt)
  end.

(** [peer_to_node] *)
Definition peer_to_node (p : Peer) (state : option NodeState) (link : option LinkState)
    : run (option Node) :=
  rt <-- act_get ;;
  endpoint_map <--
    match meshnet rt with
    | MeshEntities _ => m <-- act_ok (component proxy_get_endpoint_map) ;; act_ret (default ∅ m)
    | LastState m => act_ret m
    end ;;
  let path := if is_peer_proxying p endpoint_map then PathRelay else PathDirect in
  let state := default (peer_node_state p) state in
  act_ret
    match reported_mesh_peer rt (public_key p), reported_exit_node rt (public_key p) with
    | Some mp, _ =>
        Some (mkNode (identifier (base mp)) (base_public_key (base mp)) (nickname (base mp)) state link
          (existsb (λ n, is_unspecified (ipnet_addr n)) (allowed_ips p)) false
          (default [] (base_ip_addresses (base mp))) (allowed_ips p) (endpoint p)
          (Some (hostname (base mp))) (allow_incoming_connections mp) (allow_peer_traffic_routing mp)
          (allow_peer_local_network_access mp) (allow_peer_send_files mp) path
          (allow_multicast mp) (peer_allows_multicast mp))
    | None, Some e => Some (node_with_path (allowed_ips p) path (node_with_state state link (node_from_exit_node e)))
    | None, None => None
    end.

(** [external_nodes]: the peers of the interface in the order of their keys *)
Definition external_nodes : run (list Node) :=
  itf <-- component wg_get_interface ;;
  act_foldl (λ nodes kp,
    node <-- peer_to_node kp.2 None None ;;
    act_ret (nodes ++ match node with Some n => [n] | None => [] end)) [] (btree_iter (peers itf)).

(** *** Events *)

(** [is_dublicated_event] *)
Definition is_dublicated_event (rt : Runtime W) (n : Node) : bool :=
  match last_transmitted_event rt !! node_public_key n with
  | None => bool_decide (node_state n = Disconnected)
  | Some last => bool_decide (n = last)
  end.

(** [should_supress_disconnected] *)
Definition should_supress_disconnected (rt : Runtime W) (n : Node) : bool :=
  match pq_peer_pubkey (F:=F) (world rt) with
  | Some k => bool_decide (node_public_key n = k) && bool_decide (node_state n = Disconnected)
  | None => false
  end.

(** [remember_last_transmitted_node_event] after sending the event *)
Definition publish_node (n : Node) : run unit :=
  act_modify (λ rt,
    set_events (published rt ++ [NodeEvent n])
      (if bool_decide (node_state n = Disconnected)
       then delete (node_public_key n) (last_transmitted_event rt)
       else <[node_public_key n := n]> (last_transmitted_event rt)) rt).

(** The downgrade of a connection, in the branch of the WireGuard events *)
Definition on_downgrade (m : MeshnetEntities) (ev : Event) : run unit :=
  let k := public_key (event_peer ev) in
  endpoint_map <-- act_ok (component proxy_get_endpoint_map) ;;
  match endpoint_map ≫= (.!! k) with
  | Some proxy_endpoints =>
      let proxying (e : option SocketAddr) :=
        match e with Some e => bool_decide (e ∈ proxy_endpoints) | None => false end in
      let is_proxying := proxying (endpoint (event_peer ev)) in
      let was_proxying := proxying (event_old_peer ev ≫= endpoint) in
      act_when (negb was_proxying && is_proxying)
        (act_when (bool_decide (is_Some (direct m)))
           (component (cpc_notify_failed_wg_connection k) ;;; tell (us_clear_accepted_session k)) ;;;
         component (proxy_mute_peer k None))
  | None => act_ret tt
  end.

(** The branch of the WireGuard events *)
Definition on_wg_event (ev : Event) : run unit :=
  rt <-- act_get ;;
  match left_entities (meshnet rt) with
  | Some m => on_downgrade m ev
  | None => act_ret tt
  end ;;;
  node <-- peer_to_node (event_peer ev) (Some (event_state ev)) (event_link_state ev) ;;
  rt <-- act_get ;;
  match node with
  | Some n =>
      act_when (negb (is_dublicated_event rt n) && negb (should_supress_disconnected rt n))
        (publish_node n)
  | None => act_ret tt
  end.

(** The branch of the relay events *)
Definition on_derp_event (s : Server) : run unit :=
  act_modify (λ rt, set_events (published rt ++ [RelayEvent s]) (last_transmitted_event rt) rt).

(** The branches of the endpoint events, of the upgrade requests and of the
    tick: the errors of the controller are logged *)
Definition on_trigger : run unit := act_ignore consolidate.

(** The branch of the STUN servers *)
Definition on_stun_server (s : option StunServer) : run unit :=
  request (request_stun s) ;;; act_ignore consolidate.

(** The node of a post-quantum event *)
Definition pq_event_node (rt : Runtime W) (ev : PqEvent) : option Node :=
  let link := if link_detection_feature (rt_features rt) then Some Down else None in
  match ev, exit_node (requested_state rt), last_exit_node rt with
  | PqConnecting k, Some e, _ =>
      if bool_decide (exit_public_key e = k)
      then Some (node_with_state Connecting link (node_from_exit_node e)) else None
  | PqDisconnected k, _, Some e =>
      if bool_decide (exit_public_key e = k)
      then Some (node_with_state Disconnected link (node_from_exit_node e)) else None
  | _, _, _ => None
  end.

(** The branch of the post-quantum events *)
Definition on_pq_event (ev : PqEvent) : run unit :=
  rt <-- act_get ;;
  match pq_event_node rt ev with
  | Some n => act_when (negb (is_dublicated_event rt n)) (publish_node n)
  | None => act_ret tt
  end ;;;
  pq (λ now, entity_on_event now ev) ;;;
  act_ignore consolidate.

(** Receive the next post-quantum event *)
Definition recv_pq_event : run unit :=
  rt <-- act_get ;;
  match pq_chan (pq_entity (world rt)) with
  | ev :: rest => pq (λ _ e, mkPqEntity (pq_peer e) rest) ;;; on_pq_event ev
  | [] => act_ret tt
  end.

(** ** What the runtime reacts to *)

Inductive Input :=
| SetConfig (c : option Config)
| SetPrivateKey (k : SecretKey)
| SetFwmark (m : Z)
| StartDns (servers : list StdIpAddr)
| StopDns
| ConnectExitNode (e : ExitNode)
| ConnectExitNodePq (e : ExitNode)
| DisconnectExitNode (k : PublicKey)
| DisconnectExitNodes
| NetworkChange
| Sleep
| Wakeup
| WgEvent (ev : Event)
| RelayServerEvent (s : Server)
| Trigger
| StunServerEvent (s : option StunServer)
| RecvPqEvent.

(** [wait_with_update]: one input *)
Definition rt_exec (i : Input) : run unit :=
  match i with
  | SetConfig c => rt_set_config c
  | SetPrivateKey k => rt_set_private_key k
  | SetFwmark m => rt_set_fwmark m
  | StartDns l => rt_start_dns l
  | StopDns => rt_stop_dns
  | ConnectExitNode e => connect_exit_node e
  | ConnectExitNodePq e => connect_exit_node_pq e
  | DisconnectExitNode k => disconnect_exit_node k
  | DisconnectExitNodes => disconnect_exit_nodes
  | NetworkChange => notify_network_change
  | Sleep => notify_sleep
  | Wakeup => notify_wakeup
  | WgEvent ev => on_wg_event ev
  | RelayServerEvent s => on_derp_event s
  | Trigger => on_trigger
  | StunServerEvent s => on_stun_server s
  | RecvPqEvent => recv_pq_event
  end.

(** [Runtime::stop]; the runtime itself is gone afterwards *)
Definition rt_stop : run unit :=
  act_ignore rt_stop_dns ;;;
  tell (nurse_configure_meshnet false) ;;;
  rt <-- act_get ;;
  match meshnet rt with
  | MeshEntities m => stop_meshnet_entities m ;;; act_ret tt
  | LastState _ => act_ret tt
  end ;;;
  tell (stop_task NurseTask) ;;;
  tell (stop_task WireGuardTask).

(** [Runtime::start]: a device with no requests but its key *)
Definition rt_start (f : DeviceFeatures) (key : SecretKey) (mark : option Z)
    (periods : FeaturePersistentKeepalive) (w : PqWorld W) : Runtime W :=
  mkRuntime f (mkRequestedState key mark None None None None periods) None None (LastState ∅) w [] ∅.
End runtime.
Arguments Input {_}.
