(* ===== verification/DeviceFrame.v ===== *)
(** * What the runtime leaves alone

    A frame rule for the controller and for the runtime: a predicate on the
    components that every operation keeps is kept by the consolidation and by
    every input of the runtime.  The operations are the ones of [Entities]
    ([EntitiesKeep]) and of [DeviceOps] ([DeviceOpsKeep]); of the calls that
    set the IP stack, only the one that clears it. *)

From S2P Require Import Prelude NetTypes WgTypes LruCache Firewall LinkDetection Wg Controller.
From S2P Require Import Consolidation PostQuantum DeviceTypes Device.

Open Scope act_scope.

(** ** Actions that keep a predicate, whether they succeed or not *)

Definition kept {S E A} (I : S → Prop) (m : act S E A) : Prop := ∀ s, I s → I (m s).2.
Definition kept_fun {S} (I : S → Prop) (f : S → S) : Prop := ∀ s, I s → I (f s).

Section kept.
Context {S E : Type} (I : S → Prop).

Lemma kept_ret {A} (a : A) : kept I (act_ret (E:=E) a).
Proof. by intros s. Qed.
Lemma kept_fail {A} e : kept I (act_fail (E:=E) (A:=A) e).
Proof. by intros s. Qed.
Lemma kept_get : kept I (act_get (E:=E)).
Proof. by intros s. Qed.
Lemma kept_ok_or {A} (o : option A) e : kept I (act_ok_or (E:=E) o e).
Proof. by destruct o; intros s. Qed.

Lemma kept_bind {A B} (m : act S E A) (f : A → act S E B) :
  kept I m → (∀ a, kept I (f a)) → kept I (act_bind m f).
Proof.
  intros Hm Hf s Hs. unfold act_bind. specialize (Hm s Hs). destruct (m s) as [[a|e] s']; [|done].
  by apply Hf.
Qed.

(** Reading the state: the rest may use that the predicate holds of it. *)
Lemma kept_read {A} (f : S → act S E A) : (∀ s, I s → I (f s s).2) → kept I (act_bind act_get f).
Proof. intros Hf s Hs. by apply Hf. Qed.

Lemma kept_when b (m : act S E unit) : kept I m → kept I (act_when b m).
Proof. destruct b; [done|]. intros _. apply kept_ret. Qed.
Lemma kept_ignore {A} (m : act S E A) : kept I m → kept I (act_ignore m).
Proof. intros Hm s. apply Hm. Qed.
Lemma kept_ok {A} (m : act S E A) : kept I m → kept I (act_ok m).
Proof. intros Hm s Hs. specialize (Hm s Hs). unfold act_ok. by destruct (m s) as [[a|e] s']. Qed.
Lemma kept_modify f : kept_fun I f → kept I (act_modify (E:=E) f).
Proof. intros Hf s. apply Hf. Qed.
Lemma kept_lift {A} (f : S → A * S) : kept_fun I (λ s, (f s).2) → kept I (act_lift (E:=E) f).
Proof. intros Hf s Hs. specialize (Hf s Hs). unfold act_lift. simpl in Hf. by destruct (f s). Qed.
Lemma kept_for {A} (l : list A) (f : A → act S E unit) : (∀ x, kept I (f x)) → kept I (act_for l f).
Proof. intros Hf s Hs. apply act_for_inv; [|done]. intros x s' _. apply Hf. Qed.
Lemma kept_foldl {A B} (f : B → A → act S E B) b l : (∀ b x, kept I (f b x)) → kept I (act_foldl f b l).
Proof.
  intros Hf. revert b. induction l as [|x l IH]; intros b; [apply kept_ret|]. by apply kept_bind.
Qed.
Lemma kept_if (b : bool) (f g : S → S) : kept_fun I f → kept_fun I g → kept_fun I (λ s, if b then f s else g s).
Proof. by destruct b. Qed.
End kept.

Create HintDb kept.
#[export] Hint Resolve kept_ret kept_fail kept_get kept_ok_or : kept.

(** Reduce an action to the calls it is made of. *)
Ltac kept_step :=
  match goal with
  | |- forall _, _ => intro
  | |- kept _ (act_bind _ _) => apply kept_bind
  | |- kept _ (act_when _ _) => apply kept_when
  | |- kept _ (act_ignore _) => apply kept_ignore
  | |- kept _ (act_ok _) => apply kept_ok
  | |- kept _ (act_for _ _) => apply kept_for
  | |- kept _ (act_foldl _ _ _) => apply kept_foldl
  | |- kept _ (match ?x with _ => _ end) => destruct x
  | |- kept _ _ => solve [eauto with kept]
  | |- kept _ (act_modify _) => apply kept_modify
  | |- kept _ (act_lift _) => apply kept_lift
  | |- kept_fun _ _ => solve [eauto with kept]
  end.
Ltac kept_calls := repeat kept_step.

(** ** The controller *)

Class EntitiesKeep (W F : Type) `{IpNets} `{!FirewallApi F} `{!Entities W F} (I : W → Prop) : Prop := {
  keep_get_interface : kept I wg_get_interface;
  keep_time_since_last_rx k : kept I (wg_time_since_last_rx k);
  keep_get_link_state k : kept I (wg_get_link_state k);
  keep_add_peer p : kept I (wg_add_peer p);
  keep_del_peer k : kept I (wg_del_peer k);
  keep_set_secret_key k : kept I (wg_set_secret_key k);
  keep_set_fwmark m : kept I (wg_set_fwmark m);
  keep_get_endpoint_map : kept I proxy_get_endpoint_map;
  keep_mute_peer k d : kept I (proxy_mute_peer k d);
  keep_get_validated_endpoints : kept I cpc_get_validated_endpoints;
  keep_notify_failed k : kept I (cpc_notify_failed_wg_connection k);
  keep_notify_successfull k : kept I (cpc_notify_successfull_wg_connection_upgrade k);
  keep_get_upgrade_requests : kept I us_get_upgrade_requests;
  keep_request_upgrade k a b s : kept I (us_request_upgrade k a b s);
  keep_get_accepted_session k : kept_fun I (λ w, (us_get_accepted_session k w).2);
  keep_add_node k t d : kept I (sk_add_node k t d);
  keep_remove_node k : kept I (sk_remove_node k);
  keep_get_interval k : kept_fun I (λ w, (sk_get_interval k w).2);
  keep_set_peer_public_key k : kept_fun I (dns_set_peer_public_key k);
  keep_starcast_get_peer : kept I starcast_get_peer;
  keep_stun_pause : kept_fun I stun_pause;
  keep_stun_unpause : kept_fun I stun_unpause;
  keep_stun_is_paused : kept_fun I (λ w, (stun_is_paused w).2);
  keep_stun_trigger b : kept I (stun_trigger_endpoint_candidates_discovery b);
  keep_upnp_pause : kept_fun I upnp_pause;
  keep_upnp_unpause : kept_fun I upnp_unpause;
  keep_pq_restart : kept_fun I pq_restart;
  keep_report_relayed e : kept_fun I (report_peer_state_relayed e);
  keep_report_direct e a b : kept_fun I (report_peer_state_direct e a b);
  keep_get_remote_peer_states : kept_fun I (λ w, (get_remote_peer_states w).2);
  keep_set_firewall f : kept_fun I (set_world_firewall f)
}.

#[export] Hint Resolve keep_get_interface keep_time_since_last_rx keep_get_link_state keep_add_peer
  keep_del_peer keep_set_secret_key keep_set_fwmark keep_get_endpoint_map keep_mute_peer
  keep_get_validated_endpoints keep_notify_failed keep_notify_successfull keep_get_upgrade_requests
  keep_request_upgrade keep_get_accepted_session keep_add_node keep_remove_node keep_get_interval
  keep_set_peer_public_key keep_starcast_get_peer keep_stun_pause keep_stun_unpause
  keep_stun_is_paused keep_stun_trigger keep_upnp_pause keep_upnp_unpause keep_pq_restart
  keep_report_relayed keep_report_direct keep_get_remote_peer_states keep_set_firewall : kept.

Section controller.
Context `{IpNets} `{!HashOrder PublicKey} {W F : Type} `{!FirewallApi F} `{!Entities W F}.
Context (I : W → Prop) `{!EntitiesKeep W F I}.

Lemma control_providers_kept c eligible : kept_fun I (control_providers c eligible).
Proof.
  intros w Hw. unfold control_providers. destruct (has_stun c), (has_upnp c), eligible;
    repeat first [apply keep_upnp_pause | apply keep_upnp_unpause | apply keep_stun_pause |
                  apply keep_stun_unpause | done].
Qed.

Lemma upgrade_mesh_peer_kept now r c features pe rs ap ce ur k rp :
  kept I (upgrade_mesh_peer now r c features pe rs ap ce ur k rp).
Proof. unfold upgrade_mesh_peer. kept_calls. Qed.

Lemma build_requested_kept now r c pe rs features :
  kept I (build_requested_peers_list now r c pe rs features).
Proof.
  unfold build_requested_peers_list, build_requested_meshnet_peers_list, add_exit_node, add_dns_peer,
    add_starcast_peer, add_stun_peer.
  kept_calls; apply upgrade_mesh_peer_kept.
Qed.

Lemma apply_peers_kept now r c features pe requested actual :
  kept I (apply_peers now r c features pe requested actual).
Proof.
  unfold apply_peers, delete_peer, insert_peer, update_peer, update_session, report_peer,
    announce_upgrade, keep_session. kept_calls.
Qed.

Lemma consolidate_wg_state_kept now r c features :
  kept I (consolidate_wg_state (F:=F) now r c features).
Proof.
  unfold consolidate_wg_state, maybe_restart_pq, consolidate_wg_private_key, consolidate_wg_fwmark,
    consolidate_endpoint_invalidation, consolidate_wg_peers.
  kept_calls; auto using control_providers_kept, build_requested_kept, apply_peers_kept.
Qed.
End controller.

(** ** The post-quantum entity next to the other components *)

Lemma entity_restart_pubkey now e : entity_peer_pubkey (entity_restart now e) = entity_peer_pubkey e.
Proof.
  unfold entity_restart, entity_peer_pubkey. destruct (pq_peer e) as [p|] eqn:E; [|by rewrite E].
  destruct (last_handshake_ts p) as [ts|]; [|by rewrite E]. destruct (_ <? _)%Z; [done|by rewrite E].
Qed.

Lemma entity_on_event_pubkey now ev e : entity_peer_pubkey (entity_on_event now ev e) = entity_peer_pubkey e.
Proof.
  unfold entity_on_event, entity_peer_pubkey. destruct (pq_peer e) as [p|] eqn:E; [|by rewrite E].
  simpl. f_equal. by repeat case_match.
Qed.

Lemma rotating_pubkey e : entity_is_rotating_keys e = bool_decide (is_Some (entity_peer_pubkey e)).
Proof. unfold entity_is_rotating_keys, entity_peer_pubkey. by destruct (pq_peer e). Qed.

Section pq_world.
Context `{IpNets} {W F : Type} `{!FirewallApi F} `{!Entities W F} (J : W → Prop) (o : option PublicKey).

(** A predicate on the other components, and whom the tunnel is for *)
Definition pq_frame (w : PqWorld W) : Prop := J (pq_others w) ∧ entity_peer_pubkey (pq_entity w) = o.

Lemma act_others_kept {E A} (m : act W E A) : kept J m → kept pq_frame (act_others m).
Proof.
  intros Hm w [Hw Ho]. specialize (Hm _ Hw). unfold act_others, lift_others.
  by destruct (m (pq_others w)) as [r w'].
Qed.

Lemma lift_others_kept {A} (f : W → A * W) :
  kept_fun J (λ w, (f w).2) → kept_fun pq_frame (λ w, (lift_others f w).2).
Proof.
  intros Hf w [Hw Ho]. specialize (Hf _ Hw). unfold lift_others. simpl in Hf.
  by destruct (f (pq_others w)) as [r w'].
Qed.

Lemma on_others_kept (f : W → W) : kept_fun J f → kept_fun pq_frame (on_others f).
Proof. intros Hf w [Hw Ho]. split; [by apply Hf|done]. Qed.

#[export] Instance PqWorld_keep `{!EntitiesKeep W F J} : EntitiesKeep (PqWorld W) F pq_frame.
Proof.
  split; intros;
    first [apply act_others_kept | apply lift_others_kept | apply on_others_kept | idtac];
    try solve [eauto with kept].
  intros w [Hw Ho]. split; [done|]. simpl. by rewrite entity_restart_pubkey.
Qed.
End pq_world.

(** ** The runtime *)

Class DeviceOpsKeep (W : Type) `{IpNets} `{!DeviceOps W} (J : W → Prop) : Prop := {
  keep_wait_for_listen_port d : kept J (wg_wait_for_listen_port d);
  keep_wait_for_proxy_listen_port d : kept J (wg_wait_for_proxy_listen_port d);
  keep_clear_ip_stack : kept J (wg_set_ip_stack None);
  keep_drop_connected_sockets : kept J wg_drop_connected_sockets;
  keep_reset_existing_connections k ip : kept J (wg_reset_existing_connections k ip);
  keep_dns_new k p l e : kept J (dns_new k p l e);
  keep_dns_start d : kept_fun J (dns_start d);
  keep_dns_set_resolver d : kept_fun J (dns_set_resolver d);
  keep_dns_forward d l : kept J (dns_forward d l);
  keep_dns_upsert d z r t : kept J (dns_upsert d z r t);
  keep_dns_stop d : kept_fun J (dns_stop d);
  keep_proxy_configure c : kept J (proxy_configure c);
  keep_proxy_on_network_change : kept_fun J proxy_on_network_change;
  keep_starcast_transport_configure l : kept J (starcast_transport_configure l);
  keep_starcast_vpeer_configure c : kept J (starcast_vpeer_configure c);
  keep_derp_configure c : kept_fun J (derp_configure c);
  keep_derp_reconnect : kept_fun J derp_reconnect;
  keep_stun_configure l b : kept_fun J (stun_configure l b);
  keep_stun_reconnect : kept_fun J stun_reconnect;
  keep_local_trigger b : kept J (local_trigger_discovery b);
  keep_upnp_trigger b : kept J (upnp_trigger_discovery b);
  keep_cpc_set_config c : kept J (cpc_set_config c);
  keep_us_set_public_key k : kept J (us_set_public_key k);
  keep_us_clear_accepted_session k : kept_fun J (us_clear_accepted_session k);
  keep_start_multiplexer : kept J start_multiplexer;
  keep_start_session_keeper b : kept J (start_session_keeper b);
  keep_start_local_provider : kept J start_local_provider;
  keep_start_stun_provider : kept J start_stun_provider;
  keep_start_upnp_provider : kept J start_upnp_provider;
  keep_start_cross_ping_check : kept J start_cross_ping_check;
  keep_start_upgrade_sync k : kept J (start_upgrade_sync k);
  keep_start_starcast_peer b : kept J (start_starcast_peer b);
  keep_start_starcast_transport a : kept J (start_starcast_transport a);
  keep_stop_task t : kept_fun J (stop_task t);
  keep_nurse_configure_meshnet b : kept_fun J (nurse_configure_meshnet b);
  keep_nurse_set_private_key k : kept_fun J (nurse_set_private_key k);
  keep_nurse_config_update e : kept_fun J (nurse_config_update e);
  keep_aggregator_set_local_key k : kept_fun J (aggregator_set_local_key k);
  keep_aggregator_force_save : kept_fun J aggregator_force_save;
  keep_aggregator_clear_segments : kept_fun J aggregator_clear_segments;
  keep_socket_pool_set_fwmark m : kept_fun J (socket_pool_set_fwmark m);
  keep_set_should_bind b : kept_fun J (set_should_bind b);
  keep_pmtu_run a : kept_fun J (pmtu_run a);
  keep_pmtu_stop : kept_fun J pmtu_stop;
  keep_firewall_remove_vpn_peer : kept_fun J firewall_remove_vpn_peer
}.

#[export] Hint Resolve keep_wait_for_listen_port keep_wait_for_proxy_listen_port keep_clear_ip_stack
  keep_drop_connected_sockets keep_reset_existing_connections keep_dns_new keep_dns_start
  keep_dns_set_resolver keep_dns_forward keep_dns_upsert keep_dns_stop keep_proxy_configure
  keep_proxy_on_network_change keep_starcast_transport_configure keep_starcast_vpeer_configure
  keep_derp_configure keep_derp_reconnect keep_stun_configure keep_stun_reconnect keep_local_trigger
  keep_upnp_trigger keep_cpc_set_config keep_us_set_public_key keep_us_clear_accepted_session
  keep_start_multiplexer keep_start_session_keeper keep_start_local_provider keep_start_stun_provider
  keep_start_upnp_provider keep_start_cross_ping_check keep_start_upgrade_sync keep_start_starcast_peer
  keep_start_starcast_transport keep_stop_task keep_nurse_configure_meshnet keep_nurse_set_private_key
  keep_nurse_config_update keep_aggregator_set_local_key keep_aggregator_force_save
  keep_aggregator_clear_segments keep_socket_pool_set_fwmark keep_set_should_bind keep_pmtu_run
  keep_pmtu_stop keep_firewall_remove_vpn_peer : kept.

Section runtime.
Context `{IpNets} `{!HashOrder PublicKey} {W F : Type} `{!FirewallApi F} `{!Entities W F} `{!DeviceOps W}.
Context (J : W → Prop) `{!EntitiesKeep W F J} `{!DeviceOpsKeep W J}.
Context (o : option PublicKey) (es : list DevEvent) (last : gmap PublicKey Node) (R : RequestedState → Prop).

(** What most of the runtime keeps: a predicate on the components, whom the
    post-quantum tunnel is for, the events, and a predicate on the requests *)
Definition rt_frame (rt : Runtime W) : Prop :=
  pq_frame J o (world rt) ∧ published rt = es ∧ last_transmitted_event rt = last ∧ R (requested_state rt).

Lemma call_kept {A} error (m : act (PqWorld W) CtlError A) :
  kept (pq_frame J o) m → kept rt_frame (call error m).
Proof.
  intros Hm rt (Hw & Hrest). specialize (Hm _ Hw). unfold call.
  by destruct (m (world rt)) as [[a|e] w'].
Qed.

Lemma call_others_kept {A} error (m : act W CtlError A) : kept J m → kept rt_frame (call error (act_others m)).
Proof. intros Hm. by apply call_kept, act_others_kept. Qed.

Lemma component_kept {A} (m : act W CtlError A) : kept J m → kept rt_frame (component m).
Proof. apply call_others_kept. Qed.

Lemma tell_kept (f : W → W) : kept_fun J f → kept rt_frame (tell f).
Proof. intros Hf rt (Hw & Hrest). split; [by apply on_others_kept|done]. Qed.

Lemma request_kept f : (∀ r, R r → R (f r)) → kept rt_frame (request f).
Proof. intros Hf rt (? & ? & ? & HR). split_and!; [done..|by apply Hf]. Qed.

Lemma pq_kept f : (∀ now e, entity_peer_pubkey (f now e) = entity_peer_pubkey e) → kept rt_frame (pq f).
Proof. intros Hf rt ([? Ho] & Hrest). split; [|done]. split; [done|]. simpl. by rewrite Hf. Qed.

Lemma consolidate_kept : kept rt_frame consolidate.
Proof. intros rt. apply (call_kept ControllerError), consolidate_wg_state_kept, _. Qed.

Lemma set_meshnet_kept m : kept rt_frame (act_modify (E:=DevError) (set_meshnet m)).
Proof. by intros rt. Qed.
Lemma set_last_exit_kept e : kept rt_frame (act_modify (E:=DevError) (set_last_exit e)).
Proof. by intros rt. Qed.
Lemma set_old_config_kept (f : Runtime W → option MeshConfig) :
  kept rt_frame (act_modify (E:=DevError) (λ rt, set_old_config (f rt) rt)).
Proof. by intros rt. Qed.
Lemma set_features_kept (f : Runtime W → DeviceFeatures) :
  kept rt_frame (act_modify (E:=DevError) (λ rt, set_features (f rt) rt)).
Proof. by intros rt. Qed.

#[local] Hint Resolve call_others_kept component_kept tell_kept consolidate_kept set_meshnet_kept
  set_last_exit_kept set_old_config_kept set_features_kept : kept.

Lemma upsert_dns_peers_kept : kept rt_frame upsert_dns_peers.
Proof. unfold upsert_dns_peers. kept_calls. Qed.
Lemma reconfigure_dns_peer_kept dns l : kept rt_frame (reconfigure_dns_peer dns l).
Proof. unfold reconfigure_dns_peer. kept_calls. Qed.
#[local] Hint Resolve upsert_dns_peers_kept reconfigure_dns_peer_kept : kept.

Lemma start_meshnet_entities_kept : kept rt_frame start_meshnet_entities.
Proof. unfold start_meshnet_entities, start_direct_entities, build_starcast. kept_calls. Qed.
Lemma stop_meshnet_entities_kept m : kept rt_frame (stop_meshnet_entities m).
Proof. unfold stop_meshnet_entities. kept_calls. Qed.
#[local] Hint Resolve start_meshnet_entities_kept stop_meshnet_entities_kept : kept.

Lemma configure_meshnet_kept c secret keys : kept rt_frame (configure_meshnet c secret keys).
Proof. unfold configure_meshnet. kept_calls. Qed.
Lemma trigger_endpoint_providers_kept : kept rt_frame trigger_endpoint_providers.
Proof. unfold trigger_endpoint_providers. kept_calls. Qed.
Lemma notify_network_change_kept : kept rt_frame notify_network_change.
Proof. unfold notify_network_change. kept_calls. Qed.
Lemma on_downgrade_kept m ev : kept rt_frame (on_downgrade m ev).
Proof. unfold on_downgrade. kept_calls. Qed.
Lemma peer_to_node_kept p state link : kept rt_frame (peer_to_node p state link).
Proof. unfold peer_to_node. kept_calls. Qed.
End runtime.

#[export] Hint Resolve upsert_dns_peers_kept reconfigure_dns_peer_kept start_meshnet_entities_kept
  stop_meshnet_entities_kept configure_meshnet_kept trigger_endpoint_providers_kept
  notify_network_change_kept on_downgrade_kept peer_to_node_kept call_others_kept component_kept
  tell_kept consolidate_kept set_meshnet_kept set_last_exit_kept set_old_config_kept
  set_features_kept : kept.
