(* ===== verification/DeviceProps.v ===== *)
(** * The runtime of the device: theorems

    What the integrators see of the runtime, as an abstract machine: the
    requested configuration, whom the post-quantum tunnel is for, and the
    events.  Every input of the runtime is a sequence of moves of that machine
    ([rt_exec_seen]), from which the theorems about the events and about the
    exclusion of meshnet and post-quantum tunnels follow. *)

From S2P Require Import Prelude NetTypes WgTypes LruCache Firewall LinkDetection Wg Controller.
From S2P Require Import Consolidation PostQuantum DeviceTypes Device DeviceFrame.

Open Scope act_scope.

(** ** The abstract machine *)

Section machine.
Context `{IpNets}.

Record View := mkView {
  view_config : option MeshConfig;
  view_tunnel : option PublicKey;
  view_events : list DevEvent;
  view_last : gmap PublicKey Node
}.

(** An event worth publishing, given the last ones *)
Definition fresh (last : gmap PublicKey Node) (n : Node) : Prop :=
  match last !! node_public_key n with
  | None => node_state n ≠ Disconnected
  | Some m => n ≠ m
  end.

Definition after_node (n : Node) (last : gmap PublicKey Node) : gmap PublicKey Node :=
  if bool_decide (node_state n = Disconnected) then delete (node_public_key n) last
  else <[node_public_key n := n]> last.

Inductive move : View → View → Prop :=
| move_config c c' o es last :
    (is_Some c' → o = None) → move (mkView c o es last) (mkView c' o es last)
| move_close c o es last : move (mkView c o es last) (mkView c None es last)
| move_open o k es last : move (mkView None o es last) (mkView None (Some k) es last)
| move_node c o es last n :
    fresh last n → move (mkView c o es last) (mkView c o (es ++ [NodeEvent n]) (after_node n last))
| move_relay c o es last s : move (mkView c o es last) (mkView c o (es ++ [RelayEvent s]) last).
End machine.

Section runtime.
Context `{IpNets} `{!HashOrder PublicKey} {W F : Type} `{!FirewallApi F} `{!Entities W F} `{!DeviceOps W}.

Definition view (rt : Runtime W) : View :=
  mkView (meshnet_config (requested_state rt)) (entity_peer_pubkey (pq_entity (world rt)))
    (published rt) (last_transmitted_event rt).

Context (J : W → Prop) `{!EntitiesKeep W F J} `{!DeviceOpsKeep W J}.

(** A predicate on the components and one on the view *)
Definition seen (Q : View → Prop) (rt : Runtime W) : Prop := J (pq_others (world rt)) ∧ Q (view rt).

(** Code that changes nothing of the view *)
Lemma frame_seen {A} Q (m : act (Runtime W) DevError A) :
  (∀ o es last c, kept (rt_frame J o es last (λ r, meshnet_config r = c)) m) → kept (seen Q) m.
Proof.
  intros Hm rt [HJ HQ].
  destruct (Hm _ _ _ _ rt (conj (conj HJ eq_refl) (conj eq_refl (conj eq_refl eq_refl))))
    as ((HJ' & Ho) & He & Hl & Hc).
  split; [done|]. unfold view. by rewrite Ho, He, Hl, Hc.
Qed.

Lemma request_seen Q f :
  (∀ r, meshnet_config (f r) = meshnet_config r) → kept (seen Q) (request (W:=W) f).
Proof. intros Hf. apply frame_seen. intros. apply request_kept. intros r <-. apply Hf. Qed.

Lemma set_key_seen Q key : kept (seen Q) (rt_set_private_key (W:=W) key).
Proof.
  apply frame_seen. intros o es last c. unfold rt_set_private_key.
  kept_calls; try (by apply request_kept).
  apply tell_kept. intros w. apply keep_derp_configure.
Qed.

Lemma set_fwmark_seen Q m : kept (seen Q) (rt_set_fwmark (W:=W) m).
Proof. apply frame_seen. intros. unfold rt_set_fwmark. kept_calls. by apply request_kept. Qed.

Lemma start_dns_seen Q l : kept (seen Q) (rt_start_dns (W:=W) l).
Proof. apply frame_seen. intros. unfold rt_start_dns. kept_calls. by apply request_kept. Qed.

Lemma stop_dns_seen Q : kept (seen Q) (rt_stop_dns (W:=W)).
Proof. apply frame_seen. intros. unfold rt_stop_dns. kept_calls. by apply request_kept. Qed.

Lemma stun_server_seen Q s : kept (seen Q) (on_stun_server (W:=W) s).
Proof. apply frame_seen. intros. unfold on_stun_server. kept_calls. by apply request_kept. Qed.

(** *** The configuration *)

Lemma end_meshnet_seen Q : kept (seen Q) (end_meshnet (W:=W)).
Proof. apply frame_seen. intros. unfold end_meshnet. kept_calls. by apply request_kept. Qed.

Lemma clear_meshnet_exit_node_seen Q : kept (seen Q) (clear_meshnet_exit_node (W:=W)).
Proof.
  apply frame_seen. intros. unfold clear_meshnet_exit_node. kept_calls. by apply request_kept.
Qed.

(** A predicate that holds after every move if it holds before *)
Definition closed (Q : View → Prop) : Prop := ∀ v v', move v v' → Q v → Q v'.

Lemma set_config_seen Q config : closed Q → kept (seen Q) (rt_set_config (F:=F) (W:=W) config).
Proof.
  intros HQ. apply kept_read. intros rt [HJ Hv].
  destruct (pq_is_rotating_keys (world rt) && bool_decide (is_Some config)) eqn:Hpq; [done|].
  cbv beta zeta. destruct (validate_keys (rt_features rt) && from_option _ _ _); [done|].
  match goal with |- seen Q (act_bind _ (λ _, act_bind _ (λ _, ?rest)) _).2 =>
    assert (kept (seen Q) rest) as Hrest end.
  { kept_calls;
      solve [apply end_meshnet_seen | apply clear_meshnet_exit_node_seen |
             apply frame_seen; intros; eauto with kept]. }
  apply Hrest. split; [done|]. apply (HQ (view rt)); [|done]. apply move_config. intros Hc.
  simpl in Hpq. rewrite rotating_pubkey, andb_false_iff, !bool_decide_eq_false in Hpq.
  destruct Hpq as [Hpq|Hpq]; [by apply eq_None_not_Some|]. destruct Hpq. by apply fmap_is_Some in Hc.
Qed.

(** *** Exit nodes *)

(** A predicate that closing a tunnel, or opening one, cannot break *)
Definition closable (Q : View → Prop) : Prop :=
  ∀ c o es last, Q (mkView c o es last) → Q (mkView c None es last).
Definition openable (Q : View → Prop) : Prop :=
  ∀ c o k es last, Q (mkView c o es last) → Q (mkView c (Some k) es last).

Lemma pq_stop_seen Q : closable Q → kept (seen Q) (pq (W:=W) (λ _, entity_stop)).
Proof.
  intros HQ rt [HJ Hv]. split; [done|]. apply HQ in Hv. revert Hv.
  unfold view, entity_peer_pubkey, entity_stop; simpl.
  by destruct (pq_peer (pq_entity (world rt))) eqn:E; simpl; rewrite ?E.
Qed.

Lemma pq_start_seen Q addr secret k :
  openable Q → kept (seen Q) (pq (W:=W) (λ _, entity_start addr secret k)).
Proof. intros HQ rt [HJ Hv]. split; [done|]. by eapply HQ. Qed.

Lemma connect_internal_seen Q e postquantum :
  closable Q → (postquantum = true → openable Q) →
  kept (seen Q) (connect_exit_node_internal (F:=F) (W:=W) e postquantum).
Proof.
  intros HQ Hopen. unfold connect_exit_node_internal. apply kept_bind; [by apply pq_stop_seen|intros _].
  apply kept_bind.
  - destruct postquantum; [|apply kept_ret]. simpl. kept_calls. by apply pq_start_seen, Hopen.
  - kept_calls; solve [by apply request_seen | apply frame_seen; intros; eauto with kept].
Qed.

Lemma closed_closable Q : closed Q → closable Q.
Proof. intros HQ c o es last. apply HQ, move_close. Qed.

Lemma connect_pq_seen Q e : closed Q → kept (seen Q) (connect_exit_node_pq (F:=F) (W:=W) e).
Proof.
  intros HQ rt [HJ Hv]. unfold connect_exit_node_pq.
  destruct (meshnet_config (requested_state rt)) eqn:Hc; [done|].
  destruct (connect_internal_seen (λ v, Q v ∧ view_config v = None) e true) with (s := rt) as (HJ' & Hv' & _).
  { intros c o es last [Hq Hn]. split; [|done]. by eapply closed_closable. }
  { intros _ c o k es last [Hq Hn]. split; [|done]. simpl in Hn. subst. eapply HQ, Hq. apply move_open. }
  { done. }
  destruct (connect_exit_node_internal e true rt) as [[[]|err] rt'] eqn:E; [done|].
  apply (pq_stop_seen Q (closed_closable _ HQ)). by split.
Qed.

Lemma disconnect_seen Q : closed Q → kept (seen Q) (disconnect_exit_nodes (F:=F) (W:=W)).
Proof.
  intros HQ. unfold disconnect_exit_nodes.
  kept_calls; solve [by apply request_seen | by apply pq_stop_seen, closed_closable |
                     apply frame_seen; intros; eauto with kept | by intros rt].
Qed.

(** *** Events *)

Lemma fresh_spec rt n : is_dublicated_event (W:=W) rt n = false ↔ fresh (last_transmitted_event rt) n.
Proof.
  unfold is_dublicated_event, fresh. destruct (_ !! _); by rewrite bool_decide_eq_false.
Qed.

Lemma publish_seen Q rt n :
  closed Q → is_dublicated_event rt n = false → seen Q rt → seen Q (publish_node (W:=W) n rt).2.
Proof.
  intros HQ Hd [HJ Hv]. split; [done|]. apply (HQ (view rt)); [|done].
  apply move_node. by apply fresh_spec.
Qed.

Lemma on_wg_event_seen Q ev : closed Q → kept (seen Q) (on_wg_event (F:=F) (W:=W) ev).
Proof.
  intros HQ. unfold on_wg_event. apply kept_bind; [apply kept_get|intros rt0].
  apply kept_bind; [kept_calls; apply frame_seen; intros; eauto with kept|intros _].
  apply kept_bind; [apply frame_seen; intros; eauto with kept|intros [n|]]; [|kept_calls].
  apply kept_read. intros rt Hrt. destruct (is_dublicated_event rt n) eqn:Hd; [done|].
  destruct (should_supress_disconnected rt n); [done|]. by apply publish_seen.
Qed.

Lemma on_pq_event_seen Q ev : closed Q → kept (seen Q) (on_pq_event (F:=F) (W:=W) ev).
Proof.
  intros HQ. unfold on_pq_event. apply kept_read. intros rt Hrt.
  enough (kept (seen Q) (pq (λ now, entity_on_event now ev) ;;; act_ignore (consolidate (F:=F) (W:=W))))
    as Hrest.
  { destruct (pq_event_node rt ev) as [n|]; [|by apply Hrest].
    destruct (is_dublicated_event rt n) eqn:Hd; [by apply Hrest|]. apply Hrest. by apply publish_seen. }
  kept_calls; apply frame_seen; intros; eauto with kept. apply pq_kept. intros. apply entity_on_event_pubkey.
Qed.

Lemma recv_pq_event_seen Q : closed Q → kept (seen Q) (recv_pq_event (F:=F) (W:=W)).
Proof.
  intros HQ. unfold recv_pq_event. kept_calls; [|by apply on_pq_event_seen].
  apply frame_seen. intros. by apply pq_kept.
Qed.

(** Every input is a sequence of moves, and keeps what the components keep. *)
Theorem rt_exec_seen Q i : closed Q → kept (seen Q) (rt_exec (F:=F) (W:=W) i).
Proof.
  intros HQ. destruct i; simpl.
  - by apply set_config_seen.
  - apply set_key_seen.
  - apply set_fwmark_seen.
  - apply start_dns_seen.
  - apply stop_dns_seen.
  - apply connect_internal_seen; [by apply closed_closable|done].
  - by apply connect_pq_seen.
  - unfold disconnect_exit_node. kept_calls; [|by apply disconnect_seen].
    apply frame_seen; intros; eauto with kept.
  - by apply disconnect_seen.
  - apply frame_seen; intros; eauto with kept.
  - apply frame_seen; intros. apply tell_kept. eauto with kept.
  - apply frame_seen; intros. apply tell_kept. eauto with kept.
  - by apply on_wg_event_seen.
  - intros rt [HJ Hv]. split; [done|]. apply (HQ (view rt)); [|done]. apply move_relay.
  - apply frame_seen; intros. unfold on_trigger. kept_calls.
  - apply stun_server_seen.
  - by apply recv_pq_event_seen.
Qed.
End runtime.

(** ** Runs of the runtime *)

(** Nothing to say about the components *)
#[export] Instance EntitiesKeep_True (W F : Type) `{IpNets} `{!FirewallApi F} `{!Entities W F} :
  EntitiesKeep W F (λ _, True).
Proof. by split. Qed.
#[export] Instance DeviceOpsKeep_True (W : Type) `{IpNets} `{!DeviceOps W} : DeviceOpsKeep W (λ _, True).
Proof. by split. Qed.

Section runs.
Context `{IpNets} `{!HashOrder PublicKey} {W F : Type} `{!FirewallApi F} `{!Entities W F} `{!DeviceOps W}.

(** The events of the task behind a post-quantum tunnel *)
Definition rotation_event (ev : PqEvent) : Prop :=
  match ev with PqHandshake _ _ | PqRekey _ => True | _ => False end.

(** An input of the runtime, or something that happens meanwhile: the time
    passes, the key rotation task sends an event, another task changes one of
    the components *)
Inductive rt_step (outside : W → W → Prop) : Runtime W → Runtime W → Prop :=
| step_input i rt : rt_step outside rt (rt_exec (F:=F) i rt).2
| step_clock rt now :
    (pq_clock (world rt) <= now)%Z →
    rt_step outside rt (set_world (mkPqWorld now (pq_entity (world rt)) (pq_others (world rt))) rt)
| step_rotation rt ev :
    rotation_event ev → rt_step outside rt (set_world (on_entity (λ _, send_pq ev) (world rt)) rt)
| step_outside rt w :
    outside (pq_others (world rt)) w →
    rt_step outside rt (set_world (mkPqWorld (pq_clock (world rt)) (pq_entity (world rt)) w) rt).

Lemma rt_run_seen (J : W → Prop) `{!EntitiesKeep W F J} `{!DeviceOpsKeep W J} outside Q rt rt' :
  closed Q → (∀ w w', outside w w' → J w → J w') →
  rtc (rt_step outside) rt rt' → seen J Q rt → seen J Q rt'.
Proof.
  intros HQ Hout. induction 1 as [|rt1 rt2 rt3 Hstep _ IH]; [done|]. intros Hs. apply IH.
  destruct Hstep as [i rt|rt now _|rt ev _|rt w Hw]; [|done|done|].
  - by apply rt_exec_seen.
  - destruct Hs as [HJ Hv]. split; [by eapply Hout|done].
Qed.

(** The device when it starts *)
Definition rt_started (rt : Runtime W) : Prop :=
  ∃ f key mark periods w, rt = rt_start f key mark periods w ∧ pq_entity w = pq_entity_new.

Definition view0 : View := mkView None None [] ∅.

Lemma started_view rt : rt_started rt → view rt = view0.
Proof. intros (f & key & mark & periods & w & -> & Hw). unfold view. simpl. by rewrite Hw. Qed.

Lemma rt_run_moves outside rt rt' :
  rt_started rt → rtc (rt_step outside) rt rt' → rtc move view0 (view rt').
Proof.
  intros Hstart Hrun.
  destruct (rt_run_seen (λ _, True) outside (rtc move view0) rt rt') as [_ Hv]; [|done..| |done].
  - intros v v' Hm Hv. by eapply rtc_r.
  - split; [done|]. by rewrite started_view.
Qed.

Definition exclusive (v : View) : Prop := is_Some (view_config v) → view_tunnel v = None.

Lemma exclusive_moves v v' : rtc move v v' → exclusive v → exclusive v'.
Proof.
  induction 1 as [|v1 v2 v3 Hm _ IH]; [done|]. intros Hv. apply IH. unfold exclusive in *.
  by destruct Hm; simpl in *.
Qed.

(** C7: The runtime implements the abstract machine: from a start, whatever
    requests and events arrive, in any order and with the other tasks changing
    the components in between, the requested configuration, the post-quantum
    tunnel and the published events go through moves of the machine only; so a
    meshnet configuration and a post-quantum tunnel are never there at the same
    time. *)
Theorem runtime_refines_machine outside rt rt' :
  rt_started rt → rtc (rt_step outside) rt rt' →
  rtc move view0 (view rt') ∧
  (is_Some (meshnet_config (requested_state rt')) → pq_peer (pq_entity (world rt')) = None).
Proof.
  intros Hstart Hrun. pose proof (rt_run_moves _ _ _ Hstart Hrun) as Hm. split; [done|].
  intros Hc. assert (exclusive (view rt')) as Hv by (eapply exclusive_moves; [done|by intros [? [=]]]).
  specialize (Hv Hc). unfold view, entity_peer_pubkey in Hv. simpl in Hv.
  by destruct (pq_peer (pq_entity (world rt'))).
Qed.

(** *** The events of a node *)

(** The events published about a node *)
Definition node_log (k : PublicKey) (es : list DevEvent) : list Node :=
  omap (λ ev,
    match ev with
    | NodeEvent n => if bool_decide (node_public_key n = k) then Some n else None
    | RelayEvent _ => None
    end) es.

(** The last event of a node, unless it said that the node is disconnected *)
Definition standing (l : list Node) : option Node :=
  match last l with
  | Some n => if bool_decide (node_state n = Disconnected) then None else Some n
  | None => None
  end.

(** An event that says something new after the events [l] *)
Definition news (l : list Node) (n : Node) : Prop :=
  match last l with
  | None => node_state n ≠ Disconnected
  | Some m => n ≠ m ∧ (node_state m = Disconnected → node_state n ≠ Disconnected)
  end.

Definition log_ok (l : list Node) : Prop := ∀ l1 n l2, l = l1 ++ n :: l2 → news l1 n.

Lemma log_ok_snoc l n : log_ok l → news l n → log_ok (l ++ [n]).
Proof.
  intros Hl Hn l1 m l2 E. destruct l2 as [|x l2 _] using rev_ind.
  - apply app_inj_tail in E as [-> ->]. done.
  - apply (Hl l1 m l2). rewrite app_comm_cons, app_assoc in E. by apply app_inj_tail in E as [-> _].
Qed.

Definition logged (v : View) : Prop :=
  ∀ k, log_ok (node_log k (view_events v)) ∧ view_last v !! k = standing (node_log k (view_events v)).

Lemma node_log_snoc k es n :
  node_log k (es ++ [NodeEvent n]) =
    node_log k es ++ (if bool_decide (node_public_key n = k) then [n] else []).
Proof. unfold node_log. rewrite omap_app. simpl. by case_bool_decide. Qed.

Lemma fresh_news k es last n :
  last !! node_public_key n = standing (node_log (node_public_key n) es) →
  k = node_public_key n → fresh last n → news (node_log k es) n.
Proof.
  intros Hl -> Hf. unfold fresh in Hf. rewrite Hl in Hf. unfold standing, news in *.
  destruct (list.last _) as [m|]; [|done]. case_bool_decide as E; [|done].
  split; [|done]. intros ->. done.
Qed.

Lemma logged_closed : closed logged.
Proof.
  intros v v' Hm Hv. destruct Hm as [| | |c o es last n Hf|c o es last s]; try exact Hv.
  - intros k. simpl. rewrite node_log_snoc. unfold after_node.
    destruct (Hv k) as [Hok Hlast], (Hv (node_public_key n)) as [_ Hn]. simpl in *.
    case_bool_decide as Ek.
    + subst k. split; [by apply log_ok_snoc; [|eapply fresh_news]|].
      unfold standing. rewrite last_snoc. case_bool_decide; by rewrite ?lookup_delete_eq, ?lookup_insert_eq.
    + rewrite app_nil_r. split; [done|].
      case_bool_decide; by rewrite ?lookup_delete_ne, ?lookup_insert_ne.
  - intros k. simpl. unfold node_log. rewrite omap_app. simpl. rewrite app_nil_r. apply Hv.
Qed.

(** C8: The events published about a node are news: the first one does not
    say that the node is disconnected, no event repeats the one before it, and
    no disconnection follows a disconnection; in every run of the runtime, for
    every node and whatever the components report. *)
Theorem node_events_are_news outside rt rt' k l1 n l2 :
  rt_started rt → rtc (rt_step outside) rt rt' →
  node_log k (published rt') = l1 ++ n :: l2 → news l1 n.
Proof.
  intros Hstart Hrun E.
  destruct (rt_run_seen (λ _, True) outside logged rt rt') as [_ Hv]; [apply logged_closed|done..| |].
  - split; [done|]. rewrite started_view by done. intros k'. split; [by intros [|? ?]|done].
  - destruct (Hv k) as [Hok _]. by apply (Hok l1 n l2).
Qed.

(** *** The IP stack *)

(** No configuration tells the WireGuard task which IP versions this node
    has: if nothing but a call that sets the IP stack changes it, it stays
    unset in every run, and a trigger of the enhanced link detection pings no
    address at all. *)
Theorem ip_stack_never_set (stack : W → option IpStack)
    `{!EntitiesKeep W F (λ w, stack w = None)} `{!DeviceOpsKeep W (λ w, stack w = None)}
    outside rt rt' ips :
  (∀ w w', outside w w' → stack w = None → stack w' = None) →
  stack (pq_others (world rt)) = None → rtc (rt_step outside) rt rt' →
  stack (pq_others (world rt')) = None ∧ enhanced_targets (ips, stack (pq_others (world rt'))) = [].
Proof.
  intros Hout Hstart Hrun.
  destruct (rt_run_seen (λ w, stack w = None) outside (λ _, True) rt rt') as [-> _]; done.
Qed.

(** *** Exit nodes *)

(** A predicate on the requests that holds once the configuration is stored,
    and that the end of the meshnet does not break, holds after [set_config]. *)
Lemma set_config_requests (J : W → Prop) `{!EntitiesKeep W F J} `{!DeviceOpsKeep W J}
    (R : RequestedState → Prop) config rt :
  let I := rt_frame J (entity_peer_pubkey (pq_entity (world rt)))
             (published rt) (last_transmitted_event rt) R in
  J (pq_others (world rt)) → kept I clear_meshnet_exit_node → (∀ r, R r → R (request_stun None r)) →
  R (request_config (config_mesh <$> config) (requested_state rt)) →
  (rt_set_config (F:=F) config rt).1 = Ok tt → R (requested_state (rt_set_config (F:=F) config rt).2).
Proof.
  intros I HJ Hclear Hstun HR. unfold rt_set_config.
  repeat match goal with |- context [act_bind act_get ?f rt] =>
    change (act_bind act_get f rt) with (f rt rt) end. cbv beta zeta.
  destruct (pq_is_rotating_keys _ && _); [done|]. destruct (validate_keys (rt_features rt) && _); [done|].
  intros _.
  match goal with |- context [act_bind _ (λ _, act_bind _ (λ _, ?rest)) rt] =>
    assert (kept I rest) as Hrest end.
  { kept_calls; try solve [done | apply Hclear | subst I; eauto with kept].
    unfold end_meshnet; subst I; kept_calls. by apply request_kept. }
  apply Hrest. by repeat split.
Qed.

(** An exit node of the meshnet outlives its peer: when a configuration
    without it replaces one that had it, it stays requested, and the controller
    then asks for it as for a VPN server, with the endpoint of the request and
    the default route. *)
Theorem left_exit_node_stays_requested c e rt rt' :
  exit_node (requested_state rt) = Some e → rt_set_config (F:=F) (Some c) rt = (Ok tt, rt') →
  meshnet_config (requested_state rt') = Some (config_mesh c) ∧
  exit_node (requested_state rt') = Some e ∧
  ∀ features requested (w : PqWorld W) v4 v6,
    requested !! exit_public_key e = None → exit_allowed_ips e = None →
    ipnet_new (V4 0) 0 = Some v4 → is_ipv4 (ipnet_addr v4) = true → ipnet_new (V6 0) 0 = Some v6 →
    pq_is_rotating_keys (F:=F) w = false →
    ∃ requested' rp,
      add_exit_node (requested_state rt') features requested w = (Ok (requested', false), w) ∧
      requested' !! exit_public_key e = Some rp ∧
      endpoint (peer rp) = exit_endpoint e ∧ v4 ∈ allowed_ips (peer rp).
Proof.
  intros He Hrun.
  pose (R r := meshnet_config r = Some (config_mesh c) ∧ exit_node r = Some e).
  assert (R (requested_state rt')) as [Hc He'].
  { pose proof (set_config_requests (λ _, True) R (Some c) rt) as HR. rewrite Hrun in HR.
    apply HR; [done| |done..].
    apply kept_read. intros rt0 Hrt0. destruct Hrt0 as (? & ? & ? & Hc0 & He0). by rewrite Hc0. }
  split_and!; [done..|]. intros features requested w v4 v6 Hnew Hall H4 H4' H6 Hpq.
  simpl in Hpq. unfold add_exit_node, act_bind. rewrite He', H4, H6. simpl. rewrite Hnew, Hpq, Hall. simpl.
  destruct (keepalive_pair _ _) as [keepalive batching_keepalive].
  eexists _, _. split; [reflexivity|]. rewrite lookup_insert_eq. split; [done|]. split; [done|].
  apply list_elem_of_filter. split; [by rewrite H4', orb_true_r|constructor].
Qed.

(** What a failed disconnection leaves behind: it fails before the tunnel is
    closed and after the exit node is forgotten. *)
Lemma failed_disconnect (J : W → Prop) `{!EntitiesKeep W F J} `{!DeviceOpsKeep W J} err rt rt' :
  J (pq_others (world rt)) → disconnect_exit_nodes (F:=F) rt = (Err err, rt') →
  exit_node (requested_state rt') = None ∧
  entity_peer_pubkey (pq_entity (world rt')) = entity_peer_pubkey (pq_entity (world rt)).
Proof.
  intros HJ. unfold disconnect_exit_nodes. change (act_bind act_get ?f rt) with (f rt rt). cbv beta.
  intros Hrun. apply act_bind_Err in Hrun; [|by eexists].
  destruct (exit_node (requested_state rt)) as [e|]; [|done].
  match type of Hrun with act_bind _ (λ _, ?m) rt = _ =>
    assert (kept (rt_frame J (entity_peer_pubkey (pq_entity (world rt))) (published rt)
      (last_transmitted_event rt) (λ r, exit_node r = None)) m) as Hm by kept_calls;
    destruct (Hm (set_requested (request_exit None (requested_state rt)) rt))
      as ((_ & Hk) & _ & _ & He); [by repeat split|] end.
  revert Hk He. change (act_bind (request ?f) ?m rt) with (m tt (set_requested (f (requested_state rt)) rt)) in Hrun.
  cbv beta in Hrun. by rewrite Hrun.
Qed.

(** C39: A disconnection that fails half way leaves the device without an exit
    node but with its post-quantum tunnel: no exit node can be disconnected by
    its key, and every meshnet configuration is refused. *)
Theorem failed_disconnect_blocks_meshnet err rt rt' :
  is_Some (pq_peer (pq_entity (world rt))) → disconnect_exit_nodes (F:=F) rt = (Err err, rt') →
  exit_node (requested_state rt') = None ∧ is_Some (pq_peer (pq_entity (world rt'))) ∧
  (∀ k, disconnect_exit_node (F:=F) k rt' = (Err InvalidNode, rt')) ∧
  (∀ c, rt_set_config (F:=F) (Some c) rt' = (Err MeshnetUnavailableWithPQ, rt')).
Proof.
  intros Hpq Hrun.
  assert (exit_node (requested_state rt') = None ∧
          entity_peer_pubkey (pq_entity (world rt')) = entity_peer_pubkey (pq_entity (world rt))) as [He Hk]
    by by apply (failed_disconnect (λ _, True) err).
  unfold entity_peer_pubkey in Hk.
  assert (is_Some (pq_peer (pq_entity (world rt')))) as Hpq'.
  { apply (fmap_is_Some pq_pubkey). rewrite Hk. by apply fmap_is_Some. }
  split_and!; [done..| |].
  - intros k. unfold disconnect_exit_node, act_bind, act_get. by rewrite He.
  - intros c. unfold rt_set_config, act_bind, act_get. simpl.
    unfold entity_is_rotating_keys. by rewrite bool_decide_true.
Qed.
End runs.

(** ** DNS records *)

Section records.
Context `{IpNets}.

(** The addresses under a host name: the last configured node that has it and
    has addresses, this node being the last of all *)
Definition host_addresses (c : MeshConfig) (name : string) : option (list StdIpAddr) :=
  last (omap (λ b : PeerBase, if bool_decide (hostname b = name) then base_ip_addresses b else None)
          ((base <$> config_peers c) ++ [this c])).

(** The addresses under a nickname: the first node with that valid nickname
    and with addresses, this node being the first of all *)
Definition nickname_addresses (c : MeshConfig) (name : string) : option (list StdIpAddr) :=
  head (omap (λ b,
    nick ← nickname b;
    if validate_nickname nick && bool_decide (String.append nick ".nord" = name)
    then base_ip_addresses b else None) (this c :: (base <$> config_peers c))).

(** Host names come before nicknames. *)
Definition resolve (use_nicknames : bool) (c : MeshConfig) (name : string) : option (list StdIpAddr) :=
  match host_addresses c name with
  | Some ips => Some ips
  | None => if use_nicknames then nickname_addresses c name else None
  end.

Lemma fold_hosts (l : list PeerBase) (m : Records) name :
  fold_left (λ (m : Records) (p : PeerBase),
    match base_ip_addresses p with Some ips => <[hostname p := ips]> m | None => m end) l m !! name =
  match last (omap (λ b : PeerBase, if bool_decide (hostname b = name) then base_ip_addresses b else None) l) with
  | Some ips => Some ips
  | None => m !! name
  end.
Proof.
  revert m. induction l as [|b l IH]; intros m; simpl; [done|]. rewrite IH. clear IH.
  destruct (base_ip_addresses b) as [ips|]; [|by case_bool_decide].
  case_bool_decide as E; simpl.
  - subst name. rewrite lookup_insert_eq, last_cons. by destruct (last _).
  - by rewrite lookup_insert_ne by done.
Qed.

Lemma fold_nicknames (l : list (string * list StdIpAddr)) (m : Records) name :
  fold_left (λ (m : Records) (record : string * list StdIpAddr),
    let n := String.append record.1 ".nord" in
    match m !! n with None => <[n := record.2]> m | Some _ => m end) l m !! name =
  match m !! name with
  | Some ips => Some ips
  | None => head (omap (λ record, if bool_decide (String.append record.1 ".nord" = name)
                                  then Some record.2 else None) l)
  end.
Proof.
  revert m. induction l as [|[nick ips] l IH]; intros m; simpl; [by destruct (m !! name)|].
  rewrite IH. clear IH. destruct (m !! String.append nick ".nord") as [old|] eqn:E.
  - destruct (m !! name) eqn:En; [done|]. case_bool_decide as Eq; [|done]. congruence.
  - case_bool_decide as Eq.
    + subst name. by rewrite lookup_insert_eq, E.
    + by rewrite lookup_insert_ne by done.
Qed.

Lemma collect_dns_records_lookup c r name :
  meshnet_config r = Some c → collect_dns_records r !! name = host_addresses c name.
Proof.
  intros Hc. unfold collect_dns_records, host_addresses. rewrite Hc, fold_hosts, lookup_empty.
  by destruct (last _).
Qed.

Lemma nickname_records_omap name (l : list PeerBase) :
  omap (λ record : string * list StdIpAddr,
    if bool_decide (String.append record.1 ".nord" = name) then Some record.2 else None)
    (filter (λ record : string * list StdIpAddr, validate_nickname record.1 = true) (omap nickname_record l)) =
  omap (λ b,
    nick ← nickname b;
    if validate_nickname nick && bool_decide (String.append nick ".nord" = name)
    then base_ip_addresses b else None) l.
Proof.
  induction l as [|b l IH]; [done|]. simpl. unfold nickname_record at 1.
  destruct (nickname b) as [nick|]; simpl; [|done]. destruct (base_ip_addresses b) as [ips|]; simpl.
  - rewrite filter_cons. simpl. destruct (validate_nickname nick); simpl; [|done].
    case_bool_decide; [f_equal|]; exact IH.
  - by destruct (_ && _).
Qed.

Lemma collect_dns_nickname_records_lookup c r name :
  meshnet_config r = Some c → collect_dns_nickname_records r !! name = nickname_addresses c name.
Proof.
  intros Hc. unfold collect_dns_nickname_records, nickname_addresses.
  rewrite Hc, fold_nicknames, lookup_empty. by rewrite nickname_records_omap.
Qed.

#[local] Instance wildcard_inj : Inj (=) (=) (String.append "*.").
Proof. by intros n1 n2 [= ?]. Qed.

Lemma dns_peers_lookup use c r name :
  meshnet_config r = Some c → dns_peers use r !! name = resolve use c name.
Proof.
  intros Hc. unfold dns_peers, resolve. rewrite lookup_union, (collect_dns_records_lookup c) by done.
  destruct use; rewrite ?(collect_dns_nickname_records_lookup c), ?lookup_empty by done;
    destruct (host_addresses c name); try done; by destruct (nickname_addresses c name).
Qed.

(** What the resolver is told about a configuration: a name that is not a
    wildcard resolves to the addresses of the host with that name, this node
    before all others and later peers before earlier ones; otherwise, with
    nicknames enabled, to the addresses of the first node whose valid nickname
    makes that name, this node first; and the wildcard of a name that resolves
    gives the same addresses.  Without a configuration there are no records. *)
Theorem dns_records_resolution use r name :
  match meshnet_config r with
  | Some c =>
      (String.prefix "*." name = false → dns_peer_records use r !! name = resolve use c name) ∧
      dns_peer_records use r !! String.append "*." name =
        match resolve use c name with
        | Some ips => Some ips
        | None => resolve use c (String.append "*." name)
        end ∧
      (∀ ips, base_ip_addresses (this c) = Some ips → resolve use c (hostname (this c)) = Some ips)
  | None => dns_peer_records use r = ∅
  end.
Proof.
  destruct (meshnet_config r) as [c|] eqn:Hc.
  - unfold dns_peer_records. rewrite <-!(dns_peers_lookup use c r) by done. split_and!.
    + intros Hp. rewrite lookup_union, (proj2 (lookup_kmap_None _ _ _)).
      * by destruct (_ !! _).
      * intros n ->. by destruct n.
    + rewrite lookup_union, lookup_kmap by apply _. by repeat destruct (_ !! _).
    + intros ips Hips. rewrite ?(dns_peers_lookup use c r) by done.
      unfold resolve, host_addresses. rewrite omap_app, last_app. simpl.
      by rewrite bool_decide_true, Hips.
  - unfold dns_peer_records, dns_peers, collect_dns_records, collect_dns_nickname_records. rewrite Hc.
    by destruct use.
Qed.
End records.
