(* ===== verification/DeviceIntegration.v ===== *)
(** * The runtime over the WireGuard task

    The world of [Integration], the WireGuard task with a firewall, under the
    runtime of [Device]: the operations that the runtime has on the task are
    the ones of [Wg], the other components do nothing.  The task changes its IP
    stack only when it is told to, which is what [ip_stack_never_set] asks of
    it.  The witnesses run the device. *)

From S2P Require Import Prelude NetTypes WgTypes LruCache Firewall LinkDetection Wg WgProps Controller.
From S2P Require Import ControllerProps Consolidation ConsolidationProps Integration.
From S2P Require Import PostQuantum DeviceTypes Device DeviceFrame DeviceProps.

Open Scope act_scope.

(** Components that do nothing, around a WireGuard task *)
Definition device_ops {W : Type} `{IpNets} (set_stack : option IpStack → act W CtlError unit)
    (drop : act W CtlError unit) (reset : PublicKey → Z → act W CtlError unit) (remove_vpn : W → W)
    : DeviceOps W := {|
  wg_wait_for_listen_port _ := act_ret 51820%Z;
  wg_wait_for_proxy_listen_port _ := act_ret 51821%Z;
  wg_set_ip_stack := set_stack;
  wg_drop_connected_sockets := drop;
  wg_reset_existing_connections := reset;
  dns_new k _ _ _ := act_ret (mkResolver k (λ _, peer_default k) [] []);
  dns_start _ w := w;
  dns_set_resolver _ w := w;
  dns_forward _ _ := act_ret tt;
  dns_upsert _ _ _ _ := act_ret tt;
  dns_stop _ w := w;
  dns_auto_switch_ips _ := false;
  dns_default_servers _ := [];
  proxy_configure _ := act_ret tt;
  proxy_on_network_change w := w;
  starcast_transport_configure _ := act_ret tt;
  starcast_vpeer_configure _ := act_ret tt;
  derp_configure _ w := w;
  derp_get_config _ := None;
  derp_reconnect w := w;
  stun_configure _ _ w := w;
  stun_reconnect w := w;
  local_trigger_discovery _ := act_ret tt;
  upnp_trigger_discovery _ := act_ret tt;
  cpc_set_config _ := act_ret tt;
  us_set_public_key _ := act_ret tt;
  us_clear_accepted_session _ w := w;
  start_multiplexer := act_ret tt;
  start_session_keeper _ := act_ret tt;
  start_local_provider := act_ret tt;
  start_stun_provider := act_ret tt;
  start_upnp_provider := act_ret tt;
  start_cross_ping_check := act_ret tt;
  start_upgrade_sync _ := act_ret tt;
  start_starcast_peer _ := act_ret tt;
  start_starcast_transport _ := act_ret tt;
  stop_task _ w := w;
  nurse_configure_meshnet _ w := w;
  nurse_set_private_key _ w := w;
  nurse_config_update _ w := w;
  aggregator_set_local_key _ w := w;
  aggregator_force_save w := w;
  aggregator_clear_segments w := w;
  socket_pool_set_fwmark _ w := w;
  set_should_bind _ w := w;
  pmtu_run _ w := w;
  pmtu_stop w := w;
  firewall_remove_vpn_peer := remove_vpn
|}.

Section world.
Context `{IpNets} `{!HashOrder PublicKey} `{!HashOrderLaws PublicKey}.
Context {A : Type} `{!Adapter A} {F : Type} `{!FirewallApi F} (remove_vpn : F → F).

Definition World_device_ops : DeviceOps (World A F) :=
  device_ops (λ i, on_task (λ _, set_ip_stack i)) (on_task (λ _, drop_connected_sockets))
    (λ k ip, on_task (λ _, reset_existing_connections k ip))
    (λ w, mkWorld (clock w) (task w) (remove_vpn (world_fw w))).

(** ** The IP stack of the task *)

Definition stack_is (i : option IpStack) (s : State A) : Prop := ip_stack s = i.

Lemma uapi_request_stack i cmd : kept (stack_is i) (uapi_request cmd).
Proof.
  intros s Hs. unfold uapi_request. destruct (send_uapi_cmd cmd (adapter s)) as [[r|e] a]; [|done].
  by destruct (_ && _).
Qed.

Lemma send_event_stack i state ls p old : kept (stack_is i) (send_event state ls p old).
Proof.
  intros s Hs. unfold send_event. by destruct (chan_send _ _) as [[] c].
Qed.

Lemma notifications_stack i now to d reason : kept (stack_is i) (update_send_notification_events now to d reason).
Proof.
  unfold update_send_notification_events, notify_disconnect, notify_connect, notify_update.
  kept_calls; solve [apply send_event_stack | by intros s' | done].
Qed.

Lemma prepare_stack now to (s : State A) : ip_stack (prepare now to s).2 = ip_stack s.
Proof. unfold prepare. by destruct (fold_left _ _ _) as [[st h] ps]. Qed.

Lemma write_device_stack i to d reason : kept (stack_is i) (write_device to d reason).
Proof.
  intros s Hs. unfold write_device. destruct reason; [|done].
  pose proof (uapi_request_stack i (CmdSet (update_construct_set_device to d s)) s Hs) as Hu.
  by destruct (uapi_request _ s) as [[r|e] s'].
Qed.

Lemma update_stack i now to reason : kept (stack_is i) (update now to reason).
Proof.
  unfold update. apply kept_bind; [|intros _].
  { apply kept_modify. intros s Hs. by destruct reason. }
  apply kept_bind; [|intros to'].
  { intros s Hs. unfold stack_is. rewrite <-Hs, <-(prepare_stack now to s).
    by destruct (prepare now to s). }
  kept_calls; solve [apply notifications_stack | apply write_device_stack | by intros s' | done].
Qed.

Lemma on_task_stack {X} i (m : Instant → act (State A) Error X) :
  (∀ now, kept (stack_is i) (m now)) → kept (λ w : World A F, stack_is i (task w)) (on_task m).
Proof.
  intros Hm w Hw. specialize (Hm (clock w) _ Hw). unfold on_task.
  by destruct (m (clock w) (task w)) as [r s].
Qed.

#[export] Instance World_keep_stack i : EntitiesKeep (World A F) F (λ w, ip_stack (task w) = i).
Proof.
  split; intros; try (by intros w Hw); apply (on_task_stack i); intros now.
  all: unfold get_interface, time_since_last_rx_req, get_link_state, add_peer, del_peer, set_secret_key,
    set_fwmark; kept_calls; apply update_stack.
Qed.

Lemma World_ops_keep_no_stack : @DeviceOpsKeep (World A F) _ World_device_ops (λ w, ip_stack (task w) = None).
Proof.
  split; intros; try (by intros w Hw); by apply (on_task_stack None).
Qed.
End world.

(** ** Runs of the device *)
Module DeviceSamples.

#[local] Existing Instance AddrPrefix.nets.
#[local] Existing Instance AddrPrefix.nets_laws.
#[local] Existing Instance elements_order.
#[local] Existing Instance elements_order_laws.
#[local] Existing Instance WgSamples.FixedAdapter.
#[local] Existing Instance ControllerSamples.no_nets.

Abbreviation Fw := (StatefullFirewall assoc_map).
Abbreviation Sample := (World (list Peer) Fw).
#[local] Instance sample_ops : DeviceOps Sample := World_device_ops remove_vpn_peer.

Definition features : DeviceFeatures :=
  mkDeviceFeatures (mkFeatures true false) false true false 60 None (Some None) false None.

Definition started : Runtime Sample :=
  rt_start features (mkSecretKey (replicate 32 7%Z)) None
    (mkFeaturePersistentKeepalive None 5 (Some 25%Z) None)
    (mkPqWorld (from_secs 2) pq_entity_new IntegrationSamples.started).

Definition run_all (l : list Input) (rt : Runtime Sample) : Runtime Sample :=
  fold_left (λ rt i, (rt_exec (F:=Fw) i rt).2) l rt.

(** The other tasks do nothing. *)
Definition calm {W : Type} : W → W → Prop := λ _ _, False.

Lemma run_all_steps l rt : rtc (rt_step (F:=Fw) calm) rt (run_all l rt).
Proof.
  revert rt. induction l as [|i l IH]; intros rt; [apply rtc_refl|].
  eapply rtc_l; [apply (step_input calm i)|apply IH].
Qed.

Lemma started_start : rt_started started.
Proof. by repeat eexists. Qed.

Definition vpn : ExitNode :=
  mkExitNode "vpn" (ControllerSamples.key 7) None (Some (SocketAddrV4 (ipv4_addr 1 2 3 4) 51820)).

(** A post-quantum tunnel is opened, and its event arrives. *)
Definition tunnelled : Runtime Sample := run_all [Trigger; ConnectExitNodePq vpn; RecvPqEvent] started.

Lemma runtime_refines_machine_witness :
  rtc move view0 (view tunnelled) ∧
  (is_Some (meshnet_config (requested_state tunnelled)) → pq_peer (pq_entity (world tunnelled)) = None) ∧
  entity_peer_pubkey (pq_entity (world tunnelled)) = Some (ControllerSamples.key 7).
Proof.
  destruct (runtime_refines_machine calm started tunnelled started_start (run_all_steps _ _)) as [Hm He].
  split; [exact Hm|]. split; [exact He|]. vm_compute. reflexivity.
Defined.

Lemma node_events_are_news_witness :
  ∃ n, node_log (ControllerSamples.key 7) (published tunnelled) = [n] ∧
    node_state n ≠ Disconnected ∧ node_state n = Connecting.
Proof.
  assert (∃ n, node_log (ControllerSamples.key 7) (published tunnelled) = [n] ∧ node_state n = Connecting)
    as (n & E & Hs) by (eexists; split; vm_compute; reflexivity).
  exists n. split; [exact E|]. split; [|exact Hs].
  exact (node_events_are_news calm started tunnelled (ControllerSamples.key 7) [] n [] started_start
    (run_all_steps _ _) E).
Defined.

(** A meshnet with two peers, one of them the exit node *)
Definition mesh (l : list MeshPeer) : Config :=
  mkConfig (mkMeshConfig (mkPeerBase "id" (ControllerSamples.key 9) "me" (Some [ControllerSamples.addr 9]) None)
    (Some l)) None.
Definition mesh_exit : ExitNode := mkExitNode "exit" (ControllerSamples.key 1) None None.
Definition via_mesh : Runtime Sample :=
  run_all [Trigger; SetConfig (Some (mesh ControllerSamples.two_peers)); ConnectExitNode mesh_exit] started.

Lemma ip_stack_never_set_witness :
  meshnet_config (requested_state via_mesh) = Some (config_mesh (mesh ControllerSamples.two_peers)) ∧
  enhanced_targets ([ControllerSamples.addr 10], ip_stack (Integration.task (pq_others (world via_mesh)))) = [].
Proof.
  split; [vm_compute; reflexivity|].
  apply (@ip_stack_never_set _ _ _ _ _ _ _ (λ w : Sample, ip_stack (Integration.task w))
    (World_keep_stack None) (World_ops_keep_no_stack remove_vpn_peer) calm started via_mesh).
  - intros w w' [].
  - reflexivity.
  - apply run_all_steps.
Defined.

(** The exit node leaves the meshnet. *)
Definition one_peer : Config := mesh [ControllerSamples.mesh_peer 2 [ControllerSamples.addr 10] true true false].

Lemma left_exit_node_stays_requested_witness :
  ∃ rt', rt_set_config (F:=Fw) (Some one_peer) via_mesh = (Ok tt, rt') ∧
    exit_node (requested_state rt') = Some mesh_exit ∧
    ∃ requested' rp (w : PqWorld Sample), add_exit_node (F:=Fw) (requested_state rt') (mkFeatures true false) ∅ w =
        (Ok (requested', false), w) ∧
      requested' !! ControllerSamples.key 1 = Some rp ∧ endpoint (peer rp) = None ∧
      IntegrationSamples.all_v4 ∈ allowed_ips (peer rp).
Proof.
  assert (exit_node (requested_state via_mesh) = Some mesh_exit) as He by (vm_compute; reflexivity).
  assert ((rt_set_config (F:=Fw) (Some one_peer) via_mesh).1 = Ok tt) as E by (vm_compute; reflexivity).
  destruct (rt_set_config (F:=Fw) (Some one_peer) via_mesh) as [r rt'] eqn:Hrun. simpl in E. subst r.
  exists rt'. split; [reflexivity|].
  destruct (left_exit_node_stays_requested one_peer mesh_exit via_mesh rt' He Hrun) as (_ & He' & Hadd).
  clear Hrun He. split; [exact He'|].
  destruct (Hadd (mkFeatures true false) ∅ (world started) IntegrationSamples.all_v4 (AddrPrefix.mkNet (V6 0) 0))
    as (requested' & rp & Hrp); [reflexivity..|]. exists requested', rp, (world started). exact Hrp.
Defined.

(** A WireGuard task that has stopped: every request is an error. *)
#[local] Instance stopped_entities : Entities Fw Fw := {|
  wg_get_interface := act_fail (OtherError 0);
  wg_time_since_last_rx _ := act_fail (OtherError 0);
  wg_get_link_state _ := act_fail (OtherError 0);
  wg_add_peer _ := act_fail (OtherError 0);
  wg_del_peer _ := act_fail (OtherError 0);
  wg_set_secret_key _ := act_fail (OtherError 0);
  wg_set_fwmark _ := act_fail (OtherError 0);
  proxy_get_endpoint_map := act_ret ∅;
  proxy_mute_peer _ _ := act_ret tt;
  cpc_get_validated_endpoints := act_ret ∅;
  cpc_notify_failed_wg_connection _ := act_ret tt;
  cpc_notify_successfull_wg_connection_upgrade _ := act_ret tt;
  us_get_upgrade_requests := act_ret ∅;
  us_request_upgrade _ _ _ _ := act_ret false;
  us_get_accepted_session _ w := (None, w);
  sk_add_node _ _ _ := act_ret tt;
  sk_remove_node _ := act_ret tt;
  sk_get_interval _ w := (None, w);
  dns_resolver _ := None;
  dns_set_peer_public_key _ w := w;
  starcast_get_peer := act_ret (peer_default public_key_default);
  stun_pause w := w;
  stun_unpause w := w;
  stun_is_paused w := (true, w);
  stun_trigger_endpoint_candidates_discovery _ := act_ret tt;
  upnp_pause w := w;
  upnp_unpause w := w;
  pq_keys _ := None;
  pq_is_rotating_keys _ := false;
  pq_peer_pubkey _ := None;
  pq_restart w := w;
  report_peer_state_relayed _ w := w;
  report_peer_state_direct _ _ _ w := w;
  get_remote_peer_states w := (∅, w);
  world_firewall w := w;
  set_world_firewall f _ := f;
  secret_public _ := public_key_default
|}.
#[local] Instance stopped_ops : DeviceOps Fw :=
  device_ops (λ _, act_fail (OtherError 0)) (act_fail (OtherError 0)) (λ _ _, act_fail (OtherError 0))
    remove_vpn_peer.

(** A device with a tunnel to [vpn], whose WireGuard task has stopped *)
Definition stopped : Runtime Fw :=
  mkRuntime features (request_exit (Some vpn) (requested_state started)) None None (LastState ∅)
    (mkPqWorld (from_secs 2)
       (entity_start (SocketAddrV4 (ipv4_addr 1 2 3 4) 51820) (mkSecretKey (replicate 32 7%Z))
          (ControllerSamples.key 7) pq_entity_new) ControllerSamples.fw0) [] ∅.

Lemma failed_disconnect_blocks_meshnet_witness :
  ∃ rt', disconnect_exit_nodes (F:=Fw) stopped = (Err (ControllerError (OtherError 0)), rt') ∧
    ∀ c, rt_set_config (F:=Fw) (Some c) rt' = (Err MeshnetUnavailableWithPQ, rt').
Proof.
  assert ((disconnect_exit_nodes (F:=Fw) stopped).1 = Err (ControllerError (OtherError 0))) as E
    by (vm_compute; reflexivity).
  destruct (disconnect_exit_nodes (F:=Fw) stopped) as [r rt'] eqn:Hrun. simpl in E. subst r.
  exists rt'. split; [reflexivity|].
  apply (failed_disconnect_blocks_meshnet (ControllerError (OtherError 0)) stopped rt'); [|exact Hrun].
  by eexists.
Defined.

(** The names of a meshnet whose first peer has the host name of this node *)
Definition named : RequestedState :=
  request_config (Some (mkMeshConfig
    (mkPeerBase "id" (ControllerSamples.key 9) "me.nord" (Some [ControllerSamples.addr 9]) (Some "boss"))
    (Some [mkMeshPeer (mkPeerBase "p" (ControllerSamples.key 1) "me.nord" (Some [ControllerSamples.addr 1])
             (Some "boss")) false false false false false false false])))
    (requested_state started).

Lemma dns_records_resolution_witness :
  dns_peer_records true named !! "boss.nord" = Some [ControllerSamples.addr 9] ∧
  dns_peer_records true named !! "me.nord" = Some [ControllerSamples.addr 9].
Proof.
  split.
  - destruct (dns_records_resolution true named "boss.nord") as [Hr _].
    rewrite Hr by reflexivity. vm_compute. reflexivity.
  - destruct (dns_records_resolution true named "me.nord") as [Hr _].
    rewrite Hr by reflexivity. vm_compute. reflexivity.
Defined.
End DeviceSamples.
