(* ===== verification/Checksum.v ===== *)
(** * Incremental checksums

    The module [checksum] of [src/crates/telio-starcast/src/utils.rs]: the
    checksum of a header is updated for the fields that changed, without the
    rest of the packet (RFC 1624), in 32-bit arithmetic with the carries folded
    at the end.  The reference is the checksum of RFC 1071, which adds all
    words of the packet with an end-around carry. *)

From S2P Require Import Prelude NetTypes NetText.

Local Open Scope Z_scope.

(** ** The code *)

(** [fold_checksum]: the loop, or nothing if it needs more iterations *)
Fixpoint fold_rounds (rounds : nat) (sum : Z) : option Z :=
  if Z.shiftr sum 16 =? 0 then Some (wrap 16 sum)
  else
    match rounds with
    | O => None
    | S rounds => fold_rounds rounds (Z.shiftr sum 16 + Z.land sum 0xFFFF)
    end.

(** No sum of 32 bits needs more than two iterations ([fold_rounds_two]). *)
Definition fold_checksum (sum : Z) : Z := default 0 (fold_rounds 2 sum).

(** [!x] on a [u16] *)
Definition not16 (x : Z) : Z := Z.lxor x 0xFFFF.

Definition add_u16 (sum data : Z) : Z := wrap 32 (sum + data).
Definition sub_u16 (sum data : Z) : Z := wrap 32 (sum + not16 data).

(** The big-endian words of an array of even length *)
Fixpoint be_words (data : bytes) : list Z :=
  match data with
  | hi :: lo :: data => be_bytes [hi; lo] :: be_words data
  | _ => []
  end.

(** [op_on_u16s], [add_bytes] and [sub_bytes] *)
Definition op_on_u16s (sum : Z) (data : bytes) (oper : Z → Z → Z) : Z := fold_left oper (be_words data) sum.
Definition add_bytes (sum : Z) (data : bytes) : Z := op_on_u16s sum data add_u16.
Definition sub_bytes (sum : Z) (data : bytes) : Z := op_on_u16s sum data sub_u16.

(** [Ipv6Addr::octets] *)
Definition octets6 (a : Z) : bytes := to_be_bytes 16 a.

Definition ipv4_header_update (old_checksum old_ip_addr new_ip_addr : Z) : Z :=
  let sum := not16 old_checksum in
  let sum := sub_bytes sum (octets old_ip_addr) in
  let sum := add_bytes sum (octets new_ip_addr) in
  not16 (fold_checksum sum).

Definition ipv4_udp_header_update (old_checksum old_ip_addr new_ip_addr old_port new_port : Z) : Z :=
  let sum := not16 old_checksum in
  let sum := sub_bytes sum (octets old_ip_addr) in
  let sum := add_bytes sum (octets new_ip_addr) in
  let sum := sub_u16 sum old_port in
  let sum := add_u16 sum new_port in
  not16 (fold_checksum sum).

Definition ipv6_udp_header_update (old_checksum old_ip_addr new_ip_addr old_port new_port : Z) : Z :=
  let sum := not16 old_checksum in
  let sum := sub_bytes sum (octets6 old_ip_addr) in
  let sum := add_bytes sum (octets6 new_ip_addr) in
  let sum := sub_u16 sum old_port in
  let sum := add_u16 sum new_port in
  not16 (fold_checksum sum).

(** ** The reference *)

(** Addition with an end-around carry, and the checksum of a list of words *)
Definition onec_add (a b : Z) : Z := Z.land (a + b) 0xFFFF + Z.shiftr (a + b) 16.
Definition internet_checksum (words : list Z) : Z := not16 (fold_left onec_add words 0).

Definition is_words (l : list Z) : Prop := Forall (is_uint 16) l.
Definition total (l : list Z) : Z := foldr Z.add 0 l.

(** ** Sums up to end-around carries *)

(** The 16-bit representative of a sum: zero only for zero *)
Definition rep (x : Z) : Z := if x =? 0 then 0 else (x - 1) `mod` 65535 + 1.

Lemma rep_bounds x : 0 <= rep x < 65536.
Proof. unfold rep. destruct (x =? 0); [lia|]. pose proof (Z.mod_pos_bound (x - 1) 65535). lia. Qed.

Lemma rep_small x : 0 <= x < 65536 → rep x = x.
Proof. intros Hx. unfold rep. destruct (Z.eqb_spec x 0); [lia|]. rewrite Z.mod_small; lia. Qed.

Lemma rep_pos x : 0 < x → 0 < rep x.
Proof.
  intros Hx. unfold rep. destruct (Z.eqb_spec x 0); [lia|].
  pose proof (Z.mod_pos_bound (x - 1) 65535). lia.
Qed.

(** Positive sums that differ by a multiple of 65535 are the same. *)
Lemma rep_shift x y k : 0 < x → 0 < y → x = y + k * 65535 → rep x = rep y.
Proof.
  intros Hx Hy ->. unfold rep. destruct (Z.eqb_spec (y + k * 65535) 0), (Z.eqb_spec y 0); try lia.
  f_equal. rewrite <-(Z.mod_add (y - 1) k 65535) by lia. f_equal. lia.
Qed.

Lemma rep_spec x : 0 < x → ∃ k, rep x = x + k * 65535.
Proof.
  intros Hx. exists (- ((x - 1) / 65535)). unfold rep. destruct (Z.eqb_spec x 0); [lia|].
  pose proof (Z.div_mod (x - 1) 65535). lia.
Qed.

Lemma rep_add x y : 0 <= x → 0 <= y → rep (rep x + y) = rep (x + y).
Proof.
  intros Hx Hy. destruct (Z.eq_dec x 0) as [->|]; [done|].
  destruct (rep_spec x) as [k Hk]; [lia|]. pose proof (rep_pos x ltac:(lia)).
  apply (rep_shift _ _ k); lia.
Qed.

Lemma carry_split s : Z.land s 0xFFFF = s `mod` 65536 ∧ Z.shiftr s 16 = s / 65536.
Proof.
  split; [by apply (Z.land_ones s 16)|by rewrite Z.shiftr_div_pow2].
Qed.

(** One fold of the carries *)
Lemma fold_once s : 0 <= s →
  rep (Z.shiftr s 16 + Z.land s 0xFFFF) = rep s ∧ 0 <= Z.shiftr s 16 + Z.land s 0xFFFF ∧
  (65536 <= s → Z.shiftr s 16 + Z.land s 0xFFFF < s) ∧ Z.shiftr s 16 + Z.land s 0xFFFF <= s / 65536 + 65535.
Proof.
  intros Hs. destruct (carry_split s) as [-> ->].
  pose proof (Z.div_mod s 65536). pose proof (Z.mod_pos_bound s 65536). pose proof (Z.div_pos s 65536).
  split_and!; try lia. destruct (Z.eq_dec s 0) as [->|]; [done|].
  apply (rep_shift _ _ (- (s / 65536))); nia.
Qed.

Lemma onec_add_rep a b : 0 <= a < 65536 → 0 <= b < 65536 → onec_add a b = rep (a + b).
Proof.
  intros Ha Hb. unfold onec_add. destruct (fold_once (a + b)) as (Hr & H0 & _ & Hle); [lia|].
  rewrite (Z.add_comm (Z.land _ _)), <-Hr, rep_small; [done|]. split; [lia|].
  destruct (carry_split (a + b)) as [-> ->].
  assert ((a + b) / 65536 <= 1) by (apply Z.lt_succ_r, Z.div_lt_upper_bound; lia).
  pose proof (Z.div_mod (a + b) 65536). pose proof (Z.mod_pos_bound (a + b) 65536). lia.
Qed.

Lemma total_nonneg l : is_words l → 0 <= total l.
Proof. unfold is_words, is_uint. induction 1; simpl in *; lia. Qed.

Lemma fold_onec_add l a : is_words l → 0 <= a < 65536 → fold_left onec_add l a = rep (a + total l).
Proof.
  unfold is_words. intros Hl. revert a. induction Hl as [|x l Hx Hl IH]; intros a Ha; cbn [fold_left total foldr].
  { by rewrite Z.add_0_r, rep_small. }
  unfold is_uint in Hx. rewrite onec_add_rep, IH by (try apply rep_bounds; lia).
  pose proof (total_nonneg l Hl). fold (total l). rewrite rep_add by lia. f_equal. lia.
Qed.

Lemma fold_rounds_small n x : 0 <= x < 65536 → fold_rounds n x = Some (rep x).
Proof.
  intros Hx. destruct (carry_split x) as [_ Hs]. rewrite Z.div_small in Hs by lia.
  destruct n; simpl; rewrite Hs; simpl; unfold wrap; by rewrite Z.mod_small, rep_small by lia.
Qed.

Lemma fold_rounds_big n x : 65536 <= x →
  fold_rounds (S n) x = fold_rounds n (Z.shiftr x 16 + Z.land x 0xFFFF).
Proof.
  intros Hx. cbn [fold_rounds]. destruct (carry_split x) as [_ ->].
  destruct (Z.eqb_spec (x / 65536) 0); [|done].
  pose proof (Z.div_le_lower_bound x 65536 1). lia.
Qed.

(** A sum of 32 bits is folded by at most two iterations of the loop. *)
Lemma fold_rounds_two x : is_uint 32 x → fold_rounds 2 x = Some (rep x).
Proof.
  unfold is_uint. intros Hx. destruct (Z_lt_dec x 65536); [apply fold_rounds_small; lia|].
  rewrite fold_rounds_big by lia. destruct (fold_once x) as (<- & H0 & _ & Hle); [lia|].
  assert (x / 65536 <= 65535) by (apply Z.lt_succ_r, Z.div_lt_upper_bound; lia).
  set (y := Z.shiftr x 16 + Z.land x 0xFFFF) in *. clearbody y.
  destruct (Z_lt_dec y 65536); [apply fold_rounds_small; lia|].
  rewrite fold_rounds_big by lia. destruct (fold_once y) as (<- & H1 & _ & _); [lia|].
  apply fold_rounds_small. split; [lia|]. destruct (carry_split y) as [-> ->].
  assert (y / 65536 <= 1) by (apply Z.lt_succ_r, Z.div_lt_upper_bound; lia).
  pose proof (Z.div_mod y 65536). pose proof (Z.mod_pos_bound y 65536). lia.
Qed.

Lemma fold_rounds_more n m x r : fold_rounds n x = Some r → fold_rounds (n + m) x = Some r.
Proof.
  revert x. induction n as [|n IH]; intros x; cbn [fold_rounds Nat.add].
  - destruct m; simpl; by destruct (Z.shiftr x 16 =? 0).
  - destruct (Z.shiftr x 16 =? 0); [done|]. apply IH.
Qed.

Lemma fold_checksum_rep x : is_uint 32 x → fold_checksum x = rep x.
Proof. intros Hx. unfold fold_checksum. by rewrite fold_rounds_two. Qed.

(** ** The updates in terms of the sums *)

Lemma not16_eq x : is_uint 16 x → not16 x = 65535 - x.
Proof.
  unfold is_uint, not16. intros Hx. change 0xFFFF with (Z.ones 16). change 65535 with (Z.ones 16).
  destruct (Z.eq_dec x 0) as [->|?]; [done|].
  assert (Z.log2 x < 16) by (apply Z.log2_lt_pow2; lia).
  rewrite Z.sub_nocarry_ldiff by (apply Z.ldiff_ones_r_low; lia).
  apply Z.bits_inj'. intros i Hi. rewrite Z.lxor_spec, Z.ldiff_spec.
  destruct (Z_lt_dec i 16).
  - rewrite Z.ones_spec_low by lia. by destruct (Z.testbit x i).
  - rewrite Z.ones_spec_high, Z.bits_above_log2 by lia. done.
Qed.

Lemma not16_uint x : is_uint 16 x → is_uint 16 (not16 x).
Proof. intros Hx. rewrite not16_eq by done. unfold is_uint in *. lia. Qed.

Lemma length_be_words l n : length l = (2 * n)%nat → length (be_words l) = n.
Proof.
  revert l. induction n as [|n IH]; intros [|a [|b l]] Hl; try done; simpl in *; try lia.
  rewrite IH; lia.
Qed.

Lemma be_words_words l n : length l = (2 * n)%nat → is_bytes l → is_words (be_words l).
Proof.
  unfold is_bytes, is_words. revert l. induction n as [|n IH]; intros [|a [|b l]] Hl Hb; try done; simpl in *; try lia.
  apply Forall_cons in Hb as [Ha Hb]. apply Forall_cons in Hb as [Hb Hr].
  constructor; [|apply IH; [lia|done]]. apply (be_bytes_is_uint [a; b]). unfold is_bytes. by rewrite !Forall_cons, Forall_nil.
Qed.

(** The sums in 32 bits do not overflow. *)
Lemma fold_add_u16 ws s : is_words ws → 0 <= s → s + 65535 * Z.of_nat (length ws) < 2 ^ 32 →
  fold_left add_u16 ws s = s + total ws ∧ 0 <= total ws <= 65535 * Z.of_nat (length ws).
Proof.
  unfold is_words, is_uint. intros Hw. revert s. induction Hw as [|x ws Hx Hw IH]; intros s Hs Hb; cbn [fold_left length total foldr] in *.
  { lia. }
  unfold add_u16 at 2, wrap. rewrite Z.mod_small by lia.
  destruct (IH (s + x)) as [-> ?]; [lia..|]. fold (total ws) in *. lia.
Qed.

Lemma fold_sub_u16 ws s : is_words ws → 0 <= s → s + 65535 * Z.of_nat (length ws) < 2 ^ 32 →
  fold_left sub_u16 ws s = s + 65535 * Z.of_nat (length ws) - total ws ∧ 0 <= total ws <= 65535 * Z.of_nat (length ws).
Proof.
  unfold is_words. intros Hw. revert s. induction Hw as [|x ws Hx Hw IH]; intros s Hs Hb; cbn [fold_left length total foldr] in *.
  { lia. }
  unfold sub_u16 at 2, wrap. rewrite not16_eq by done. unfold is_uint in Hx. rewrite Z.mod_small by lia.
  destruct (IH (s + (65535 - x))) as [-> ?]; [lia..|]. fold (total ws) in *. lia.
Qed.

Lemma total_app l1 l2 : total (l1 ++ l2) = total l1 + total l2.
Proof. unfold total. induction l1; simpl; lia. Qed.

Lemma internet_checksum_rep ws : is_words ws → internet_checksum ws = 65535 - rep (total ws).
Proof.
  intros Hw. unfold internet_checksum. rewrite fold_onec_add by (done || lia).
  apply not16_eq. apply rep_bounds.
Qed.

(** RFC 1624, equation 3, on the sums: [k] words that add up to [o] are
    replaced by words that add up to [n], next to words that add up to [w]. *)
Lemma update_sum o n w k : 0 < w → 0 <= o <= 65535 * k → 0 <= n <= 65535 * k → k < 1000 →
  not16 (fold_checksum (rep (o + w) + 65535 * k - o + n)) = 65535 - rep (n + w).
Proof.
  intros Hw Ho Hn Hk. pose proof (rep_bounds (o + w)).
  rewrite fold_checksum_rep by (unfold is_uint; lia).
  rewrite not16_eq by apply rep_bounds. f_equal.
  destruct (rep_spec (o + w)) as [j Hj]; [lia|].
  apply (rep_shift _ _ (j + k)); [|lia|lia]. pose proof (rep_pos (o + w)). lia.
Qed.

Lemma not16_checksum ws : is_words ws → not16 (internet_checksum ws) = rep (total ws).
Proof.
  intros Hw. pose proof (rep_bounds (total ws)). rewrite internet_checksum_rep by done.
  rewrite not16_eq by (unfold is_uint; lia). lia.
Qed.

(** An address changes. *)
Lemma update_address (octs octs' : bytes) rest :
  is_words (be_words octs) → is_words (be_words octs') → length (be_words octs) = length (be_words octs') →
  (length (be_words octs) < 999)%nat → is_words rest → 0 < total rest →
  not16 (fold_checksum (add_bytes (sub_bytes (not16 (internet_checksum (be_words octs ++ rest))) octs) octs')) =
  internet_checksum (be_words octs' ++ rest).
Proof.
  intros Ho Hn Hlen Hl Hr Hp. unfold add_bytes, sub_bytes, op_on_u16s.
  rewrite not16_checksum, internet_checksum_rep, !total_app by (by apply Forall_app).
  pose proof (rep_bounds (total (be_words octs) + total rest)) as Hb.
  destruct (fold_sub_u16 (be_words octs) (rep (total (be_words octs) + total rest))) as [-> ?]; [done|lia..|].
  match goal with |- context [fold_left add_u16 ?l ?s] => destruct (fold_add_u16 l s) as [-> ?]; [done|lia..|] end.
  apply update_sum; lia.
Qed.

(** An address and a port change. *)
Lemma update_address_port (octs octs' : bytes) old new rest :
  is_words (be_words octs) → is_words (be_words octs') → length (be_words octs) = length (be_words octs') →
  (length (be_words octs) < 999)%nat → is_uint 16 old → is_uint 16 new → is_words rest → 0 < total rest →
  not16 (fold_checksum (add_u16 (sub_u16 (add_bytes (sub_bytes (not16 (internet_checksum (be_words octs ++ old :: rest)))
    octs) octs') old) new)) = internet_checksum (be_words octs' ++ new :: rest).
Proof.
  intros Ho Hn Hlen Hl Hpo Hpn Hr Hp. unfold add_bytes, sub_bytes, op_on_u16s.
  rewrite not16_checksum, internet_checksum_rep, !total_app by (apply Forall_app; split; [done|by constructor]).
  cbn [total foldr]. fold (total rest).
  set (s := rep _). assert (0 <= s < 65536) as Hb by apply rep_bounds.
  destruct (fold_sub_u16 (be_words octs) s) as [-> ?]; [done|lia..|].
  match goal with |- context [fold_left add_u16 ?l ?s] => destruct (fold_add_u16 l s) as [-> ?]; [done|lia..|] end.
  unfold add_u16, sub_u16, wrap. rewrite (not16_eq old) by done. unfold is_uint in Hpo, Hpn.
  rewrite (Z.mod_small (_ + (65535 - old))), Z.mod_small by lia.
  rewrite !Z.add_assoc, <-(update_sum (total (be_words octs) + old) _ _ (Z.of_nat (length (be_words octs)) + 1)) by lia.
  do 2 f_equal. subst s. rewrite (Z.add_assoc _ old). lia.
Qed.

Lemma total_pos l : is_words l → (∃ x, x ∈ l ∧ x ≠ 0) → 0 < total l.
Proof.
  intros Hl (x & Hx & Hne). apply list_elem_of_split in Hx as (l1 & l2 & ->).
  apply Forall_app in Hl as [H1 H2]. apply Forall_cons in H2 as [H2 H3]. rewrite total_app. simpl. fold (total l2).
  pose proof (total_nonneg l1 H1). pose proof (total_nonneg l2 H3). unfold is_uint in H2. lia.
Qed.

Lemma be_words_to_be_bytes n a : is_words (be_words (to_be_bytes (2 * n) a)) ∧ length (be_words (to_be_bytes (2 * n) a)) = n.
Proof.
  split; [apply (be_words_words _ n)|apply length_be_words]; auto using length_to_be_bytes, is_bytes_to_be_bytes.
Qed.

Lemma be_words_octets a : is_words (be_words (octets a)) ∧ length (be_words (octets a)) = 2%nat.
Proof. apply (be_words_to_be_bytes 2). Qed.

Lemma be_words_octets6 a : is_words (be_words (octets6 a)) ∧ length (be_words (octets6 a)) = 8%nat.
Proof. apply (be_words_to_be_bytes 8). Qed.

(** The updates modulo 65535: what the old words had in the checksum is taken
    out, what the new ones have is put in. *)
Lemma not16_fold s : is_uint 32 s →
  is_uint 16 (not16 (fold_checksum s)) ∧ not16 (fold_checksum s) `mod` 65535 = (- s) `mod` 65535.
Proof.
  intros Hs. rewrite fold_checksum_rep by done. pose proof (rep_bounds s) as Hb.
  split; [by apply not16_uint|]. rewrite not16_eq by done. unfold is_uint in Hs.
  destruct (Z.eq_dec s 0) as [->|?]; [done|]. destruct (rep_spec s) as [k ->]; [lia|].
  rewrite <-(Z.mod_add (- s) (1 - k)) by lia. f_equal. lia.
Qed.

Lemma address_update_sum c o n : is_uint 16 c → is_words (be_words o) → is_words (be_words n) →
  length (be_words o) = length (be_words n) → (length (be_words o) < 999)%nat →
  let s := add_bytes (sub_bytes (not16 c) o) n in
  ∃ k, s = - c - total (be_words o) + total (be_words n) + k * 65535 ∧ 0 <= s < 2 ^ 31.
Proof.
  intros Hc Ho Hn Hlen Hl. unfold add_bytes, sub_bytes, op_on_u16s. rewrite not16_eq by done. unfold is_uint in Hc.
  destruct (fold_sub_u16 (be_words o) (65535 - c)) as [-> ?]; [done|lia..|].
  match goal with |- context [fold_left add_u16 ?l ?s] => destruct (fold_add_u16 l s) as [-> ?]; [done|lia..|] end.
  exists (Z.of_nat (length (be_words o)) + 1). lia.
Qed.

Lemma address_update_mod c o n : is_uint 16 c → is_words (be_words o) → is_words (be_words n) →
  length (be_words o) = length (be_words n) → (length (be_words o) < 999)%nat →
  let c' := not16 (fold_checksum (add_bytes (sub_bytes (not16 c) o) n)) in
  is_uint 16 c' ∧ c' `mod` 65535 = (c + total (be_words o) - total (be_words n)) `mod` 65535.
Proof.
  intros Hc Ho Hn Hlen Hl. destruct (address_update_sum c o n) as (k & Hs & Hb); [done..|].
  destruct (not16_fold (add_bytes (sub_bytes (not16 c) o) n)) as [Hu Hm]; [unfold is_uint; lia|].
  split; [done|]. rewrite Hm, Hs, <-(Z.mod_add (c + _ - _) (- k)) by lia. f_equal. lia.
Qed.

Lemma address_port_update_mod c o n p q : is_uint 16 c → is_words (be_words o) → is_words (be_words n) →
  length (be_words o) = length (be_words n) → (length (be_words o) < 999)%nat → is_uint 16 p → is_uint 16 q →
  let c' := not16 (fold_checksum (add_u16 (sub_u16 (add_bytes (sub_bytes (not16 c) o) n) p) q)) in
  is_uint 16 c' ∧ c' `mod` 65535 = (c + total (be_words o) + p - total (be_words n) - q) `mod` 65535.
Proof.
  intros Hc Ho Hn Hlen Hl Hp Hq. destruct (address_update_sum c o n) as (k & Hs & Hb); [done..|].
  set (s := add_bytes _ _) in *. clearbody s. unfold add_u16, sub_u16, wrap. rewrite (not16_eq p) by done. unfold is_uint in Hp, Hq.
  rewrite (Z.mod_small (s + _)), Z.mod_small by lia.
  destruct (not16_fold (s + (65535 - p) + q)) as [Hu Hm]; [unfold is_uint; lia|].
  split; [done|]. rewrite Hm, Hs, <-(Z.mod_add (c + _ + _ - _ - _) (- k - 1)) by lia. f_equal. lia.
Qed.

(** ** Theorems *)

(** The loop of [fold_checksum] terminates on every [u32], after at most
    two iterations however many more it is given; its result is a 16-bit
    integer congruent to the sum modulo 65535, and it is zero only for the
    sum zero. *)
Theorem fold_checksum_terminates sum more : is_uint 32 sum →
  fold_rounds (2 + more) sum = Some (fold_checksum sum) ∧ is_uint 16 (fold_checksum sum) ∧
  fold_checksum sum `mod` 65535 = sum `mod` 65535 ∧ (fold_checksum sum = 0 ↔ sum = 0).
Proof.
  intros Hs. rewrite fold_checksum_rep by done. unfold is_uint in Hs.
  split; [by apply fold_rounds_more, fold_rounds_two|].
  split; [apply rep_bounds|]. destruct (Z.eq_dec sum 0) as [->|?]; [done|].
  destruct (rep_spec sum) as [k Hk]; [lia|]. pose proof (rep_pos sum). split; [|lia].
  rewrite Hk, Z.mod_add by lia. done.
Qed.

Lemma fold_checksum_terminates_witness :
  fold_rounds 7 0xFFFFFFFF = Some (fold_checksum 0xFFFFFFFF) ∧ fold_rounds 1 0xFFFFFFFF = None.
Proof. split; [|done]. apply (fold_checksum_terminates 0xFFFFFFFF 5). done. Defined.

(** C26: updating a checksum for a changed address and port gives the
    checksum one would get by adding up all words of the new packet: for
    every other contents of the packet that is not all zero, over IPv4 and
    over IPv6, and likewise for the header of an IPv4 packet. *)
Theorem checksum_update_recomputes old_ip new_ip old_port new_port rest :
  is_uint 16 old_port → is_uint 16 new_port → is_words rest → (∃ x, x ∈ rest ∧ x ≠ 0) →
  let packet octs port := be_words octs ++ port :: rest in
  ipv4_header_update (internet_checksum (be_words (octets old_ip) ++ rest)) old_ip new_ip =
    internet_checksum (be_words (octets new_ip) ++ rest) ∧
  ipv4_udp_header_update (internet_checksum (packet (octets old_ip) old_port)) old_ip new_ip old_port new_port =
    internet_checksum (packet (octets new_ip) new_port) ∧
  ipv6_udp_header_update (internet_checksum (packet (octets6 old_ip) old_port)) old_ip new_ip old_port new_port =
    internet_checksum (packet (octets6 new_ip) new_port).
Proof.
  intros Ho Hn Hr Hx packet. assert (0 < total rest) as Hp by (by apply total_pos).
  destruct (be_words_octets old_ip), (be_words_octets new_ip), (be_words_octets6 old_ip), (be_words_octets6 new_ip).
  split; [|split].
  - apply (update_address (octets old_ip) (octets new_ip)); done || lia.
  - apply (update_address_port (octets old_ip) (octets new_ip)); done || lia.
  - apply (update_address_port (octets6 old_ip) (octets6 new_ip)); done || lia.
Qed.

Lemma checksum_update_recomputes_witness :
  ipv4_udp_header_update (internet_checksum (be_words (octets 0x64400002) ++ 5353 :: [0xE000; 0x00FB; 17; 0x1234]))
    0x64400002 0x64400003 5353 12345 =
  internet_checksum (be_words (octets 0x64400003) ++ 12345 :: [0xE000; 0x00FB; 17; 0x1234]).
Proof.
  refine (proj1 (proj2 (checksum_update_recomputes 0x64400002 0x64400003 5353 12345 [0xE000; 0x00FB; 17; 0x1234] _ _ _ _)));
    [done|done|by repeat (constructor; [done|])|]. exists 17. split; [set_solver|done].
Defined.
