(* ===== verification/PacketViews.v ===== *)
(** * Packets read and written in place

    [src/crates/telio-starcast] reads and rewrites packets through the mutable
    views of the crate [pnet_packet], which is not part of the repository.  A
    view is a buffer with the getters and setters of its fields, and possibly a
    payload: [View] and [Enclosing] are what the source uses of a view, and
    [ViewLaws] and [EnclosingLaws] what it relies on.  [RfcViews] are views
    after the RFCs' layouts, on which packets can be translated and their
    checksums verified. *)

From S2P Require Import Prelude NetTypes FirewallReset.

(** ** The interface *)

(** [Mutable*Packet::new], [get_*] and [set_*] *)
Record View (F : Type) := mkView {
  view_new : bytes → bool;
  view_get : F → bytes → Z;
  view_set : F → Z → bytes → bytes
}.
Arguments mkView {F} _ _ _.
Arguments view_new {F} _ _.
Arguments view_get {F} _ _ _.
Arguments view_set {F} _ _ _ _.

(** [payload_mut]: the bytes it borrows, and the buffer after they are written *)
Record Enclosing := mkEnclosing {
  view_payload : bytes → bytes;
  view_with_payload : bytes → bytes → bytes
}.

Inductive IpField := IpProtocol | IpSource | IpDestination.
Inductive Ipv4OnlyField := Ipv4HeaderField (f : IpField) | Ipv4HeaderChecksum.
Inductive UdpField := UdpSource | UdpDestination | UdpChecksum.

#[export] Instance IpField_eq_dec : EqDecision IpField.
Proof. solve_decision. Defined.
#[export] Instance Ipv4OnlyField_eq_dec : EqDecision Ipv4OnlyField.
Proof. solve_decision. Defined.
#[export] Instance UdpField_eq_dec : EqDecision UdpField.
Proof. solve_decision. Defined.

Class PnetViews := {
  ipv4_view : View Ipv4OnlyField;
  ipv4_enclosing : Enclosing;
  ipv6_view : View IpField;
  ipv6_enclosing : Enclosing;
  udp_view : View UdpField
}.

(** The widths of the fields, in bits *)
Definition ip_width (addr : Z) (f : IpField) : Z := match f with IpProtocol => 8 | _ => addr end.
Definition ipv4_width (f : Ipv4OnlyField) : Z :=
  match f with Ipv4HeaderField f => ip_width 32 f | Ipv4HeaderChecksum => 16 end.
Definition ipv6_width : IpField → Z := ip_width 128.
Definition udp_width (f : UdpField) : Z := 16.

(** A setter writes its field and nothing else; the buffer stays one of the
    same length, with the same first byte if that is in no field. *)
Record ViewLaws {F} (v : View F) (width : F → Z) : Prop := {
  law_length_set f x b : length (view_set v f x b) = length b;
  law_new_length b b' : length b = length b' → view_new v b = view_new v b';
  law_get_set f x b : view_new v b → is_uint (width f) x → view_get v f (view_set v f x b) = x;
  law_get_set_ne f g x b : view_new v b → f ≠ g → view_get v f (view_set v g x b) = view_get v f b;
  law_get_uint f b : is_bytes b → is_uint (width f) (view_get v f b);
  law_bytes_set f x b : is_bytes b → is_bytes (view_set v f x b)
}.

(** The payload is behind the fields of the header and the first byte. *)
Record EnclosingLaws {F} (v : View F) (e : Enclosing) : Prop := {
  law_head_set f x b : head (view_set v f x b) = head b;
  law_payload_set f x b : view_new v b → view_payload e (view_set v f x b) = view_payload e b;
  law_get_put f p b : view_new v b → length p = length (view_payload e b) →
    view_get v f (view_with_payload e p b) = view_get v f b;
  law_payload_put p b : view_new v b → length p = length (view_payload e b) →
    view_payload e (view_with_payload e p b) = p;
  law_head_put p b : view_new v b → head (view_with_payload e p b) = head b;
  law_length_put p b : length (view_with_payload e p b) = length b;
  law_bytes_payload b : is_bytes b → is_bytes (view_payload e b);
  law_bytes_put p b : is_bytes p → is_bytes b → is_bytes (view_with_payload e p b)
}.

Class PnetViewsLaws `{PnetViews} : Prop := {
  ipv4_view_laws : ViewLaws ipv4_view ipv4_width;
  ipv4_enclosing_laws : EnclosingLaws ipv4_view ipv4_enclosing;
  ipv6_view_laws : ViewLaws ipv6_view ipv6_width;
  ipv6_enclosing_laws : EnclosingLaws ipv6_view ipv6_enclosing;
  udp_view_laws : ViewLaws udp_view udp_width
}.

(** ** Views after the RFCs *)

Section ranges.
Implicit Types (b p : bytes).

(** A part of the buffer depends on its bytes only. *)
Lemma range_ext b b' off n :
  (∀ i, off ≤ i < off + n → b !! i = b' !! i) → take n (drop off b) = take n (drop off b').
Proof.
  intros Hi. apply list_eq. intros i. destruct (decide (i < n)).
  - rewrite !lookup_take_lt, !lookup_drop by lia. apply Hi. lia.
  - rewrite !lookup_take_ge by lia. done.
Qed.

Lemma range_inserts_ne b p o off n :
  off + n ≤ o ∨ o + length p ≤ off → take n (drop off (list_inserts o p b)) = take n (drop off b).
Proof.
  intros Hd. apply range_ext. intros i Hi. destruct Hd.
  - by rewrite list_lookup_inserts_lt by lia.
  - by rewrite list_lookup_inserts_ge by lia.
Qed.

Lemma range_inserts_eq b p o :
  o + length p ≤ length b → take (length p) (drop o (list_inserts o p b)) = p.
Proof.
  intros Hl. apply list_eq. intros i. destruct (decide (i < length p)).
  - rewrite lookup_take_lt, lookup_drop by lia. rewrite list_lookup_inserts by lia. f_equal. lia.
  - rewrite lookup_take_ge by lia. symmetry. by apply lookup_ge_None_2; lia.
Qed.

Lemma take_inserts_all b p o n :
  length p = Nat.min n (length b - o) → take n (drop o (list_inserts o p b)) = p.
Proof.
  intros Hl. destruct (decide (o ≤ length b)).
  - rewrite <-(range_inserts_eq b p o) at 2 by lia. rewrite Hl.
    assert (length (drop o (list_inserts o p b)) = length b - o) as Hd by (by rewrite length_drop, length_inserts).
    destruct (Nat.min_spec n (length b - o)) as [[_ ->]|[? ->]]; [done|]. by rewrite !take_ge by lia.
  - rewrite drop_ge by (rewrite length_inserts; lia). rewrite take_nil. destruct p; [done|]. simpl in Hl. lia.
Qed.

Lemma is_bytes_inserts o p b : is_bytes p → is_bytes b → is_bytes (list_inserts o p b).
Proof.
  unfold is_bytes. rewrite !Forall_lookup. intros Hp Hb i x Hx.
  apply list_lookup_inserts_Some in Hx as [[_ Hx]|(_ & _ & Hx)]; eauto.
Qed.

Lemma is_bytes_range n off b : is_bytes b → is_bytes (take n (drop off b)).
Proof. intros Hb. by apply Forall_take, Forall_drop. Qed.

Lemma head_lookup b : head b = b !! 0.
Proof. by destruct b. Qed.
End ranges.

(** A field is a range of bytes; the payload is a range whose place depends on
    the first [k] bytes. *)
Section layouts.
Context {F : Type} (min : nat) (off size : F → nat) (k : nat) (place : bytes → nat * nat).

Definition rfc_view : View F := {|
  view_new b := bool_decide (min ≤ length b);
  view_get f b := Rfc.field (off f) (size f) b;
  view_set f x b := list_inserts (off f) (to_be_bytes (size f) x) b
|}.

Definition rfc_enclosing : Enclosing := {|
  view_payload b := take (place (take k b)).2 (drop (place (take k b)).1 b);
  view_with_payload p b := list_inserts (place (take k b)).1 p b
|}.

Definition apart (f g : F) : Prop := off f + size f ≤ off g ∨ off g + size g ≤ off f.

Lemma rfc_view_laws width :
  (∀ f, off f + size f ≤ min) → (∀ f g, f ≠ g → apart f g) → (∀ f, width f = (8 * Z.of_nat (size f))%Z) →
  ViewLaws rfc_view width.
Proof.
  intros Hmin Hap Hw. split; simpl.
  - intros. apply length_inserts.
  - intros b b' ->. done.
  - intros f x b Hb%bool_decide_unpack Hx. unfold Rfc.field.
    rewrite <-(length_to_be_bytes (size f) x) at 1. specialize (Hmin f).
    rewrite range_inserts_eq by (rewrite length_to_be_bytes; lia).
    apply be_bytes_to_be_bytes. by rewrite <-Hw.
  - intros f g x b _ Hne. unfold Rfc.field. rewrite range_inserts_ne; [done|].
    rewrite length_to_be_bytes. apply Hap, Hne.
  - intros f b Hb. unfold Rfc.field. pose proof (be_bytes_is_uint _ (is_bytes_range (size f) (off f) b Hb)) as Hu.
    unfold is_uint in *. rewrite Hw. split; [apply Hu|]. eapply Z.lt_le_trans; [apply Hu|].
    apply Z.pow_le_mono_r; [lia|]. rewrite length_take. lia.
  - intros f x b Hb. apply is_bytes_inserts; [apply is_bytes_to_be_bytes|done].
Qed.

Hypothesis (Hbefore : ∀ f, k ≤ off f) (Hone : 0 < k) (Hk : k ≤ min).
Hypothesis (Hbehind : ∀ b f, off f + size f ≤ (place b).1) (Hfix : ∀ b, k ≤ (place b).1).

Lemma take_inserts o p (b : bytes) : k ≤ o → take k (list_inserts o p b) = take k b.
Proof. intros Ho. apply (range_inserts_ne b p o 0 k). lia. Qed.

Lemma head_inserts o p (b : bytes) : k ≤ o → head (list_inserts o p b) = head b.
Proof. intros Ho. rewrite !head_lookup. apply list_lookup_inserts_lt. lia. Qed.

Lemma rfc_enclosing_laws : EnclosingLaws rfc_view rfc_enclosing.
Proof.
  split; simpl.
  - intros. by apply head_inserts.
  - intros f x b _. rewrite take_inserts by done. apply range_inserts_ne.
    rewrite length_to_be_bytes. right. apply Hbehind.
  - intros f p b _ _. unfold Rfc.field. rewrite range_inserts_ne; [done|]. left. apply Hbehind.
  - intros p b _ Hl. rewrite take_inserts by done. apply take_inserts_all. by rewrite Hl, length_take, length_drop.
  - intros p b _. by apply head_inserts.
  - intros. apply length_inserts.
  - intros. by apply is_bytes_range.
  - intros. by apply is_bytes_inserts.
Qed.
End layouts.

(** RFC 791, RFC 8200 and RFC 768; [pnet_packet] counts options from the fifth
    word of the header on, and the payload up to the length in the header. *)
Module RfcViews.
Definition ip_off (v4 : bool) (f : IpField) : nat :=
  match f with
  | IpProtocol => if v4 then 9 else 6
  | IpSource => if v4 then 12 else 8
  | IpDestination => if v4 then 16 else 24
  end.
Definition ip_size (v4 : bool) (f : IpField) : nat :=
  match f with IpProtocol => 1 | _ => if v4 then 4 else 16 end.

Definition ipv4_off (f : Ipv4OnlyField) : nat :=
  match f with Ipv4HeaderField f => ip_off true f | Ipv4HeaderChecksum => 10 end.
Definition ipv4_size (f : Ipv4OnlyField) : nat :=
  match f with Ipv4HeaderField f => ip_size true f | Ipv4HeaderChecksum => 2 end.

Definition udp_off (f : UdpField) : nat :=
  match f with UdpSource => 0 | UdpDestination => 2 | UdpChecksum => 6 end.

Definition ipv4_place (b : bytes) : nat * nat :=
  let header := Z.to_nat (4 * Z.land (Rfc.byte 0 b) 15) in
  (20 + (header - 20), Z.to_nat (Rfc.field 2 2 b) - header).

Definition ipv6_place (b : bytes) : nat * nat := (40, Z.to_nat (Rfc.field 4 2 b)).

#[export] Instance views : PnetViews := {
  ipv4_view := rfc_view 20 ipv4_off ipv4_size;
  ipv4_enclosing := rfc_enclosing 4 ipv4_place;
  ipv6_view := rfc_view 40 (ip_off false) (ip_size false);
  ipv6_enclosing := rfc_enclosing 6 ipv6_place;
  udp_view := rfc_view 8 udp_off (λ _, 2)
}.

#[export] Instance views_laws : PnetViewsLaws.
Proof.
  split.
  - apply rfc_view_laws.
    + intros [[]|]; simpl; lia.
    + intros [[]|] [[]|] ?; try done; unfold apart; simpl; lia.
    + by intros [[]|].
  - apply rfc_enclosing_laws; try lia; try (intros [[]|]; simpl; lia); intros b; try intros [[]|]; simpl; lia.
  - apply rfc_view_laws.
    + intros []; simpl; lia.
    + intros [] [] ?; try done; unfold apart; simpl; lia.
    + by intros [].
  - apply rfc_enclosing_laws; try lia; try (intros []; simpl; lia); intros b; try intros []; simpl; lia.
  - apply rfc_view_laws.
    + intros []; simpl; lia.
    + intros [] [] ?; try done; unfold apart; simpl; lia.
    + by intros [].
Qed.
End RfcViews.
