(* ===== verification/StarcastNat.v ===== *)
(** * [telio-starcast]: the address translation of multicast traffic

    [src/crates/telio-starcast/src/nat.rs] and the trait [MutableIpPacket] of
    [utils.rs].  Packets from many meshnet nodes reach WireGuard from the one
    address of the virtual peer: the source port tells the nodes apart, and a
    cache of mappings leads the replies back.

    A call takes the instant [Instant::now()] returns as [now].  The hash of the
    standard library is not specified, so the port mapper is a parameter: the
    field [mapper], which the source has too. *)

From S2P Require Import Prelude LruCache NetTypes PacketViews Checksum.

(** [nat::Error] *)
Inductive NatError :=
| PacketTooShort
| UnexpectedIpVersion
| UnexpectedTransportProtocol
| CannotMap
| MappingNotFound.

Record DualIpAddr := mkDualIpAddr { dual_ipv4 : Z; dual_ipv6 : Z }.

Section packets.
Context `{PnetViews}.

(** The trait [MutableIpPacket]; [IpAddrType] is the number of the address,
    and [mip_into] its [Into<IpAddr>]. *)
Record MutableIpPacket := mkMutableIpPacket {
  mip_new : bytes → bool;
  mip_get_next_level_protocol : bytes → Z;
  mip_get_source : bytes → Z;
  mip_get_destination : bytes → Z;
  mip_set_source : Z → bytes → bytes;
  mip_set_destination : Z → bytes → bytes;
  mip_fix_ip_header_checksum : Z → Z → bytes → bytes;
  mip_payload : bytes → bytes;
  mip_with_payload : bytes → bytes → bytes;
  mip_into : Z → StdIpAddr;
  mip_get_addr : DualIpAddr → Z;
  mip_get_ip_from_addr : SocketAddr → option Z;
  mip_calculate_udp_header_checksum_update : Z → Z → Z → Z → Z → Z
}.

(** [MutableIpPacket for MutableIpv4Packet] *)
Definition ipv4_fix_header_checksum (old_ip new_ip : Z) (packet : bytes) : bytes :=
  let old_checksum := view_get ipv4_view Ipv4HeaderChecksum packet in
  if bool_decide (old_checksum ≠ 0%Z) then
    view_set ipv4_view Ipv4HeaderChecksum (ipv4_header_update old_checksum old_ip new_ip) packet
  else packet.

Definition MutableIpv4Packet : MutableIpPacket := {|
  mip_new := view_new ipv4_view;
  mip_get_next_level_protocol := view_get ipv4_view (Ipv4HeaderField IpProtocol);
  mip_get_source := view_get ipv4_view (Ipv4HeaderField IpSource);
  mip_get_destination := view_get ipv4_view (Ipv4HeaderField IpDestination);
  mip_set_source := view_set ipv4_view (Ipv4HeaderField IpSource);
  mip_set_destination := view_set ipv4_view (Ipv4HeaderField IpDestination);
  mip_fix_ip_header_checksum := ipv4_fix_header_checksum;
  mip_payload := view_payload ipv4_enclosing;
  mip_with_payload := view_with_payload ipv4_enclosing;
  mip_into := V4;
  mip_get_addr := dual_ipv4;
  mip_get_ip_from_addr a := match socket_ip a with V4 ip => Some ip | _ => None end;
  mip_calculate_udp_header_checksum_update := ipv4_udp_header_update
|}.

(** [MutableIpPacket for MutableIpv6Packet] *)
Definition MutableIpv6Packet : MutableIpPacket := {|
  mip_new := view_new ipv6_view;
  mip_get_next_level_protocol := view_get ipv6_view IpProtocol;
  mip_get_source := view_get ipv6_view IpSource;
  mip_get_destination := view_get ipv6_view IpDestination;
  mip_set_source := view_set ipv6_view IpSource;
  mip_set_destination := view_set ipv6_view IpDestination;
  mip_fix_ip_header_checksum _ _ packet := packet;
  mip_payload := view_payload ipv6_enclosing;
  mip_with_payload := view_with_payload ipv6_enclosing;
  mip_into := V6;
  mip_get_addr := dual_ipv6;
  mip_get_ip_from_addr a := match socket_ip a with V6 ip => Some ip | _ => None end;
  mip_calculate_udp_header_checksum_update := ipv6_udp_header_update
|}.
End packets.

(** [SocketAddr::port] *)
Definition socket_port (a : SocketAddr) : Z :=
  match a with SocketAddrV4 _ port => port | SocketAddrV6 _ port _ _ => port end.

Record StarcastNat (M : Type → Type → Type) := mkStarcastNat {
  mappings : LruCache M Z SocketAddr;
  vpeer_addr : DualIpAddr;
  mapper : SocketAddr → Z
}.
Arguments mkStarcastNat {M} _ _ _.
Arguments mappings {M} _.
Arguments vpeer_addr {M} _.
Arguments mapper {M} _ _.

Definition MAX_ATTEMPTS : Z := 128.

Section translation.
Context `{PnetViews} {M : Type → Type → Type} `{LinkedHashMap M}.
Implicit Types (nat : StarcastNat M) (now : Instant) (packet : bytes).

(** [StarcastNat::new_custom] *)
Definition nat_new_custom (vpeer_ipv4_addr vpeer_ipv6_addr : Z) (cache_capacity : Datatypes.nat)
    (cache_timeout : Duration) (mapper : SocketAddr → Z) : StarcastNat M :=
  mkStarcastNat (lru_new cache_timeout cache_capacity) (mkDualIpAddr vpeer_ipv4_addr vpeer_ipv6_addr) mapper.

(** [StarcastNat::new], with the default mapper *)
Definition DEFAULT_CACHE_CAPACITY : Datatypes.nat := 2048.
Definition DEFAULT_CACHE_TIMEOUT : Duration := 120000.
Definition nat_new (default_mapper : SocketAddr → Z) (vpeer_ipv4 vpeer_ipv6 : Z) : StarcastNat M :=
  nat_new_custom vpeer_ipv4 vpeer_ipv6 DEFAULT_CACHE_CAPACITY DEFAULT_CACHE_TIMEOUT default_mapper.

Definition set_mappings m nat : StarcastNat M := mkStarcastNat m (vpeer_addr nat) (mapper nat).

(** The loop that looks for a port; nothing if the fuel is used up *)
Fixpoint probe (fuel : Datatypes.nat) now nat (old_src_addr : SocketAddr) (loop_guard nat_port : Z)
    : option (result NatError Z) :=
  match fuel with
  | O => None
  | S fuel =>
      match lru_peek now nat_port (mappings nat) with
      | Some current_mapping =>
          if bool_decide (current_mapping ≠ old_src_addr) then
            let nat_port := mapper nat (socket_addr_new (socket_ip old_src_addr) nat_port) in
            let loop_guard := (loop_guard + 1)%Z in
            if bool_decide (MAX_ATTEMPTS < loop_guard)%Z then Some (Err CannotMap)
            else probe fuel now nat old_src_addr loop_guard nat_port
          else Some (Ok nat_port)
      | None => Some (Ok nat_port)
      end
  end.

(** The guard stops the loop in the 129th iteration ([probe_enough]). *)
Definition find_nat_port now nat (old_src_addr : SocketAddr) : result NatError Z :=
  default (Err CannotMap) (probe 129 now nat old_src_addr 0 (mapper nat old_src_addr)).

(** [translate_incoming_internal]: the result, the NAT and the buffer *)
Definition translate_incoming_internal (P : MutableIpPacket) now packet nat
    : result NatError StdIpAddr * bytes * StarcastNat M :=
  if negb (mip_new P packet) then (Err PacketTooShort, packet, nat)
  else if bool_decide (mip_get_next_level_protocol P packet ≠ IpNextHeaderProtocols.Udp)
  then (Err UnexpectedTransportProtocol, packet, nat)
  else
    let old_src_ip := mip_get_source P packet in
    let new_src_ip := mip_get_addr P (vpeer_addr nat) in
    let packet := mip_set_source P new_src_ip packet in
    let packet := mip_fix_ip_header_checksum P old_src_ip new_src_ip packet in
    let udp_packet := mip_payload P packet in
    if negb (view_new udp_view udp_packet) then (Err PacketTooShort, packet, nat)
    else
      let src_port := view_get udp_view UdpSource udp_packet in
      let old_src_addr := socket_addr_new (mip_into P old_src_ip) src_port in
      match find_nat_port now nat old_src_addr with
      | Err e => (Err e, packet, nat)
      | Ok nat_port =>
          let nat := set_mappings (lru_insert now nat_port old_src_addr (mappings nat)) nat in
          let udp_packet := view_set udp_view UdpSource nat_port udp_packet in
          let old_udp_checksum := view_get udp_view UdpChecksum udp_packet in
          let udp_packet :=
            if bool_decide (old_udp_checksum ≠ 0%Z) then
              view_set udp_view UdpChecksum
                (mip_calculate_udp_header_checksum_update P old_udp_checksum old_src_ip new_src_ip src_port nat_port)
                udp_packet
            else udp_packet in
          (Ok (mip_into P old_src_ip), mip_with_payload P udp_packet packet, nat)
      end.

(** [translate_outgoing_internal] *)
Definition translate_outgoing_internal (P : MutableIpPacket) now packet nat
    : result NatError StdIpAddr * bytes * StarcastNat M :=
  if negb (mip_new P packet) then (Err PacketTooShort, packet, nat)
  else if bool_decide (mip_get_next_level_protocol P packet ≠ IpNextHeaderProtocols.Udp)
  then (Err UnexpectedTransportProtocol, packet, nat)
  else
    let old_dst_ip := mip_get_destination P packet in
    let udp_packet := mip_payload P packet in
    if negb (view_new udp_view udp_packet) then (Err PacketTooShort, packet, nat)
    else
      let dst_port := view_get udp_view UdpDestination udp_packet in
      let '(new_dst_addr, m) := lru_get now dst_port (mappings nat) in
      let nat := set_mappings m nat in
      match new_dst_addr with
      | None => (Err MappingNotFound, packet, nat)
      | Some new_dst_addr =>
          match mip_get_ip_from_addr P new_dst_addr with
          | None => (Err MappingNotFound, packet, nat)
          | Some new_dst_ip =>
              let udp_packet := view_set udp_view UdpDestination (socket_port new_dst_addr) udp_packet in
              let old_udp_checksum := view_get udp_view UdpChecksum udp_packet in
              let udp_packet :=
                if bool_decide (old_udp_checksum ≠ 0%Z) then
                  view_set udp_view UdpChecksum
                    (mip_calculate_udp_header_checksum_update P old_udp_checksum old_dst_ip new_dst_ip
                       dst_port (socket_port new_dst_addr))
                    udp_packet
                else udp_packet in
              let packet := mip_with_payload P udp_packet packet in
              let packet := mip_set_destination P new_dst_ip packet in
              let packet := mip_fix_ip_header_checksum P old_dst_ip new_dst_ip packet in
              (Ok (mip_into P new_dst_ip), packet, nat)
          end
      end.

(** [Nat for StarcastNat]: the version is the upper half of the first byte. *)
Definition translate_incoming now packet nat : result NatError StdIpAddr * bytes * StarcastNat M :=
  match packet with
  | [] => (Err PacketTooShort, packet, nat)
  | first :: _ =>
      if bool_decide (Z.shiftr first 4 = 4%Z) then translate_incoming_internal MutableIpv4Packet now packet nat
      else if bool_decide (Z.shiftr first 4 = 6%Z) then translate_incoming_internal MutableIpv6Packet now packet nat
      else (Err UnexpectedIpVersion, packet, nat)
  end.

Definition translate_outgoing now packet nat : result NatError StdIpAddr * bytes * StarcastNat M :=
  match packet with
  | [] => (Err PacketTooShort, packet, nat)
  | first :: _ =>
      if bool_decide (Z.shiftr first 4 = 4%Z) then translate_outgoing_internal MutableIpv4Packet now packet nat
      else if bool_decide (Z.shiftr first 4 = 6%Z) then translate_outgoing_internal MutableIpv6Packet now packet nat
      else (Err UnexpectedIpVersion, packet, nat)
  end.
End translation.
