(* ===== verification/StarcastNatProps.v ===== *)
(** * Theorems about the address translation of multicast traffic

    What [StarcastNat] does to a packet is stated on the packet's endpoints,
    for IPv4 and IPv6 at once: [udp_endpoints] reads the source and the
    destination of a UDP packet through the views. *)

From S2P Require Import Prelude LruCache NetTypes FirewallReset NetText PacketViews Checksum StarcastNat.

(** ** A packet through [MutableIpPacket] *)

(** A change in place keeps the length, the first byte and the range of bytes. *)
Definition same_shape (b b' : bytes) : Prop :=
  length b' = length b ∧ head b' = head b ∧ (is_bytes b → is_bytes b').

Lemma same_shape_trans b1 b2 b3 : same_shape b1 b2 → same_shape b2 b3 → same_shape b1 b3.
Proof. unfold same_shape. intros (? & ? & ?) (? & ? & ?). split_and!; [congruence..|auto]. Qed.

Section headers.
Context `{PnetViewsLaws}.
Implicit Types (b u : bytes).

Definition ip_header (P : MutableIpPacket) b : Z * Z * Z * bytes :=
  (mip_get_next_level_protocol P b, mip_get_source P b, mip_get_destination P b, mip_payload P b).

Definition udp_header u : Z * Z * Z :=
  (view_get udp_view UdpSource u, view_get udp_view UdpDestination u, view_get udp_view UdpChecksum u).

(** What the two implementations of the trait have in common, for addresses
    of [w] bits *)
Record PacketLaws (P : MutableIpPacket) (w : Z) : Prop := {
  pl_new b b' : length b = length b' → mip_new P b = mip_new P b';
  pl_set_source x b : mip_new P b → is_uint w x → ip_header P (mip_set_source P x b) =
    (mip_get_next_level_protocol P b, x, mip_get_destination P b, mip_payload P b);
  pl_set_destination x b : mip_new P b → is_uint w x → ip_header P (mip_set_destination P x b) =
    (mip_get_next_level_protocol P b, mip_get_source P b, x, mip_payload P b);
  pl_fix o n b : mip_new P b → ip_header P (mip_fix_ip_header_checksum P o n b) = ip_header P b;
  pl_put p b : mip_new P b → length p = length (mip_payload P b) → ip_header P (mip_with_payload P p b) =
    (mip_get_next_level_protocol P b, mip_get_source P b, mip_get_destination P b, p);
  pl_shape_source x b : same_shape b (mip_set_source P x b);
  pl_shape_destination x b : same_shape b (mip_set_destination P x b);
  pl_shape_fix o n b : same_shape b (mip_fix_ip_header_checksum P o n b);
  pl_shape_put p b : mip_new P b → is_bytes p → same_shape b (mip_with_payload P p b);
  pl_uint b : is_bytes b → is_uint w (mip_get_source P b) ∧ is_uint w (mip_get_destination P b);
  pl_payload b : is_bytes b → is_bytes (mip_payload P b)
}.

Lemma set_shape {F} (v : View F) width e f x b :
  ViewLaws v width → EnclosingLaws v e → same_shape b (view_set v f x b).
Proof.
  intros Hv He. split; [by eapply law_length_set|]. split; [by eapply law_head_set|].
  intros. by eapply law_bytes_set.
Qed.

Lemma put_shape {F} (v : View F) e p b :
  EnclosingLaws v e → view_new v b → is_bytes p → same_shape b (view_with_payload e p b).
Proof.
  intros He Hb Hp. split; [by eapply law_length_put|]. split; [by eapply law_head_put|].
  intros. by eapply law_bytes_put.
Qed.

Lemma MutableIpv4Packet_laws : PacketLaws MutableIpv4Packet 32.
Proof.
  pose proof ipv4_view_laws as Hv. pose proof ipv4_enclosing_laws as He.
  split; unfold ip_header, MutableIpv4Packet; simpl.
  - eapply law_new_length, Hv.
  - intros x b Hb Hx. rewrite (law_payload_set _ _ He), (law_get_set _ _ Hv) by done.
    by rewrite !(law_get_set_ne _ _ Hv) by done.
  - intros x b Hb Hx. rewrite (law_payload_set _ _ He), (law_get_set _ _ Hv) by done.
    by rewrite !(law_get_set_ne _ _ Hv) by done.
  - intros o n b Hb. unfold ipv4_fix_header_checksum. case_bool_decide; [|done].
    rewrite (law_payload_set _ _ He), !(law_get_set_ne _ _ Hv) by done. done.
  - intros p b Hb Hp. by rewrite !(law_get_put _ _ He), (law_payload_put _ _ He).
  - intros. by eapply set_shape.
  - intros. by eapply set_shape.
  - intros. unfold ipv4_fix_header_checksum. case_bool_decide; [by eapply set_shape|done].
  - intros. by eapply put_shape.
  - intros b Hb. split; [apply (law_get_uint _ _ Hv (Ipv4HeaderField IpSource) b Hb)|].
    apply (law_get_uint _ _ Hv (Ipv4HeaderField IpDestination) b Hb).
  - eapply law_bytes_payload, He.
Qed.

Lemma MutableIpv6Packet_laws : PacketLaws MutableIpv6Packet 128.
Proof.
  pose proof ipv6_view_laws as Hv. pose proof ipv6_enclosing_laws as He.
  split; unfold ip_header, MutableIpv6Packet; simpl.
  - eapply law_new_length, Hv.
  - intros x b Hb Hx. rewrite (law_payload_set _ _ He), (law_get_set _ _ Hv) by done.
    by rewrite !(law_get_set_ne _ _ Hv) by done.
  - intros x b Hb Hx. rewrite (law_payload_set _ _ He), (law_get_set _ _ Hv) by done.
    by rewrite !(law_get_set_ne _ _ Hv) by done.
  - done.
  - intros p b Hb Hp. by rewrite !(law_get_put _ _ He), (law_payload_put _ _ He).
  - intros. by eapply set_shape.
  - intros. by eapply set_shape.
  - done.
  - intros. by eapply put_shape.
  - intros b Hb. split; [apply (law_get_uint _ _ Hv IpSource b Hb)|].
    apply (law_get_uint _ _ Hv IpDestination b Hb).
  - eapply law_bytes_payload, He.
Qed.

(** The UDP header, through its setters *)
Lemma udp_header_source x u : view_new udp_view u → is_uint 16 x →
  udp_header (view_set udp_view UdpSource x u) =
    (x, view_get udp_view UdpDestination u, view_get udp_view UdpChecksum u).
Proof.
  intros Hu Hx. unfold udp_header. rewrite (law_get_set _ _ udp_view_laws) by done.
  by rewrite !(law_get_set_ne _ _ udp_view_laws) by done.
Qed.

Lemma udp_header_destination x u : view_new udp_view u → is_uint 16 x →
  udp_header (view_set udp_view UdpDestination x u) =
    (view_get udp_view UdpSource u, x, view_get udp_view UdpChecksum u).
Proof.
  intros Hu Hx. unfold udp_header. rewrite (law_get_set _ _ udp_view_laws) by done.
  by rewrite !(law_get_set_ne _ _ udp_view_laws) by done.
Qed.

(** The checksum is updated if there is one; the ports stay. *)
Definition udp_fix (c : Z) u : bytes :=
  if bool_decide (view_get udp_view UdpChecksum u ≠ 0%Z) then view_set udp_view UdpChecksum c u else u.

Lemma udp_fix_ports c u f : view_new udp_view u → f ≠ UdpChecksum →
  view_get udp_view f (udp_fix c u) = view_get udp_view f u.
Proof.
  intros Hu Hf. unfold udp_fix. case_bool_decide; [|done]. by rewrite (law_get_set_ne _ _ udp_view_laws).
Qed.

Lemma udp_fix_shape c u : length (udp_fix c u) = length u ∧ (is_bytes u → is_bytes (udp_fix c u)).
Proof.
  unfold udp_fix. case_bool_decide; [|done].
  split; [apply (law_length_set _ _ udp_view_laws)|apply (law_bytes_set _ _ udp_view_laws)].
Qed.
End headers.

(** ** The endpoints of a packet *)

Lemma socket_ip_new ip port : socket_ip (socket_addr_new ip port) = ip.
Proof. by destruct ip. Qed.

Lemma socket_port_new ip port : socket_port (socket_addr_new ip port) = port.
Proof. by destruct ip. Qed.

Section endpoints.
Context `{PnetViews}.

(** The implementation of [MutableIpPacket] that the first byte selects *)
Definition packet_family (b : bytes) : option MutableIpPacket :=
  first ← head b;
  if bool_decide (Z.shiftr first 4 = 4%Z) then Some MutableIpv4Packet
  else if bool_decide (Z.shiftr first 4 = 6%Z) then Some MutableIpv6Packet else None.

(** The source and the destination of a UDP packet of a family *)
Definition endpoints (P : MutableIpPacket) (b : bytes) : option (SocketAddr * SocketAddr) :=
  if mip_new P b && bool_decide (mip_get_next_level_protocol P b = IpNextHeaderProtocols.Udp)
     && view_new udp_view (mip_payload P b)
  then Some (socket_addr_new (mip_into P (mip_get_source P b)) (view_get udp_view UdpSource (mip_payload P b)),
             socket_addr_new (mip_into P (mip_get_destination P b)) (view_get udp_view UdpDestination (mip_payload P b)))
  else None.

Definition udp_endpoints (b : bytes) : option (SocketAddr * SocketAddr) :=
  P ← packet_family b; endpoints P b.

Lemma packet_family_shape b b' : same_shape b b' → packet_family b' = packet_family b.
Proof. intros (_ & Hh & _). unfold packet_family. by rewrite Hh. Qed.

(** The address of the virtual peer, in the family of a node's address *)
Definition vpeer_ip (a : DualIpAddr) (ip : StdIpAddr) : StdIpAddr :=
  match ip with V4 _ => V4 (dual_ipv4 a) | V6 _ => V6 (dual_ipv6 a) end.

Definition same_family (a b : StdIpAddr) : Prop :=
  match a, b with V4 _, V4 _ | V6 _, V6 _ => True | _, _ => False end.

#[export] Instance same_family_dec a b : Decision (same_family a b).
Proof. destruct a, b; apply _. Defined.

Definition ip_ok (ip : StdIpAddr) : Prop := match ip with V4 ip => is_uint 32 ip | V6 ip => is_uint 128 ip end.

Definition packet_addr_ok (a : SocketAddr) : Prop :=
  a = socket_addr_new (socket_ip a) (socket_port a) ∧ is_uint 16 (socket_port a) ∧ ip_ok (socket_ip a).

Lemma addr_ok_new ip port :
  is_uint 16 port → ip_ok ip → packet_addr_ok (socket_addr_new ip port).
Proof. unfold packet_addr_ok. rewrite socket_ip_new, socket_port_new. auto. Qed.

Definition dual_ok (a : DualIpAddr) : Prop := is_uint 32 (dual_ipv4 a) ∧ is_uint 128 (dual_ipv6 a).
End endpoints.

(** ** The translations, on the endpoints *)

Section translation_spec.
Context `{PnetViewsLaws} {M : Type → Type → Type} `{LinkedHashMap M}.
Implicit Types (nat : StarcastNat M) (now : Instant) (packet : bytes).

Lemma probe_range fuel now nat addr g port p :
  (∀ a, is_uint 16 (mapper nat a)) → is_uint 16 port →
  probe fuel now nat addr g port = Some (Ok p) → is_uint 16 p.
Proof.
  intros Hm. revert g port. induction fuel as [|fuel IH]; intros g port Hp; cbn [probe]; [done|].
  repeat case_match; intros; simplify_eq; eauto.
Qed.

Lemma find_nat_port_range now nat addr p :
  (∀ a, is_uint 16 (mapper nat a)) → find_nat_port now nat addr = Ok p → is_uint 16 p.
Proof.
  intros Hm. unfold find_nat_port.
  destruct (probe 129 now nat addr 0 (mapper nat addr)) as [r|] eqn:E; [|done]. simpl. intros ->.
  by eapply probe_range.
Qed.

Lemma endpoints_Some P b src dst : endpoints P b = Some (src, dst) →
  mip_new P b ∧ mip_get_next_level_protocol P b = IpNextHeaderProtocols.Udp ∧
  view_new udp_view (mip_payload P b) ∧
  src = socket_addr_new (mip_into P (mip_get_source P b)) (view_get udp_view UdpSource (mip_payload P b)) ∧
  dst = socket_addr_new (mip_into P (mip_get_destination P b)) (view_get udp_view UdpDestination (mip_payload P b)).
Proof.
  unfold endpoints. destruct (mip_new P b); [|done]. case_bool_decide; [|done].
  destruct (view_new udp_view _) eqn:E; [|done]. simpl. intros. simplify_eq. done.
Qed.

(** [endpoints] of a packet with a known header *)
Lemma endpoints_header P b proto src dst u :
  mip_new P b → ip_header P b = (proto, src, dst, u) → proto = IpNextHeaderProtocols.Udp → view_new udp_view u →
  endpoints P b = Some (socket_addr_new (mip_into P src) (view_get udp_view UdpSource u),
                        socket_addr_new (mip_into P dst) (view_get udp_view UdpDestination u)).
Proof.
  unfold ip_header, endpoints. intros Hb ? ? Hu. simplify_eq. destruct (mip_new P b); [|done].
  rewrite bool_decide_true by done. by destruct (view_new udp_view _).
Qed.

Lemma new_shape P w b b' : PacketLaws P w → same_shape b b' → mip_new P b → mip_new P b'.
Proof. intros HP (Hl & _) Hb. by rewrite (pl_new P w HP b' b). Qed.

(** The UDP packet after a port was set and the checksum updated *)
Lemma udp_rewritten f x c u : view_new udp_view u → is_bytes u → is_uint 16 x → f ≠ UdpChecksum →
  let u' := udp_fix c (view_set udp_view f x u) in
  length u' = length u ∧ is_bytes u' ∧ view_new udp_view u' ∧ view_get udp_view f u' = x ∧
  ∀ g, g ≠ f → g ≠ UdpChecksum → view_get udp_view g u' = view_get udp_view g u.
Proof.
  intros Hu Hb Hx Hf u'. pose proof udp_view_laws as Hv.
  assert (length (view_set udp_view f x u) = length u) as Hl by apply (law_length_set _ _ Hv).
  assert (view_new udp_view (view_set udp_view f x u)) as Hn by (by rewrite (law_new_length _ _ Hv _ u)).
  assert (length u' = length u) as Hl' by (unfold u'; by rewrite (proj1 (udp_fix_shape _ _))).
  split_and!; [done|by apply udp_fix_shape, (law_bytes_set _ _ Hv)|by rewrite (law_new_length _ _ Hv _ u)|..].
  - unfold u'. rewrite udp_fix_ports by done. by apply (law_get_set _ _ Hv).
  - intros g Hg Hgc. unfold u'. rewrite udp_fix_ports by done. by apply (law_get_set_ne _ _ Hv).
Qed.

(** The headers on the way of an incoming packet, with [u'] as UDP packet *)
Lemma incoming_headers P w packet vpeer u' : PacketLaws P w →
  mip_new P packet → is_uint w vpeer → length u' = length (mip_payload P packet) → is_bytes u' →
  let b := mip_fix_ip_header_checksum P (mip_get_source P packet) vpeer (mip_set_source P vpeer packet) in
  let b' := mip_with_payload P u' b in
  same_shape packet b ∧ same_shape packet b' ∧
  ip_header P b = (mip_get_next_level_protocol P packet, vpeer, mip_get_destination P packet, mip_payload P packet) ∧
  ip_header P b' = (mip_get_next_level_protocol P packet, vpeer, mip_get_destination P packet, u').
Proof.
  intros HP Hnew Hv Hlen Hbu b b'.
  assert (same_shape packet b) as Hs by (eapply same_shape_trans; [by eapply pl_shape_source|by eapply pl_shape_fix]).
  assert (mip_new P b) as Hnb by (by eapply new_shape).
  assert (ip_header P b = (mip_get_next_level_protocol P packet, vpeer, mip_get_destination P packet, mip_payload P packet)) as Hb.
  { unfold b. rewrite (pl_fix P w HP), (pl_set_source P w HP); [done..|].
    eapply new_shape; [done|by apply (pl_shape_source P w)|done]. }
  assert (mip_payload P b = mip_payload P packet) as Hpay by (unfold ip_header in Hb; congruence).
  split_and!; [done|by eapply same_shape_trans, pl_shape_put|done|].
  unfold b'. rewrite (pl_put P w HP); [unfold ip_header in Hb; congruence|done|by rewrite Hpay].
Qed.

(** The packet that leaves [translate_incoming_internal] *)
Lemma incoming_packet P w packet vpeer port c : PacketLaws P w →
  mip_new P packet → mip_get_next_level_protocol P packet = IpNextHeaderProtocols.Udp →
  is_bytes packet → is_uint w vpeer → is_uint 16 port →
  let b := mip_fix_ip_header_checksum P (mip_get_source P packet) vpeer (mip_set_source P vpeer packet) in
  mip_payload P b = mip_payload P packet ∧
  (view_new udp_view (mip_payload P packet) →
   let b' := mip_with_payload P (udp_fix c (view_set udp_view UdpSource port (mip_payload P packet))) b in
   same_shape packet b' ∧
   endpoints P b' = Some (socket_addr_new (mip_into P vpeer) port,
     socket_addr_new (mip_into P (mip_get_destination P packet)) (view_get udp_view UdpDestination (mip_payload P packet)))).
Proof.
  intros HP Hnew Hproto Hbytes Hv Hport b. split.
  { destruct (incoming_headers P w packet vpeer (mip_payload P packet)) as (_ & _ & Hb & _); [done..|by eapply pl_payload|].
    unfold ip_header in Hb. subst b. congruence. }
  intros Hu b'.
  destruct (udp_rewritten UdpSource port c (mip_payload P packet)) as (Hlen & Hbu & Hnu & Hsp & Hdp);
    [done|by eapply pl_payload|done|done|].
  destruct (incoming_headers P w packet vpeer _ HP Hnew Hv Hlen Hbu) as (_ & Hs & _ & Hb'). split; [done|].
  unfold b', b. rewrite (endpoints_header _ _ _ _ _ _ (new_shape _ _ _ _ HP Hs Hnew) Hb') by done. by rewrite Hsp, Hdp.
Qed.

(** The headers on the way of an outgoing packet *)
Lemma outgoing_headers P w packet ip u' : PacketLaws P w →
  mip_new P packet → is_uint w ip → length u' = length (mip_payload P packet) → is_bytes u' →
  let b := mip_with_payload P u' packet in
  let b' := mip_fix_ip_header_checksum P (mip_get_destination P packet) ip (mip_set_destination P ip b) in
  same_shape packet b ∧ same_shape packet b' ∧
  ip_header P b = (mip_get_next_level_protocol P packet, mip_get_source P packet, mip_get_destination P packet, u') ∧
  ip_header P b' = (mip_get_next_level_protocol P packet, mip_get_source P packet, ip, u').
Proof.
  intros HP Hnew Hv Hlen Hbu b b'.
  assert (same_shape packet b) as Hs by (by eapply pl_shape_put).
  assert (mip_new P b) as Hnb by (by eapply new_shape).
  assert (same_shape b (mip_set_destination P ip b)) as Hs1 by (by eapply pl_shape_destination).
  assert (same_shape b b') as Hs' by (eapply same_shape_trans; [done|by eapply pl_shape_fix]).
  pose proof (pl_put P w HP _ packet Hnew Hlen) as Hp. fold b in Hp.
  split_and!; [done|by eapply same_shape_trans|done|].
  unfold b'. rewrite (pl_fix P w HP), (pl_set_destination P w HP) by eauto using new_shape.
  unfold ip_header in Hp. congruence.
Qed.

(** The packet that leaves [translate_outgoing_internal] *)
Lemma outgoing_packet P w packet ip port c : PacketLaws P w →
  mip_new P packet → mip_get_next_level_protocol P packet = IpNextHeaderProtocols.Udp →
  is_bytes packet → is_uint w ip → is_uint 16 port → view_new udp_view (mip_payload P packet) →
  let b := mip_with_payload P (udp_fix c (view_set udp_view UdpDestination port (mip_payload P packet))) packet in
  let b' := mip_fix_ip_header_checksum P (mip_get_destination P packet) ip (mip_set_destination P ip b) in
  same_shape packet b' ∧
  endpoints P b' = Some (socket_addr_new (mip_into P (mip_get_source P packet)) (view_get udp_view UdpSource (mip_payload P packet)),
    socket_addr_new (mip_into P ip) port).
Proof.
  intros HP Hnew Hproto Hbytes Hv Hport Hu b b'.
  destruct (udp_rewritten UdpDestination port c (mip_payload P packet)) as (Hlen & Hbu & Hnu & Hdp & Hsp);
    [done|by eapply pl_payload|done|done|].
  destruct (outgoing_headers P w packet ip _ HP Hnew Hv Hlen Hbu) as (_ & Hs & _ & Hb'). split; [done|].
  unfold b', b. rewrite (endpoints_header _ _ _ _ _ _ (new_shape _ _ _ _ HP Hs Hnew) Hb') by done. by rewrite Hdp, Hsp.
Qed.

(** [translate_incoming] through the family of the packet *)
Lemma translate_incoming_family now packet nat :
  translate_incoming now packet nat =
    match packet_family packet with
    | Some P => translate_incoming_internal P now packet nat
    | None => (Err (if bool_decide (packet = []) then PacketTooShort else UnexpectedIpVersion), packet, nat)
    end.
Proof. destruct packet as [|first l]; [done|]. unfold packet_family. simpl. by repeat case_bool_decide. Qed.

Lemma translate_outgoing_family now packet nat :
  translate_outgoing now packet nat =
    match packet_family packet with
    | Some P => translate_outgoing_internal P now packet nat
    | None => (Err (if bool_decide (packet = []) then PacketTooShort else UnexpectedIpVersion), packet, nat)
    end.
Proof. destruct packet as [|first l]; [done|]. unfold packet_family. simpl. by repeat case_bool_decide. Qed.

(** What is in the buffer before the port is looked up *)
Lemma packet_error P packet : endpoints P packet = None →
  mip_new P packet = false ∨
  mip_new P packet = true ∧ mip_get_next_level_protocol P packet ≠ IpNextHeaderProtocols.Udp ∨
  mip_new P packet = true ∧ mip_get_next_level_protocol P packet = IpNextHeaderProtocols.Udp ∧
  view_new udp_view (mip_payload P packet) = false.
Proof.
  unfold endpoints. destruct (mip_new P packet); [|by left]. case_bool_decide; [|by right; left].
  destruct (view_new udp_view _) eqn:E; [done|]. by right; right.
Qed.

Definition malformed (e : NatError) : Prop :=
  e = PacketTooShort ∨ e = UnexpectedIpVersion ∨ e = UnexpectedTransportProtocol.

Lemma incoming_internal_spec P w now packet nat : PacketLaws P w →
  is_bytes packet → is_uint w (mip_get_addr P (vpeer_addr nat)) → (∀ a, is_uint 16 (mapper nat a)) →
  let '(r, packet', nat') := translate_incoming_internal P now packet nat in
  match endpoints P packet with
  | None => nat' = nat ∧ ∃ e, r = Err e ∧ malformed e
  | Some (src, dst) =>
      match find_nat_port now nat src with
      | Err e => nat' = nat ∧ r = Err e
      | Ok port =>
          r = Ok (socket_ip src) ∧ nat' = set_mappings (lru_insert now port src (mappings nat)) nat ∧
          same_shape packet packet' ∧
          endpoints P packet' = Some (socket_addr_new (mip_into P (mip_get_addr P (vpeer_addr nat))) port, dst)
      end
  end.
Proof.
  intros HP Hb Hv Hm. unfold translate_incoming_internal, malformed.
  destruct (endpoints P packet) as [[src dst]|] eqn:He.
  - apply endpoints_Some in He as (Hnew & Hproto & Hu & -> & ->).
    rewrite (Is_true_true_1 _ Hnew), bool_decide_false by auto. cbn [negb].
    destruct (incoming_packet P w packet _ 0 0 HP Hnew Hproto Hb Hv) as (-> & _); [done|].
    rewrite (Is_true_true_1 _ Hu). cbn [negb].
    destruct (find_nat_port _ _ _) as [port|e] eqn:Hf; [|done].
    rewrite socket_ip_new. split_and!; [done..| |]; eapply (incoming_packet P w); eauto using find_nat_port_range.
  - apply packet_error in He as [->|[[-> Hp]|(Hnew & Hproto & Hu)]]; cbn [negb].
    + eauto.
    + rewrite bool_decide_true by done. eauto 6.
    + rewrite Hnew, bool_decide_false by auto. cbn [negb].
      destruct (incoming_packet P w packet _ 0 0 HP (Is_true_true_2 _ Hnew) Hproto Hb Hv) as (-> & _); [done|].
      rewrite Hu. cbn [negb]. eauto.
Qed.
Lemma outgoing_internal_spec P w now packet nat : PacketLaws P w →
  is_bytes packet →
  (∀ a ip, (lru_get now a (mappings nat)).1 = Some ip → packet_addr_ok ip) →
  (∀ a ip, packet_addr_ok a → mip_get_ip_from_addr P a = Some ip → socket_ip a = mip_into P ip ∧ is_uint w ip) →
  let '(r, packet', nat') := translate_outgoing_internal P now packet nat in
  match endpoints P packet with
  | None => nat' = nat ∧ ∃ e, r = Err e ∧ malformed e
  | Some (src, dst) =>
      nat' = set_mappings (lru_get now (socket_port dst) (mappings nat)).2 nat ∧
      match (lru_get now (socket_port dst) (mappings nat)).1 with
      | None => r = Err MappingNotFound
      | Some a =>
          match mip_get_ip_from_addr P a with
          | None => r = Err MappingNotFound
          | Some _ => r = Ok (socket_ip a) ∧ same_shape packet packet' ∧ endpoints P packet' = Some (src, a)
          end
      end
  end.
Proof.
  intros HP Hb Hok Hip. unfold translate_outgoing_internal, malformed.
  destruct (endpoints P packet) as [[src dst]|] eqn:He.
  - apply endpoints_Some in He as (Hnew & Hproto & Hu & -> & ->).
    rewrite (Is_true_true_1 _ Hnew), bool_decide_false, (Is_true_true_1 _ Hu) by auto. cbn [negb].
    rewrite socket_port_new. specialize (Hok (view_get udp_view UdpDestination (mip_payload P packet))).
    destruct (lru_get _ _ _) as [[a|] m]; [|done]. simpl in *. specialize (Hok a eq_refl).
    destruct (mip_get_ip_from_addr P a) as [ip|] eqn:Ha; [|done].
    destruct (Hip a ip Hok Ha) as [Hsip Hw]. split; [done|]. rewrite Hsip. split; [done|].
    destruct Hok as (Hnorm & Hport & _). rewrite Hnorm, Hsip. rewrite socket_port_new.
    by apply (outgoing_packet P w).
  - apply packet_error in He as [->|[[-> Hp]|(-> & Hproto & ->)]]; cbn [negb]; [by eauto| |].
    + rewrite bool_decide_true by done. eauto 6.
    + rewrite bool_decide_false by auto. eauto.
Qed.

Lemma ipv4_ip_from_addr a ip : packet_addr_ok a → mip_get_ip_from_addr MutableIpv4Packet a = Some ip →
  socket_ip a = mip_into MutableIpv4Packet ip ∧ is_uint 32 ip.
Proof. intros (_ & _ & Hok). simpl. destruct (socket_ip a); [|done]. by intros [= ->]. Qed.

Lemma ipv6_ip_from_addr a ip : packet_addr_ok a → mip_get_ip_from_addr MutableIpv6Packet a = Some ip →
  socket_ip a = mip_into MutableIpv6Packet ip ∧ is_uint 128 ip.
Proof. intros (_ & _ & Hok). simpl. destruct (socket_ip a); [done|]. by intros [= ->]. Qed.

Lemma endpoints_ok P w packet src dst : PacketLaws P w → is_bytes packet →
  (∀ ip, is_uint w ip → ip_ok (mip_into P ip)) →
  endpoints P packet = Some (src, dst) → packet_addr_ok src ∧ packet_addr_ok dst.
Proof.
  intros HP Hb Hi (Hnew & _ & Hu & -> & ->)%endpoints_Some.
  destruct (pl_uint P w HP packet Hb) as [Hs Hd]. pose proof (pl_payload P w HP packet Hb) as Hp.
  split; (apply addr_ok_new; [by apply (law_get_uint _ _ udp_view_laws)|by apply Hi]).
Qed.

(** The two families, in one statement *)
Lemma udp_endpoints_ok packet src dst :
  is_bytes packet → udp_endpoints packet = Some (src, dst) → packet_addr_ok src ∧ packet_addr_ok dst.
Proof.
  intros Hb. unfold udp_endpoints, packet_family. destruct (head packet); simpl; [|done].
  repeat case_bool_decide; simpl; try done.
  - apply (endpoints_ok _ 32); [apply MutableIpv4Packet_laws|done|done].
  - apply (endpoints_ok _ 128); [apply MutableIpv6Packet_laws|done|done].
Qed.

Lemma translate_incoming_spec now packet nat :
  is_bytes packet → dual_ok (vpeer_addr nat) → (∀ a, is_uint 16 (mapper nat a)) →
  let '(r, packet', nat') := translate_incoming now packet nat in
  match udp_endpoints packet with
  | None => nat' = nat ∧ ∃ e, r = Err e ∧ malformed e
  | Some (src, dst) =>
      match find_nat_port now nat src with
      | Err e => nat' = nat ∧ r = Err e
      | Ok port =>
          r = Ok (socket_ip src) ∧ nat' = set_mappings (lru_insert now port src (mappings nat)) nat ∧
          same_shape packet packet' ∧
          udp_endpoints packet' = Some (socket_addr_new (vpeer_ip (vpeer_addr nat) (socket_ip src)) port, dst)
      end
  end.
Proof.
  intros Hb [Hv4 Hv6] Hm. rewrite translate_incoming_family. unfold udp_endpoints.
  destruct (packet_family packet) as [P|] eqn:Hf; simpl.
  - assert (∃ w, PacketLaws P w ∧ is_uint w (mip_get_addr P (vpeer_addr nat)) ∧
      ∀ ip, mip_into P (mip_get_addr P (vpeer_addr nat)) = vpeer_ip (vpeer_addr nat) (mip_into P ip)) as (w & HP & Hv & Hi).
    { unfold packet_family in Hf. destruct (head packet); simpl in Hf; [|done].
      repeat case_bool_decide; simplify_eq; [exists 32%Z|exists 128%Z]; eauto using MutableIpv4Packet_laws, MutableIpv6Packet_laws. }
    pose proof (incoming_internal_spec P w now packet nat HP Hb Hv Hm) as Hspec.
    destruct (translate_incoming_internal P now packet nat) as [[r packet'] nat'].
    destruct (endpoints P packet) as [[src dst]|] eqn:He; [|done].
    destruct (find_nat_port now nat src); [|done]. destruct Hspec as (Hr & Hn & Hs & He').
    apply endpoints_Some in He as (_ & _ & _ & -> & _). rewrite socket_ip_new in *.
    split_and!; [done..|]. rewrite (packet_family_shape _ _ Hs), Hf. simpl. by rewrite He', <-Hi.
  - split; [done|]. eexists. split; [done|]. unfold malformed. case_bool_decide; auto.
Qed.
Lemma translate_outgoing_spec now packet nat :
  is_bytes packet → (∀ port a, (lru_get now port (mappings nat)).1 = Some a → packet_addr_ok a) →
  let '(r, packet', nat') := translate_outgoing now packet nat in
  match udp_endpoints packet with
  | None => nat' = nat ∧ ∃ e, r = Err e ∧ malformed e
  | Some (src, dst) =>
      nat' = set_mappings (lru_get now (socket_port dst) (mappings nat)).2 nat ∧
      match (lru_get now (socket_port dst) (mappings nat)).1 with
      | None => r = Err MappingNotFound
      | Some a =>
          if decide (same_family (socket_ip a) (socket_ip dst))
          then r = Ok (socket_ip a) ∧ same_shape packet packet' ∧ udp_endpoints packet' = Some (src, a)
          else r = Err MappingNotFound
      end
  end.
Proof.
  intros Hb Hok. rewrite translate_outgoing_family. unfold udp_endpoints.
  destruct (packet_family packet) as [P|] eqn:Hf; simpl.
  - assert (∃ w, PacketLaws P w ∧
      (∀ a ip, packet_addr_ok a → mip_get_ip_from_addr P a = Some ip → socket_ip a = mip_into P ip ∧ is_uint w ip) ∧
      (∀ a ip, same_family (socket_ip a) (mip_into P ip) ↔ is_Some (mip_get_ip_from_addr P a))) as (w & HP & Hi & Hfam).
    { unfold packet_family in Hf. destruct (head packet); simpl in Hf; [|done].
      repeat case_bool_decide; simplify_eq; [exists 32%Z|exists 128%Z];
        (split; [apply MutableIpv4Packet_laws || apply MutableIpv6Packet_laws|]);
        (split; [apply ipv4_ip_from_addr || apply ipv6_ip_from_addr|]);
        intros a ip; simpl; destruct (socket_ip a); simpl; split; try done; by intros []. }
    pose proof (outgoing_internal_spec P w now packet nat HP Hb Hok Hi) as Hspec.
    destruct (translate_outgoing_internal P now packet nat) as [[r packet'] nat'].
    destruct (endpoints P packet) as [[src dst]|] eqn:He; [|done].
    destruct Hspec as [Hn Hspec]. split; [done|]. destruct (lru_get _ _ _).1 as [a|]; [|done].
    apply endpoints_Some in He as (_ & _ & _ & _ & ->). rewrite socket_ip_new.
    specialize (Hfam a (mip_get_destination P packet)). destruct (mip_get_ip_from_addr P a); case_decide as Hd.
    + destruct Hspec as (Hr & Hs & He'). split_and!; [done..|]. by rewrite (packet_family_shape _ _ Hs), Hf.
    + destruct Hd. by apply Hfam.
    + by apply Hfam in Hd as [].
    + done.
  - split; [done|]. eexists. split; [done|]. unfold malformed. case_bool_decide; auto.
Qed.
End translation_spec.

(** ** Histories *)

Inductive NatEvent :=
| Incoming (now : Instant) (packet : bytes)
| Outgoing (now : Instant) (packet : bytes).

Definition event_time (ev : NatEvent) : Instant := match ev with Incoming now _ | Outgoing now _ => now end.
Definition event_packet (ev : NatEvent) : bytes := match ev with Incoming _ packet | Outgoing _ packet => packet end.

Section histories.
Context `{PnetViews} {M : Type → Type → Type} `{LinkedHashMap M}.
Implicit Types (nat : StarcastNat M) (now : Instant).

Definition nat_step (ev : NatEvent) nat : result NatError StdIpAddr * bytes * StarcastNat M :=
  match ev with
  | Incoming now packet => translate_incoming now packet nat
  | Outgoing now packet => translate_outgoing now packet nat
  end.

(** What was seen of the translations: the packet, the result and the packet
    it became; the latest first *)
Definition nat_log : Type := list (NatEvent * result NatError StdIpAddr * bytes).

Inductive nat_history (ttl : Duration) (cap : Datatypes.nat) (vpeer : DualIpAddr) (m : SocketAddr → Z)
    : Instant → nat_log → StarcastNat M → Prop :=
| History_new now :
    nat_history ttl cap vpeer m now [] (nat_new_custom (dual_ipv4 vpeer) (dual_ipv6 vpeer) cap ttl m)
| History_step now log nat ev r packet' nat' :
    nat_history ttl cap vpeer m now log nat → (now <= event_time ev)%Z → is_bytes (event_packet ev) →
    nat_step ev nat = (r, packet', nat') → nat_history ttl cap vpeer m (event_time ev) ((ev, r, packet') :: log) nat'.

(** The port that a translation gave to a source *)
Definition given (x : NatEvent * result NatError StdIpAddr * bytes) : option (Z * SocketAddr) :=
  match x with
  | (Incoming _ packet, Ok _, packet') =>
      '(src, _) ← udp_endpoints packet;
      '(vsrc, _) ← udp_endpoints packet';
      Some (socket_port vsrc, src)
  | _ => None
  end.

(** The source that a port was last given to *)
Definition last_given (port : Z) (log : nat_log) : option SocketAddr := assoc port (omap given log).

Lemma last_given_cons k log x port a : given x = Some (port, a) →
  last_given k (x :: log) = if decide (port = k) then Some a else last_given k log.
Proof. intros Hx. unfold last_given. cbn [omap list_omap]. by rewrite Hx. Qed.
End histories.

Section history_invariant.
Context `{PnetViewsLaws} {M : Type → Type → Type} `{LinkedHashMapLaws M}.
Context (ttl : Duration) (cap : Datatypes.nat) (vpeer : DualIpAddr) (m : SocketAddr → Z).
Implicit Types (nat : StarcastNat M) (now : Instant) (packet : bytes) (log : nat_log).

(** Every mapping leads to the source that was last given its port. *)
Record nat_ok now log nat : Prop := {
  ok_mappings : cache_ok ttl cap now (λ port a _, packet_addr_ok a ∧ last_given port log = Some a) (mappings nat);
  ok_vpeer : vpeer_addr nat = vpeer;
  ok_mapper : mapper nat = m
}.

Lemma nat_ok_addr now log nat port a :
  nat_ok now log nat → (lru_get now port (mappings nat)).1 = Some a → packet_addr_ok a ∧ last_given port log = Some a.
Proof.
  intros [Hc _ _] Ha. rewrite lru_get_peek in Ha by apply Hc.
  by destruct (lru_all_peek _ _ _ _ _ (ok_all _ _ _ _ _ Hc) Ha) as (t & Hq & _).
Qed.

Lemma nat_ok_later now now' log nat : (now <= now')%Z → nat_ok now log nat → nat_ok now' log nat.
Proof. intros Ht []. split; [by eapply cache_ok_later|done..]. Qed.

(** A translation that gave no port *)
Lemma nat_ok_nothing_given now log nat x :
  given x = None → nat_ok now log nat → nat_ok now (x :: log) nat.
Proof.
  intros Hx []. split; [|done..]. eapply cache_ok_impl; [|done]. intros k v t. simpl.
  unfold last_given. simpl. by rewrite Hx.
Qed.

Lemma nat_ok_incoming now log nat packet r packet' nat' :
  dual_ok vpeer → (∀ a, is_uint 16 (m a)) → is_bytes packet → nat_ok now log nat →
  translate_incoming now packet nat = (r, packet', nat') →
  nat_ok now ((Incoming now packet, r, packet') :: log) nat'.
Proof.
  intros Hv Hm Hb Hok Hstep. pose proof Hok as [Hc Hvp Hmp].
  pose proof (translate_incoming_spec now packet nat Hb) as Hspec. rewrite Hvp, Hmp, Hstep in Hspec.
  specialize (Hspec Hv Hm). destruct (udp_endpoints packet) as [[src dst]|] eqn:He.
  - destruct (find_nat_port now nat src) as [port|e].
    + destruct Hspec as (-> & -> & Hs & He').
      assert (given (Incoming now packet, Ok (socket_ip src), packet') = Some (port, src)) as Hg.
      { simpl. rewrite He, He'. simpl. by rewrite socket_port_new. }
      split; [|done..]. eapply cache_ok_insert_ne; [| |exact Hc]; simpl.
      * rewrite (last_given_cons _ _ _ _ _ Hg), decide_True by done. split; [|done]. by apply (udp_endpoints_ok packet src dst).
      * intros k v _ [Hk Hl] Hne. by rewrite (last_given_cons _ _ _ _ _ Hg), decide_False by auto.
    + destruct Hspec as [-> ->]. by apply nat_ok_nothing_given.
  - destruct Hspec as (-> & e & -> & _). by apply nat_ok_nothing_given.
Qed.

Lemma nat_ok_outgoing now log nat packet r packet' nat' :
  is_bytes packet → nat_ok now log nat → translate_outgoing now packet nat = (r, packet', nat') →
  nat_ok now ((Outgoing now packet, r, packet') :: log) nat'.
Proof.
  intros Hb Hok Hstep. apply nat_ok_nothing_given; [done|].
  pose proof (translate_outgoing_spec now packet nat Hb) as Hspec. rewrite Hstep in Hspec.
  assert (∀ port a, (lru_get now port (mappings nat)).1 = Some a → packet_addr_ok a) as Ha
    by (intros port a Hg; by eapply nat_ok_addr).
  specialize (Hspec Ha). destruct Hok as [Hc Hvp Hmp].
  destruct (udp_endpoints packet) as [[src dst]|]; destruct Hspec as [-> _]; [|done].
  split; [|done..]. simpl. by apply cache_ok_get.
Qed.

Lemma nat_history_ok now log nat :
  dual_ok vpeer → (∀ a, is_uint 16 (m a)) → nat_history ttl cap vpeer m now log nat → nat_ok now log nat.
Proof.
  intros Hv Hm. induction 1 as [now|now log nat ev r packet' nat' Hh IH Ht Hb Hs].
  - split; [apply cache_ok_new| |done]. by destruct vpeer.
  - apply (nat_ok_later _ (event_time ev)) in IH; [|done].
    destruct ev; [by eapply nat_ok_incoming|by eapply nat_ok_outgoing].
Qed.
End history_invariant.

(** ** Looking for a port *)

Section probing.
Context {M : Type → Type → Type} `{LinkedHashMap M}.
Implicit Types (nat : StarcastNat M) (now : Instant) (addr : SocketAddr).

(** The ports tried for a source: its hash, then the hash of the port before *)
Definition probe_port nat addr (k : Datatypes.nat) : Z :=
  Nat.iter k (λ port, mapper nat (socket_addr_new (socket_ip addr) port)) (mapper nat addr).

(** A live mapping has the port for another source. *)
Definition taken now nat addr (port : Z) : Prop :=
  ∃ a, lru_peek now port (mappings nat) = Some a ∧ a ≠ addr.

Definition probe_result now nat addr (k : Datatypes.nat) (r : result NatError Z) : Prop :=
  match r with
  | Ok port =>
      ∃ j, k ≤ j ≤ 128 ∧ port = probe_port nat addr j ∧ ¬ taken now nat addr port ∧
        ∀ i, k ≤ i < j → taken now nat addr (probe_port nat addr i)
  | Err e => e = CannotMap ∧ ∀ i, k ≤ i ≤ 128 → taken now nat addr (probe_port nat addr i)
  end.

Lemma probe_enough fuel k now nat addr : k + fuel = 129 → k ≤ 128 →
  ∃ r, probe fuel now nat addr (Z.of_nat k) (probe_port nat addr k) = Some r ∧ probe_result now nat addr k r.
Proof.
  revert k. induction fuel as [|fuel IH]; intros k Hk Hle; [lia|]. cbn [probe].
  destruct (lru_peek now (probe_port nat addr k) (mappings nat)) as [a|] eqn:Hp; [case_bool_decide as Ha|].
  - assert (taken now nat addr (probe_port nat addr k)) as Ht by (by exists a).
    change (mapper nat (socket_addr_new (socket_ip addr) (probe_port nat addr k))) with (probe_port nat addr (S k)).
    unfold MAX_ATTEMPTS. case_bool_decide as Hg.
    { eexists. split; [done|]. split; [done|]. intros i Hi. by assert (i = k) as -> by lia. }
    destruct (IH (S k)) as (r & Hr & Hres); [lia..|]. exists r.
    split; [by replace (Z.of_nat k + 1)%Z with (Z.of_nat (S k)) by lia|].
    destruct r as [port|e]; simpl in *.
    + destruct Hres as (j & Hj & -> & Hn & Hb). exists j. split_and!; [lia..|done|done|].
      intros i Hi. destruct (decide (i = k)) as [->|]; [done|]. apply Hb. lia.
    + destruct Hres as [-> Hb]. split; [done|]. intros i Hi.
      destruct (decide (i = k)) as [->|]; [done|]. apply Hb. lia.
  - eexists. split; [done|]. exists k. split_and!; [lia..|done| |lia].
    intros (a' & Ha' & Hne). congruence.
  - eexists. split; [done|]. exists k. split_and!; [lia..|done| |lia]. intros (a' & Ha' & _). congruence.
Qed.

Lemma probe_more fuel more now nat addr g port r :
  probe fuel now nat addr g port = Some r → probe (fuel + more) now nat addr g port = Some r.
Proof.
  revert g port. induction fuel as [|fuel IH]; intros g port; cbn [probe Nat.add]; [done|].
  repeat case_match; eauto.
Qed.

Lemma find_nat_port_spec now nat addr :
  probe 129 now nat addr 0 (mapper nat addr) = Some (find_nat_port now nat addr) ∧
  probe_result now nat addr 0 (find_nat_port now nat addr).
Proof.
  destruct (probe_enough 129 0 now nat addr) as (r & Hr & Hres); [done|lia|].
  change (probe_port nat addr 0) with (mapper nat addr) in Hr. change (Z.of_nat 0) with 0%Z in Hr.
  unfold find_nat_port. rewrite Hr. done.
Qed.

(** C36: the loop that looks for a free port terminates, in at most 129
    iterations whatever the mapper does.  It takes the first port of its
    sequence that no live mapping has for another source, and fails exactly
    when 129 ports in a row are taken. *)
Theorem nat_probe_terminates now nat addr more :
  probe (129 + more) now nat addr 0 (mapper nat addr) = Some (find_nat_port now nat addr) ∧
  match find_nat_port now nat addr with
  | Ok port =>
      ∃ j, j ≤ 128 ∧ port = probe_port nat addr j ∧ ¬ taken now nat addr port ∧
        ∀ i, i < j → taken now nat addr (probe_port nat addr i)
  | Err e => e = CannotMap ∧ ∀ i, i ≤ 128 → taken now nat addr (probe_port nat addr i)
  end.
Proof.
  destruct (find_nat_port_spec now nat addr) as [Hr Hres]. split; [by apply probe_more|].
  destruct (find_nat_port now nat addr) as [port|e]; simpl in Hres.
  - destruct Hres as (j & Hj & Hp & Hn & Hb). exists j. split_and!; [lia|done|done|]. intros i Hi. apply Hb. lia.
  - destruct Hres as [-> Hb]. split; [done|]. intros i Hi. apply Hb. lia.
Qed.

Lemma find_nat_port_free now nat addr port a :
  find_nat_port now nat addr = Ok port → lru_peek now port (mappings nat) = Some a → a = addr.
Proof.
  destruct (find_nat_port_spec now nat addr) as [_ Hres]. intros Hf Hp. rewrite Hf in Hres.
  destruct Hres as (j & _ & _ & Hn & _).
  destruct (decide (a = addr)) as [|Hne]; [done|]. destruct Hn. by exists a.
Qed.
End probing.

(** ** Replies *)

Section replies.
Context `{PnetViewsLaws} {M : Type → Type → Type} `{LinkedHashMapLaws M}.
Context (ttl : Duration) (cap : Datatypes.nat) (vpeer : DualIpAddr) (m : SocketAddr → Z).
Implicit Types (nat : StarcastNat M) (now : Instant) (packet : bytes) (log : nat_log).

(** Where a translated reply goes *)
Lemma reply_to_last_given now log nat packet ip packet' nat' :
  nat_ok ttl cap vpeer m now log nat → is_bytes packet → translate_outgoing now packet nat = (Ok ip, packet', nat') →
  ∃ src dst a, udp_endpoints packet = Some (src, dst) ∧ last_given (socket_port dst) log = Some a ∧
    ip = socket_ip a ∧ udp_endpoints packet' = Some (src, a) ∧ length packet' = length packet.
Proof.
  intros Hh Hb Hstep. pose proof (translate_outgoing_spec now packet nat Hb) as Hspec. rewrite Hstep in Hspec.
  specialize (Hspec (λ port a Hg, proj1 (nat_ok_addr _ _ _ _ _ _ _ _ _ Hh Hg))).
  destruct (udp_endpoints packet) as [[src dst]|]; [|by destruct Hspec as (_ & e & ? & _)].
  destruct Hspec as [_ Hspec]. destruct (lru_get _ _ _).1 as [a|] eqn:Hg; [|done].
  case_decide; [|done]. destruct Hspec as (Hr & Hs & He). simplify_eq.
  exists src, dst, a. split_and!; [done|by eapply nat_ok_addr|done|done|apply Hs].
Qed.

(** What a translated incoming packet is *)
Lemma incoming_given now log nat packet ip packet' nat' :
  dual_ok vpeer → (∀ a, is_uint 16 (m a)) → nat_ok ttl cap vpeer m now log nat → is_bytes packet →
  translate_incoming now packet nat = (Ok ip, packet', nat') →
  ∃ src dst port, udp_endpoints packet = Some (src, dst) ∧ ip = socket_ip src ∧
    udp_endpoints packet' = Some (socket_addr_new (vpeer_ip vpeer ip) port, dst) ∧
    (∀ a, lru_peek now port (mappings nat) = Some a → a = src) ∧
    nat' = set_mappings (lru_insert now port src (mappings nat)) nat.
Proof.
  intros Hv Hm Hh Hb Hstep. pose proof (translate_incoming_spec now packet nat Hb) as Hspec.
  rewrite Hstep, (ok_vpeer _ _ _ _ _ _ _ Hh), (ok_mapper _ _ _ _ _ _ _ Hh) in Hspec. specialize (Hspec Hv Hm).
  destruct (udp_endpoints packet) as [[src dst]|]; [|by destruct Hspec as (_ & e & ? & _)].
  destruct (find_nat_port now nat src) as [port|e] eqn:Hf; [|by destruct Hspec].
  destruct Hspec as (? & -> & Hs & He). simplify_eq.
  exists src, dst, port. split_and!; [done..|by intros a; apply find_nat_port_free|done].
Qed.

(** A reply to a mapping that is live *)
Lemma reply_translated now log nat reply rsrc dst a :
  nat_ok ttl cap vpeer m now log nat → is_bytes reply → udp_endpoints reply = Some (rsrc, dst) →
  lru_peek now (socket_port dst) (mappings nat) = Some a → same_family (socket_ip a) (socket_ip dst) →
  ∃ reply' nat', translate_outgoing now reply nat = (Ok (socket_ip a), reply', nat') ∧
    udp_endpoints reply' = Some (rsrc, a) ∧ length reply' = length reply.
Proof.
  intros Hh Hb He Hp Hf.
  pose proof (translate_outgoing_spec now reply nat Hb (λ port a Hg, proj1 (nat_ok_addr _ _ _ _ _ _ _ _ _ Hh Hg))) as Hout.
  destruct (translate_outgoing now reply nat) as [[r reply'] nat']. rewrite He in Hout.
  destruct Hout as [_ Hout]. rewrite lru_get_peek, Hp, decide_True in Hout by (done || apply Hh).
  destruct Hout as (-> & [Hl _] & Hr). eauto 6.
Qed.
End replies.

(** ** Theorems *)

Section theorems.
Context `{PnetViewsLaws} {M : Type → Type → Type} `{LinkedHashMapLaws M}.
Context (ttl : Duration) (cap : Datatypes.nat) (vpeer : DualIpAddr) (m : SocketAddr → Z).
Implicit Types (nat : StarcastNat M) (now : Instant) (packet : bytes) (log : nat_log).

(** C9: replies reach the node they answer.  In every history of
    translations, an outgoing packet that is translated goes to the node whose
    packet was last given the port it is sent to: the address and the port of
    that node become its destination, and its source stays. *)
Theorem nat_replies_reach_sender now log nat now' packet ip packet' nat' :
  dual_ok vpeer → (∀ a, is_uint 16 (m a)) → nat_history ttl cap vpeer m now log nat →
  (now <= now')%Z → is_bytes packet → translate_outgoing now' packet nat = (Ok ip, packet', nat') →
  ∃ src dst a, udp_endpoints packet = Some (src, dst) ∧ last_given (socket_port dst) log = Some a ∧
    ip = socket_ip a ∧ udp_endpoints packet' = Some (src, a) ∧ length packet' = length packet.
Proof.
  intros Hv Hm Hh Ht Hb Hstep. apply nat_history_ok in Hh; [|done..].
  eapply reply_to_last_given; [by eapply nat_ok_later|done..].
Qed.

(** A node that sends a packet can be answered.  After an incoming
    translation, which never takes a port from another node's live mapping, a
    packet sent back to the translated source within the time to live of a
    mapping is translated, and goes to the original source. *)
Theorem nat_roundtrip now log nat now1 packet ip packet' nat' now2 reply vsrc dst rsrc :
  dual_ok vpeer → (∀ a, is_uint 16 (m a)) → 0 < cap → nat_history ttl cap vpeer m now log nat →
  (now <= now1)%Z → (now1 <= now2 <= now1 + ttl)%Z → is_bytes packet → is_bytes reply →
  translate_incoming now1 packet nat = (Ok ip, packet', nat') → udp_endpoints packet' = Some (vsrc, dst) →
  udp_endpoints reply = Some (rsrc, vsrc) →
  ∃ src, udp_endpoints packet = Some (src, dst) ∧ ip = socket_ip src ∧
    socket_ip vsrc = vpeer_ip vpeer ip ∧
    (∀ a, lru_peek now1 (socket_port vsrc) (mappings nat) = Some a → a = src) ∧
    ∃ reply' nat'', translate_outgoing now2 reply nat' = (Ok ip, reply', nat'') ∧
      udp_endpoints reply' = Some (rsrc, src) ∧ length reply' = length reply.
Proof.
  intros Hv Hm Hcap Hh Ht1 Ht2 Hb Hbr Hstep He' Her. apply nat_history_ok in Hh; [|done..].
  apply (nat_ok_later _ _ _ _ _ now1) in Hh; [|done].
  pose proof (nat_ok_incoming _ _ _ _ _ _ _ _ _ _ _ Hv Hm Hb Hh Hstep) as Hh'.
  apply (nat_ok_later _ _ _ _ _ now2) in Hh'; [|lia].
  destruct (incoming_given _ _ _ _ _ _ _ _ _ _ _ Hv Hm Hh Hb Hstep) as (src & dst' & port & He & -> & He'' & Hfree & ->).
  rewrite He'' in He'. simplify_eq. exists src. rewrite socket_ip_new, socket_port_new. split_and!; [done..|].
  destruct Hh as [[Hwf Httl Hc _] _ _].
  eapply reply_translated; [done..| |by rewrite socket_ip_new; destruct (socket_ip src)].
  rewrite socket_port_new. apply peek_insert; [done|lia|lia].
Qed.
End theorems.
