(* ===== verification/StarcastChecksums.v ===== *)
(** * Checksums of translated packets

    On packets as the RFCs lay them out, the translations of [StarcastNat] keep
    the checksum of the IPv4 header and the UDP checksum with its pseudo header
    valid: what is updated incrementally is what a receiver verifies.  Examples show
    the two cases in which the value zero, which stands for no checksum, breaks this. *)

From S2P Require Import Prelude LruCache NetTypes FirewallReset NetText PacketViews Checksum StarcastNat StarcastNatProps.

Local Open Scope Z_scope.

(** ** Sums of 16-bit words *)

Abbreviation sum16 := RfcMut.sum16.

Lemma sum16_app l1 l2 : Nat.Even (length l1) → sum16 (l1 ++ l2) = sum16 l1 + sum16 l2.
Proof.
  intros [n Hn]. revert l1 Hn. induction n as [|n IH]; intros [|a [|b l1]] Hn; simpl in *; try lia.
  rewrite IH; lia.
Qed.

Lemma sum16_words l : Nat.Even (length l) → sum16 l = total (be_words l).
Proof.
  intros [n Hn]. revert l Hn. induction n as [|n IH]; intros [|a [|b l]] Hn; simpl in *; try lia.
  rewrite IH by lia. unfold be_bytes, total. simpl. lia.
Qed.

Lemma sum16_to_be_bytes n x : Nat.Even n → sum16 (to_be_bytes n x) = total (be_words (to_be_bytes n x)).
Proof. intros Hn. apply sum16_words. by rewrite length_to_be_bytes. Qed.

Lemma sum16_two x : is_uint 16 x → sum16 (to_be_bytes 2 x) = x.
Proof.
  intros Hx. rewrite <-(be_bytes_to_be_bytes 2 x) at 2 by done. unfold be_bytes. simpl. lia.
Qed.

Lemma sum16_inserts o p b : Nat.Even o → Nat.Even (length p) → (o + length p <= length b)%nat →
  sum16 (list_inserts o p b) = sum16 b - sum16 (take (length p) (drop o b)) + sum16 p.
Proof.
  intros Ho Hp Hl. remember (take (length p) (drop o b)) as old eqn:Eold. remember (take o b) as l1 eqn:E1.
  remember (drop (length p) (drop o b)) as l2 eqn:E2.
  assert (length old = length p) as Hold by (subst old; rewrite length_take, length_drop; lia).
  assert (length l1 = o) as Ht by (subst l1; rewrite length_take; lia).
  assert (b = l1 ++ old ++ l2) as -> by (subst; by rewrite !take_drop).
  rewrite <-Ht at 1. rewrite <-(Nat.add_0_r (length l1)), list_inserts_app_r, list_inserts_0_r by done.
  rewrite !sum16_app by (by rewrite ?Ht, ?Hold). lia.
Qed.

(** ** Fields of views *)

Section fields.
Context {F : Type} (min : nat) (off size : F → nat).

(** The bytes of a field are those of its number. *)
Lemma field_bytes f b : is_bytes b → (off f + size f <= length b)%nat →
  to_be_bytes (size f) (view_get (rfc_view min off size) f b) = take (size f) (drop (off f) b).
Proof.
  intros Hb Hl. simpl. unfold Rfc.field.
  assert (length (take (size f) (drop (off f) b)) = size f) as Hlen by (rewrite length_take, length_drop; lia).
  rewrite <-Hlen at 1. apply to_be_bytes_be_bytes. by apply is_bytes_range.
Qed.

Lemma sum16_set f x b : is_bytes b → Nat.Even (off f) → Nat.Even (size f) → (off f + size f <= length b)%nat →
  sum16 (view_set (rfc_view min off size) f x b) =
    sum16 b - sum16 (to_be_bytes (size f) (view_get (rfc_view min off size) f b)) + sum16 (to_be_bytes (size f) x).
Proof.
  intros Hb Ho Hs Hl. rewrite field_bytes by done. simpl.
  rewrite sum16_inserts by (rewrite ?length_to_be_bytes; done). by rewrite length_to_be_bytes.
Qed.

(** The same for a part of the buffer that holds the field *)
Lemma sum16_take_set h f x b : is_bytes b → Nat.Even (off f) → Nat.Even (size f) →
  (off f + size f <= length b)%nat → (off f + size f <= h)%nat →
  sum16 (take h (view_set (rfc_view min off size) f x b)) =
    sum16 (take h b) - sum16 (to_be_bytes (size f) (view_get (rfc_view min off size) f b)) + sum16 (to_be_bytes (size f) x).
Proof.
  intros Hb Ho Hs Hl Hh.
  assert (take h (view_set (rfc_view min off size) f x b) = view_set (rfc_view min off size) f x (take h b)) as ->.
  { simpl. apply list_eq. intros i. pose proof (length_to_be_bytes (size f) x) as Hlen. destruct (decide (i < h)%nat).
    - rewrite lookup_take_lt by done. destruct (decide (off f <= i < off f + size f)%nat).
      + rewrite !list_lookup_inserts; rewrite ?length_take; lia || done.
      + destruct (decide (i < off f)%nat).
        * by rewrite !list_lookup_inserts_lt, lookup_take_lt by lia.
        * by rewrite !list_lookup_inserts_ge, lookup_take_lt by lia.
    - rewrite lookup_take_ge, list_lookup_inserts_ge, lookup_take_ge by lia. done. }
  assert (take (size f) (drop (off f) (take h b)) = take (size f) (drop (off f) b)) as Ht
    by (apply range_ext; intros i Hi; apply lookup_take_lt; lia).
  rewrite sum16_set; [|by apply Forall_take|done|done|rewrite length_take; lia].
  rewrite !field_bytes by (by apply Forall_take || rewrite ?length_take; lia || done). by rewrite Ht.
Qed.
End fields.

(** ** Valid checksums *)

Import RfcViews.

(** The sum of the words of the IPv4 header, options included *)
Definition header_sum (b : bytes) : Z := sum16 (take (ipv4_place (take 4 b)).1 b).

(** A receiver accepts a header whose words, with the checksum, add up to
    nothing in one's complement. *)
Definition header_valid (b : bytes) : Prop := header_sum b `mod` 65535 = 0.

(** The sum of the UDP packet and its pseudo header, with the addresses
    written by [octs] *)
Definition pseudo_sum (octs : Z → bytes) (src dst proto : Z) (u : bytes) : Z :=
  sum16 (octs src) + sum16 (octs dst) + proto + Rfc.field 4 2 u + sum16 u.

(** The UDP checksum, and whether the words with it add up to nothing *)
Definition udp_checksum (P : MutableIpPacket) (b : bytes) : Z := view_get udp_view UdpChecksum (mip_payload P b).
Definition udp_valid (octs : Z → bytes) (P : MutableIpPacket) (b : bytes) : Prop :=
  let '(proto, src, dst, u) := ip_header P b in pseudo_sum octs src dst proto u `mod` 65535 = 0.

(** What a receiver accepts: over IPv4 a valid header and a UDP checksum that is
    valid or zero, which stands for none (RFC 768); over IPv6 a UDP checksum that is
    valid and not zero (RFC 8200).  [packet_family] tells IPv4 from IPv6. *)
Definition checksums_valid (b : bytes) : Prop :=
  match head b with
  | Some first =>
      (Z.shiftr first 4 = 4 → header_valid b ∧ (udp_checksum MutableIpv4Packet b = 0 ∨ udp_valid octets MutableIpv4Packet b)) ∧
      (Z.shiftr first 4 = 6 → udp_checksum MutableIpv6Packet b ≠ 0 ∧ udp_valid octets6 MutableIpv6Packet b)
  | None => True
  end.

(** The translated packet [b'] of [b] has a UDP checksum if [b] has one, which is
    then valid. *)
Definition udp_kept (octs : Z → bytes) (P : MutableIpPacket) (b b' : bytes) : Prop :=
  (udp_checksum P b = 0 → udp_checksum P b' = 0) ∧ (udp_checksum P b ≠ 0 → udp_valid octs P b').
Definition checksums_kept (b b' : bytes) : Prop :=
  match head b with
  | Some first =>
      (Z.shiftr first 4 = 4 → header_valid b' ∧ udp_kept octets MutableIpv4Packet b b') ∧
      (Z.shiftr first 4 = 6 → udp_kept octets6 MutableIpv6Packet b b')
  | None => True
  end.

(** The one's complement zero that UDP reserves *)
Definition udp_checksum_lost (b : bytes) : Prop :=
  ∃ first, head b = Some first ∧ Z.shiftr first 4 = 6 ∧ udp_checksum MutableIpv6Packet b = 0.

(** An IPv4 header whose checksum is not the value zero *)
Definition header_checksum_set (b : bytes) : Prop :=
  ∀ first, head b = Some first → Z.shiftr first 4 = 4 → view_get ipv4_view Ipv4HeaderChecksum b ≠ 0.

Lemma mod_eq_ex a b n : n ≠ 0 → a `mod` n = b `mod` n → ∃ k, a = b + k * n.
Proof. intros Hn Hm. exists (a / n - b / n). pose proof (Z.div_mod a n Hn). pose proof (Z.div_mod b n Hn). nia. Qed.

Lemma header_sum_set f x b : is_bytes b → view_new ipv4_view b → f ≠ Ipv4HeaderField IpProtocol →
  header_sum (view_set ipv4_view f x b) =
    header_sum b - sum16 (to_be_bytes (ipv4_size f) (view_get ipv4_view f b)) + sum16 (to_be_bytes (ipv4_size f) x).
Proof.
  intros Hb Hn%bool_decide_unpack Hf. unfold header_sum.
  assert (take 4 (view_set ipv4_view f x b) = take 4 b) as ->.
  { apply (range_inserts_ne b _ (ipv4_off f) 0 4). destruct f as [[]|]; simpl; lia. }
  apply (sum16_take_set 20 ipv4_off ipv4_size); try done.
  - destruct f as [[]|]; try done; simpl; [by exists 6%nat|by exists 8%nat|by exists 5%nat].
  - destruct f as [[]|]; try done; simpl; [by exists 2%nat|by exists 2%nat|by exists 1%nat].
  - destruct f as [[]|]; simpl; lia.
  - destruct f as [[]|]; simpl; lia.
Qed.

(** The header after an address was set and the checksum fixed *)
Lemma header_valid_fix f x b : is_bytes b → view_new ipv4_view b → f ≠ IpProtocol → header_valid b →
  view_get ipv4_view Ipv4HeaderChecksum b ≠ 0 →
  header_valid (ipv4_fix_header_checksum (view_get ipv4_view (Ipv4HeaderField f) b) x
    (view_set ipv4_view (Ipv4HeaderField f) x b)).
Proof.
  intros Hb Hn Hf Hsum Hz. pose proof ipv4_view_laws as Hv. unfold ipv4_fix_header_checksum.
  set (o := view_get ipv4_view (Ipv4HeaderField f) b). set (b1 := view_set ipv4_view (Ipv4HeaderField f) x b).
  assert (view_get ipv4_view Ipv4HeaderChecksum b1 = view_get ipv4_view Ipv4HeaderChecksum b) as Hck
    by (by apply (law_get_set_ne _ _ Hv)).
  assert (is_bytes b1) as Hb1 by (by apply (law_bytes_set _ _ Hv)).
  assert (view_new ipv4_view b1) as Hn1 by (rewrite (law_new_length _ _ Hv b1 b); [done|by apply (law_length_set _ _ Hv)]).
  rewrite Hck. set (c := view_get ipv4_view Ipv4HeaderChecksum b) in *.
  rewrite bool_decide_eq_true_2 by done. unfold header_valid in *.
  rewrite header_sum_set by done. rewrite Hck. subst b1. rewrite header_sum_set by (done || congruence). simpl ipv4_size.
  assert (is_uint 16 c) as Hu by (apply (law_get_uint _ _ Hv Ipv4HeaderChecksum b Hb)).
  destruct (be_words_octets o) as [Hwo Hlo], (be_words_octets x) as [Hwx Hlx].
  destruct (address_update_mod c (octets o) (octets x)) as [Hu' Hm]; [done..|by rewrite Hlo|lia|].
  fold (ipv4_header_update c o x) in Hu', Hm. rewrite !sum16_two by done.
  apply mod_eq_ex in Hm as [k Hk]; [|done].
  replace (ip_size true f) with 4%nat by (by destruct f).
  rewrite !sum16_to_be_bytes by (by exists 2%nat). fold o. unfold octets in *. rewrite Hk.
  rewrite <-Hsum, <-(Z.mod_add (header_sum b) k) by done. f_equal. lia.
Qed.

Lemma header_sum_put u b : header_sum (view_with_payload ipv4_enclosing u b) = header_sum b.
Proof.
  assert (20 <= (ipv4_place (take 4 b)).1)%nat as Hp by (simpl; lia).
  unfold header_sum. set (b' := view_with_payload ipv4_enclosing u b).
  assert (take 4 b' = take 4 b) as -> by (apply (range_inserts_ne b u _ 0 4); lia).
  f_equal. apply (range_inserts_ne b u _ 0). lia.
Qed.

(** *** The UDP checksum *)

Lemma sum16_udp_set f x u : is_bytes u → view_new udp_view u → is_uint 16 x →
  sum16 (view_set udp_view f x u) = sum16 u - view_get udp_view f u + x.
Proof.
  intros Hb Hn%bool_decide_unpack Hx. pose proof (law_get_uint _ _ udp_view_laws f u Hb) as Hg.
  change (udp_width f) with 16 in Hg. unfold udp_view in *. simpl PacketViews.udp_view in *.
  rewrite (sum16_set 8 udp_off (λ _, 2%nat)); [|done|destruct f; simpl; [by exists 0%nat|by exists 1%nat|by exists 3%nat]|
    by exists 1%nat|destruct f; simpl; lia].
  by rewrite !sum16_two.
Qed.

Lemma udp_length_set f x u : Rfc.field 4 2 (view_set udp_view f x u) = Rfc.field 4 2 u.
Proof.
  unfold Rfc.field. f_equal. apply range_inserts_ne. rewrite length_to_be_bytes. destruct f; simpl; lia.
Qed.

(** What the checksum update of a family does, modulo 65535 *)
Definition updates (P : MutableIpPacket) (octs : Z → bytes) : Prop :=
  ∀ c o n p q, is_uint 16 c → is_uint 16 p → is_uint 16 q →
    let c' := mip_calculate_udp_header_checksum_update P c o n p q in
    is_uint 16 c' ∧ ∃ k, c' = c + sum16 (octs o) + p - sum16 (octs n) - q + k * 65535.

Lemma ipv4_updates : updates MutableIpv4Packet octets.
Proof.
  intros c o n p q Hc Hp Hq. destruct (be_words_octets o) as [Hwo Hlo], (be_words_octets n) as [Hwn Hln].
  destruct (address_port_update_mod c (octets o) (octets n) p q) as [Hu Hm]; [done..|by rewrite Hlo|lia|done|done|].
  split; [done|]. apply mod_eq_ex in Hm as [k Hk]; [|done]. exists k.
  unfold octets in *. rewrite !sum16_to_be_bytes by (by exists 2%nat). exact Hk.
Qed.

Lemma ipv6_updates : updates MutableIpv6Packet octets6.
Proof.
  intros c o n p q Hc Hp Hq. destruct (be_words_octets6 o) as [Hwo Hlo], (be_words_octets6 n) as [Hwn Hln].
  destruct (address_port_update_mod c (octets6 o) (octets6 n) p q) as [Hu Hm]; [done..|by rewrite Hlo|lia|done|done|].
  split; [done|]. apply mod_eq_ex in Hm as [k Hk]; [|done]. exists k.
  unfold octets6 in *. rewrite !sum16_to_be_bytes by (by exists 8%nat). exact Hk.
Qed.

(** The UDP packet after a port was set and its checksum updated for an address
    that changed from [o] to [n] *)
Lemma pseudo_sum_fix P octs f x o n u : updates P octs → is_bytes u → view_new udp_view u → is_uint 16 x →
  f ≠ UdpChecksum → let c := view_get udp_view UdpChecksum u in
  let u' := udp_fix (mip_calculate_udp_header_checksum_update P c o n (view_get udp_view f u) x) (view_set udp_view f x u) in
  c = 0 ∧ view_get udp_view UdpChecksum u' = 0 ∨
  c ≠ 0 ∧ ∃ k, Rfc.field 4 2 u' + sum16 u' = Rfc.field 4 2 u + sum16 u + sum16 (octs o) - sum16 (octs n) + k * 65535.
Proof.
  intros HP Hb Hn Hx Hf c u'. pose proof udp_view_laws as Hv. unfold u', udp_fix.
  assert (view_get udp_view UdpChecksum (view_set udp_view f x u) = c) as Hck by (by apply (law_get_set_ne _ _ Hv)).
  assert (is_uint 16 c) as Hc by apply (law_get_uint _ _ Hv UdpChecksum u Hb).
  assert (is_uint 16 (view_get udp_view f u)) as Hp by apply (law_get_uint _ _ Hv f u Hb).
  rewrite Hck. case_bool_decide as Hz; [right|left; split; [by destruct (decide (c = 0))|]].
  - split; [done|]. destruct (HP c o n (view_get udp_view f u) x Hc Hp Hx) as [Hu (k & Hk)]. exists k.
    rewrite !udp_length_set, sum16_udp_set, Hck, sum16_udp_set by
      (done || apply (law_bytes_set _ _ Hv), Hb || (rewrite (law_new_length _ _ Hv _ u); [done|apply (law_length_set _ _ Hv)])).
    rewrite Hk. lia.
  - rewrite Hck. by destruct (decide (c = 0)).
Qed.

(** ** The translations *)

Section translations.
Context {M : Type → Type → Type} `{LinkedHashMap M}.
Implicit Types (nat : StarcastNat M) (now : Instant) (packet : bytes).

(** The packet that a successful translation leaves *)
Definition incoming_rewrite (P : MutableIpPacket) (vpeer port : Z) packet : bytes :=
  let u := mip_payload P packet in
  mip_with_payload P
    (udp_fix (mip_calculate_udp_header_checksum_update P (view_get udp_view UdpChecksum u) (mip_get_source P packet)
                vpeer (view_get udp_view UdpSource u) port) (view_set udp_view UdpSource port u))
    (mip_fix_ip_header_checksum P (mip_get_source P packet) vpeer (mip_set_source P vpeer packet)).

Definition outgoing_rewrite (P : MutableIpPacket) (ip port : Z) packet : bytes :=
  let u := mip_payload P packet in
  mip_fix_ip_header_checksum P (mip_get_destination P packet) ip
    (mip_set_destination P ip
       (mip_with_payload P
          (udp_fix (mip_calculate_udp_header_checksum_update P (view_get udp_view UdpChecksum u) (mip_get_destination P packet)
                      ip (view_get udp_view UdpDestination u) port) (view_set udp_view UdpDestination port u))
          packet)).

Lemma incoming_internal_Ok P w now packet nat ip packet' nat' : PacketLaws P w →
  is_bytes packet → is_uint w (mip_get_addr P (vpeer_addr nat)) → (∀ a, is_uint 16 (mapper nat a)) →
  translate_incoming_internal P now packet nat = (Ok ip, packet', nat') →
  mip_new P packet ∧ view_new udp_view (mip_payload P packet) ∧
  ∃ port, is_uint 16 port ∧ packet' = incoming_rewrite P (mip_get_addr P (vpeer_addr nat)) port packet.
Proof.
  intros HP Hb Hv Hm. unfold translate_incoming_internal.
  destruct (mip_new P packet) eqn:Hnew; [|done]. cbn [negb]. case_bool_decide as Hproto; [done|].
  destruct (incoming_packet P w packet _ 0 0 HP (Is_true_true_2 _ Hnew) Hproto Hb Hv) as (-> & _); [done|].
  destruct (view_new udp_view _) eqn:Hu; [|done]. cbn [negb].
  destruct (find_nat_port _ _ _) as [port|] eqn:Hf; [|done]. intros ?. simplify_eq.
  split_and!; [done..|]. exists port. split; [by eapply find_nat_port_range|].
  unfold incoming_rewrite, udp_fix. f_equal.
  by rewrite (law_get_set_ne _ _ udp_view_laws) by (done || by rewrite Hu).
Qed.

Lemma outgoing_internal_Ok P w now packet nat ip packet' nat' :
  (∀ port a, (lru_get now port (mappings nat)).1 = Some a → packet_addr_ok a) →
  (∀ a ip, packet_addr_ok a → mip_get_ip_from_addr P a = Some ip → socket_ip a = mip_into P ip ∧ is_uint w ip) →
  translate_outgoing_internal P now packet nat = (Ok ip, packet', nat') →
  mip_new P packet ∧ view_new udp_view (mip_payload P packet) ∧
  ∃ ip port, is_uint w ip ∧ is_uint 16 port ∧ packet' = outgoing_rewrite P ip port packet.
Proof.
  intros Hok Hip. unfold translate_outgoing_internal.
  destruct (mip_new P packet) eqn:Hnew; [|done]. cbn [negb]. case_bool_decide as Hproto; [done|].
  destruct (view_new udp_view _) eqn:Hu; [|done]. cbn [negb].
  specialize (Hok (view_get udp_view UdpDestination (mip_payload P packet))).
  destruct (lru_get _ _ _) as [[a|] m]; [|done]. specialize (Hok a eq_refl).
  destruct (mip_get_ip_from_addr P a) as [ip'|] eqn:Ha; [|done]. intros ?. simplify_eq.
  split_and!; [done..|]. exists ip', (socket_port a).
  split_and!; [by eapply Hip|apply Hok|]. unfold outgoing_rewrite, udp_fix. do 3 f_equal.
  by rewrite (law_get_set_ne _ _ udp_view_laws) by (done || by rewrite Hu).
Qed.
End translations.

Lemma ip_header_inv `{PnetViews} P b proto src dst u : ip_header P b = (proto, src, dst, u) →
  mip_get_source P b = src ∧ mip_get_destination P b = dst ∧ mip_payload P b = u.
Proof. unfold ip_header. generalize (mip_payload P b). by intros ? [= _ -> -> ->]. Qed.

Lemma udp_kept_incoming P w octs packet vpeer port : PacketLaws P w → updates P octs →
  is_bytes packet → mip_new P packet → view_new udp_view (mip_payload P packet) → is_uint w vpeer → is_uint 16 port →
  (udp_checksum P packet ≠ 0 → udp_valid octs P packet) → udp_kept octs P packet (incoming_rewrite P vpeer port packet).
Proof.
  intros HP HU Hb Hnew Hu Hv Hport. unfold udp_valid at 1, ip_header. intros Hval.
  pose proof (pl_payload P w HP packet Hb) as Hbu. unfold incoming_rewrite. set (c := mip_calculate_udp_header_checksum_update _ _ _ _ _ _).
  destruct (udp_rewritten UdpSource port c (mip_payload P packet)) as (Hlen & Hbu' & _); [done..|].
  destruct (incoming_headers P w packet vpeer _ HP Hnew Hv Hlen Hbu') as (_ & _ & _ & Hh).
  pose proof (ip_header_inv _ _ _ _ _ _ Hh) as (_ & _ & Hpay).
  unfold udp_kept, udp_valid, udp_checksum in *. rewrite Hh, Hpay.
  destruct (pseudo_sum_fix P octs UdpSource port (mip_get_source P packet) vpeer (mip_payload P packet))
    as [[Hc ?]|[Hc (k & Hk)]]; [done..|by split|]. split; [done|]. intros _. specialize (Hval Hc).
  fold c in Hk. rewrite <-Hval. unfold pseudo_sum in *.
  rewrite <-(Z.mod_add (sum16 (octs (mip_get_source P packet)) + _ + _ + _ + _) k) by done. f_equal. lia.
Qed.

Lemma udp_kept_outgoing P w octs packet ip port : PacketLaws P w → updates P octs →
  is_bytes packet → mip_new P packet → view_new udp_view (mip_payload P packet) → is_uint w ip → is_uint 16 port →
  (udp_checksum P packet ≠ 0 → udp_valid octs P packet) → udp_kept octs P packet (outgoing_rewrite P ip port packet).
Proof.
  intros HP HU Hb Hnew Hu Hv Hport. unfold udp_valid at 1, ip_header. intros Hval.
  pose proof (pl_payload P w HP packet Hb) as Hbu. unfold outgoing_rewrite. set (c := mip_calculate_udp_header_checksum_update _ _ _ _ _ _).
  destruct (udp_rewritten UdpDestination port c (mip_payload P packet)) as (Hlen & Hbu' & _); [done..|].
  destruct (outgoing_headers P w packet ip _ HP Hnew Hv Hlen Hbu') as (_ & _ & _ & Hh).
  pose proof (ip_header_inv _ _ _ _ _ _ Hh) as (_ & _ & Hpay).
  unfold udp_kept, udp_valid, udp_checksum in *. rewrite Hh, Hpay.
  destruct (pseudo_sum_fix P octs UdpDestination port (mip_get_destination P packet) ip (mip_payload P packet))
    as [[Hc ?]|[Hc (k & Hk)]]; [done..|by split|]. split; [done|]. intros _. specialize (Hval Hc).
  fold c in Hk. rewrite <-Hval. unfold pseudo_sum in *.
  rewrite <-(Z.mod_add (_ + sum16 (octs (mip_get_destination P packet)) + _ + _ + _) k) by done. f_equal. lia.
Qed.

Lemma incoming_shape P w packet vpeer port : PacketLaws P w → is_bytes packet → mip_new P packet →
  view_new udp_view (mip_payload P packet) → is_uint w vpeer → is_uint 16 port →
  same_shape packet (incoming_rewrite P vpeer port packet).
Proof.
  intros HP Hb Hn Hu Hv Hp. unfold incoming_rewrite. set (c := mip_calculate_udp_header_checksum_update _ _ _ _ _ _).
  destruct (udp_rewritten UdpSource port c (mip_payload P packet)) as (Hlen & Hbu & _); [done|by eapply pl_payload|done..|].
  by destruct (incoming_headers P w packet vpeer _ HP Hn Hv Hlen Hbu) as (_ & Hs & _).
Qed.

Lemma outgoing_shape P w packet ip port : PacketLaws P w → is_bytes packet → mip_new P packet →
  view_new udp_view (mip_payload P packet) → is_uint w ip → is_uint 16 port →
  same_shape packet (outgoing_rewrite P ip port packet).
Proof.
  intros HP Hb Hn Hu Hv Hp. unfold outgoing_rewrite. set (c := mip_calculate_udp_header_checksum_update _ _ _ _ _ _).
  destruct (udp_rewritten UdpDestination port c (mip_payload P packet)) as (Hlen & Hbu & _); [done|by eapply pl_payload|done..|].
  by destruct (outgoing_headers P w packet ip _ HP Hn Hv Hlen Hbu) as (_ & Hs & _).
Qed.

Lemma header_valid_put u b : view_new ipv4_view b → length u = length (view_payload ipv4_enclosing b) →
  header_valid b → header_valid (view_with_payload ipv4_enclosing u b).
Proof.
  intros Hn Hl. unfold header_valid. by rewrite header_sum_put.
Qed.

Lemma header_valid_incoming packet vpeer port :
  is_bytes packet → view_new ipv4_view packet → view_new udp_view (mip_payload MutableIpv4Packet packet) →
  is_uint 32 vpeer → is_uint 16 port → header_valid packet → view_get ipv4_view Ipv4HeaderChecksum packet ≠ 0 →
  header_valid (incoming_rewrite MutableIpv4Packet vpeer port packet).
Proof.
  intros Hb Hn Hu Hv Hport Hval Hset. unfold incoming_rewrite. set (c := mip_calculate_udp_header_checksum_update _ _ _ _ _ _).
  pose proof MutableIpv4Packet_laws as HP. pose proof (pl_payload _ _ HP packet Hb) as Hbu.
  destruct (udp_rewritten UdpSource port c (mip_payload MutableIpv4Packet packet)) as (Hlen & Hbu' & _); [done..|].
  destruct (incoming_headers _ _ packet vpeer _ HP Hn Hv Hlen Hbu') as (Hs & _ & Hh & _).
  apply header_valid_put; [by apply (new_shape _ _ _ _ HP Hs)| |by apply header_valid_fix].
  apply ip_header_inv in Hh as (_ & _ & Hh). rewrite Hlen, <-Hh. done.
Qed.

Lemma header_valid_outgoing packet ip port :
  is_bytes packet → view_new ipv4_view packet → view_new udp_view (mip_payload MutableIpv4Packet packet) →
  is_uint 32 ip → is_uint 16 port → header_valid packet → view_get ipv4_view Ipv4HeaderChecksum packet ≠ 0 →
  header_valid (outgoing_rewrite MutableIpv4Packet ip port packet).
Proof.
  intros Hb Hn Hu Hv Hport Hval Hset. unfold outgoing_rewrite. set (c := mip_calculate_udp_header_checksum_update _ _ _ _ _ _).
  pose proof MutableIpv4Packet_laws as HP. pose proof (pl_payload _ _ HP packet Hb) as Hbu.
  destruct (udp_rewritten UdpDestination port c (mip_payload MutableIpv4Packet packet)) as (Hlen & Hbu' & _); [done..|].
  destruct (outgoing_headers _ _ packet ip _ HP Hn Hv Hlen Hbu') as (Hs & _ & Hh & _).
  assert (mip_get_destination MutableIpv4Packet packet =
    view_get ipv4_view (Ipv4HeaderField IpDestination) (mip_with_payload MutableIpv4Packet
      (udp_fix c (view_set udp_view UdpDestination port (mip_payload MutableIpv4Packet packet))) packet)) as ->
    by (symmetry; by apply ip_header_inv in Hh as (_ & Hd & _)).
  apply header_valid_fix; [by apply Hs|by apply (new_shape _ _ _ _ HP Hs)|done|by apply header_valid_put|].
  change (mip_with_payload MutableIpv4Packet) with (view_with_payload ipv4_enclosing).
  by rewrite (law_get_put _ _ ipv4_enclosing_laws).
Qed.

(** The families of the first byte *)
Lemma family_cases packet P : packet_family packet = Some P →
  ∃ first, head packet = Some first ∧
    (Z.shiftr first 4 = 4 ∧ P = MutableIpv4Packet ∨ Z.shiftr first 4 = 6 ∧ P = MutableIpv6Packet).
Proof.
  unfold packet_family. destruct (head packet) as [first|]; simpl; [|done].
  repeat case_bool_decide; intros ?; simplify_eq; eauto 6.
Qed.

Lemma checksums_ipv4 packet packet' first : head packet = Some first → Z.shiftr first 4 = 4 →
  same_shape packet packet' → header_checksum_set packet → checksums_valid packet →
  (header_valid packet → view_get ipv4_view Ipv4HeaderChecksum packet ≠ 0 → header_valid packet') →
  ((udp_checksum MutableIpv4Packet packet ≠ 0 → udp_valid octets MutableIpv4Packet packet) →
    udp_kept octets MutableIpv4Packet packet packet') →
  checksums_kept packet packet' ∧ (checksums_valid packet' ∨ udp_checksum_lost packet').
Proof.
  intros Hh H4 (_ & Hs & _) Hset Hval Hv1 Hv2. specialize (Hset first Hh H4).
  unfold checksums_valid, checksums_kept in *. rewrite Hs, Hh, H4 in *. destruct Hval as [Hval _], (Hval eq_refl) as [Hv Hu].
  assert (udp_kept octets MutableIpv4Packet packet packet') as Hk by (apply Hv2; tauto).
  split; [split; [auto|done]|]. left. split; [intros _; split; [auto|]|done].
  destruct Hk as [Hk0 Hk1]. destruct (decide (udp_checksum MutableIpv4Packet packet = 0)); auto.
Qed.

Lemma checksums_ipv6 packet packet' first : head packet = Some first → Z.shiftr first 4 = 6 →
  same_shape packet packet' → checksums_valid packet →
  ((udp_checksum MutableIpv6Packet packet ≠ 0 → udp_valid octets6 MutableIpv6Packet packet) →
    udp_kept octets6 MutableIpv6Packet packet packet') →
  checksums_kept packet packet' ∧ (checksums_valid packet' ∨ udp_checksum_lost packet').
Proof.
  intros Hh H6 (_ & Hs & _) Hval Hv. unfold checksums_valid, checksums_kept, udp_checksum_lost in *.
  rewrite Hs, Hh, H6 in *. destruct Hval as [_ Hval], (Hval eq_refl) as [Hc Hu].
  assert (udp_kept octets6 MutableIpv6Packet packet packet') as Hk by auto. split; [by split|].
  destruct (decide (udp_checksum MutableIpv6Packet packet' = 0)); [right; by exists first|].
  left. split; [done|]. intros _. split; [done|by apply Hk].
Qed.

Section families.
Context {M : Type → Type → Type} `{LinkedHashMap M}.
Implicit Types (nat : StarcastNat M) (now : Instant) (packet : bytes).

Lemma incoming_checksums P now packet nat ip packet' nat' : packet_family packet = Some P →
  is_bytes packet → header_checksum_set packet → checksums_valid packet → dual_ok (vpeer_addr nat) →
  (∀ a, is_uint 16 (mapper nat a)) →
  translate_incoming_internal P now packet nat = (Ok ip, packet', nat') →
  checksums_kept packet packet' ∧ (checksums_valid packet' ∨ udp_checksum_lost packet').
Proof.
  intros Hf Hb Hset Hval [Hv4 Hv6] Hm Hstep.
  apply family_cases in Hf as (first & Hhead & [[H4 ->]|[H6 ->]]).
  - pose proof MutableIpv4Packet_laws as HP.
    destruct (incoming_internal_Ok _ _ _ _ _ _ _ _ HP Hb Hv4 Hm Hstep) as (Hn & Hu & port & Hp & ->).
    eapply checksums_ipv4; [done..|by apply (incoming_shape _ _ _ _ _ HP)|done|done| |].
    + by apply header_valid_incoming.
    + by apply (udp_kept_incoming _ 32 _ _ _ _ HP ipv4_updates).
  - pose proof MutableIpv6Packet_laws as HP.
    destruct (incoming_internal_Ok _ _ _ _ _ _ _ _ HP Hb Hv6 Hm Hstep) as (Hn & Hu & port & Hp & ->).
    eapply checksums_ipv6; [done..|by apply (incoming_shape _ _ _ _ _ HP)|done|].
    by apply (udp_kept_incoming _ 128 _ _ _ _ HP ipv6_updates).
Qed.

Lemma outgoing_checksums P now packet nat ip packet' nat' : packet_family packet = Some P →
  is_bytes packet → header_checksum_set packet → checksums_valid packet →
  (∀ port a, (lru_get now port (mappings nat)).1 = Some a → packet_addr_ok a) →
  translate_outgoing_internal P now packet nat = (Ok ip, packet', nat') →
  checksums_kept packet packet' ∧ (checksums_valid packet' ∨ udp_checksum_lost packet').
Proof.
  intros Hf Hb Hset Hval Hok Hstep.
  apply family_cases in Hf as (first & Hhead & [[H4 ->]|[H6 ->]]).
  - pose proof MutableIpv4Packet_laws as HP.
    destruct (outgoing_internal_Ok _ 32 _ _ _ _ _ _ Hok ipv4_ip_from_addr Hstep) as (Hn & Hu & a & port & Ha & Hp & ->).
    eapply checksums_ipv4; [done..|by apply (outgoing_shape _ _ _ _ _ HP)|done|done| |].
    + by apply header_valid_outgoing.
    + by apply (udp_kept_outgoing _ 32 _ _ _ _ HP ipv4_updates).
  - pose proof MutableIpv6Packet_laws as HP.
    destruct (outgoing_internal_Ok _ 128 _ _ _ _ _ _ Hok ipv6_ip_from_addr Hstep) as (Hn & Hu & a & port & Ha & Hp & ->).
    eapply checksums_ipv6; [done..|by apply (outgoing_shape _ _ _ _ _ HP)|done|].
    by apply (udp_kept_outgoing _ 128 _ _ _ _ HP ipv6_updates).
Qed.
End families.

Section theorems.
Context {M : Type → Type → Type} `{LinkedHashMapLaws M}.
Context (ttl : Duration) (cap : Datatypes.nat) (vpeer : DualIpAddr) (m : SocketAddr → Z).
Implicit Types (nat : StarcastNat M) (now : Instant) (packet : bytes) (log : nat_log).

(** C25: translated packets are accepted where the originals were.  In every
    history of translations, a packet that a receiver accepts, with an IPv4 header
    checksum other than zero, leaves the translation, in both directions, with a
    valid IPv4 header checksum, without a UDP checksum if it had none, and with a
    UDP checksum that is valid over the new addresses and ports if it had one.  So a
    receiver accepts it, but for the one case that the valid checksum of an IPv6
    packet comes out as zero. *)
Theorem nat_checksums_stay_valid now log nat ev ip packet' nat' :
  dual_ok vpeer → (∀ a, is_uint 16 (m a)) → nat_history ttl cap vpeer m now log nat →
  now <= event_time ev → is_bytes (event_packet ev) →
  header_checksum_set (event_packet ev) → checksums_valid (event_packet ev) →
  nat_step ev nat = (Ok ip, packet', nat') →
  checksums_kept (event_packet ev) packet' ∧ (checksums_valid packet' ∨ udp_checksum_lost packet').
Proof.
  intros Hv Hm Hh Ht Hb Hset Hval Hstep. apply nat_history_ok in Hh; [|done..].
  apply (nat_ok_later _ _ _ _ _ (event_time ev)) in Hh; [|done].
  pose proof Hh as [_ Hvp Hmp]. destruct ev as [now1 packet|now1 packet]; simpl in *.
  - rewrite translate_incoming_family in Hstep. destruct (packet_family packet) as [P|] eqn:Hf; [|done].
    eapply incoming_checksums; [done..|by rewrite Hvp|by rewrite Hmp|done].
  - rewrite translate_outgoing_family in Hstep. destruct (packet_family packet) as [P|] eqn:Hf; [|done].
    eapply outgoing_checksums; [done..| |done]. intros port a Hg. by eapply nat_ok_addr.
Qed.
End theorems.

(** ** Sample packets *)

Module StarcastSamples.
(** [100.64.0.5] and [fd74:656c:696f::5], the addresses of the virtual peer *)
Definition vpeer : DualIpAddr := mkDualIpAddr 0x64400005 0xfd74656c696f00000000000000000005.
Definition mapper (a : SocketAddr) : Z := 40000.
Definition nat0 : StarcastNat assoc_map := nat_new_custom (dual_ipv4 vpeer) (dual_ipv6 vpeer) 2048 120000 mapper.

(** A multicast query of [100.64.0.2:5353], and an answer to the port it got *)
Definition query : bytes :=
  [69; 0; 0; 30; 0; 0; 0; 0; 64; 17; 53; 146; 100; 64; 0; 2; 224; 0; 0; 251; 20; 233; 20; 233; 0; 10; 143; 200; 1; 2].
Definition answer : bytes :=
  [69; 0; 0; 30; 0; 0; 0; 0; 64; 17; 178; 37; 100; 100; 0; 1; 100; 64; 0; 5; 20; 233; 156; 64; 0; 10; 131; 2; 3; 4].

(** A query of [fd74:656c:696f::2] to [ff02::fb] *)
Definition query6 : bytes :=
  [96; 0; 0; 0; 0; 10; 17; 64; 253; 116; 101; 108; 105; 111; 0; 0; 0; 0; 0; 0; 0; 0; 0; 2; 255; 2; 0; 0; 0; 0; 0; 0; 0; 0;
   0; 0; 0; 0; 0; 251; 20; 233; 20; 233; 0; 10; 135; 90; 130; 93].

Definition after_query : result NatError StdIpAddr * bytes * StarcastNat assoc_map := translate_incoming 10 query nat0.

Lemma bytes_check (b : bytes) : forallb (λ x, (0 <=? x) && (x <? 256)) b = true → is_bytes b.
Proof.
  rewrite forallb_forall. intros Hb. apply Forall_forall. intros x Hx. apply list_elem_of_In, Hb in Hx.
  unfold is_uint. lia.
Qed.

Lemma vpeer_dual_ok : dual_ok vpeer.
Proof. by split. Qed.

Lemma mapper_ok a : is_uint 16 (mapper a).
Proof. done. Qed.

Lemma history0 : nat_history 120000 2048 vpeer mapper 0 [] nat0.
Proof. apply History_new. Qed.

Lemma history1 : nat_history 120000 2048 vpeer mapper 10 [(Incoming 10 query, after_query.1.1, after_query.1.2)] after_query.2.
Proof.
  apply (History_step _ _ _ _ 0 [] nat0 (Incoming 10 query)); [apply history0|done|by apply bytes_check|].
  simpl. unfold after_query. by destruct (translate_incoming 10 query nat0) as [[]].
Qed.

Lemma nat_replies_reach_sender_witness :
  ∃ packet' nat', translate_outgoing 20 answer after_query.2 = (Ok (V4 0x64400002), packet', nat') ∧
    ∃ src dst a, udp_endpoints answer = Some (src, dst) ∧
      last_given (socket_port dst) [(Incoming 10 query, after_query.1.1, after_query.1.2)] = Some a ∧
      V4 0x64400002 = socket_ip a ∧ udp_endpoints packet' = Some (src, a) ∧ length packet' = length answer.
Proof.
  do 2 eexists. split; [vm_compute; reflexivity|].
  eapply (nat_replies_reach_sender 120000 2048 vpeer mapper 10 _ after_query.2 20 answer);
    [apply vpeer_dual_ok|apply mapper_ok|apply history1|done|by apply bytes_check|vm_compute; reflexivity].
Defined.

Lemma nat_roundtrip_witness :
  ∃ src, udp_endpoints query = Some (src, SocketAddrV4 0xe00000fb 5353) ∧ V4 0x64400002 = socket_ip src ∧
    V4 0x64400005 = vpeer_ip vpeer (V4 0x64400002) ∧
    (∀ a, lru_peek 10 40000 (mappings nat0) = Some a → a = src) ∧
    ∃ reply' nat'', translate_outgoing 20 answer after_query.2 = (Ok (V4 0x64400002), reply', nat'') ∧
      udp_endpoints reply' = Some (SocketAddrV4 0x64640001 5353, src) ∧ length reply' = length answer.
Proof.
  refine (nat_roundtrip 120000 2048 vpeer mapper 0 [] nat0 10 query (V4 0x64400002) after_query.1.2 after_query.2 20 answer
    (SocketAddrV4 0x64400005 40000) (SocketAddrV4 0xe00000fb 5353) (SocketAddrV4 0x64640001 5353) _ _ _ _ _ _ _ _ _ _ _);
    [apply vpeer_dual_ok|apply mapper_ok|lia|apply history0|lia|lia|by apply bytes_check|by apply bytes_check|
     vm_compute; reflexivity|vm_compute; reflexivity|vm_compute; reflexivity].
Defined.

Lemma query_valid : checksums_valid query.
Proof. split; [|done]. intros _. split; [|right]; vm_compute; reflexivity. Qed.

Lemma nat_checksums_stay_valid_witness : checksums_kept query after_query.1.2.
Proof.
  refine (proj1 (nat_checksums_stay_valid 120000 2048 vpeer mapper 0 [] nat0 (Incoming 10 query) (V4 0x64400002) _ after_query.2
    _ _ _ _ _ _ _ _));
    [apply vpeer_dual_ok|apply mapper_ok|apply history0|done|by apply bytes_check|by intros first _ _|apply query_valid|vm_compute; reflexivity].
Defined.

(** The query with an identification for which the right header checksum is zero *)
Definition query_zero : bytes :=
  [69; 0; 0; 30; 53; 146; 0; 0; 64; 17; 0; 0; 100; 64; 0; 2; 224; 0; 0; 251; 20; 233; 20; 233; 0; 10; 143; 200; 1; 2].

(** A header checksum that is right as zero is not updated, and so is wrong after
    the translation. *)
Example zero_header_checksum_not_updated :
  header_valid query_zero ∧ ¬ header_valid (translate_incoming 10 query_zero nat0).1.2.
Proof. split; vm_compute; congruence. Qed.
End StarcastSamples.

(** The incremental update can remove a UDP checksum.  A valid IPv6
    packet with a checksum leaves the translation with the checksum zero, which
    over IPv6 receivers discard (RFC 8200, section 8.1); the sum that calls for
    it is to be sent as 0xFFFF (RFC 768). *)
Theorem udp_checksum_can_vanish :
  let packet := StarcastSamples.query6 in
  let '(r, packet', _) := translate_incoming 10 packet StarcastSamples.nat0 in
  checksums_valid packet ∧ view_get udp_view UdpChecksum (mip_payload MutableIpv6Packet packet) ≠ 0 ∧
  r = Ok (V6 0xfd74656c696f00000000000000000002) ∧
  view_get udp_view UdpChecksum (mip_payload MutableIpv6Packet packet') = 0.
Proof.
  intros packet. destruct (translate_incoming 10 packet StarcastSamples.nat0) as [[r packet'] nat'] eqn:E.
  vm_compute in E. injection E as <- <- _. split; [|split_and!; vm_compute; done]. split; [done|]. intros _.
  split; vm_compute; congruence.
Qed.
