(* ===== verification/Starcast.v ===== *)
(** * [telio-starcast]: the transport and the virtual peer

    [src/crates/telio-starcast/src/transport.rs] and [starcast_peer.rs].  The
    transport fans multicast packets out to the meshnet nodes and leads their
    answers back through the address translation of [StarcastNat]; the virtual
    peer is the WireGuard end of it, through a tunnel of the crate [neptun].

    A task is a state and the effects it had on the outside, the latest last.
    What the outside decides is an argument: the event that [tokio::select!]
    takes, whether a socket can be opened, and, from all effects so far, whether
    a datagram is sent. *)

From S2P Require Import Prelude LruCache NetTypes WgTypes Crypto Backoff PacketViews StarcastNat.

(** [IpNet::contains], of the crate [ipnet] *)
Class IpNetContains `{IpNets} := ipnet_contains : IpNet → StdIpAddr → bool.

(** ** Constants *)

Definition MULTICAST_TRANSPORT_PORT : Z := 13569.

(** [telio_model::constants] *)
Definition IPV4_STARCAST_ADDRESS : Z := ipv4_addr 100 64 0 5.
Definition IPV6_STARCAST_ADDRESS : Z := 0xfd74656c696f00000000000000000005.

Section networks.
Context `{IpNets}.
Definition IPV4_MULTICAST_NETWORK : option IpNet := ipnet_new (V4 (ipv4_addr 224 0 0 0)) 4.
Definition IPV6_MULTICAST_NETWORK : option IpNet := ipnet_new (V6 0xff0200000000000000000000000000fb) 128.
Definition IPV4_STARCAST_NETWORK : option IpNet := ipnet_new (V4 IPV4_STARCAST_ADDRESS) 32.
Definition IPV6_STARCAST_NETWORK : option IpNet := ipnet_new (V6 IPV6_STARCAST_ADDRESS) 128.
End networks.

(** ** The transport *)

(** [transport::Error] *)
Inductive TransportError :=
| SocketBindError
| InvalidIpPacket
| NoIpForPeer
| FanoutFailed (keys : list PublicKey)
| SocketSendError
| NatFailed (e : NatError)
| TransportSocketNotOpen
| ExponentialBackoffError (e : BackoffError).

(** [transport::Peer] *)
Record StarcastNode := mkStarcastNode {
  node_addr : SocketAddr;
  node_key : PublicKey;
  allow_multicast : bool;
  peer_allows_multicast : bool
}.

(** [transport::Config] *)
Inductive TransportConfig :=
| Simple (peers : list (PublicKey * StdIpAddr * bool * bool))
| Full (peers : list (PublicKey * SocketAddr * bool * bool)).

(** A datagram, with the answer of the socket, or a packet for the virtual peer *)
Inductive TransportEffect :=
| SendTo (packet : bytes) (to : SocketAddr) (sent : bool)
| Deliver (packet : bytes).

Section transport.
Context `{IpNetContains} `{PnetViews} {M : Type → Type → Type} `{LinkedHashMap M}.
Context (send_ok : list TransportEffect → bytes → SocketAddr → bool).

Record TransportState := mkTransportState {
  transport_socket : option SocketAddr;
  transport_nat : StarcastNat M;
  transport_peers : list StarcastNode;
  multicast_ips : list IpNet;
  meshnet_ip : StdIpAddr;
  exponential_backoff : ExponentialBackoff
}.
Implicit Types (st : TransportState) (packet : bytes) (now : Instant) (w : TransportState * list TransportEffect).

Definition set_socket (s : option SocketAddr) st : TransportState :=
  mkTransportState s (transport_nat st) (transport_peers st) (multicast_ips st) (meshnet_ip st) (exponential_backoff st).
Definition set_nat (n : StarcastNat M) st : TransportState :=
  mkTransportState (transport_socket st) n (transport_peers st) (multicast_ips st) (meshnet_ip st) (exponential_backoff st).
Definition set_transport_peers (p : list StarcastNode) st : TransportState :=
  mkTransportState (transport_socket st) (transport_nat st) p (multicast_ips st) (meshnet_ip st) (exponential_backoff st).
Definition set_send_backoff (b : ExponentialBackoff) st : TransportState :=
  mkTransportState (transport_socket st) (transport_nat st) (transport_peers st) (multicast_ips st) (meshnet_ip st) b.

(** [open_transport_socket]: the socket is bound to the meshnet address. *)
Definition open_transport_socket (opens : bool) (ip : StdIpAddr) (port : Z) : result TransportError SocketAddr :=
  if opens then Ok (socket_addr_new ip port) else Err SocketBindError.

(** [Transport::start] *)
Definition transport_start (opens : bool) (default_mapper : SocketAddr → Z) (meshnet_ip : StdIpAddr)
    : result TransportError TransportState :=
  let multicast_ips := omap id [IPV4_MULTICAST_NETWORK; IPV6_MULTICAST_NETWORK] in
  match exponential_backoff_new (mkExponentialBackoffBounds (from_secs 2) (Some (from_secs 120))) with
  | Err e => Err (ExponentialBackoffError e)
  | Ok exponential_backoff =>
      let transport_socket :=
        match open_transport_socket opens meshnet_ip MULTICAST_TRANSPORT_PORT with
        | Ok transport_socket => Some transport_socket
        | Err _ => None
        end in
      Ok (mkTransportState transport_socket (nat_new default_mapper IPV4_STARCAST_ADDRESS IPV6_STARCAST_ADDRESS)
            [] multicast_ips meshnet_ip exponential_backoff)
  end.

(** [State::configure] *)
Definition transport_configure (config : TransportConfig) st : TransportState :=
  set_transport_peers
    match config with
    | Simple peers =>
        (λ '(public_key, addr, allow, peer_allows),
           mkStarcastNode (socket_addr_new addr MULTICAST_TRANSPORT_PORT) public_key allow peer_allows) <$> peers
    | Full peers =>
        (λ '(public_key, addr, allow, peer_allows), mkStarcastNode addr public_key allow peer_allows) <$> peers
    end st.

(** [UdpSocket::send_to] *)
Definition transport_send_to packet (to : SocketAddr) (log : list TransportEffect) : bool * list TransportEffect :=
  let sent := send_ok log packet to in (sent, log ++ [SendTo packet to sent]).

(** The sends that [join_all] waits for, and the keys of those that fail *)
Fixpoint fan_out packet (peers : list StarcastNode) (log : list TransportEffect)
    : list PublicKey * list TransportEffect :=
  match peers with
  | [] => ([], log)
  | peer :: peers =>
      let '(sent, log) := transport_send_to packet (node_addr peer) log in
      let '(failed, log) := fan_out packet peers log in
      (if sent then failed else node_key peer :: failed, log)
  end.

(** [State::handle_local_multicast_packet] *)
Definition handle_local_multicast_packet packet w
    : result TransportError unit * (TransportState * list TransportEffect) :=
  let '(st, log) := w in
  match transport_socket st with
  | None => (Err TransportSocketNotOpen, w)
  | Some _ =>
      let '(failed_peers, log) := fan_out packet (filter (λ p, peer_allows_multicast p = true) (transport_peers st)) log in
      (if decide (failed_peers = []) then Ok tt else Err (FanoutFailed failed_peers), (st, log))
  end.

(** The first configured node with an address *)
Definition find_node (ip : StdIpAddr) (peers : list StarcastNode) : option StarcastNode :=
  head (filter (λ p, socket_ip (node_addr p) = ip) peers).

(** [State::handle_mapped_unicast_packet] *)
Definition handle_mapped_unicast_packet now packet w
    : result TransportError unit * (TransportState * list TransportEffect) :=
  let '(st, log) := w in
  let '(r, packet, nat) := translate_outgoing now packet (transport_nat st) in
  let st := set_nat nat st in
  match r with
  | Err e => (Err (NatFailed e), (st, log))
  | Ok peer_ip =>
      match find_node peer_ip (transport_peers st) with
      | None => (Err NoIpForPeer, (st, log))
      | Some peer =>
          match transport_socket st with
          | None => (Err TransportSocketNotOpen, (st, log))
          | Some _ =>
              let '(sent, log) := transport_send_to packet (node_addr peer) log in
              (if sent then Ok tt else Err SocketSendError, (st, log))
          end
      end
  end.

(** [State::handle_incoming_packet] *)
Definition handle_incoming_packet now packet w
    : result TransportError unit * (TransportState * list TransportEffect) :=
  let '(st, log) := w in
  let '(r, packet, nat) := translate_incoming now packet (transport_nat st) in
  let st := set_nat nat st in
  match r with
  | Err e => (Err (NatFailed e), (st, log))
  | Ok peer_ip =>
      match find_node peer_ip (transport_peers st) with
      | Some peer => if allow_multicast peer then (Ok tt, (st, log ++ [Deliver packet])) else (Ok tt, (st, log))
      | None => (Ok tt, (st, log))
      end
  end.

(** [State::get_packet_dst] *)
Definition get_packet_dst (P : MutableIpPacket) packet : result TransportError StdIpAddr :=
  if mip_new P packet then Ok (mip_into P (mip_get_destination P packet)) else Err InvalidIpPacket.

(** [State::has_multicast_dst] *)
Definition has_multicast_dst packet st : result TransportError bool :=
  match packet with
  | [] => Err InvalidIpPacket
  | first :: _ =>
      let? dst :=
        if bool_decide (Z.shiftr first 4 = 4%Z) then get_packet_dst MutableIpv4Packet packet
        else if bool_decide (Z.shiftr first 4 = 6%Z) then get_packet_dst MutableIpv6Packet packet
        else Err InvalidIpPacket in
      Ok (existsb (λ network, ipnet_contains network dst) (multicast_ips st))
  end.

(** What [tokio::select!] takes: a packet of the virtual peer, a datagram when
    there is room for it in the channel, or nothing *)
Inductive TransportEvent :=
| PeerPacket (packet : bytes)
| SocketPacket (packet : bytes)
| NoEvents.

(** The handlers behind the branches of [tokio::select!] *)
Definition transport_select now (ev : TransportEvent) w
    : result TransportError unit * (TransportState * list TransportEffect) :=
  match ev with
  | PeerPacket packet =>
      match has_multicast_dst packet w.1 with
      | Ok true => handle_local_multicast_packet packet w
      | Ok false => handle_mapped_unicast_packet now packet w
      | Err e => (Err e, w)
      end
  | SocketPacket packet => handle_incoming_packet now packet w
  | NoEvents => (Ok tt, w)
  end.

(** [State::wait]: without a socket the task sleeps and tries to open one, and
    only then waits for an event; errors are logged. *)
Definition transport_wait (opens : bool) now (ev : TransportEvent) w
    : outcome (TransportState * list TransportEffect) :=
  let '(st, log) := w in
  match transport_socket st with
  | Some _ => Returns (transport_select now ev w).2
  | None =>
      match open_transport_socket opens (meshnet_ip st) MULTICAST_TRANSPORT_PORT with
      | Err _ =>
          match next_backoff (exponential_backoff st) with
          | Returns b => Returns (set_send_backoff b st, log)
          | Panics => Panics
          end
      | Ok transport_socket =>
          let st := set_socket (Some transport_socket) st in
          let st := set_send_backoff (reset_backoff (exponential_backoff st)) st in
          Returns (transport_select now ev (st, log)).2
      end
  end.
End transport.
Arguments TransportState {_} M.

(** ** The virtual peer *)

(** [TunnResult] of the crate [neptun] *)
Inductive TunnResult :=
| TunnDone
| TunnErr
| WriteToNetwork (packet : bytes)
| WriteToTunnelV4 (packet : bytes)
| WriteToTunnelV6 (packet : bytes).

(** [Tunn] of [neptun], and the curve of [x25519_dalek] *)
Class Tunnels := {
  Tunn : Type;
  tunn_new : SecretKey → PublicKey → option Tunn;
  update_timers : Tunn → TunnResult * Tunn;
  encapsulate : bytes → Tunn → TunnResult * Tunn;
  decapsulate : bytes → Tunn → TunnResult * Tunn;
  dalek_public_key : SecretKey → PublicKey
}.

(** [starcast_peer::Error] *)
Inductive StarcastPeerError :=
| PeerIoError
| TunnNewFail.

(** [starcast_peer::Config] *)
Record VirtualPeerConfig := mkVirtualPeerConfig { config_public_key : PublicKey; config_wg_port : Z }.

(** A datagram to WireGuard, or a packet for the transport *)
Inductive PeerEffect :=
| ToWireGuard (packet : bytes) (to : SocketAddr)
| ToTransport (packet : bytes).

Section starcast_peer.
Context `{IpNets} `{Tunnels}.

(** [starcast_peer::State]; [peer_socket] is the address the socket is bound to *)
Record StarcastPeerState := mkStarcastPeerState {
  peer_secret_key : SecretKey;
  peer_allowed_ips : list IpNet;
  peer_socket : SocketAddr;
  wg_sock_addr : option SocketAddr;
  tunnel : option Tunn;
  packets_present_in_tunnel : bool
}.
Implicit Types (st : StarcastPeerState) (log : list PeerEffect).

Definition loopback (port : Z) : SocketAddr := SocketAddrV4 (ipv4_addr 127 0 0 1) port.

(** [StarcastPeer::start], with the port the system gave to the socket and the
    key it generated *)
Definition starcast_peer_start (port : Z) (secret_key : SecretKey) (ipv6 : bool) : StarcastPeerState :=
  let allowed_ips := omap id [IPV4_MULTICAST_NETWORK; IPV4_STARCAST_NETWORK] in
  let allowed_ips :=
    if ipv6 then allowed_ips ++ omap id [IPV6_MULTICAST_NETWORK; IPV6_STARCAST_NETWORK] else allowed_ips in
  mkStarcastPeerState secret_key allowed_ips (loopback port) None None false.

(** [State::configure] *)
Definition starcast_peer_configure (config : VirtualPeerConfig) st : result StarcastPeerError unit * StarcastPeerState :=
  let st := mkStarcastPeerState (peer_secret_key st) (peer_allowed_ips st) (peer_socket st)
              (Some (loopback (config_wg_port config))) (tunnel st) false in
  match tunn_new (peer_secret_key st) (config_public_key config) with
  | None => (Err TunnNewFail, st)
  | Some t =>
      (Ok tt, mkStarcastPeerState (peer_secret_key st) (peer_allowed_ips st) (peer_socket st)
                (wg_sock_addr st) (Some t) (packets_present_in_tunnel st))
  end.

(** [State::get_peer]; the socket may fail to tell its address. *)
Definition starcast_peer_get_peer (local_addr_ok : bool) st : result StarcastPeerError Peer :=
  if local_addr_ok then
    Ok (set_allowed_ips (peer_allowed_ips st)
          (set_endpoint (Some (peer_socket st)) (peer_default (dalek_public_key (peer_secret_key st)))))
  else Err PeerIoError.

(** The branches of [tokio::select!]: the timer, a packet of the transport,
    the socket writable, a datagram of WireGuard (or an error of the socket)
    when there is room in the channel *)
Inductive PeerEvent :=
| TimerTick
| TransportPacket (packet : bytes)
| SocketWritable
| Datagram (received : option bytes).

(** The branches that are not disabled *)
Definition peer_enabled (ev : PeerEvent) st : bool :=
  match ev with
  | TimerTick | TransportPacket _ => true
  | SocketWritable => packets_present_in_tunnel st
  | Datagram _ => negb (packets_present_in_tunnel st)
  end.

Definition set_tunnel (t : Tunn) (present : bool) st : StarcastPeerState :=
  mkStarcastPeerState (peer_secret_key st) (peer_allowed_ips st) (peer_socket st) (wg_sock_addr st) (Some t) present.

(** [State::wait], on the branch of an event; a send that fails is logged.
    Without a tunnel the task sleeps until it is configured. *)
Definition starcast_peer_wait (ev : PeerEvent) (w : StarcastPeerState * list PeerEffect)
    : StarcastPeerState * list PeerEffect :=
  let '(st, log) := w in
  match tunnel st, wg_sock_addr st with
  | Some peer, Some wg_sock_addr =>
      let present := packets_present_in_tunnel st in
      match ev with
      | TimerTick =>
          let '(r, peer) := update_timers peer in
          match r with
          | WriteToNetwork packet => (set_tunnel peer present st, log ++ [ToWireGuard packet wg_sock_addr])
          | _ => (set_tunnel peer present st, log)
          end
      | TransportPacket ip_packet =>
          let '(r, peer) := encapsulate ip_packet peer in
          match r with
          | WriteToNetwork packet => (set_tunnel peer present st, log ++ [ToWireGuard packet wg_sock_addr])
          | _ => (set_tunnel peer present st, log)
          end
      | SocketWritable =>
          let '(r, peer) := decapsulate [] peer in
          match r with
          | WriteToNetwork handshake_packet =>
              (set_tunnel peer present st, log ++ [ToWireGuard handshake_packet wg_sock_addr])
          | TunnDone | TunnErr | WriteToTunnelV4 _ | WriteToTunnelV6 _ => (set_tunnel peer false st, log)
          end
      | Datagram (Some bytes_read) =>
          let '(r, peer) := decapsulate bytes_read peer in
          match r with
          | WriteToNetwork packet => (set_tunnel peer true st, log ++ [ToWireGuard packet wg_sock_addr])
          | WriteToTunnelV4 packet | WriteToTunnelV6 packet => (set_tunnel peer present st, log ++ [ToTransport packet])
          | TunnDone | TunnErr => (set_tunnel peer present st, log)
          end
      | Datagram None => (st, log)
      end
  | _, _ => w
  end.
End starcast_peer.
