(* ===== verification/StarcastProps.v ===== *)
(** * Theorems about the multicast transport and the virtual peer

    The transport's histories carry the history of its address translation, so
    what is known of [StarcastNat] holds of the packets it sends. *)

From S2P Require Import Prelude LruCache NetTypes WgTypes Crypto Backoff PacketViews Checksum StarcastNat StarcastNatProps StarcastChecksums Starcast.

(** ** Histories of the transport *)

Section history.
Context `{IpNetContains} `{PnetViews} {M : Type → Type → Type} `{LinkedHashMap M}.
Context (send_ok : list TransportEffect → bytes → SocketAddr → bool).
Implicit Types (st : TransportState M) (log : list TransportEffect) (nlog : nat_log) (now : Instant).

(** The translation that an event leads to, if any *)
Definition nat_event_of now (ev : TransportEvent) st : option NatEvent :=
  match ev with
  | PeerPacket packet => match has_multicast_dst packet st with Ok false => Some (Outgoing now packet) | _ => None end
  | SocketPacket packet => Some (Incoming now packet)
  | NoEvents => None
  end.

Definition extend_nat_log now (ev : TransportEvent) st nlog : nat_log :=
  match nat_event_of now ev st with
  | Some e => let '(r, packet', _) := nat_step e (transport_nat st) in (e, r, packet') :: nlog
  | None => nlog
  end.

Definition transport_event_bytes (ev : TransportEvent) : Prop :=
  match ev with PeerPacket packet | SocketPacket packet => is_bytes packet | NoEvents => True end.

(** [tokio::select!] is reached with a socket only. *)
Definition reaches_select (opens : bool) st : bool :=
  match transport_socket st with Some _ => true | None => opens end.

(** A started transport is configured and waits, with a clock that does not
    go back.  The log of translations grows when [tokio::select!] is reached. *)
Inductive transport_history (m : SocketAddr → Z) : Instant → nat_log → TransportState M * list TransportEffect → Prop :=
| Transport_start now opens ip st :
    transport_start opens m ip = Ok st → transport_history m now [] (st, [])
| Transport_configure now nlog st log config :
    transport_history m now nlog (st, log) → transport_history m now nlog (transport_configure config st, log)
| Transport_wait now nlog st log now' opens ev w' :
    transport_history m now nlog (st, log) → (now <= now')%Z → transport_event_bytes ev →
    transport_wait send_ok opens now' ev (st, log) = Returns w' →
    transport_history m now' (if reaches_select opens st then extend_nat_log now' ev st nlog else nlog) w'.
End history.

Section transport.
Context `{IpNetContains} `{PnetViewsLaws} {M : Type → Type → Type} `{LinkedHashMapLaws M}.
Context (send_ok : list TransportEffect → bytes → SocketAddr → bool).
Implicit Types (st : TransportState M) (log : list TransportEffect) (nlog : nat_log) (now : Instant).

Definition starcast_vpeer : DualIpAddr := mkDualIpAddr IPV4_STARCAST_ADDRESS IPV6_STARCAST_ADDRESS.

Lemma starcast_vpeer_ok : dual_ok starcast_vpeer.
Proof. by split. Qed.

Definition backoff_bounds : ExponentialBackoffBounds := mkExponentialBackoffBounds (from_secs 2) (Some (from_secs 120)).

Lemma backoff_bounds_ok : bounds_ok backoff_bounds (from_secs 120).
Proof. split_and!; done. Qed.

(** What holds of the state at all times *)
Record transport_ok (m : SocketAddr → Z) now nlog st : Prop := {
  transport_nat_ok : nat_ok DEFAULT_CACHE_TIMEOUT DEFAULT_CACHE_CAPACITY starcast_vpeer m now nlog (transport_nat st);
  transport_backoff_ok : backoff_ok backoff_bounds (from_secs 120) (exponential_backoff st)
}.

(** The handlers change the translation and nothing else of the state. *)
Lemma select_state now ev st log :
  let '(st', log') := (transport_select send_ok now ev (st, log)).2 in
  st' = set_nat (transport_nat st') st ∧
  transport_nat st' =
    match nat_event_of now ev st with Some e => (nat_step e (transport_nat st)).2 | None => transport_nat st end.
Proof.
  destruct ev as [packet|packet|]; simpl.
  - destruct (has_multicast_dst packet st) as [[]|e]; simpl.
    + unfold handle_local_multicast_packet. destruct (transport_socket st); [|by destruct st].
      destruct (fan_out _ _ _ _). by destruct st.
    + destruct (translate_outgoing now packet (transport_nat st)) as [[r packet'] nat']. simpl.
      destruct r; [|by destruct st]. destruct (find_node _ _); [|by destruct st].
      by destruct (transport_socket st), st.
    + by destruct st.
  - destruct (translate_incoming now packet (transport_nat st)) as [[r packet'] nat']. simpl.
    destruct r; [|by destruct st]. destruct (find_node _ _) as [p|]; [|by destruct st].
    by destruct (allow_multicast p), st.
  - by destruct st.
Qed.

Lemma nat_event_of_ext now ev st st' :
  multicast_ips st' = multicast_ips st → nat_event_of now ev st' = nat_event_of now ev st.
Proof. intros Hm. destruct ev; simpl; [|done..]. unfold has_multicast_dst. by rewrite Hm. Qed.

Lemma select_nat_ok m now nlog ev st log : (∀ a, is_uint 16 (m a)) → transport_event_bytes ev →
  nat_ok DEFAULT_CACHE_TIMEOUT DEFAULT_CACHE_CAPACITY starcast_vpeer m now nlog (transport_nat st) →
  nat_ok DEFAULT_CACHE_TIMEOUT DEFAULT_CACHE_CAPACITY starcast_vpeer m now (extend_nat_log now ev st nlog)
    (transport_nat (transport_select send_ok now ev (st, log)).2.1).
Proof.
  intros Hm Hb Hok. pose proof (select_state now ev st log) as Hs.
  destruct (transport_select send_ok now ev (st, log)).2 as [st' log']. destruct Hs as [_ Hs]. simpl. rewrite Hs.
  unfold extend_nat_log. destruct (nat_event_of now ev st) as [e|] eqn:He; [|done].
  destruct (nat_step e (transport_nat st)) as [[r packet'] nat'] eqn:Hstep. simpl.
  destruct ev as [packet|packet|]; simpl in *; [destruct (has_multicast_dst packet st) as [[]|]|..]; simplify_eq.
  - by eapply nat_ok_outgoing.
  - by eapply nat_ok_incoming, Hstep; first apply starcast_vpeer_ok.
Qed.

Lemma transport_history_ok m now nlog w : (∀ a, is_uint 16 (m a)) →
  transport_history send_ok m now nlog w → transport_ok m now nlog w.1.
Proof.
  intros Hm. induction 1 as [now opens ip st Hst|now nlog st log config Hh IH|now nlog st log now' opens ev w' Hh IH Ht Hb Hw].
  - unfold transport_start in Hst. destruct (exponential_backoff_new _) as [b|e] eqn:Hb; [|done]. simplify_eq.
    split; [split; [apply cache_ok_new|done..]|]. by eapply backoff_ok_new; [apply backoff_bounds_ok|].
  - simpl in *. destruct IH. split; done.
  - destruct IH as [Hn Hbo]. simpl in Hn, Hbo. apply (nat_ok_later _ _ _ _ _ now') in Hn; [|done].
    unfold transport_wait in Hw. unfold reaches_select. destruct (transport_socket st) as [s|] eqn:Hs.
    + simplify_eq. split; [by apply select_nat_ok|].
      pose proof (select_state now' ev st log) as Hst. destruct (transport_select _ _ _ _).2 as [st' log'].
      destruct Hst as [-> _]. done.
    + unfold open_transport_socket in Hw. destruct opens; [|].
      * simplify_eq. set (st1 := set_send_backoff _ _).
        replace (extend_nat_log now' ev st nlog) with (extend_nat_log now' ev st1 nlog)
          by (unfold extend_nat_log; by rewrite (nat_event_of_ext _ _ st st1)).
        split; [by apply select_nat_ok|].
        pose proof (select_state now' ev st1 log) as Hst. destruct (transport_select _ _ _ _).2 as [st' log'].
        destruct Hst as [-> _]. by apply backoff_ok_reset; [apply backoff_bounds_ok|].
      * destruct (next_backoff_min _ _ _ backoff_bounds_ok Hbo) as (b & Hnb & Hb' & _). rewrite Hnb in Hw. by simplify_eq.
Qed.

(** *** What the handlers do outside *)

Lemma fan_out_effects packet peers log :
  ∃ results, length results = length peers ∧
    fan_out send_ok packet peers log =
      ((λ x, node_key x.1) <$> filter (λ x, x.2 = false) (zip peers results),
       log ++ ((λ x, SendTo packet (node_addr x.1) x.2) <$> zip peers results)).
Proof.
  revert log. induction peers as [|p peers IH]; intros log; simpl.
  { exists []. simpl. by rewrite app_nil_r. }
  set (sent := send_ok log packet (node_addr p)).
  destruct (IH (log ++ [SendTo packet (node_addr p) sent])) as (results & Hl & ->).
  exists (sent :: results). split; [simpl; lia|]. simpl. rewrite <-app_assoc. simpl.
  rewrite filter_cons. by destruct sent.
Qed.

Lemma no_failures (nodes : list StarcastNode) results : length results = length nodes →
  (λ x, node_key x.1) <$> filter (λ x, x.2 = false) (zip nodes results) = [] ↔ forallb id results = true.
Proof.
  revert nodes. induction results as [|[] results IH]; intros [|n nodes] Hl; simpl in *; try lia; [done| |].
  - apply IH. lia.
  - done.
Qed.

Lemma find_node_Some ip peers p :
  find_node ip peers = Some p → p ∈ peers ∧ socket_ip (node_addr p) = ip.
Proof.
  unfold find_node. intros Hh. destruct (filter _ peers) as [|p' l] eqn:Hf; [done|]. simplify_eq/=.
  assert (p ∈ filter (λ p, socket_ip (node_addr p) = ip) peers) as Hin by (rewrite Hf; set_solver).
  by apply list_elem_of_filter in Hin as [].
Qed.

(** What an effect of an event must be like, in the state it happens in *)
Definition permitted nlog st (ev : TransportEvent) (e : TransportEffect) : Prop :=
  match e with
  | SendTo p to _ =>
      ∃ node, node ∈ transport_peers st ∧ to = node_addr node ∧
        (ev = PeerPacket p ∧ has_multicast_dst p st = Ok true ∧ peer_allows_multicast node = true ∨
         ∃ q src dst a, ev = PeerPacket q ∧ has_multicast_dst q st = Ok false ∧ udp_endpoints q = Some (src, dst) ∧
           last_given (socket_port dst) nlog = Some a ∧ udp_endpoints p = Some (src, a) ∧ socket_ip to = socket_ip a)
  | Deliver p =>
      ∃ node q src dst port, ev = SocketPacket q ∧ udp_endpoints q = Some (src, dst) ∧
        node ∈ transport_peers st ∧ socket_ip (node_addr node) = socket_ip src ∧ allow_multicast node = true ∧
        udp_endpoints p = Some (socket_addr_new (vpeer_ip starcast_vpeer (socket_ip src)) port, dst)
  end.

Lemma select_permitted m now nlog ev st log : (∀ a, is_uint 16 (m a)) → transport_event_bytes ev →
  nat_ok DEFAULT_CACHE_TIMEOUT DEFAULT_CACHE_CAPACITY starcast_vpeer m now nlog (transport_nat st) →
  ∃ new, (transport_select send_ok now ev (st, log)).2.2 = log ++ new ∧ Forall (permitted nlog st ev) new.
Proof.
  intros Hm Hb Hok. assert (∃ new, log = log ++ new ∧ Forall (permitted nlog st ev) new) as Hnone
    by (exists []; rewrite app_nil_r; done).
  destruct ev as [packet|packet|]; simpl; [| |done].
  - destruct (has_multicast_dst packet st) as [[]|e] eqn:Hd; simpl; [| |done].
    + unfold handle_local_multicast_packet. destruct (transport_socket st); [|done].
      set (peers := filter _ _). destruct (fan_out_effects packet peers log) as (rs & Hl & ->). simpl.
      eexists. split; [done|]. apply Forall_fmap, Forall_forall. intros [node sent] Hin%elem_of_zip_l. simpl.
      subst peers. apply list_elem_of_filter in Hin as [Ha Hin]. exists node. split_and!; [done..|]. by left.
    + destruct (translate_outgoing now packet (transport_nat st)) as [[r packet'] nat'] eqn:Ho.
      destruct r as [ip|e]; [|done]. destruct (find_node _ _) as [node|] eqn:Hf; [|done].
      apply find_node_Some in Hf as [Hin Hip]. simpl in *. destruct (transport_socket st); [|done].
      eexists. split; [done|]. constructor; [|done].
      destruct (reply_to_last_given _ _ _ _ _ _ _ _ _ _ _ Hok Hb Ho) as (src & dst & a & ? & ? & ? & ? & _).
      exists node. split_and!; [done..|]. right. exists packet, src, dst, a. split_and!; [done..|congruence].
  - destruct (translate_incoming now packet (transport_nat st)) as [[r packet'] nat'] eqn:Ho.
    destruct r as [ip|e]; [|done]. destruct (find_node _ _) as [node|] eqn:Hf; [|done].
    apply find_node_Some in Hf as [Hin Hip]. simpl in *. destruct (allow_multicast node) eqn:Ha; [|done].
    eexists. split; [done|]. constructor; [|done].
    destruct (incoming_given _ _ _ _ _ _ _ _ _ _ _ starcast_vpeer_ok Hm Hok Hb Ho) as (src & dst & port & ? & -> & ? & _).
    exists node, packet, src, dst, port. done.
Qed.

(** *** Theorems *)

(** C10: the transport keeps to the permissions of the nodes.  Whatever happened
    before, an iteration of its loop returns, and all it does outside is:
    send a multicast packet of the virtual peer, unchanged, to configured nodes
    that accept multicast from this one; send a translated packet to a
    configured node, with the address of the node whose packet was last given the
    port it answers to; or deliver a packet to the virtual peer, translated to
    come from it, that carries the address of a configured node from which
    multicast is accepted. *)
Theorem transport_keeps_permissions m now nlog st log now' opens ev :
  (∀ a, is_uint 16 (m a)) → transport_history send_ok m now nlog (st, log) → (now <= now')%Z → transport_event_bytes ev →
  ∃ st' new, transport_wait send_ok opens now' ev (st, log) = Returns (st', log ++ new) ∧
    Forall (permitted nlog st ev) new ∧ transport_peers st' = transport_peers st.
Proof.
  intros Hm Hh Ht Hb. destruct (transport_history_ok _ _ _ _ Hm Hh) as [Hn Hbo]. simpl in *.
  apply (nat_ok_later _ _ _ _ _ now') in Hn; [|done].
  assert (∀ st1, transport_nat st1 = transport_nat st → multicast_ips st1 = multicast_ips st →
    transport_peers st1 = transport_peers st → ∃ st' new,
    Returns (transport_select send_ok now' ev (st1, log)).2 = Returns (st', log ++ new) ∧
    Forall (permitted nlog st ev) new ∧ transport_peers st' = transport_peers st) as Hsel.
  { intros st1 Hn1 Hm1 Hp1. destruct (select_permitted m now' nlog ev st1 log Hm Hb) as (new & Hnew & Hper); [by rewrite Hn1|].
    pose proof (select_state now' ev st1 log) as Hst. destruct (transport_select _ _ _ _).2 as [st' log']. simpl in Hnew. subst.
    exists st', new. split_and!; [done| |by destruct Hst as [-> _]]. eapply Forall_impl; [done|]. intros e.
    destruct e as [p to sent|p]; simpl; [|by rewrite Hp1]. rewrite Hp1. unfold has_multicast_dst. by rewrite Hm1. }
  unfold transport_wait. destruct (transport_socket st); [by apply Hsel|].
  unfold open_transport_socket. destruct opens; [by apply Hsel|].
  destruct (next_backoff_min _ _ _ backoff_bounds_ok Hbo) as (b & Hnb & _). exists (set_send_backoff b st), []. rewrite app_nil_r.
  change (match next_backoff (exponential_backoff st) with Returns b => Returns (set_send_backoff b st, log) | Panics => Panics end =
    Returns (set_send_backoff b st, log) ∧ Forall (permitted nlog st ev) [] ∧ transport_peers st = transport_peers st).
  by rewrite Hnb.
Qed.

(** A multicast packet is sent once to each configured node that accepts
    it, in the order of the configuration and whatever the sockets answer; the
    error names exactly the nodes to which it could not be sent. *)
Theorem multicast_fan_out packet st log s : transport_socket st = Some s →
  let nodes := filter (λ p, peer_allows_multicast p = true) (transport_peers st) in
  ∃ results, length results = length nodes ∧
    handle_local_multicast_packet send_ok packet (st, log) =
      (if forallb id results then Ok tt
       else Err (FanoutFailed ((λ x, node_key x.1) <$> filter (λ x, x.2 = false) (zip nodes results))),
       (st, log ++ ((λ x, SendTo packet (node_addr x.1) x.2) <$> zip nodes results))).
Proof.
  intros Hs nodes. unfold handle_local_multicast_packet. rewrite Hs. fold nodes.
  destruct (fan_out_effects packet nodes log) as (results & Hl & ->). exists results. split; [done|]. f_equal.
  rewrite (decide_ext _ (forallb id results = true)) by (by apply no_failures). by case_decide; destruct (forallb id results).
Qed.

(** Events one after the other, each with its time and with what opening a socket
    would answer *)
Fixpoint transport_waits (evs : list (Instant * bool * TransportEvent)) (w : TransportState M * list TransportEffect)
    : outcome (TransportState M * list TransportEffect) :=
  match evs with
  | [] => Returns w
  | (now, opens, ev) :: evs =>
      match transport_wait send_ok opens now ev w with Returns w => transport_waits evs w | Panics => Panics end
  end.

Fixpoint events_in_order now (evs : list (Instant * bool * TransportEvent)) (now' : Instant) : Prop :=
  match evs with
  | [] => (now <= now')%Z
  | (t, _, ev) :: evs => (now <= t)%Z ∧ transport_event_bytes ev ∧ events_in_order t evs now'
  end.

Lemma events_in_order_le now evs now' : events_in_order now evs now' → (now <= now')%Z.
Proof.
  revert now. induction evs as [|[[t o] ev] evs IH]; intros now; simpl; [done|]. intros (? & _ & ?%IH). lia.
Qed.

Abbreviation nat_fine m := (nat_ok DEFAULT_CACHE_TIMEOUT DEFAULT_CACHE_CAPACITY starcast_vpeer m).

(** A translation keeps the mapping of a port: another source does not get it, and
    a packet uses one entry at most. *)
Lemma nat_step_keeps m now nlog e nat n port src t : (∀ a, is_uint 16 (m a)) → nat_fine m now nlog nat →
  event_time e = now → is_bytes (event_packet e) → S n < DEFAULT_CACHE_CAPACITY → (t <= now <= t + DEFAULT_CACHE_TIMEOUT)%Z →
  lru_recent n port src t (mappings nat) → lru_recent (S n) port src t (mappings (nat_step e nat).2).
Proof.
  intros Hm Hok Ht Hb Hn Hnow Hr. pose proof Hok as [[Hwf Httl Hcap _] Hvp Hmp].
  assert (lru_recent (S n) port src t (mappings nat)) as Hsame by (eapply recent_le; [|exact Hr]; lia).
  destruct e as [now' packet|now' packet]; simpl in Ht, Hb; subst now'; cbn [nat_step].
  - pose proof (translate_incoming_spec now packet nat Hb) as Hspec.
    destruct (translate_incoming now packet nat) as [[r packet'] nat']. rewrite Hvp, Hmp in Hspec.
    specialize (Hspec starcast_vpeer_ok Hm). destruct (udp_endpoints packet) as [[src' dst]|]; [|by destruct Hspec as [-> _]].
    destruct (find_nat_port now nat src') as [port'|e] eqn:Hf; [|by destruct Hspec as [-> _]].
    destruct Hspec as (_ & -> & _). cbn [mappings set_mappings].
    destruct (decide (port' = port)) as [->|Hne]; [|by apply recent_insert; [| rewrite Hcap|]].
    assert (src = src') as <-.
    { eapply find_nat_port_free; [exact Hf|]. eapply recent_peek; [|exact Hr]. lia. }
    eapply recent_earlier; [|eapply (recent_le 0); [lia|]; apply recent_insert_eq; [rewrite Hcap; unfold DEFAULT_CACHE_CAPACITY; lia|done]]. lia.
  - pose proof (translate_outgoing_spec now packet nat Hb (λ port a Hg, proj1 (nat_ok_addr _ _ _ _ _ _ _ _ _ Hok Hg))) as Hspec.
    destruct (translate_outgoing now packet nat) as [[r packet'] nat'].
    destruct (udp_endpoints packet) as [[src' dst]|]; destruct Hspec as [-> _]; [|done].
    cbn [mappings set_mappings]. apply recent_get; [lia|done].
Qed.

Lemma waits_keep m evs now now' nlog st log s n port src t : (∀ a, is_uint 16 (m a)) → transport_socket st = Some s →
  nat_fine m now nlog (transport_nat st) → events_in_order now evs now' → n + length evs < DEFAULT_CACHE_CAPACITY →
  (t <= now)%Z → (now' <= t + DEFAULT_CACHE_TIMEOUT)%Z → lru_recent n port src t (mappings (transport_nat st)) →
  ∃ nat' nlog' log', transport_waits evs (st, log) = Returns (set_nat nat' st, log') ∧ nat_fine m now' nlog' nat' ∧
    lru_recent (n + length evs) port src t (mappings nat').
Proof.
  intros Hm. revert now nlog st log n. induction evs as [|[[t1 opens] ev] evs IH]; intros now nlog st log n Hs Hok Hord Hn Ht Hnow Hr.
  { exists (transport_nat st), nlog, log. simpl in Hord. rewrite Nat.add_0_r.
    split; [by destruct st|]. split; [by eapply nat_ok_later|done]. }
  destruct Hord as (Hle & Hb & Hord). pose proof (events_in_order_le _ _ _ Hord). simpl in Hn.
  apply (nat_ok_later _ _ _ _ _ t1) in Hok; [|done]. cbn [transport_waits].
  assert (transport_wait send_ok opens t1 ev (st, log) = Returns (transport_select send_ok t1 ev (st, log)).2) as ->
    by (unfold transport_wait; by rewrite Hs).
  pose proof (select_state t1 ev st log) as Hst. pose proof (select_nat_ok m t1 nlog ev st log Hm Hb Hok) as Hok'.
  destruct (transport_select send_ok t1 ev (st, log)).2 as [st' log']. cbn [fst] in Hok'. destruct Hst as [Hst Hnat].
  destruct (IH t1 (extend_nat_log t1 ev st nlog) st' log' (S n)) as (nat' & nlog' & log'' & Hw & Hok'' & Hr''); try done || lia.
  - by rewrite Hst.
  - rewrite Hnat. destruct (nat_event_of t1 ev st) as [e|] eqn:He; [|by eapply recent_le; [|exact Hr]; lia].
    assert (event_time e = t1 ∧ is_bytes (event_packet e)) as [? ?].
    { destruct ev as [packet|packet|]; simpl in He; [destruct (has_multicast_dst packet st) as [[]|]|..]; by simplify_eq. }
    eapply nat_step_keeps; try done; lia.
  - exists nat', nlog', log''. rewrite Hw, Hst. replace (n + length ((t1, opens, ev) :: evs)) with (S n + length evs) by (simpl; lia).
    by destruct st.
Qed.

(** C24: a multicast query of a node is answered.  When a node's packet is
    translated and the node may multicast, the packet is delivered to the virtual
    peer.  A UDP packet that the virtual peer sends back to where it came from,
    and which is not addressed to multicast, within two minutes and with fewer
    packets in between than the table of mappings has entries (2048), whatever
    they are, is sent to that node, addressed to the address and port the query
    had. *)
Theorem multicast_query_answered m now nlog st log s t1 evs t2 opens q ip q' nat' node vsrc dst r rsrc :
  (∀ a, is_uint 16 (m a)) → transport_history send_ok m now nlog (st, log) → transport_socket st = Some s →
  (now <= t1)%Z → events_in_order t1 evs t2 → (t2 <= t1 + 120000)%Z → length evs < 2048 → is_bytes q → is_bytes r →
  translate_incoming t1 q (transport_nat st) = (Ok ip, q', nat') → find_node ip (transport_peers st) = Some node →
  allow_multicast node = true → udp_endpoints q' = Some (vsrc, dst) →
  udp_endpoints r = Some (rsrc, vsrc) → has_multicast_dst r st = Ok false →
  ∃ src st1 st2 log2 r' st3 sent, udp_endpoints q = Some (src, dst) ∧
    transport_wait send_ok opens t1 (SocketPacket q) (st, log) = Returns (st1, log ++ [Deliver q']) ∧
    transport_waits evs (st1, log ++ [Deliver q']) = Returns (st2, log2) ∧
    transport_wait send_ok opens t2 (PeerPacket r) (st2, log2) = Returns (st3, log2 ++ [SendTo r' (node_addr node) sent]) ∧
    udp_endpoints r' = Some (rsrc, src).
Proof.
  intros Hm Hh Hs Ht1 Hord Ht2 Hlen Hbq Hbr Hin Hnode Hallow Hq' Hr Hmd.
  destruct (transport_history_ok _ _ _ _ Hm Hh) as [Hn _]. simpl in Hn.
  apply (nat_ok_later _ _ _ _ _ t1) in Hn; [|done].
  pose proof (nat_ok_incoming _ _ _ _ _ _ _ _ _ _ _ starcast_vpeer_ok Hm Hbq Hn Hin) as Hn'.
  destruct (incoming_given _ _ _ _ _ _ _ _ _ _ _ starcast_vpeer_ok Hm Hn Hbq Hin) as (src & dst' & port & Hq & -> & Hq'' & _ & ->).
  rewrite Hq'' in Hq'. simplify_eq. set (nat1 := set_mappings _ (transport_nat st)) in *.
  assert (lru_recent 0 port src t1 (mappings nat1)) as Hrec.
  { destruct Hn as [[Hwf _ Hcap _] _ _]. apply recent_insert_eq; [rewrite Hcap; unfold DEFAULT_CACHE_CAPACITY; lia|done]. }
  destruct (waits_keep m evs t1 t2 _ (set_nat nat1 st) (log ++ [Deliver q']) s 0 port src t1 Hm Hs Hn' Hord Hlen ltac:(lia)
    ltac:(done) Hrec) as (nat2 & nlog2 & log2 & Hw & Hn2 & Hrec2).
  destruct (reply_translated _ _ _ _ t2 nlog2 nat2 r rsrc _ src Hn2 Hbr Hr) as (r' & nat'' & Hout & Hr' & _).
  { rewrite socket_port_new. eapply recent_peek; [|exact Hrec2]. destruct Hn2 as [[_ -> _ _] _ _]. done. }
  { by rewrite socket_ip_new; destruct (socket_ip src). }
  exists src, (set_nat nat1 st), (set_nat nat2 (set_nat nat1 st)), log2, r'. eexists _, _. split; [done|].
  assert (transport_wait send_ok opens t1 (SocketPacket q) (st, log) = Returns (set_nat nat1 st, log ++ [Deliver q'])) as Hw1.
  { unfold transport_wait. rewrite Hs. simpl. rewrite Hin. simpl. by rewrite Hnode, Hallow. }
  split_and!; [done|done| |done]. unfold transport_wait. simpl. rewrite Hs. simpl.
  assert (∀ n, has_multicast_dst r (set_nat n (set_nat nat1 st)) = Ok false) as -> by (intros n; exact Hmd). simpl.
  rewrite Hout. simpl. by rewrite Hnode.
Qed.
End transport.

(** ** The virtual peer *)

Section virtual_peer.
Context `{IpNets} `{Tunnels}.
Implicit Types (st : StarcastPeerState) (log : list PeerEffect).

(** Asked with an empty datagram, the tunnel gives out [packets] one by one,
    and then something else: it is [final] after that. *)
Fixpoint gives_out (packets : list bytes) (t final : Tunn) : Prop :=
  match packets with
  | [] => (∀ p, (decapsulate [] t).1 ≠ WriteToNetwork p) ∧ final = (decapsulate [] t).2
  | p :: packets => (decapsulate [] t).1 = WriteToNetwork p ∧ gives_out packets (decapsulate [] t).2 final
  end.

Fixpoint peer_waits (evs : list PeerEvent) (w : StarcastPeerState * list PeerEffect)
    : StarcastPeerState * list PeerEffect :=
  match evs with
  | [] => w
  | ev :: evs => peer_waits evs (starcast_peer_wait ev w)
  end.

Lemma peer_flush packets t final st log addr : tunnel st = Some t → wg_sock_addr st = Some addr →
  packets_present_in_tunnel st = true → gives_out packets t final →
  peer_waits (replicate (S (length packets)) SocketWritable) (st, log) =
    (set_tunnel final false st, log ++ ((λ p, ToWireGuard p addr) <$> packets)).
Proof.
  revert t st log. induction packets as [|p packets IH]; intros t st log Ht Ha Hp Hg; simpl in Hg.
  - simpl. rewrite Ht, Ha. destruct Hg as [Hn ->]. destruct (decapsulate [] t) as [r t']. simpl in *.
    rewrite app_nil_r. destruct r; try done. by destruct (Hn packet).
  - destruct Hg as [Hr Hg]. change (replicate (S (length (p :: packets))) SocketWritable)
      with (SocketWritable :: replicate (S (length packets)) SocketWritable).
    cbn [peer_waits]. unfold starcast_peer_wait. rewrite Ht, Ha.
    destruct (decapsulate [] t) as [r t']. simpl in Hr, Hg. subst r.
    rewrite (IH t'); [|done|done|done|done]. simpl. by rewrite <-app_assoc.
Qed.

(** A handshake is not cut short.  A datagram to which the tunnel answers
    on the network is answered and stops the peer from taking the next one; the
    other answers that the tunnel holds are sent in order, to the WireGuard
    socket the peer was configured with, one whenever the socket is writable;
    after them datagrams are taken again, and nothing of this reaches the
    transport. *)
Theorem handshake_flushed st log t t' addr datagram answer packets final :
  tunnel st = Some t → wg_sock_addr st = Some addr → peer_enabled (Datagram (Some datagram)) st = true →
  decapsulate datagram t = (WriteToNetwork answer, t') → gives_out packets t' final →
  let w := starcast_peer_wait (Datagram (Some datagram)) (st, log) in
  let w' := peer_waits (replicate (S (length packets)) SocketWritable) w in
  (∀ d, peer_enabled (Datagram d) w.1 = false) ∧ peer_enabled SocketWritable w.1 = true ∧
  w'.2 = log ++ ((λ p, ToWireGuard p addr) <$> answer :: packets) ∧
  tunnel w'.1 = Some final ∧ (∀ d, peer_enabled (Datagram d) w'.1 = true).
Proof.
  intros Ht Ha He Hd Hg w w'.
  assert (w = (set_tunnel t' true st, log ++ [ToWireGuard answer addr])) as Hw
    by (unfold w, starcast_peer_wait; by rewrite Ht, Ha, Hd).
  assert (w' = (set_tunnel final false (set_tunnel t' true st),
    (log ++ [ToWireGuard answer addr]) ++ ((λ p, ToWireGuard p addr) <$> packets))) as Hw'
    by (unfold w'; rewrite Hw; by apply (peer_flush packets t')).
  rewrite Hw, Hw'. simpl. split_and!; [done|done| |done|done]. by rewrite <-app_assoc.
Qed.

(** A configuration, or an event on an enabled branch *)
Definition peer_op (w : StarcastPeerState * list PeerEffect) (op : VirtualPeerConfig + PeerEvent)
    : StarcastPeerState * list PeerEffect :=
  match op with
  | inl config => ((starcast_peer_configure config w.1).2, w.2)
  | inr ev => if peer_enabled ev w.1 then starcast_peer_wait ev w else w
  end.

Definition local_effect (ops : list (VirtualPeerConfig + PeerEvent)) (e : PeerEffect) : Prop :=
  match e with
  | ToWireGuard _ to => ∃ config, inl config ∈ ops ∧ to = loopback (config_wg_port config)
  | ToTransport packet =>
      ∃ datagram t, inr (Datagram (Some datagram)) ∈ ops ∧
        ((decapsulate datagram t).1 = WriteToTunnelV4 packet ∨ (decapsulate datagram t).1 = WriteToTunnelV6 packet)
  end.

Definition peer_local (start : StarcastPeerState) ops (w : StarcastPeerState * list PeerEffect) : Prop :=
  peer_secret_key w.1 = peer_secret_key start ∧ peer_allowed_ips w.1 = peer_allowed_ips start ∧
  (∀ to, wg_sock_addr w.1 = Some to → ∃ config, inl config ∈ ops ∧ to = loopback (config_wg_port config)) ∧
  Forall (local_effect ops) w.2.

Lemma peer_local_snoc start ops op w : peer_local start ops w → peer_local start (ops ++ [op]) w.
Proof.
  intros (? & ? & Hw & Hf). split_and!; [done..| |].
  - intros to Hto. destruct (Hw to Hto) as (config & ? & ?). exists config. set_solver.
  - eapply Forall_impl; [done|]. intros [p to|p]; simpl; set_solver.
Qed.

Lemma peer_local_effect start ops st log t present e : peer_local start ops (st, log) → local_effect ops e →
  peer_local start ops (set_tunnel t present st, log ++ [e]).
Proof. intros (? & ? & ? & ?) He. split_and!; [done..|]. apply Forall_app. by split; [|constructor]. Qed.

Lemma peer_local_op start ops w op : peer_local start ops w → peer_local start (ops ++ [op]) (peer_op w op).
Proof.
  intros Hl. pose proof (peer_local_snoc _ _ op _ Hl) as Hl'. destruct w as [st log], op as [config|ev]; simpl.
  - destruct Hl' as (Hk & Hi & Hw & Hf). unfold starcast_peer_configure.
    destruct (tunn_new _ _); (split_and!; [done..| |done]); simpl; intros to [= <-]; exists config; set_solver.
  - destruct (peer_enabled ev st); [|done]. destruct (tunnel st) as [t|] eqn:Ht; [|done].
    destruct (wg_sock_addr st) as [addr|] eqn:Ha; [|done].
    assert (∀ t' present, peer_local start (ops ++ [inr ev]) (set_tunnel t' present st, log)) as Hnone.
    { intros t' present. destruct Hl' as (? & ? & ? & ?). by split_and!. }
    assert (∀ t' present packet, peer_local start (ops ++ [inr ev]) (set_tunnel t' present st, log ++ [ToWireGuard packet addr])) as Hsend.
    { intros t' present packet. apply peer_local_effect; [done|]. destruct Hl' as (_ & _ & Hw & _). by apply Hw. }
    destruct ev as [|packet| |[datagram|]]; [| | | |done].
    + destruct (update_timers t) as [[] t']; auto.
    + destruct (encapsulate packet t) as [[] t']; auto.
    + destruct (decapsulate [] t) as [[] t']; auto.
    + destruct (decapsulate datagram t) as [[] t'] eqn:Hd; auto;
        (apply peer_local_effect; [done|]); exists datagram, t; rewrite Hd; (split; [set_solver|auto]).
Qed.

(** The virtual peer is local and keeps to itself.  After any sequence of
    configurations and events, every datagram it sent went to the loopback
    address at a port it was configured with, every packet it gave to the
    transport came out of its tunnel from a datagram, and its key and its allowed
    addresses are those it was started with. *)
Theorem virtual_peer_is_local port secret_key ipv6 ops :
  let start := starcast_peer_start port secret_key ipv6 in
  let '(st, log) := foldl peer_op (start, []) ops in
  peer_secret_key st = secret_key ∧ peer_allowed_ips st = peer_allowed_ips start ∧ Forall (local_effect ops) log.
Proof.
  intros start. assert (peer_local start ops (foldl peer_op (start, []) ops)) as Hl.
  { induction ops as [|op ops IH] using rev_ind; [by split_and!|]. rewrite foldl_snoc. by apply peer_local_op. }
  destruct (foldl peer_op (start, []) ops) as [st log]. destruct Hl as (? & ? & _ & ?). done.
Qed.
End virtual_peer.

(** ** Samples *)

Module TransportSamples.
Import AddrPrefix RfcViews StarcastSamples.

#[export] Instance sample_nets : IpNets := AddrPrefix.nets.

(** An address is in a network that it has the prefix of. *)
#[export] Instance contains : IpNetContains := λ n a,
  bool_decide (AddrPrefix.network n = AddrPrefix.network (mkNet a (prefix n))).

Definition always (log : list TransportEffect) (packet : bytes) (to : SocketAddr) : bool := true.

Definition started : TransportState assoc_map :=
  match transport_start true mapper (V4 (ipv4_addr 100 100 0 1)) with
  | Ok st => st
  | Err _ => mkTransportState None nat0 [] [] (V4 0) (mkExponentialBackoff backoff_bounds 0)
  end.

Definition asker : StarcastNode := mkStarcastNode (SocketAddrV4 0x64400002 13569) (mkPublicKey []) true true.

Definition configured : TransportState assoc_map :=
  transport_configure (Simple [(mkPublicKey [], V4 0x64400002, true, true)]) started.

Lemma configured_history : transport_history always mapper 0 [] (configured, []).
Proof. apply Transport_configure, (Transport_start _ _ _ true (V4 (ipv4_addr 100 100 0 1))). done. Qed.

Lemma transport_keeps_permissions_witness :
  ∃ st' new, transport_wait always false 10 (SocketPacket query) (configured, []) = Returns (st', [] ++ new) ∧
    Forall (permitted [] configured (SocketPacket query)) new ∧ transport_peers st' = transport_peers configured.
Proof.
  refine (transport_keeps_permissions always mapper 0 [] configured [] 10 false (SocketPacket query) _ _ _ _);
    [apply mapper_ok|apply configured_history|lia|by apply bytes_check].
Defined.

Lemma multicast_fan_out_witness :
  let nodes := filter (λ p, peer_allows_multicast p = true) (transport_peers configured) in
  length nodes = 1 ∧ ∃ results, length results = length nodes ∧
    handle_local_multicast_packet always query (configured, []) =
      (if forallb id results then Ok tt
       else Err (FanoutFailed ((λ x, node_key x.1) <$> filter (λ x, x.2 = false) (zip nodes results))),
       (configured, [] ++ ((λ x, SendTo query (node_addr x.1) x.2) <$> zip nodes results))).
Proof. split; [done|]. exact (multicast_fan_out always query configured [] _ eq_refl). Defined.

Definition query_result : result NatError StdIpAddr * bytes * StarcastNat assoc_map :=
  translate_incoming 10 query (transport_nat configured).

(** The query comes twice before it is answered. *)
Lemma multicast_query_answered_witness :
  ∃ src st1 st2 log2 r' st3 sent, udp_endpoints query = Some (src, SocketAddrV4 0xe00000fb 5353) ∧
    transport_wait always false 10 (SocketPacket query) (configured, []) = Returns (st1, [] ++ [Deliver query_result.1.2]) ∧
    transport_waits always [(15%Z, false, SocketPacket query)] (st1, [] ++ [Deliver query_result.1.2]) = Returns (st2, log2) ∧
    transport_wait always false 20 (PeerPacket answer) (st2, log2) = Returns (st3, log2 ++ [SendTo r' (node_addr asker) sent]) ∧
    udp_endpoints r' = Some (SocketAddrV4 0x64640001 5353, src).
Proof.
  refine (multicast_query_answered always mapper 0 [] configured [] (SocketAddrV4 (ipv4_addr 100 100 0 1) 13569) 10
    [(15%Z, false, SocketPacket query)] 20 false
    query (V4 0x64400002) query_result.1.2 query_result.2 asker (SocketAddrV4 0x64400005 40000) (SocketAddrV4 0xe00000fb 5353)
    answer (SocketAddrV4 0x64640001 5353) _ _ _ _ _ _ _ _ _ _ _ _ _ _ _);
    [apply mapper_ok|apply configured_history|done|lia|split_and!; [lia|by apply bytes_check|simpl; lia]|lia|simpl; lia|
     by apply bytes_check|by apply bytes_check|
     vm_compute; reflexivity|vm_compute; reflexivity|done|vm_compute; reflexivity|vm_compute; reflexivity|vm_compute; reflexivity].
Defined.

(** A tunnel that answers the datagram [1] with two packets *)
#[export] Instance toy_tunnels : Tunnels := {
  Tunn := list bytes;
  tunn_new _ _ := Some [];
  update_timers t := (TunnDone, t);
  encapsulate packet t := (WriteToNetwork packet, t);
  decapsulate datagram t :=
    match datagram, t with
    | [1%Z], _ => (WriteToNetwork [2%Z], [[3%Z]])
    | [], p :: t => (WriteToNetwork p, t)
    | _, _ => (TunnDone, t)
    end;
  dalek_public_key sk := mkPublicKey (secret_bytes sk)
}.

Definition peer_configured : StarcastPeerState :=
  (starcast_peer_configure (mkVirtualPeerConfig (mkPublicKey []) 51820)
     (starcast_peer_start 40001 (mkSecretKey []) true)).2.

Lemma handshake_flushed_witness :
  let w := starcast_peer_wait (Datagram (Some [1%Z])) (peer_configured, []) in
  let w' := peer_waits (replicate 2 SocketWritable) w in
  (∀ d, peer_enabled (Datagram d) w.1 = false) ∧ peer_enabled SocketWritable w.1 = true ∧
  w'.2 = [] ++ ((λ p, ToWireGuard p (loopback 51820)) <$> [[2%Z]; [3%Z]]) ∧
  tunnel w'.1 = Some ([] : list bytes) ∧ (∀ d, peer_enabled (Datagram d) w'.1 = true).
Proof.
  refine (handshake_flushed peer_configured [] [] [[3%Z]] (loopback 51820) [1%Z] [2%Z] [[3%Z]] [] _ _ _ _ _); try done.
Defined.
End TransportSamples.
