(* ===== verification/Relay.v ===== *)
(** * [telio-relay]: the connection to the relay servers

    [src/crates/telio-relay/src/derp.rs] and [derp/http.rs]: how a server is
    chosen and connected to, what a connection carries and when it ends.  The
    frames on the wire are in [Derp], the packets in [Proto].

    The task is a state and the effects it had, the latest last.  What the
    outside decides is an argument: the branch that [tokio::select!] takes,
    whether an attempt to connect succeeds, and the nonce that is drawn.  The
    task that connects in the background takes its own steps. *)

From stdpp Require Import strings.
From S2P Require Import Prelude NetTypes WgTypes Crypto NetText Proto Derp DeviceTypes.

(** ** Servers *)

(** [PartialEq for Server] *)
Definition server_eq (a b : Server) : bool :=
  bool_decide (region_code a = region_code b) && bool_decide (server_name a = server_name b) &&
  bool_decide (server_hostname a = server_hostname b) && bool_decide (server_ipv4 a = server_ipv4 b) &&
  bool_decide (relay_port a = relay_port b) && bool_decide (server_stun_port a = server_stun_port b) &&
  bool_decide (stun_plaintext_port a = stun_plaintext_port b) &&
  bool_decide (server_public_key a = server_public_key b) && bool_decide (use_plain_text a = use_plain_text b).

Definition with_conn_state (state : RelayState) (s : Server) : Server :=
  mkServer (region_code s) (server_name s) (server_hostname s) (server_ipv4 s) (relay_port s) (server_stun_port s)
    (stun_plaintext_port s) (server_public_key s) (weight s) (use_plain_text s) state.

(** [SortedServers] *)
Record SortedServers := mkSortedServers { servers : list Server; current_server_num : nat }.

(** [SortedServers::new] *)
Definition sorted_servers_new (l : list Server) : SortedServers := mkSortedServers (sorted_servers l) 0.

(** [SortedServers::get_next] *)
Definition get_next (s : SortedServers) : option Server * SortedServers :=
  if decide (current_server_num s < length (servers s))
  then (servers s !! current_server_num s, mkSortedServers (servers s) (S (current_server_num s)))
  else (None, s).

(** [SortedServers::contains] *)
Definition servers_contains (s : list Server) (server : Server) : bool := existsb (server_eq server) s.

(** [SortedServers::reset_server_index] *)
Definition reset_server_index (s : SortedServers) : SortedServers := mkSortedServers (servers s) 0.

(** [PartialEq for SortedServers], of the servers in order *)
Fixpoint servers_eq (a b : list Server) : bool :=
  match a, b with
  | [], [] => true
  | x :: a, y :: b => server_eq x y && servers_eq a b
  | _, _ => false
  end.

#[export] Instance DerpKeepaliveConfig_eq_dec : EqDecision DerpKeepaliveConfig.
Proof. solve_decision. Defined.

(** [PartialEq for Config] *)
Definition derp_config_eq (a b : DerpConfig) : bool :=
  bool_decide (derp_secret_key a = derp_secret_key b) && servers_eq (derp_sorted_servers a) (derp_sorted_servers b) &&
  bool_decide (derp_meshnet_peers a = derp_meshnet_peers b) && bool_decide (derp_timeout a = derp_timeout b) &&
  bool_decide (derp_server_keepalives a = derp_server_keepalives b) &&
  bool_decide (derp_enable_polling a = derp_enable_polling b) &&
  bool_decide (derp_built_in_root_certificates a = derp_built_in_root_certificates b).

Definition option_config_eq (a b : option DerpConfig) : bool :=
  match a, b with
  | Some a, Some b => derp_config_eq a b
  | None, None => true
  | _, _ => false
  end.

(** ** Encryption of what is relayed *)

Section encryption.
Context `{Ciphers}.

Definition NONCE_BEGIN_POS : nat := 1.

(** [DerpRelay::encrypt_if_needed], with the nonce that is drawn *)
Definition encrypt_if_needed (secret_key : SecretKey) (public_key : PublicKey) (nonce data : bytes) : option bytes :=
  match data with
  | [] => None
  | first :: _ =>
      match relayed_from first with
      | TData => Some data
      | _ =>
          let secret_box := chachabox_new public_key secret_key in
          cipher_text ← chachabox_encrypt secret_box nonce data;
          Some ([relayed_code TEncrypted] ++ nonce ++ cipher_text)
      end
  end.

(** [DerpRelay::decrypt_if_needed] *)
Definition decrypt_if_needed (secret_key : SecretKey) (public_key : PublicKey) (data : bytes) : option bytes :=
  match data with
  | [] => None
  | first :: _ =>
      match relayed_from first with
      | TData => Some data
      | TEncrypted =>
          nonce ← slice NONCE_BEGIN_POS NONCE_SIZE data;
          cipher_text ← slice_from (NONCE_BEGIN_POS + NONCE_SIZE) data;
          chachabox_decrypt (chachabox_new public_key secret_key) nonce cipher_text
      | _ => None
      end
  end.
End encryption.

(** ** Connecting *)

Inductive DerpVersion := DerpV1 | DerpV2.

Definition MAX_TCP_PACKET_SIZE : nat := Z.to_nat 65535.

(** [httparse::Response::parse], of the crate [httparse] *)
Inductive HttpStatus := HttpPartial | HttpComplete (len : nat) | HttpInvalid.
Class HttpParser := http_parse : bytes → HttpStatus.

(** The characters of a text, as bytes *)
Definition text_bytes (t : text) : bytes := (λ c, Z.of_N (Ascii.N_of_ascii c)) <$> t.
Definition crlf : bytes := [13; 10]%Z.
Definition line (l : bytes) : bytes := l ++ crlf.
Definition literal (s : string) : bytes := text_bytes (String.list_ascii_of_string s).
Definition request_number (n : Z) : bytes := text_bytes (print_number 10 10 n).

Section connecting.
Context `{Ciphers} `{HttpParser}.
(** [telio_utils::version_tag()] and [std::env::consts::OS] *)
Context (version_tag os : bytes).

(** The request of [connect_http] *)
Definition derp_request (server_keepalives : DerpKeepaliveConfig) (host : bytes) (v : DerpVersion) : bytes :=
  let common path :=
    line (literal "GET " ++ path ++ literal " HTTP/1.1") ++ line (literal "Host: " ++ host) ++
    line (literal "Connection: Upgrade") ++ line (literal "Upgrade: WebSocket") ++
    line (literal "User-Agent: telio/" ++ version_tag ++ literal " " ++ os) in
  match v with
  | DerpV2 =>
      common (literal "/v2/derp") ++ line (literal "Poll-Keepalive: " ++ request_number (config_derp_keepalive server_keepalives)) ++ crlf
  | DerpV1 =>
      common (literal "/derp") ++
      line (literal "Keep-Alive: tcp=" ++ request_number (config_tcp_keepalive server_keepalives) ++ literal ", derp=" ++
            request_number (config_derp_keepalive server_keepalives)) ++ crlf
  end.

(** [AsyncReadExt::read] to a buffer of [MAX_TCP_PACKET_SIZE] bytes: some of the
    bytes that arrive, none at the end of the stream *)
Definition read_some (chunk : nat) (r : Reader) : result Error (bytes * Reader) :=
  match rd_bytes r, rd_end r with
  | [], UnexpectedEof => Ok ([], r)
  | [], k => Err (IoError k)
  | b, k =>
      let n := Nat.min (S chunk) MAX_TCP_PACKET_SIZE in Ok (take n b, mkReader (drop n b) k)
  end.

(** [connect_http]: the response is parsed in the whole buffer, which is zero
    behind what was read. *)
Definition connect_http (chunk : nat) (server_keepalives : DerpKeepaliveConfig) (host : bytes) (v : DerpVersion)
    (r : Reader) (w : Writer) : result Error (bytes * Reader * Writer) :=
  let? w := write_all (derp_request server_keepalives host v) w in
  let? '(data, r) := read_some chunk r in
  match http_parse (data ++ replicate (MAX_TCP_PACKET_SIZE - length data) 0%Z) with
  | HttpInvalid => Err HttpParseError
  | HttpPartial => Err (IoError Other)
  | HttpComplete res_len =>
      if decide (res_len ≤ length data) then Ok (drop res_len data, r, w) else Err (IoError Other)
  end.

(** [connect_and_start]: the stream with which the tasks that read and write
    are started *)
Definition connect_and_start (chunk : nat) (nonce : bytes) (secret_key : SecretKey)
    (server_keepalives : DerpKeepaliveConfig) (host : bytes) (v : DerpVersion) (r : Reader) (w : Writer)
    : result Error (Reader * Writer) :=
  let? '(leftovers, r, w) := connect_http chunk server_keepalives host v r w in
  let r := mkReader (leftovers ++ rd_bytes r) (rd_end r) in
  let? '(r, w) := exchange_keys nonce secret_key r w in
  let? r := read_server_info r in
  Ok (r, w).

(** [connect_http_and_start] *)
Definition connect_http_and_start {C} (poll_keepalive : bool) (try_connect : DerpVersion → result Error C) : result Error C :=
  if poll_keepalive then
    match try_connect DerpV2 with
    | Ok connection => Ok connection
    | Err _ => try_connect DerpV1
    end
  else try_connect DerpV1.
End connecting.

(** [build_tcp_parameters], of what depends on the version *)
Definition use_tcp_keepalives (v : DerpVersion) : bool := match v with DerpV1 => true | DerpV2 => false end.

(** ** The task *)

(** A connection, as the key and the keepalives it was made with *)
Record DerpConnection := mkDerpConnection { conn_secret_key : SecretKey; conn_keepalives : DerpKeepaliveConfig }.

(** The loop of [start_connecting]; [sleep_time] in seconds *)
Record ConnectLoop := mkConnectLoop {
  loop_config : DerpConfig;
  loop_servers : SortedServers;
  sleep_time : Z;
  loop_reason : RelayConnectionChangeReason
}.

(** The handle of the spawned loop: running, finished, ended by a panic, or
    with its result taken, after which waiting for it panics *)
Inductive ConnectHandle :=
| Running (l : ConnectLoop)
| Connected (server : Server) (conn : DerpConnection)
| Crashed
| ResultTaken.

Inductive DerpEffect :=
| ServerChanged (s : Server)
| Analytics (s : Server) (reason : RelayConnectionChangeReason)
| Slept (seconds : Z)
| ConnectionStopped
| SentRelayed (pk : PublicKey) (data : bytes)
| SentToServer (data : bytes)
| Forwarded (pk : PublicKey) (msg : PacketRelayed).

Record DerpState := mkDerpState {
  derp_channel : bool;
  derp_current_config : option DerpConfig;
  derp_conn : option DerpConnection;
  derp_server : option Server;
  derp_poll_session : Session;
  remote_peers_states : gmap PublicKey bool;
  last_disconnection_reason : RelayConnectionChangeReason;
  connecting : option ConnectHandle
}.

Section task.
Context `{Ciphers} `{Messages} `{TextCodecs} `{!HashOrder PublicKey} `{!HashOrder text}.
Implicit Types (st : DerpState) (log : list DerpEffect).

(** [DerpRelay::start_with] *)
Definition derp_start : DerpState := mkDerpState true None None None 0 ∅ ConfigurationChange None.

Definition set_derp_config (c : option DerpConfig) st : DerpState :=
  mkDerpState (derp_channel st) c (derp_conn st) (derp_server st) (derp_poll_session st) (remote_peers_states st)
    (last_disconnection_reason st) (connecting st).
Definition set_connection (conn : option DerpConnection) (server : option Server) st : DerpState :=
  mkDerpState (derp_channel st) (derp_current_config st) conn server (derp_poll_session st) (remote_peers_states st)
    (last_disconnection_reason st) (connecting st).
Definition set_connecting (h : option ConnectHandle) st : DerpState :=
  mkDerpState (derp_channel st) (derp_current_config st) (derp_conn st) (derp_server st) (derp_poll_session st)
    (remote_peers_states st) (last_disconnection_reason st) h.
Definition set_reason (r : RelayConnectionChangeReason) st : DerpState :=
  mkDerpState (derp_channel st) (derp_current_config st) (derp_conn st) (derp_server st) (derp_poll_session st)
    (remote_peers_states st) r (connecting st).
Definition close_channel st : DerpState :=
  mkDerpState false (derp_current_config st) (derp_conn st) (derp_server st) (derp_poll_session st)
    (remote_peers_states st) (last_disconnection_reason st) (connecting st).
Definition set_poll (session : Session) (states : gmap PublicKey bool) st : DerpState :=
  mkDerpState (derp_channel st) (derp_current_config st) (derp_conn st) (derp_server st) session states
    (last_disconnection_reason st) (connecting st).

(** [State::disconnect]: the loop is aborted and waited for. *)
Definition derp_disconnect st log : outcome (DerpState * list DerpEffect) :=
  match connecting st with
  | Some ResultTaken => Panics
  | _ =>
      let log := match derp_conn st with Some _ => log ++ [ConnectionStopped] | None => log end in
      let log := match derp_server st with
                 | Some server => log ++ [ServerChanged (with_conn_state RelayDisconnected server)]
                 | None => log
                 end in
      Returns (set_connection None None (set_connecting None st), log)
  end.

(** [State::start_connecting] *)
Definition start_connecting (config : DerpConfig) st : ConnectHandle :=
  Running (mkConnectLoop config (mkSortedServers (derp_sorted_servers config) 0) 1 (last_disconnection_reason st)).

(** An iteration of the loop, with what an attempt to connect would give.  The
    timer of a connection that was made, [interval_at], panics if its period is
    zero. *)
Definition connect_iteration (aggregator : bool) (attempt : result Error unit) (l : ConnectLoop) log
    : ConnectHandle * list DerpEffect :=
  match get_next (loop_servers l) with
  | (None, _) =>
      (Running (mkConnectLoop (loop_config l) (reset_server_index (loop_servers l)) (Z.min (sleep_time l * 2) 60) (loop_reason l)),
       log ++ [Slept (sleep_time l)])
  | (Some server, rest) =>
      let server := with_conn_state RelayConnecting server in
      let log := log ++ [ServerChanged server] in
      let log := if aggregator then log ++ [Analytics server (loop_reason l)] else log in
      match attempt with
      | Ok _ =>
          if decide (config_derp_keepalive (derp_server_keepalives (loop_config l)) = 0)%Z then (Crashed, log) else
          let server := with_conn_state RelayConnected server in
          (Connected server (mkDerpConnection (derp_secret_key (loop_config l)) (derp_server_keepalives (loop_config l))),
           if aggregator then log ++ [Analytics server ConfigurationChange] else log)
      | Err err => (Running (mkConnectLoop (loop_config l) rest (sleep_time l) (change_reason err)), log)
      end
  end.

(** [DerpRelay::configure] *)
Definition derp_configure_task (config : option DerpConfig) st log : outcome (DerpState * list DerpEffect) :=
  if option_config_eq (derp_current_config st) config then Returns (st, log)
  else
    let st := set_derp_config config st in
    match config with
    | None => Returns (st, log)
    | Some config =>
        match derp_server st with
        | Some server =>
            if servers_contains (derp_sorted_servers config) server then Returns (st, log) else derp_disconnect st log
        | None => derp_disconnect st log
        end
    end.

(** The other actions: [get_config], [get_conn_state], [get_connected_server] and
    [get_remote_peer_states] read the state. *)
Inductive DerpUpdate := Configure (config : option DerpConfig) | Reconnect | ReadState.

Definition derp_update (u : DerpUpdate) st log : outcome (DerpState * list DerpEffect) :=
  match u with
  | Configure config => derp_configure_task config st log
  | Reconnect => derp_disconnect st log
  | ReadState => Returns (st, log)
  end.

(** [handle_outcoming_payload_relayed] *)
Definition handle_outcoming_payload_relayed (nonce : bytes) (pk : PublicKey) (msg : PacketRelayed) (config : DerpConfig) log
    : list DerpEffect :=
  match relayed_encode msg with
  | Ok buf =>
      match encrypt_if_needed (derp_secret_key config) pk nonce buf with
      | Some cipher_text => log ++ [SentRelayed pk cipher_text]
      | None => log
      end
  | Err _ => log
  end.

(** [handle_outcoming_payload_direct] *)
Definition handle_outcoming_payload_direct (msg : PacketControl) log : list DerpEffect :=
  match control_encode msg with Ok buf => log ++ [SentToServer buf] | Err _ => log end.

(** [handle_incoming_payload_relayed] *)
Definition handle_incoming_payload_relayed (pk : PublicKey) (buf : bytes) (config : DerpConfig) log : list DerpEffect :=
  if bool_decide (pk ∈ derp_meshnet_peers config) then
    match decrypt_if_needed (derp_secret_key config) pk buf with
    | Some plain_text =>
        match relayed_decode plain_text with
        | Ok msg => log ++ [Forwarded pk msg]
        | Err _ => log
        end
    | None => log
    end
  else log.

(** [handle_incoming_payload_direct] *)
Definition handle_incoming_payload_direct (expected_session : Session) (buf : bytes)
    : outcome (option (gmap PublicKey bool)) :=
  match control_decode buf with
  | Ok (PDerpPollResponse msg) =>
      if bool_decide (response_session msg ≠ expected_session) then Returns None
      else match get_peers_statuses msg with Returns m => Returns (Some m) | Panics => Panics end
  | Ok _ | Err _ => Returns None
  end.

(** The branches of the two [tokio::select!]; [JoinError] is a cancelled or
    panicked task. *)
Inductive JoinResult := JoinOk (r : result Error unit) | JoinError.

Inductive DerpBranch :=
| ConnJoin (err : JoinResult)
| UpperClosed
| RelaySenderClosed
| UpperPacket (nonce : bytes) (pk : PublicKey) (msg : PacketRelayed)
| PollTick
| FromRelay (pk : PublicKey) (buf : bytes)
| FromServer (buf : bytes)
| ConnectingDone
| Updated (u : DerpUpdate).

(** With a configuration and a connection *)
Definition wait_connected (config : DerpConfig) (b : DerpBranch) st log : outcome (DerpState * list DerpEffect) :=
  if negb (derp_channel st) then
    match b with Updated u => derp_update u st log | _ => Returns (st, log) end
  else
    let st := set_connecting None st in
    match b with
    | ConnJoin err =>
        let reason := match err with
                      | JoinOk (Ok _) => ConfigurationChange
                      | JoinOk (Err err) => change_reason err
                      | JoinError => ClientError
                      end in
        derp_disconnect (set_reason reason st) log
    | UpperPacket nonce pk msg => Returns (st, handle_outcoming_payload_relayed nonce pk msg config log)
    | UpperClosed => derp_disconnect (set_reason ClientError (close_channel st)) log
    | RelaySenderClosed => derp_disconnect (set_reason ClientError st) log
    | PollTick =>
        if derp_enable_polling config || config_poll_keepalive (derp_server_keepalives config) then
          let session := wrap 64 (derp_poll_session st + 1) in
          Returns (set_poll session (remote_peers_states st) st,
                   handle_outcoming_payload_direct (PDerpPollRequest (poll_request_new session (derp_meshnet_peers config))) log)
        else Returns (st, log)
    | FromRelay pk buf => Returns (st, handle_incoming_payload_relayed pk buf config log)
    | FromServer buf =>
        match handle_incoming_payload_direct (derp_poll_session st) buf with
        | Returns states => Returns (set_poll (derp_poll_session st) (default ∅ states) st, log)
        | Panics => Panics
        end
    | Updated u => derp_update u st log
    | ConnectingDone => Returns (st, log)
    end.

(** With a configuration and no connection *)
Definition wait_connecting (config : DerpConfig) (b : DerpBranch) st log : outcome (DerpState * list DerpEffect) :=
  if negb (derp_channel st) then
    match b with Updated u => derp_update u st log | _ => Returns (st, log) end
  else
    let st := match connecting st with
              | Some _ => st
              | None => set_connecting (Some (start_connecting config st)) st
              end in
    match b with
    | ConnectingDone =>
        match connecting st with
        | Some (Connected server conn) =>
            Returns (set_connection (Some conn) (Some server) (set_connecting (Some ResultTaken) st), log ++ [ServerChanged server])
        | Some Crashed => Returns (set_reason ClientError (set_connecting (Some ResultTaken) st), log)
        | Some ResultTaken => Panics
        | _ => Returns (st, log)
        end
    | Updated u => derp_update u st log
    | _ => Returns (st, log)
    end.

(** [Runtime::wait_with_update] *)
Definition derp_wait (b : DerpBranch) st log : outcome (DerpState * list DerpEffect) :=
  match derp_current_config st with
  | None =>
      match derp_disconnect st log with
      | Returns (st, log) => match b with Updated u => derp_update u st log | _ => Returns (st, log) end
      | Panics => Panics
      end
  | Some config =>
      match derp_conn st with
      | Some _ => wait_connected config b st log
      | None => wait_connecting config b st log
      end
  end.

(** [Runtime::stop] *)
Definition derp_stop st log : outcome (DerpState * list DerpEffect) := derp_disconnect st log.

(** A step of the loop in the background *)
Definition derp_background (aggregator : bool) (attempt : result Error unit) st log : DerpState * list DerpEffect :=
  match connecting st with
  | Some (Running l) => let '(h, log) := connect_iteration aggregator attempt l log in (set_connecting (Some h) st, log)
  | _ => (st, log)
  end.
End task.
