(* ===== verification/RelayProps.v ===== *)
(** * Theorems about the connection to the relay servers *)

From stdpp Require Import strings.
From S2P Require Import Prelude NetTypes WgTypes Crypto NetText Proto ProtoProps Derp DeviceTypes Relay.

(** ** Encryption between two nodes *)

Section relayed.
Context `{CiphersLaws} `{MessagesLaws} `{TextCodecs} `{!HashOrder PublicKey} `{!HashOrder text}.

Lemma encrypt_decrypt (a b : SecretKey) nonce data :
  data ≠ [] → length nonce = NONCE_SIZE → (Z.of_nat (length data) < 2 ^ 32)%Z →
  ∃ c, encrypt_if_needed a (secret_key_public b) nonce data = Some c ∧
       decrypt_if_needed b (secret_key_public a) c = Some data.
Proof.
  intros Hd Hn Hl. destruct data as [|first rest] eqn:E; [done|]. rewrite <-E in *.
  assert (encrypt_if_needed a (secret_key_public b) nonce data =
    if decide (relayed_from first = TData) then Some data else
      c ← chachabox_encrypt (chachabox_new (secret_key_public b) a) nonce data;
      Some ([relayed_code TEncrypted] ++ nonce ++ c)) as ->.
  { rewrite E. simpl. by destruct (relayed_from first). }
  case_decide as Ht.
  - exists data. split; [done|]. rewrite E. simpl. by rewrite Ht.
  - destruct (chachabox_encrypt_decrypt a b nonce data Hl) as (c & Hc & _ & Hdec). rewrite Hc.
    eexists. split; [done|]. set (e := [relayed_code TEncrypted]).
    assert (slice NONCE_BEGIN_POS NONCE_SIZE (e ++ nonce ++ c) = Some nonce) as Hs by (by apply slice_app).
    assert (slice_from (NONCE_BEGIN_POS + NONCE_SIZE) (e ++ nonce ++ c) = Some c) as Hf
      by (rewrite (assoc_L (++)); apply slice_from_app; rewrite length_app; simpl; unfold NONCE_BEGIN_POS; lia).
    assert (∀ rest, decrypt_if_needed b (secret_key_public a) (e ++ rest) =
      nonce ← slice NONCE_BEGIN_POS NONCE_SIZE (e ++ rest); c ← slice_from (NONCE_BEGIN_POS + NONCE_SIZE) (e ++ rest);
      chachabox_decrypt (chachabox_new (secret_key_public a) b) nonce c) as -> by done.
    rewrite Hs. cbn [mbind option_bind]. by rewrite Hf.
Qed.

(** Only data may come unencrypted. *)
Lemma decrypt_plain sk pk first rest : relayed_from first ≠ TData → relayed_from first ≠ TEncrypted →
  decrypt_if_needed sk pk (first :: rest) = None.
Proof. intros. simpl. by destruct (relayed_from first). Qed.

(** Packets reach the other node through a relay.  Whatever a node sends
    to another through its relay connection, the other forwards to its
    components as the same packet from the first one's key, if the configuration
    of the second has that key; everything but data is encrypted on the way.  A
    packet of a key that is not configured is dropped, and so is everything that
    is neither data nor encrypted. *)
Theorem relayed_roundtrip (sender receiver : DerpConfig) nonce p log log' :
  let from := secret_key_public (derp_secret_key sender) in
  let to := secret_key_public (derp_secret_key receiver) in
  relayed_ok p → length nonce = NONCE_SIZE →
  (∀ buf, relayed_encode p = Ok buf → Z.of_nat (length buf) < 2 ^ 32)%Z →
  ∃ data, handle_outcoming_payload_relayed nonce to p sender log = log ++ [SentRelayed to data] ∧
    (relayed_packet_type p ≠ TData → head data = Some (relayed_code TEncrypted)) ∧
    handle_incoming_payload_relayed from data receiver log' =
      (if bool_decide (from ∈ derp_meshnet_peers receiver) then log' ++ [Forwarded from p] else log') ∧
    (∀ pk first rest, relayed_from first ≠ TData → relayed_from first ≠ TEncrypted →
      handle_incoming_payload_relayed pk (first :: rest) receiver log' = log').
Proof.
  intros from to Hok Hn Hsmall. destruct (relayed_roundtrip_tagged p Hok) as (b & He & Hd).
  destruct (encrypt_decrypt (derp_secret_key sender) (derp_secret_key receiver) nonce (relayed_code (relayed_packet_type p) :: b))
    as (c & Hc & Hdec); [done|done|by apply Hsmall|].
  exists c. unfold handle_outcoming_payload_relayed, handle_incoming_payload_relayed. rewrite He. fold to in Hc. rewrite Hc.
  fold from in Hdec. rewrite Hdec, Hd. split_and!; [done| |done|].
  - intros Ht. simpl in Hc. rewrite relayed_from_code in Hc.
    destruct (relayed_packet_type p); try done; apply bind_Some in Hc as (x & _ & Hc); by simplify_eq.
  - intros pk first rest Hf1 Hf2. rewrite decrypt_plain by done. by case_bool_decide.
Qed.
End relayed.

(** ** The handshake *)

(** What [httparse] says of the head of a response: it is complete with its
    length, whatever follows, and not before its end. *)
Class HttpParserLaws (parse : bytes → HttpStatus) (is_head : bytes → Prop) : Prop := {
  parse_head head tail : is_head head → parse (head ++ tail) = HttpComplete (length head);
  parse_cut head n zeros : is_head head → n < length head →
    match parse (take n head ++ replicate zeros 0%Z) with HttpComplete _ => False | _ => True end
}.

Section handshake.
Context `{Ciphers} (parse : bytes → HttpStatus) (is_head : bytes → Prop) `{!HttpParserLaws parse is_head}.
Context (version_tag os host : bytes).

Lemma read_some_ok chunk b k : b ≠ [] →
  read_some chunk (mkReader b k) =
    Ok (take (Nat.min (S chunk) MAX_TCP_PACKET_SIZE) b, mkReader (drop (Nat.min (S chunk) MAX_TCP_PACKET_SIZE) b) k).
Proof. destruct b; [done|]. intros _. unfold read_some. by cbn [rd_bytes rd_end]. Qed.

(** A response that arrives in one piece, and one that does not *)
Lemma connect_http_ok chunk keepalives v head rest k w : is_head head → head ≠ [] → wr_broken w = None →
  let n := Nat.min (S chunk) MAX_TCP_PACKET_SIZE in
  @connect_http parse version_tag os chunk keepalives host v (mkReader (head ++ rest) k) w =
    if decide (length head ≤ n) then
      Ok (take (n - length head) rest, mkReader (drop (n - length head) rest) k,
          mkWriter (wr_bytes w ++ derp_request version_tag os keepalives host v) None)
    else Err (match parse (take n head ++ replicate (MAX_TCP_PACKET_SIZE - n) 0%Z) with HttpInvalid => HttpParseError | _ => IoError Other end).
Proof.
  intros Hh Hne Hw n. unfold connect_http, write_all. rewrite Hw. cbv beta iota.
  rewrite read_some_ok by (by destruct head). fold n. cbv beta iota. case_decide as Hn.
  - rewrite take_app_ge, drop_app_ge by lia. rewrite <-(assoc_L (++)). unfold http_parse. rewrite parse_head by done.
    rewrite decide_True by (rewrite length_app; lia). by rewrite drop_app_length.
  - rewrite take_app_le, length_take, Nat.min_l by lia.
    pose proof (parse_cut head n (MAX_TCP_PACKET_SIZE - n) Hh ltac:(lia)) as Hcut.
    unfold http_parse. by destruct (parse _).
Qed.

(** The handshake with a relay server.  If the server answers the request
    with a response, its key and its information, and the response's head
    arrives with the first read, the client has written the request and one
    client info frame with its key, and the tasks of the connection start at the
    byte behind the server information, however the bytes were cut into reads;
    if the first read ends within the head, the attempt fails. *)
Theorem relay_handshake chunk nonce sk keepalives v head key info rest k w c :
  is_head head → head ≠ [] → wr_broken w = None → length key = KEY_SIZE → small info →
  salsa_box_encrypt (mkPublicKey key) sk nonce client_info = Some c →
  small (key_bytes (secret_key_public sk) ++ nonce ++ c) →
  let r := mkReader (head ++ frame ServerKey (MAGIC ++ key) ++ frame ServerInfo info ++ rest) k in
  let result := @connect_and_start _ parse version_tag os chunk nonce sk keepalives host v r w in
  if decide (length head ≤ Nat.min (S chunk) MAX_TCP_PACKET_SIZE) then
    result = Ok (mkReader rest k,
      mkWriter (wr_bytes w ++ derp_request version_tag os keepalives host v ++
                frame ClientInfo (key_bytes (secret_key_public sk) ++ nonce ++ c)) None)
  else result = Err HttpParseError ∨ result = Err (IoError Other).
Proof.
  intros Hh Hne Hw Hk Hi Hc Hs r result. unfold result, connect_and_start, r. rewrite connect_http_ok by done.
  case_decide; [|by destruct (parse _); auto]. cbn [rd_bytes rd_end]. rewrite take_drop. unfold exchange_keys.
  rewrite read_server_key_frame by (unfold small; rewrite length_app, Hk; done).
  assert (server_key ServerKey (MAGIC ++ key) = Some (mkPublicKey key)) as ->.
  { unfold server_key. rewrite decide_True; [by rewrite drop_app_length|].
    by rewrite length_app, Hk, take_app_length. }
  cbv beta iota. unfold write_client_key. rewrite Hc, write_frame_small by done. cbv beta iota.
  unfold read_server_info. rewrite read_frame_frame by done. cbv beta iota. rewrite decide_False by auto. cbn [wr_bytes]. by rewrite <-(assoc_L (++)).
Qed.
End handshake.

(** ** Choosing a server *)

Lemma omap_snoc {A B} (f : A → option B) l x :
  omap f (l ++ [x]) = omap f l ++ match f x with Some y => [y] | None => [] end.
Proof. rewrite omap_app. simpl. by destruct (f x). Qed.

Section choosing.
Implicit Types (log : list DerpEffect).

(** The loop, on attempts that it makes one after the other; what is left of
    it when they are used up *)
Fixpoint connect_loop (aggregator : bool) (attempts : list (result Error unit)) (fuel : nat) (l : ConnectLoop) log
    : ConnectHandle * list DerpEffect :=
  match fuel with
  | O => (Running l, log)
  | S fuel =>
      if decide (current_server_num (loop_servers l) < length (servers (loop_servers l))) then
        match attempts with
        | [] => (Running l, log)
        | attempt :: attempts =>
            match connect_iteration aggregator attempt l log with
            | (Running l, log) => connect_loop aggregator attempts fuel l log
            | r => r
            end
        end
      else
        match connect_iteration aggregator (Ok tt) l log with
        | (Running l, log) => connect_loop aggregator attempts fuel l log
        | r => r
        end
  end.

(** The servers that were tried, and the times slept *)
Definition tried (log : list DerpEffect) : list Server :=
  omap (λ e, match e with ServerChanged s => Some s | _ => None end) log.
Definition slept (log : list DerpEffect) : list Z :=
  omap (λ e, match e with Slept t => Some t | _ => None end) log.

Definition backoff_time (j : nat) : Z := Z.min (2 ^ Z.of_nat j) 60.

Lemma backoff_time_S j : backoff_time (S j) = Z.min (backoff_time j * 2) 60.
Proof. unfold backoff_time. rewrite Nat2Z.inj_succ, Z.pow_succ_r by lia. lia. Qed.

(** What an accepted connection gives *)
Definition connected_to (config : DerpConfig) (s : Server) : ConnectHandle :=
  if decide (config_derp_keepalive (derp_server_keepalives config) = 0)%Z then Crashed
  else Connected (with_conn_state RelayConnected s) (mkDerpConnection (derp_secret_key config) (derp_server_keepalives config)).

(** The effects of an attempt on a server *)
Lemma connect_iteration_try aggregator attempt config srv i j reason log s :
  srv !! i = Some s →
  ∃ log', connect_iteration aggregator attempt (mkConnectLoop config (mkSortedServers srv i) j reason) log =
      (match attempt with
       | Ok _ => connected_to config s
       | Err err => Running (mkConnectLoop config (mkSortedServers srv (S i)) j (change_reason err))
       end, log') ∧
    tried log' = tried log ++ [with_conn_state RelayConnecting s] ∧ slept log' = slept log.
Proof.
  intros Hs. unfold connect_iteration, get_next. simpl. rewrite decide_True by (by eapply lookup_lt_Some). rewrite Hs.
  unfold connected_to. destruct attempt, aggregator; try case_decide; (eexists; split; [done|]); unfold tried, slept; rewrite !omap_snoc; simpl; by rewrite ?app_nil_r.
Qed.

(** The servers of the attempts from the [p]th on *)
Definition round_robin (srv : list Server) (p k : nat) : list Server :=
  omap (λ j, with_conn_state RelayConnecting <$> srv !! (j `mod` length srv)) (seq p k).

(** The result of a loop that succeeds at the attempt after the next [k], when
    the list was exhausted [q] times and [i] of its servers tried since *)
Definition connects (config : DerpConfig) (srv : list Server) (q i k : nat) log (r : ConnectHandle * list DerpEffect) : Prop :=
  let n := length srv in let p := q * n + i in
  ∃ s log', r = (connected_to config s, log') ∧
    srv !! ((p + k) `mod` n) = Some s ∧ tried log' = tried log ++ round_robin srv p (S k) ∧
    slept log' = slept log ++ (backoff_time <$> seq q ((p + k) / n - q)).

Lemma round_robin_S srv q i k s : srv !! i = Some s →
  round_robin srv (q * length srv + i) (S k) =
    with_conn_state RelayConnecting s :: round_robin srv (q * length srv + S i) k.
Proof.
  intros Hs. unfold round_robin. cbn [seq omap list_omap].
  rewrite (Nat.add_comm (q * _)), Nat.Div0.mod_add, Nat.mod_small by (by eapply lookup_lt_Some).
  rewrite Hs. simpl. by rewrite Nat.add_succ_r, (Nat.add_comm i).
Qed.

Lemma connects_now config srv q i log log' s : srv !! i = Some s →
  tried log' = tried log ++ [with_conn_state RelayConnecting s] → slept log' = slept log →
  connects config srv q i 0 log (connected_to config s, log').
Proof.
  intros Hs Ht Hl. pose proof (lookup_lt_Some _ _ _ Hs) as Hi. exists s, log'. split; [done|].
  rewrite Nat.add_0_r, (Nat.add_comm _ i), Nat.Div0.mod_add, Nat.mod_small by done. split; [done|].
  rewrite (Nat.add_comm i), (round_robin_S _ _ _ _ s Hs), Ht, Hl. split; [done|].
  rewrite Nat.div_add_l by lia. rewrite Nat.div_small, Nat.add_0_r, Nat.sub_diag by lia. simpl. by rewrite app_nil_r.
Qed.

Lemma connects_later config srv q i k log log' s r : srv !! i = Some s →
  tried log' = tried log ++ [with_conn_state RelayConnecting s] → slept log' = slept log →
  connects config srv q (S i) k log' r → connects config srv q i (S k) log r.
Proof.
  intros Hs Ht Hl (s' & log'' & -> & Hs' & Ht' & Hl'). exists s', log''. split; [done|].
  rewrite (round_robin_S _ _ _ _ s Hs). rewrite Nat.add_succ_r in Hs', Hl'. simpl in Hs', Hl'.
  rewrite Nat.add_succ_r. split_and!; [done| |by rewrite <-Hl]. by rewrite Ht', Ht, <-app_assoc.
Qed.

Lemma connects_exhausted config srv q k log r : srv ≠ [] →
  connects config srv (S q) 0 k (log ++ [Slept (backoff_time q)]) r → connects config srv q (length srv) k log r.
Proof.
  intros Hne (s & log' & -> & Hs & Ht & Hl). exists s, log'. split; [done|].
  replace (S q * length srv + 0) with (q * length srv + length srv) in * by lia.
  split; [done|]. assert (tried (log ++ [Slept (backoff_time q)]) = tried log) as Ht1
    by (unfold tried; rewrite omap_snoc; by rewrite app_nil_r).
  assert (slept (log ++ [Slept (backoff_time q)]) = slept log ++ [backoff_time q]) as Hl1
    by (unfold slept; by rewrite omap_snoc).
  rewrite Ht, Ht1. split; [done|]. rewrite Hl, Hl1, <-app_assoc. f_equal.
  assert (0 < length srv) as Hn by (destruct srv; [done|simpl; lia]).
  assert (S q ≤ (q * length srv + length srv + k) / length srv) as Hd.
  { apply Nat.div_le_lower_bound; lia. }
  replace ((q * length srv + length srv + k) / length srv - q)
    with (S ((q * length srv + length srv + k) / length srv - S q)) by lia. done.
Qed.

Abbreviation run_loop aggregator errs config srv q i reason fuel :=
  (connect_loop aggregator ((Err <$> errs) ++ [Ok tt]) fuel (mkConnectLoop config (mkSortedServers srv i) (backoff_time q) reason)).

Lemma run_loop_try aggregator errs config srv q i reason log fuel : i < length srv →
  (∀ e errs' log1, errs = e :: errs' →
    connects config srv q (S i) (length errs') log1 (run_loop aggregator errs' config srv q (S i) (change_reason e) fuel log1)) →
  connects config srv q i (length errs) log (run_loop aggregator errs config srv q i reason (S fuel) log).
Proof.
  intros Hi Hnext. destruct (lookup_lt_is_Some_2 srv i Hi) as [s Hs]. cbn [connect_loop]. rewrite decide_True by done.
  destruct errs as [|e errs]; cbn [fmap list_fmap app].
  - destruct (connect_iteration_try aggregator (Ok tt) config srv i (backoff_time q) reason log s Hs) as (log' & -> & Ht & Hl).
    pose proof (connects_now config srv q i log log' s Hs Ht Hl) as Hc. unfold connected_to in *. by case_decide.
  - destruct (connect_iteration_try aggregator (Err e) config srv i (backoff_time q) reason log s Hs) as (log' & -> & Ht & Hl).
    eapply connects_later; [done..|]. by apply Hnext.
Qed.

Lemma run_loop_sleep aggregator errs config srv q reason log fuel : srv ≠ [] →
  connects config srv (S q) 0 (length errs) (log ++ [Slept (backoff_time q)])
    (run_loop aggregator errs config srv (S q) 0 reason fuel (log ++ [Slept (backoff_time q)])) →
  connects config srv q (length srv) (length errs) log (run_loop aggregator errs config srv q (length srv) reason (S fuel) log).
Proof.
  intros Hne Hc. apply connects_exhausted; [done|]. cbn [connect_loop]. rewrite decide_False by (simpl; lia).
  unfold connect_iteration, get_next. cbn [loop_servers servers current_server_num]. rewrite decide_False by lia.
  rewrite backoff_time_S in Hc. exact Hc.
Qed.

Lemma run_loop_connects aggregator errs config srv q i reason log fuel :
  srv ≠ [] → i ≤ length srv → 2 * length errs + 1 + (if decide (i < length srv) then 0 else 1) ≤ fuel →
  connects config srv q i (length errs) log (run_loop aggregator errs config srv q i reason fuel log).
Proof.
  intros Hne. assert (0 < length srv) as Hn by (destruct srv; [done|simpl; lia]).
  revert q i reason log fuel. induction errs as [|e errs IH]; intros q i reason log fuel Hi Hfuel.
  - case_decide.
    + destruct fuel as [|fuel]; [simpl in *; lia|]. by apply run_loop_try.
    + assert (i = length srv) as -> by lia. destruct fuel as [|[|fuel]]; [simpl in *; lia..|].
      apply run_loop_sleep; [done|]. by apply run_loop_try.
  - assert (∀ q i reason log fuel, i < length srv → 2 * length errs + 2 ≤ fuel →
      connects config srv q i (length (e :: errs)) log (run_loop aggregator (e :: errs) config srv q i reason (S fuel) log)) as Hin.
    { intros q' i' reason' log' fuel' Hi' Hf'. apply run_loop_try; [done|]. intros e' errs' log1 [= <- <-].
      apply IH; [lia|]. destruct (decide (S i' < length srv)); lia. }
    simpl length in Hfuel. case_decide.
    + destruct fuel as [|fuel]; [lia|]. apply Hin; lia.
    + assert (i = length srv) as -> by lia. destruct fuel as [|[|fuel]]; [lia..|].
      apply run_loop_sleep; [done|]. apply Hin; lia.
Qed.

(** *** The order of the servers *)

Lemma insert_server_perm s l : insert_server s l ≡ₚ s :: l.
Proof.
  induction l as [|t l IH]; simpl; [done|]. case_match; [done|]. rewrite IH. apply Permutation_swap.
Qed.

Lemma insert_server_sorted s l :
  StronglySorted (λ a b, weight a <= weight b)%Z l → StronglySorted (λ a b, weight a <= weight b)%Z (insert_server s l).
Proof.
  induction 1 as [|t l Hs IH Hf]; simpl; [by repeat constructor|]. destruct (Z.leb_spec (weight s) (weight t)).
  - constructor; [by constructor|]. constructor; [done|]. eapply Forall_impl; [done|]. simpl. lia.
  - constructor; [done|]. rewrite insert_server_perm. constructor; [lia|done].
Qed.

Lemma sorted_servers_spec l :
  sorted_servers l ≡ₚ l ∧ StronglySorted (λ a b, weight a <= weight b)%Z (sorted_servers l).
Proof.
  induction l as [|s l [IHp IHs]]; simpl; [by repeat constructor|]. split.
  - by rewrite insert_server_perm, IHp.
  - by apply insert_server_sorted.
Qed.

(** C27: the relay task connects as soon as a server accepts it, when it has
    servers and a keepalive interval other than zero.  If the attempts fail [k] times and the next one succeeds, the loop ends, connected
    with the key of its configuration; it tries the servers by increasing
    weight, over and over, and after the [j]th round without success it sleeps
    for 2^j seconds, but never for more than a minute. *)
Theorem relay_connects aggregator errs config l reason log fuel :
  derp_sorted_servers config = sorted_servers l → l ≠ [] → 2 * length errs + 1 ≤ fuel →
  config_derp_keepalive (derp_server_keepalives config) ≠ 0%Z →
  let srv := sorted_servers l in let k := length errs in
  srv ≡ₚ l ∧ StronglySorted (λ a b, weight a <= weight b)%Z srv ∧
  ∃ s log', connect_loop aggregator ((Err <$> errs) ++ [Ok tt]) fuel
      (mkConnectLoop config (sorted_servers_new l) 1 reason) log =
    (Connected (with_conn_state RelayConnected s) (mkDerpConnection (derp_secret_key config) (derp_server_keepalives config)), log') ∧
  srv !! (k `mod` length srv) = Some s ∧
  tried log' = tried log ++ round_robin srv 0 (S k) ∧
  slept log' = slept log ++ (backoff_time <$> seq 0 (k / length srv)).
Proof.
  intros Hc Hne Hfuel Hka srv k. destruct (sorted_servers_spec l) as [Hp Hs]. split_and!; [done..|].
  assert (srv ≠ []) as Hne'.
  { intros He. apply Hne, Permutation_nil_r. unfold srv in He. by rewrite <-Hp, He. }
  assert (0 < length srv) as Hn by (destruct srv; [done|simpl; lia]).
  destruct (run_loop_connects aggregator errs config srv 0 0 reason log fuel) as (s & log' & Hr & Hl & Ht & Hsl);
    [done|lia|rewrite decide_True by done; lia|].
  exists s, log'. unfold connected_to in Hr. rewrite decide_False in Hr by done.
  split; [exact Hr|]. simpl in Hl, Ht, Hsl. by rewrite Nat.sub_0_r in Hsl.
Qed.
End choosing.

(** ** The life of a connection *)

Section life.
Context `{Ciphers} `{Messages} `{TextCodecs} `{!HashOrder PublicKey} `{!HashOrder text}.
Implicit Types (st : DerpState) (log : list DerpEffect).

(** Histories of the task and of the loop in the background.  [crashed] tells
    whether a loop ended by a panic. *)
Definition is_crashed (h : option ConnectHandle) : bool := match h with Some Crashed => true | _ => false end.

Inductive derp_history : bool → DerpState → list DerpEffect → Prop :=
| Derp_start : derp_history false derp_start []
| Derp_wait crashed st log b st' log' :
    derp_history crashed st log → derp_wait b st log = Returns (st', log') → derp_history crashed st' log'
| Derp_background crashed st log aggregator attempt :
    derp_history crashed st log →
    derp_history (crashed || is_crashed (connecting (derp_background aggregator attempt st log).1))
      (derp_background aggregator attempt st log).1 (derp_background aggregator attempt st log).2.

(** What an observer of the events knows: nothing, the server that is tried, or
    the server that is connected *)
Inductive Observed := Idle | Trying (s : Server) | Up (s : Server).

Definition observe (o : Observed) (e : DerpEffect) : option Observed :=
  match e with
  | ServerChanged s =>
      match conn_state s, o with
      | RelayConnecting, (Idle | Trying _) => Some (Trying s)
      | RelayConnected, Trying s' => if decide (s = with_conn_state RelayConnected s') then Some (Up s) else None
      | RelayDisconnected, Up s' => if decide (s = with_conn_state RelayDisconnected s') then Some Idle else None
      | _, _ => None
      end
  | _ => Some o
  end.

Fixpoint observe_all (o : Observed) (log : list DerpEffect) : option Observed :=
  match log with
  | [] => Some o
  | e :: log => o ← observe o e; observe_all o log
  end.

Lemma observe_all_snoc o log e : observe_all o (log ++ [e]) = o ← observe_all o log; observe o e.
Proof.
  revert o. induction log as [|e' log IH]; intros o; simpl; [by destruct (observe o e)|].
  destruct (observe o e'); simpl; [apply IH|done].
Qed.

(** The state and the events agree. *)
Record derp_ok (crashed : bool) st (o : Observed) : Prop := {
  ok_server : derp_server st = match o with Up s => Some s | _ => None end;
  ok_conn : is_Some (derp_conn st) ↔ is_Some (derp_server st);
  ok_connecting :
    match connecting st with
    | Some (Running _) => derp_server st = None
    | Some (Connected s _) => ∃ s', o = Trying s' ∧ s = with_conn_state RelayConnected s'
    | Some Crashed => derp_server st = None ∧ crashed = true
    | Some ResultTaken =>
        crashed = true ∨ is_Some (derp_server st) ∧ derp_channel st = true ∧ is_Some (derp_current_config st)
    | None => True
    end
}.

Definition derp_agrees (crashed : bool) (r : DerpState * list DerpEffect) : Prop :=
  ∃ o, observe_all Idle r.2 = Some o ∧ derp_ok crashed r.1 o.

(** A result that keeps the agreement, and a panic only after a crash *)
Definition derp_keeps (crashed : bool) (r : outcome (DerpState * list DerpEffect)) : Prop :=
  match r with Returns r => derp_agrees crashed r | Panics => crashed = true end.

(** Between two branches the handle has been polled to its end only after a crash. *)
Definition settled (crashed : bool) (r : DerpState * list DerpEffect) : Prop :=
  derp_agrees crashed r ∧ (connecting r.1 = Some ResultTaken → crashed = true).

Lemma settled_state crashed st st' log : settled crashed (st, log) →
  derp_server st' = derp_server st → derp_conn st' = derp_conn st → connecting st' = connecting st →
  settled crashed (st', log).
Proof.
  intros [(o & Hlog & [Hs Hc Hn]) Hr] E1 E2 E3. cbn [fst snd] in *. split; [|by cbn [fst]; rewrite E3].
  exists o. split; [done|]. split; cbn [fst snd]; rewrite ?E1, ?E2, ?E3; [done..|].
  destruct (connecting st) as [[]|]; try done. left. by apply Hr.
Qed.

Lemma settled_forget crashed st log : derp_agrees crashed (st, log) → settled crashed (set_connecting None st, log).
Proof. intros (o & Hlog & [Hs Hc _]). split; [|done]. exists o. split; [done|]. by constructor. Qed.

(** Effects that are no events of the server *)
Definition unreported log log' : Prop := ∀ o, observe_all o log' = observe_all o log.

Lemma quiet_snoc log e : (∀ s, e ≠ ServerChanged s) → unreported log (log ++ [e]).
Proof.
  intros He o. rewrite observe_all_snoc. destruct (observe_all o log); [|done]. destruct e; try done.
  by destruct (He s).
Qed.

Lemma settled_quiet crashed st log log' : unreported log log' → settled crashed (st, log) → settled crashed (st, log').
Proof. intros Hq [(o & Hlog & Hok) Hr]. split; [|done]. exists o. cbn [snd]. by rewrite Hq. Qed.

Lemma outcoming_quiet nonce pk msg config log : unreported log (handle_outcoming_payload_relayed nonce pk msg config log).
Proof. unfold handle_outcoming_payload_relayed. repeat case_match; try done; by apply quiet_snoc. Qed.

Lemma outcoming_direct_quiet msg log : unreported log (handle_outcoming_payload_direct msg log).
Proof. unfold handle_outcoming_payload_direct. case_match; [by apply quiet_snoc|done]. Qed.

Lemma incoming_quiet pk buf config log : unreported log (handle_incoming_payload_relayed pk buf config log).
Proof. unfold handle_incoming_payload_relayed. repeat case_match; try done; by apply quiet_snoc. Qed.

Lemma disconnect_keeps crashed st log : settled crashed (st, log) → derp_keeps crashed (derp_disconnect st log).
Proof.
  intros [(o & Hlog & [Hs Hc _]) Hr]. cbn [fst snd] in *. unfold derp_disconnect.
  assert (derp_keeps crashed
    (Returns (set_connection None None (set_connecting None st),
      match derp_server st with
      | Some server => match derp_conn st with Some _ => log ++ [ConnectionStopped] | None => log end
                         ++ [ServerChanged (with_conn_state RelayDisconnected server)]
      | None => match derp_conn st with Some _ => log ++ [ConnectionStopped] | None => log end
      end))) as Hk; [|by destruct (connecting st) as [[]|]; try done; apply Hr].
  destruct o as [|s|s]; rewrite Hs in *.
  1,2: destruct (derp_conn st); [by destruct (proj1 Hc ltac:(eauto))|]; eexists; split; [exact Hlog|]; constructor; try done; by split; intros [].
  destruct (derp_conn st); [|by destruct (proj2 Hc ltac:(eauto))]. exists Idle. split; [|constructor; try done; by split; intros []].
  cbn [snd]. rewrite !observe_all_snoc, Hlog. cbn. by rewrite decide_True.
Qed.

Lemma update_keeps crashed u st log : settled crashed (st, log) → derp_keeps crashed (derp_update u st log).
Proof.
  intros Hst. destruct u as [config| |]; cbn [derp_update]; [|by apply disconnect_keeps|by destruct Hst].
  unfold derp_configure_task. case_match; [by destruct Hst|].
  assert (settled crashed (set_derp_config config st, log)) as Hst' by by eapply settled_state.
  destruct config; [|by destruct Hst']. repeat case_match; try by apply disconnect_keeps. by destruct Hst'.
Qed.

(** A branch keeps the agreement; it panics after a crash, or on the text of a
    key in what the server sent. *)
Definition branch_keeps (crashed : bool) (b : DerpBranch) (session : Session) (r : outcome (DerpState * list DerpEffect)) : Prop :=
  match r with
  | Returns r => derp_agrees crashed r
  | Panics => crashed = true ∨ ∃ buf, b = FromServer buf ∧ handle_incoming_payload_direct session buf = Panics
  end.

Lemma keeps_branch crashed b session r : derp_keeps crashed r → branch_keeps crashed b session r.
Proof. destruct r; [done|by left]. Qed.

Lemma settled_keeps crashed r : settled crashed r → derp_keeps crashed (Returns r).
Proof. by intros []. Qed.

Lemma connected_keeps crashed config b st log : derp_agrees crashed (st, log) → is_Some (derp_conn st) →
  (connecting st = Some ResultTaken → derp_channel st = false → crashed = true) →
  branch_keeps crashed b (derp_poll_session st) (wait_connected config b st log).
Proof.
  intros Hst Hc Hr. unfold wait_connected. destruct (derp_channel st) eqn:Ech; cbn [negb].
  2: { destruct b; try exact Hst. apply keeps_branch, update_keeps. split; [done|]. by intros; apply Hr. }
  apply settled_forget in Hst. destruct b as [err| | |nonce pk msg| |pk buf|buf| |u].
  1,2,3: apply keeps_branch, disconnect_keeps; by eapply settled_state.
  4: { destruct (handle_incoming_payload_direct _ _) eqn:E; [|right; eauto]. apply (settled_keeps crashed), (settled_state _ _ _ _ Hst); done. }
  - apply keeps_branch, settled_keeps, (settled_quiet _ _ log); [apply outcoming_quiet|done].
  - case_match; [|by apply keeps_branch, settled_keeps].
    apply keeps_branch, settled_keeps, (settled_quiet _ _ log); [apply outcoming_direct_quiet|]. by eapply settled_state.
  - apply keeps_branch, settled_keeps, (settled_quiet _ _ log); [apply incoming_quiet|done].
  - by apply keeps_branch, settled_keeps.
  - by apply keeps_branch, update_keeps.
Qed.

Lemma connecting_started crashed st log config : settled crashed (st, log) → derp_server st = None →
  settled crashed (match connecting st with
                   | Some _ => st
                   | None => set_connecting (Some (start_connecting config st)) st
                   end, log).
Proof.
  intros Hst Hs. destruct (connecting st) eqn:E; [done|].
  destruct Hst as [(o & Hlog & [Ho Hc _]) _]. split; [|done]. exists o. split; [done|]. by constructor.
Qed.

Lemma connecting_keeps crashed config b st log : settled crashed (st, log) → derp_conn st = None →
  derp_current_config st = Some config →
  branch_keeps crashed b (derp_poll_session st) (wait_connecting config b st log).
Proof.
  intros Hst Hconn Hcfg. unfold wait_connecting. destruct (derp_channel st) eqn:Ech; cbn [negb].
  2: { destruct b; try (by destruct Hst). by apply keeps_branch, update_keeps. }
  assert (derp_server st = None) as Hs.
  { destruct Hst as [(o & _ & [_ [_ Hc] _]) _]. cbn in Hc. destruct (derp_server st); [|done].
    rewrite Hconn in Hc. by destruct (Hc ltac:(eauto)). }
  apply (connecting_started _ _ _ config) in Hst; [|done].
  remember (match connecting st with Some _ => _ | None => _ end) as st1 eqn:Est.
  assert (derp_channel st1 = true ∧ derp_current_config st1 = Some config ∧ derp_server st1 = None) as (Hch & Hcf & Hs1)
    by (rewrite Est; by destruct (connecting st)).
  clear Est Ech. destruct b; try (by destruct Hst); [|by apply keeps_branch, update_keeps].
  destruct Hst as [(o & Hlog & [Ho Hiff Hn]) Hr]. cbn [fst snd] in *.
  destruct (connecting st1) as [[l|s conn| |]|] eqn:Ec; [|..|by left; apply Hr|].
  1,4: exists o; split; [done|]; constructor; cbn [fst]; rewrite ?Ec; done.
  - destruct Hn as (s' & -> & ->). exists (Up (with_conn_state RelayConnected s')). split.
    { cbn [snd]. rewrite observe_all_snoc, Hlog. cbn. by rewrite decide_True. }
    constructor; [done|cbn; by split; eauto|]. right. cbn. rewrite Hch, Hcf. eauto.
  - destruct Hn as [_ ->]. exists o. split; [done|]. constructor; [done|done|by left].
Qed.

Lemma wait_keeps crashed b st log : derp_agrees crashed (st, log) → branch_keeps crashed b (derp_poll_session st) (derp_wait b st log).
Proof.
  intros Hst. assert (is_Some (derp_conn st) ∧ derp_channel st = true ∧ is_Some (derp_current_config st)
                      ∨ settled crashed (st, log)) as Hr.
  { destruct Hst as (o & Hlog & [Ho Hiff Hn]). cbn [fst snd] in *.
    assert (connecting st = Some ResultTaken ∨ connecting st ≠ Some ResultTaken) as [Ec|]
      by (destruct (connecting st) as [[]|]; auto); [|right; by split; [exists o|]].
    rewrite Ec in Hn. destruct Hn as [->|(Hs & Hn)]; [|left; by rewrite Hiff].
    right. split; [|done]. exists o. split; [done|]. constructor; cbn [fst]; rewrite ?Ec; auto. }
  unfold derp_wait. destruct (derp_current_config st) as [config|] eqn:Ecf.
  - destruct (derp_conn st) eqn:Econ.
    + apply connected_keeps; rewrite ?Econ; [done|eauto|]. intros Ec Ech.
      destruct Hr as [(_ & Hch & _)|[_ Hr]]; [congruence|by apply Hr].
    + apply connecting_keeps; [|done..]. by destruct Hr as [([] & _)|].
  - destruct Hr as [(_ & _ & [])|Hr]; [done|].
    pose proof (disconnect_keeps crashed st log Hr) as Hk.
    destruct (derp_disconnect st log) as [[st' log']|] eqn:Ed; [|by left]. cbn in Hk.
    assert (settled crashed (st', log')) as Hst'.
    { split; [done|]. unfold derp_disconnect in Ed. by destruct (connecting st) as [[]|]; simplify_eq. }
    destruct b; try done. by apply keeps_branch, update_keeps.
Qed.

Lemma agrees_crashed crashed c r : derp_agrees crashed r → derp_agrees (crashed || c) r.
Proof.
  intros (o & Hlog & [Ho Hiff Hn]). exists o. split; [done|]. constructor; [done..|].
  destruct (connecting r.1) as [[]|]; try done; [by destruct Hn as [? ->]|by destruct Hn as [->|]; auto].
Qed.

Lemma iteration_agrees crashed aggregator attempt l st log : derp_agrees crashed (st, log) →
  connecting st = Some (Running l) →
  let r := connect_iteration aggregator attempt l log in
  derp_agrees (crashed || is_crashed (Some r.1)) (set_connecting (Some r.1) st, r.2).
Proof.
  intros (o & Hlog & [Ho Hiff Hn]) Ec. cbn [fst snd] in *. rewrite Ec in Hn. unfold connect_iteration.
  destruct (get_next (loop_servers l)) as [[s|] rest].
  - assert (∀ h, match h with
                 | Connected s' _ => s' = with_conn_state RelayConnected (with_conn_state RelayConnecting s)
                 | ResultTaken => False
                 | _ => True
                 end → ∀ log', unreported (log ++ [ServerChanged (with_conn_state RelayConnecting s)]) log' →
      derp_agrees (crashed || is_crashed (Some h)) (set_connecting (Some h) st, log')) as Hh.
    { intros h Hh log' Hq. exists (Trying (with_conn_state RelayConnecting s)). split.
      - cbn [snd]. rewrite Hq, observe_all_snoc, Hlog. by destruct o; cbn; [..|congruence].
      - constructor; [done|done|]. cbn. destruct h; [done|eauto|split; [done|apply orb_true_r]|done]. }
    destruct attempt, aggregator; try case_decide; cbn [fst snd]; apply Hh; try done; intros o';
      by repeat (etrans; [by apply quiet_snoc|]).
  - exists o. cbn [fst snd]. split; [by rewrite quiet_snoc|]. by constructor.
Qed.

Lemma history_agrees crashed st log : derp_history crashed st log → derp_agrees crashed (st, log).
Proof.
  induction 1 as [|crashed st log b st' log' _ IH Hw|crashed st log aggregator attempt _ IH].
  - exists Idle. split; [done|]. constructor; [done| |done]. by split; intros [].
  - pose proof (wait_keeps crashed b st log IH) as Hk. by rewrite Hw in Hk.
  - rewrite <- surjective_pairing. unfold derp_background.
    destruct (connecting st) as [[l| | |]|] eqn:Ec; try by apply agrees_crashed.
    pose proof (iteration_agrees _ aggregator attempt l st log IH Ec) as Hk.
    by destruct (connect_iteration aggregator attempt l log).
Qed.

(** What the server has to send for the task to panic: the response to the last
    request that names a peer by 44 characters of base64 for more bytes than a key
    has *)
Definition oversized_key (session : Session) (buf : bytes) : Prop :=
  ∃ msg peer key, control_decode buf = Ok (PDerpPollResponse msg) ∧ response_session msg = session ∧
    peer ∈ dom (poll_peer_states (response_msg msg)) ∧
    length peer = 44 ∧ base64_decode peer = Some key ∧ KEY_SIZE < length key.

Lemma parse_key_panics s : parse_key s = Panics →
  length s = 44 ∧ ∃ key, base64_decode s = Some key ∧ KEY_SIZE < length key.
Proof.
  unfold parse_key, key_from_str. destruct (decide (length s = 64)).
  { destruct (hex_decode s); [|done]. by case_decide. }
  destruct (decide (length s = 44)); [|done]. destruct (base64_decode s) as [key|]; [|done].
  case_decide; [done|]. intros _. split; [done|]. exists key. split; [done|lia].
Qed.

Lemma get_peers_statuses_panics m : get_peers_statuses m = Panics →
  ∃ peer, peer ∈ hash_iter (dom (poll_peer_states (response_msg m))) ∧ parse_key peer = Panics.
Proof.
  unfold get_peers_statuses. generalize (∅ : gmap PublicKey bool).
  induction (hash_iter (dom (poll_peer_states (response_msg m)))) as [|peer l IH]; intros acc; simpl; [done|].
  destruct (parse_key peer) as [[pk|]|] eqn:E; [destruct (_ !! peer)| |]; intros Hp; [..|exists peer; set_solver].
  all: apply IH in Hp as (p & ? & ?); exists p; set_solver.
Qed.

Lemma payload_direct_panics `{!HashOrderLaws text} session buf :
  handle_incoming_payload_direct session buf = Panics → oversized_key session buf.
Proof.
  unfold handle_incoming_payload_direct. destruct (control_decode buf) as [[]|] eqn:E; try done.
  case_bool_decide as Hs; [done|]. destruct (get_peers_statuses _) eqn:Eg; [done|]. intros _.
  apply get_peers_statuses_panics in Eg as (peer & Hin%elem_of_hash_iter & (? & key & ? & ?)%parse_key_panics).
  by eexists _, peer, key.
Qed.

(** C11: the events of the relay follow its protocol in every history of the task
    and of its connecting loop: servers are reported as connecting one after the
    other, a server is reported as connected only if it is the one reported last
    as connecting, and as disconnected only if it is connected; the task has a
    connection and a current server exactly when the last report says connected,
    with that very server.  As long as no connecting loop has panicked, the only
    branch of the task that panics is the one that receives the response of the
    server to the last request, when it names a peer by 44 characters of base64 for
    more bytes than a key has. *)
Theorem relay_events_protocol `{!HashOrderLaws text} crashed st log : derp_history crashed st log →
  ∃ o, observe_all Idle log = Some o ∧
    derp_server st = match o with Up s => Some s | _ => None end ∧
    (is_Some (derp_conn st) ↔ is_Some (derp_server st)) ∧
    (crashed = false → ∀ b, derp_wait b st log = Panics →
      ∃ buf, b = FromServer buf ∧ oversized_key (derp_poll_session st) buf).
Proof.
  intros Hh. destruct (history_agrees _ _ _ Hh) as (o & Hlog & Hok). exists o. split; [done|].
  split; [apply Hok|]. split; [apply Hok|]. intros -> b Hp.
  pose proof (wait_keeps false b st log (ex_intro _ o (conj Hlog Hok))) as Hk. rewrite Hp in Hk.
  destruct Hk as [|(buf & -> & Hd)]; [done|]. exists buf. split; [done|]. by apply payload_direct_panics.
Qed.

(** A new secret key does not reach the connection.  A connected task that
    is configured with another secret key and still has its server in the list
    keeps the connection, which the server knows under the old key, while it
    encrypts what it sends there with the new one. *)
Theorem key_change_keeps_connection config config' conn server st log nonce pk msg :
  derp_current_config st = Some config → derp_conn st = Some conn → derp_server st = Some server →
  derp_channel st = true → connecting st = None →
  conn_secret_key conn = derp_secret_key config → derp_secret_key config' ≠ derp_secret_key config →
  servers_contains (derp_sorted_servers config') server = true →
  let st' := set_derp_config (Some config') st in
  derp_wait (Updated (Configure (Some config'))) st log = Returns (st', log) ∧
  derp_conn st' = Some conn ∧ conn_secret_key conn ≠ derp_secret_key config' ∧
  derp_wait (UpperPacket nonce pk msg) st' log = Returns (st', handle_outcoming_payload_relayed nonce pk msg config' log).
Proof.
  intros Hcf Hconn Hsrv Hch Hn Hkey Hne Hin st'. destruct st as [ch cf cn sv ps rs dr ct]. cbn in *. subst.
  split_and!; [|done|congruence|done].
  cbn. unfold derp_configure_task. cbn. unfold derp_config_eq.
  rewrite (bool_decide_eq_false_2 (derp_secret_key config = _)) by congruence. cbn. by rewrite Hin.
Qed.

(** What a poll response does to the states of the remote peers.  The
    response to the last request replaces the states by its own; every other
    control message, such as the response to an earlier request, forgets them
    all. *)
Theorem poll_response_sets_states config buf r st log :
  derp_current_config st = Some config → is_Some (derp_conn st) → derp_channel st = true →
  handle_incoming_payload_direct (derp_poll_session st) buf = Returns r →
  (∃ st', derp_wait (FromServer buf) st log = Returns (st', log) ∧ remote_peers_states st' = default ∅ r) ∧
  (∀ msg, control_decode buf = Ok (PDerpPollResponse msg) → response_session msg = derp_poll_session st →
     ∃ states, get_peers_statuses msg = Returns states ∧ r = Some states) ∧
  ((∀ msg, control_decode buf = Ok (PDerpPollResponse msg) → response_session msg ≠ derp_poll_session st) → r = None).
Proof.
  intros Hcf [conn Hconn] Hch Hr. split_and!.
  - unfold derp_wait, wait_connected. rewrite Hcf, Hconn, Hch. cbn [negb].
    change (derp_poll_session (set_connecting None st)) with (derp_poll_session st). rewrite Hr. eexists. by split.
  - intros msg Hd Hs. unfold handle_incoming_payload_direct in Hr. rewrite Hd, bool_decide_eq_false_2 in Hr by auto.
    destruct (get_peers_statuses msg); simplify_eq. eauto.
  - intros Hno. unfold handle_incoming_payload_direct in Hr. repeat case_match; simplify_eq; try done.
    case_bool_decide as Hs; simplify_eq. by destruct (Hno _ eq_refl).
Qed.

(** A keepalive interval of zero ends the relay task.  When a server accepts
    the connection, the timer for the polls panics in the connecting loop; the
    task keeps the handle of the loop that it has already polled to its end, so
    that the next poll of it, a reconnection and stopping the task panic, too. *)
Theorem zero_keepalive_panics config s rest :
  config_derp_keepalive (derp_server_keepalives config) = 0%Z → derp_sorted_servers config = s :: rest →
  ∃ st log, derp_history true st log ∧ derp_current_config st = Some config ∧
    tried log = [with_conn_state RelayConnecting s] ∧
    derp_wait ConnectingDone st log = Panics ∧ derp_wait (Updated Reconnect) st log = Panics ∧ derp_stop st log = Panics.
Proof.
  intros Hka Hs. set (st1 := set_derp_config (Some config) derp_start).
  set (st2 := set_connecting (Some (start_connecting config st1)) st1).
  assert (derp_background false (Ok tt) st2 [] =
    (set_connecting (Some Crashed) st2, [ServerChanged (with_conn_state RelayConnecting s)])) as Hb.
  { unfold derp_background, st2. cbn [connecting set_connecting start_connecting]. unfold connect_iteration, get_next.
    cbn [loop_servers servers current_server_num loop_config]. rewrite Hs. rewrite decide_True by (simpl; lia).
    change ((s :: rest) !! 0) with (Some s). cbv beta iota zeta. by rewrite decide_True. }
  exists (set_reason ClientError (set_connecting (Some ResultTaken) st2)), [ServerChanged (with_conn_state RelayConnecting s)].
  split; [|done]. eapply (Derp_wait _ (set_connecting (Some Crashed) st2) _ ConnectingDone); [|done].
  assert (derp_history false st2 []) as Hh.
  { eapply (Derp_wait _ st1 _ (Updated ReadState)); [|done].
    eapply (Derp_wait _ derp_start _ (Updated (Configure (Some config)))); [constructor|done]. }
  pose proof (Derp_background _ _ _ false (Ok tt) Hh) as Hc. by rewrite Hb in Hc.
Qed.
End life.

Module RelaySamples.

#[local] Existing Instance ToyCrypto.ToyCiphers.
#[local] Existing Instance ToyCrypto.ToyCiphers_laws.
#[local] Existing Instance CountablePb.messages.
#[local] Existing Instance CountablePb.messages_laws.
#[local] Existing Instance Rfc4648.codecs.
#[local] Existing Instance elements_order.
#[local] Existing Instance elements_order_laws.

Definition relay_server (name : string) (w : Z) : Server :=
  mkServer "" name "relay" (ipv4_addr 10 0 0 1) 8765 3478 3479 (mkPublicKey (replicate 32 w)) w false RelayDisconnected.
Definition near : Server := relay_server "near" 1.
Definition far : Server := relay_server "far" 9.
Definition keepalives : DerpKeepaliveConfig := mkDerpKeepaliveConfig 15 60 true.
Definition relay_config (sk other : SecretKey) : DerpConfig :=
  mkDerpConfig sk (sorted_servers [far; near]) {[secret_key_public other]} (from_secs 10) keepalives true false.
Definition alice_config : DerpConfig := relay_config CryptoSamples.alice CryptoSamples.bob.
Definition bob_config : DerpConfig := relay_config CryptoSamples.bob CryptoSamples.alice.

Lemma relayed_roundtrip_witness :
  ∃ data, handle_outcoming_payload_relayed (replicate 24 1%Z) (secret_key_public CryptoSamples.bob)
      (PUpgrade ProtoSamples.upgrade) alice_config [] = [SentRelayed (secret_key_public CryptoSamples.bob) data] ∧
    handle_incoming_payload_relayed (secret_key_public CryptoSamples.alice) data bob_config [] =
      [Forwarded (secret_key_public CryptoSamples.alice) (PUpgrade ProtoSamples.upgrade)].
Proof.
  destruct (relayed_roundtrip alice_config bob_config (replicate 24 1%Z) (PUpgrade ProtoSamples.upgrade) [] [])
    as (data & Hsent & _ & Hrec & _).
  - by repeat split.
  - done.
  - intros buf Hb. assert ((Z.of_nat (length buf) <? 2 ^ 32)%Z = true) as Hl; [|by apply Z.ltb_lt in Hl].
    assert (match relayed_encode (PUpgrade ProtoSamples.upgrade) with
            | Ok b => (Z.of_nat (length b) <? 2 ^ 32)%Z | Err _ => false end = true) as Hx by (vm_compute; reflexivity).
    by rewrite Hb in Hx.
  - exists data. split; [exact Hsent|].
    rewrite bool_decide_eq_true_2 in Hrec; [exact Hrec|]. apply (bool_decide_unpack _). vm_compute. exact I.
Defined.

Definition response : bytes := literal "HTTP/1.1 101 Switching" ++ crlf ++ crlf.
Definition parse_response (b : bytes) : HttpStatus :=
  if decide (take (length response) b = response) then HttpComplete (length response) else HttpPartial.

#[local] Instance parse_response_laws : HttpParserLaws parse_response (eq response).
Proof.
  split.
  - intros head tail <-. unfold parse_response. by rewrite take_app_length, decide_True.
  - intros head n zeros <- Hn. unfold parse_response. case_decide as E; [|done].
    assert (Forall (λ x, x ≠ 0%Z) response) as Hnz by (apply (bool_decide_unpack _); vm_compute; exact I).
    destruct (lookup_lt_is_Some_2 response n Hn) as [x Hx].
    pose proof (Forall_lookup_1 _ _ _ _ Hnz Hx) as Hx0. rewrite <-E, lookup_take_lt in Hx by done.
    rewrite lookup_app_r in Hx by (rewrite length_take; lia).
    apply lookup_replicate in Hx as [-> _]. done.
Qed.

Lemma relay_handshake_witness :
  let sent := response ++ frame ServerKey (MAGIC ++ replicate 32 5%Z) ++ frame ServerInfo [] ++ [7]%Z in
  let start chunk := @connect_and_start _ parse_response [] [] chunk (replicate 24 1%Z) CryptoSamples.alice keepalives
    (literal "relay") DerpV2 (mkReader sent UnexpectedEof) (mkWriter [] None) in
  (∃ w, start 1000 = Ok (mkReader [7]%Z UnexpectedEof, w) ∧ start 29 = Ok (mkReader [7]%Z UnexpectedEof, w)) ∧
  (start 5 = Err HttpParseError ∨ start 5 = Err (IoError Other)).
Proof.
  intros sent start.
  assert (small (key_bytes (secret_key_public CryptoSamples.alice) ++ replicate 24 1%Z ++
    client_info ++ ToyCrypto.tag (ToyCrypto.mul (secret_bytes CryptoSamples.alice) (replicate 32 5%Z)) (replicate 24 1%Z))) as Hsm.
  { unfold small. rewrite !length_app, ToyCrypto.length_tag. simpl length. unfold TAG_SIZE. lia. }
  pose proof (λ chunk, relay_handshake parse_response (eq response) [] [] (literal "relay") chunk (replicate 24 1%Z)
    CryptoSamples.alice keepalives DerpV2 response (replicate 32 5%Z) [] [7]%Z UnexpectedEof (mkWriter [] None) _
    eq_refl ltac:(done) eq_refl eq_refl ltac:(done) eq_refl Hsm) as Hs.
  cbv zeta in Hs. unfold start, sent. split; [eexists; split|].
  - specialize (Hs 1000). rewrite decide_True in Hs by (apply (bool_decide_unpack _); vm_compute; exact I). exact Hs.
  - specialize (Hs 29). rewrite decide_True in Hs by (apply (bool_decide_unpack _); vm_compute; exact I). exact Hs.
  - specialize (Hs 5). rewrite decide_False in Hs by (apply (bool_decide_unpack _); vm_compute; exact I). exact Hs.
Defined.

Lemma relay_connects_witness :
  let '(h, log) := connect_loop false ((Err <$> [IoError Other; IoError TimedOut; IoError Other]) ++ [Ok tt]) 7
      (mkConnectLoop alice_config (sorted_servers_new [far; near]) 1 ConfigurationChange) [] in
  h = Connected (with_conn_state RelayConnected far) (mkDerpConnection CryptoSamples.alice keepalives) ∧
  server_name <$> tried log = ["near"; "far"; "near"; "far"] ∧ slept log = [1]%Z.
Proof.
  destruct (relay_connects false [IoError Other; IoError TimedOut; IoError Other] alice_config [far; near]
    ConfigurationChange [] 7) as (_ & _ & s & log & Hrun & Hs & Ht & Hsl); [done|done|simpl; lia|done|].
  rewrite Hrun, Ht, Hsl. vm_compute in Hs. simplify_eq. split_and!; [done|vm_compute; reflexivity|vm_compute; reflexivity].
Defined.

(** Connected to the nearest server *)
Definition run_branches (bs : list DerpBranch) (r : DerpState * list DerpEffect) : outcome (DerpState * list DerpEffect) :=
  foldl (λ r b, match r with Returns (st, log) => derp_wait b st log | Panics => Panics end) (Returns r) bs.

Definition trying : DerpState :=
  set_connecting (Some (start_connecting alice_config derp_start)) (set_derp_config (Some alice_config) derp_start).
Definition attempted : DerpState * list DerpEffect := derp_background false (Ok tt) trying [].
Definition near_conn : DerpConnection := mkDerpConnection CryptoSamples.alice keepalives.
Definition relay_up : DerpState :=
  mkDerpState true (Some alice_config) (Some near_conn) (Some (with_conn_state RelayConnected near)) 0 ∅
    ConfigurationChange (Some ResultTaken).
Definition up_log : list DerpEffect :=
  [ServerChanged (with_conn_state RelayConnecting near); ServerChanged (with_conn_state RelayConnected near)].

Lemma relay_up_history : derp_history false relay_up up_log.
Proof.
  eapply (Derp_wait _ attempted.1 attempted.2 ConnectingDone); [|reflexivity].
  apply (Derp_background false trying [] false (Ok tt)).
  eapply (Derp_wait _ (set_derp_config (Some alice_config) derp_start) [] (Updated ReadState)); [|reflexivity].
  eapply (Derp_wait _ derp_start [] (Updated (Configure (Some alice_config)))); [constructor|reflexivity].
Qed.

Lemma relay_events_protocol_witness :
  observe_all Idle up_log = Some (Up (with_conn_state RelayConnected near)) ∧
  derp_wait (Updated Reconnect) relay_up up_log ≠ Panics.
Proof.
  destruct (relay_events_protocol false relay_up up_log relay_up_history) as (o & Ho & Hs & _ & Hp). split.
  - rewrite Ho. destruct o; simplify_eq/=. done.
  - intros E. by destruct (Hp eq_refl _ E) as (buf & ? & _).
Defined.

Definition relay_polling : DerpState := set_connecting None relay_up.

Lemma key_change_keeps_connection_witness :
  derp_wait (Updated (Configure (Some bob_config))) relay_polling up_log =
    Returns (set_derp_config (Some bob_config) relay_polling, up_log) ∧
  conn_secret_key near_conn ≠ derp_secret_key bob_config.
Proof.
  destruct (key_change_keeps_connection alice_config bob_config near_conn (with_conn_state RelayConnected near)
    relay_polling up_log [] (secret_key_public CryptoSamples.bob) (PUpgrade ProtoSamples.upgrade)) as (Hw & _ & Hk & _);
    try reflexivity; [|by split].
  apply (bool_decide_unpack _). vm_compute. exact I.
Defined.

Definition zero_config : DerpConfig :=
  mkDerpConfig CryptoSamples.alice [near] ∅ (from_secs 10) (mkDerpKeepaliveConfig 15 0 false) false false.

Lemma zero_keepalive_panics_witness :
  ∃ st log, derp_history true st log ∧ derp_wait (Updated Reconnect) st log = Panics.
Proof.
  destruct (zero_keepalive_panics zero_config near [] eq_refl eq_refl) as (st & log & Hh & _ & _ & _ & Hp & _).
  exists st, log. by split.
Defined.

(** The states after the response to an earlier poll *)
Definition peers_known : DerpState := set_poll 2 {[secret_key_public CryptoSamples.bob := true]} relay_polling.
Definition stale_response : bytes :=
  match control_encode (PDerpPollResponse (poll_response_new 1 {[secret_key_public CryptoSamples.bob := true]})) with
  | Ok b => b
  | Err _ => []
  end.

Lemma poll_response_sets_states_witness :
  ∃ st', derp_wait (FromServer stale_response) peers_known up_log = Returns (st', up_log) ∧ remote_peers_states st' = ∅.
Proof.
  destruct (poll_response_sets_states alice_config stale_response None peers_known up_log) as (Hst & _ & _).
  - reflexivity.
  - by eexists.
  - reflexivity.
  - vm_compute. reflexivity.
  - exact Hst.
Defined.
End RelaySamples.
