(* ===== verification/Aggregator.v ===== *)
(** * The connectivity data of the node's connections

    The aggregator of telio-nurse (aggregator.rs): it turns the events about
    peers and relay servers to segments, each the time a connection lasted in
    one way with the bytes transferred in it, which the heartbeat collects.  The
    lock of the aggregator makes each operation atomic.  The theorems compare the
    segments of a peer with what an observer of the same operations counts, and
    show what a reset of the byte counters does to them. *)

From S2P Require Import Prelude NetTypes WgTypes Derp DeviceTypes.

(** ** Data *)

(** [RelayConnectionState] *)
Inductive RelayConnectionState := SegConnecting | SegConnected.
Definition relay_connection_state_code (s : RelayConnectionState) : Z :=
  match s with SegConnecting => 256 | SegConnected => 257 end.

(** [From<RelayState> for RelayConnectionState] *)
Definition relay_connection_state (value : RelayState) : RelayConnectionState :=
  match value with RelayConnected => SegConnected | _ => SegConnecting end.

(** [aggregator::EndpointType] *)
Inductive SegEndpointType := EpRelay | EpLocal | EpStun | EpUPnP.
Definition seg_endpoint_code (e : SegEndpointType) : Z :=
  match e with EpRelay => 0 | EpLocal => 1 | EpStun => 2 | EpUPnP => 3 end.

(** [From<EndpointProvider> for EndpointType] *)
Definition seg_endpoint_type (value : EndpointType) : SegEndpointType :=
  match value with Local => EpLocal | Stun => EpStun | Upnp => EpUPnP end.

Record PeerEndpointTypes := mkPeerEndpointTypes { seg_local_ep : SegEndpointType; seg_remote_ep : SegEndpointType }.
Record PeerConnectionData := mkPeerConnectionData {
  data_endpoints : PeerEndpointTypes;
  data_rx_bytes : Z;
  data_tx_bytes : Z
}.

#[export] Instance SegEndpointType_eq_dec : EqDecision SegEndpointType.
Proof. solve_decision. Defined.
#[export] Instance PeerEndpointTypes_eq_dec : EqDecision PeerEndpointTypes.
Proof. solve_decision. Defined.

Definition ENDPOINT_BIT_FIELD_WIDTH : Z := 4.

(** [Serialize for PeerConnectionData]: the elements of the tuple *)
Definition peer_connection_fields (d : PeerConnectionData) : list Z :=
  let initiator_repr := seg_endpoint_code (seg_local_ep (data_endpoints d)) in
  let responder_repr := seg_endpoint_code (seg_remote_ep (data_endpoints d)) in
  let strategy_id := wrap 16 (Z.shiftl initiator_repr ENDPOINT_BIT_FIELD_WIDTH + responder_repr) in
  [strategy_id; data_rx_bytes d; data_tx_bytes d].

Record RelayConnectionData := mkRelayConnectionData {
  relay_data_state : RelayConnectionState;
  relay_data_reason : RelayConnectionChangeReason
}.

(** [io_err as u64], the numbers of [std::io::ErrorKind] *)
Class IoErrorCodes := io_error_code : ErrorKind → Z.

(** [From<RelayConnectionChangeReason> for u64] *)
Definition change_reason_code `{IoErrorCodes} (reason : RelayConnectionChangeReason) : Z :=
  match reason with
  | ConfigurationChange => 0
  | DisabledByUser => 101
  | ClientError => 102
  | ReasonIoError io_err => 200 + io_error_code io_err
  end.

(** [Serialize for RelayConnectionData] *)
Definition relay_connection_fields `{IoErrorCodes} (d : RelayConnectionData) : list Z :=
  [relay_connection_state_code (relay_data_state d); change_reason_code (relay_data_reason d)].

(** [telio_model::config::DerpAnalyticsEvent] *)
Record DerpAnalyticsEvent := mkDerpAnalyticsEvent {
  derp_event_address : SocketAddr;
  derp_event_state : RelayState;
  derp_event_reason : RelayConnectionChangeReason;
  derp_event_timestamp : Instant
}.

(** [DerpAnalyticsEvent::new] *)
Definition derp_analytics_event (now : Instant) (server : Server) (reason : RelayConnectionChangeReason) : DerpAnalyticsEvent :=
  mkDerpAnalyticsEvent (SocketAddrV4 (server_ipv4 server) (relay_port server)) (conn_state server) reason now.

(** [Duration::as_secs] and [Duration::as_millis] *)
Definition as_secs (d : Duration) : Z := d / 1000000000.
Definition as_millis (d : Duration) : Z := d / 1000000.

(** [Instant::duration_since], which saturates *)
Definition duration_since (later earlier : Instant) : Duration := Z.max 0 (later - earlier).

Record RelayConnDataSegment := mkRelayConnDataSegment {
  relay_seg_address : SocketAddr;
  relay_seg_start : Instant;
  relay_seg_duration : Duration;
  relay_seg_data : RelayConnectionData
}.

(** [RelayConnDataSegment::new] *)
Definition relay_segment_new (event : DerpAnalyticsEvent) (target_timestamp : Instant) : RelayConnDataSegment :=
  mkRelayConnDataSegment (derp_event_address event) (derp_event_timestamp event)
    (duration_since target_timestamp (derp_event_timestamp event))
    (mkRelayConnectionData (relay_connection_state (derp_event_state event)) (derp_event_reason event)).

Record PeerConnDataSegment := mkPeerConnDataSegment {
  seg_node : PublicKey;
  seg_start : Instant;
  seg_duration : Duration;
  seg_data : PeerConnectionData
}.

(** [PeerConnDataSegment::new]; without overflow checks, as in release builds,
    the differences of the counters wrap around. *)
Definition peer_segment_new (peer_event : AnalyticsEvent) (endpoints : PeerEndpointTypes)
    (target_timestamp : Instant) (target_rx_bytes target_tx_bytes : Z) : PeerConnDataSegment :=
  mkPeerConnDataSegment (ae_public_key peer_event) (ae_timestamp peer_event)
    (duration_since target_timestamp (ae_timestamp peer_event))
    (mkPeerConnectionData endpoints (wrap 64 (target_rx_bytes - ae_rx_bytes peer_event))
       (wrap 64 (target_tx_bytes - ae_tx_bytes peer_event))).

Record AggregatorData := mkAggregatorData {
  current_relay_event : option DerpAnalyticsEvent;
  current_peer_events : gmap PublicKey (AnalyticsEvent * PeerEndpointTypes);
  peer_segments : list PeerConnDataSegment;
  relay_segments : list RelayConnDataSegment;
  agg_local_key : PublicKey
}.

Record AggregatorConfig := mkAggregatorConfig {
  relay_events : bool;
  nat_traversal_events : bool;
  state_duration_cap : Duration
}.

(** [AggregatorConfig::new], of the features that it reads *)
Definition aggregator_config_new (enable_relay_conn_data enable_nat_traversal_conn_data : bool) (cap_secs : Z) : AggregatorConfig :=
  mkAggregatorConfig enable_relay_conn_data enable_nat_traversal_conn_data (from_secs cap_secs).

(** [ConnectivityDataAggregator::new] *)
Definition aggregator_new (local_key : PublicKey) : AggregatorData := mkAggregatorData None ∅ [] [] local_key.

(** ** Operations *)

Definition with_relay (e : option DerpAnalyticsEvent) (l : list RelayConnDataSegment) (d : AggregatorData) : AggregatorData :=
  mkAggregatorData e (current_peer_events d) (peer_segments d) l (agg_local_key d).
Definition with_peers (m : gmap PublicKey (AnalyticsEvent * PeerEndpointTypes)) (l : list PeerConnDataSegment)
    (d : AggregatorData) : AggregatorData :=
  mkAggregatorData (current_relay_event d) m l (relay_segments d) (agg_local_key d).

(** [sort_by], which is stable, with the start of a segment *)
Fixpoint insert_by {A} (start : A → Instant) (x : A) (l : list A) : list A :=
  match l with
  | [] => [x]
  | y :: l' => if (start x <=? start y)%Z then x :: l else y :: insert_by start x l'
  end.
Definition sort_by {A} (start : A → Instant) (l : list A) : list A := foldr (insert_by start) [] l.

Section aggregator.
Context `{IpNets} (config : AggregatorConfig) `{!HashOrder PublicKey}.
Implicit Types (d : AggregatorData).

(** [report_peer_state_common] *)
Definition report_peer_state_common (event : AnalyticsEvent) (endpoints : PeerEndpointTypes) d : AggregatorData :=
  let key := ae_public_key event in
  if negb (nat_traversal_events config) then d
  else if is_from_virtual_peer event then d
  else if bool_decide (agg_local_key d ≠ smaller_key_in_meshnet_canonical_order key (agg_local_key d)) then d
  else
    match current_peer_events d !! key with
    | Some (old, old_endpoints) =>
        if bool_decide (ae_peer_state old ≠ ae_peer_state event ∨ old_endpoints ≠ endpoints) then
          let new_segment := peer_segment_new old old_endpoints (ae_timestamp event) (ae_rx_bytes event) (ae_tx_bytes event) in
          with_peers
            (if bool_decide (ae_peer_state event ≠ Connected) then delete key (current_peer_events d)
             else <[key := (event, endpoints)]> (current_peer_events d))
            (peer_segments d ++ [new_segment]) d
        else d
    | None =>
        if bool_decide (ae_peer_state event = Connected)
        then with_peers (<[key := (event, endpoints)]> (current_peer_events d)) (peer_segments d) d
        else d
    end.

(** [report_peer_state_direct] and [report_peer_state_relayed] *)
Definition report_direct (event : AnalyticsEvent) (local_ep remote_ep : EndpointType) d : AggregatorData :=
  report_peer_state_common event (mkPeerEndpointTypes (seg_endpoint_type local_ep) (seg_endpoint_type remote_ep)) d.
Definition report_relayed (event : AnalyticsEvent) d : AggregatorData :=
  report_peer_state_common event (mkPeerEndpointTypes EpRelay EpRelay) d.

(** [change_relay_state] *)
Definition change_relay_state (event : DerpAnalyticsEvent) d : AggregatorData :=
  if negb (relay_events config) then d
  else
    match current_relay_event d with
    | Some old =>
        if bool_decide (derp_event_address old ≠ derp_event_address event ∨ derp_event_state old ≠ derp_event_state event)
        then with_relay (Some event) (relay_segments d ++ [relay_segment_new old (derp_event_timestamp event)]) d
        else d
    | None => with_relay (Some event) (relay_segments d) d
    end.

(** [clear_ongoinging_segments] *)
Definition clear_ongoing_segments d : AggregatorData := with_peers ∅ (peer_segments d) (with_relay None (relay_segments d) d).

(** The loop over the current events of [save_unacknowledged_segments] *)
Definition save_peer (now : Instant) (force_save : bool) (wg_peers : gmap PublicKey Peer)
    (acc : gmap PublicKey (AnalyticsEvent * PeerEndpointTypes) * list PeerConnDataSegment) (key : PublicKey)
    : gmap PublicKey (AnalyticsEvent * PeerEndpointTypes) * list PeerConnDataSegment :=
  match acc.1 !! key with
  | None => acc
  | Some (peer_event, peer_state) =>
      if (state_duration_cap config <? duration_since now (ae_timestamp peer_event))%Z || force_save then
        match wg_peers !! ae_public_key peer_event with
        | Some wg_peer =>
            match rx_bytes wg_peer, tx_bytes wg_peer with
            | Some rx, Some tx =>
                (<[key := (mkAnalyticsEvent (ae_public_key peer_event) (ae_dual_ip_addresses peer_event) tx rx
                             (ae_peer_state peer_event) now, peer_state)]> acc.1,
                 acc.2 ++ [peer_segment_new peer_event peer_state now rx tx])
            | _, _ => acc
            end
        | None => acc
        end
      else acc
  end.

(** [save_unacknowledged_segments]; [wg_interface] is what [get_interface]
    answers, [None] for an error. *)
Definition save_unacknowledged_segments (now : Instant) (wg_interface : option (gmap PublicKey Peer)) (force_save : bool) d
    : AggregatorData :=
  let '(relay, new_relay_segments) :=
    match current_relay_event d with
    | Some event =>
        if (state_duration_cap config <? duration_since now (derp_event_timestamp event))%Z || force_save
        then (Some (mkDerpAnalyticsEvent (derp_event_address event) (derp_event_state event) (derp_event_reason event) now),
              [relay_segment_new event now])
        else (Some event, [])
    | None => (None, [])
    end in
  let '(peers, new_peer_segments) :=
    match wg_interface with
    | Some wg_peers => foldl (save_peer now force_save wg_peers) (current_peer_events d, []) (hash_iter (dom (current_peer_events d)))
    | None => (current_peer_events d, [])
    end in
  mkAggregatorData (if force_save then None else relay) (if force_save then ∅ else peers)
    (sort_by seg_start (peer_segments d ++ new_peer_segments))
    (sort_by relay_seg_start (relay_segments d ++ new_relay_segments)) (agg_local_key d).

(** [force_save_unacknowledged_segments] *)
Definition force_save_unacknowledged_segments (now : Instant) (wg_interface : option (gmap PublicKey Peer)) d : AggregatorData :=
  save_unacknowledged_segments now wg_interface true d.

(** [collect_unacknowledged_segments] *)
Definition collect_unacknowledged_segments (now : Instant) (wg_interface : option (gmap PublicKey Peer)) d
    : (list RelayConnDataSegment * list PeerConnDataSegment) * AggregatorData :=
  let d := save_unacknowledged_segments now wg_interface false d in
  ((relay_segments d, peer_segments d), with_peers (current_peer_events d) [] (with_relay (current_relay_event d) [] d)).

(** [set_local_key] *)
Definition agg_set_local_key (public_key : PublicKey) d : AggregatorData :=
  mkAggregatorData (current_relay_event d) (current_peer_events d) (peer_segments d) (relay_segments d) public_key.
End aggregator.

(** ** Accounting *)

Lemma insert_by_perm {A} (start : A → Instant) x l : insert_by start x l ≡ₚ x :: l.
Proof. induction l as [|y l IH]; simpl; [done|]. case_match; [done|]. by rewrite IH, Permutation_swap. Qed.

Lemma sort_by_perm {A} (start : A → Instant) l : sort_by start l ≡ₚ l.
Proof. induction l as [|x l IH]; simpl; [done|]. by rewrite insert_by_perm, IH. Qed.

Section accounting.
Context `{IpNets} (config : AggregatorConfig) `{!HashOrder PublicKey} `{!HashOrderLaws PublicKey}.
(** A peer, and its counters of received and sent bytes over the time *)
Context (k : PublicKey) (received sent : Instant → Z).
Implicit Types (d : AggregatorData) (now : Instant) (m : gmap PublicKey (AnalyticsEvent * PeerEndpointTypes)).

(** The time in the segments of the peer with some endpoints *)
Definition segment_time (e : PeerEndpointTypes) (seg : PeerConnDataSegment) : Z :=
  if decide (seg_node seg = k ∧ data_endpoints (seg_data seg) = e) then seg_duration seg else 0.
Definition time_in (e : PeerEndpointTypes) (l : list PeerConnDataSegment) : Z := foldr (λ seg t, (segment_time e seg + t)%Z) 0%Z l.

(** The time since the last segment *)
Definition pending (e : PeerEndpointTypes) now m : Z :=
  match m !! k with
  | Some (ev, eps) => if decide (eps = e) then now - ae_timestamp ev else 0
  | None => 0
  end.

(** A segment has the bytes of its time, modulo 2^64. *)
Definition exact_segment (seg : PeerConnDataSegment) : Prop :=
  seg_node seg = k →
  let stop := (seg_start seg + seg_duration seg)%Z in
  (0 <= seg_duration seg)%Z ∧
  data_rx_bytes (seg_data seg) = wrap 64 (received stop - received (seg_start seg)) ∧
  data_tx_bytes (seg_data seg) = wrap 64 (sent stop - sent (seg_start seg)).

Definition events_ok now m : Prop := ∀ key ev eps, m !! key = Some (ev, eps) →
  ae_public_key ev = key ∧ ae_peer_state ev = Connected ∧
  (key = k → (ae_timestamp ev <= now)%Z ∧ ae_rx_bytes ev = received (ae_timestamp ev) ∧ ae_tx_bytes ev = sent (ae_timestamp ev)).

(** The new segments of an operation are exact and take their time from the
    pending one. *)
Definition accounts now m m' (new : list PeerConnDataSegment) : Prop :=
  events_ok now m' ∧ Forall exact_segment new ∧ ∀ e, (time_in e new + pending e now m' = pending e now m)%Z.

Lemma time_in_app e l1 l2 : time_in e (l1 ++ l2) = (time_in e l1 + time_in e l2)%Z.
Proof. unfold time_in. induction l1 as [|x l1 IH]; simpl; [done|]. rewrite IH. lia. Qed.

Lemma time_in_perm e l1 l2 : l1 ≡ₚ l2 → time_in e l1 = time_in e l2.
Proof. unfold time_in. induction 1; simpl; lia. Qed.

Lemma accounts_none now m : events_ok now m → accounts now m m [].
Proof. intros Hok. split_and!; [done|done|]. intros e. unfold time_in. simpl. lia. Qed.

Lemma accounts_trans now m m1 m2 new1 new2 :
  accounts now m m1 new1 → accounts now m1 m2 new2 → accounts now m m2 (new1 ++ new2).
Proof.
  intros (_ & Hf1 & Ht1) (Hok & Hf2 & Ht2). split_and!; [done|by apply Forall_app|].
  intros e. rewrite time_in_app. specialize (Ht1 e). specialize (Ht2 e). lia.
Qed.

(** Closing an event with the counters of the time *)
Lemma segment_exact now key ev eps rx tx m : events_ok now m → m !! key = Some (ev, eps) →
  (key = k → rx = received now ∧ tx = sent now) →
  exact_segment (peer_segment_new ev eps now rx tx) ∧
  ∀ e, time_in e [peer_segment_new ev eps now rx tx] = if decide (key = k) then pending e now m else 0%Z.
Proof.
  intros Hok Hm Hc. destruct (Hok _ _ _ Hm) as (Hpk & _ & Hkey). split.
  - intros Hn. cbn in Hn. rewrite Hpk in Hn. destruct (Hkey Hn) as (Ht & Hr & Hs). destruct (Hc Hn) as [-> ->].
    cbn. unfold duration_since. rewrite Z.max_r by lia. replace (ae_timestamp ev + (now - ae_timestamp ev))%Z with now by lia.
    rewrite Hr, Hs. split; [lia|done].
  - intros e. unfold time_in, segment_time, pending. cbn [foldr peer_segment_new seg_node seg_data data_endpoints seg_duration].
    rewrite Hpk. destruct (decide (key = k)) as [->|Hne]; [|rewrite decide_False by naive_solver; lia].
    rewrite Hm. destruct (Hkey eq_refl) as (Ht & _). unfold duration_since.
    destruct (decide (eps = e)); [rewrite decide_True by done|rewrite decide_False by naive_solver]; lia.
Qed.

Lemma pending_other e now m m' : m' !! k = m !! k → pending e now m' = pending e now m.
Proof. unfold pending. by intros ->. Qed.

Lemma events_ok_insert now m key ev eps : events_ok now m → ae_public_key ev = key → ae_peer_state ev = Connected →
  (key = k → (ae_timestamp ev <= now)%Z ∧ ae_rx_bytes ev = received (ae_timestamp ev) ∧ ae_tx_bytes ev = sent (ae_timestamp ev)) →
  events_ok now (<[key := (ev, eps)]> m).
Proof. intros Hok ? ? ? key' ev' eps'. rewrite lookup_insert_Some. intros [[<- ?]|[_ Hm]]; [by simplify_eq|by apply Hok in Hm]. Qed.

Lemma events_ok_delete now m key : events_ok now m → events_ok now (delete key m).
Proof. intros Hok key' ev' eps'. rewrite lookup_delete_Some. intros [_ Hm]. by apply Hok in Hm. Qed.

Lemma events_ok_later now now' m : (now <= now')%Z → events_ok now m → events_ok now' m.
Proof. intros Hle Hok key ev eps Hm. destruct (Hok _ _ _ Hm) as (? & ? & Hk). split_and!; [done..|]. intros E. destruct (Hk E). split; [lia|done]. Qed.

(** A new event that starts now has nothing pending. *)
Lemma pending_now e now m ev eps : ae_timestamp ev = now → pending e now (<[k := (ev, eps)]> m) = 0%Z.
Proof. intros Ht. unfold pending. rewrite lookup_insert_eq. case_decide; lia. Qed.

Lemma report_accounts now ev eps d : events_ok now (current_peer_events d) → ae_timestamp ev = now →
  (ae_public_key ev = k → ae_rx_bytes ev = received now ∧ ae_tx_bytes ev = sent now) →
  let d' := report_peer_state_common config ev eps d in
  ∃ new, peer_segments d' = peer_segments d ++ new ∧ accounts now (current_peer_events d) (current_peer_events d') new.
Proof.
  intros Hok Ht Hc. set (m := current_peer_events d) in *. set (key := ae_public_key ev) in *.
  assert (∃ new, peer_segments d = peer_segments d ++ new ∧ accounts now m m new) as Hnone.
  { exists []. rewrite app_nil_r. split; [done|by apply accounts_none]. }
  unfold report_peer_state_common. fold key m.
  do 3 match goal with |- context [if ?b then d else _] => destruct b; [exact Hnone|] end.
  assert (events_ok now (<[key := (ev, eps)]> m) ∨ ae_peer_state ev ≠ Connected) as Hins.
  { destruct (decide (ae_peer_state ev = Connected)); [left|by right]. apply events_ok_insert; [done..|].
    intros E. rewrite Ht. split; [lia|by apply Hc]. }
  destruct (m !! key) as [[old old_eps]|] eqn:Em.
  - case_bool_decide; [|exact Hnone]. rewrite Ht.
    destruct (segment_exact now key old old_eps (ae_rx_bytes ev) (ae_tx_bytes ev) m Hok Em) as [Hex Htime]; [by intros ?; apply Hc|].
    eexists [_]. split; [done|]. cbn [with_peers current_peer_events]. case_bool_decide as Hst.
    + split_and!; [by apply events_ok_delete|by constructor|]. intros e. rewrite Htime. unfold pending.
      case_decide as E; [rewrite E, lookup_delete_eq|rewrite lookup_delete_ne by done]; lia.
    + destruct Hins as [Hins|]; [|done]. split_and!; [done|by constructor|]. intros e. rewrite Htime.
      case_decide as E; [rewrite E, pending_now by done; lia|]. rewrite (pending_other e now m); [lia|]. by rewrite lookup_insert_ne.
  - case_bool_decide as Hst; [|exact Hnone]. destruct Hins as [Hins|]; [|done]. exists []. rewrite app_nil_r. split; [done|].
    cbn [with_peers current_peer_events]. split_and!; [done|done|]. intros e. unfold time_in. simpl.
    destruct (decide (key = k)) as [E|]; [rewrite E, pending_now by done; unfold pending; by rewrite <-E, Em|].
    by rewrite (pending_other e now m) by (by rewrite lookup_insert_ne).
Qed.

(** What the interface answers shows the counters. *)
Definition shows_counters now (wg_peers : gmap PublicKey Peer) : Prop := ∀ p rx tx,
  wg_peers !! k = Some p → rx_bytes p = Some rx → tx_bytes p = Some tx → rx = received now ∧ tx = sent now.

Lemma save_peer_accounts now force wg_peers m l key : events_ok now m → shows_counters now wg_peers →
  ∃ new, (save_peer config now force wg_peers (m, l) key).2 = l ++ new ∧
    accounts now m (save_peer config now force wg_peers (m, l) key).1 new.
Proof.
  intros Hok Hwg. assert (∃ new, l = l ++ new ∧ accounts now m m new) as Hnone.
  { exists []. rewrite app_nil_r. split; [done|by apply accounts_none]. }
  unfold save_peer. cbn [fst snd]. destruct (m !! key) as [[ev eps]|] eqn:Em; [|exact Hnone].
  destruct (Hok _ _ _ Em) as (Hpk & Hst & Hkey). case_match; [|exact Hnone]. rewrite Hpk.
  destruct (wg_peers !! key) as [p|] eqn:Ewg; [|exact Hnone].
  destruct (rx_bytes p) as [rx|] eqn:Er, (tx_bytes p) as [tx|] eqn:Et; try exact Hnone. cbn [fst snd].
  assert (key = k → rx = received now ∧ tx = sent now) as Hc by (intros ->; by eapply Hwg).
  destruct (segment_exact now key ev eps rx tx m Hok Em Hc) as [Hex Htime].
  eexists [_]. split; [done|]. split_and!; [|by constructor|].
  - apply events_ok_insert; [done..|]. intros E. destruct (Hc E). cbn. split_and!; [lia|done|done].
  - intros e. rewrite Htime. case_decide as E; [rewrite E, pending_now by done; lia|].
    rewrite (pending_other e now m); [lia|]. by rewrite lookup_insert_ne.
Qed.

Lemma save_peers_account now force wg_peers keys m l : events_ok now m → shows_counters now wg_peers →
  let r := foldl (save_peer config now force wg_peers) (m, l) keys in
  ∃ new, r.2 = l ++ new ∧ accounts now m r.1 new.
Proof.
  intros Hok Hwg. revert m l Hok. induction keys as [|key keys IH]; intros m l Hok; simpl.
  { exists []. rewrite app_nil_r. split; [done|by apply accounts_none]. }
  destruct (save_peer_accounts now force wg_peers m l key Hok Hwg) as (new1 & Hl & Hacc).
  destruct (save_peer config now force wg_peers (m, l) key) as [m1 l1]. cbn [fst snd] in *. subst l1.
  destruct (IH m1 (l ++ new1)) as (new2 & Hr & Hacc2); [by destruct Hacc|].
  exists (new1 ++ new2). rewrite Hr, (assoc_L (++)). split; [done|by eapply accounts_trans].
Qed.

(** The interface knows the counters of the peer. *)
Definition knows_counters (wg : option (gmap PublicKey Peer)) : Prop :=
  ∃ wg_peers p rx tx, wg = Some wg_peers ∧ wg_peers !! k = Some p ∧ rx_bytes p = Some rx ∧ tx_bytes p = Some tx.

(** After a forced save nothing is pending. *)
Definition keyed m : Prop := ∀ key ev eps, m !! key = Some (ev, eps) → ae_public_key ev = key.

Lemma save_peers_force now wg_peers keys m l : knows_counters (Some wg_peers) → keyed m →
  k ∈ keys ∨ (∀ e, pending e now m = 0%Z) →
  ∀ e, pending e now (foldl (save_peer config now true wg_peers) (m, l) keys).1 = 0%Z.
Proof.
  intros (? & p & rx & tx & [= <-] & Hp & Hrx' & Htx'). revert m l.
  induction keys as [|key keys IH]; intros m l Hok Hin; simpl; [destruct Hin as [Hin|?]; [by apply elem_of_nil in Hin|done]|].
  unfold save_peer at 2. cbn [fst snd]. destruct (m !! key) as [[ev eps]|] eqn:Em.
  2: { apply IH; [done|]. destruct (decide (key = k)) as [->|]; [|rewrite elem_of_cons in Hin; naive_solver].
       right. intros e. unfold pending. by rewrite Em. }
  rewrite orb_true_r, (Hok _ _ _ Em).
  assert (∀ x, keyed (<[key := (mkAnalyticsEvent key (ae_dual_ip_addresses ev) x.1 x.2 (ae_peer_state ev) now, eps)]> m)) as Hkd.
  { intros x key' ev' eps'. rewrite lookup_insert_Some. intros [[<- ?]|[_ Hm]]; [by simplify_eq|by apply Hok in Hm]. }
  destruct (decide (key = k)) as [->|Hne].
  - rewrite Hp, Hrx', Htx'. apply IH; [apply (Hkd (tx, rx))|right; intros e; by apply pending_now].
  - assert (k ∈ keys ∨ ∀ e, pending e now m = 0%Z) as Hin' by (rewrite elem_of_cons in Hin; naive_solver).
    destruct (wg_peers !! key) as [q|]; [|by apply IH].
    destruct (rx_bytes q) as [rx1|], (tx_bytes q) as [tx1|]; try by apply IH.
    apply IH; [apply (Hkd (tx1, rx1))|]. destruct Hin' as [?|Hz]; [by left|right]. intros e.
    rewrite (pending_other e now m); [done|]. by rewrite lookup_insert_ne.
Qed.

(** Operations on the aggregator, with the segments they hand out *)
Inductive AggOp :=
| OpReport (ev : AnalyticsEvent) (eps : PeerEndpointTypes)
| OpRelay (ev : DerpAnalyticsEvent)
| OpCollect (wg : option (gmap PublicKey Peer))
| OpForceSave (wg : option (gmap PublicKey Peer))
| OpClear
| OpSetLocalKey (key : PublicKey).

Definition agg_step now (op : AggOp) d : list PeerConnDataSegment * AggregatorData :=
  match op with
  | OpReport ev eps => ([], report_peer_state_common config ev eps d)
  | OpRelay ev => ([], change_relay_state config ev d)
  | OpCollect wg => let '((_, segs), d) := collect_unacknowledged_segments config now wg d in (segs, d)
  | OpForceSave wg => ([], force_save_unacknowledged_segments config now wg d)
  | OpClear => ([], clear_ongoing_segments d)
  | OpSetLocalKey key => ([], agg_set_local_key key d)
  end.

(** Events come when they happen, and show the counters, as the interface does. *)
Definition op_ok now (op : AggOp) : Prop :=
  match op with
  | OpReport ev _ => ae_timestamp ev = now ∧ (ae_public_key ev = k → ae_rx_bytes ev = received now ∧ ae_tx_bytes ev = sent now)
  | OpCollect wg | OpForceSave wg => ∀ wg_peers, wg = Some wg_peers → shows_counters now wg_peers
  | _ => True
  end.

(** What an observer of the operations knows: the key of the node, how the peer
    is connected, by the last report that counts, for how long it was connected
    in each way, and whether no part of a connection went unsaved *)
Record Observer := mkObserver {
  obs_key : PublicKey;
  obs_link : option PeerEndpointTypes;
  obs_time : PeerEndpointTypes → Z;
  obs_saved : Prop
}.

(** Only the node with the smaller key reports a connection, and only when the
    feature is on. *)
Definition counts (local : PublicKey) (ev : AnalyticsEvent) : bool :=
  nat_traversal_events config && negb (is_from_virtual_peer ev) &&
  bool_decide (local = smaller_key_in_meshnet_canonical_order (ae_public_key ev) local).

(** A forced save and a clear end the observation of the connection, until it is
    reported again. *)
Definition observe now now' (op : AggOp) (o : Observer) : Observer :=
  let time e := (obs_time o e + if decide (obs_link o = Some e) then now' - now else 0)%Z in
  match op with
  | OpReport ev eps =>
      if bool_decide (ae_public_key ev = k) && counts (obs_key o) ev
      then mkObserver (obs_key o) (if bool_decide (ae_peer_state ev = Connected) then Some eps else None) time (obs_saved o)
      else mkObserver (obs_key o) (obs_link o) time (obs_saved o)
  | OpRelay _ | OpCollect _ => mkObserver (obs_key o) (obs_link o) time (obs_saved o)
  | OpForceSave wg => mkObserver (obs_key o) None time (obs_saved o ∧ (obs_link o = None ∨ knows_counters wg))
  | OpClear => mkObserver (obs_key o) None time (obs_saved o ∧ obs_link o = None)
  | OpSetLocalKey key => mkObserver key (obs_link o) time (obs_saved o)
  end.

Inductive agg_history : Instant → AggregatorData → list PeerConnDataSegment → Observer → Prop :=
| Agg_start now key : agg_history now (aggregator_new key) [] (mkObserver key None (λ _, 0%Z) True)
| Agg_step now d out o now' op :
    agg_history now d out o → (now <= now')%Z → op_ok now' op →
    agg_history now' (agg_step now' op d).2 (out ++ (agg_step now' op d).1) (observe now now' op o).

Lemma pending_nonneg e now m : events_ok now m → (0 <= pending e now m)%Z.
Proof.
  intros Hok. unfold pending. destruct (m !! k) as [[ev eps]|] eqn:Em; [|done]. case_decide; [|done].
  destruct (Hok _ _ _ Em) as (_ & _ & Hk). destruct (Hk eq_refl). lia.
Qed.

Lemma time_in_nonneg e l : Forall exact_segment l → (0 <= time_in e l)%Z.
Proof.
  unfold time_in. induction 1 as [|seg l Hex _ IH]; simpl; [done|].
  assert (0 <= segment_time e seg)%Z; [|lia]. unfold segment_time. case_decide as E; [|done]. by destruct (Hex (proj1 E)).
Qed.

(** The aggregator knows how the peer is connected. *)
Lemma save_peer_link now force wg_peers m l key :
  snd <$> (save_peer config now force wg_peers (m, l) key).1 !! k = snd <$> m !! k.
Proof.
  unfold save_peer. cbn [fst snd]. destruct (m !! key) as [[ev eps]|] eqn:Em; [|done].
  repeat case_match; try done. cbn [fst]. destruct (decide (key = k)) as [->|]; [by rewrite lookup_insert_eq, Em|].
  by rewrite lookup_insert_ne.
Qed.

Lemma save_peers_link now force wg_peers keys m l :
  snd <$> (foldl (save_peer config now force wg_peers) (m, l) keys).1 !! k = snd <$> m !! k.
Proof.
  revert m l. induction keys as [|key keys IH]; intros m l; simpl; [done|].
  pose proof (save_peer_link now force wg_peers m l key) as Hk.
  destruct (save_peer config now force wg_peers (m, l) key) as [m1 l1]. by rewrite IH.
Qed.

Lemma report_link now ev eps d : events_ok now (current_peer_events d) →
  snd <$> current_peer_events (report_peer_state_common config ev eps d) !! k =
    if bool_decide (ae_public_key ev = k) && counts (agg_local_key d) ev
    then (if bool_decide (ae_peer_state ev = Connected) then Some eps else None)
    else snd <$> current_peer_events d !! k.
Proof.
  intros Hok. unfold report_peer_state_common, counts.
  destruct (nat_traversal_events config); cbn [negb andb]; [|by rewrite andb_false_r].
  destruct (is_from_virtual_peer ev); cbn [negb andb]; [by rewrite andb_false_r|].
  rewrite bool_decide_not, negb_if. destruct (bool_decide (agg_local_key d = _)); [|by rewrite andb_false_r].
  rewrite andb_true_r. set (key := ae_public_key ev). destruct (decide (key = k)) as [E|E].
  - rewrite (bool_decide_eq_true_2 (key = k)) by done. rewrite E. destruct (current_peer_events d !! k) as [[old old_eps]|] eqn:Em.
    + destruct (Hok _ _ _ Em) as (_ & Hst & _). rewrite Hst.
      destruct (decide (ae_peer_state ev = Connected)) as [->|], (decide (old_eps = eps)) as [->|];
        repeat case_bool_decide; cbn [current_peer_events with_peers];
        rewrite ?lookup_delete_eq, ?lookup_insert_eq, ?Em; simpl; done || tauto || naive_solver.
    + repeat case_bool_decide; cbn [current_peer_events with_peers]; by rewrite ?lookup_insert_eq, ?Em.
  - rewrite (bool_decide_eq_false_2 (key = k)) by done.
    repeat case_match; cbn [current_peer_events with_peers]; by rewrite ?lookup_delete_ne, ?lookup_insert_ne by done.
Qed.

(** The observer and the aggregator agree. *)
Definition agrees now d (o : Observer) : Prop :=
  events_ok now (current_peer_events d) ∧ agg_local_key d = obs_key o ∧ snd <$> current_peer_events d !! k = obs_link o.

Lemma save_peers now wg force d : events_ok now (current_peer_events d) →
  (∀ wg_peers, wg = Some wg_peers → shows_counters now wg_peers) →
  ∃ m new, match wg with
           | Some wg_peers => foldl (save_peer config now force wg_peers) (current_peer_events d, []) (hash_iter (dom (current_peer_events d)))
           | None => (current_peer_events d, [])
           end = (m, new) ∧ accounts now (current_peer_events d) m new ∧
    snd <$> m !! k = snd <$> current_peer_events d !! k ∧
    (force = true → current_peer_events d !! k = None ∨ knows_counters wg → ∀ e, pending e now m = 0%Z).
Proof.
  intros Hok Hwg. set (m := current_peer_events d) in *. destruct wg as [wg_peers|].
  - destruct (save_peers_account now force wg_peers (hash_iter (dom m)) m [] Hok (Hwg _ eq_refl)) as (new & Hl & Hacc).
    pose proof (save_peers_link now force wg_peers (hash_iter (dom m)) m []) as Hlink.
    destruct (foldl _ _ _) as [m1 l] eqn:Ef. cbn [fst snd app] in *. subst l. exists m1, new. split_and!; [done..|].
    intros -> Hk e. destruct (m !! k) as [x|] eqn:Em.
    + destruct Hk as [|Hk]; [done|]. pose proof (save_peers_force now wg_peers (hash_iter (dom m)) m [] Hk) as Hz.
      rewrite Ef in Hz. apply Hz; [by intros ? ? ? Hm; apply Hok in Hm as []|]. left. apply elem_of_hash_iter, elem_of_dom. eauto.
    + unfold pending. by destruct (m1 !! k).
  - exists m, []. split_and!; [done|by apply accounts_none|done|]. intros _ [Hm|(? & ? & ? & ? & ? & _)] e; [|done].
    unfold pending. by rewrite Hm.
Qed.

(** The new segments of an operation *)
Definition step_spec now o' d (segs : list PeerConnDataSegment) d' : Prop :=
  agrees now d' o' ∧ ∃ new, segs ≡ₚ peer_segments d ++ new ∧ Forall exact_segment new ∧
    ∀ e, (time_in e new + pending e now (current_peer_events d') <= pending e now (current_peer_events d))%Z ∧
      (obs_saved o' → time_in e new + pending e now (current_peer_events d') = pending e now (current_peer_events d))%Z.

Lemma save_accounts now now' wg force d o : agrees now' d o → (∀ wg_peers, wg = Some wg_peers → shows_counters now' wg_peers) →
  let d' := save_unacknowledged_segments config now' wg force d in
  step_spec now' (observe now now' (if force then OpForceSave wg else OpCollect wg) o) d (peer_segments d') d'.
Proof.
  intros (Hok & Hkey & Hlink) Hwg. unfold save_unacknowledged_segments.
  destruct (match current_relay_event d with Some _ => _ | None => _ end) as [relay rsegs].
  destruct (save_peers now' wg force d Hok Hwg) as (m & new & -> & (Hok' & Hex & Ht) & Hl & Hz).
  unfold step_spec, agrees. cbn [peer_segments current_peer_events agg_local_key]. destruct force; cbn [observe].
  - split; [split_and!; [intros ? ? ?; by rewrite lookup_empty|done|by rewrite lookup_empty]|].
    exists new. split_and!; [apply sort_by_perm|done|]. intros e. specialize (Ht e). pose proof (pending_nonneg e _ _ Hok').
    assert (pending e now' ∅ = 0%Z) as -> by (unfold pending; by rewrite lookup_empty). split; [lia|].
    intros [_ Hs]. rewrite <-Ht, (Hz eq_refl); [done|]. destruct Hs as [Hs|]; [left|by right].
    rewrite Hs in Hlink. by destruct (current_peer_events d !! k).
  - split; [split_and!; [done|done|by rewrite Hl]|].
    exists new. split_and!; [apply sort_by_perm|done|]. intros e. specialize (Ht e). split; [lia|done].
Qed.

Lemma step_accounts now now' op d o : agrees now' d o → op_ok now' op →
  let r := agg_step now' op d in
  step_spec now' (observe now now' op o) d (r.1 ++ peer_segments r.2) r.2.
Proof.
  intros Hag Hop. pose proof Hag as (Hok & Hkey & Hlink).
  destruct op as [ev eps|ev|wg|wg| |key]; cbn [agg_step fst snd app].
  - destruct Hop as [Ht Hc]. destruct (report_accounts now' ev eps d Hok Ht Hc) as (new & Hn & Hok' & Hex & Hacc).
    split; [|exists new; split_and!; [by rewrite Hn|done|intros e; specialize (Hacc e); split; [lia|done]]].
    split; [done|]. rewrite (report_link now' ev eps d Hok), Hkey, Hlink. cbn [observe].
    assert (agg_local_key (report_peer_state_common config ev eps d) = obs_key o) as ->
      by (unfold report_peer_state_common; by repeat case_match). by destruct (bool_decide (ae_public_key ev = k) && _).
  - split; [|exists []; split_and!; [|done|]].
    + split_and!; unfold change_relay_state; by repeat case_match.
    + rewrite app_nil_r. unfold change_relay_state. by repeat case_match.
    + intros e. unfold change_relay_state, time_in. simpl. split; [|intros _]; repeat case_match; simpl; lia.
  - destruct (save_accounts now now' wg false d o Hag Hop) as [Hag' Hnew].
    unfold collect_unacknowledged_segments, step_spec. cbn [fst snd with_peers with_relay peer_segments current_peer_events].
    rewrite app_nil_r. by split.
  - exact (save_accounts now now' wg true d o Hag Hop).
  - assert (∀ e, pending e now' ∅ = 0%Z) as Hz by (intros e; unfold pending; by rewrite lookup_empty).
    split; [split_and!; [intros ? ? ?; cbn; by rewrite lookup_empty|done|by cbn; rewrite lookup_empty]|].
    exists []. split_and!; [by rewrite app_nil_r|done|]. intros e. cbn. rewrite Hz. pose proof (pending_nonneg e _ _ Hok).
    unfold time_in. simpl. split; [lia|]. intros [_ Hs]. unfold pending. rewrite Hs in Hlink.
    by destruct (current_peer_events d !! k).
  - split; [by split_and!|]. exists []. split_and!; [by rewrite app_nil_r|done|]. intros e. unfold time_in. simpl. split; [lia|done].
Qed.

Lemma pending_later e now now' d o : snd <$> current_peer_events d !! k = obs_link o →
  pending e now' (current_peer_events d) =
  (pending e now (current_peer_events d) + if decide (obs_link o = Some e) then now' - now else 0)%Z.
Proof.
  unfold pending. intros <-. destruct (current_peer_events d !! k) as [[ev eps]|]; [|by rewrite decide_False].
  change (snd <$> Some (ev, eps)) with (Some eps).
  destruct (decide (eps = e)) as [->|]; [rewrite decide_True by done|rewrite decide_False by naive_solver]; lia.
Qed.

Lemma observe_time now now' op o e :
  obs_time (observe now now' op o) e = (obs_time o e + if decide (obs_link o = Some e) then now' - now else 0)%Z.
Proof. destruct op; [|done..]. simpl. by destruct (_ && _). Qed.

Lemma observe_saved now now' op o : obs_saved (observe now now' op o) → obs_saved o.
Proof. destruct op; simpl; [destruct (_ && _)|..]; simpl; tauto. Qed.

Lemma agg_history_ok now d out o : agg_history now d out o →
  agrees now d o ∧ Forall exact_segment (out ++ peer_segments d) ∧
  ∀ e, (time_in e (out ++ peer_segments d) + pending e now (current_peer_events d) <= obs_time o e)%Z ∧
    (obs_saved o → time_in e (out ++ peer_segments d) + pending e now (current_peer_events d) = obs_time o e)%Z.
Proof.
  induction 1 as [now key|now d out o now' op _ IH Hle Hop].
  - split; [split_and!; [intros ? ? ?; cbn; by rewrite lookup_empty|done|by cbn; rewrite lookup_empty]|].
    split; [done|]. intros e. unfold pending. cbn. by rewrite lookup_empty.
  - destruct IH as ((Hok & Hkey & Hlink) & Hex & Ht). apply (events_ok_later now now') in Hok; [|done].
    destruct (step_accounts now now' op d o (conj Hok (conj Hkey Hlink)) Hop) as (Hag & new & Hp & Hex' & Hacc).
    rewrite <-(assoc_L (++)), Hp, (assoc_L (++)).
    split_and!; [done|by apply Forall_app|]. intros e. specialize (Ht e). specialize (Hacc e).
    rewrite (time_in_perm e _ ((out ++ peer_segments d) ++ new)) by (by rewrite Hp, (assoc_L (++))).
    rewrite time_in_app, observe_time. rewrite (pending_later e now now' d o Hlink) in Hacc.
    pose proof (observe_saved now now' op o). split; [lia|]. intros Hs. destruct Ht as [_ Ht], Hacc as [_ Hacc]. specialize (Hacc Hs).
    rewrite <-Ht by auto. lia.
Qed.

(** C17: the segments account for the time a peer is connected, as its reports
    say.  In every history of reports, changes of relay, collections, forced
    saves, clears and changes of the own key, the aggregator knows how the peer
    is connected by the last report that counts (of a real peer with a larger key
    than the own one, while the feature is on) since the last forced save or
    clear, which end the accounting of the connection until it is reported again.
    For each way to be connected, the segments handed out and stored and the time
    since the last of them never add up to more than the time the peer was
    connected this way, and to exactly that if no clear found the peer connected,
    nor a forced save without its counters.  When events carry the time and the
    counters of their report, each segment has exactly the bytes that the
    counters advanced between its start and its end, modulo 2^64. *)
Theorem aggregator_accounts now d out o : agg_history now d out o →
  snd <$> current_peer_events d !! k = obs_link o ∧
  (∀ e, time_in e (out ++ peer_segments d) + pending e now (current_peer_events d) <= obs_time o e)%Z ∧
  (obs_saved o → ∀ e, time_in e (out ++ peer_segments d) + pending e now (current_peer_events d) = obs_time o e)%Z ∧
  Forall exact_segment (out ++ peer_segments d).
Proof.
  intros Hh. destruct (agg_history_ok _ _ _ _ Hh) as ((_ & _ & Hlink) & Hex & Ht).
  split_and!; [done|apply Ht|intros Hs e; by apply Ht|done].
Qed.
End accounting.

(** A reset of the byte counters is reported as an enormous transfer.  If the
    counters of a peer start again, because its interface was set up anew, the
    segment that the next change closes has the difference modulo 2^64 (and a
    build with overflow checks panics). *)
Theorem counter_reset_wraps config old old_endpoints event endpoints d :
  nat_traversal_events config = true → is_from_virtual_peer event = false →
  agg_local_key d = smaller_key_in_meshnet_canonical_order (ae_public_key event) (agg_local_key d) →
  current_peer_events d !! ae_public_key event = Some (old, old_endpoints) → old_endpoints ≠ endpoints →
  is_uint 64 (ae_rx_bytes old) → (0 <= ae_rx_bytes event < ae_rx_bytes old)%Z →
  ∃ seg, peer_segments (report_peer_state_common config event endpoints d) = peer_segments d ++ [seg] ∧
    data_rx_bytes (seg_data seg) = (2 ^ 64 - (ae_rx_bytes old - ae_rx_bytes event))%Z.
Proof.
  intros Hc Hv Hk Hm He Hu Hr. unfold report_peer_state_common. rewrite Hc, Hv. cbn [negb].
  rewrite bool_decide_eq_false_2 by auto. rewrite Hm, bool_decide_eq_true_2 by auto.
  eexists. split; [done|]. cbn. unfold wrap, is_uint in *.
  rewrite <-(Z.mod_add _ 1) by lia. rewrite Z.mod_small; lia.
Qed.

Module AggregatorSamples.

#[local] Existing Instance AddrPrefix.nets.
#[local] Existing Instance elements_order.
#[local] Existing Instance elements_order_laws.

Definition me : PublicKey := mkPublicKey (replicate 32 1%Z).
Definition them : PublicKey := mkPublicKey (replicate 32 2%Z).
Definition all_events : AggregatorConfig := aggregator_config_new true true 86400.
Definition relayed : PeerEndpointTypes := mkPeerEndpointTypes EpRelay EpRelay.
Definition by_stun : PeerEndpointTypes := mkPeerEndpointTypes EpStun EpStun.

(** Ten bytes arrive in every nanosecond, from the time 0 on. *)
Definition ten_per_ns (t : Instant) : Z := 10 * Z.max 0 (Z.min t 60000).
Definition no_bytes (t : Instant) : Z := 0.

Definition event (state : NodeState) (t : Instant) : AnalyticsEvent :=
  mkAnalyticsEvent them [] (no_bytes t) (ten_per_ns t) state t.

(** Connected through a relay at the time 1000, directly at 3000, gone at 7000 *)
Definition report (t : Instant) (state : NodeState) (eps : PeerEndpointTypes) (d : AggregatorData) : AggregatorData :=
  (agg_step all_events t (OpReport (event state t) eps) d).2.
Definition gone : AggregatorData :=
  report 7000 Disconnected relayed (report 3000 Connected by_stun (report 1000 Connected relayed (aggregator_new me))).

Lemma gone_history : ∃ o, agg_history all_events them ten_per_ns no_bytes 7000 gone [] o ∧
  obs_time o relayed = 2000%Z ∧ obs_time o by_stun = 4000%Z ∧ obs_link o = None ∧ obs_saved o.
Proof.
  assert (∀ now d o now' state eps, agg_history all_events them ten_per_ns no_bytes now d [] o → (now <= now')%Z →
    agg_history all_events them ten_per_ns no_bytes now' (report now' state eps d) []
      (observe all_events them now now' (OpReport (event state now') eps) o)) as Hstep.
  { intros now d o now' state eps Hh Hle.
    exact (Agg_step all_events them ten_per_ns no_bytes now d [] o now' (OpReport (event state now') eps) Hh Hle
      (conj eq_refl (λ _, conj eq_refl eq_refl))). }
  eexists. split; [apply (Hstep 3000%Z); [apply (Hstep 1000%Z); [apply (Hstep 0%Z); [apply Agg_start|lia]|lia]|lia]|].
  split_and!; vm_compute; reflexivity || exact I.
Qed.

Lemma aggregator_accounts_witness :
  time_in them relayed (peer_segments gone) = 2000%Z ∧ time_in them by_stun (peer_segments gone) = 4000%Z ∧
  (λ s, data_rx_bytes (seg_data s)) <$> peer_segments gone = [20000; 40000]%Z.
Proof.
  destruct gone_history as (o & Hh & Hr & Hs & _ & Hsv).
  destruct (aggregator_accounts all_events them ten_per_ns no_bytes _ _ _ _ Hh) as (_ & _ & Ht & _).
  rewrite <-Hr, <-Hs, <-!(Ht Hsv). split_and!; vm_compute; reflexivity.
Defined.

Lemma counter_reset_wraps_witness :
  let d := report 3000 Connected relayed (aggregator_new me) in
  ∃ seg, peer_segments (report_peer_state_common all_events (event Connected 0) by_stun d) = [seg] ∧
    data_rx_bytes (seg_data seg) = 18446744073709521616%Z.
Proof.
  intros d. exact (counter_reset_wraps all_events (event Connected 3000) relayed (event Connected 0) by_stun d
    eq_refl eq_refl eq_refl eq_refl ltac:(done) ltac:(done) ltac:(done)).
Defined.
End AggregatorSamples.
