(* ===== verification/Heartbeat.v ===== *)
(** * The heartbeat of the meshnet analytics

    The task of telio-nurse that asks the other nodes of the meshnet how they
    are connected and reports what it learns (heartbeat.rs, and the calls of
    nurse.rs on it).  It is either monitoring or collecting answers; updates of
    the configuration and of the key that arrive while it collects are kept
    until it has reported.  The formats of other crates (the text of a [Uuid],
    MD5 digests, rows of CSV) are an interface; the detection of the NAT type and
    the answers of the WireGuard interface are inputs. *)

From stdpp Require Import strings.
From S2P Require Import Prelude NetTypes WgTypes Crypto NetText Proto Controller Derp DeviceTypes Aggregator.

(** ** Data *)

(** [uuid::Uuid], as its bytes *)
Definition Uuid : Type := bytes.

(** [Uuid::from_slice] *)
Definition uuid_from_slice (b : bytes) : option Uuid := if decide (length b = 16) then Some b else None.

Definition comma : Ascii.ascii := chr 44.

Inductive RuntimeState := Monitoring | Collecting | Aggregating.

#[export] Instance RuntimeState_eq_dec : EqDecision RuntimeState.
Proof. solve_decision. Defined.

(** [nat_detect::NatType], and the two directions of [map_enum!] *)
Inductive NatType :=
| NatUdpBlocked | NatFullCone | NatRestrictedCone | NatOpenInternet
| NatPortRestrictedCone | NatSymmetric | NatSymmetricUdpFirewall | NatUnknown.

Definition nat_type_to_heartbeat (t : NatType) : Heartbeat_NatType :=
  match t with
  | NatUdpBlocked => UdpBlocked
  | NatFullCone => FullCone
  | NatRestrictedCone => RestrictedCone
  | NatOpenInternet => OpenInternet
  | NatPortRestrictedCone => PortRestrictedCone
  | NatSymmetric => Symmetric
  | NatSymmetricUdpFirewall => SymmetricUdpFirewall
  | NatUnknown => Unknown
  end.

Definition nat_type_from_heartbeat (t : Heartbeat_NatType) : NatType :=
  match t with
  | UdpBlocked => NatUdpBlocked
  | FullCone => NatFullCone
  | RestrictedCone => NatRestrictedCone
  | OpenInternet => NatOpenInternet
  | PortRestrictedCone => NatPortRestrictedCone
  | Symmetric => NatSymmetric
  | SymmetricUdpFirewall => NatSymmetricUdpFirewall
  | Unknown => NatUnknown
  end.

(** [Display] of [Uuid], [md5::compute] in hexadecimal, a row of a CSV writer with
    the delimiter [:] and the terminator [,], and [Debug] of [NatType] *)
Class NurseFormats := {
  uuid_to_string : Uuid → text;
  md5_hex : text → text;
  csv_row : list text → text;
  nat_type_name : NatType → text
}.

(** [MeshConnectionState], the bits of a link; [MeshLink] holds nothing else *)
Definition LINK_DERP : Z := 1.
Definition LINK_WG : Z := 2.
Definition LINK_IPV4 : Z := 4.
Definition LINK_IPV6 : Z := 8.
Definition LINK_IPV4V6 : Z := Z.lor LINK_IPV4 LINK_IPV6.
Definition LINK_ALL : Z := 15.
Record MeshLink := mkMeshLink { link_bits : Z }.

Definition mesh_link_default : MeshLink := mkMeshLink 0.

(** [MeshConnectionState::set] and [from_bits] *)
Definition link_set (flag : Z) (value : bool) (l : MeshLink) : MeshLink :=
  mkMeshLink (if value then Z.lor (link_bits l) flag else Z.ldiff (link_bits l) flag).
Definition link_from_bits (bits : Z) : option MeshLink :=
  if decide (Z.ldiff bits LINK_ALL = 0)%Z then Some (mkMeshLink bits) else None.

(** The derived order of [MeshLink] is that of the bits. *)
Definition link_min (a b : MeshLink) : MeshLink := if (link_bits a <=? link_bits b)%Z then a else b.

Inductive NodeInfo :=
| InfoNode (mesh_link : MeshLink) (meshnet_id : option Uuid)
| InfoVpn (mesh_link : MeshLink) (hostname : option text).

Definition node_info_default : NodeInfo := InfoNode mesh_link_default None.
Definition info_link (i : NodeInfo) : MeshLink := match i with InfoNode l _ | InfoVpn l _ => l end.
Definition is_vpn_info (i : NodeInfo) : bool := match i with InfoVpn _ _ => true | InfoNode _ _ => false end.
Definition info_with_link (l : MeshLink) (i : NodeInfo) : NodeInfo :=
  match i with InfoNode _ id => InfoNode l id | InfoVpn _ h => InfoVpn l h end.
Definition info_with_id (id : Uuid) (i : NodeInfo) : NodeInfo :=
  match i with InfoNode l _ => InfoNode l (Some id) | InfoVpn _ _ => i end.

(** ** What is collected *)

Record Collection := mkCollection {
  meshnet_ids : gmap PublicKey Uuid;
  col_fingerprints : gmap PublicKey text;
  links : gmap (PublicKey * PublicKey) MeshLink;
  nat_type_peers : gmap PublicKey NatType
}.

(** [Collection::clear], and the default *)
Definition collection_clear : Collection := mkCollection ∅ ∅ ∅ ∅.

Definition or_default {K A} `{Countable K} (x : A) (k : K) (m : gmap K A) : gmap K A :=
  match m !! k with Some _ => m | None => <[k := x]> m end.

(** [Collection::add_default_link] *)
Definition add_default_link (lpk rpk : PublicKey) (c : Collection) : Collection :=
  mkCollection (meshnet_ids c) (col_fingerprints c)
    (or_default mesh_link_default (rpk, lpk) (or_default mesh_link_default (lpk, rpk) (links c))) (nat_type_peers c).

(** [add_unidirectional_link], [add_meshnet_id], [add_fingerprint], [add_peer_nat_type] *)
Definition add_unidirectional_link (lpk rpk : PublicKey) (link : MeshLink) (c : Collection) : Collection :=
  mkCollection (meshnet_ids c) (col_fingerprints c) (<[(lpk, rpk) := link]> (links c)) (nat_type_peers c).
Definition add_meshnet_id (pk : PublicKey) (id : Uuid) (c : Collection) : Collection :=
  mkCollection (<[pk := id]> (meshnet_ids c)) (col_fingerprints c) (links c) (nat_type_peers c).
Definition add_fingerprint (pk : PublicKey) (fp : text) (c : Collection) : Collection :=
  mkCollection (meshnet_ids c) (<[pk := fp]> (col_fingerprints c)) (links c) (nat_type_peers c).
Definition add_peer_nat_type (pk : PublicKey) (t : NatType) (c : Collection) : Collection :=
  mkCollection (meshnet_ids c) (col_fingerprints c) (links c) (<[pk := t]> (nat_type_peers c)).

(** [Iterator::min_by] with the order of the keys *)
Definition min_by_key (l : list (PublicKey * Uuid)) : option (PublicKey * Uuid) :=
  foldl (λ best x,
    match best with
    | None => Some x
    | Some b => match meshnet_canonical_key_order b.1 x.1 with Gt => Some x | _ => Some b end
    end) None l.

Section collection.
Context `{!HashOrder PublicKey} `{!HashOrder Uuid}.

(** Iterating over a map with keys *)
Definition hash_pairs {K A} `{HashOrder K} (m : gmap K A) : list (K * A) :=
  omap (λ k, pair k <$> m !! k) (hash_iter (dom m)).

(** [Collection::resolve_current_meshnet_id]; [fresh] is the draw of [Uuid::new_v4] *)
Definition resolve_current_meshnet_id (fresh : Uuid) (config_local_nodes : gset PublicKey) (c : Collection) : Uuid :=
  let id_heatmap : gmap Uuid Z :=
    foldl (λ h x, if bool_decide (x.1 ∈ config_local_nodes) then <[x.2 := (default 0 (h !! x.2) + 1)%Z]> h else h)
      ∅ (hash_pairs (meshnet_ids c)) in
  let max_value := foldl (λ best x, Z.max best x.2) 0%Z (hash_pairs id_heatmap) in
  let maximal_ids := fst <$> filter (λ x, x.2 = max_value) (hash_pairs id_heatmap) in
  match min_by_key (filter (λ x, x.2 ∈ maximal_ids) (hash_pairs (meshnet_ids c))) with
  | Some (_, id) => id
  | None => fresh
  end.
End collection.

(** ** The task *)

(** [HeartbeatConfig] *)
Record HeartbeatConfig := mkHeartbeatConfig {
  initial_collect_interval : Duration;
  collect_interval : Duration;
  collect_answer_timeout : Duration;
  fingerprint : text;
  is_nat_type_collection_enabled : bool
}.

(** [HeartbeatConfig::new], of the features it reads and the fingerprint that
    moose knows *)
Definition heartbeat_config_new (initial_interval interval : Z) (nat : bool) (device_fp : option text) : HeartbeatConfig :=
  mkHeartbeatConfig (from_secs initial_interval) (from_secs interval) (from_secs 10)
    (default (str "missing-device-fingerprint") device_fp) nat.

Record HeartbeatInfo := mkHeartbeatInfo {
  info_meshnet_enabled : bool;
  info_meshnet_id : text;
  info_fingerprints : text;
  info_connectivity_matrix : text;
  info_internal_keys : list PublicKey;
  info_external_keys : list PublicKey;
  info_heartbeat_interval : Z;
  info_external_links : text;
  info_nat_type : text;
  info_peer_nat_types : list text;
  info_nat_traversal_conn : text;
  info_derp_conn : text
}.

Definition heartbeat_info_default : HeartbeatInfo := mkHeartbeatInfo false [] [] [] [] [] 0 [] [] [] [] [].

(** What the task sends: messages to other nodes, and reports *)
Inductive HbEffect :=
| HbSend (to : PublicKey) (msg : HeartbeatMessage)
| HbReport (info : HeartbeatInfo).

(** [Analytics]; of the channels [Io] only those that come and go with the
    meshnet.  [collect_period] is the time at which the collection ends. *)
Record HbState := mkHbState {
  hb_config : HeartbeatConfig;
  hb_chan : bool;
  hb_derp_channel : bool;
  hb_meshnet_id : Uuid;
  hb_state : RuntimeState;
  collect_period : Instant;
  cached_private_key : option SecretKey;
  cached_config : option MeshConfigUpdateEvent;
  hb_public_key : PublicKey;
  collection : Collection;
  local_nodes : gmap PublicKey NodeInfo;
  config_nodes : gmap PublicKey bool;
  hb_fingerprints : gmap PublicKey text;
  meshnet_enabled : bool;
  hb_ip_stack : option IpStack;
  hb_nat_type : NatType;
  hb_aggregator : AggregatorData
}.

Section setters.
Implicit Types (st : HbState).

Definition set_channels (b : bool) st : HbState :=
  mkHbState (hb_config st) b b (hb_meshnet_id st) (hb_state st) (collect_period st) (cached_private_key st) (cached_config st)
    (hb_public_key st) (collection st) (local_nodes st) (config_nodes st) (hb_fingerprints st) (meshnet_enabled st)
    (hb_ip_stack st) (hb_nat_type st) (hb_aggregator st).
Definition set_phase (s : RuntimeState) (t : Instant) st : HbState :=
  mkHbState (hb_config st) (hb_chan st) (hb_derp_channel st) (hb_meshnet_id st) s t (cached_private_key st) (cached_config st)
    (hb_public_key st) (collection st) (local_nodes st) (config_nodes st) (hb_fingerprints st) (meshnet_enabled st)
    (hb_ip_stack st) (hb_nat_type st) (hb_aggregator st).
Definition set_meshnet_id (id : Uuid) st : HbState :=
  mkHbState (hb_config st) (hb_chan st) (hb_derp_channel st) id (hb_state st) (collect_period st) (cached_private_key st)
    (cached_config st) (hb_public_key st) (collection st) (local_nodes st) (config_nodes st) (hb_fingerprints st)
    (meshnet_enabled st) (hb_ip_stack st) (hb_nat_type st) (hb_aggregator st).
Definition set_cached (sk : option SecretKey) (c : option MeshConfigUpdateEvent) st : HbState :=
  mkHbState (hb_config st) (hb_chan st) (hb_derp_channel st) (hb_meshnet_id st) (hb_state st) (collect_period st) sk c
    (hb_public_key st) (collection st) (local_nodes st) (config_nodes st) (hb_fingerprints st) (meshnet_enabled st)
    (hb_ip_stack st) (hb_nat_type st) (hb_aggregator st).
Definition set_identity (pk : PublicKey) (nodes : gmap PublicKey bool) st : HbState :=
  mkHbState (hb_config st) (hb_chan st) (hb_derp_channel st) (hb_meshnet_id st) (hb_state st) (collect_period st)
    (cached_private_key st) (cached_config st) pk (collection st) (local_nodes st) nodes (hb_fingerprints st)
    (meshnet_enabled st) (hb_ip_stack st) (hb_nat_type st) (hb_aggregator st).
Definition set_collection (c : Collection) st : HbState :=
  mkHbState (hb_config st) (hb_chan st) (hb_derp_channel st) (hb_meshnet_id st) (hb_state st) (collect_period st)
    (cached_private_key st) (cached_config st) (hb_public_key st) c (local_nodes st) (config_nodes st) (hb_fingerprints st)
    (meshnet_enabled st) (hb_ip_stack st) (hb_nat_type st) (hb_aggregator st).
Definition set_local_nodes (m : gmap PublicKey NodeInfo) st : HbState :=
  mkHbState (hb_config st) (hb_chan st) (hb_derp_channel st) (hb_meshnet_id st) (hb_state st) (collect_period st)
    (cached_private_key st) (cached_config st) (hb_public_key st) (collection st) m (config_nodes st) (hb_fingerprints st)
    (meshnet_enabled st) (hb_ip_stack st) (hb_nat_type st) (hb_aggregator st).
Definition set_fingerprints (m : gmap PublicKey text) st : HbState :=
  mkHbState (hb_config st) (hb_chan st) (hb_derp_channel st) (hb_meshnet_id st) (hb_state st) (collect_period st)
    (cached_private_key st) (cached_config st) (hb_public_key st) (collection st) (local_nodes st) (config_nodes st) m
    (meshnet_enabled st) (hb_ip_stack st) (hb_nat_type st) (hb_aggregator st).
Definition set_mesh (enabled : bool) (stack : option IpStack) st : HbState :=
  mkHbState (hb_config st) (hb_chan st) (hb_derp_channel st) (hb_meshnet_id st) (hb_state st) (collect_period st)
    (cached_private_key st) (cached_config st) (hb_public_key st) (collection st) (local_nodes st) (config_nodes st)
    (hb_fingerprints st) enabled stack (hb_nat_type st) (hb_aggregator st).
Definition set_nat_type (t : NatType) st : HbState :=
  mkHbState (hb_config st) (hb_chan st) (hb_derp_channel st) (hb_meshnet_id st) (hb_state st) (collect_period st)
    (cached_private_key st) (cached_config st) (hb_public_key st) (collection st) (local_nodes st) (config_nodes st)
    (hb_fingerprints st) (meshnet_enabled st) (hb_ip_stack st) t (hb_aggregator st).
Definition set_aggregator (d : AggregatorData) st : HbState :=
  mkHbState (hb_config st) (hb_chan st) (hb_derp_channel st) (hb_meshnet_id st) (hb_state st) (collect_period st)
    (cached_private_key st) (cached_config st) (hb_public_key st) (collection st) (local_nodes st) (config_nodes st)
    (hb_fingerprints st) (meshnet_enabled st) (hb_ip_stack st) (hb_nat_type st) d.
End setters.

Definition FAR_FUTURE : Duration := from_secs (86400 * 365 * 30).

(** Iterating over a [BTreeSet] of keys *)
Definition btree_keys (X : gset PublicKey) : list PublicKey := merge_sort key_le (elements X).

(** [HeartbeatMeshmapInfo] *)
Record MeshmapInfo := mkMeshmapInfo {
  index_map_internal : gmap PublicKey Z;
  index_map_full : gmap PublicKey Z;
  internal_sorted_public_keys : list PublicKey;
  external_sorted_public_keys : list PublicKey;
  internal_sorted_fingerprints : list text
}.

Section task.
Context `{IpNets} `{Ciphers} `{NurseFormats} `{IoErrorCodes} `{!HashOrder PublicKey} `{!HashOrder Uuid} (agg_config : AggregatorConfig).
Implicit Types (st : HbState) (log : list HbEffect) (now : Instant).

(** [Analytics::new] *)
Definition heartbeat_new now (public_key : PublicKey) (meshnet_id : Uuid) (config : HeartbeatConfig) (d : AggregatorData) : HbState :=
  mkHbState config false false meshnet_id Monitoring (now + FAR_FUTURE) None None public_key collection_clear ∅
    {[public_key := true]} ∅ false None NatUnknown d.

(** [configure_meshnet] *)
Definition hb_configure_meshnet (enable : bool) st : HbState := set_channels enable st.

(** [update_public_key] *)
Definition update_public_key st : HbState :=
  if decide (hb_state st = Monitoring) then
    match cached_private_key st with
    | Some private_key =>
        let public_key := secret_key_public private_key in
        set_identity public_key (<[public_key := true]> (delete (hb_public_key st) (config_nodes st)))
          (set_cached None (cached_config st) st)
    | None => st
    end
  else st.

(** [nurse::State::set_private_key] *)
Definition hb_set_private_key (private_key : SecretKey) st : HbState :=
  update_public_key (set_cached (Some private_key) (cached_config st) st).

(** [handle_config_update_event] and [update_config] *)
Definition handle_config_update_event (event : MeshConfigUpdateEvent) st : HbState :=
  if decide (hb_state st = Monitoring) then
    set_identity (hb_public_key st) (<[hb_public_key st := true]> (update_nodes event))
      (set_mesh (update_enabled event) (update_ip_stack event) st)
  else set_cached (cached_private_key st) (Some event) st.

Definition update_config st : HbState :=
  match cached_config st with
  | Some event => handle_config_update_event event (set_cached (cached_private_key st) None st)
  | None => st
  end.

(** The flags of the addresses that both ends have *)
Definition stack_flags (our_stack nodes_stack : IpStack) : Z :=
  match our_stack, nodes_stack with
  | IPv4, IPv4 | IPv4v6, IPv4 | IPv4, IPv4v6 => LINK_IPV4
  | IPv6, IPv6 | IPv4v6, IPv6 | IPv6, IPv4v6 => LINK_IPV6
  | IPv4v6, IPv4v6 => LINK_IPV4V6
  | _, _ => 0
  end.

(** [handle_wg_event], of an [Event::Node] *)
Definition handle_wg_event (node : Node) st : HbState :=
  if decide (node_state node = Disconnected) then set_local_nodes (delete (node_public_key node) (local_nodes st)) st
  else
    let mesh_link := link_set LINK_WG (bool_decide (node_state node = Connected)) mesh_link_default in
    let mesh_link :=
      match hb_ip_stack st, get_ip_stack (node_ip_addresses node) with
      | Some our_stack, Some nodes_stack => link_set (stack_flags our_stack nodes_stack) true mesh_link
      | _, _ => mesh_link
      end in
    let node_info :=
      if node_is_vpn node then
        InfoVpn mesh_link
          (match node_hostname node with
           | Some hostname => Some (str hostname)
           | None => (λ endpoint, md5_hex (socket_addr_to_string endpoint)) <$> node_endpoint node
           end)
      else InfoNode mesh_link None in
    set_local_nodes (<[node_public_key node := node_info]> (local_nodes st)) st.

(** [discover_current_nat_type], with what [retrieve_single_nat] returns *)
Definition discover_current_nat_type (retrieved : option NatType) st : HbState :=
  set_nat_type (if is_nat_type_collection_enabled (hb_config st) then default NatUnknown retrieved else NatUnknown) st.

(** [handle_collection] *)
Definition handle_collection now st log : HbState * list HbEffect :=
  let st := set_collection collection_clear st in
  let asked : list PublicKey := if hb_chan st then hash_iter (dom (local_nodes st)) else [] in
  let requests_sent := bool_decide (asked ≠ []) in
  let collection_deadline := if requests_sent then (now + collect_answer_timeout (hb_config st))%Z else now in
  (set_phase Collecting collection_deadline st, log ++ ((λ pk, HbSend pk heartbeat_request) <$> asked)).

(** [handle_request_message] *)
Definition handle_request_message (pk : PublicKey) st log : HbState * list HbEffect :=
  let links := (λ x, mkHeartbeat_Status (key_bytes x.1) (link_bits (info_link x.2))) <$> hash_pairs (local_nodes st) in
  let heartbeat := heartbeat_response (hb_meshnet_id st) (fingerprint (hb_config st)) links (nat_type_to_heartbeat (hb_nat_type st)) in
  (st, if hb_chan st then log ++ [HbSend pk heartbeat] else log).

(** [handle_response_message] *)
Definition handle_response_message (pk : PublicKey) (message : HeartbeatMessage) st : HbState :=
  let st := set_collection (add_fingerprint pk (node_fingerprint message) (collection st)) st in
  let st :=
    match uuid_from_slice (meshnet_id message) with
    | Some received_meshnet_id =>
        set_local_nodes
          (<[pk := info_with_id received_meshnet_id (default node_info_default (local_nodes st !! pk))]> (local_nodes st))
          (set_collection (add_meshnet_id pk received_meshnet_id (collection st)) st)
    | None => st
    end in
  let st := set_collection (add_peer_nat_type pk (nat_type_from_heartbeat (nat_type message)) (collection st)) st in
  foldl (λ st status,
    match key_try_from mkPublicKey (status_node status), link_from_bits (connection_state status) with
    | Some other_key, Some link_state => set_collection (add_unidirectional_link pk other_key link_state (collection st)) st
    | _, _ => st
    end) st (statuses message).

(** [message_handler] *)
Definition message_handler (pk : PublicKey) (message : HeartbeatMessage) st log : HbState * list HbEffect :=
  let info := default node_info_default (local_nodes st !! pk) in
  let mesh_link := link_set LINK_DERP true (info_link info) in
  let st := set_local_nodes (<[pk := info_with_link mesh_link info]> (local_nodes st)) st in
  let st := set_collection
    (add_unidirectional_link (hb_public_key st) pk mesh_link
      (add_unidirectional_link pk (hb_public_key st) mesh_link (collection st))) st in
  match message_type message with
  | REQUEST => handle_request_message pk st log
  | RESPONSE => if decide (hb_state st ≠ Collecting) then (st, log) else (handle_response_message pk message st, log)
  end.

(** [is_local] *)
Definition hb_is_local st (pk : PublicKey) : bool :=
  if decide (hb_public_key st = pk) then true
  else if bool_decide (config_nodes st !! pk = Some true) then true
  else match local_nodes st !! pk with
       | Some (InfoNode _ (Some id)) => bool_decide (id = hb_meshnet_id st)
       | _ => false
       end.

(** [update_current_meshmap_info] *)
Definition update_current_meshmap_info (fresh : Uuid) st : HbState :=
  let st := set_collection (add_meshnet_id (hb_public_key st) (hb_meshnet_id st) (collection st)) st in
  let config_local_nodes : gset PublicKey := dom (filter (λ x, x.2 = true) (config_nodes st)) in
  let st := set_meshnet_id (resolve_current_meshnet_id fresh config_local_nodes (collection st)) st in
  let st := set_local_nodes
    (foldl (λ m pk, <[pk := info_with_id (hb_meshnet_id st) (default node_info_default (m !! pk))]> m)
      (local_nodes st) (hash_iter config_local_nodes)) st in
  let st := set_collection (add_fingerprint (hb_public_key st) (fingerprint (hb_config st)) (collection st)) st in
  let c := collection st in
  let st := set_collection
    (mkCollection (meshnet_ids c)
      (foldl (λ m node, or_default (str "null") node m) (col_fingerprints c) (hash_iter (dom (config_nodes st))))
      (links c) (nat_type_peers c)) st in
  let fps := col_fingerprints (collection st) in
  let stored := foldl (λ m x,
    match m !! x.1 with
    | Some _ => if decide (x.2 ≠ str "null") then <[x.1 := x.2]> m else m
    | None => <[x.1 := x.2]> m
    end) (hb_fingerprints st) (hash_pairs fps) in
  set_fingerprints (filter (λ x, x.1 ∈ dom fps) stored) st.

(** The index maps: [entry(pk).or_insert(i as u8)], from some index on *)
Definition index_keys (from : nat) (keys : list PublicKey) (m : gmap PublicKey Z) : gmap PublicKey Z :=
  foldl (λ m x, or_default (wrap 8 (Z.of_nat (x.1 + from))) x.2 m) m (imap pair keys).

(** [get_current_meshmap_info] *)
Definition get_current_meshmap_info st : MeshmapInfo :=
  let known : gset PublicKey := dom (hb_fingerprints st) in
  let internal := filter (λ pk, hb_is_local st pk = true) known in
  let vpn : gset PublicKey := dom (filter (λ x, is_vpn_info x.2 = true) (local_nodes st)) in
  let internal_keys := btree_keys internal in
  let external_keys := btree_keys ((known ∖ internal) ∪ vpn) in
  let index_map := index_keys 0 internal_keys ∅ in
  mkMeshmapInfo index_map (index_keys (length internal_keys) external_keys index_map) internal_keys external_keys
    (omap (λ pk, hb_fingerprints st !! pk) internal_keys).

(** The rows of the connectivity data *)
Definition peer_row (index_us index_other : Z) (seg : PeerConnDataSegment) : text :=
  csv_row (print_u64 <$> [index_us; index_other; as_secs (seg_duration seg)] ++ peer_connection_fields (seg_data seg))%Z.
Definition relay_row (seg : RelayConnDataSegment) : text :=
  csv_row (md5_hex (socket_addr_to_string (relay_seg_address seg)) ::
    (print_u64 <$> as_secs (relay_seg_duration seg) :: relay_connection_fields (relay_seg_data seg))).

(** [fetch_conn_data] *)
Definition fetch_conn_data now (wg : option (gmap PublicKey Peer)) (disconnect : bool) (index_map : gmap PublicKey Z)
    (hb_info : HeartbeatInfo) st : option HeartbeatInfo * HbState :=
  let d := if disconnect then force_save_unacknowledged_segments agg_config now wg (hb_aggregator st) else hb_aggregator st in
  let '((relay, peer), d) := collect_unacknowledged_segments agg_config now wg d in
  let st := set_aggregator d st in
  let rows :=
    index_us ← index_map !! hb_public_key st;
    mapM (λ seg, index_other ← index_map !! seg_node seg; Some (peer_row index_us index_other seg)) peer in
  (rows ← rows;
   let i := hb_info in
   Some (mkHeartbeatInfo (info_meshnet_enabled i) (info_meshnet_id i) (info_fingerprints i) (info_connectivity_matrix i)
     (info_internal_keys i) (info_external_keys i) (info_heartbeat_interval i) (info_external_links i) (info_nat_type i)
     (info_peer_nat_types i) (pop (concat rows)) (pop (concat (relay_row <$> relay)))), st).

(** [copy_nat_type] *)
Definition copy_nat_type st (sorted_pk : list PublicKey) : list text :=
  omap (λ pk, nat_type_name <$> nat_type_peers (collection st) !! pk) sorted_pk.

(** The entries of the connectivity matrix: two indices, and the bits of the
    smaller of the links in both directions *)
Definition matrix_entries (index_map : gmap PublicKey Z) (l : gmap (PublicKey * PublicKey) MeshLink) : list (Z * Z * Z) :=
  i ← hash_pairs index_map;
  omap (λ j,
    if (j.2 <=? i.2)%Z then None
    else
      let link1 := default mesh_link_default (l !! (i.1, j.1)) in
      let link2 := default mesh_link_default (l !! (j.1, i.1)) in
      let min := link_min link1 link2 in
      if decide (link_bits min = 0)%Z then None else Some (i.2, j.2, link_bits min)) (hash_pairs index_map).

Definition print_entry (e : Z * Z * Z) : text :=
  print_u64 e.1.1 ++ [colon] ++ print_u64 e.1.2 ++ [colon] ++ print_u64 e.2 ++ [comma].

(** An external link *)
Definition external_link st (key : PublicKey) (node : NodeInfo) : text :=
  let '(id, fp, state) :=
    match node with
    | InfoVpn mesh_link hostname => (str "vpn", default (str "null") hostname, link_bits mesh_link)
    | InfoNode mesh_link id =>
        (default (str "no-mesh-id") (uuid_to_string <$> id), default (str "null") (col_fingerprints (collection st) !! key),
         link_bits mesh_link)
    end in
  id ++ [colon] ++ fp ++ [colon] ++ print_u64 state ++ [comma].

(** [handle_aggregation] *)
Definition handle_aggregation now (wg : option (gmap PublicKey Peer)) (fresh : Uuid) st log : HbState * list HbEffect :=
  let st := set_phase Aggregating (collect_period st) st in
  let st := update_current_meshmap_info fresh st in
  let mm := get_current_meshmap_info st in
  let interval := as_secs (collect_interval (hb_config st)) in
  let info := mkHeartbeatInfo (meshnet_enabled st) (uuid_to_string (hb_meshnet_id st)) [] []
    (internal_sorted_public_keys mm) (external_sorted_public_keys mm) (if decide (interval < 2 ^ 31)%Z then interval else 0%Z)
    [] [] [] [] [] in
  let '(fetched, st) := fetch_conn_data now wg false (index_map_full mm) info st in
  let info := default info fetched in
  let fingerprints := pop (concat ((λ t, t ++ [comma]) <$> internal_sorted_fingerprints mm)) in
  let keys := hash_iter (dom (index_map_internal mm)) in
  let st := foldl (λ st i, foldl (λ st j,
      if decide (i ≠ hb_public_key st ∧ i ≠ j) then set_collection (add_default_link i j (collection st)) st else st) st keys) st keys in
  let matrix := pop (concat (print_entry <$> matrix_entries (index_map_internal mm) (links (collection st)))) in
  let '(external_links, st) := foldl (λ '(t, st) key,
      let node := default node_info_default (local_nodes st !! key) in
      (t ++ external_link st key node, set_local_nodes (or_default node_info_default key (local_nodes st)) st))
    ([], st) (external_sorted_public_keys mm) in
  let info := mkHeartbeatInfo (info_meshnet_enabled info) (info_meshnet_id info) fingerprints matrix
    (info_internal_keys info) (info_external_keys info) (info_heartbeat_interval info) (pop external_links)
    (nat_type_name (hb_nat_type st))
    (copy_nat_type st (internal_sorted_public_keys mm) ++ copy_nat_type st (external_sorted_public_keys mm))
    (info_nat_traversal_conn info) (info_derp_conn info) in
  let st := set_phase Monitoring (now + FAR_FUTURE)%Z st in
  (update_config (update_public_key st), log ++ [HbReport info]).

(** [get_disconnect_data] *)
Definition get_disconnect_data now (wg : option (gmap PublicKey Peer)) (fresh : Uuid) st : option HeartbeatInfo * HbState :=
  let st := update_current_meshmap_info fresh st in
  let mm := get_current_meshmap_info st in
  fetch_conn_data now wg true (index_map_full mm) heartbeat_info_default st.

(** ** The loop *)

(** The branches of [wait], and the calls of [nurse.rs] between them *)
Inductive HbInput :=
| HbWgEvent (node : Node)
| HbDerpEvent (retrieved : option NatType)
| HbConfigUpdate (event : MeshConfigUpdateEvent)
| HbTrigger
| HbTick
| HbMessage (pk : PublicKey) (msg : HeartbeatMessage)
| HbCollected (wg : option (gmap PublicKey Peer)) (fresh : Uuid)
| HbSetPrivateKey (sk : SecretKey)
| HbConfigureMeshnet (enable : bool)
| HbDisconnectData (wg : option (gmap PublicKey Peer)) (fresh : Uuid).

(** The conditions of the branches *)
Definition hb_enabled now (i : HbInput) st : bool :=
  match i with
  | HbWgEvent _ | HbTrigger | HbTick => bool_decide (hb_state st = Monitoring)
  | HbDerpEvent _ => hb_derp_channel st && bool_decide (hb_state st = Monitoring)
  | HbMessage _ _ => hb_chan st
  | HbCollected _ _ => bool_decide (hb_state st = Collecting ∧ collect_period st <= now)%Z
  | HbConfigUpdate _ | HbSetPrivateKey _ | HbConfigureMeshnet _ | HbDisconnectData _ _ => true
  end.

(** [Runtime::wait] *)
Definition hb_step now (i : HbInput) st log : HbState * list HbEffect :=
  match i with
  | HbWgEvent node => (handle_wg_event node st, log)
  | HbDerpEvent retrieved => (discover_current_nat_type retrieved st, log)
  | HbConfigUpdate event => (handle_config_update_event event st, log)
  | HbTrigger | HbTick => handle_collection now st log
  | HbMessage pk msg => message_handler pk msg st log
  | HbCollected wg fresh => handle_aggregation now wg fresh st log
  | HbSetPrivateKey sk => (hb_set_private_key sk st, log)
  | HbConfigureMeshnet enable => (hb_configure_meshnet enable st, log)
  | HbDisconnectData wg fresh => ((get_disconnect_data now wg fresh st).2, log)
  end.
End task.
