(* ===== verification/HeartbeatProps.v ===== *)
(** * Theorems about the heartbeat of the meshnet analytics *)

From stdpp Require Import strings.
From S2P Require Import Prelude NetTypes WgTypes Crypto NetText Proto Controller Derp DeviceTypes Aggregator Heartbeat.

(** ** Iterating over maps *)

Section pairs.
Context `{HashOrderLaws K} {A : Type}.
Implicit Types (m : gmap K A).

Lemma elem_of_hash_pairs m k x : (k, x) ∈ hash_pairs m ↔ m !! k = Some x.
Proof.
  unfold hash_pairs. rewrite list_elem_of_omap. split.
  - intros (k' & _ & Hk). destruct (m !! k') eqn:E; simplify_eq/=. done.
  - intros Hk. exists k. rewrite Hk. split; [|done]. apply elem_of_hash_iter, elem_of_dom. eauto.
Qed.

Lemma fst_hash_pairs m : fst <$> hash_pairs m = hash_iter (dom m).
Proof.
  unfold hash_pairs. assert (∀ k, k ∈ hash_iter (dom m) → is_Some (m !! k)) as Hin.
  { intros k Hk. by apply elem_of_dom, elem_of_hash_iter. }
  induction (hash_iter (dom m)) as [|k l IH]; [done|]. simpl.
  destruct (Hin k) as [x ->]; [by left|]. simpl. f_equal. apply IH. intros k' Hk'. apply Hin. by right.
Qed.

Lemma NoDup_fst_hash_pairs m : NoDup (fst <$> hash_pairs m).
Proof. rewrite fst_hash_pairs. apply NoDup_hash_iter. Qed.

Lemma NoDup_hash_pairs m : NoDup (hash_pairs m).
Proof. eapply NoDup_fmap_1, NoDup_fst_hash_pairs. Qed.

Lemma hash_pairs_perm m : hash_pairs m ≡ₚ map_to_list m.
Proof.
  apply NoDup_Permutation; [apply NoDup_hash_pairs|apply NoDup_map_to_list|].
  intros [k x]. by rewrite elem_of_hash_pairs, elem_of_map_to_list.
Qed.
End pairs.

(** ** The meshnet id *)

(** The number of local nodes that reported an id *)
Definition votes (local : gset PublicKey) (ids : gmap PublicKey Uuid) (id : Uuid) : nat :=
  length (filter (λ x, x.1 ∈ local ∧ x.2 = id) (map_to_list ids)).

(** The id of the smallest key among those with the most votes *)
Definition elected (local : gset PublicKey) (ids : gmap PublicKey Uuid) (id : Uuid) : Prop :=
  0 < votes local ids id ∧ (∀ id', votes local ids id' ≤ votes local ids id) ∧
  ∃ k, ids !! k = Some id ∧
    ∀ k' id', ids !! k' = Some id' → votes local ids id' = votes local ids id → key_le k k'.

Lemma elected_unique local ids id1 id2 : elected local ids id1 → elected local ids id2 → id1 = id2.
Proof.
  intros (_ & Hm1 & k1 & Hk1 & Hmin1) (_ & Hm2 & k2 & Hk2 & Hmin2).
  assert (votes local ids id1 = votes local ids id2) as E by (pose proof (Hm1 id2); pose proof (Hm2 id1); lia).
  assert (k1 = k2) as -> by (apply key_le_antisym; [by apply Hmin1 with id2|by apply Hmin2 with id1]). congruence.
Qed.

Definition heat_step (local : gset PublicKey) (h : gmap Uuid Z) (x : PublicKey * Uuid) : gmap Uuid Z :=
  if bool_decide (x.1 ∈ local) then <[x.2 := (default 0 (h !! x.2) + 1)%Z]> h else h.

Lemma heat_lookup local l h id :
  let c := length (filter (λ x : PublicKey * Uuid, x.1 ∈ local ∧ x.2 = id) l) in
  foldl (heat_step local) h l !! id = if decide (c = 0) then h !! id else Some (default 0 (h !! id) + Z.of_nat c)%Z.
Proof.
  revert h. induction l as [|x l IH]; intros h; simpl; [done|]. rewrite IH. unfold heat_step. rewrite filter_cons.
  destruct (decide (x.1 ∈ local ∧ x.2 = id)) as [[Hin <-]|Hn].
  - rewrite bool_decide_eq_true_2 by done. simpl. rewrite lookup_insert_eq. simpl.
    case_decide as E; [rewrite E; f_equal; lia|]. f_equal. lia.
  - case_bool_decide; [|done]. by rewrite lookup_insert_ne by naive_solver.
Qed.

Lemma foldl_max {A} (f : A → Z) (l : list A) (b : Z) :
  let m := foldl (λ best x, Z.max best (f x)) b l in
  (b <= m)%Z ∧ (∀ x, x ∈ l → f x <= m)%Z ∧ (m = b ∨ ∃ x, x ∈ l ∧ f x = m).
Proof.
  revert b. induction l as [|y l IH]; intros b; simpl; [split_and!; [lia|intros ? []%elem_of_nil|by left]|].
  destruct (IH (Z.max b (f y))) as (Hb & Hx & Hm). split_and!; [lia| |].
  - intros x [->|Hin]%elem_of_cons; [lia|by apply Hx].
  - destruct Hm as [Hm|(x & Hin & Hx')]; [|right; exists x; split; [by right|done]].
    destruct (decide (b < f y)%Z); [right; exists y; split; [by left|rewrite Hm; lia]|left; rewrite Hm; lia].
Qed.

Definition min_step (best : option (PublicKey * Uuid)) (x : PublicKey * Uuid) : option (PublicKey * Uuid) :=
  match best with
  | None => Some x
  | Some b => match meshnet_canonical_key_order b.1 x.1 with Gt => Some x | _ => Some b end
  end.

Lemma min_by_key_spec l b : ∃ r, foldl min_step (Some b) l = Some r ∧ r ∈ b :: l ∧ ∀ y, y ∈ b :: l → key_le r.1 y.1.
Proof.
  revert b. induction l as [|x l IH]; intros b; simpl.
  { exists b. split_and!; [done|by left|]. intros y Hy. apply list_elem_of_singleton in Hy as ->. by destruct (total key_le b.1 b.1). }
  assert (∃ c, min_step (Some b) x = Some c ∧ (c = b ∨ c = x) ∧ key_le c.1 b.1 ∧ key_le c.1 x.1) as (c & Hc & Hin & Hb & Hx).
  { unfold min_step. destruct (meshnet_canonical_key_order b.1 x.1) eqn:E.
    1, 2: exists b; split_and!; [done|by left|by destruct (total key_le b.1 b.1)|unfold key_le; by rewrite E].
    exists x. split_and!; [done|by right| |by destruct (total key_le x.1 x.1)].
    destruct (total key_le b.1 x.1) as [Hle|]; [|done]. unfold key_le in Hle. by rewrite E in Hle. }
  cbn [min_step] in Hc. rewrite Hc. destruct (IH c) as (r & -> & Hr & Hmin). exists r. split_and!; [done| |].
  - apply elem_of_cons in Hr as [->|Hr]; [destruct Hin as [->| ->]; [by left|by right; left]|by right; right].
  - assert (key_le r.1 c.1) by (apply Hmin; by left).
    intros y [->|[->|Hy]%elem_of_cons]%elem_of_cons; [by trans c.1|by trans c.1|]. apply Hmin. by right.
Qed.

Section resolve.
Context `{!HashOrder PublicKey} `{!HashOrder Uuid} `{!HashOrderLaws PublicKey} `{!HashOrderLaws Uuid}.

Lemma heat_votes local c id :
  foldl (heat_step local) ∅ (hash_pairs (meshnet_ids c)) !! id =
    if decide (votes local (meshnet_ids c) id = 0) then None else Some (Z.of_nat (votes local (meshnet_ids c) id)).
Proof.
  rewrite heat_lookup, lookup_empty. unfold votes.
  rewrite (Permutation_length (filter_Permutation _ _ _ (hash_pairs_perm (meshnet_ids c)))). by case_decide.
Qed.

Lemma votes_pos local ids id : 0 < votes local ids id ↔ ∃ k, k ∈ local ∧ ids !! k = Some id.
Proof.
  unfold votes. split.
  - destruct (filter _ _) as [|[k id'] l] eqn:E; simpl; [lia|]. intros _.
    assert ((k, id') ∈ filter (λ x, x.1 ∈ local ∧ x.2 = id) (map_to_list ids)) as Hin by (rewrite E; by left).
    apply list_elem_of_filter in Hin as [[Hk Hi] Hin%elem_of_map_to_list]. simpl in *. subst. by exists k.
  - intros (k & Hk & Hid). destruct (filter _ _) eqn:E; [|simpl; lia].
    assert ((k, id) ∈ filter (λ x, x.1 ∈ local ∧ x.2 = id) (map_to_list ids)) as Hin
      by (apply list_elem_of_filter; split; [done|by apply elem_of_map_to_list]).
    rewrite E in Hin. by apply elem_of_nil in Hin.
Qed.

(** The maximum of the heat map is the greatest number of votes. *)
Lemma heat_maximum local c k id :
  k ∈ local → meshnet_ids c !! k = Some id →
  let ids := meshnet_ids c in
  let heat := foldl (heat_step local) ∅ (hash_pairs ids) in
  let m := foldl (λ best x, Z.max best x.2) 0%Z (hash_pairs heat) in
  (∀ id, Z.of_nat (votes local ids id) <= m)%Z ∧ (∃ id, Z.of_nat (votes local ids id) = m) ∧
  ∀ id, id ∈ fst <$> filter (λ x, x.2 = m) (hash_pairs heat) ↔ Z.of_nat (votes local ids id) = m.
Proof.
  intros Hk Hid ids heat m. assert (0 < votes local ids id) as Hpos by (apply votes_pos; eauto).
  assert (∀ id, heat !! id = if decide (votes local ids id = 0) then None else Some (Z.of_nat (votes local ids id))) as Hheat
    by (intros; apply heat_votes).
  destruct (foldl_max (λ x : Uuid * Z, x.2) (hash_pairs heat) 0) as (_ & HM & HM'). fold m in HM, HM'.
  assert (∀ id', votes local ids id' ≠ 0 → (Z.of_nat (votes local ids id') <= m)%Z) as Hle.
  { intros id' Hn. apply (HM (id', Z.of_nat (votes local ids id'))), elem_of_hash_pairs. by rewrite Hheat, decide_False. }
  assert (0 < m)%Z as Hm by (specialize (Hle id); lia). split_and!.
  - intros id'. destruct (decide (votes local ids id' = 0)) as [->|]; [lia|auto].
  - destruct HM' as [|([id' n] & Hin & <-)]; [lia|]. apply elem_of_hash_pairs in Hin. rewrite Hheat in Hin.
    case_decide; simplify_eq. by exists id'.
  - intros id'. rewrite list_elem_of_fmap. split.
    + intros ([id'' n] & -> & [Hn Hin]%list_elem_of_filter). simpl in *. subst n. apply elem_of_hash_pairs in Hin.
      rewrite Hheat in Hin. by case_decide; simplify_eq.
    + intros Hv. exists (id', m). split; [done|]. apply list_elem_of_filter. split; [done|]. apply elem_of_hash_pairs.
      rewrite Hheat, decide_False by lia. by f_equal.
Qed.

Lemma resolve_elected fresh local c k id : k ∈ local → meshnet_ids c !! k = Some id →
  elected local (meshnet_ids c) (resolve_current_meshnet_id fresh local c).
Proof.
  intros Hk Hid. destruct (heat_maximum local c k id Hk Hid) as (Hle & (top & Htop) & Hmax).
  unfold resolve_current_meshnet_id. fold (heat_step local). set (ids := meshnet_ids c) in *.
  set (m := foldl _ 0%Z _) in *. set (L := filter _ (hash_pairs ids)).
  assert (∀ x, x ∈ L ↔ ids !! x.1 = Some x.2 ∧ Z.of_nat (votes local ids x.2) = m) as HL.
  { intros [k' id']. unfold L. by rewrite list_elem_of_filter, elem_of_hash_pairs, Hmax, (comm _ (_ = m)). }
  assert (0 < votes local ids top) as Hpos.
  { specialize (Hle id). assert (0 < votes local ids id) by (apply votes_pos; eauto). lia. }
  pose proof Hpos as Hpos'. apply votes_pos in Hpos' as (ktop & _ & Hktop).
  destruct L as [|x L'] eqn:EL.
  { assert ((ktop, top) ∈ []) as Hin by (by apply HL). by apply elem_of_nil in Hin. }
  destruct (min_by_key_spec L' x) as ([kr idr] & Hr & Hin & Hmin).
  change (min_by_key (x :: L')) with (foldl min_step (Some x) L'). rewrite Hr. apply HL in Hin as [Hkr Hv]. simpl in *.
  split_and!; [lia|intros id'; specialize (Hle id'); lia|]. exists kr. split; [done|]. intros k' id' Hk' Hv'.
  apply (Hmin (k', id')), HL. simpl. split; [done|lia].
Qed.
End resolve.

Lemma votes_two local ids id1 id2 : id1 ≠ id2 → votes local ids id1 + votes local ids id2 ≤ size local.
Proof.
  intros Hne. unfold votes. rewrite <-length_app.
  set (l := _ ++ _). rewrite <-(length_fmap fst l). unfold size, set_size. simpl. apply submseteq_length, NoDup_submseteq.
  - unfold l. rewrite fmap_app. apply NoDup_app. split_and!.
    1, 3: eapply sublist_NoDup; [apply (NoDup_fst_map_to_list ids)|apply fmap_sublist, sublist_filter].
    intros k [[k1 x1] [-> [[_ Hx1] Hm1%elem_of_map_to_list]%list_elem_of_filter]]%list_elem_of_fmap
      [[k2 x2] [E [[_ Hx2] Hm2%elem_of_map_to_list]%list_elem_of_filter]]%list_elem_of_fmap. simpl in *. congruence.
  - intros k [[k' x] [-> Hin]]%list_elem_of_fmap. apply elem_of_elements.
    unfold l in Hin. by apply elem_of_app in Hin as [[[? _] _]%list_elem_of_filter|[[? _] _]%list_elem_of_filter].
Qed.

(** The resolution of the meshnet id.  The id that a node reports is the one
    that most of the local nodes gave, and of several the one that the node with
    the smallest key gave.  So two nodes that collected the same ids agree,
    whatever the order in which their maps are iterated and the ids they would
    draw, and an id that more than half of the local nodes gave stays. *)
Theorem meshnet_id_resolution (local : gset PublicKey) (c1 c2 : Collection) (fresh1 fresh2 : Uuid)
    `{HP1 : !HashOrder PublicKey} `{HU1 : !HashOrder Uuid} `{!@HashOrderLaws PublicKey _ _ HP1} `{!@HashOrderLaws Uuid _ _ HU1}
    `{HP2 : !HashOrder PublicKey} `{HU2 : !HashOrder Uuid} `{!@HashOrderLaws PublicKey _ _ HP2} `{!@HashOrderLaws Uuid _ _ HU2} k id :
  meshnet_ids c1 = meshnet_ids c2 → k ∈ local → meshnet_ids c1 !! k = Some id →
  elected local (meshnet_ids c1) (@resolve_current_meshnet_id HP1 HU1 fresh1 local c1) ∧
  @resolve_current_meshnet_id HP1 HU1 fresh1 local c1 = @resolve_current_meshnet_id HP2 HU2 fresh2 local c2 ∧
  ∀ id', size local < 2 * votes local (meshnet_ids c1) id' → @resolve_current_meshnet_id HP1 HU1 fresh1 local c1 = id'.
Proof.
  intros E Hk Hid. pose proof (resolve_elected (HashOrder0 := HP1) (HashOrder1 := HU1) fresh1 local c1 k id Hk Hid) as Hel.
  split; [done|]. split.
  - eapply elected_unique; [done|]. rewrite E. eapply resolve_elected; [done|]. by rewrite <-E.
  - intros id' Hmaj. destruct Hel as (_ & Hmax & _). destruct (decide (id' = @resolve_current_meshnet_id HP1 HU1 fresh1 local c1)) as [|Hne]; [done|].
    pose proof (votes_two local (meshnet_ids c1) _ _ Hne). specialize (Hmax id'). lia.
Qed.

(** ** The connectivity matrix *)

Lemma link_min_bits a b : link_bits (link_min a b) = Z.min (link_bits a) (link_bits b).
Proof. unfold link_min. case_match eqn:E; lia. Qed.

Lemma lookup_or_default {K A} `{Countable K} (x : A) (k k' : K) (m : gmap K A) :
  or_default x k m !! k' = if decide (k = k') then Some (default x (m !! k)) else m !! k'.
Proof.
  unfold or_default. destruct (m !! k) eqn:E; simpl; case_decide as Ek; subst; rewrite ?lookup_insert_eq, ?lookup_insert_ne by done; done.
Qed.

Lemma index_keys_snoc from keys k m :
  index_keys from (keys ++ [k]) m = or_default (wrap 8 (Z.of_nat (length keys + from))) k (index_keys from keys m).
Proof. unfold index_keys. rewrite imap_app, foldl_app. simpl. by rewrite Nat.add_0_r. Qed.

Lemma lookup_index_keys from keys m k i : NoDup keys → (∀ k, k ∈ keys → m !! k = None) →
  index_keys from keys m !! k = Some i ↔
  m !! k = Some i ∨ ∃ n, keys !! n = Some k ∧ i = wrap 8 (Z.of_nat (n + from)).
Proof.
  revert i. induction keys as [|k' keys IH] using rev_ind; intros i Hnd Hm; simpl.
  { unfold index_keys. simpl. split; [by left|]. intros [?|(n & Hn & _)]; [done|]. by rewrite lookup_nil in Hn. }
  apply NoDup_app in Hnd as (Hnd & Hni & _). rewrite index_keys_snoc, lookup_or_default.
  assert (∀ k, k ∈ keys → m !! k = None) as Hm' by (intros; apply Hm, elem_of_app; by left).
  assert (m !! k' = None) as Hk' by (apply Hm, elem_of_app; right; by left).
  assert (k' ∉ keys) as Hni' by (intros Hin; apply (Hni _ Hin); by left).
  case_decide as Ek.
  - subst k'. assert (index_keys from keys m !! k = None) as ->.
    { apply eq_None_not_Some. intros [j Hj]. apply IH in Hj as [?|(n & Hn & _)]; [congruence| |done..].
      by destruct Hni'; apply list_elem_of_lookup_2 in Hn. }
    simpl. split.
    + intros [= <-]. right. exists (length keys). by rewrite list_lookup_middle.
    + intros [?|(n & Hn & ->)]; [congruence|]. do 3 f_equal.
      apply lookup_app_Some in Hn as [Hn|[Hge Hn]]; [by apply list_elem_of_lookup_2 in Hn|].
      apply list_lookup_singleton_Some in Hn as [Hn _]. lia.
  - rewrite IH by done. split; (intros [?|(n & Hn & ->)]; [by left|right]).
    + exists n. split; [|done]. by apply lookup_app_l_Some.
    + exists n. split; [|done]. apply lookup_app_Some in Hn as [?|[_ Hn]]; [done|].
      by apply list_lookup_singleton_Some in Hn as [_ ?].
Qed.

Lemma index_keys_none from keys m k : k ∉ keys → m !! k = None → index_keys from keys m !! k = None.
Proof.
  induction keys as [|k' keys IH] using rev_ind; intros Hk Hm; [done|]. rewrite not_elem_of_app in Hk. destruct Hk as [Hk Hk'].
  rewrite index_keys_snoc, lookup_or_default, decide_False; [by apply IH|]. intros ->. apply Hk'. by left.
Qed.

(** The keys of a [BTreeSet] *)
Lemma elem_of_btree_keys X k : k ∈ btree_keys X ↔ k ∈ X.
Proof. unfold btree_keys. by rewrite merge_sort_Permutation, elem_of_elements. Qed.

Lemma NoDup_btree_keys X : NoDup (btree_keys X).
Proof. unfold btree_keys. rewrite merge_sort_Permutation. apply NoDup_elements. Qed.

Lemma btree_keys_sorted X : StronglySorted key_le (btree_keys X).
Proof. apply StronglySorted_merge_sort; apply _. Qed.

Section matrix.
Context `{!HashOrder PublicKey} `{!HashOrderLaws PublicKey}.

Definition link_of (l : gmap (PublicKey * PublicKey) MeshLink) (a b : PublicKey) : Z :=
  link_bits (default mesh_link_default (l !! (a, b))).

Lemma elem_of_matrix index_map l i j b :
  (i, j, b) ∈ matrix_entries index_map l ↔
  ∃ ki kj, index_map !! ki = Some i ∧ index_map !! kj = Some j ∧ (i < j)%Z ∧
    b = Z.min (link_of l ki kj) (link_of l kj ki) ∧ b ≠ 0%Z.
Proof.
  unfold matrix_entries. rewrite list_elem_of_bind. split.
  - intros ([ki i'] & Hin & Hi%elem_of_hash_pairs). apply list_elem_of_omap in Hin as ([kj j'] & Hj%elem_of_hash_pairs & Hb).
    simpl in *. case_match eqn:Eij; [done|]. case_decide; [done|]. simplify_eq. rewrite link_min_bits in *.
    exists ki, kj. split_and!; [done..|lia|done|done].
  - intros (ki & kj & Hi & Hj & Hlt & -> & Hb). exists (ki, i). split; [|by apply elem_of_hash_pairs].
    apply list_elem_of_omap. exists (kj, j). split; [by apply elem_of_hash_pairs|]. simpl.
    destruct (j <=? i)%Z eqn:E; [lia|]. rewrite link_min_bits, decide_False by done. done.
Qed.

Lemma NoDup_omap {A B} (f : A → option B) (l : list A) :
  (∀ x y z, x ∈ l → y ∈ l → f x = Some z → f y = Some z → x = y) → NoDup l → NoDup (omap f l).
Proof.
  induction l as [|x l IH]; intros Hf Hnd; simpl; [constructor|]. apply NoDup_cons in Hnd as [Hx Hnd].
  assert (NoDup (omap f l)) as Hl by (apply IH; [intros ? ? ? ? ?; apply Hf; by right|done]).
  destruct (f x) as [z|] eqn:Ex; [|done]. apply NoDup_cons. split; [|done].
  intros (y & Hy & Ey)%list_elem_of_omap. assert (x = y) as <- by (apply (Hf x y z); [by left|by right|done|done]). done.
Qed.

Lemma NoDup_matrix index_map l : (∀ k k' i, index_map !! k = Some i → index_map !! k' = Some i → k = k') →
  NoDup (matrix_entries index_map l).
Proof.
  intros Hinj. unfold matrix_entries. apply NoDup_bind; [| |apply NoDup_hash_pairs].
  - intros [ki i] [ki' i'] z Hi%elem_of_hash_pairs Hi'%elem_of_hash_pairs
      (x & _ & Hx)%list_elem_of_omap (y & _ & Hy)%list_elem_of_omap. simpl in *.
    repeat (case_match || case_decide); simplify_eq. f_equal. by eapply Hinj.
  - intros [ki i] _. apply NoDup_omap; [|apply NoDup_hash_pairs].
    intros [kj j] [kj' j'] z Hj%elem_of_hash_pairs Hj'%elem_of_hash_pairs Ez Ez'. simpl in *.
    repeat (case_match || case_decide); simplify_eq. f_equal. by eapply Hinj.
Qed.

(** Links that are missing count as default ones. *)
Lemma link_of_default i j c a b : link_of (links (add_default_link i j c)) a b = link_of (links c) a b.
Proof.
  unfold link_of. simpl. rewrite !lookup_or_default. repeat case_decide; simplify_eq; simpl; try done;
    by destruct (links c !! _).
Qed.

Definition default_links (keys : list PublicKey) (st : HbState) : HbState :=
  foldl (λ st i, foldl (λ st j,
    if decide (i ≠ hb_public_key st ∧ i ≠ j) then set_collection (add_default_link i j (collection st)) st else st) st keys) st keys.

(** Filling in links changes nothing else. *)
Definition same_but_links (st st' : HbState) : Prop :=
  st' = set_collection (collection st') st ∧ (∀ a b, link_of (links (collection st')) a b = link_of (links (collection st)) a b) ∧
  col_fingerprints (collection st') = col_fingerprints (collection st) ∧
  nat_type_peers (collection st') = nat_type_peers (collection st).

Lemma foldl_preserves {A B} (R : A → A → Prop) `{!Reflexive R} `{!Transitive R} (f : A → B → A) l a :
  (∀ a b, R a (f a b)) → R a (foldl f a l).
Proof. intros Hf. revert a. induction l as [|b l IH]; intros a; simpl; [done|]. by trans (f a b). Qed.

#[local] Instance same_but_links_refl : Reflexive same_but_links.
Proof. by intros []. Qed.
#[local] Instance same_but_links_trans : Transitive same_but_links.
Proof.
  intros st1 st2 st3 (E2 & L2 & F2 & N2) (E3 & L3 & F3 & N3). split_and!; [|intros; by rewrite L3|congruence|congruence].
  rewrite E3, E2. done.
Qed.

Lemma default_links_same keys st : same_but_links st (default_links keys st).
Proof.
  unfold default_links. apply (foldl_preserves same_but_links). intros st1 i. apply (foldl_preserves same_but_links). intros st2 j.
  case_decide; [|done]. split_and!; [done| |done|done]. intros a b. apply link_of_default.
Qed.
End matrix.

(** ** The cycle of the task *)

(** The parts of the state that only the configuration changes *)
Definition unaffected (st : HbState) :=
  (hb_config st, (hb_chan st, hb_derp_channel st), (cached_private_key st, cached_config st),
   (hb_public_key st, config_nodes st), (meshnet_enabled st, hb_ip_stack st)).

Section cycle.
Context `{IpNets} `{Ciphers} `{NurseFormats} `{IoErrorCodes} (agg_config : AggregatorConfig).
Context `{!HashOrder PublicKey} `{!HashOrder Uuid} `{!HashOrderLaws PublicKey} `{!HashOrderLaws Uuid}.
Implicit Types (st : HbState) (log : list HbEffect) (now : Instant).

Lemma fetch_conn_data_spec now wg disconnect index_map info st :
  ∃ d, (fetch_conn_data agg_config now wg disconnect index_map info st).2 = set_aggregator d st ∧
    peer_segments d = [] ∧ relay_segments d = [] ∧
    ∀ info', (fetch_conn_data agg_config now wg disconnect index_map info st).1 = Some info' →
      info_internal_keys info' = info_internal_keys info ∧ info_external_keys info' = info_external_keys info ∧
      info_meshnet_id info' = info_meshnet_id info ∧ info_meshnet_enabled info' = info_meshnet_enabled info ∧
      info_heartbeat_interval info' = info_heartbeat_interval info.
Proof.
  unfold fetch_conn_data. destruct (collect_unacknowledged_segments _ _ _ _) as [[relay peer] d] eqn:E.
  exists d. unfold collect_unacknowledged_segments in E. simplify_eq/=. split_and!; [done..|].
  intros info' Hi. by apply bind_Some in Hi as (rows & _ & [= <-]).
Qed.

(** The loop over the external nodes *)
Definition external_loop (keys : list PublicKey) (t : text) st : text * HbState :=
  foldl (λ '(t, st) key,
      let node := default node_info_default (local_nodes st !! key) in
      (t ++ external_link st key node, set_local_nodes (or_default node_info_default key (local_nodes st)) st))
    (t, st) keys.

Lemma external_loop_spec keys t st : ∃ m, (external_loop keys t st).2 = set_local_nodes m st ∧
  ∀ k, is_Some (local_nodes st !! k) → is_Some (m !! k).
Proof.
  revert t st. induction keys as [|key keys IH]; intros t st.
  { exists (local_nodes st). split; [by destruct st|done]. }
  unfold external_loop. cbn [foldl]. destruct (IH (t ++ external_link st key (default node_info_default (local_nodes st !! key)))
    (set_local_nodes (or_default node_info_default key (local_nodes st)) st)) as (m & Hm & Hk).
  exists m. split; [exact Hm|]. intros k Hs. apply Hk. cbn. rewrite lookup_or_default. case_decide; [by eexists|done].
Qed.

(** The state after an aggregation, and its report *)
Lemma aggregation_spec now wg fresh st log :
  let st1 := update_current_meshmap_info fresh (set_phase Aggregating (collect_period st) st) in
  let mm := get_current_meshmap_info st1 in
  ∃ info st4 l,
    handle_aggregation agg_config now wg fresh st log =
      (update_config (update_public_key (set_phase Monitoring (now + FAR_FUTURE)%Z st4)), log ++ [HbReport info]) ∧
    unaffected st4 = unaffected st1 ∧ (∀ k, is_Some (local_nodes st1 !! k) → is_Some (local_nodes st4 !! k)) ∧
    info_internal_keys info = internal_sorted_public_keys mm ∧
    info_connectivity_matrix info = pop (concat (print_entry <$> matrix_entries (index_map_internal mm) l)) ∧
    (∀ a b, link_of l a b = link_of (links (collection st1)) a b) ∧
    peer_segments (hb_aggregator st4) = [] ∧ relay_segments (hb_aggregator st4) = [] ∧
    ((fetch_conn_data agg_config now wg false (index_map_full mm) heartbeat_info_default st1).1 = None →
     info_nat_traversal_conn info = [] ∧ info_derp_conn info = []).
Proof.
  intros st1 mm. unfold handle_aggregation. fold st1. fold mm.
  set (info := mkHeartbeatInfo _ _ [] [] _ _ _ [] [] [] [] []).
  destruct (fetch_conn_data_spec now wg false (index_map_full mm) info st1) as (d & Hst2 & Hp & Hr & Hinfo).
  assert ((fetch_conn_data agg_config now wg false (index_map_full mm) heartbeat_info_default st1).1 = None →
    (fetch_conn_data agg_config now wg false (index_map_full mm) info st1).1 = None) as Hnone.
  { unfold fetch_conn_data. destruct (collect_unacknowledged_segments _ _ _ _) as [[relay peer] d']. cbn [fst].
    by destruct (index_map_full mm !! hb_public_key (set_aggregator d' st1) ≫= _). }
  destruct (fetch_conn_data agg_config now wg false (index_map_full mm) info st1) as [fetched st2]. cbn [fst snd] in *. subst st2.
  set (keys := hash_iter (dom (index_map_internal mm))). fold (default_links keys (set_aggregator d st1)).
  destruct (default_links_same keys (set_aggregator d st1)) as (E3 & Hl & _). set (st3 := default_links keys (set_aggregator d st1)) in *.
  fold (external_loop (external_sorted_public_keys mm) [] st3).
  destruct (external_loop_spec (external_sorted_public_keys mm) [] st3) as (m & Hst4 & Hm).
  destruct (external_loop (external_sorted_public_keys mm) [] st3) as [t st4]. cbn [fst snd] in *. subst st4.
  eexists _, (set_local_nodes m st3), (links (collection st3)). split; [reflexivity|].
  split_and!; [by rewrite E3| |destruct fetched as [info'|]; cbn; [by destruct (Hinfo info' eq_refl)|done]|done|done| | |].
  - intros k Hk. apply Hm. by rewrite E3.
  - cbn. by rewrite E3.
  - cbn. by rewrite E3.
  - intros Hn. rewrite (Hnone Hn). done.
Qed.

(** Setting an entry for each key of a list *)
Lemma foldl_insert_some {A} (f : gmap PublicKey A → PublicKey → A) keys (m : gmap PublicKey A) k :
  is_Some (foldl (λ m pk, <[pk := f m pk]> m) m keys !! k) ↔ k ∈ keys ∨ is_Some (m !! k).
Proof.
  revert m. induction keys as [|key keys IH]; intros m; simpl; [rewrite elem_of_nil; tauto|].
  rewrite IH, elem_of_cons. destruct (decide (key = k)) as [->|]; [rewrite lookup_insert_eq; naive_solver|].
  rewrite lookup_insert_ne by done. naive_solver.
Qed.

Lemma foldl_or_default_some {A} (x : A) keys (m : gmap PublicKey A) k :
  is_Some (foldl (λ m pk, or_default x pk m) m keys !! k) ↔ k ∈ keys ∨ is_Some (m !! k).
Proof.
  revert m. induction keys as [|key keys IH]; intros m; simpl; [rewrite elem_of_nil; tauto|].
  rewrite IH, elem_of_cons, lookup_or_default. case_decide; naive_solver.
Qed.

Definition store_fingerprint (m : gmap PublicKey text) (x : PublicKey * text) : gmap PublicKey text :=
  match m !! x.1 with
  | Some _ => if decide (x.2 ≠ str "null") then <[x.1 := x.2]> m else m
  | None => <[x.1 := x.2]> m
  end.

Lemma store_fingerprints_some l (m : gmap PublicKey text) k :
  is_Some (foldl store_fingerprint m l !! k) ↔ k ∈ l.*1 ∨ is_Some (m !! k).
Proof.
  revert m. induction l as [|x l IH]; intros m; simpl; [rewrite elem_of_nil; tauto|].
  rewrite IH, elem_of_cons. unfold store_fingerprint.
  destruct (decide (x.1 = k)) as [<-|Hne]; destruct (m !! x.1) eqn:E; repeat case_decide;
    rewrite ?lookup_insert_eq, ?lookup_insert_ne by done; rewrite ?E; naive_solver.
Qed.

Lemma update_meshmap_spec fresh st :
  let st1 := update_current_meshmap_info fresh st in
  unaffected st1 = unaffected st ∧ hb_state st1 = hb_state st ∧ links (collection st1) = links (collection st) ∧
  (∀ k, is_Some (local_nodes st1 !! k) ↔ config_nodes st !! k = Some true ∨ is_Some (local_nodes st !! k)) ∧
  (∀ k, is_Some (hb_fingerprints st1 !! k) ↔
     k = hb_public_key st ∨ is_Some (config_nodes st !! k) ∨ is_Some (col_fingerprints (collection st) !! k)).
Proof.
  intros st1. split_and!; [done..| |].
  - intros k. unfold st1, update_current_meshmap_info. cbn.
    rewrite (foldl_insert_some (λ m pk, info_with_id _ (default node_info_default (m !! pk)))).
    rewrite elem_of_hash_iter, elem_of_dom. unfold is_Some at 1. setoid_rewrite map_lookup_filter_Some. naive_solver.
  - intros k. unfold st1, update_current_meshmap_info. cbn. fold store_fingerprint. set (fps := foldl _ (<[_ := _]> _) _).
    assert (∀ k, is_Some (fps !! k) ↔ k = hb_public_key st ∨ is_Some (config_nodes st !! k) ∨ is_Some (col_fingerprints (collection st) !! k)) as Hf.
    { intros k'. unfold fps. rewrite (foldl_or_default_some (str "null")), elem_of_hash_iter, elem_of_dom.
      destruct (decide (hb_public_key st = k')) as [->|]; [rewrite lookup_insert_eq|rewrite lookup_insert_ne by done]; naive_solver. }
    rewrite <-Hf. unfold is_Some at 1. setoid_rewrite map_lookup_filter_Some. split.
    + intros (x & _ & Hx). by apply elem_of_dom in Hx.
    + intros Hk. assert (is_Some (foldl store_fingerprint (hb_fingerprints st) (hash_pairs fps) !! k)) as [x Hx].
      { apply store_fingerprints_some. left. rewrite fst_hash_pairs. by apply elem_of_hash_iter, elem_of_dom. }
      exists x. split; [done|]. by apply elem_of_dom.
Qed.

(** The index of an internal node is its place among the sorted keys, modulo 256. *)
Lemma internal_index st k i : let mm := get_current_meshmap_info st in
  index_map_internal mm !! k = Some i ↔ ∃ n, internal_sorted_public_keys mm !! n = Some k ∧ i = wrap 8 (Z.of_nat n).
Proof.
  intros mm. cbn. rewrite lookup_index_keys by (try apply NoDup_btree_keys; intros; apply lookup_empty).
  rewrite lookup_empty. setoid_rewrite Nat.add_0_r. naive_solver.
Qed.

Lemma internal_keys_nodup st : NoDup (internal_sorted_public_keys (get_current_meshmap_info st)).
Proof. apply NoDup_btree_keys. Qed.

(** The connectivity matrix.  An aggregation reports one matrix, over the
    internal nodes in the order of their keys.  With at most 256 of them it has
    exactly one entry for each pair of nodes for which the smaller of the bits
    that the two ends reported is not zero, with that minimum; nodes from the
    257th on get the indices of the first ones again. *)
Theorem connectivity_matrix_exact now wg fresh st log :
  let keys := internal_sorted_public_keys
    (get_current_meshmap_info (update_current_meshmap_info fresh (set_phase Aggregating (collect_period st) st))) in
  ∃ entries info, (handle_aggregation agg_config now wg fresh st log).2 = log ++ [HbReport info] ∧
    info_internal_keys info = keys ∧ info_connectivity_matrix info = pop (concat (print_entry <$> entries)) ∧
    StronglySorted key_le keys ∧ NoDup keys ∧
    (∀ i j b, (i, j, b) ∈ entries ↔ ∃ n m ki kj, keys !! n = Some ki ∧ keys !! m = Some kj ∧
       i = wrap 8 (Z.of_nat n) ∧ j = wrap 8 (Z.of_nat m) ∧ (i < j)%Z ∧
       b = Z.min (link_of (links (collection st)) ki kj) (link_of (links (collection st)) kj ki) ∧ b ≠ 0%Z) ∧
    (length keys ≤ 256 → NoDup entries ∧ ∀ n, n < length keys → wrap 8 (Z.of_nat n) = Z.of_nat n).
Proof.
  intros keys. destruct (aggregation_spec now wg fresh st log) as (info & st4 & l & -> & _ & _ & Hk & Hm & Hl & _).
  set (st1 := update_current_meshmap_info fresh _) in *. set (mm := get_current_meshmap_info st1) in *.
  assert (∀ n, n < length keys → length keys ≤ 256 → wrap 8 (Z.of_nat n) = Z.of_nat n) as Hw
    by (intros; apply Z.mod_small; lia).
  assert (∀ k i, index_map_internal mm !! k = Some i ↔ ∃ n, keys !! n = Some k ∧ i = wrap 8 (Z.of_nat n)) as Hidx
    by (intros; apply internal_index).
  exists (matrix_entries (index_map_internal mm) l), info. split_and!; [done..|apply btree_keys_sorted|apply internal_keys_nodup| |].
  - intros i j b. rewrite elem_of_matrix. setoid_rewrite Hidx. unfold keys.
    destruct (update_meshmap_spec fresh (set_phase Aggregating (collect_period st) st)) as (_ & _ & Hlinks & _).
    fold st1 in Hlinks. setoid_rewrite Hl. rewrite Hlinks. cbn [set_phase collection]. split.
    + intros (ki & kj & (n & Hn & Hi) & (m & Hm' & Hj) & Hlt & Hb & Hnz). exists n, m, ki, kj. done.
    + intros (n & m & ki & kj & Hn & Hm' & Hi & Hj & Hlt & Hb & Hnz). exists ki, kj. split_and!; eauto.
  - intros Hlen. split; [|auto]. apply NoDup_matrix. intros k k' i (n & Hn & ->)%Hidx (n' & Hn' & E)%Hidx.
    pose proof (lookup_lt_Some _ _ _ Hn). pose proof (lookup_lt_Some _ _ _ Hn').
    rewrite !Hw in E by done. apply Nat2Z.inj in E as ->. congruence.
Qed.

(** What the integrator told the task: the last configuration, its own keys from
    the last one on, and how many collections it has started *)
Record Told := mkTold { told_config : option MeshConfigUpdateEvent; own_keys : list PublicKey; collections : nat }.

Definition hb_tell (i : HbInput) (t : Told) : Told :=
  match i with
  | HbConfigUpdate event => mkTold (Some event) (own_keys t) (collections t)
  | HbSetPrivateKey sk => mkTold (told_config t) (secret_key_public sk :: own_keys t) (collections t)
  | HbTrigger | HbTick => mkTold (told_config t) (own_keys t) (S (collections t))
  | _ => t
  end.

Inductive hb_history : Instant → Told → HbState → list HbEffect → Prop :=
| Hb_start now pk id config d : hb_history now (mkTold None [pk] 0) (heartbeat_new now pk id config d) []
| Hb_step now t st log now' i :
    hb_history now t st log → (now <= now')%Z → hb_enabled now' i st = true →
    hb_history now' (hb_tell i t) (hb_step agg_config now' i st log).1 (hb_step agg_config now' i st log).2.

(** A configuration is in force: the nodes are its nodes, and the own one *)
Definition in_force (t : Told) st : Prop :=
  let event := default (mkMeshConfigUpdateEvent false ∅ None) (told_config t) in
  meshnet_enabled st = update_enabled event ∧ hb_ip_stack st = update_ip_stack event ∧
  ∀ k, k ∉ own_keys t → config_nodes st !! k = update_nodes event !! k.

Definition is_report (e : HbEffect) : bool := match e with HbReport _ => true | HbSend _ _ => false end.
Definition reports (log : list HbEffect) : nat := length (List.filter is_report log).

Record cycle_ok (t : Told) st log : Prop := {
  cycle_self : config_nodes st !! hb_public_key st = Some true ∧ hb_public_key st ∈ own_keys t;
  cycle_key : head (own_keys t) =
    Some (match cached_private_key st with Some sk => secret_key_public sk | None => hb_public_key st end);
  cycle_config : match cached_config st with Some event => told_config t = Some event | None => in_force t st end;
  cycle_state : match hb_state st with
                | Monitoring => cached_private_key st = None ∧ cached_config st = None ∧ reports log = collections t
                | Collecting => S (reports log) = collections t
                | Aggregating => False
                end
}.

(** Steps that leave the configuration alone *)
Lemma cycle_frame t st st' log log' : cycle_ok t st log → unaffected st' = unaffected st → hb_state st' = hb_state st →
  reports log' = reports log → cycle_ok t st' log'.
Proof.
  intros [Hs Hk Hc Hst] Hf Hst' Hr. unfold unaffected in Hf. simplify_eq. destruct st, st'. simpl in *. simplify_eq.
  constructor; simpl; [done|done|done|].
  rewrite Hr. by match goal with |- match ?x with _ => _ end => destruct x end.
Qed.

Lemma reports_snoc log e : reports (log ++ [e]) = reports log + if is_report e then 1 else 0.
Proof. unfold reports. rewrite List.filter_app, length_app. simpl. by destruct (is_report e). Qed.

Lemma reports_sends log l : reports (log ++ ((λ pk, HbSend pk heartbeat_request) <$> l)) = reports log.
Proof. unfold reports. rewrite List.filter_app, length_app. induction l as [|pk l IH]; [simpl; lia|exact IH]. Qed.

Lemma handle_response_frame pk msg st :
  let st' := handle_response_message pk msg st in unaffected st' = unaffected st ∧ hb_state st' = hb_state st.
Proof.
  unfold handle_response_message. set (st1 := set_collection (add_peer_nat_type _ _ _) _).
  assert (unaffected st1 = unaffected st ∧ hb_state st1 = hb_state st) as H1' by (unfold st1; by case_match).
  revert H1'. generalize st1. induction (statuses msg) as [|status l IH]; intros st2 Hst2; simpl; [done|].
  apply IH. by repeat case_match.
Qed.

Lemma message_frame pk msg st log :
  let r := message_handler pk msg st log in
  unaffected r.1 = unaffected st ∧ hb_state r.1 = hb_state st ∧ reports r.2 = reports log.
Proof.
  unfold message_handler. set (st1 := set_collection _ (set_local_nodes _ st)).
  assert (unaffected st1 = unaffected st ∧ hb_state st1 = hb_state st) as [Hf Hs] by done.
  destruct (message_type msg).
  - unfold handle_request_message. cbn [fst snd]. split_and!; [done|done|]. destruct (hb_chan st1); [|done].
    rewrite reports_snoc. simpl. lia.
  - case_decide; [done|]. cbn [fst snd]. destruct (handle_response_frame pk msg st1) as [-> ->]. done.
Qed.

(** The configuration and the key that were kept come into force when the task
    monitors again. *)
Lemma cycle_resume t st log : hb_state st = Monitoring → reports log = collections t →
  config_nodes st !! hb_public_key st = Some true ∧ hb_public_key st ∈ own_keys t →
  head (own_keys t) = Some (match cached_private_key st with Some sk => secret_key_public sk | None => hb_public_key st end) →
  match cached_config st with Some event => told_config t = Some event | None => in_force t st end →
  cycle_ok t (update_config (update_public_key st)) log.
Proof.
  intros Hst Hr Hs Hk Hc. unfold update_public_key. rewrite decide_True by done.
  set (st1 := match cached_private_key st with Some _ => _ | None => _ end).
  assert (hb_state st1 = Monitoring ∧ cached_private_key st1 = None ∧ cached_config st1 = cached_config st ∧
    (config_nodes st1 !! hb_public_key st1 = Some true) ∧ head (own_keys t) = Some (hb_public_key st1) ∧
    (in_force t st → in_force t st1)) as (Hst1 & Hk1 & Hc1 & Hs1 & Ho1 & Hf1).
  { unfold st1. destruct (cached_private_key st) as [sk|] eqn:E; [|by destruct Hs].
    cbn. split_and!; [done..|by rewrite lookup_insert_eq|done|]. intros (H1' & H2' & H3'). split_and!; [done..|].
    intros k Hn. cbn. assert (hb_public_key st ≠ k) by (intros E'; apply Hn; rewrite <-E'; by destruct Hs).
    assert (secret_key_public sk ≠ k) by (intros E'; apply Hn; destruct (own_keys t); simplify_eq/=; by left).
    rewrite lookup_insert_ne, lookup_delete_ne by done. by apply H3'. }
  assert (hb_public_key st1 ∈ own_keys t) as Hin1 by (destruct (own_keys t); simplify_eq/=; by left).
  unfold update_config. rewrite Hc1. destruct (cached_config st) as [event|].
  - unfold handle_config_update_event. cbn [set_cached hb_state]. rewrite decide_True by done.
    constructor; cbn; [by rewrite lookup_insert_eq|by rewrite Hk1| |by rewrite Hst1].
    unfold in_force. rewrite Hc. cbn. split_and!; [done..|]. intros k Hn. rewrite lookup_insert_ne; [done|]. by intros <-.
  - constructor; [done|by rewrite Hk1|rewrite Hc1; by apply Hf1|by rewrite Hst1].
Qed.

Lemma unaffected_inv st st' : unaffected st' = unaffected st →
  cached_private_key st' = cached_private_key st ∧ cached_config st' = cached_config st ∧
  hb_public_key st' = hb_public_key st ∧ config_nodes st' = config_nodes st ∧
  meshnet_enabled st' = meshnet_enabled st ∧ hb_ip_stack st' = hb_ip_stack st ∧
  hb_config st' = hb_config st ∧ hb_chan st' = hb_chan st.
Proof. unfold unaffected. intros. by simplify_eq. Qed.

Lemma cycle_aggregation t now wg fresh st log : cycle_ok t st log → hb_state st = Collecting →
  let r := handle_aggregation agg_config now wg fresh st log in cycle_ok t r.1 r.2.
Proof.
  intros [Hs Hk Hc Hst] E. rewrite E in Hst.
  destruct (aggregation_spec now wg fresh st log) as (info & st4 & l & -> & Hf & _).
  destruct (update_meshmap_spec fresh (set_phase Aggregating (collect_period st) st)) as (Hf1 & _).
  rewrite Hf1 in Hf. apply (unaffected_inv st) in Hf as (Esk & Ecc & Epk & Enodes & Een & Estack & _).
  apply cycle_resume; [done|cbn [snd]; rewrite reports_snoc; simpl; lia|..]; cbn; rewrite ?Esk, ?Ecc, ?Epk, ?Enodes; [done..|].
  destruct (cached_config st); [done|]. unfold in_force in *. cbn. by rewrite Een, Estack, Enodes.
Qed.

Lemma cycle_config_update t event st log : cycle_ok t st log →
  cycle_ok (hb_tell (HbConfigUpdate event) t) (handle_config_update_event event st) log.
Proof.
  intros [Hs Hk Hc Hst]. unfold handle_config_update_event. case_decide as E.
  - rewrite E in Hst. destruct Hst as (Hsk & Hcc & Hr).
    constructor; cbn; [by rewrite lookup_insert_eq; destruct Hs|done| |by rewrite E].
    rewrite Hcc. unfold in_force. cbn. split_and!; [done..|]. intros k Hn.
    rewrite lookup_insert_ne; [done|]. by intros <-; destruct Hs.
  - constructor; cbn; [done|done|done|]. by destruct (hb_state st).
Qed.

Lemma in_force_key t sk st : in_force t st → in_force (hb_tell (HbSetPrivateKey sk) t) st.
Proof. intros (Hm & Hi & Hn). split_and!; [done..|]. intros k Hk. apply Hn. cbn in Hk. by intros ?; apply Hk; right. Qed.

Lemma cycle_private_key t sk st log : cycle_ok t st log →
  cycle_ok (hb_tell (HbSetPrivateKey sk) t) (hb_set_private_key sk st) log.
Proof.
  intros [Hs Hk Hc Hst]. unfold hb_set_private_key. set (st1 := set_cached _ _ st).
  assert (match cached_config st1 with Some event => told_config t = Some event
          | None => in_force (hb_tell (HbSetPrivateKey sk) t) st1 end) as Hc1.
  { cbn. destruct (cached_config st); [done|]. by apply in_force_key. }
  assert (config_nodes st1 !! hb_public_key st1 = Some true ∧ hb_public_key st1 ∈ own_keys (hb_tell (HbSetPrivateKey sk) t)) as Hs1.
  { cbn. split; [by destruct Hs|right; by destruct Hs]. }
  destruct (decide (hb_state st = Monitoring)) as [E|E].
  - rewrite E in Hst. destruct Hst as (Hsk & Hcc & Hr).
    assert (update_public_key st1 = update_config (update_public_key st1)) as ->.
    { unfold update_public_key, update_config. rewrite decide_True by done. cbn. by rewrite Hcc. }
    by apply cycle_resume.
  - unfold update_public_key. rewrite decide_False by done. constructor; [done|done|done|].
    cbn. by destruct (hb_state st).
Qed.

Lemma cycle_collection t now st log : cycle_ok t st log → hb_state st = Monitoring →
  let r := handle_collection now st log in cycle_ok (hb_tell HbTrigger t) r.1 r.2.
Proof.
  intros [Hs Hk Hc Hst] E. rewrite E in Hst. destruct Hst as (Hsk & Hcc & Hr).
  constructor; [done|done|done|]. cbn -[reports]. by rewrite reports_sends, Hr.
Qed.

Lemma cycle_step t now i st log : cycle_ok t st log → hb_enabled now i st = true →
  let r := hb_step agg_config now i st log in cycle_ok (hb_tell i t) r.1 r.2.
Proof.
  intros Hok Hen. destruct i as [node|retrieved|event| | |pk msg|wg fresh|sk|enable|wg fresh]; cbn [hb_step fst snd].
  - apply (cycle_frame t st _ log); [done|by unfold handle_wg_event; case_decide..|done].
  - by apply (cycle_frame t st _ log).
  - by apply cycle_config_update.
  - apply bool_decide_eq_true_1 in Hen. by apply cycle_collection.
  - apply bool_decide_eq_true_1 in Hen. by apply cycle_collection.
  - destruct (message_frame pk msg st log) as (Hf & Hst & Hr). by apply (cycle_frame t st _ log).
  - apply bool_decide_eq_true_1 in Hen as [Hen _]. by apply cycle_aggregation.
  - by apply cycle_private_key.
  - destruct Hok. by constructor.
  - destruct (update_meshmap_spec fresh st) as (Hf & Hst & _). unfold get_disconnect_data.
    revert Hf Hst. generalize (update_current_meshmap_info fresh st). intros st1 Hf Hst.
    destruct (fetch_conn_data_spec now wg true (index_map_full (get_current_meshmap_info st1)) heartbeat_info_default st1)
      as (d & -> & _).
    apply (cycle_frame t st _ log); [exact Hok|exact Hf|exact Hst|reflexivity].
Qed.
Lemma hb_history_ok now t st log : hb_history now t st log → cycle_ok t st log.
Proof.
  induction 1 as [now pk id config d|now t st log now' i _ IH _ Hen]; [|by apply cycle_step].
  constructor; cbn; [by rewrite lookup_singleton_eq; split; [|left]|done| |done].
  split_and!; [done..|]. intros k Hk. cbn. rewrite lookup_empty, lookup_singleton_ne; [done|]. intros <-. by apply Hk; left.
Qed.

(** The key and the configuration that the integrator gave last are in force. *)
Definition last_in_force (t : Told) st : Prop :=
  head (own_keys t) = Some (hb_public_key st) ∧ config_nodes st !! hb_public_key st = Some true ∧ in_force t st.

Lemma monitoring_in_force t st log : cycle_ok t st log → hb_state st = Monitoring → last_in_force t st ∧ reports log = collections t.
Proof.
  intros [[Hs _] Hk Hc Hst] E. rewrite E in Hst. destruct Hst as (Hsk & Hcc & Hr). rewrite Hsk in Hk. rewrite Hcc in Hc. done.
Qed.

(** C16: the cycle of the heartbeats.  Whatever the events, their order and the
    messages of the peers, every collection ends in exactly one report and none
    is started while another one runs.  Monitoring, the task works with the last
    private key and the last configuration it was given; those that arrive
    during a collection are kept, and the end of the collection, whose deadline
    is always reached, puts the last ones in force. *)
Theorem heartbeat_cycle now t st log : hb_history now t st log →
  (hb_state st = Monitoring ∧ last_in_force t st ∧ reports log = collections t) ∨
  (hb_state st = Collecting ∧ S (reports log) = collections t ∧
   ∀ now' wg fresh, (collect_period st <= now')%Z →
     hb_enabled now' (HbCollected wg fresh) st = true ∧
     let r := hb_step agg_config now' (HbCollected wg fresh) st log in
     hb_state r.1 = Monitoring ∧ last_in_force t r.1 ∧ reports r.2 = collections t).
Proof.
  intros Hok%hb_history_ok. pose proof (cycle_state _ _ _ Hok) as Hst. destruct (hb_state st) eqn:E; [left|right|done].
  { split; [done|]. by apply (monitoring_in_force t st log). }
  split_and!; [done..|]. intros now' wg fresh Hd.
  assert (hb_enabled now' (HbCollected wg fresh) st = true) as Hen by (by apply bool_decide_eq_true_2). split; [done|].
  pose proof (cycle_step t now' _ st log Hok Hen) as Hok'. cbn [hb_tell] in Hok'. intros r. fold r in Hok'.
  assert (hb_state r.1 = Monitoring) as Hm.
  { pose proof (cycle_state _ _ _ Hok') as Hst'. destruct (hb_state r.1); [done| |done]. exfalso.
    assert (reports r.2 = S (reports log)) as Hr; [|lia].
    unfold r. cbn [hb_step]. destruct (aggregation_spec now' wg fresh st log) as (info & st4 & l & -> & _).
    cbn [snd]. rewrite reports_snoc. simpl. lia. }
  split; [done|]. by apply (monitoring_in_force t r.1 r.2).
Qed.

(** What the end of a collection keeps of the state *)
Lemma resume_keeps st : let st' := update_config (update_public_key st) in
  local_nodes st' = local_nodes st ∧ hb_aggregator st' = hb_aggregator st ∧
  hb_config st' = hb_config st ∧ hb_chan st' = hb_chan st.
Proof.
  unfold update_config, update_public_key, handle_config_update_event. by repeat (case_match || case_decide).
Qed.

(** The device asks itself.  The aggregation enters every node that the
    configuration calls local, the own one too, into the nodes the task has a
    connection with, so with a running channel the next collection sends a
    request to the own key, and waits for the answers until its time is up,
    also when there is nobody to answer. *)
Theorem heartbeat_asks_itself now t st log now' wg fresh now'' :
  hb_history now t st log → hb_chan st = true →
  let r := handle_aggregation agg_config now' wg fresh st log in
  let c := handle_collection now'' r.1 r.2 in
  HbSend (hb_public_key st) heartbeat_request ∈ c.2 ∧
  collect_period c.1 = (now'' + collect_answer_timeout (hb_config st))%Z.
Proof.
  intros [[Hs _] _ _ _]%hb_history_ok Hchan r c.
  destruct (aggregation_spec now' wg fresh st log) as (info & st4 & l & Hagg & Hf & Hkeep & _).
  destruct (update_meshmap_spec fresh (set_phase Aggregating (collect_period st) st)) as (Hf1 & _ & _ & Hn1 & _).
  rewrite Hf1 in Hf. apply (unaffected_inv st) in Hf as (_ & _ & _ & _ & _ & _ & Ecfg & Echan).
  destruct (resume_keeps (set_phase Monitoring (now' + FAR_FUTURE)%Z st4)) as (Eln & _ & Ecfg' & Echan').
  assert (hb_public_key st ∈ hash_iter (dom (local_nodes r.1))) as Hin.
  { apply elem_of_hash_iter, elem_of_dom. unfold r. rewrite Hagg. cbn [fst]. rewrite Eln. cbn.
    apply Hkeep, Hn1. left. exact Hs. }
  assert (hb_chan r.1 = true ∧ hb_config r.1 = hb_config st) as [Hc Hcfg].
  { unfold r. rewrite Hagg. cbn [fst]. rewrite Echan', Ecfg'. cbn. by rewrite Echan, Ecfg. }
  unfold c. revert Hin Hc Hcfg. generalize r.1 r.2. intros st5 log5 Hin Hc Hcfg.
  unfold handle_collection. cbn. rewrite Hc, Hcfg. split.
  - apply elem_of_app. right. apply list_elem_of_fmap. eauto.
  - cbn. rewrite bool_decide_eq_true_2; [done|]. intros E. rewrite E in Hin. by apply not_elem_of_nil in Hin.
Qed.
(** A node without an entry in the configuration, in the answers and in the
    local nodes has no index. *)
Lemma unknown_not_indexed fresh st k : k ≠ hb_public_key st → config_nodes st !! k = None →
  col_fingerprints (collection st) !! k = None → local_nodes st !! k = None →
  index_map_full (get_current_meshmap_info (update_current_meshmap_info fresh st)) !! k = None.
Proof.
  intros Hne Hcn Hfp Hln. destruct (update_meshmap_spec fresh st) as (_ & _ & _ & Hl & Hf).
  generalize dependent (update_current_meshmap_info fresh st). intros st1 Hl Hf.
  assert (hb_fingerprints st1 !! k = None ∧ local_nodes st1 !! k = None) as [Hk1 Hk2].
  { split; apply eq_None_not_Some; rewrite ?Hf, ?Hl, ?Hcn, ?Hfp, ?Hln;
    intros Hx; repeat destruct Hx as [?|Hx]; simplify_eq/=; by destruct Hx. }
  assert (k ∉ (dom (hb_fingerprints st1) : gset PublicKey)) as Hd1 by (rewrite elem_of_dom, Hk1; apply is_Some_None).
  cbn [get_current_meshmap_info index_map_full].
  apply index_keys_none; [|apply index_keys_none; [|apply lookup_empty]]; rewrite elem_of_btree_keys.
  - rewrite elem_of_union, elem_of_difference. intros [[? _]|Hx]; [done|]. apply elem_of_dom in Hx as [x Hx].
    apply map_lookup_filter_Some in Hx as [Hx _]. congruence.
  - rewrite elem_of_filter. by intros [_ ?].
Qed.

(** A node that left loses the whole interval.  If the aggregator returns a
    segment of a node that the configuration no longer has, and from which no
    answer came, the report has no connectivity data, neither of the other peers nor
    of the relay, and the segments are gone from the aggregator. *)
Theorem left_peer_discards_data now wg fresh st log seg :
  seg ∈ (collect_unacknowledged_segments agg_config now wg (hb_aggregator st)).1.2 →
  seg_node seg ≠ hb_public_key st → config_nodes st !! seg_node seg = None →
  col_fingerprints (collection st) !! seg_node seg = None → local_nodes st !! seg_node seg = None →
  let r := handle_aggregation agg_config now wg fresh st log in
  ∃ info, r.2 = log ++ [HbReport info] ∧ info_nat_traversal_conn info = [] ∧ info_derp_conn info = [] ∧
    peer_segments (hb_aggregator r.1) = [] ∧ relay_segments (hb_aggregator r.1) = [].
Proof.
  intros Hseg Hne Hcn Hfp Hln r.
  pose proof (unknown_not_indexed fresh (set_phase Aggregating (collect_period st) st) _ Hne Hcn Hfp Hln) as Hidx.
  destruct (aggregation_spec now wg fresh st log) as (info & st4 & l & Hagg & _ & _ & _ & _ & _ & Hp & Hr & Hnone).
  exists info. unfold r. rewrite Hagg. destruct (resume_keeps (set_phase Monitoring (now + FAR_FUTURE)%Z st4)) as (_ & Ha & _).
  cbn [fst snd]. rewrite Ha. destruct Hnone as [Hn1 Hn2]; [|done].
  generalize dependent (index_map_full (get_current_meshmap_info (update_current_meshmap_info fresh
    (set_phase Aggregating (collect_period st) st)))). intros im Hidx. unfold fetch_conn_data. cbn [hb_aggregator].
  change (hb_aggregator (update_current_meshmap_info _ _)) with (hb_aggregator st).
  destruct (collect_unacknowledged_segments agg_config now wg (hb_aggregator st)) as [[relay peer] d]. cbn [fst snd] in *.
  apply bind_None. left.
  match goal with |- ?x ≫= _ = None => destruct x as [us|]; [|reflexivity] end. cbn. apply mapM_None, Exists_exists. exists seg. split; [done|].
  apply bind_None. left. exact Hidx.
Qed.
End cycle.

Module HeartbeatSamples.
Import ToyCrypto CryptoSamples AggregatorSamples.

#[local] Existing Instance AddrPrefix.nets.
#[local] Existing Instance ToyCiphers.
#[local] Existing Instance elements_order.
#[local] Existing Instance elements_order_laws.

#[local] Instance plain_formats : NurseFormats := {
  uuid_to_string := λ id, concat (print_u64 <$> id);
  md5_hex := λ t, t;
  csv_row := λ fields, concat ((λ f, f ++ [colon]) <$> fields) ++ [comma];
  nat_type_name := λ t, match t with NatUnknown => str "Unknown" | _ => str "Known" end
}.
#[local] Instance same_code : IoErrorCodes := λ _, 0%Z.

(** Another order of the same elements *)
Definition reverse_order {K} `{Countable K} : HashOrder K := λ X, rev (elements X).
Lemma reverse_order_laws {K} `{Countable K} : @HashOrderLaws K _ _ reverse_order.
Proof. split. intros X. symmetry. apply Permutation_rev. Qed.

Definition key (b : Z) : PublicKey := mkPublicKey (replicate 32 b).
Definition id_a : Uuid := replicate 16 10%Z.
Definition id_b : Uuid := replicate 16 11%Z.
Definition id_c : Uuid := replicate 16 12%Z.
Definition three_answers : Collection :=
  add_meshnet_id (key 1) id_a (add_meshnet_id (key 2) id_b (add_meshnet_id (key 3) id_b collection_clear)).

(** Two of three nodes decide, in any order. *)
Lemma meshnet_id_resolution_witness :
  @resolve_current_meshnet_id elements_order elements_order id_a {[key 1; key 2; key 3]} three_answers = id_b ∧
  @resolve_current_meshnet_id reverse_order reverse_order id_c {[key 1; key 2; key 3]} three_answers = id_b.
Proof.
  destruct (@meshnet_id_resolution {[key 1; key 2; key 3]} three_answers three_answers id_a id_c
    elements_order elements_order elements_order_laws elements_order_laws
    reverse_order reverse_order reverse_order_laws reverse_order_laws (key 1) id_a eq_refl ltac:(set_solver) eq_refl)
    as (_ & Heq & Hmaj).
  rewrite <-Heq. split; apply Hmaj; vm_compute; lia.
Defined.

Definition hb_config0 : HeartbeatConfig := heartbeat_config_new 300 21600 false None.
Definition alice_key : PublicKey := secret_key_public alice.
Definition begun : HbState := hb_configure_meshnet true (heartbeat_new 0 alice_key id_a hb_config0 gone).
Definition with_them : MeshConfigUpdateEvent := mkMeshConfigUpdateEvent true {[them := true]} None.
Definition asked : HbState * list HbEffect := handle_collection 1000 (handle_config_update_event with_them begun) [].
Definition answered : HbState * list HbEffect :=
  message_handler them (heartbeat_response id_b (str "other") [] UdpBlocked) asked.1 asked.2.

(** One answer: one entry of the matrix *)
Lemma connectivity_matrix_exact_witness :
  ∃ entries info, (handle_aggregation all_events 11000 None id_c answered.1 answered.2).2 = answered.2 ++ [HbReport info] ∧
    info_connectivity_matrix info = pop (concat (print_entry <$> entries)) ∧ NoDup entries ∧ (0, 1, 1)%Z ∈ entries.
Proof.
  destruct (connectivity_matrix_exact all_events 11000 None id_c answered.1 answered.2)
    as (entries & info & Hlog & _ & Hm & _ & _ & Hin & Hnd).
  exists entries, info. split_and!; [exact Hlog|exact Hm|apply Hnd; vm_compute; lia|]. apply Hin.
  eexists 0, 1, _, _. split; [vm_compute; reflexivity|]. split; [vm_compute; reflexivity|].
  split_and!; [reflexivity|reflexivity|lia|vm_compute; reflexivity|done].
Defined.

Definition alone : MeshConfigUpdateEvent := mkMeshConfigUpdateEvent false ∅ None.
Definition inputs : list (Instant * HbInput) :=
  [(0, HbConfigureMeshnet true); (500, HbConfigUpdate with_them); (1000, HbTick);
   (2000, HbSetPrivateKey bob); (3000, HbConfigUpdate alone)]%Z.
Definition run : list (Instant * HbInput) → HbState * list HbEffect :=
  foldl (λ r x, hb_step all_events x.1 x.2 r.1 r.2) (heartbeat_new 0 alice_key id_a hb_config0 gone, []).

Definition told (l : list (Instant * HbInput)) : Told := foldl (λ t x, hb_tell x.2 t) (mkTold None [alice_key] 0) l.

Lemma run_snoc now l now' i : hb_history all_events now (told l) (run l).1 (run l).2 → (now <= now')%Z →
  hb_enabled now' i (run l).1 = true →
  hb_history all_events now' (told (l ++ [(now', i)])) (run (l ++ [(now', i)])).1 (run (l ++ [(now', i)])).2.
Proof. intros Hh Hle Hen. unfold told, run. rewrite !foldl_app. exact (Hb_step all_events now _ _ _ now' i Hh Hle Hen). Qed.

Lemma history_begun : hb_history all_events 0 (told (take 1 inputs)) (run (take 1 inputs)).1 (run (take 1 inputs)).2.
Proof. apply (run_snoc 0 []); [apply Hb_start|lia|reflexivity]. Qed.
Lemma history_inputs : hb_history all_events 3000 (told inputs) (run inputs).1 (run inputs).2.
Proof.
  apply (run_snoc 2000 (take 4 inputs)); [|lia|reflexivity]. apply (run_snoc 1000 (take 3 inputs)); [|lia|reflexivity].
  apply (run_snoc 500 (take 2 inputs)); [|lia|vm_compute; reflexivity]. apply (run_snoc 0 (take 1 inputs)); [|lia|reflexivity].
  apply history_begun.
Qed.

(** A key and a configuration that arrive during a collection *)
Lemma heartbeat_cycle_witness :
  let st := run inputs in let r := hb_step all_events 11000 (HbCollected None id_c) st.1 st.2 in
  hb_state st.1 = Collecting ∧ hb_public_key st.1 = alice_key ∧ hb_state r.1 = Monitoring ∧
  hb_public_key r.1 = secret_key_public bob ∧ config_nodes r.1 !! them = None ∧ reports r.2 = 1.
Proof.
  cbv zeta. destruct (heartbeat_cycle all_events _ _ _ _ history_inputs) as [(Hm & _)|(Hc & _ & Hend)]; [by vm_compute in Hm|].
  destruct (Hend 11000%Z None id_c) as (_ & Hm & (Hk & _ & _ & _ & Hn) & Hr); [vm_compute; congruence|].
  change (Some (secret_key_public bob) = Some (hb_public_key (hb_step all_events 11000 (HbCollected None id_c) (run inputs).1 (run inputs).2).1)) in Hk.
  split; [exact Hc|]. split; [vm_compute; reflexivity|]. split; [exact Hm|]. split; [congruence|]. split; [|exact Hr].
  apply Hn. apply (bool_decide_unpack _). vm_compute. exact I.
Defined.

(** No peer at all, and a request *)
Lemma heartbeat_asks_itself_witness :
  let st := run (take 1 inputs) in
  let r := handle_aggregation all_events 11000 None id_c st.1 st.2 in
  let c := handle_collection (from_secs 60) r.1 r.2 in
  config_nodes st.1 = {[alice_key := true]} ∧ HbSend alice_key heartbeat_request ∈ c.2 ∧ collect_period c.1 = from_secs 70.
Proof.
  cbv zeta. destruct (heartbeat_asks_itself all_events _ _ _ _ 11000 None id_c (from_secs 60) history_begun eq_refl) as [Hs Hd].
  split; [vm_compute; reflexivity|]. split; [exact Hs|exact Hd].
Defined.

(** The two segments of a peer that is gone *)
Lemma left_peer_discards_data_witness :
  length (peer_segments (hb_aggregator begun)) = 2 ∧
  ∃ info, (handle_aggregation all_events 11000 None id_c begun []).2 = [HbReport info] ∧ info_nat_traversal_conn info = [] ∧
    peer_segments (hb_aggregator (handle_aggregation all_events 11000 None id_c begun []).1) = [].
Proof.
  split; [vm_compute; reflexivity|].
  destruct (peer_segments gone) as [|seg segs] eqn:E; [by vm_compute in E|].
  assert (seg_node seg = them ∧ seg ∈ (collect_unacknowledged_segments all_events 11000 None (hb_aggregator begun)).1.2) as [En Hin].
  { assert (seg :: segs = peer_segments gone) as E' by done. split; [vm_compute in E'; by injection E' as -> _|].
    change ((collect_unacknowledged_segments all_events 11000 None (hb_aggregator begun)).1.2) with (peer_segments gone).
    rewrite E. by left. }
  destruct (left_peer_discards_data all_events 11000 None id_c begun [] seg Hin) as (info & Hl & Hp & _ & Hs & _);
    [rewrite En; vm_compute; congruence|rewrite En; vm_compute; reflexivity..|].
  exists info. split; [exact Hl|]. split; [exact Hp|exact Hs].
Defined.
End HeartbeatSamples.
