(* ===== verification/Qos.v ===== *)
(** * The quality of service analytics and the nurse

    The task that measures the nodes ([telio-nurse/src/qos.rs]), the pings it makes
    ([telio-utils/src/pinger.rs]), and the task that joins the reports of the
    heartbeat with its data ([telio-nurse/src/nurse.rs]).

    Histograms and the sending of a single ping are third-party code and appear as
    interfaces; so does the analytics library to which the reports go, of which only
    the calls are recorded.  Percentiles are computed in [f64], for which the
    standard's specification of binary64 is used. *)

From stdpp Require Import strings.
From Stdlib Require Import SpecFloat.
From S2P Require Import Prelude NetTypes WgTypes Crypto NetText Proto Controller Consolidation Backoff LinkDetection Derp DeviceTypes Aggregator Heartbeat.

(** ** Pings *)

(** [surge_ping]: the outcome of one ping of a host, by the number of the try and
    its sequence number, with the round trip time *)
Class PingNet := ping_once : StdIpAddr → Z → Z → option Duration.

Record QosPinger := mkQosPinger { client_v6 : bool; no_of_tries : Z }.

Record PingResults := mkPingResults {
  ping_host : option StdIpAddr;
  successful_pings : Z;
  unsuccessful_pings : Z;
  avg_rtt : option Duration
}.

Record DualPingResults := mkDualPingResults { ping_v4 : option PingResults; ping_v6 : option PingResults }.

Definition dual_ping_default : DualPingResults := mkDualPingResults None None.

Definition ping_sequence (i : Z) : Z := if (i <? 2 ^ 16)%Z then i else 0.

(** The loop of [ping_action]: the sum, and the counts of both kinds *)
Definition ping_try `{PingNet} (host : StdIpAddr) (acc : Z * Z * Z) (i : Z) : Z * Z * Z :=
  let '(sum, ok, failed) := acc in
  match ping_once host i (ping_sequence i) with
  | Some duration => (Z.min DURATION_MAX (sum + duration), wrap 32 (ok + 1), failed)
  | None => (sum, ok, wrap 32 (failed + 1))
  end%Z.

Definition ping_tries (p : QosPinger) : list Z := Z.of_nat <$> seq 0 (Z.to_nat (no_of_tries p)).

(** [Pinger::ping_action] *)
Definition ping_action `{PingNet} (p : QosPinger) (host : StdIpAddr) : option PingResults :=
  match host with
  | V6 _ => if client_v6 p then Some tt else None
  | V4 _ => Some tt
  end ≫= λ _,
  let '(sum, ok, failed) := foldl (ping_try host) (0, 0, 0)%Z (ping_tries p) in
  Some (mkPingResults (Some host) ok failed (if (ok =? 0)%Z then None else Some (sum / ok)%Z)).

Definition ping_side `{PingNet} (p : QosPinger) (host : StdIpAddr) (r : DualPingResults) : DualPingResults :=
  match host with
  | V4 _ => mkDualPingResults (ping_action p host) (ping_v6 r)
  | V6 _ => mkDualPingResults (ping_v4 r) (ping_action p host)
  end.

(** [Pinger::perform] *)
Definition pinger_perform `{PingNet} (p : QosPinger) (t : DualTarget) : DualPingResults :=
  match get_targets t with
  | Ok (primary, secondary) =>
      let r := ping_side p primary dual_ping_default in
      match secondary with Some host => ping_side p host r | None => r end
  | Err _ => dual_ping_default
  end.

(** ** Nodes *)

(** [histogram::Histogram]; an increment that fails leaves it as the library does. *)
Class Histograms := {
  Histogram : Type;
  hist_new : Histogram;
  hist_increment : Z → Histogram → Histogram;
  hist_entries : Histogram → Z;
  hist_percentile : spec_float → Histogram → option Z
}.

Section qos.
Context `{IpNets} `{Histograms}.

(** [qos::NodeInfo] *)
Record QosNode := mkQosNode {
  qos_public_key : PublicKey;
  qos_peer_state : NodeState;
  qos_last_event : Instant;
  connected_time : Duration;
  qos_ip_addresses : list DualTarget;
  rtt_histogram : Histogram;
  rtt_loss_histogram : Histogram;
  rtt6_histogram : Histogram;
  rtt6_loss_histogram : Histogram;
  last_tx_bytes : Z;
  last_rx_bytes : Z;
  tx_histogram : Histogram;
  rx_histogram : Histogram
}.

Definition checked_duration_since (later earlier : Instant) : option Duration :=
  if (earlier <=? later)%Z then Some (later - earlier)%Z else None.

Fixpoint increments (n : nat) (v : Z) (h : Histogram) : Histogram :=
  match n with O => h | S n => increments n v (hist_increment v h) end.

(** [NodeInfo::update_throughput_info] *)
Definition update_throughput_info (event : AnalyticsEvent) (n : QosNode) : QosNode :=
  match checked_duration_since (ae_timestamp event) (qos_last_event n) with
  | Some duration =>
      let duration_as_seconds := Z.max 1 (as_secs duration) in
      let current_tx := Z.max 0 (ae_tx_bytes event - last_tx_bytes n) in
      let current_rx := Z.max 0 (ae_rx_bytes event - last_rx_bytes n) in
      let times := Z.to_nat duration_as_seconds in
      mkQosNode (qos_public_key n) (qos_peer_state n) (qos_last_event n) (connected_time n) (qos_ip_addresses n)
        (rtt_histogram n) (rtt_loss_histogram n) (rtt6_histogram n) (rtt6_loss_histogram n)
        (ae_tx_bytes event) (ae_rx_bytes event)
        (increments times (current_tx / duration_as_seconds) (tx_histogram n))
        (increments times (current_rx / duration_as_seconds) (rx_histogram n))
  | None => n
  end%Z.

(** [NodeInfo::update_connection_duration] *)
Definition update_connection_duration (event : AnalyticsEvent) (pause : bool) (n : QosNode) : QosNode :=
  if bool_decide (qos_peer_state n = Connected) && negb pause then
    let duration := checked_duration_since (ae_timestamp event) (qos_last_event n) in
    mkQosNode (qos_public_key n) (qos_peer_state n) (qos_last_event n) (connected_time n + default 0 duration)%Z
      (qos_ip_addresses n) (rtt_histogram n) (rtt_loss_histogram n) (rtt6_histogram n) (rtt6_loss_histogram n)
      (last_tx_bytes n) (last_rx_bytes n) (tx_histogram n) (rx_histogram n)
  else n.

(** [From<AnalyticsEvent> for NodeInfo] *)
Definition qos_node_from (event : AnalyticsEvent) : QosNode :=
  mkQosNode (ae_public_key event) (ae_peer_state event) (ae_timestamp event) 0 (ae_dual_ip_addresses event)
    hist_new hist_new hist_new hist_new 0 0 hist_new hist_new.

(** The last steps of the update of a node in [handle_wg_event] *)
Definition set_addresses (addresses : list DualTarget) (n : QosNode) : QosNode :=
  mkQosNode (qos_public_key n) (qos_peer_state n) (qos_last_event n) (connected_time n) addresses
    (rtt_histogram n) (rtt_loss_histogram n) (rtt6_histogram n) (rtt6_loss_histogram n)
    (last_tx_bytes n) (last_rx_bytes n) (tx_histogram n) (rx_histogram n).
Definition set_last_event (t : Instant) (state : NodeState) (n : QosNode) : QosNode :=
  mkQosNode (qos_public_key n) state t (connected_time n) (qos_ip_addresses n)
    (rtt_histogram n) (rtt_loss_histogram n) (rtt6_histogram n) (rtt6_loss_histogram n)
    (last_tx_bytes n) (last_rx_bytes n) (tx_histogram n) (rx_histogram n).
Definition set_rtt (rtt rtt_loss rtt6 rtt6_loss : Histogram) (n : QosNode) : QosNode :=
  mkQosNode (qos_public_key n) (qos_peer_state n) (qos_last_event n) (connected_time n) (qos_ip_addresses n)
    rtt rtt_loss rtt6 rtt6_loss (last_tx_bytes n) (last_rx_bytes n) (tx_histogram n) (rx_histogram n).

(** The loss in percent, [(100 * unsuccessful / no_of_tries) as u64] *)
Definition loss_percent (tries failed : Z) : outcome Z :=
  if (tries =? 0)%Z then Panics else Returns (wrap 32 (100 * failed) / tries)%Z.

(** One address family of [process_node_ping_results]: the times and the losses *)
Definition record_ping (tries : Z) (r : option PingResults) (h : Histogram * Histogram) : outcome (Histogram * Histogram) :=
  match r with
  | Some r =>
      let rtt :=
        match avg_rtt r with
        | Some rtt => Some (wrap 64 (as_millis rtt))
        | None => if (0 <? unsuccessful_pings r)%Z then Some 0%Z else None
        end in
      match rtt with
      | Some rtt =>
          match loss_percent tries (unsuccessful_pings r) with
          | Returns loss => Returns (hist_increment rtt h.1, hist_increment loss h.2)
          | Panics => Panics
          end
      | None => Returns h
      end
  | None => Returns h
  end.

(** [process_node_ping_results], of a node that is known *)
Definition record_pings (tries : Z) (dpr : DualPingResults) (n : QosNode) : outcome QosNode :=
  match record_ping tries (ping_v4 dpr) (rtt_histogram n, rtt_loss_histogram n) with
  | Returns (rtt, loss) =>
      match record_ping tries (ping_v6 dpr) (rtt6_histogram n, rtt6_loss_histogram n) with
      | Returns (rtt6, loss6) => Returns (set_rtt rtt loss rtt6 loss6 n)
      | Panics => Panics
      end
  | Panics => Panics
  end.

(** ** Reports *)

Record OutputData := mkOutputData {
  out_rtt : text;
  out_rtt_loss : text;
  out_rtt6 : text;
  out_rtt6_loss : text;
  out_tx : text;
  out_rx : text;
  out_connection_duration : text
}.

Definition output_default : OutputData := mkOutputData [] [] [] [] [] [] [].

Definition semicolon : Ascii.ascii := chr 59.

(** [f64], in binary64 *)
Definition f64_of_Z (n : Z) : spec_float := binary_normalize 53 1024 n 0 false.
Definition f64_add : spec_float → spec_float → spec_float := SFadd 53 1024.
Definition f64_div : spec_float → spec_float → spec_float := SFdiv 53 1024.

(** [percentile_histogram]: the loop, with the step it has ping_reached *)
Fixpoint percentile_loop (h : Histogram) (bucket_size : spec_float) (n : nat) (current_step : spec_float) (output : text) : text :=
  match n with
  | O => output
  | S n =>
      percentile_loop h bucket_size n (f64_add current_step bucket_size)
        (output ++ print_u64 (default 0%Z (hist_percentile current_step h)) ++ [colon])
  end.

Definition percentile_histogram (h : Histogram) (buckets : Z) : text :=
  let bucket_size := f64_div (f64_of_Z 100) (f64_of_Z buckets) in
  pop (percentile_loop h bucket_size (Z.to_nat buckets) bucket_size []).

(** [empty_data] and [null_data] *)
Definition repeated_data (t : text) (buckets : Z) : text := pop (concat (replicate (Z.to_nat buckets) t)).
Definition empty_data : Z → text := repeated_data (str "0:").
Definition null_data : Z → text := repeated_data (str "null:").

(** [OutputData::new] *)
Definition output_new (buckets : Z) : OutputData :=
  mkOutputData (null_data buckets) (null_data buckets) (null_data buckets) (null_data buckets)
    (empty_data buckets) (empty_data buckets) (str "0").

(** [merge_strings] and [OutputData::merge] *)
Definition merge_strings (a b : text) (separator : Ascii.ascii) : text :=
  match a, b with
  | [], _ => b
  | _, [] => a
  | _, _ => a ++ [separator] ++ b
  end.

Definition output_merge (a b : OutputData) : OutputData :=
  mkOutputData (merge_strings (out_rtt a) (out_rtt b) comma) (merge_strings (out_rtt_loss a) (out_rtt_loss b) comma)
    (merge_strings (out_rtt6 a) (out_rtt6 b) comma) (merge_strings (out_rtt6_loss a) (out_rtt6_loss b) comma)
    (merge_strings (out_tx a) (out_tx b) comma) (merge_strings (out_rx a) (out_rx b) comma)
    (merge_strings (out_connection_duration a) (out_connection_duration b) semicolon).

(** [push_rtt_data] *)
Definition push_rtt_data (h : option Histogram) (buckets : Z) (output : text) : text :=
  output ++
  match h with
  | Some h => if (0 <? hist_entries h)%Z then percentile_histogram h buckets else null_data buckets
  | None => null_data buckets
  end ++ [comma].

(** The loop of [get_data_from_nodes_hashmap], for one key *)
Definition push_node (nodes : gmap PublicKey QosNode) (buckets : Z) (o : OutputData) (key : PublicKey) : OutputData :=
  match nodes !! key with
  | Some n =>
      mkOutputData (push_rtt_data (Some (rtt_histogram n)) buckets (out_rtt o))
        (push_rtt_data (Some (rtt_loss_histogram n)) buckets (out_rtt_loss o))
        (push_rtt_data (Some (rtt6_histogram n)) buckets (out_rtt6 o))
        (push_rtt_data (Some (rtt6_loss_histogram n)) buckets (out_rtt6_loss o))
        (out_tx o ++ percentile_histogram (tx_histogram n) buckets ++ [comma])
        (out_rx o ++ percentile_histogram (rx_histogram n) buckets ++ [comma])
        (out_connection_duration o ++ print_u64 (as_secs (connected_time n)) ++ [semicolon])
  | None =>
      mkOutputData (push_rtt_data None buckets (out_rtt o)) (push_rtt_data None buckets (out_rtt_loss o))
        (push_rtt_data None buckets (out_rtt6 o)) (push_rtt_data None buckets (out_rtt6_loss o))
        (out_tx o ++ empty_data buckets ++ [comma]) (out_rx o ++ empty_data buckets ++ [comma])
        (out_connection_duration o ++ str "0;")
  end.

(** [get_data_from_nodes_hashmap] *)
Definition get_data_from_nodes_hashmap (nodes : gmap PublicKey QosNode) (buckets : Z) (sorted_public_keys : list PublicKey) : OutputData :=
  let o := foldl (push_node nodes buckets) output_default sorted_public_keys in
  mkOutputData (pop (out_rtt o)) (pop (out_rtt_loss o)) (pop (out_rtt6 o)) (pop (out_rtt6_loss o))
    (pop (out_tx o)) (pop (out_rx o)) (pop (out_connection_duration o)).

(** ** The task *)

Inductive RttType := Ping.

Record QoSConfig := mkQoSConfig { rtt_interval : Duration; rtt_tries : Z; rtt_types : list RttType; config_buckets : Z }.

(** [QoSConfig::new] *)
Definition qos_config_new (interval_secs tries : Z) (types : list RttType) (buckets : Z) : QoSConfig :=
  mkQoSConfig (from_secs interval_secs) tries types buckets.

(** [qos::Analytics].  A ping runs in a task of its own: [ping_tasks] has what each
    of them still has to send, and [ping_queue] what the channel holds. *)
Record QosState := mkQosState {
  qos_period : Duration;
  qos_next_tick : Instant;
  qos_nodes : gmap PublicKey QosNode;
  ping_backend : option QosPinger;
  ping_queue : list (PublicKey * DualPingResults);
  ping_capacity : nat;
  ping_tasks : list (list (PublicKey * DualPingResults));
  buckets : Z;
  qos_ip_stack : option IpStack
}.
Implicit Types (st : QosState).

(** [Analytics::new]; [pinger_ok] tells whether the sockets of the pinger could be
    opened, and an interval of zero is refused by [tokio::time::interval_at]. *)
Definition qos_new (now : Instant) (config : QoSConfig) (ipv6_enabled pinger_ok : bool) : outcome QosState :=
  if (rtt_interval config =? 0)%Z then Panics
  else
    Returns (mkQosState (rtt_interval config) now ∅
      (match rtt_types config with
       | [] => None
       | _ => if pinger_ok then Some (mkQosPinger ipv6_enabled (rtt_tries config)) else None
       end) [] 1 [] (config_buckets config) None).

Definition set_nodes (nodes : gmap PublicKey QosNode) st : QosState :=
  mkQosState (qos_period st) (qos_next_tick st) nodes (ping_backend st) (ping_queue st) (ping_capacity st) (ping_tasks st)
    (buckets st) (qos_ip_stack st).
Definition set_pings (queue : list (PublicKey * DualPingResults)) (capacity : nat)
    (tasks : list (list (PublicKey * DualPingResults))) st : QosState :=
  mkQosState (qos_period st) (qos_next_tick st) (qos_nodes st) (ping_backend st) queue capacity tasks (buckets st) (qos_ip_stack st).
Definition set_tick (t : Instant) st : QosState :=
  mkQosState (qos_period st) t (qos_nodes st) (ping_backend st) (ping_queue st) (ping_capacity st) (ping_tasks st)
    (buckets st) (qos_ip_stack st).
Definition set_qos_ip_stack (stack : option IpStack) st : QosState :=
  mkQosState (qos_period st) (qos_next_tick st) (qos_nodes st) (ping_backend st) (ping_queue st) (ping_capacity st) (ping_tasks st)
    (buckets st) stack.

(** [get_data], [reset_cached_data] and [clean_nodes_list] *)
Definition get_data (sorted_public_keys : list PublicKey) st : OutputData :=
  get_data_from_nodes_hashmap (qos_nodes st) (buckets st) sorted_public_keys.

Definition reset_node (n : QosNode) : QosNode :=
  mkQosNode (qos_public_key n) (qos_peer_state n) (qos_last_event n) 0 (qos_ip_addresses n)
    hist_new hist_new hist_new hist_new (last_tx_bytes n) (last_rx_bytes n) hist_new hist_new.
Definition reset_cached_data st : QosState := set_nodes (reset_node <$> qos_nodes st) st.

Definition clean_nodes_list (nodes_pk_list : gset PublicKey) st : QosState :=
  set_nodes (filter (λ x, x.1 ∈ nodes_pk_list) (qos_nodes st)) st.

(** [is_from_ignored_peer] *)
Definition is_vpn_address (ip : StdIpAddr) : bool := bool_decide (ip = VPN_INTERNAL_IPV4 ∨ ip = VPN_INTERNAL_IPV6).
Definition is_from_ignored_peer (event : AnalyticsEvent) : bool :=
  if is_from_virtual_peer event then
    negb (existsb (λ addr,
      match get_targets addr with
      | Ok (primary, secondary) => is_vpn_address primary || match secondary with Some a => is_vpn_address a | None => false end
      | Err _ => false
      end) (ae_dual_ip_addresses event))
  else false.

(** The update of a known node, and [handle_wg_event] *)
Definition update_node (event : AnalyticsEvent) (n : QosNode) : QosNode :=
  let pause := (10 <? as_secs (duration_since (ae_timestamp event) (qos_last_event n)))%Z in
  let n := update_connection_duration event pause n in
  let n := set_addresses (ae_dual_ip_addresses event) n in
  let n := update_throughput_info event n in
  set_last_event (ae_timestamp event) (ae_peer_state event) n.

Definition qos_handle_wg_event (event : AnalyticsEvent) st : QosState :=
  if is_from_ignored_peer event then st
  else
    set_nodes (<[ae_public_key event := match qos_nodes st !! ae_public_key event with
                                        | Some n => update_node event n
                                        | None => qos_node_from event
                                        end]> (qos_nodes st)) st.

(** [handle_config_event] *)
Definition handle_config_event (event : MeshConfigUpdateEvent) st : QosState := set_qos_ip_stack (update_ip_stack event) st.

(** The task that pings one node: what it sends *)
Definition adjust_target (stack : option IpStack) (t : DualTarget) : DualTarget :=
  match stack with
  | Some IPv4 | None => delete_address IPv6 t
  | Some IPv6 => delete_address IPv4 t
  | Some IPv4v6 => t
  end.

Definition ping_reached (r : option PingResults) : bool :=
  match r with Some r => negb (successful_pings r =? 0)%Z | None => false end.

Fixpoint ping_addresses `{PingNet} (p : QosPinger) (stack : option IpStack) (addresses : list DualTarget) (dpr : DualPingResults)
    : list DualPingResults :=
  match addresses with
  | [] => [dpr]
  | t :: addresses =>
      let dpr := pinger_perform p (adjust_target stack t) in
      if ping_reached (ping_v4 dpr) || ping_reached (ping_v6 dpr) then [dpr]
      else
        match addresses with
        | [] => [dpr]
        | _ => dpr :: ping_addresses p stack addresses dpr
        end
  end.

Definition ping_node `{PingNet} (backend : option QosPinger) (stack : option IpStack) (n : QosNode) : list (PublicKey * DualPingResults) :=
  match backend with
  | Some p => pair (qos_public_key n) <$> ping_addresses p stack (qos_ip_addresses n) dual_ping_default
  | None => []
  end.

(** [perform_ping] *)
Definition perform_ping `{PingNet} `{!HashOrder PublicKey} st : QosState :=
  if decide (qos_nodes st = ∅) then st
  else
    let connected := filter (λ x, qos_peer_state x.2 = Connected) (hash_pairs (qos_nodes st)) in
    set_pings [] (size (qos_nodes st)) ((λ x, ping_node (ping_backend st) (qos_ip_stack st) x.2) <$> connected) st.

(** [process_node_ping_results] *)
Definition process_node_ping_results (r : PublicKey * DualPingResults) st : outcome QosState :=
  match ping_backend st, qos_nodes st !! r.1 with
  | Some pinger, Some n =>
      match record_pings (no_of_tries pinger) r.2 n with
      | Returns n => Returns (set_nodes (<[r.1 := n]> (qos_nodes st)) st)
      | Panics => Panics
      end
  | _, _ => Returns st
  end.

(** The branches of [wait], and the pings that run beside it: the [i]-th of them
    sends its next result.  The network a round of pings meets comes with it. *)
Inductive QosInput :=
| QosWgEvent (event : AnalyticsEvent)
| QosConfigEvent (event : MeshConfigUpdateEvent)
| QosTrigger (net : PingNet)
| QosTick (net : PingNet)
| QosPingSent (i : nat)
| QosPingResult.

(** [self.ping_channel_tx.upgrade().is_none()]: no ping holds a sender *)
Definition pings_ended st : bool := forallb (λ task, bool_decide (task = [])) (ping_tasks st).

Definition qos_enabled (now : Instant) (i : QosInput) st : bool :=
  match i with
  | QosWgEvent _ | QosConfigEvent _ => true
  | QosTrigger _ => pings_ended st
  | QosTick _ => pings_ended st && (qos_next_tick st <=? now)%Z
  | QosPingSent i => bool_decide (length (ping_queue st) < ping_capacity st ∧ ∃ m, head (default [] (ping_tasks st !! i)) = Some m)
  | QosPingResult => bool_decide (ping_queue st ≠ [])
  end.

(** [Runtime::wait] *)
Definition qos_step `{!HashOrder PublicKey} (now : Instant) (i : QosInput) st : outcome QosState :=
  match i with
  | QosWgEvent event => Returns (qos_handle_wg_event event st)
  | QosConfigEvent event => Returns (handle_config_event event st)
  | QosTrigger net => Returns (perform_ping (H1 := net) (set_tick (now + qos_period st)%Z st))
  | QosTick net => Returns (perform_ping (H1 := net) (set_tick (now + qos_period st)%Z st))
  | QosPingSent i =>
      match ping_tasks st !! i with
      | Some (m :: task) => Returns (set_pings (ping_queue st ++ [m]) (ping_capacity st) (<[i := task]> (ping_tasks st)) st)
      | _ => Returns st
      end
  | QosPingResult =>
      match ping_queue st with
      | r :: queue => process_node_ping_results r (set_pings queue (ping_capacity st) (ping_tasks st) st)
      | [] => Returns st
      end
  end.
End qos.

(** ** The nurse *)

(** The calls of the analytics library *)
Inductive MooseCall :=
| SetMeshnetEnabled (enabled : bool)
| SetInternalMeshnetFp (id : text)
| SetInternalMeshnetMembers (fingerprints : text)
| SetConnectivityMatrix (matrix : text)
| SetExternalLinks (links : text)
| SetFpNat (nat_type : text)
| SetMembersNat (nat_types : text)
| SendNodeHeartbeat (data : OutputData) (interval : Z) (nat_traversal derp : text)
| SendNodeDisconnect (data : OutputData) (interval : Z) (nat_traversal derp : text)
| FlushChanges.

(** [lana!], which calls the library only if it is initialised *)
Definition lana (initialized : bool) (calls : list MooseCall) : list MooseCall := if initialized then calls else [].

(** [fetch_context_string] *)
Definition fetch_context_string (initialized : bool) (stored : option text) : option text := if initialized then stored else None.

(** [Uuid::parse_str] *)
Class UuidParse := uuid_parse_str : text → option Uuid.

(** [State::meshnet_id] *)
Definition nurse_meshnet_id `{UuidParse} (initialized : bool) (stored : option text) (fresh : Uuid) : Uuid :=
  match fetch_context_string initialized stored with
  | Some fp => default fresh (uuid_parse_str fp)
  | None => fresh
  end.

Fixpoint join (separator : Ascii.ascii) (l : list text) : text :=
  match l with
  | [] => []
  | [t] => t
  | t :: l => t ++ [separator] ++ join separator l
  end.

Section nurse.
Context `{IpNets} `{Ciphers} `{NurseFormats} `{IoErrorCodes} `{Histograms} `{UuidParse}.
Context `{!HashOrder PublicKey} `{!HashOrder Uuid}.

(** [nurse::State]; a task of the service quality that panicked does not answer
    any more. *)
Record NurseState := mkNurseState {
  lana_initialized : bool;
  nurse_heartbeat : HbState;
  nurse_qos : option (outcome QosState);
  nurse_queue : list HeartbeatInfo
}.

Inductive NurseEffect :=
| NurseSend (to : PublicKey) (msg : HeartbeatMessage)
| NurseCall (call : MooseCall).

(** [State::new] *)
Definition nurse_new (now : Instant) (public_key : PublicKey) (hb_config : HeartbeatConfig) (qos_config : option QoSConfig)
    (d : AggregatorData) (ipv6_enabled pinger_ok initialized : bool) (stored : option text) (fresh : Uuid) : outcome NurseState :=
  let heartbeat := heartbeat_new now public_key (nurse_meshnet_id initialized stored fresh) hb_config d in
  match qos_config with
  | Some qos_config =>
      match qos_new now qos_config ipv6_enabled pinger_ok with
      | Returns qos => Returns (mkNurseState initialized heartbeat (Some (Returns qos)) [])
      | Panics => Panics
      end
  | None => Returns (mkNurseState initialized heartbeat None [])
  end.

(** The query of the service quality task in [handle_service_quality_event] *)
Definition take_qos_data (internal external : list PublicKey) (qos : QosState) : (OutputData * OutputData) * QosState :=
  let result := (get_data internal qos, get_data external qos) in
  let every_node_in_config : gset PublicKey := list_to_set (internal ++ external) in
  (result, reset_cached_data (clean_nodes_list every_node_in_config qos)).

(** [handle_service_quality_event] *)
Definition handle_service_quality_event (info : HeartbeatInfo) (disconnect : bool) (qos : option (outcome QosState))
    : MooseCall * option (outcome QosState) :=
  let '((internal, external), qos) :=
    match qos with
    | Some (Returns qos) =>
        let '(data, qos) := take_qos_data (info_internal_keys info) (info_external_keys info) qos in (data, Some (Returns qos))
    | _ => ((output_default, output_default), qos)
    end in
  let qos_data := output_merge internal external in
  (if disconnect
   then SendNodeDisconnect qos_data (info_heartbeat_interval info) (info_nat_traversal_conn info) (info_derp_conn info)
   else SendNodeHeartbeat qos_data (info_heartbeat_interval info) (info_nat_traversal_conn info) (info_derp_conn info), qos).

(** [handle_heartbeat_event] *)
Definition handle_heartbeat_event (info : HeartbeatInfo) (st : NurseState) : NurseState * list MooseCall :=
  let '(call, qos) := handle_service_quality_event info false (nurse_qos st) in
  (mkNurseState (lana_initialized st) (nurse_heartbeat st) qos (nurse_queue st),
   lana (lana_initialized st)
     [SetMeshnetEnabled (info_meshnet_enabled info); SetInternalMeshnetFp (info_meshnet_id info);
      SetInternalMeshnetMembers (info_fingerprints info); SetConnectivityMatrix (info_connectivity_matrix info);
      SetExternalLinks (info_external_links info); SetFpNat (info_nat_type info);
      SetMembersNat (join comma (info_peer_nat_types info)); call; FlushChanges]).

(** [send_disconnect_data] *)
Definition send_disconnect_data (agg_config : AggregatorConfig) (now : Instant) (wg : option (gmap PublicKey Peer)) (fresh : Uuid)
    (st : NurseState) : NurseState * list MooseCall :=
  let '(hb_info, heartbeat) := get_disconnect_data agg_config now wg fresh (nurse_heartbeat st) in
  match hb_info with
  | Some info =>
      let '(call, qos) := handle_service_quality_event info true (nurse_qos st) in
      (mkNurseState (lana_initialized st) heartbeat qos (nurse_queue st), lana (lana_initialized st) [call; FlushChanges])
  | None => (mkNurseState (lana_initialized st) heartbeat (nurse_qos st) (nurse_queue st), [])
  end.

(** The tasks of the nurse, and its own: the heartbeat, with the calls
    [configure_meshnet] and [set_private_key], the service quality, the next report
    that [wait] takes from the channel, and the end *)
Inductive NurseInput :=
| NurseHeartbeat (i : HbInput)
| NurseQos (i : QosInput)
| NurseReport
| NurseDisconnect (wg : option (gmap PublicKey Peer)) (fresh : Uuid).

Definition reports_of (effects : list HbEffect) : list HeartbeatInfo :=
  omap (λ e, match e with HbReport info => Some info | HbSend _ _ => None end) effects.
Definition sends_of (effects : list HbEffect) : list NurseEffect :=
  omap (λ e, match e with HbSend pk msg => Some (NurseSend pk msg) | HbReport _ => None end) effects.

Definition nurse_enabled (now : Instant) (i : NurseInput) (st : NurseState) : bool :=
  match i with
  | NurseHeartbeat (HbDisconnectData _ _) => false
  | NurseHeartbeat i => hb_enabled now i (nurse_heartbeat st)
  | NurseQos i => match nurse_qos st with Some (Returns qos) => qos_enabled now i qos | _ => false end
  | NurseReport => bool_decide (nurse_queue st ≠ [])
  | NurseDisconnect _ _ => true
  end.

Definition nurse_step (agg_config : AggregatorConfig) (now : Instant) (i : NurseInput) (st : NurseState) (log : list NurseEffect)
    : NurseState * list NurseEffect :=
  match i with
  | NurseHeartbeat i =>
      let '(heartbeat, effects) := hb_step agg_config now i (nurse_heartbeat st) [] in
      (mkNurseState (lana_initialized st) heartbeat (nurse_qos st) (nurse_queue st ++ reports_of effects), log ++ sends_of effects)
  | NurseQos i =>
      (mkNurseState (lana_initialized st) (nurse_heartbeat st)
         (match nurse_qos st with Some (Returns qos) => Some (qos_step now i qos) | qos => qos end) (nurse_queue st), log)
  | NurseReport =>
      match nurse_queue st with
      | info :: queue =>
          let '(st, calls) := handle_heartbeat_event info (mkNurseState (lana_initialized st) (nurse_heartbeat st) (nurse_qos st) queue) in
          (st, log ++ (NurseCall <$> calls))
      | [] => (st, log)
      end
  | NurseDisconnect wg fresh =>
      let '(st, calls) := send_disconnect_data agg_config now wg fresh st in (st, log ++ (NurseCall <$> calls))
  end.
End nurse.
