(* ===== verification/QosProps.v ===== *)
(** * Theorems about the quality of service analytics and the nurse *)

From stdpp Require Import strings.
From S2P Require Import Prelude NetTypes WgTypes Crypto NetText Proto Controller Consolidation LinkDetection Derp DeviceTypes Aggregator Heartbeat HeartbeatProps Qos.

(** ** The columns of a report *)

(** [str::split]: the parts of a text between the separators *)
Fixpoint split (c : Ascii.ascii) (t : text) : list text :=
  match t with
  | [] => [[]]
  | x :: t =>
      if decide (x = c) then [] :: split c t
      else match split c t with part :: parts => (x :: part) :: parts | [] => [[x]] end
  end.

Lemma split_app c t rest : c ∉ t → split c (t ++ c :: rest) = t :: split c rest.
Proof.
  induction t as [|x t IH]; intros Hc; simpl; [by rewrite decide_True|].
  apply not_elem_of_cons in Hc as [Hx Hc]. by rewrite decide_False, IH by congruence.
Qed.

Lemma split_one c t : c ∉ t → split c t = [t].
Proof.
  induction t as [|x t IH]; intros Hc; simpl; [done|].
  apply not_elem_of_cons in Hc as [Hx Hc]. by rewrite decide_False, IH by congruence.
Qed.

Lemma split_join c l : Forall (λ t, c ∉ t) l → l ≠ [] → split c (join c l) = l.
Proof.
  induction l as [|t [|t' l] IH]; intros Hl Hne; [done| |]; apply Forall_cons in Hl as [Ht Hl].
  - by apply split_one.
  - change (join c (t :: t' :: l)) with (t ++ c :: join c (t' :: l)). rewrite split_app by done. by rewrite IH.
Qed.

Lemma join_cons c t l : l ≠ [] → join c (t :: l) = t ++ c :: join c l.
Proof. by destruct l. Qed.

Lemma join_app c l1 l2 : l1 ≠ [] → l2 ≠ [] → join c (l1 ++ l2) = join c l1 ++ c :: join c l2.
Proof.
  intros H1 H2. induction l1 as [|t l1 IH]; [done|]. destruct l1 as [|t' l1]; [by apply join_cons|].
  rewrite <-app_comm_cons, !join_cons by done. by rewrite IH, <-app_assoc.
Qed.

Lemma join_nonempty c l : Forall (λ t, t ≠ []) l → l ≠ [] → join c l ≠ [].
Proof.
  destruct l as [|t [|t' l]]; intros Hl Hne; [done|by apply Forall_cons in Hl as [? _]|].
  apply Forall_cons in Hl as [Ht _]. by destruct t.
Qed.

(** Pushing the separator behind each part and popping the last one *)
Lemma concat_join c l : l ≠ [] → concat ((λ t, t ++ [c]) <$> l) = join c l ++ [c].
Proof.
  induction l as [|t l IH]; [done|]. intros _. destruct l as [|t' l]; [simpl; by rewrite app_nil_r|].
  rewrite join_cons by done. rewrite fmap_cons. cbn [concat]. rewrite IH by done. by rewrite <-!app_assoc.
Qed.

Lemma pop_concat c l : pop (concat ((λ t, t ++ [c]) <$> l)) = join c l.
Proof. destruct l as [|t l]; [done|]. by rewrite concat_join, pop_snoc. Qed.

Lemma merge_join c l1 l2 : Forall (λ t, t ≠ []) l1 → Forall (λ t, t ≠ []) l2 →
  merge_strings (join c l1) (join c l2) c = join c (l1 ++ l2).
Proof.
  intros H1 H2. destruct (decide (l1 = [])) as [->|N1]; [done|]. destruct (decide (l2 = [])) as [->|N2].
  { rewrite app_nil_r. simpl. by destruct (join c l1). }
  rewrite join_app by done. pose proof (join_nonempty c l1 H1 N1). pose proof (join_nonempty c l2 H2 N2).
  by destruct (join c l1), (join c l2).
Qed.

(** Numbers are digits. *)
Definition digits (t : text) : Prop := Forall (λ x, ∃ d, (0 <= d < 10)%Z ∧ x = from_digit d) t.

Lemma print_number_digits width n : (0 <= n)%Z → digits (print_number 10 width n).
Proof.
  revert n. induction width as [|width IH]; intros n Hn; simpl; [constructor|]. case_bool_decide.
  - apply Forall_singleton. eauto with lia.
  - apply Forall_app. split; [apply IH, Z.div_pos; lia|]. apply Forall_singleton. exists (n `mod` 10)%Z.
    split; [apply Z.mod_pos_bound; lia|done].
Qed.

Lemma print_number_nonempty width n : width ≠ 0 → print_number 10 width n ≠ [].
Proof. destruct width as [|width]; [done|]. intros _. simpl. case_bool_decide; [done|]. intros E. by apply app_eq_nil in E as [_ ?]. Qed.

Definition separator (c : Ascii.ascii) : Prop := c = colon ∨ c = comma ∨ c = semicolon.

Lemma digits_separator t c : digits t → separator c → c ∉ t.
Proof.
  intros Ht Hc Hin. unfold digits in Ht. rewrite Forall_forall in Ht. destruct (Ht c Hin) as (d & Hd & E).
  assert (d = 0 ∨ d = 1 ∨ d = 2 ∨ d = 3 ∨ d = 4 ∨ d = 5 ∨ d = 6 ∨ d = 7 ∨ d = 8 ∨ d = 9)%Z as Hd' by lia.
  destruct Hc as [-> | [-> | ->]]; destruct_or! Hd'; subst d; by vm_compute in E.
Qed.

(** ** Entries *)

(** What the library promises of its numbers: they are [u64]. *)
Class HistogramLaws `{Histograms} := {
  hist_percentile_u64 step h v : hist_percentile step h = Some v → is_uint 64 v
}.

(** A text with a value for each bucket *)
Definition bucket_entry (n : nat) (t : text) : Prop := length (split colon t) = n ∧ (comma ∉ t) ∧ t ≠ [].

Lemma bucket_entry_join l : l ≠ [] → Forall (λ t, (colon ∉ t) ∧ (comma ∉ t) ∧ t ≠ []) l → bucket_entry (length l) (join colon l).
Proof.
  intros Hne Hl. split_and!.
  - rewrite split_join; [done| |done]. eapply Forall_impl; [done|]. naive_solver.
  - clear Hne. induction l as [|t l IH]; [by apply not_elem_of_nil|]. apply Forall_cons in Hl as [Ht Hl].
    destruct l as [|t' l]; [naive_solver|]. rewrite join_cons by done. rewrite not_elem_of_app, not_elem_of_cons.
    split_and!; [naive_solver|done|by apply IH].
  - apply join_nonempty; [|done]. eapply Forall_impl; [done|]. naive_solver.
Qed.

Section columns.
Context `{HistogramLaws}.
Implicit Types (nodes : gmap PublicKey QosNode) (buckets : Z) (key : PublicKey).

Lemma u64_part v : (0 <= v)%Z → (colon ∉ print_u64 v) ∧ (comma ∉ print_u64 v) ∧ print_u64 v ≠ [].
Proof.
  intros Hv. pose proof (print_number_digits 20 v Hv) as Hd.
  split_and!; [apply digits_separator; [done|by left]|apply digits_separator; [done|right; by left]|by apply print_number_nonempty].
Qed.

(** The values of a histogram: the loop, as a list *)
Fixpoint percentiles (h : Histogram) (bucket_size : SpecFloat.spec_float) (n : nat) (step : SpecFloat.spec_float) : list text :=
  match n with
  | O => []
  | S n => print_u64 (default 0%Z (hist_percentile step h)) :: percentiles h bucket_size n (f64_add step bucket_size)
  end.

Lemma percentile_loop_join h size n step output :
  percentile_loop h size n step output = output ++ concat ((λ t, t ++ [colon]) <$> percentiles h size n step).
Proof.
  revert step output. induction n as [|n IH]; intros step output; cbn [percentile_loop percentiles]; [by rewrite app_nil_r|].
  rewrite IH, fmap_cons. cbn [concat]. by rewrite <-!app_assoc.
Qed.

Lemma percentile_entry h buckets : (0 < buckets)%Z → bucket_entry (Z.to_nat buckets) (percentile_histogram h buckets).
Proof.
  intros Hb. unfold percentile_histogram. rewrite percentile_loop_join, app_nil_l, pop_concat.
  set (size := f64_div _ _). generalize size at 2. intros step.
  assert (length (percentiles h size (Z.to_nat buckets) step) = Z.to_nat buckets) as Hlen.
  { generalize (Z.to_nat buckets) as n. intros n. revert step. induction n as [|n IH]; intros step; simpl; [done|]. by rewrite IH. }
  rewrite <-Hlen at 1. apply bucket_entry_join; [intros E; rewrite E in Hlen; simpl in Hlen; lia|]. clear Hlen.
  revert step. induction (Z.to_nat buckets) as [|n IH]; intros step; cbn [percentiles]; constructor; [|apply IH].
  apply u64_part. destruct (hist_percentile step h) as [v|] eqn:E; simpl; [|lia]. apply hist_percentile_u64 in E. unfold is_uint in E. lia.
Qed.

Lemma repeated_entry t buckets : (0 < buckets)%Z → colon ∉ t → comma ∉ t → t ≠ [] →
  bucket_entry (Z.to_nat buckets) (repeated_data (t ++ [colon]) buckets).
Proof.
  intros Hb H1 H2 H3. unfold repeated_data.
  replace (replicate (Z.to_nat buckets) (t ++ [colon])) with ((λ t, t ++ [colon]) <$> replicate (Z.to_nat buckets) t)
    by (by rewrite fmap_replicate).
  rewrite pop_concat. rewrite <-(length_replicate (Z.to_nat buckets) t) at 1. apply bucket_entry_join.
  - destruct (Z.to_nat buckets) eqn:E; [lia|done].
  - by apply Forall_replicate.
Qed.

Lemma null_entry buckets : (0 < buckets)%Z → bucket_entry (Z.to_nat buckets) (null_data buckets).
Proof. intros Hb. apply (repeated_entry (str "null")); [done|..]; apply (bool_decide_unpack _); vm_compute; done. Qed.

Lemma empty_entry buckets : (0 < buckets)%Z → bucket_entry (Z.to_nat buckets) (empty_data buckets).
Proof. intros Hb. apply (repeated_entry (str "0")); [done|..]; apply (bool_decide_unpack _); vm_compute; done. Qed.

(** What a report says of one node *)
Definition rtt_entry (hist : QosNode → Histogram) nodes buckets key : text :=
  match nodes !! key with
  | Some n => if (0 <? hist_entries (hist n))%Z then percentile_histogram (hist n) buckets else null_data buckets
  | None => null_data buckets
  end.
Definition throughput_entry (hist : QosNode → Histogram) nodes buckets key : text :=
  match nodes !! key with Some n => percentile_histogram (hist n) buckets | None => empty_data buckets end.
Definition duration_entry nodes key : text :=
  match nodes !! key with Some n => print_u64 (as_secs (connected_time n)) | None => str "0" end.

Lemma rtt_bucket_entry hist nodes buckets key : (0 < buckets)%Z → bucket_entry (Z.to_nat buckets) (rtt_entry hist nodes buckets key).
Proof. intros. unfold rtt_entry. repeat case_match; auto using percentile_entry, null_entry. Qed.

Lemma throughput_bucket_entry hist nodes buckets key : (0 < buckets)%Z →
  bucket_entry (Z.to_nat buckets) (throughput_entry hist nodes buckets key).
Proof. intros. unfold throughput_entry. case_match; auto using percentile_entry, empty_entry. Qed.

Definition row (c : Ascii.ascii) (entry : PublicKey → text) (keys : list PublicKey) : text :=
  concat ((λ t, t ++ [c]) <$> (entry <$> keys)).

Lemma push_rtt_entry hist nodes buckets key t :
  push_rtt_data (hist <$> nodes !! key) buckets t = t ++ rtt_entry hist nodes buckets key ++ [comma].
Proof. unfold push_rtt_data, rtt_entry. by destruct (nodes !! key). Qed.

Lemma push_node_entries nodes buckets o key :
  push_node nodes buckets o key =
  mkOutputData (out_rtt o ++ rtt_entry rtt_histogram nodes buckets key ++ [comma])
    (out_rtt_loss o ++ rtt_entry rtt_loss_histogram nodes buckets key ++ [comma])
    (out_rtt6 o ++ rtt_entry rtt6_histogram nodes buckets key ++ [comma])
    (out_rtt6_loss o ++ rtt_entry rtt6_loss_histogram nodes buckets key ++ [comma])
    (out_tx o ++ throughput_entry tx_histogram nodes buckets key ++ [comma])
    (out_rx o ++ throughput_entry rx_histogram nodes buckets key ++ [comma])
    (out_connection_duration o ++ duration_entry nodes key ++ [semicolon]).
Proof.
  rewrite <-!push_rtt_entry. unfold push_node, throughput_entry, duration_entry. by destruct (nodes !! key).
Qed.

Lemma push_nodes_rows nodes buckets o keys :
  foldl (push_node nodes buckets) o keys =
  mkOutputData (out_rtt o ++ row comma (rtt_entry rtt_histogram nodes buckets) keys)
    (out_rtt_loss o ++ row comma (rtt_entry rtt_loss_histogram nodes buckets) keys)
    (out_rtt6 o ++ row comma (rtt_entry rtt6_histogram nodes buckets) keys)
    (out_rtt6_loss o ++ row comma (rtt_entry rtt6_loss_histogram nodes buckets) keys)
    (out_tx o ++ row comma (throughput_entry tx_histogram nodes buckets) keys)
    (out_rx o ++ row comma (throughput_entry rx_histogram nodes buckets) keys)
    (out_connection_duration o ++ row semicolon (duration_entry nodes) keys).
Proof.
  revert o. induction keys as [|key keys IH]; intros o; cbn [foldl].
  - unfold row. simpl. rewrite !app_nil_r. by destruct o.
  - rewrite IH, push_node_entries. unfold row. rewrite !fmap_cons. cbn [concat out_rtt out_rtt_loss out_rtt6 out_rtt6_loss out_tx out_rx out_connection_duration].
    by rewrite <-!app_assoc.
Qed.

Lemma get_data_joins nodes buckets keys :
  get_data_from_nodes_hashmap nodes buckets keys =
  mkOutputData (join comma (rtt_entry rtt_histogram nodes buckets <$> keys))
    (join comma (rtt_entry rtt_loss_histogram nodes buckets <$> keys))
    (join comma (rtt_entry rtt6_histogram nodes buckets <$> keys))
    (join comma (rtt_entry rtt6_loss_histogram nodes buckets <$> keys))
    (join comma (throughput_entry tx_histogram nodes buckets <$> keys))
    (join comma (throughput_entry rx_histogram nodes buckets <$> keys))
    (join semicolon (duration_entry nodes <$> keys)).
Proof. unfold get_data_from_nodes_hashmap. rewrite push_nodes_rows. unfold row.
  cbn [out_rtt out_rtt_loss out_rtt6 out_rtt6_loss out_tx out_rx out_connection_duration output_default app]. by rewrite !pop_concat. Qed.

(** A column of the merged reports *)
Lemma merged_column c (entry : PublicKey → text) internal external : (∀ key, (c ∉ entry key) ∧ entry key ≠ []) →
  internal ++ external ≠ [] →
  split c (merge_strings (join c (entry <$> internal)) (join c (entry <$> external)) c) = entry <$> internal ++ external.
Proof.
  intros He Hne. rewrite merge_join by (apply Forall_fmap, Forall_true; intros; apply He). rewrite <-fmap_app.
  apply split_join; [apply Forall_fmap, Forall_true; intros; apply He|]. by destruct (internal ++ external).
Qed.
End columns.

(** ** Pings *)

(** What a pinger of so many tries returns *)
Definition ping_ok (tries : Z) (r : option PingResults) : Prop :=
  ∀ r', r = Some r' →
    (0 <= successful_pings r' ∧ 0 <= unsuccessful_pings r' ∧ successful_pings r' + unsuccessful_pings r' = tries)%Z ∧
    (successful_pings r' = 0%Z → avg_rtt r' = None) ∧ (∀ rtt, avg_rtt r' = Some rtt → successful_pings r' ≠ 0%Z).

Definition dual_ping_ok (tries : Z) (r : DualPingResults) : Prop := ping_ok tries (ping_v4 r) ∧ ping_ok tries (ping_v6 r).

Lemma ping_try_counts `{PingNet} host l acc : (0 <= acc.1.2)%Z → (0 <= acc.2)%Z →
  (acc.1.2 + acc.2 + Z.of_nat (length l) < 2 ^ 32)%Z →
  let r := foldl (ping_try host) acc l in
  (0 <= r.1.2 ∧ 0 <= r.2 ∧ r.1.2 + r.2 = acc.1.2 + acc.2 + Z.of_nat (length l))%Z.
Proof.
  revert acc. induction l as [|i l IH]; intros [[sum ok] failed]; cbn [foldl fst snd length]; [lia|]. intros H1 H2 H3.
  specialize (IH (ping_try host (sum, ok, failed) i)). unfold ping_try in *.
  destruct (ping_once host i (ping_sequence i)); cbn [fst snd] in IH; unfold wrap in IH; rewrite Z.mod_small in IH by lia;
    (destruct IH as (? & ? & IH); [lia..|]; unfold wrap; rewrite Z.mod_small by lia; split_and!; [done..|]; rewrite IH; lia).
Qed.

Lemma ping_action_ok `{PingNet} p host : is_uint 32 (no_of_tries p) → ping_ok (no_of_tries p) (ping_action p host).
Proof.
  intros Hu r. unfold ping_action.
  assert (length (ping_tries p) = Z.to_nat (no_of_tries p)) as Hlen by (unfold ping_tries; by rewrite length_fmap, length_seq).
  unfold is_uint in Hu. pose proof (ping_try_counts host (ping_tries p) (0, 0, 0)%Z) as Hc. cbn [fst snd] in Hc. rewrite Hlen in Hc.
  destruct (foldl (ping_try host) (0, 0, 0)%Z (ping_tries p)) as [[sum ok] failed]. cbn [fst snd] in Hc.
  destruct Hc as (H1 & H2 & H3); [lia..|].
  intros Hr. assert (r = mkPingResults (Some host) ok failed (if (ok =? 0)%Z then None else Some (sum / ok)%Z)) as ->
    by (destruct host; [|destruct (client_v6 p)]; simpl in Hr; congruence).
  cbn. split_and!; [lia..|by intros ->|]. intros rtt. destruct (ok =? 0)%Z eqn:E; [done|]. lia.
Qed.

Lemma ping_ok_none tries : ping_ok tries None.
Proof. by intros r. Qed.

Lemma pinger_perform_ok `{PingNet} p t : is_uint 32 (no_of_tries p) → dual_ping_ok (no_of_tries p) (pinger_perform p t).
Proof.
  intros Hu. unfold pinger_perform, ping_side, dual_ping_ok.
  destruct (get_targets t) as [[[] [[]|]]|]; cbn [ping_v4 ping_v6 dual_ping_default]; split;
    first [by apply ping_ok_none | by apply ping_action_ok].
Qed.

Lemma ping_addresses_ok `{PingNet} p stack addresses dpr : is_uint 32 (no_of_tries p) → dual_ping_ok (no_of_tries p) dpr →
  Forall (dual_ping_ok (no_of_tries p)) (ping_addresses p stack addresses dpr).
Proof.
  intros Hu. revert dpr. induction addresses as [|t addresses IH]; intros dpr Hd; cbn [ping_addresses]; [by apply Forall_singleton|].
  pose proof (pinger_perform_ok p (adjust_target stack t) Hu) as Hp.
  case_match; [by apply Forall_singleton|]. destruct addresses; [by apply Forall_singleton|]. constructor; [done|by apply IH].
Qed.

(** A result never divides by zero, and its loss is a percentage. *)
Lemma loss_range tries failed : (0 <= failed <= tries)%Z → (0 < tries)%Z →
  ∃ loss, loss_percent tries failed = Returns loss ∧ (0 <= loss <= 100)%Z.
Proof.
  intros Hf Ht. unfold loss_percent. destruct (tries =? 0)%Z eqn:E; [lia|]. eexists. split; [done|].
  unfold wrap. assert (0 <= (100 * failed) `mod` 2 ^ 32 <= 100 * failed)%Z as Hw.
  { split; [apply Z.mod_pos_bound; lia|apply Z.mod_le; lia]. }
  split; [apply Z.div_pos; lia|]. apply Z.div_le_upper_bound; nia.
Qed.

Section record.
Context `{Histograms}.

(** A histogram after a result: the same, or with one more percentage *)
Definition one_loss (h h' : Histogram) : Prop := h' = h ∨ ∃ loss, (0 <= loss <= 100)%Z ∧ h' = hist_increment loss h.

Lemma record_ping_returns tries r h : ping_ok tries r →
  ∃ h', record_ping tries r h = Returns h' ∧ one_loss h.2 h'.2.
Proof.
  intros Hr. unfold record_ping. destruct r as [r|]; [|exists h; split; [done|by left]]. destruct (Hr r eq_refl) as ((H1 & H2 & H3) & H4 & H5).
  set (rtt := match avg_rtt r with Some _ => _ | None => _ end). destruct rtt as [v|] eqn:E; [|exists h; split; [done|by left]].
  destruct (loss_range tries (unsuccessful_pings r)) as (loss & -> & Hl); [lia| |].
  - unfold rtt in E. destruct (avg_rtt r) as [d|] eqn:Ea; [specialize (H5 d eq_refl); lia|].
    destruct (0 <? unsuccessful_pings r)%Z eqn:Eu; [lia|done].
  - eexists. split; [done|]. right. eauto.
Qed.
End record.

(** ** Histories *)

Section histories.
Context `{IpNets} `{Histograms} `{!HashOrder PublicKey} (config : QoSConfig).
Context (Htries : is_uint 32 (rtt_tries config)).
Implicit Types (st : QosState) (n : QosNode) (now : Instant).

(** The states of the task, between the events and the reports it is asked for *)
Inductive qos_reach : QosState → Prop :=
| Qos_start now ipv6 pinger_ok st : qos_new now config ipv6 pinger_ok = Returns st → qos_reach st
| Qos_step now i st st' : qos_reach st → qos_enabled now i st = true → qos_step now i st = Returns st' → qos_reach st'
| Qos_taken st internal external : qos_reach st → qos_reach (take_qos_data internal external st).2.

Record qos_ok st : Prop := {
  ok_buckets : buckets st = config_buckets config;
  ok_times : map_Forall (λ _ n, 0 <= connected_time n)%Z (qos_nodes st);
  ok_backend : ∀ p, ping_backend st = Some p → no_of_tries p = rtt_tries config;
  ok_queue : Forall (λ m, dual_ping_ok (rtt_tries config) m.2) (ping_queue st);
  ok_tasks : Forall (Forall (λ m, dual_ping_ok (rtt_tries config) m.2)) (ping_tasks st)
}.

Lemma update_node_time event n : (0 <= connected_time n)%Z → (0 <= connected_time (update_node event n))%Z.
Proof.
  intros Hn. unfold update_node, update_throughput_info, update_connection_duration, checked_duration_since.
  repeat case_match; cbn in *; try lia; destruct (_ <=? _)%Z eqn:E; simpl; lia.
Qed.

Lemma ping_node_ok `{PingNet} st n : qos_ok st →
  Forall (λ m, dual_ping_ok (rtt_tries config) m.2) (ping_node (ping_backend st) (qos_ip_stack st) n).
Proof.
  intros Hok. unfold ping_node. destruct (ping_backend st) as [p|] eqn:E; [|constructor].
  rewrite <-(ok_backend st Hok p E) in Htries |- *. apply Forall_fmap.
  apply (ping_addresses_ok p); [done|]. split; apply ping_ok_none.
Qed.

Lemma perform_ping_ok `{PingNet} st : qos_ok st → qos_ok (perform_ping st).
Proof.
  intros Hok. unfold perform_ping. case_decide; [done|]. pose proof (ping_node_ok st) as Hp. destruct Hok.
  constructor; cbn; [done..|constructor|]. apply Forall_fmap, Forall_true. intros x. cbn. apply Hp. by constructor.
Qed.

(** A processed result *)
Lemma process_returns st r : qos_ok st → dual_ping_ok (rtt_tries config) r.2 →
  ∃ st', process_node_ping_results r st = Returns st' ∧ qos_ok st' ∧
    ∀ k n, qos_nodes st !! k = Some n → ∃ rtt loss rtt6 loss6, qos_nodes st' !! k = Some (set_rtt rtt loss rtt6 loss6 n) ∧
      one_loss (rtt_loss_histogram n) loss ∧ one_loss (rtt6_loss_histogram n) loss6.
Proof.
  intros Hok [H4 H6]. unfold process_node_ping_results.
  assert (∀ n, n = set_rtt (rtt_histogram n) (rtt_loss_histogram n) (rtt6_histogram n) (rtt6_loss_histogram n) n) as Hid by (by intros []).
  assert (∀ k n, qos_nodes st !! k = Some n → ∃ rtt loss rtt6 loss6, qos_nodes st !! k = Some (set_rtt rtt loss rtt6 loss6 n) ∧
      one_loss (rtt_loss_histogram n) loss ∧ one_loss (rtt6_loss_histogram n) loss6) as Hsame.
  { intros k n Hk. eexists _, _, _, _. rewrite <-(Hid n). split; [done|]. split; by left. }
  destruct (ping_backend st) as [p|] eqn:Ep; [|eauto]. destruct (qos_nodes st !! r.1) as [n|] eqn:En; [|eauto].
  rewrite (ok_backend st Hok p Ep). unfold record_pings.
  destruct (record_ping_returns _ _ (rtt_histogram n, rtt_loss_histogram n) H4) as ([rtt loss] & -> & Hl4).
  destruct (record_ping_returns _ _ (rtt6_histogram n, rtt6_loss_histogram n) H6) as ([rtt6 loss6] & -> & Hl6).
  eexists. split; [done|]. split.
  - destruct Hok as [Hb Ht Hp Hq Hts]. constructor; cbn; [done| |done..]. apply map_Forall_insert_2; [|done]. exact (Ht _ _ En).
  - intros k n' Hk. cbn. destruct (decide (r.1 = k)) as [<-|Hne]; [|rewrite lookup_insert_ne by done; by apply Hsame].
    rewrite En in Hk. injection Hk as <-. rewrite lookup_insert_eq. eauto 10.
Qed.

Lemma handle_wg_event_ok event st : qos_ok st → qos_ok (qos_handle_wg_event event st).
Proof.
  intros Hok. unfold qos_handle_wg_event. case_match; [done|]. destruct Hok as [Hb Ht Hp Hq Hts].
  constructor; cbn; [done| |done..]. apply map_Forall_insert_2; [|done].
  destruct (qos_nodes st !! ae_public_key event) as [n|] eqn:E; [|done]. apply update_node_time. exact (Ht _ _ E).
Qed.

Lemma qos_step_returns now i st : qos_ok st → qos_enabled now i st = true →
  ∃ st', qos_step now i st = Returns st' ∧ qos_ok st'.
Proof.
  intros Hok Hen. pose proof Hok as [Hb Ht Hp Hq Hts]. destruct i as [event|event|net|net|i|]; cbn [qos_step].
  - eauto using handle_wg_event_ok.
  - eexists. split; [done|]. by constructor.
  - eexists. split; [done|]. apply perform_ping_ok. by constructor.
  - eexists. split; [done|]. apply perform_ping_ok. by constructor.
  - destruct (ping_tasks st !! i) as [[|m task]|] eqn:E; [eauto| |eauto]. eexists. split; [done|].
    pose proof (Forall_lookup_1 _ _ _ _ Hts E) as Hm. apply Forall_cons in Hm as [Hm Htask].
    constructor; cbn; [done..| |]; [apply Forall_app; split; [done|by apply Forall_singleton]|by apply Forall_insert].
  - destruct (ping_queue st) as [|r queue] eqn:E; [eauto|]. apply Forall_cons in Hq as [Hr Hq].
    destruct (process_returns (set_pings queue (ping_capacity st) (ping_tasks st) st) r) as (st' & -> & Hok' & _); [by constructor|done|].
    eauto.
Qed.

Lemma taken_ok internal external st : qos_ok st → qos_ok (take_qos_data internal external st).2.
Proof.
  intros [Hb Ht Hp Hq Hts]. constructor; cbn; [done| |done..].
  intros k n. rewrite lookup_fmap. destruct (filter _ _ !! k) as [n'|]; simpl; [|done]. by intros [= <-].
Qed.

Lemma qos_reach_ok st : qos_reach st → qos_ok st.
Proof.
  induction 1 as [now ipv6 ok st Hnew|now i st st' _ IH Hen Hstep|st internal external _ IH].
  - unfold qos_new in Hnew. case_match; [done|]. injection Hnew as <-. constructor; cbn; [done|apply map_Forall_empty| |constructor..].
    intros p. repeat case_match; try done. by intros [= <-].
  - destruct (qos_step_returns now i st IH Hen) as (st'' & E & Hok). congruence.
  - by apply taken_ok.
Qed.

(** The service quality task does not panic.  Whatever events come, whatever
    the pings return and however they interleave, no step panics, also with zero
    tries; and each result that is processed adds at most one loss, of 0 to 100
    percent, to the node. *)
Theorem qos_never_panics now i st : qos_reach st → qos_enabled now i st = true →
  ∃ st', qos_step now i st = Returns st' ∧
    (i = QosPingResult → ∀ k n, qos_nodes st !! k = Some n → ∃ n', qos_nodes st' !! k = Some n' ∧
       one_loss (rtt_loss_histogram n) (rtt_loss_histogram n') ∧ one_loss (rtt6_loss_histogram n) (rtt6_loss_histogram n')).
Proof.
  intros Hok%qos_reach_ok Hen. destruct (qos_step_returns now i st Hok Hen) as (st' & Hs & _). exists st'. split; [done|].
  intros -> k n Hk. cbn [qos_step] in Hs. destruct (ping_queue st) as [|r queue] eqn:E; [by cbn in Hen; rewrite E in Hen|].
  pose proof Hok as [Hb Ht Hp Hq Hts]. rewrite E in Hq. apply Forall_cons in Hq as [Hr Hq].
  destruct (process_returns (set_pings queue (ping_capacity st) (ping_tasks st) st) r) as (st'' & E' & _ & Hn); [by constructor|done|].
  rewrite E' in Hs. injection Hs as <-. destruct (Hn k n Hk) as (rtt & loss & rtt6 & loss6 & Hk' & H4 & H6). eauto.
Qed.

(** The columns of a report are aligned.  With at least one bucket and one node,
    each column of the service quality data that the nurse sends for a heartbeat
    splits into exactly one entry per node, in the order of the internal and then
    the external keys, and each of these entries has one value per bucket. *)
Theorem qos_columns_aligned `{!HistogramLaws} info st : qos_reach st → (0 < config_buckets config)%Z →
  let keys := info_internal_keys info ++ info_external_keys info in
  let nodes := qos_nodes st in let b := config_buckets config in
  keys ≠ [] →
  ∃ data, (handle_service_quality_event info false (Some (Returns st))).1 =
      SendNodeHeartbeat data (info_heartbeat_interval info) (info_nat_traversal_conn info) (info_derp_conn info) ∧
    split comma (out_rtt data) = rtt_entry rtt_histogram nodes b <$> keys ∧
    split comma (out_rtt_loss data) = rtt_entry rtt_loss_histogram nodes b <$> keys ∧
    split comma (out_rtt6 data) = rtt_entry rtt6_histogram nodes b <$> keys ∧
    split comma (out_rtt6_loss data) = rtt_entry rtt6_loss_histogram nodes b <$> keys ∧
    split comma (out_tx data) = throughput_entry tx_histogram nodes b <$> keys ∧
    split comma (out_rx data) = throughput_entry rx_histogram nodes b <$> keys ∧
    split semicolon (out_connection_duration data) = duration_entry nodes <$> keys ∧
    ∀ entry, entry ∈ split comma (out_rtt data) ++ split comma (out_tx data) → length (split colon entry) = Z.to_nat b.
Proof.
  intros [Hb Ht _ _ _]%qos_reach_ok Hpos keys nodes b Hne. eexists. split; [done|].
  unfold get_data. rewrite Hb, !get_data_joins. fold b nodes. unfold output_merge.
  cbn [out_rtt out_rtt_loss out_rtt6 out_rtt6_loss out_tx out_rx out_connection_duration].
  assert (∀ h key, (comma ∉ rtt_entry h nodes b key) ∧ rtt_entry h nodes b key ≠ []) as Hr
    by (intros h key; by destruct (rtt_bucket_entry h nodes b key Hpos) as (_ & ? & ?)).
  assert (∀ h key, (comma ∉ throughput_entry h nodes b key) ∧ throughput_entry h nodes b key ≠ []) as Htp
    by (intros h key; by destruct (throughput_bucket_entry h nodes b key Hpos) as (_ & ? & ?)).
  assert (∀ key, (semicolon ∉ duration_entry nodes key) ∧ duration_entry nodes key ≠ []) as Hd.
  { intros key. unfold duration_entry. destruct (nodes !! key) as [n|] eqn:E; [|split; apply (bool_decide_unpack _); vm_compute; done].
    pose proof (Ht _ _ E) as Hn. split; [|by apply print_number_nonempty]. apply digits_separator; [|right; by right].
    apply print_number_digits, Z.div_pos; [exact Hn|lia]. }
  rewrite !merged_column by auto. split_and!; [done..|].
  intros entry [(key & -> & _)%list_elem_of_fmap|(key & -> & _)%list_elem_of_fmap]%elem_of_app;
    [by apply rtt_bucket_entry|by apply throughput_bucket_entry].
Qed.

(** ** What the measurements mean *)

(** What happened at one node since the last report: the last event, whether it
    is the only one since the node is known, the time between events of a
    connection, the seconds and the events counted, the bytes by which the
    counters advanced from each event to the next, and what is counted beyond
    these *)
Record Measured := mkMeasured {
  m_last : option AnalyticsEvent;
  m_new : bool;
  m_connected : Duration;
  m_seconds : Z;
  m_events : Z;
  m_bytes : Z * Z;
  m_surplus : Z * Z
}.

Definition unmeasured : Measured := mkMeasured None true 0 0 0 (0, 0)%Z (0, 0)%Z.

(** Eleven seconds without an event are a pause. *)
Definition connected_span (l e : AnalyticsEvent) : Duration :=
  if decide (ae_peer_state l = Connected ∧ ae_timestamp e - ae_timestamp l < from_secs 11)%Z
  then (ae_timestamp e - ae_timestamp l)%Z else 0%Z.

(** The counters of sent and received bytes *)
Definition counters_of (e : AnalyticsEvent) : Z * Z := (ae_tx_bytes e, ae_rx_bytes e).
Definition map2 (f : Z → Z → Z) (x y : Z * Z) : Z * Z := (f x.1 y.1, f x.2 y.2).

(** The advance of a counter; one that starts again has none. *)
Definition advance (from to : Z) : Z := Z.max 0 (to - from).

(** The second event of a new node is counted from zero, not from the counters of
    the first one. *)
Definition observe_event (e : AnalyticsEvent) (m : Measured) : Measured :=
  match m_last m with
  | None => mkMeasured (Some e) true 0 0 0 (0, 0) (0, 0)
  | Some l =>
      mkMeasured (Some e) false (m_connected m + connected_span l e)
        (m_seconds m + Z.max 1 (as_secs (ae_timestamp e - ae_timestamp l))) (m_events m + 1)
        (map2 Z.add (m_bytes m) (map2 advance (counters_of l) (counters_of e)))
        (if m_new m then map2 Z.add (m_surplus m) (map2 Z.min (counters_of l) (counters_of e)) else m_surplus m)
  end%Z.

Definition observe_input (k : PublicKey) (i : QosInput) (m : Measured) : Measured :=
  match i with
  | QosWgEvent e => if is_from_ignored_peer e then m else if decide (ae_public_key e = k) then observe_event e m else m
  | _ => m
  end.

(** A report of some nodes: those start again, the others are forgotten. *)
Definition observe_report (k : PublicKey) (keys : list PublicKey) (m : Measured) : Measured :=
  if decide (k ∈ keys) then mkMeasured (m_last m) (m_new m) 0 0 0 (0, 0)%Z (0, 0)%Z else unmeasured.

(** The events of a node come in the order of time, with counters of 64 bits. *)
Definition in_order (k : PublicKey) (i : QosInput) (m : Measured) : Prop :=
  match i with
  | QosWgEvent e => ae_public_key e = k → is_uint 64 (ae_tx_bytes e) ∧ is_uint 64 (ae_rx_bytes e) ∧
      ∀ l, m_last m = Some l → (ae_timestamp l <= ae_timestamp e)%Z
  | _ => True
  end.

Inductive qos_history (k : PublicKey) : Measured → QosState → Prop :=
| Qos_begin now ipv6 pinger_ok st : qos_new now config ipv6 pinger_ok = Returns st → qos_history k unmeasured st
| Qos_input now i m st st' : qos_history k m st → in_order k i m → qos_enabled now i st = true → qos_step now i st = Returns st' →
    qos_history k (observe_input k i m) st'
| Qos_report m st internal external : qos_history k m st →
    qos_history k (observe_report k (internal ++ external) m) (take_qos_data internal external st).2.

(** A histogram with one sample for each second, which lost less than a byte per
    second to the division of each event *)
Definition byte_samples (seconds events bytes : Z) (h : Histogram) : Prop :=
  ∃ samples, h = foldl (λ h v, hist_increment v h) hist_new samples ∧ Z.of_nat (length samples) = seconds ∧
    (foldr Z.add 0 samples <= bytes <= foldr Z.add 0 samples + (seconds - events))%Z.

Lemma byte_samples_none : byte_samples 0 0 0 hist_new.
Proof. exists []. simpl. split_and!; [done..|lia|lia]. Qed.

Lemma sum_app l1 l2 : foldr Z.add 0%Z (l1 ++ l2) = (foldr Z.add 0 l1 + foldr Z.add 0 l2)%Z.
Proof. induction l1 as [|x l1 IH]; simpl; [done|]. lia. Qed.

Lemma sum_replicate (times : nat) v : foldr Z.add 0%Z (replicate times v) = (Z.of_nat times * v)%Z.
Proof. induction times as [|times IH]; [done|]. rewrite replicate_S. cbn [foldr]. lia. Qed.

Lemma increments_foldl (times : nat) v h : increments times v h = foldl (λ h v, hist_increment v h) h (replicate times v).
Proof. revert h. induction times as [|times IH]; intros h; simpl; [done|]. apply IH. Qed.

Lemma byte_samples_more seconds events bytes h s current : (0 < s)%Z → (0 <= current)%Z → byte_samples seconds events bytes h →
  byte_samples (seconds + s) (events + 1) (bytes + current) (increments (Z.to_nat s) (current / s) h).
Proof.
  intros Hs Hc (samples & -> & Hlen & Hsum). exists (samples ++ replicate (Z.to_nat s) (current / s)%Z).
  rewrite foldl_app, length_app, length_replicate, sum_app, sum_replicate, increments_foldl. split_and!; [done|lia|..].
  all: pose proof (Z.div_mod current s); pose proof (Z.mod_pos_bound current s Hs); rewrite Z2Nat.id by lia; lia.
Qed.

(** The node and what happened *)
Definition measures (m : Measured) (node : option QosNode) : Prop :=
  match node with
  | None => m_last m = None
  | Some n => ∃ l, m_last m = Some l ∧ qos_last_event n = ae_timestamp l ∧ qos_peer_state n = ae_peer_state l ∧
      (last_tx_bytes n, last_rx_bytes n) = (if m_new m then (0, 0)%Z else counters_of l) ∧ connected_time n = m_connected m ∧
      let bytes := map2 Z.add (m_bytes m) (m_surplus m) in
      byte_samples (m_seconds m) (m_events m) bytes.1 (tx_histogram n) ∧ byte_samples (m_seconds m) (m_events m) bytes.2 (rx_histogram n)
  end.

(** The update of a node, for an event that is not older than the last one *)
Lemma update_node_spec e n : (qos_last_event n <= ae_timestamp e)%Z →
  let gap := (ae_timestamp e - qos_last_event n)%Z in let s := Z.max 1 (as_secs gap) in
  update_node e n =
  mkQosNode (qos_public_key n) (ae_peer_state e) (ae_timestamp e)
    (connected_time n + if decide (qos_peer_state n = Connected ∧ gap < from_secs 11)%Z then gap else 0)
    (ae_dual_ip_addresses e) (rtt_histogram n) (rtt_loss_histogram n) (rtt6_histogram n) (rtt6_loss_histogram n)
    (ae_tx_bytes e) (ae_rx_bytes e)
    (increments (Z.to_nat s) (Z.max 0 (ae_tx_bytes e - last_tx_bytes n) / s) (tx_histogram n))
    (increments (Z.to_nat s) (Z.max 0 (ae_rx_bytes e - last_rx_bytes n) / s) (rx_histogram n)).
Proof.
  intros Hle gap s. unfold update_node, update_throughput_info, update_connection_duration, checked_duration_since.
  rewrite (proj2 (Z.leb_le _ _) Hle).
  assert ((10 <? as_secs (duration_since (ae_timestamp e) (qos_last_event n)))%Z = negb (bool_decide (gap < from_secs 11)%Z)) as ->.
  { unfold as_secs, duration_since, from_secs. fold gap. rewrite Z.max_r by lia. case_bool_decide; simpl.
    - apply Z.ltb_ge. assert (gap / 1000000000 < 11)%Z by (apply Z.div_lt_upper_bound; lia). lia.
    - apply Z.ltb_lt. assert (11 <= gap / 1000000000)%Z by (apply Z.div_le_lower_bound; lia). lia. }
  rewrite negb_involutive.
  case_decide as Hd; [rewrite !bool_decide_eq_true_2 by apply Hd|].
  - cbn. by rewrite (proj2 (Z.leb_le _ _) Hle).
  - assert (bool_decide (qos_peer_state n = Connected) && bool_decide (gap < from_secs 11)%Z = false) as ->.
    { apply not_true_is_false. intros [?%bool_decide_eq_true_1 ?%bool_decide_eq_true_1]%andb_true_iff. by apply Hd. }
    cbn. by rewrite (proj2 (Z.leb_le _ _) Hle), Z.add_0_r.
Qed.

(** What the node counts is the advance and the surplus. *)
Lemma counted_bytes (new : bool) b sp l e : (0 <= l)%Z → (0 <= e)%Z →
  ((b + sp) + Z.max 0 (e - (if new then 0 else l)) = (b + advance l e) + (if new then sp + Z.min l e else sp))%Z.
Proof. unfold advance. destruct new; lia. Qed.

(** The last event of a node has counters of 64 bits. *)
Definition last_ok (m : Measured) : Prop :=
  ∀ l, m_last m = Some l → is_uint 64 (ae_tx_bytes l) ∧ is_uint 64 (ae_rx_bytes l).

Lemma measures_event e m n : measures m (Some n) → last_ok m → is_uint 64 (ae_tx_bytes e) → is_uint 64 (ae_rx_bytes e) →
  (∀ l, m_last m = Some l → (ae_timestamp l <= ae_timestamp e)%Z) →
  measures (observe_event e m) (Some (update_node e n)).
Proof.
  intros (l & Hl & Ht & Hp & Hc & Hct & Htx & Hrx) Hlast [He1 _] [He2 _] Hord.
  specialize (Hord l Hl). destruct (Hlast l Hl) as [[Hl1 _] [Hl2 _]]. rewrite <-Ht in Hord.
  rewrite update_node_spec by done. unfold observe_event. rewrite Hl.
  assert (last_tx_bytes n = (if m_new m then 0 else ae_tx_bytes l)%Z ∧ last_rx_bytes n = (if m_new m then 0 else ae_rx_bytes l)%Z)
    as [Hct1 Hct2] by (destruct (m_new m); by injection Hc).
  exists e. cbn -[Z.max Z.min]. rewrite Hct, Ht, Hp, Hct1, Hct2. unfold connected_span.
  split_and!; [done..| |].
  - pose proof (byte_samples_more _ _ _ _ (Z.max 1 (as_secs (ae_timestamp e - ae_timestamp l)))
      (Z.max 0 (ae_tx_bytes e - (if m_new m then 0 else ae_tx_bytes l))) ltac:(lia) ltac:(lia) Htx) as Hmore.
    cbn -[Z.max Z.min] in Hmore. rewrite counted_bytes in Hmore by done. by destruct (m_new m).
  - pose proof (byte_samples_more _ _ _ _ (Z.max 1 (as_secs (ae_timestamp e - ae_timestamp l)))
      (Z.max 0 (ae_rx_bytes e - (if m_new m then 0 else ae_rx_bytes l))) ltac:(lia) ltac:(lia) Hrx) as Hmore.
    cbn -[Z.max Z.min] in Hmore. rewrite counted_bytes in Hmore by done. by destruct (m_new m).
Qed.

Lemma last_ok_input k i m : last_ok m → in_order k i m → last_ok (observe_input k i m).
Proof.
  intros Hlast Hord. destruct i; cbn [observe_input in_order] in *; try done.
  case_match; [done|]. case_decide as Hk; [|done]. destruct (Hord Hk) as (? & ? & _).
  unfold observe_event. destruct (m_last m); intros l; cbn; intros [= <-]; done.
Qed.

Lemma measures_step k now i m st st' : qos_ok st → last_ok m → measures m (qos_nodes st !! k) → in_order k i m →
  qos_enabled now i st = true → qos_step now i st = Returns st' → measures (observe_input k i m) (qos_nodes st' !! k).
Proof.
  intros Hok Hlast Hm Hord Hen Hs. destruct i as [e|event|net|net|i|]; cbn [qos_step observe_input] in *; [injection Hs as <-..| |].
  - unfold qos_handle_wg_event. case_match; [done|]. cbn. case_decide as Hk; [subst k|by rewrite lookup_insert_ne].
    rewrite lookup_insert_eq. destruct (qos_nodes st !! ae_public_key e) as [n|]; [|].
    { destruct (Hord eq_refl) as (? & ? & ?). by apply measures_event. }
    cbn in Hm. unfold observe_event. rewrite Hm. exists e. cbn. split_and!; auto using byte_samples_none.
  - done.
  - unfold perform_ping. by case_decide.
  - unfold perform_ping. by case_decide.
  - by destruct (ping_tasks st !! i) as [[|]|]; injection Hs as <-.
  - destruct (ping_queue st) as [|r queue] eqn:E; [by injection Hs as <-|]. pose proof Hok as [Hb Ht Hp Hq Hts].
    rewrite E in Hq. apply Forall_cons in Hq as [Hr Hq].
    unfold process_node_ping_results in Hs. repeat case_match; simplify_eq; cbn; try done.
    destruct (decide (r.1 = k)) as [<-|Hne]; [|by rewrite lookup_insert_ne]. rewrite lookup_insert_eq.
    unfold record_pings in *. repeat case_match; simplify_eq. cbn in *.
    match goal with Hn : qos_nodes st !! r.1 = Some _ |- _ => by rewrite Hn in Hm end.
Qed.

Lemma measures_report k internal external m st : measures m (qos_nodes st !! k) →
  measures (observe_report k (internal ++ external) m) (qos_nodes (take_qos_data internal external st).2 !! k).
Proof.
  intros Hm. unfold observe_report. cbn. rewrite lookup_fmap. case_decide as Hk.
  - rewrite map_lookup_filter. destruct (qos_nodes st !! k) as [n|]; cbn in *; [|done].
    rewrite option_guard_True by (by apply elem_of_list_to_set). cbn. destruct Hm as (l & Hl & Ht & Hp & Hc & _).
    exists l. cbn. split_and!; auto using byte_samples_none.
  - rewrite map_lookup_filter_None_2; [done|]. right. intros n _ Hin. apply elem_of_list_to_set in Hin. done.
Qed.

(** C35: what the service quality data measure, when the events of a node come in
    the order of time.  In every history, a node is known exactly if an event of
    it came since it was last left out of a report; its connected time is the time
    between its events since the last report while it was connected, without the
    pauses of eleven seconds or more, and its histograms have one sample for each
    of the seconds between these events (at least one per event).  The samples
    together are, up to less than a byte per second, the bytes by which its
    counters advanced from each event to the next, and a surplus: the second event
    of a node that is new is counted from zero, which adds the smaller one of its
    first two counters. *)
Theorem qos_accounts k m st : qos_history k m st → measures m (qos_nodes st !! k).
Proof.
  intros Hh. enough (qos_reach st ∧ last_ok m ∧ measures m (qos_nodes st !! k)) by tauto.
  induction Hh as [now ipv6 ok st Hnew|now i m st st' _ (Hr & Hl & IH) Hord Hen Hs|m st internal external _ (Hr & Hl & IH)].
  - split; [by econstructor|]. split; [done|]. unfold qos_new in Hnew. case_match; [done|]. by injection Hnew as <-.
  - split; [by eapply Qos_step|]. split; [by apply last_ok_input|]. eapply measures_step; [by apply qos_reach_ok|done..].
  - split; [by apply Qos_taken|]. split; [|by apply measures_report]. unfold observe_report. by case_decide.
Qed.
End histories.

(** ** The nurse *)

Section nurse.
Context `{IpNets} `{Ciphers} `{NurseFormats} `{IoErrorCodes} `{Histograms} `{UuidParse}.
Context `{!HashOrder PublicKey} `{!HashOrder Uuid} `{!HashOrderLaws PublicKey} `{!HashOrderLaws Uuid} (agg_config : AggregatorConfig).
Implicit Types (st : NurseState) (log : list NurseEffect) (now : Instant).

















(** The data of a disconnect are lost.  The event that is sent when the device
    stops never has service quality data: its list of nodes is empty, so all columns
    are, and all measurements are dropped without having been reported. *)
Theorem disconnect_carries_no_qos now wg fresh st qos : nurse_qos st = Some (Returns qos) →
  let r := send_disconnect_data agg_config now wg fresh st in
  r.2 = [] ∨ ∃ nat_traversal derp qos',
    r.2 = lana (lana_initialized st) [SendNodeDisconnect output_default 0 nat_traversal derp; FlushChanges] ∧
    nurse_qos r.1 = Some (Returns qos') ∧ qos_nodes qos' = ∅.
Proof.
  intros Hq. unfold send_disconnect_data, get_disconnect_data.
  destruct (fetch_conn_data_spec agg_config now wg true
    (index_map_full (get_current_meshmap_info (update_current_meshmap_info fresh (nurse_heartbeat st)))) heartbeat_info_default
    (update_current_meshmap_info fresh (nurse_heartbeat st))) as (d & _ & _ & _ & Hinfo).
  destruct (fetch_conn_data _ _ _ _ _ _ _) as [[info|] hb]; [right|by left]. cbn [fst] in Hinfo.
  destruct (Hinfo info eq_refl) as (Hi & He & _ & _ & Hint). unfold handle_service_quality_event. rewrite Hq, Hi, He, Hint.
  eexists _, _, _. split; [reflexivity|]. split; [reflexivity|]. cbn.
  apply map_empty. intros k. rewrite lookup_fmap, map_lookup_filter_None_2; [done|]. right. intros n _ Hin. by apply not_elem_of_empty in Hin.
Qed.
End nurse.

Module QosSamples.
Import ToyCrypto CryptoSamples AggregatorSamples HeartbeatSamples.

#[local] Existing Instance AddrPrefix.nets.
#[local] Existing Instance ToyCiphers.
#[local] Existing Instance elements_order.
#[local] Existing Instance elements_order_laws.
#[local] Existing Instance plain_formats.
#[local] Existing Instance same_code.

(** Histograms that keep their samples, and answer with the largest one *)
#[local] Instance sample_lists : Histograms := {
  Histogram := list Z;
  hist_new := [];
  hist_increment := λ v h, h ++ [v];
  hist_entries := λ h, Z.of_nat (length h);
  hist_percentile := λ _ h, if decide (h = []) then None else Some (wrap 64 (foldr Z.max 0%Z h))
}.
#[local] Instance sample_lists_laws : HistogramLaws.
Proof.
  split. intros step h v Hv. cbn in Hv. case_decide; [done|]. injection Hv as <-. unfold wrap, is_uint.
  apply Z.mod_pos_bound. lia.
Qed.
#[local] Instance no_uuid : UuidParse := λ _, None.

(** Every second ping of a host fails, the others take two milliseconds. *)
Definition half_lost : PingNet := λ _ i _, if Z.even i then Some (from_millis 2) else None.

Definition qos_config0 : QoSConfig := qos_config_new 300 3 [Ping] 2.
Definition addresses : list DualTarget := [mkDualTarget (Some (ipv4_addr 10 0 0 1), None)].
Definition traffic (t tx : Z) : AnalyticsEvent := mkAnalyticsEvent them addresses tx 0 Connected (from_secs t).

Definition of_outcome {A} (d : A) (o : outcome A) : A := match o with Returns a => a | Panics => d end.
Definition qos0 : QosState := of_outcome (mkQosState 0 0 ∅ None [] 0 [] 0 None) (qos_new 0 qos_config0 false true).
Definition qos_inputs : list (Z * QosInput) :=
  [(1, QosWgEvent (traffic 1 500)); (3, QosWgEvent (traffic 3 1001)); (4, QosTrigger half_lost); (5, QosPingSent 0)]%Z.
Definition qos_run (l : list (Z * QosInput)) : QosState := foldl (λ st x, of_outcome st (qos_step x.1 x.2 st)) qos0 l.

Lemma config0_tries : is_uint 32 (rtt_tries qos_config0).
Proof. by vm_compute. Qed.

Lemma reach_snoc l now i : qos_reach qos_config0 (qos_run l) → qos_enabled now i (qos_run l) = true →
  qos_reach qos_config0 (qos_run (l ++ [(now, i)])).
Proof.
  intros Hr Hen. unfold qos_run at 1. rewrite foldl_app. fold (qos_run l). cbn [foldl fst snd].
  destruct (qos_step now i (qos_run l)) as [st'|] eqn:E; cbn [of_outcome]; [by eapply Qos_step|done].
Qed.

Lemma run_reach : qos_reach qos_config0 (qos_run qos_inputs).
Proof.
  apply (reach_snoc (take 3 qos_inputs)); [|vm_compute; reflexivity]. apply (reach_snoc (take 2 qos_inputs)); [|vm_compute; reflexivity].
  apply (reach_snoc (take 1 qos_inputs)); [|reflexivity]. apply (reach_snoc []); [|reflexivity]. by apply (Qos_start _ 0 false true).
Qed.

(** A loss of a third *)
Lemma qos_never_panics_witness :
  ∃ st', qos_step 6 QosPingResult (qos_run qos_inputs) = Returns st' ∧ rtt_loss_histogram <$> qos_nodes st' !! them = Some [33]%Z.
Proof.
  destruct (qos_never_panics qos_config0 config0_tries 6 QosPingResult _ run_reach ltac:(vm_compute; reflexivity)) as (st' & Hs & _).
  exists st'. split; [exact Hs|].
  assert (st' = of_outcome st' (qos_step 6 QosPingResult (qos_run qos_inputs))) as -> by (by rewrite Hs). vm_compute. reflexivity.
Defined.

(** Two entries, of which only the first node is known *)
Definition two_nodes : HeartbeatInfo := mkHeartbeatInfo true [] [] [] [them] [key 9] 300 [] [] [] [] [].
Lemma qos_columns_aligned_witness :
  ∃ data, (handle_service_quality_event two_nodes false (Some (Returns (qos_run qos_inputs)))).1 = SendNodeHeartbeat data 300 [] [] ∧
    split comma (out_tx data) = [str "500:500"; str "0:0"] ∧ split semicolon (out_connection_duration data) = [str "2"; str "0"].
Proof.
  destruct (qos_columns_aligned qos_config0 config0_tries two_nodes (qos_run qos_inputs) run_reach ltac:(done) ltac:(done))
    as (data & Hd & _ & _ & _ & _ & Htx & _ & Hdur & _).
  exists data. split; [exact Hd|]. rewrite Htx, Hdur. split; vm_compute; reflexivity.
Defined.

(** Two events two seconds apart; the first 500 bytes are counted as well. *)
Definition measured1 : Measured := observe_input them (QosWgEvent (traffic 1 500)) unmeasured.
Definition measured2 : Measured := observe_input them (QosWgEvent (traffic 3 1001)) measured1.

Lemma run_history : qos_history qos_config0 them measured2 (qos_run (take 2 qos_inputs)).
Proof.
  apply (Qos_input qos_config0 them 3 (QosWgEvent (traffic 3 1001)) measured1 (qos_run (take 1 qos_inputs)));
    [|intros _; split_and!; [done..|]; intros l [= <-]; vm_compute; congruence|reflexivity..].
  apply (Qos_input qos_config0 them 1 (QosWgEvent (traffic 1 500)) unmeasured qos0);
    [|intros _; by split_and!|reflexivity..].
  by apply (Qos_begin _ _ 0 false true).
Qed.

Lemma qos_accounts_witness :
  connected_time <$> qos_nodes (qos_run (take 2 qos_inputs)) !! them = Some (from_secs 2) ∧
  m_bytes measured2 = (501, 0)%Z ∧ m_surplus measured2 = (500, 0)%Z.
Proof.
  pose proof (qos_accounts qos_config0 config0_tries them _ _ run_history) as Hm.
  destruct (qos_nodes (qos_run (take 2 qos_inputs)) !! them) as [n|]; [|done].
  destruct Hm as (l & _ & _ & _ & _ & Hc & _). split; [|done]. cbn [fmap option_fmap option_map]. rewrite Hc. reflexivity.
Defined.





Lemma disconnect_carries_no_qos_witness :
  let st := mkNurseState true begun (Some (Returns (qos_run qos_inputs))) [] in
  (send_disconnect_data all_events 0 None id_b st).2 = [] ∨
  ∃ nat_traversal derp qos',
    (send_disconnect_data all_events 0 None id_b st).2 = [SendNodeDisconnect output_default 0 nat_traversal derp; FlushChanges] ∧
    nurse_qos (send_disconnect_data all_events 0 None id_b st).1 = Some (Returns qos') ∧ qos_nodes qos' = ∅.
Proof.
  exact (disconnect_carries_no_qos all_events 0 None id_b (mkNurseState true begun (Some (Returns (qos_run qos_inputs))) [])
    (qos_run qos_inputs) eq_refl).
Defined.
End QosSamples.
