(* ===== verification/Stun.v ===== *)
(** * [telio-traversal]: the STUN endpoint provider ([endpoint_providers/stun.rs])

    The provider asks a STUN server twice for the address of this device: once
    through the WireGuard tunnel, for the address of the WireGuard socket, and once
    in plain text, for the address of its own socket.  The two answers make an
    endpoint candidate.

    The state is the record [StunProvider].  Every definition takes the instant
    [now] and an environment [StunEnv] with the answers of the outside: the
    interface of WireGuard at each query, the random transaction ids, and whether
    sockets could be opened and sends succeeded.  The codec of STUN messages is the
    interface [StunCodec]. *)

From S2P Require Import Prelude NetTypes WgTypes Crypto NetText Proto PingPong Backoff CrossPing DeviceTypes Derp Relay StarcastNat.

Definition STUN_TIMEOUT_PAUSED : Duration := from_secs 600.
Definition STUN_TIMEOUT : Duration := from_secs 5.

(** [stun_codec]: a request with a transaction id, and what a message has of an
    id, of [XorMappedAddress] and of [MappedAddress] *)
Class StunCodec := {
  stun_encode : bytes → option bytes;
  stun_decode : bytes → option (bytes * option SocketAddr * option SocketAddr)
}.

(** What occurs of [endpoint_providers::Error] *)
Inductive StunError :=
| StunNotConfigured
| NoStunPeer
| BadStunPeer
| StunWireGuardError
| StunIoError
| ByteCodecError
| StunPingError (e : ProviderError).

(** ** Sessions *)

Inductive StunRequest :=
| Waiting (addr : SocketAddr) (tid : bytes)
| StunAddress (addr : SocketAddr).

Record StunSession := mkStunSession { session_wg : StunRequest; session_udp : StunRequest }.

Inductive StunResult :=
| Final (candidate : EndpointCandidate)
| Consumed
| Skipped.

Section requests.
Context `{StunCodec}.

(** [stun_msg::decode_response] *)
Definition decode_response (payload : bytes) : result StunError (SocketAddr * bytes) :=
  match stun_decode payload with
  | Some (tid, x_m_addr, m_addr) =>
      match x_m_addr, m_addr with
      | Some addr, _ | None, Some addr => Ok (addr, tid)
      | None, None => Err ByteCodecError
      end
  | None => Err ByteCodecError
  end.

(** [StunRequest::try_update] *)
Definition try_update (payload : bytes) (src_addr : SocketAddr) (r : StunRequest) : result StunError (bool * StunRequest) :=
  match r with
  | Waiting addr tid =>
      if bool_decide (addr ≠ src_addr) then Ok (false, r)
      else
        let? '(sa, id) := decode_response payload in
        if bool_decide (id ≠ tid) then Ok (false, r) else Ok (true, StunAddress sa)
  | StunAddress _ => Ok (false, r)
  end.

(** [StunSession::try_consume] *)
Definition try_consume (payload : bytes) (src_addr : SocketAddr) (s : StunSession) : result StunError (StunResult * StunSession) :=
  let? '(consumed, wg) := try_update payload src_addr (session_wg s) in
  let? '(consumed, udp) :=
    (if consumed then Ok (true, session_udp s) else try_update payload src_addr (session_udp s)) in
  let s := mkStunSession wg udp in
  if consumed then
    match wg, udp with
    | StunAddress wg, StunAddress udp => Ok (Final (mkEndpointCandidate wg udp), s)
    | _, _ => Ok (Consumed, s)
    end
  else Ok (Skipped, s).
End requests.

(** ** The provider *)

Inductive StunState := WaitingForWg | SearchingForServer | BackingOff | HasEndpoints | Paused.

#[export] Instance StunState_eq_dec : EqDecision StunState.
Proof. solve_decision. Defined.

Inductive IpProto := ProtoIPv4 | ProtoIPv6.

#[export] Instance IpProto_eq_dec : EqDecision IpProto.
Proof. solve_decision. Defined.

(** [StunSockets]: which of the sockets in the tunnel there are; the external one
    always is *)
Record StunSockets := mkStunSockets { tun_socket_v4 : bool; tun_socket_v6 : bool }.

(** The socket a request leaves by *)
Inductive StunVia := ViaTunV4 | ViaTunV6 | ViaExternal.

(** What the provider does: it sends requests, announces candidates and publishes
    the server that WireGuard should have as a peer *)
Inductive StunEffect :=
| StunSend (via : StunVia) (addr : SocketAddr) (tid : bytes)
| StunCandidates (candidates : list EndpointCandidate)
| StunPeer (server : option Server).

(** The outside, during one step *)
Record StunEnv `{IpNets} := mkStunEnv {
  env_ready : option Interface;
  env_interface : option Interface;
  env_wg_tid : bytes;
  env_udp_tid : bytes;
  env_wg_sent : bool;
  env_udp_sent : bool;
  env_published : bool;
  env_tun_v4 : bool;
  env_tun_v6 : bool;
  env_ext : bool;
  env_handler : PingPongHandler;
  env_time : Z;
  env_nonce : bytes;
  env_rng : Encryption.Draws
}.

(** [servers.sort_by_key(|s| (s.weight, s.public_key))], which is stable *)
Definition server_le (a b : Server) : bool :=
  (weight a <? weight b)%Z || ((weight a =? weight b)%Z && bool_decide (key_le (server_public_key a) (server_public_key b))).
Fixpoint insert_stun_server (s : Server) (l : list Server) : list Server :=
  match l with
  | [] => [s]
  | t :: l' => if server_le s t then s :: l else t :: insert_stun_server s l'
  end.
Definition sort_stun_servers (l : list Server) : list Server := foldr insert_stun_server [] l.

Section provider.
Context `{StunCodec} `{IpNets} `{Messages} `{Ciphers} `{Backoff E}.

(** [State] *)
Record StunProvider := mkStunProvider {
  stun_servers : list Server;
  stun_sockets : option StunSockets;
  current_server_index : nat;
  current_proto : IpProto;
  stun_subscribed : bool;
  stun_session : option StunSession;
  stun_backoff : E;
  stun_timeout : Instant;
  last_candidates : list EndpointCandidate;
  stun_state : StunState;
  is_battery_optimization_on : bool;
  stun_pings : PingIo
}.
Implicit Types (st : StunProvider) (log : list StunEffect) (now : Instant) (env : StunEnv).

Definition set_servers (l : list Server) (i : nat) st : StunProvider :=
  mkStunProvider l (stun_sockets st) i (current_proto st) (stun_subscribed st) (stun_session st) (stun_backoff st) (stun_timeout st)
    (last_candidates st) (stun_state st) (is_battery_optimization_on st) (stun_pings st).
Definition set_stun_sockets (sockets : option StunSockets) (pings : PingIo) st : StunProvider :=
  mkStunProvider (stun_servers st) sockets (current_server_index st) (current_proto st) (stun_subscribed st) (stun_session st)
    (stun_backoff st) (stun_timeout st) (last_candidates st) (stun_state st) (is_battery_optimization_on st) pings.
Definition set_proto (proto : IpProto) st : StunProvider :=
  mkStunProvider (stun_servers st) (stun_sockets st) (current_server_index st) proto (stun_subscribed st) (stun_session st)
    (stun_backoff st) (stun_timeout st) (last_candidates st) (stun_state st) (is_battery_optimization_on st) (stun_pings st).
Definition set_session (session : option StunSession) (timeout : Instant) st : StunProvider :=
  mkStunProvider (stun_servers st) (stun_sockets st) (current_server_index st) (current_proto st) (stun_subscribed st) session
    (stun_backoff st) timeout (last_candidates st) (stun_state st) (is_battery_optimization_on st) (stun_pings st).
Definition set_stun_backoff (backoff : E) st : StunProvider :=
  mkStunProvider (stun_servers st) (stun_sockets st) (current_server_index st) (current_proto st) (stun_subscribed st) (stun_session st)
    backoff (stun_timeout st) (last_candidates st) (stun_state st) (is_battery_optimization_on st) (stun_pings st).
Definition set_stun_state (s : StunState) (timeout : Instant) st : StunProvider :=
  mkStunProvider (stun_servers st) (stun_sockets st) (current_server_index st) (current_proto st) (stun_subscribed st) (stun_session st)
    (stun_backoff st) timeout (last_candidates st) s (is_battery_optimization_on st) (stun_pings st).
Definition set_last_candidates (l : list EndpointCandidate) st : StunProvider :=
  mkStunProvider (stun_servers st) (stun_sockets st) (current_server_index st) (current_proto st) (stun_subscribed st) (stun_session st)
    (stun_backoff st) (stun_timeout st) l (stun_state st) (is_battery_optimization_on st) (stun_pings st).
Definition set_subscriptions (subscribed : bool) (pings : PingIo) st : StunProvider :=
  mkStunProvider (stun_servers st) (stun_sockets st) (current_server_index st) (current_proto st) subscribed (stun_session st)
    (stun_backoff st) (stun_timeout st) (last_candidates st) (stun_state st) (is_battery_optimization_on st) pings.

(** [start_with_exp_backoff]; the socket of the pings exists after the first
    configuration *)
Definition stun_start now (backoff : E) (battery : bool) : StunProvider :=
  mkStunProvider [] None 0 ProtoIPv6 false None backoff (now + STUN_TIMEOUT)%Z [] WaitingForWg battery
    (mkPingIo (mkChan true []) None).

(** [ipv6_is_enabled], [is_in_ipv6_mode] and [get_socket] *)
Definition ipv6_is_enabled st : bool := match stun_sockets st with Some s => tun_socket_v6 s | None => false end.
Definition is_in_ipv6_mode st : bool := ipv6_is_enabled st && bool_decide (current_proto st = ProtoIPv6).
Definition get_socket st : option StunVia :=
  match stun_sockets st with
  | Some s =>
      if is_in_ipv6_mode st then (if tun_socket_v6 s then Some ViaTunV6 else None)
      else (if tun_socket_v4 s then Some ViaTunV4 else None)
  | None => None
  end.

(** [get_wg_port] *)
Definition get_wg_port st : WGPort :=
  match last_candidates st with c :: _ => mkWGPort (socket_port (candidate_wg c)) | [] => mkWGPort 0 end.

(** [is_wg_ready] *)
Definition is_wg_ready env st : bool :=
  match env_ready env, stun_servers st !! current_server_index st with
  | Some wg, Some server => bool_decide (is_Some (peers wg !! server_public_key server))
  | _, _ => false
  end.

(** [get_stun_endpoints] *)
Definition is_ipv6_addr (ip : StdIpAddr) : bool := match ip with V6 _ => true | V4 _ => false end.
Definition get_stun_endpoints env st : result StunError (SocketAddr * SocketAddr) :=
  match stun_sockets st with
  | Some _ =>
      match stun_servers st !! current_server_index st with
      | Some server =>
          match env_interface env with
          | Some interface =>
              match peers interface !! server_public_key server with
              | Some stun_peer =>
                  match List.find (λ n, Bool.eqb (is_ipv6_addr (ipnet_addr n)) (is_in_ipv6_mode st)) (allowed_ips stun_peer) with
                  | Some wg_net =>
                      match endpoint stun_peer with
                      | Some e =>
                          Ok (socket_addr_new (ipnet_addr wg_net) (server_stun_port server),
                              socket_addr_new (socket_ip e) (stun_plaintext_port server))
                      | None => Err BadStunPeer
                      end
                  | None => Err BadStunPeer
                  end
              | None => Err NoStunPeer
              end
          | None => Err StunWireGuardError
          end
      | None => Err NoStunPeer
      end
  | None => Err StunNotConfigured
  end.

(** [StunSession::start] *)
Definition stun_session_start env (via : StunVia) (wg udp : SocketAddr) log : result StunError StunSession * list StunEffect :=
  match stun_encode (env_wg_tid env), stun_encode (env_udp_tid env) with
  | Some _, Some _ =>
      if env_wg_sent env then
        let log := log ++ [StunSend via wg (env_wg_tid env)] in
        if env_udp_sent env then
          (Ok (mkStunSession (Waiting wg (env_wg_tid env)) (Waiting udp (env_udp_tid env))),
           log ++ [StunSend ViaExternal udp (env_udp_tid env)])
        else (Err StunIoError, log)
      else (Err StunIoError, log)
  | _, _ => (Err ByteCodecError, log)
  end.

(** [start_stun_session] *)
Definition start_stun_session now env st log : result StunError unit * (StunProvider * list StunEffect) :=
  match stun_sockets st with
  | Some _ =>
      match stun_session st with
      | Some _ => (Ok tt, (st, log))
      | None =>
          match get_stun_endpoints env st with
          | Ok (wg, udp) =>
              match get_socket st with
              | Some int_socket =>
                  match stun_session_start env int_socket wg udp log with
                  | (Ok session, log) => (Ok tt, (set_session (Some session) (now + STUN_TIMEOUT)%Z st, log))
                  | (Err e, log) => (Err e, (st, log))
                  end
              | None => (Err StunNotConfigured, (st, log))
              end
          | Err e => (Err e, (st, log))
          end
      end
  | None => (Err StunNotConfigured, (st, log))
  end.

(** [transition_to_wait_for_wg] and [try_transition_to_searching_for_server] *)
Definition transition_to_wait_for_wg now st : StunProvider := set_stun_state WaitingForWg (now + STUN_TIMEOUT)%Z st.

Definition try_transition_to_searching_for_server now env st log : StunProvider * list StunEffect :=
  if bool_decide (stun_servers st ≠ []) && bool_decide (stun_state st ≠ Paused) && is_wg_ready env st then
    (start_stun_session now env (set_stun_state SearchingForServer (stun_timeout st) st) log).2
  else (st, log).

(** The announcement of candidates *)
Definition announce (candidates : list EndpointCandidate) st log : StunProvider * list StunEffect :=
  (set_last_candidates candidates st, if stun_subscribed st then log ++ [StunCandidates candidates] else log).

(** [transition_to_has_endpoints_state] *)
Definition transition_to_has_endpoints_state now (candidate : EndpointCandidate) st log : StunProvider * list StunEffect :=
  let candidates := [candidate] in
  let '(st, log) := if bool_decide (last_candidates st ≠ candidates) then announce candidates st log else (st, log) in
  let st := set_stun_backoff (reset_backoff (stun_backoff st)) st in
  (set_stun_state HasEndpoints (now + get_backoff (stun_backoff st))%Z st, log).

(** [next_server]: whether the list starts again *)
Definition next_server env st log : bool * (StunProvider * list StunEffect) :=
  let last_server_index := current_server_index st in
  let next :=
    match stun_servers st with [] => 0 | _ => S last_server_index `mod` length (stun_servers st) end in
  let '(i, log) :=
    if env_published env then (next, log ++ [StunPeer (stun_servers st !! next)]) else (last_server_index, log) in
  (bool_decide (i ≤ last_server_index), (set_servers (stun_servers st) i st, log)).

(** [transition_to_backing_off_state_or_change_proto] *)
Definition transition_to_backing_off_state_or_change_proto now env st log : outcome (StunProvider * list StunEffect) :=
  let '(st, log) := if bool_decide (last_candidates st ≠ []) then announce [] st log else (st, log) in
  let st := set_session None (stun_timeout st) st in
  if is_in_ipv6_mode st then
    let st := transition_to_wait_for_wg now (set_proto ProtoIPv4 st) in
    Returns (try_transition_to_searching_for_server now env st log)
  else
    let st := set_proto (if ipv6_is_enabled st then ProtoIPv6 else ProtoIPv4) st in
    let st := set_stun_state BackingOff (now + get_backoff (stun_backoff st))%Z st in
    let '(reset, (st, log)) := next_server env st log in
    if reset then
      match next_backoff (stun_backoff st) with
      | Returns backoff => Returns (set_stun_backoff backoff st, log)
      | Panics => Panics
      end
    else Returns (st, log).

(** [try_handle_stun_rx] *)
Definition try_handle_stun_rx now (payload : bytes) (src_addr : SocketAddr) st log
    : result StunError bool * (StunProvider * list StunEffect) :=
  match stun_session st with
  | Some session =>
      let st := set_session None (stun_timeout st) st in
      match try_consume payload src_addr session with
      | Ok (Final candidate, _) => (Ok true, transition_to_has_endpoints_state now candidate st log)
      | Ok (Consumed, session) => (Ok true, (set_session (Some session) (stun_timeout st) st, log))
      | Ok (Skipped, session) => (Ok false, (set_session (Some session) (stun_timeout st) st, log))
      | Err e => (Err e, (st, log))
      end
  | None => (Ok false, (st, log))
  end.

(** [handle_ping_rx] and [handle_rx] *)
Definition set_pings_io (io : PingIo) st : StunProvider := set_subscriptions (stun_subscribed st) io st.

Definition stun_handle_ping_rx env (encrypted_buf : bytes) (addr : SocketAddr) st : result StunError unit * StunProvider :=
  match stun_sockets st with
  | Some _ =>
      let '(r, io) :=
        handle_rx_packet (env_time env) (env_nonce env) (env_handler env) encrypted_buf addr (get_wg_port st) Stun (stun_pings st) in
      (match r with Ok _ => Ok tt | Err e => Err (StunPingError e) end, set_pings_io io st)
  | None => (Err StunNotConfigured, st)
  end.

Definition stun_handle_rx now env (payload : bytes) (src_addr : SocketAddr) st log
    : result StunError unit * (StunProvider * list StunEffect) :=
  match try_handle_stun_rx now payload src_addr st log with
  | (Ok true, (st, log)) => (Ok tt, (st, log))
  | (Ok false, (st, log)) => let '(r, st) := stun_handle_ping_rx env payload src_addr st in (r, (st, log))
  | (Err e, (st, log)) => (Err e, (st, log))
  end.

(** [send_ping] *)
Definition stun_send_ping env (addr : SocketAddr) (session_id : Session) (public_key : PublicKey) st
    : result StunError unit * StunProvider :=
  match stun_sockets st with
  | Some _ =>
      let '(r, io) :=
        send_ping (env_time env) (env_rng env) (env_handler env) addr (get_wg_port st) session_id public_key (stun_pings st) in
      (match r with Ok _ => Ok tt | Err e => Err (StunPingError e) end, set_pings_io io st)
  | None => (Err StunNotConfigured, st)
  end.

(** ** Calls *)

(** The sockets that [configure] opens *)
Definition open_stun_sockets env (use_ipv6 : bool) : option StunSockets :=
  if env_ext env then Some (mkStunSockets (env_tun_v4 env) (use_ipv6 && env_tun_v6 env)) else None.

(** [configure] *)
Definition stun_configure now env (new_servers : list Server) (use_ipv6 : bool) st log : StunProvider * list StunEffect :=
  let ip_version_changed := negb (Bool.eqb (ipv6_is_enabled st) use_ipv6) in
  let st :=
    if bool_decide (stun_sockets st = None) || ip_version_changed
    then set_stun_sockets (open_stun_sockets env use_ipv6)
           (mkPingIo (mkChan true (chan_sent (udp_socket (stun_pings st)))) (pong_publisher (stun_pings st))) st
    else st in
  let st := set_proto (if use_ipv6 then ProtoIPv6 else ProtoIPv4) st in
  let new_servers := sort_stun_servers new_servers in
  let '(st, log) :=
    if servers_eq (stun_servers st) new_servers then (st, log)
    else
      let new_servers := filter (λ s, stun_plaintext_port s ≠ 0%Z) new_servers in
      (set_servers new_servers 0 st, if env_published env then log ++ [StunPeer (new_servers !! 0)] else log) in
  if decide (stun_state st = Paused) then (st, log)
  else
    let st := set_stun_backoff (reset_backoff (stun_backoff st)) st in
    try_transition_to_searching_for_server now env (transition_to_wait_for_wg now st) log.

(** [trigger_endpoint_candidates_discovery] *)
Definition trigger_endpoint_candidates_discovery now env (force : bool) st log : StunProvider * list StunEffect :=
  let st := if force && bool_decide (stun_state st = BackingOff) then transition_to_wait_for_wg now st else st in
  let '(st, log) :=
    if decide (stun_state st = WaitingForWg) then try_transition_to_searching_for_server now env st log else (st, log) in
  if decide (stun_state st = HasEndpoints) then
    match stun_session st with
    | None => (start_stun_session now env st log).2
    | Some _ => (st, log)
    end
  else (st, log).

(** [handle_endpoint_gone_notification] *)
Definition handle_endpoint_gone_notification st : StunProvider := set_session None (stun_timeout st) st.

(** [pause] and [unpause] *)
Definition stun_pause now st : StunProvider :=
  if is_battery_optimization_on st then set_stun_state Paused (now + STUN_TIMEOUT_PAUSED)%Z st else st.

Definition stun_unpause now env st log : StunProvider * list StunEffect :=
  if decide (stun_state st = Paused) then
    try_transition_to_searching_for_server now env
      (transition_to_wait_for_wg now (set_stun_backoff (reset_backoff (stun_backoff st)) st)) log
  else (st, log).

(** [reconnect] *)
Definition stun_reconnect now env st log : StunProvider * list StunEffect :=
  if decide (stun_state st = BackingOff ∨ stun_state st = Paused) then
    try_transition_to_searching_for_server now env
      (set_stun_backoff (reset_backoff (stun_backoff st)) (transition_to_wait_for_wg now st)) log
  else (st, log).

(** The timeout of [wait_with_update] *)
Definition stun_handle_timeout now env st log : outcome (StunProvider * list StunEffect) :=
  match stun_state st with
  | SearchingForServer | WaitingForWg => transition_to_backing_off_state_or_change_proto now env st log
  | BackingOff => Returns (try_transition_to_searching_for_server now env (transition_to_wait_for_wg now st) log)
  | HasEndpoints =>
      match stun_session st with
      | Some _ => transition_to_backing_off_state_or_change_proto now env (set_session None (stun_timeout st) st) log
      | None =>
          match start_stun_session now env st log with
          | (Ok _, r) => Returns r
          | (Err _, (st, log)) => transition_to_backing_off_state_or_change_proto now env st log
          end
      end
  | Paused => Returns (st, log)
  end.

(** ** The loop *)

Inductive StunInput :=
| StunRxExternal (payload : bytes) (src_addr : SocketAddr)
| StunRxTunnel (payload : bytes) (src_addr : SocketAddr)
| StunElapsed
| StunConfigure (servers : list Server) (use_ipv6 : bool)
| StunTrigger (force : bool)
| StunEndpointGone
| StunPing (addr : SocketAddr) (session_id : Session) (public_key : PublicKey)
| StunPause
| StunUnpause
| StunReconnect
| StunSubscribePong (publisher : Chan PongEvent)
| StunSubscribe.

(** The guards of [wait_with_update]: without sockets, servers or a socket in the
    tunnel, and while it is paused, the provider only serves calls. *)
Definition stun_active st : bool :=
  bool_decide (stun_sockets st ≠ None) && bool_decide (stun_servers st ≠ []) && bool_decide (stun_state st ≠ Paused) &&
  match get_socket st with Some _ => true | None => false end.

Definition stun_enabled now (i : StunInput) st : bool :=
  match i with
  | StunRxExternal _ _ | StunRxTunnel _ _ => stun_active st
  | StunElapsed => stun_active st && (stun_timeout st <=? now)%Z
  | _ => true
  end.

Definition stun_step now env (i : StunInput) st log : outcome (StunProvider * list StunEffect) :=
  match i with
  | StunRxExternal payload src => Returns (stun_handle_rx now env payload src st log).2
  | StunRxTunnel payload src => Returns (try_handle_stun_rx now payload src st log).2
  | StunElapsed => stun_handle_timeout now env st log
  | StunConfigure servers use_ipv6 => Returns (stun_configure now env servers use_ipv6 st log)
  | StunTrigger force => Returns (trigger_endpoint_candidates_discovery now env force st log)
  | StunEndpointGone => Returns (handle_endpoint_gone_notification st, log)
  | StunPing addr session_id public_key => Returns ((stun_send_ping env addr session_id public_key st).2, log)
  | StunPause => Returns (stun_pause now st, log)
  | StunUnpause => Returns (stun_unpause now env st log)
  | StunReconnect => Returns (stun_reconnect now env st log)
  | StunSubscribePong publisher =>
      Returns (set_pings_io (mkPingIo (udp_socket (stun_pings st)) (Some publisher)) st, log)
  | StunSubscribe => Returns (set_subscriptions true (stun_pings st) st, log)
  end.
End provider.
