(* ===== verification/StunProps.v ===== *)
(** * Theorems about the STUN endpoint provider *)

From S2P Require Import Prelude NetTypes WgTypes Crypto NetText Proto ProtoProps PingPong Backoff CrossPing DeviceTypes Derp Relay StarcastNat Stun.

Section provider.
Context `{StunCodec} `{IpNets} `{Messages} `{Ciphers} `{Backoff E}.
Implicit Types (st : StunProvider (E := E)) (log : list StunEffect) (now : Instant) (env : StunEnv).

(** ** Histories *)

(** The datagrams that a step reads *)
Definition received (i : StunInput) : list (bytes * SocketAddr) :=
  match i with StunRxExternal payload src | StunRxTunnel payload src => [(payload, src)] | _ => [] end.

(** Subscribers come before there are candidates. *)
Definition subscribes_early (i : StunInput) st : Prop :=
  match i with StunSubscribe => last_candidates st = [] | _ => True end.

Inductive stun_history : Instant → list (bytes * SocketAddr) → StunProvider (E := E) → list StunEffect → Prop :=
| Stun_start now backoff battery : stun_history now [] (stun_start now backoff battery) []
| Stun_step now rx st log now' env i st' log' :
    stun_history now rx st log → (now <= now')%Z → stun_enabled now' i st = true → subscribes_early i st →
    stun_step now' env i st log = Returns (st', log') → stun_history now' (rx ++ received i) st' log'.

(** ** Where candidates come from *)

(** Two requests that were sent for one session *)
Definition asked_for log (wg : SocketAddr) (tid : bytes) (udp : SocketAddr) (tid' : bytes) : Prop :=
  ∃ via l1 l2, via ≠ ViaExternal ∧ log = l1 ++ [StunSend via wg tid; StunSend ViaExternal udp tid'] ++ l2.

(** The answer to a request: an address, from where the request went, with its id *)
Definition answered (rx : list (bytes * SocketAddr)) (addr : SocketAddr) (tid : bytes) (a : SocketAddr) : Prop :=
  ∃ payload, (payload, addr) ∈ rx ∧ decode_response payload = Ok (a, tid).

Definition request_ok rx (addr : SocketAddr) (tid : bytes) (r : StunRequest) : Prop :=
  match r with Waiting addr' tid' => addr' = addr ∧ tid' = tid | StunAddress a => answered rx addr tid a end.

Definition session_ok rx log (s : StunSession) : Prop :=
  ∃ wg tid udp tid', asked_for log wg tid udp tid' ∧ request_ok rx wg tid (session_wg s) ∧ request_ok rx udp tid' (session_udp s).

Definition authentic rx log (c : EndpointCandidate) : Prop :=
  ∃ wg tid udp tid', asked_for log wg tid udp tid' ∧ answered rx wg tid (candidate_wg c) ∧ answered rx udp tid' (candidate_udp c).

(** More datagrams and effects keep all of it. *)
Lemma asked_for_app log wg tid udp tid' l : asked_for log wg tid udp tid' → asked_for (log ++ l) wg tid udp tid'.
Proof. intros (via & l1 & l2 & Hv & ->). exists via, l1, (l2 ++ l). split; [done|]. by rewrite <-!app_assoc. Qed.

Lemma answered_app rx addr tid a l : answered rx addr tid a → answered (rx ++ l) addr tid a.
Proof. intros (payload & Hin & Hd). exists payload. split; [apply elem_of_app; by left|done]. Qed.

Lemma request_ok_app rx addr tid r l : request_ok rx addr tid r → request_ok (rx ++ l) addr tid r.
Proof. destruct r; [done|]. apply answered_app. Qed.

Lemma session_ok_app rx log s l l' : session_ok rx log s → session_ok (rx ++ l) (log ++ l') s.
Proof.
  intros (wg & tid & udp & tid' & Ha & Hw & Hu). exists wg, tid, udp, tid'.
  auto using asked_for_app, request_ok_app.
Qed.

Lemma authentic_app rx log c l l' : authentic rx log c → authentic (rx ++ l) (log ++ l') c.
Proof.
  intros (wg & tid & udp & tid' & Ha & Hw & Hu). exists wg, tid, udp, tid'. auto using asked_for_app, answered_app.
Qed.

(** A request after a datagram *)
Lemma try_update_ok rx payload src addr tid r b r' : request_ok rx addr tid r → try_update payload src r = Ok (b, r') →
  request_ok (rx ++ [(payload, src)]) addr tid r'.
Proof.
  intros Hr Hu. destruct r as [addr' tid''|a]; cbn in Hu; [|injection Hu as <- <-; by apply answered_app].
  destruct Hr as [-> ->]. case_bool_decide as Ea; [by injection Hu as <- <-|].
  destruct (decode_response payload) as [[sa id]|] eqn:Ed; [|done]. case_bool_decide as Ei; [by injection Hu as <- <-|].
  injection Hu as <- <-. exists payload. subst. split; [|done]. apply elem_of_app. right. by left.
Qed.

Lemma try_consume_ok rx log payload src s res s' : session_ok rx log s → try_consume payload src s = Ok (res, s') →
  session_ok (rx ++ [(payload, src)]) log s' ∧
  ∀ c, res = Final c → authentic (rx ++ [(payload, src)]) log c.
Proof.
  intros (wg & tid & udp & tid' & Ha & Hw & Hu) Hc. unfold try_consume in Hc.
  destruct (try_update payload src (session_wg s)) as [[b r]|] eqn:Ew; [|done]. cbv beta iota in Hc.
  pose proof (try_update_ok _ _ _ _ _ _ _ _ Hw Ew) as Hw'.
  destruct (if b then Ok (true, session_udp s) else try_update payload src (session_udp s)) as [[b' r']|] eqn:Eu; [|done].
  assert (request_ok (rx ++ [(payload, src)]) udp tid' r') as Hu'.
  { destruct b; [injection Eu as <- <-; by apply request_ok_app|by eapply try_update_ok]. }
  assert (session_ok (rx ++ [(payload, src)]) log (mkStunSession r r')) as Hs by (exists wg, tid, udp, tid'; done).
  destruct b'; [|by injection Hc as <- <-]. destruct r as [|a], r' as [|a']; injection Hc as <- <-; (split; [done|]); try done.
  intros c [= <-]. exists wg, tid, udp, tid'. done.
Qed.

(** ** The announcements *)

Definition announcements log : list (list EndpointCandidate) :=
  omap (λ e, match e with StunCandidates l => Some l | _ => None end) log.
Definition announced log : list EndpointCandidate := default [] (last (announcements log)).

(** Each one differs from the one before. *)
Fixpoint changes (prev : list EndpointCandidate) (l : list (list EndpointCandidate)) : Prop :=
  match l with [] => True | x :: l => x ≠ prev ∧ changes x l end.

Lemma changes_snoc prev l x : changes prev l → x ≠ default prev (last l) → changes prev (l ++ [x]).
Proof.
  revert prev. induction l as [|y l IH]; intros prev Hl Hx; cbn in *; [done|]. destruct Hl as [Hy Hl]. split; [done|].
  apply IH; [done|]. destruct l as [|z l]; [done|].
  rewrite last_cons_cons in Hx. destruct (last (z :: l)) eqn:El; [done|]. by apply last_None in El.
Qed.

(** What every definition keeps: sessions, candidates and announcements have their
    sources, and a subscriber knows the candidates. *)
Record stun_ok rx log st : Prop := {
  ok_session s : stun_session st = Some s → session_ok rx log s;
  ok_last c : c ∈ last_candidates st → authentic rx log c;
  ok_log l c : StunCandidates l ∈ log → c ∈ l → authentic rx log c;
  ok_announced : if stun_subscribed st then announced log = last_candidates st else announcements log = [];
  ok_changes : changes [] (announcements log);
  ok_one : length (last_candidates st) ≤ 1
}.

(** A change of the rest of the state *)
Lemma stun_ok_same rx log st st' : stun_ok rx log st →
  (stun_session st' = stun_session st ∨ stun_session st' = None) → last_candidates st' = last_candidates st →
  stun_subscribed st' = stun_subscribed st → stun_ok rx log st'.
Proof.
  intros [Hs Hl Hg Ha Hc H1'] Hses Hlast Hsub. constructor; rewrite ?Hlast, ?Hsub; try done.
  intros s E'. apply Hs. destruct Hses as [<-|Hn]; congruence.
Qed.

Lemma stun_ok_rx rx log st l : stun_ok rx log st → stun_ok (rx ++ l) log st.
Proof.
  intros [Hs Hl Hg Ha Hc H1']. rewrite <-(app_nil_r log).
  constructor; rewrite ?app_nil_r; try done; rewrite <-(app_nil_r log).
  - intros s Es. by apply session_ok_app, Hs.
  - intros c Hin. by apply authentic_app, Hl.
  - intros l0 c Hin Hc'. rewrite app_nil_r in Hin. by eapply authentic_app, Hg.
Qed.

(** Effects that announce nothing *)
Lemma stun_ok_log rx log st l : stun_ok rx log st → announcements l = [] → stun_ok rx (log ++ l) st.
Proof.
  intros [Hs Hl Hg Ha Hc H1'] Hn. assert (announcements (log ++ l) = announcements log) as E'.
  { unfold announcements in *. by rewrite omap_app, Hn, app_nil_r. }
  constructor; unfold announced; rewrite ?E'; try done; rewrite <-(app_nil_r rx).
  - intros s Es. by apply session_ok_app, Hs.
  - intros c Hin. by apply authentic_app, Hl.
  - intros l0 c [Hin|Hin]%elem_of_app Hc'; [by eapply authentic_app, Hg|].
    assert (l0 ∈ announcements l) as Hx by (apply list_elem_of_omap; by exists (StunCandidates l0)).
    rewrite Hn in Hx. by apply not_elem_of_nil in Hx.
Qed.

Lemma announcements_snoc log e :
  announcements (log ++ [e]) = announcements log ++ match e with StunCandidates l => [l] | _ => [] end.
Proof. unfold announcements. rewrite omap_app. by destruct e. Qed.

Lemma announce_ok rx log st candidates : stun_ok rx log st → (∀ c, c ∈ candidates → authentic rx log c) →
  length candidates ≤ 1 → last_candidates st ≠ candidates →
  let r := announce candidates st log in stun_ok rx r.2 r.1.
Proof.
  intros Hok Hc Hl Hne. pose proof Hok as [Hs Hla Hg Ha Hch H1']. unfold announce. cbn [fst snd].
  destruct (stun_subscribed st) eqn:Es.
  - assert (∀ c, authentic rx log c → authentic rx (log ++ [StunCandidates candidates]) c) as Hmore.
    { intros c Hx. rewrite <-(app_nil_r rx). by apply authentic_app. }
    constructor; unfold announced; cbn [set_last_candidates stun_session last_candidates stun_subscribed];
      rewrite ?Es, ?announcements_snoc, ?last_snoc; cbn [default]; auto.
    + intros s Hss. rewrite <-(app_nil_r rx). by apply session_ok_app, Hs.
    + intros l c [Hin|Hin%list_elem_of_singleton]%elem_of_app Hcl; [eauto|]. injection Hin as ->. auto.
    + apply changes_snoc; [done|]. fold (announced log). by rewrite Ha.
  - constructor; cbn [set_last_candidates stun_session last_candidates stun_subscribed]; rewrite ?Es; auto.
Qed.

(** What starting a session leaves alone *)
Definition same_candidates st st' : Prop :=
  last_candidates st' = last_candidates st ∧ stun_subscribed st' = stun_subscribed st ∧ stun_servers st' = stun_servers st ∧
  stun_sockets st' = stun_sockets st ∧ current_server_index st' = current_server_index st ∧ current_proto st' = current_proto st ∧
  stun_backoff st' = stun_backoff st.

Lemma get_socket_tunnel st via : get_socket st = Some via → via ≠ ViaExternal.
Proof. unfold get_socket. intros Hv ->. repeat case_match; done. Qed.

Lemma session_start_ok rx env via wg udp log s log' : via ≠ ViaExternal →
  stun_session_start env via wg udp log = (s, log') →
  ∃ l, log' = log ++ l ∧ announcements l = [] ∧ (∀ s', s = Ok s' → session_ok rx log' s').
Proof.
  intros Hv Hs. unfold stun_session_start in Hs.
  repeat case_match; simplify_eq; first [by exists []; rewrite app_nil_r | idtac].
  - eexists [_; _]. rewrite <-app_assoc. split_and!; [done..|]. intros s' [= <-].
    eexists wg, _, udp, _. split; [|split; done]. exists via, log, []. by rewrite app_nil_r.
  - eexists [_]. done.
Qed.

Lemma start_session_ok rx now env st log : stun_ok rx log st →
  let r := (start_stun_session now env st log).2 in
  stun_ok rx r.2 r.1 ∧ same_candidates st r.1 ∧ stun_state r.1 = stun_state st.
Proof.
  intros Hok. unfold start_stun_session.
  destruct (stun_sockets st) as [sockets|] eqn:E1; [|done]. destruct (stun_session st) as [old|] eqn:E2; [done|].
  destruct (get_stun_endpoints env st) as [[wg udp]|] eqn:E3; [|done]. destruct (get_socket st) as [via|] eqn:E4; [|done].
  destruct (stun_session_start env via wg udp log) as [s log'] eqn:E5.
  destruct (session_start_ok rx env via wg udp log s log' (get_socket_tunnel st via E4) E5) as (l & -> & Hn & Hs).
  pose proof (stun_ok_log rx log st l Hok Hn) as Hok'. destruct s as [s|e]; cbn [fst snd]; [|done].
  split; [|done]. destruct Hok' as [Hs' Hla Hg Ha Hch H1']. constructor; cbn; auto. intros s' [= <-]. auto.
Qed.

Lemma try_searching_ok rx now env st log : stun_ok rx log st →
  let r := try_transition_to_searching_for_server now env st log in
  stun_ok rx r.2 r.1 ∧ same_candidates st r.1 ∧ (stun_state r.1 = stun_state st ∨ stun_state r.1 = SearchingForServer).
Proof.
  intros Hok. unfold try_transition_to_searching_for_server. case_match; [|by split_and!; [..|left]].
  destruct (start_session_ok rx now env (set_stun_state SearchingForServer (stun_timeout st) st) log) as (Hok' & Hsame & Hst).
  { apply (stun_ok_same rx log st); [done|by left|done..]. }
  split_and!; [done|exact Hsame|]. right. by rewrite Hst.
Qed.

(** What holds between the steps: backing off, the provider has neither a session
    nor a candidate, and with endpoints it has one candidate. *)
Record stun_inv rx log st : Prop := {
  inv_ok : stun_ok rx log st;
  inv_backing : stun_state st = BackingOff → stun_session st = None ∧ last_candidates st = [];
  inv_has : stun_state st = HasEndpoints → ∃ c, last_candidates st = [c]
}.

Lemma stun_inv_waiting rx log st : stun_ok rx log st →
  stun_state st = WaitingForWg ∨ stun_state st = SearchingForServer ∨ stun_state st = Paused → stun_inv rx log st.
Proof. intros Hok Hs. constructor; [done|intros E'; rewrite E' in Hs..]; naive_solver. Qed.

Lemma wait_and_search_inv rx now env st log : stun_ok rx log st →
  let r := try_transition_to_searching_for_server now env (transition_to_wait_for_wg now st) log in
  stun_inv rx r.2 r.1 ∧ (stun_state r.1 = WaitingForWg ∨ stun_state r.1 = SearchingForServer).
Proof.
  intros Hok r. destruct (try_searching_ok rx now env (transition_to_wait_for_wg now st) log) as (Hok' & _ & Hs).
  { by apply (stun_ok_same rx log st); [|left|..]. }
  fold r in Hok', Hs. assert (stun_state r.1 = WaitingForWg ∨ stun_state r.1 = SearchingForServer) as Hs' by naive_solver.
  split; [|done]. apply stun_inv_waiting; naive_solver.
Qed.

(** The candidates are withdrawn. *)
Lemma withdraw_ok rx log st : stun_ok rx log st →
  let r := if bool_decide (last_candidates st ≠ []) then announce [] st log else (st, log) in
  stun_ok rx r.2 (set_session None (stun_timeout r.1) r.1) ∧ last_candidates r.1 = [].
Proof.
  intros Hok. case_bool_decide as Hc.
  - assert (stun_ok rx (announce [] st log).2 (announce [] st log).1) as Hok'.
    { apply announce_ok; [done|intros c Hin; by apply not_elem_of_nil in Hin|simpl; lia|done]. }
    cbv zeta. split; [|done]. eapply stun_ok_same; [exact Hok'|by right|done..].
  - cbv zeta. cbn [fst snd]. split; [|done]. by apply (stun_ok_same rx log st); [|right|..].
Qed.

Lemma next_server_ok rx env st log : stun_ok rx log st →
  let r := (next_server env st log).2 in
  stun_ok rx r.2 r.1 ∧ stun_state r.1 = stun_state st ∧ last_candidates r.1 = last_candidates st ∧ stun_session r.1 = stun_session st.
Proof.
  intros Hok. unfold next_server. destruct (env_published env); cbn [fst snd]; (split; [|done]).
  - apply (stun_ok_same rx _ st); [by apply stun_ok_log|by left|done..].
  - by apply (stun_ok_same rx _ st); [|left|..].
Qed.

Lemma backing_off_inv rx now env st log st' log' : stun_ok rx log st →
  transition_to_backing_off_state_or_change_proto now env st log = Returns (st', log') →
  stun_inv rx log' st' ∧ (stun_state st' = BackingOff ∨ stun_state st' = WaitingForWg ∨ stun_state st' = SearchingForServer).
Proof.
  intros Hok Hr. unfold transition_to_backing_off_state_or_change_proto in Hr.
  destruct (withdraw_ok rx log st Hok) as [Hok1 Hl1]. set (r := if bool_decide (last_candidates st ≠ []) then _ else _) in *.
  destruct r as [st1 log1]. cbn [fst snd] in *. set (st2 := set_session None (stun_timeout st1) st1) in *.
  destruct (is_in_ipv6_mode st2).
  - destruct (wait_and_search_inv rx now env (set_proto ProtoIPv4 st2) log1) as [Hinv Hs].
    { by apply (stun_ok_same rx log1 st2); [|left|..]. }
    injection Hr as Hr. rewrite Hr in Hinv, Hs. split; [done|]. by right.
  - set (st3 := set_stun_state BackingOff _ _) in Hr.
    destruct (next_server_ok rx env st3 log1) as (Hok4 & Hs4 & Hl4 & Hn4); [by apply (stun_ok_same rx log1 st2); [|left|..]|].
    destruct (next_server env st3 log1) as [reset [st4 log4]]. cbn [fst snd] in *.
    assert (stun_inv rx log4 st4) as Hinv.
    { constructor; [done|intros _; by rewrite Hl4, Hn4|rewrite Hs4; done]. }
    destruct reset; [|injection Hr as <- <-; split; [done|by left]].
    destruct (next_backoff (stun_backoff st4)) as [b|]; [|done]. injection Hr as <- <-. split; [|by left].
    destruct Hinv as [Hok5 Hb Hh]. constructor; [by apply (stun_ok_same rx log4 st4); [|left|..]|exact Hb|exact Hh].
Qed.

Lemma has_endpoints_inv rx now c st log : stun_ok rx log st → authentic rx log c →
  let r := transition_to_has_endpoints_state now c st log in stun_inv rx r.2 r.1 ∧ stun_state r.1 = HasEndpoints.
Proof.
  intros Hok Hc. unfold transition_to_has_endpoints_state.
  set (r := if bool_decide (last_candidates st ≠ [c]) then _ else _).
  assert (stun_ok rx r.2 r.1 ∧ last_candidates r.1 = [c]) as [Hok1 Hl1].
  { unfold r. case_bool_decide as Hne; [|split; [done|done]].
    split; [|done]. apply announce_ok; [done|by intros c' ->%list_elem_of_singleton|simpl; lia|done]. }
  destruct r as [st1 log1]. cbn [fst snd] in *. split; [|done].
  constructor; [by apply (stun_ok_same rx log1 st1); [|left|..]|done|]. intros _. by exists c.
Qed.

(** ** The states *)

(** Which input leads from a state to which other state *)
Definition searches (s : StunState) : Prop := s = WaitingForWg ∨ s = SearchingForServer.

Definition stun_moves (i : StunInput) (s s' : StunState) : Prop :=
  s' = s ∨
  match i with
  | StunRxExternal _ _ | StunRxTunnel _ _ => s' = HasEndpoints ∧ s ≠ BackingOff ∧ s ≠ Paused
  | StunElapsed => s ≠ Paused ∧ (searches s' ∨ s' = BackingOff ∧ s ≠ BackingOff)
  | StunConfigure _ _ => s ≠ Paused ∧ searches s'
  | StunTrigger force => (s = WaitingForWg ∨ s = BackingOff ∧ force = true) ∧ searches s'
  | StunPause => s' = Paused
  | StunUnpause => s = Paused ∧ searches s'
  | StunReconnect => (s = BackingOff ∨ s = Paused) ∧ searches s'
  | StunEndpointGone | StunPing _ _ _ | StunSubscribePong _ | StunSubscribe => False
  end.

(** A state that keeps what the invariant is about *)
Lemma stun_inv_same rx log st st' : stun_inv rx log st →
  (stun_session st' = stun_session st ∨ stun_session st' = None) → last_candidates st' = last_candidates st →
  stun_subscribed st' = stun_subscribed st → stun_state st' = stun_state st → stun_inv rx log st'.
Proof.
  intros [Hok Hb Hh] Hses Hl Hsub Hst. constructor; [by apply (stun_ok_same rx log st)|..]; rewrite Hst, Hl; [|done].
  intros Es. destruct (Hb Es) as [Hn Hl']. split; [|done]. destruct Hses as [->|Hses]; done.
Qed.

Lemma stun_rx_inv rx now payload src st log : stun_inv rx log st → stun_state st ≠ Paused →
  let r := (try_handle_stun_rx now payload src st log).2 in
  stun_inv (rx ++ [(payload, src)]) r.2 r.1 ∧ stun_moves (StunRxTunnel payload src) (stun_state st) (stun_state r.1).
Proof.
  intros Hinv Hp. pose proof Hinv as [Hok Hb Hh]. unfold try_handle_stun_rx.
  assert (stun_inv (rx ++ [(payload, src)]) log st) as Hinv' by (constructor; [by apply stun_ok_rx|done..]).
  destruct (stun_session st) as [s|] eqn:Es; [|by split; [|left]].
  assert (stun_state st ≠ BackingOff) as Hnb by (intros E'; by destruct (Hb E')).
  assert (stun_ok (rx ++ [(payload, src)]) log (set_session None (stun_timeout st) st)) as Hok0.
  { apply (stun_ok_same _ _ st); [by apply stun_ok_rx|by right|done..]. }
  destruct (try_consume payload src s) as [[res s']|e] eqn:Ec.
  2:{ split; [|by left]. by apply (stun_inv_same _ _ st); [|right|..]. }
  destruct (try_consume_ok rx log payload src s res s' (ok_session _ _ _ Hok s Es) Ec) as [Hs' Hc].
  assert (stun_inv (rx ++ [(payload, src)]) log (set_session (Some s') (stun_timeout st) st)) as Hput.
  { constructor; [|done|exact Hh]. destruct Hok0. constructor; try done. by intros s0 [= <-]. }
  destruct res as [c| |]; [|by split; [|left]..].
  destruct (has_endpoints_inv _ now c _ log Hok0 (Hc c eq_refl)) as [H1' H2']. split; [done|]. by right.
Qed.

Lemma stun_handle_rx_inv rx now env payload src st log : stun_inv rx log st → stun_state st ≠ Paused →
  let r := (stun_handle_rx now env payload src st log).2 in
  stun_inv (rx ++ [(payload, src)]) r.2 r.1 ∧ stun_moves (StunRxTunnel payload src) (stun_state st) (stun_state r.1).
Proof.
  intros Hinv Hp. destruct (stun_rx_inv rx now payload src st log Hinv Hp) as [Hinv' Hm]. unfold stun_handle_rx.
  destruct (try_handle_stun_rx now payload src st log) as [[[]|e] [st' log']]; cbn [fst snd] in *; [done| |done].
  unfold stun_handle_ping_rx. destruct (stun_sockets st'); [|done].
  destruct (handle_rx_packet _ _ _ _ _ _ _ _) as [r io]. cbn [fst snd]. split; [|done].
  by apply (stun_inv_same _ _ st'); [|left|..].
Qed.

Lemma stun_timeout_inv rx now env st log st' log' : stun_inv rx log st →
  stun_handle_timeout now env st log = Returns (st', log') →
  stun_inv rx log' st' ∧ stun_moves StunElapsed (stun_state st) (stun_state st').
Proof.
  intros Hinv Hr. pose proof Hinv as [Hok Hb Hh]. unfold stun_handle_timeout in Hr.
  destruct (stun_state st) eqn:Est.
  - destruct (backing_off_inv rx now env st log st' log' Hok Hr) as [Hi Hs].
    split; [done|]. unfold stun_moves, searches. naive_solver.
  - destruct (backing_off_inv rx now env st log st' log' Hok Hr) as [Hi Hs].
    split; [done|]. unfold stun_moves, searches. naive_solver.
  - destruct (wait_and_search_inv rx now env st log Hok) as [Hi Hs]. injection Hr as Hr. rewrite Hr in Hi, Hs.
    split; [done|]. unfold stun_moves, searches. naive_solver.
  - destruct (stun_session st) as [s|] eqn:Es.
    + apply (backing_off_inv rx) in Hr as [Hi Hs]; [|by apply (stun_ok_same rx log st); [|right|..]].
      split; [done|]. unfold stun_moves, searches. naive_solver.
    + destruct (start_session_ok rx now env st log Hok) as (Hok' & Hsame & Hst).
      destruct (start_stun_session now env st log) as [[[]|e] [st1 log1]]; cbn [fst snd] in *.
      * injection Hr as <- <-. split; [|left; by rewrite Hst, Est]. constructor; [done|by rewrite Hst, Est|].
        intros _. destruct Hsame as (-> & _). auto.
      * apply (backing_off_inv rx) in Hr as [Hi Hs]; [|done]. split; [done|]. unfold stun_moves, searches. naive_solver.
  - injection Hr as <- <-. split; [done|by left].
Qed.

Lemma stun_configure_inv rx now env servers use_ipv6 st log : stun_inv rx log st →
  let r := stun_configure now env servers use_ipv6 st log in
  stun_inv rx r.2 r.1 ∧ stun_moves (StunConfigure servers use_ipv6) (stun_state st) (stun_state r.1).
Proof.
  intros Hinv. unfold stun_configure.
  set (st1 := set_proto _ (if bool_decide (stun_sockets st = None) || _ then _ else _)).
  assert (stun_inv rx log st1) as Hi1.
  { apply (stun_inv_same rx log st); [done|left|..]; unfold st1; by destruct (bool_decide _ || _). }
  assert (stun_state st1 = stun_state st) as Hs1 by (unfold st1; by destruct (bool_decide _ || _)).
  set (r := if servers_eq (stun_servers st1) _ then _ else _).
  assert (stun_inv rx r.2 r.1 ∧ stun_state r.1 = stun_state st) as [Hi2 Hs2].
  { unfold r. destruct (servers_eq _ _); [done|]. cbn [fst snd]. split; [|done].
    apply (stun_inv_same rx _ st1); [|by left|done..].
    destruct (env_published env); [|done]. destruct Hi1. constructor; [by apply stun_ok_log|done..]. }
  destruct r as [st2 log2]. cbn [fst snd] in *. destruct (decide (stun_state st2 = Paused)) as [Hp|Hp].
  { cbn [fst snd]. split; [done|by left]. }
  destruct (wait_and_search_inv rx now env (set_stun_backoff (reset_backoff (stun_backoff st2)) st2) log2) as [Hi Hs].
  { apply (stun_ok_same rx log2 st2); [by destruct Hi2|by left|done..]. }
  split; [done|]. right. split; [by rewrite <-Hs2|done].
Qed.

Lemma stun_trigger_inv rx now env force st log : stun_inv rx log st →
  let r := trigger_endpoint_candidates_discovery now env force st log in
  stun_inv rx r.2 r.1 ∧ stun_moves (StunTrigger force) (stun_state st) (stun_state r.1).
Proof.
  intros Hinv. pose proof Hinv as [Hok Hb Hh]. unfold trigger_endpoint_candidates_discovery.
  set (st1 := if force && _ then _ else st).
  assert (stun_ok rx log st1) as Hok1.
  { apply (stun_ok_same rx log st); [done|left|..]; unfold st1; by destruct (force && _). }
  destruct (decide (stun_state st1 = WaitingForWg)) as [Hw|Hw].
  - destruct (try_searching_ok rx now env st1 log Hok1) as (Hok2 & Hsame & Hs2).
    destruct (try_transition_to_searching_for_server now env st1 log) as [st2 log2]. cbn [fst snd] in *.
    assert (searches (stun_state st2)) as Hse by (unfold searches; rewrite Hw in Hs2; done).
    destruct (decide (stun_state st2 = HasEndpoints)) as [E'|]; [rewrite E' in Hse; by destruct Hse|].
    cbn [fst snd]. split; [apply stun_inv_waiting; [done|]; destruct Hse; auto|]. right. split; [|done].
    unfold st1 in Hw. destruct force; cbn in Hw; [|by left]. case_bool_decide; [by right|by left].
  - assert (st1 = st) as ->.
    { unfold st1 in *. destruct force; cbn in *; [|done]. case_bool_decide; [by destruct Hw|done]. }
    destruct (decide (stun_state st = HasEndpoints)) as [E'|]; [|by split; [|left]].
    destruct (stun_session st) eqn:Es; [by split; [|left]|].
    destruct (start_session_ok rx now env st log Hok) as (Hok' & (Hl & _) & Hst). split; [|by left].
    constructor; [done|rewrite Hst, E'; done|]. rewrite Hst, Hl. auto.
Qed.

Lemma stun_reset_inv rx now env st log b : stun_inv rx log st →
  let r := try_transition_to_searching_for_server now env (transition_to_wait_for_wg now (set_stun_backoff b st)) log in
  stun_inv rx r.2 r.1 ∧ searches (stun_state r.1).
Proof. intros Hinv. apply wait_and_search_inv. apply (stun_ok_same rx log st); [by destruct Hinv|by left|done..]. Qed.

Lemma stun_active_not_paused st : stun_active st = true → stun_state st ≠ Paused.
Proof. unfold stun_active. intros Ha. by repeat (apply andb_true_iff in Ha as [Ha ?]; try case_bool_decide). Qed.

Lemma stun_step_inv rx now env i st log st' log' : stun_inv rx log st → stun_enabled now i st = true → subscribes_early i st →
  stun_step now env i st log = Returns (st', log') →
  stun_inv (rx ++ received i) log' st' ∧ stun_moves i (stun_state st) (stun_state st').
Proof.
  intros Hinv Hen Hsub Hr.
  destruct i as [payload src|payload src| |servers v6|force| |addr sid pk| | | |publisher| ]; cbn [received];
    rewrite ?app_nil_r; cbn [stun_step stun_enabled] in Hr, Hen; try (injection Hr as Hr).
  - destruct (stun_handle_rx_inv rx now env payload src st log Hinv (stun_active_not_paused st Hen)) as [Hi Hm].
    by rewrite Hr in Hi, Hm.
  - destruct (stun_rx_inv rx now payload src st log Hinv (stun_active_not_paused st Hen)) as [Hi Hm].
    by rewrite Hr in Hi, Hm.
  - by apply (stun_timeout_inv rx now env st log).
  - destruct (stun_configure_inv rx now env servers v6 st log Hinv) as [Hi Hm]. by rewrite Hr in Hi, Hm.
  - destruct (stun_trigger_inv rx now env force st log Hinv) as [Hi Hm]. by rewrite Hr in Hi, Hm.
  - simplify_eq. split; [|by left]. by apply (stun_inv_same rx log' st); [|right|..].
  - simplify_eq. unfold stun_send_ping. destruct (stun_sockets st); [|by split; [|left]].
    destruct (send_ping _ _ _ _ _ _ _ _) as [r io]. split; [|by left]. by apply (stun_inv_same rx log' st); [|left|..].
  - simplify_eq. unfold stun_pause. destruct (is_battery_optimization_on st); [|by split; [|left]].
    split; [|by right]. apply stun_inv_waiting; [|by right; right].
    apply (stun_ok_same rx log' st); [by destruct Hinv|by left|done..].
  - unfold stun_unpause in Hr. destruct (decide (stun_state st = Paused)) as [Hp|]; [|by simplify_eq; split; [|left]].
    destruct (stun_reset_inv rx now env st log (reset_backoff (stun_backoff st)) Hinv) as [Hi Hm]. rewrite Hr in Hi, Hm.
    split; [done|]. by right.
  - unfold stun_reconnect in Hr. destruct (decide (stun_state st = BackingOff ∨ stun_state st = Paused)) as [Hp|]; [|by simplify_eq; split; [|left]].
    destruct (stun_reset_inv rx now env st log (reset_backoff (stun_backoff st)) Hinv) as [Hi Hm].
    change (try_transition_to_searching_for_server now env (transition_to_wait_for_wg now
      (set_stun_backoff (reset_backoff (stun_backoff st)) st)) log = (st', log')) in Hr. rewrite Hr in Hi, Hm.
    split; [done|]. by right.
  - simplify_eq. split; [|by left]. by apply (stun_inv_same rx log' st); [|left|..].
  - simplify_eq. split; [|by left]. destruct Hinv as [[Hs Hl Hg Ha Hc H1'] Hb Hh]. constructor; [|done..].
    constructor; cbn; auto. cbn in Hsub. unfold announced. destruct (stun_subscribed st); [done|]. by rewrite Ha, Hsub.
Qed.

Lemma stun_history_inv now rx st log : stun_history now rx st log → stun_inv rx log st.
Proof.
  induction 1 as [now backoff battery|now rx st log now' env i st' log' Hh IH Hle Hen Hsub Hr].
  - constructor; [|done..]. constructor; cbn; try done; try lia; intros *; by rewrite elem_of_nil.
  - by destruct (stun_step_inv rx now' env i st log st' log' IH Hen Hsub Hr).
Qed.

(** C12: Whatever happens, a candidate that the provider has, or has ever announced, was
    put together from two answers: two requests left together, one through the
    tunnel and one in plain text, and from the address that each one went to came a
    message with its transaction id and this half of the candidate. *)
Theorem stun_candidates_authentic now rx st log l c : stun_history now rx st log →
  StunCandidates l ∈ log ∨ l = last_candidates st → c ∈ l → authentic rx log c.
Proof.
  intros Hh Hl Hc. destruct (inv_ok _ _ _ (stun_history_inv now rx st log Hh)) as [_ Hlast Hlog _ _ _].
  destruct Hl as [Hl| ->]; [by eapply Hlog|by apply Hlast].
Qed.

(** C32: The candidates and the states agree: a subscriber that was there from the start
    knows the current candidates and is never told the same twice; backing off, the
    provider has no candidate and no session; with endpoints it has one candidate.
    And a step only takes the state along [stun_moves]. *)
Theorem stun_states now rx st log : stun_history now rx st log →
  (if stun_subscribed st then announced log = last_candidates st else announcements log = []) ∧
  changes [] (announcements log) ∧
  length (last_candidates st) ≤ 1 ∧
  (stun_state st = BackingOff → stun_session st = None ∧ last_candidates st = []) ∧
  (stun_state st = HasEndpoints → ∃ c, last_candidates st = [c]) ∧
  ∀ now' env i st' log', stun_enabled now' i st = true → subscribes_early i st →
    stun_step now' env i st log = Returns (st', log') → stun_moves i (stun_state st) (stun_state st').
Proof.
  intros Hh. pose proof (stun_history_inv now rx st log Hh) as Hinv. pose proof Hinv as [[_ _ _ Ha Hc H1'] Hb He].
  split_and!; [done..|]. intros now' env i st' log' Hen Hsub Hr.
  by destruct (stun_step_inv rx now' env i st log st' log' Hinv Hen Hsub Hr).
Qed.

(** ** The rotation of the servers *)

Definition same_place st st' : Prop :=
  stun_servers st' = stun_servers st ∧ stun_sockets st' = stun_sockets st ∧
  current_server_index st' = current_server_index st ∧ current_proto st' = current_proto st.

(** The index is one of the list, and backing off the provider is to start with
    IPv6 where it has it. *)
Definition rotation_ok st : Prop :=
  (current_server_index st = 0 ∨ current_server_index st < length (stun_servers st)) ∧
  (stun_state st = BackingOff → is_in_ipv6_mode st = ipv6_is_enabled st).

Lemma rotation_same st st' : rotation_ok st → same_place st st' →
  (stun_state st' = BackingOff → stun_state st = BackingOff) → rotation_ok st'.
Proof.
  intros [Hi Hb] (Hs & Hk & Hx & Hp) Hback. unfold rotation_ok, is_in_ipv6_mode, ipv6_is_enabled in *.
  rewrite Hs, Hk, Hx, Hp. auto.
Qed.

Lemma start_session_place now env st log : let r := (start_stun_session now env st log).2 in
  same_place st r.1 ∧ stun_state r.1 = stun_state st ∧ stun_backoff r.1 = stun_backoff st.
Proof. unfold start_stun_session. by repeat (case_match; cbn [fst snd]). Qed.

Lemma try_searching_place now env st log : let r := try_transition_to_searching_for_server now env st log in
  same_place st r.1 ∧ (stun_state r.1 = stun_state st ∨ stun_state r.1 = SearchingForServer) ∧ stun_backoff r.1 = stun_backoff st.
Proof.
  unfold try_transition_to_searching_for_server. case_match; [|by split_and!; [..|left|]].
  destruct (start_session_place now env (set_stun_state SearchingForServer (stun_timeout st) st) log) as (Hp & Hs & Hb).
  split_and!; [apply Hp..|right; by rewrite Hs|by rewrite Hb].
Qed.

Lemma wait_and_search_place now env st log :
  let r := try_transition_to_searching_for_server now env (transition_to_wait_for_wg now st) log in
  same_place st r.1 ∧ searches (stun_state r.1) ∧ stun_backoff r.1 = stun_backoff st.
Proof.
  destruct (try_searching_place now env (transition_to_wait_for_wg now st) log) as (Hp & Hs & Hb).
  split_and!; [apply Hp..| |by rewrite Hb]. unfold searches. by destruct Hs as [->|Hs]; [left|right].
Qed.

Lemma wait_and_search_rotation now env st log : rotation_ok st →
  rotation_ok (try_transition_to_searching_for_server now env (transition_to_wait_for_wg now st) log).1.
Proof.
  intros Hok. destruct (wait_and_search_place now env st log) as (Hp & Hs & _). eapply rotation_same; [done..|].
  intros E'. by destruct Hs as [Hs|Hs]; rewrite Hs in E'.
Qed.

(** The servers that were published for WireGuard *)
Definition published_peers log : list (option Server) :=
  omap (λ e, match e with StunPeer s => Some s | _ => None end) log.

Lemma published_app log l : published_peers (log ++ l) = published_peers log ++ published_peers l.
Proof. apply omap_app. Qed.

Lemma wait_and_search_peers now env st log :
  published_peers (try_transition_to_searching_for_server now env (transition_to_wait_for_wg now st) log).2 = published_peers log.
Proof.
  unfold try_transition_to_searching_for_server, start_stun_session, stun_session_start.
  repeat (case_match; simplify_eq; cbn [fst snd]); by rewrite ?published_app, ?app_nil_r.
Qed.

(** The withdrawal of the candidates *)
Definition withdrawn st log : StunProvider (E := E) * list StunEffect :=
  if bool_decide (last_candidates st ≠ []) then announce [] st log else (st, log).

Lemma withdrawn_place st log : let r := withdrawn st log in
  same_place st r.1 ∧ stun_backoff r.1 = stun_backoff st ∧ published_peers r.2 = published_peers log.
Proof.
  unfold withdrawn, announce. case_bool_decide; [|done]. cbn [fst snd]. split_and!; [done..|].
  destruct (stun_subscribed st); [|done]. by rewrite published_app, app_nil_r.
Qed.

(** In the mode of IPv6 the search goes on with IPv4. *)
Lemma backing_off_v6 now env st log : is_in_ipv6_mode st = true → ∃ st' log',
  transition_to_backing_off_state_or_change_proto now env st log = Returns (st', log') ∧
  same_place (set_proto ProtoIPv4 st) st' ∧ searches (stun_state st') ∧ stun_backoff st' = stun_backoff st ∧
  published_peers log' = published_peers log.
Proof.
  intros Hm. unfold transition_to_backing_off_state_or_change_proto. fold (withdrawn st log).
  destruct (withdrawn_place st log) as ((Hs & Hk & Hi & Hp) & Hb & Hl).
  destruct (withdrawn st log) as [st1 log1]. cbn [fst snd] in *.
  replace (is_in_ipv6_mode _) with true by (rewrite <-Hm; unfold is_in_ipv6_mode, ipv6_is_enabled; cbn; by rewrite Hk, Hp).
  set (st2 := set_proto ProtoIPv4 _).
  destruct (wait_and_search_place now env st2 log1) as ((Hs' & Hk' & Hi' & Hp') & Hw & Hb').
  pose proof (wait_and_search_peers now env st2 log1) as Hl'.
  destruct (try_transition_to_searching_for_server now env _ log1) as [st3 log3]. cbn [fst snd] in *.
  exists st3, log3. unfold same_place. rewrite Hs', Hk', Hi', Hp', Hb', Hl'. cbn. by rewrite Hs, Hk, Hi, Hb, Hl.
Qed.

Definition next_index st : nat := S (current_server_index st) `mod` length (stun_servers st).

(** In the mode of IPv4 the provider backs off and goes on to the next server. *)
Lemma backing_off_v4 now env st log : is_in_ipv6_mode st = false → env_published env = true → stun_servers st ≠ [] →
  match transition_to_backing_off_state_or_change_proto now env st log with
  | Returns (st', log') =>
      stun_state st' = BackingOff ∧ stun_servers st' = stun_servers st ∧ stun_sockets st' = stun_sockets st ∧
      current_server_index st' = next_index st ∧ is_in_ipv6_mode st' = ipv6_is_enabled st' ∧
      (stun_backoff st' = stun_backoff st ∨ next_backoff (stun_backoff st) = Returns (stun_backoff st')) ∧
      published_peers log' = published_peers log ++ [stun_servers st !! next_index st]
  | Panics => next_backoff (stun_backoff st) = Panics
  end.
Proof.
  intros Hm He Hne. unfold transition_to_backing_off_state_or_change_proto. fold (withdrawn st log).
  destruct (withdrawn_place st log) as ((Hs & Hk & Hi & Hp) & Hb & Hl).
  destruct (withdrawn st log) as [st1 log1]. cbn [fst snd] in *.
  replace (is_in_ipv6_mode _) with false by (rewrite <-Hm; unfold is_in_ipv6_mode, ipv6_is_enabled; cbn; by rewrite Hk, Hp).
  unfold next_server. cbn [stun_servers current_server_index set_stun_state set_proto set_session]. rewrite He.
  assert (match stun_servers st1 with [] => 0 | _ :: _ => S (current_server_index st1) `mod` length (stun_servers st1) end =
          next_index st) as -> by (unfold next_index; rewrite Hs, Hi; by destruct (stun_servers st)).
  assert (∀ b : bool, is_in_ipv6_mode (set_proto (if b then ProtoIPv6 else ProtoIPv4) st1) = b && ipv6_is_enabled st1) as Hmode.
  { intros b. unfold is_in_ipv6_mode, ipv6_is_enabled. cbn. by destruct b, (stun_sockets st1) as [[? []]|]. }
  cbn [stun_backoff set_servers set_stun_state set_proto set_session]. rewrite Hb.
  destruct (bool_decide _); [destruct (next_backoff (stun_backoff st)) as [b|] eqn:Eb; [|done]|];
    cbn [stun_state stun_servers stun_sockets current_server_index set_stun_backoff set_servers set_stun_state set_proto set_session stun_backoff];
    rewrite published_app, Hl, Hs; (split_and!; [done..| |auto|done]);
    specialize (Hmode (ipv6_is_enabled st1)); rewrite andb_diag in Hmode; exact Hmode.
Qed.

(** Every step keeps the rotation in order. *)
Lemma next_index_lt st : stun_servers st ≠ [] → next_index st < length (stun_servers st).
Proof. intros Hne. apply Nat.mod_upper_bound. by destruct (stun_servers st). Qed.

Lemma backing_off_rotation now env st log st' log' : rotation_ok st →
  transition_to_backing_off_state_or_change_proto now env st log = Returns (st', log') → rotation_ok st'.
Proof.
  intros Hok Hr. destruct (is_in_ipv6_mode st) eqn:Hm.
  - destruct (backing_off_v6 now env st log Hm) as (st2 & log2 & E2 & Hp & Hs & _). rewrite Hr in E2. injection E2 as <- <-.
    destruct Hok as [Hi _], Hp as (Hps & _ & Hpi & _). split; [rewrite Hpi, Hps; exact Hi|].
    intros E'. by destruct Hs as [Hs|Hs]; rewrite Hs in E'.
  - unfold transition_to_backing_off_state_or_change_proto in Hr. fold (withdrawn st log) in Hr.
    destruct (withdrawn_place st log) as ((Hs & Hk & Hi & Hp) & _ & _).
    destruct (withdrawn st log) as [st1 log1]. cbn [fst snd] in *.
    replace (is_in_ipv6_mode _) with false in Hr by (rewrite <-Hm; unfold is_in_ipv6_mode, ipv6_is_enabled; cbn; by rewrite Hk, Hp).
    unfold next_server in Hr. cbn [stun_servers current_server_index set_stun_state set_proto set_session] in Hr.
    set (i := match stun_servers st1 with [] => 0 | _ => _ end) in Hr.
    assert (i = 0 ∨ i < length (stun_servers st)) as Hb1.
    { unfold i. rewrite Hs. destruct (stun_servers st) eqn:El; [by left|right]. rewrite <-El. apply Nat.mod_upper_bound. by rewrite El. }
    destruct Hok as [Hb2 _]. rewrite <-Hi in Hb2. rewrite <-Hs in Hb1, Hb2.
    assert (∀ st2, (current_server_index st2 = 0 ∨ current_server_index st2 < length (stun_servers st2)) →
      stun_sockets st2 = stun_sockets st1 → current_proto st2 = (if ipv6_is_enabled st1 then ProtoIPv6 else ProtoIPv4) →
      rotation_ok st2) as Hfin.
    { intros st2 Hj Hk2 Hp2. split; [exact Hj|intros _]. unfold is_in_ipv6_mode, ipv6_is_enabled in *. rewrite Hk2, Hp2.
      by destruct (stun_sockets st1) as [[? []]|]. }
    destruct (env_published env); cbv zeta beta iota in Hr; destruct (bool_decide _);
      try (destruct (next_backoff _) as [b|]; [|done]); injection Hr as <- _; by apply Hfin.
Qed.

Lemma stun_rx_rotation now payload src st log : rotation_ok st → rotation_ok (try_handle_stun_rx now payload src st log).2.1.
Proof.
  intros Hok. unfold try_handle_stun_rx. destruct (stun_session st) as [s|]; [|done].
  destruct (try_consume payload src s) as [[[c| |] s']|e]; [|by apply (rotation_same st)..].
  unfold transition_to_has_endpoints_state, announce. case_bool_decide; by apply (rotation_same st).
Qed.

Lemma stun_configure_rotation now env servers use_ipv6 st log : rotation_ok st →
  rotation_ok (stun_configure now env servers use_ipv6 st log).1.
Proof.
  intros Hok. unfold stun_configure. set (st1 := set_proto _ _).
  assert ((current_server_index st1 = 0 ∨ current_server_index st1 < length (stun_servers st1)) ∧ stun_state st1 = stun_state st) as [Hi1 Hs1].
  { destruct Hok as [Hi _]. unfold st1. by destruct (bool_decide _ || _). }
  set (r := if servers_eq (stun_servers st1) _ then _ else _).
  assert (current_server_index r.1 = 0 ∨ current_server_index r.1 < length (stun_servers r.1)) as Hi2.
  { unfold r. destruct (servers_eq _ _); [done|by left]. }
  clearbody r. destruct r as [st2 log2]. cbn [fst snd] in *.
  case_decide as Hp; [split; [exact Hi2|cbn [fst]; by rewrite Hp]|].
  destruct (wait_and_search_place now env (set_stun_backoff (reset_backoff (stun_backoff st2)) st2) log2) as ((Hps & _ & Hpi & _) & Hs & _).
  split; [rewrite Hpi, Hps; exact Hi2|]. intros E'. by destruct Hs as [Hs|Hs]; rewrite Hs in E'.
Qed.

Lemma stun_trigger_rotation now env force st log : rotation_ok st →
  rotation_ok (trigger_endpoint_candidates_discovery now env force st log).1.
Proof.
  intros Hok. unfold trigger_endpoint_candidates_discovery. set (st1 := if force && _ then _ else st).
  assert (rotation_ok st1) as Hok1 by (unfold st1; destruct (force && _); [by apply (rotation_same st)|done]).
  set (r := if decide (stun_state st1 = WaitingForWg) then _ else _).
  assert (rotation_ok r.1) as Hok2.
  { unfold r. case_decide as Hw; [|done]. destruct (try_searching_place now env st1 log) as (Hp & Hs & _).
    apply (rotation_same st1); [done..|]. rewrite Hw in Hs. intros E'. by destruct Hs as [Hs|Hs]; rewrite Hs in E'. }
  clearbody r. destruct r as [st2 log2]. cbn [fst snd] in *. case_decide as He; [|done]. destruct (stun_session st2); [done|].
  destruct (start_session_place now env st2 log2) as (Hp & Hs & _). apply (rotation_same st2); [done..|]. by rewrite Hs.
Qed.

Lemma stun_step_rotation now env i st log st' log' : rotation_ok st →
  stun_step now env i st log = Returns (st', log') → rotation_ok st'.
Proof.
  intros Hok Hr. destruct i as [payload src|payload src| |servers v6|force| |addr sid pk| | | |publisher| ];
    cbn [stun_step] in Hr; try (injection Hr as Hr).
  - pose proof (stun_rx_rotation now payload src st log Hok) as Hw. unfold stun_handle_rx in Hr.
    destruct (try_handle_stun_rx now payload src st log) as [[[]|e] [st1 log1]]; cbn [fst snd] in *; [by simplify_eq| |by simplify_eq].
    unfold stun_handle_ping_rx in Hr. destruct (stun_sockets st1); [|cbn [fst snd] in Hr; by simplify_eq].
    destruct (handle_rx_packet _ _ _ _ _ _ _ _) as [r io]. cbn [fst snd] in Hr. simplify_eq. by apply (rotation_same st1).
  - pose proof (stun_rx_rotation now payload src st log Hok) as Hw. by rewrite Hr in Hw.
  - unfold stun_handle_timeout in Hr. destruct (stun_state st) eqn:Es; [by eapply backing_off_rotation..| | |by simplify_eq].
    + injection Hr as Hr. pose proof (wait_and_search_rotation now env st log Hok) as Hw. by rewrite Hr in Hw.
    + destruct (stun_session st); [eapply backing_off_rotation; [|exact Hr]; by apply (rotation_same st)|].
      destruct (start_session_place now env st log) as (Hp & Hs & _).
      assert (rotation_ok (start_stun_session now env st log).2.1) as Hw by (apply (rotation_same st); [done..|by rewrite Hs]).
      destruct (start_stun_session now env st log) as [[]  [st1 log1]]; [by injection Hr as <- <-|by eapply backing_off_rotation].
  - pose proof (stun_configure_rotation now env servers v6 st log Hok) as Hw. by rewrite Hr in Hw.
  - pose proof (stun_trigger_rotation now env force st log Hok) as Hw. by rewrite Hr in Hw.
  - by simplify_eq; apply (rotation_same st).
  - simplify_eq. unfold stun_send_ping. destruct (stun_sockets st); [|done]. destruct (send_ping _ _ _ _ _ _ _ _). by apply (rotation_same st).
  - simplify_eq. unfold stun_pause. destruct (is_battery_optimization_on st); [|done]. by apply (rotation_same st).
  - unfold stun_unpause in Hr. case_decide; [|by simplify_eq].
    assert (rotation_ok (set_stun_backoff (reset_backoff (stun_backoff st)) st)) as Hok' by by apply (rotation_same st).
    pose proof (wait_and_search_rotation now env _ log Hok') as Hw. by rewrite Hr in Hw.
  - unfold stun_reconnect in Hr. case_decide; [|by simplify_eq].
    assert (rotation_ok (set_stun_backoff (reset_backoff (stun_backoff st)) st)) as Hok' by by apply (rotation_same st).
    pose proof (wait_and_search_rotation now env _ log Hok') as Hw.
    change (try_transition_to_searching_for_server now env (transition_to_wait_for_wg now
      (set_stun_backoff (reset_backoff (stun_backoff st)) st)) log = (st', log')) in Hr. by rewrite Hr in Hw.
  - by simplify_eq; apply (rotation_same st).
  - by simplify_eq; apply (rotation_same st).
Qed.

Lemma stun_history_rotation now rx st log : stun_history now rx st log → rotation_ok st.
Proof.
  induction 1 as [now backoff battery|now rx st log now' env i st' log' Hh IH Hle Hen Hsub Hr].
  - split; [by left|done].
  - by eapply stun_step_rotation.
Qed.

(** A period in which no server answers: only timeouts *)
Fixpoint stun_timeouts (l : list (Instant * StunEnv)) st log : outcome (StunProvider (E := E) * list StunEffect) :=
  match l with
  | [] => Returns (st, log)
  | (now, env) :: l =>
      match stun_handle_timeout now env st log with
      | Returns (st, log) => stun_timeouts l st log
      | Panics => Panics
      end
  end.

Lemma stun_timeouts_app l l' st log st' log' : stun_timeouts l st log = Returns (st', log') →
  stun_timeouts (l ++ l') st log = stun_timeouts l' st' log'.
Proof.
  revert st log. induction l as [|[now env] l IH]; intros st log Hr; cbn in *; [by simplify_eq|].
  destruct (stun_handle_timeout now env st log) as [[st1 log1]|]; [|done]. by apply IH.
Qed.

(** A round of timeouts: out of the backing off, with IPv6 where there is, and IPv4 *)
Definition round_length st : nat := if ipv6_is_enabled st then 3 else 2.

Section rounds.
Variable P : E → Prop.
Hypothesis Hnext : ∀ b, P b → ∃ b', next_backoff b = Returns b' ∧ P b'.

Record at_server (servers : list Server) (sockets : option StunSockets) (i : nat) (peers : list (option Server)) st log : Prop := {
  at_servers : stun_servers st = servers;
  at_sockets : stun_sockets st = sockets;
  at_index : current_server_index st = i;
  at_peers : published_peers log = peers;
  at_backoff : P (stun_backoff st)
}.

Lemma timeout_backing servers sockets i peers now env st log : at_server servers sockets i peers st log →
  stun_state st = BackingOff → ∃ st' log', stun_handle_timeout now env st log = Returns (st', log') ∧
    at_server servers sockets i peers st' log' ∧ searches (stun_state st') ∧ is_in_ipv6_mode st' = is_in_ipv6_mode st.
Proof.
  intros [Hs Hk Hi Hl Hb] Est. unfold stun_handle_timeout. rewrite Est.
  destruct (wait_and_search_place now env st log) as ((Hs' & Hk' & Hi' & Hp') & Hw & Hb').
  pose proof (wait_and_search_peers now env st log) as Hl'.
  destruct (try_transition_to_searching_for_server _ _ _ _) as [st' log']. cbn [fst snd] in *.
  exists st', log'. split; [done|]. split; [constructor; congruence|]. split; [done|].
  unfold is_in_ipv6_mode, ipv6_is_enabled. by rewrite Hk', Hp'.
Qed.

Lemma timeout_v6 servers sockets i peers now env st log : at_server servers sockets i peers st log →
  searches (stun_state st) → is_in_ipv6_mode st = true → ∃ st' log', stun_handle_timeout now env st log = Returns (st', log') ∧
    at_server servers sockets i peers st' log' ∧ searches (stun_state st') ∧ is_in_ipv6_mode st' = false.
Proof.
  intros [Hs Hk Hi Hl Hb] Est Hm. destruct (backing_off_v6 now env st log Hm) as (st' & log' & Hr & (Hs' & Hk' & Hi' & Hp') & Hw & Hb' & Hl').
  exists st', log'. split; [unfold stun_handle_timeout; by destruct Est as [->| ->]|].
  split; [constructor; [rewrite Hs'|rewrite Hk'|rewrite Hi'| |rewrite Hb']; try done; congruence|]. split; [done|].
  unfold is_in_ipv6_mode. rewrite Hp'. cbn. by rewrite andb_false_r.
Qed.

Lemma timeout_v4 servers sockets i peers now env st log : at_server servers sockets i peers st log → servers ≠ [] →
  searches (stun_state st) → is_in_ipv6_mode st = false → env_published env = true →
  let j := S i `mod` length servers in
  ∃ st' log', stun_handle_timeout now env st log = Returns (st', log') ∧
    at_server servers sockets j (peers ++ [servers !! j]) st' log' ∧ stun_state st' = BackingOff ∧
    is_in_ipv6_mode st' = ipv6_is_enabled st'.
Proof.
  intros [<- <- <- <- Hb] Hne Est Hm He. pose proof (backing_off_v4 now env st log Hm He Hne) as Hr.
  assert (stun_handle_timeout now env st log = transition_to_backing_off_state_or_change_proto now env st log) as ->
    by (unfold stun_handle_timeout; by destruct Est as [->| ->]).
  destruct (Hnext _ Hb) as (b' & Hn & Hb').
  destruct (transition_to_backing_off_state_or_change_proto now env st log) as [[st' log']|]; [|congruence].
  destruct Hr as (Hst & Hs & Hk & Hi & Hmode & Hbo & Hl). exists st', log'. split; [done|]. split; [|done].
  constructor; [done..|]. destruct Hbo as [->|Hbo]; [done|]. rewrite Hn in Hbo. by injection Hbo as <-.
Qed.

Lemma stun_round servers sockets i peers st log l : at_server servers sockets i peers st log → servers ≠ [] →
  stun_state st = BackingOff → is_in_ipv6_mode st = ipv6_is_enabled st → length l = round_length st →
  Forall (λ p, env_published p.2 = true) l →
  let j := S i `mod` length servers in
  ∃ st' log', stun_timeouts l st log = Returns (st', log') ∧
    at_server servers sockets j (peers ++ [servers !! j]) st' log' ∧ stun_state st' = BackingOff ∧
    is_in_ipv6_mode st' = ipv6_is_enabled st'.
Proof.
  intros Hat Hne Hst Hm Hl Hpub. unfold round_length in Hl.
  destruct l as [|[t1 e1] [|[t2 e2] l]]; [by destruct (ipv6_is_enabled st)..|].
  destruct (timeout_backing servers sockets i peers t1 e1 st log Hat Hst) as (st1 & log1 & Hr1 & Hat1 & Hs1 & Hm1).
  cbn [stun_timeouts]. rewrite Hr1. apply Forall_cons in Hpub as [_ Hpub]. apply Forall_cons in Hpub as [He2 Hpub].
  destruct (ipv6_is_enabled st) eqn:E6; rewrite Hm in Hm1.
  - destruct l as [|[t3 e3] [|]]; [done| |done]. apply Forall_cons in Hpub as [He3 _].
    destruct (timeout_v6 servers sockets i peers t2 e2 st1 log1 Hat1 Hs1 Hm1) as (st2 & log2 & Hr2 & Hat2 & Hs2 & Hm2). rewrite Hr2.
    destruct (timeout_v4 servers sockets i peers t3 e3 st2 log2 Hat2 Hne Hs2 Hm2 He3) as (st3 & log3 & Hr3 & Hat3 & Hs3 & Hm3).
    cbn [stun_timeouts]. rewrite Hr3. by exists st3, log3.
  - destruct l; [|done].
    destruct (timeout_v4 servers sockets i peers t2 e2 st1 log1 Hat1 Hne Hs1 Hm1 He2) as (st3 & log3 & Hr3 & Hat3 & Hs3 & Hm3).
    cbn [stun_timeouts]. rewrite Hr3. by exists st3, log3.
Qed.

Lemma stun_rounds k servers sockets i peers st log l : at_server servers sockets i peers st log → servers ≠ [] →
  i < length servers → stun_state st = BackingOff → is_in_ipv6_mode st = ipv6_is_enabled st →
  length l = k * round_length st → Forall (λ p, env_published p.2 = true) l →
  ∃ st' log', stun_timeouts l st log = Returns (st', log') ∧
    at_server servers sockets ((i + k) `mod` length servers)
      (peers ++ map (λ j, servers !! ((i + j) `mod` length servers)) (seq 1 k)) st' log' ∧ stun_state st' = BackingOff.
Proof.
  revert i peers st log l. induction k as [|k IH]; intros i peers st log l Hat Hne Hi Hst Hm Hl Hpub.
  { apply nil_length_inv in Hl as ->. exists st, log. cbn. by rewrite Nat.add_0_r, Nat.mod_small, app_nil_r. }
  rewrite <-(take_drop (round_length st) l) in Hpub |- *. apply Forall_app in Hpub as [Hp1 Hp2].
  destruct (stun_round servers sockets i peers st log (take (round_length st) l) Hat Hne Hst Hm) as (st1 & log1 & Hr & Hat1 & Hst1 & Hm1);
    [rewrite length_take; lia|done|].
  assert (round_length st1 = round_length st) as Hrl.
  { unfold round_length, ipv6_is_enabled. by rewrite (at_sockets _ _ _ _ _ _ Hat1), (at_sockets _ _ _ _ _ _ Hat). }
  destruct (IH _ _ st1 log1 (drop (round_length st) l) Hat1 Hne) as (st' & log' & Hr' & Hat' & Hst'); try done.
  { apply Nat.mod_upper_bound. lia. }
  { rewrite length_drop, Hrl. lia. }
  exists st', log'. rewrite (stun_timeouts_app _ _ _ _ _ _ Hr). split; [done|]. split; [|done].
  assert (∀ j, (S i `mod` length servers + j) `mod` length servers = (i + S j) `mod` length servers) as Hmod.
  { intros j. rewrite Nat.Div0.add_mod_idemp_l. f_equal. lia. }
  rewrite Hmod, <-app_assoc in Hat'. revert Hat'. cbn [seq map app]. rewrite Nat.add_1_r, <-(seq_shift _ 1), map_map.
  by erewrite (map_ext _ (λ j, servers !! ((i + S j) `mod` length servers))); [|intros j; cbn; by rewrite Hmod].
Qed.
End rounds.

(** C30: As long as no server answers, the provider asks one after the other: [k] rounds
    of timeouts (two, or three with IPv6, which is tried before IPv4) take it [k]
    servers further, around the list, and each server is published for WireGuard
    when it is its turn.  The only thing this asks of the outside is that the
    publishing goes through and that the backoff does not panic. *)
Theorem stun_rotates (P : E → Prop) now rx st log k l :
  (∀ b, P b → ∃ b', next_backoff b = Returns b' ∧ P b') →
  stun_history now rx st log → stun_state st = BackingOff → stun_servers st ≠ [] → P (stun_backoff st) →
  length l = k * round_length st → Forall (λ p, env_published p.2 = true) l →
  let n := length (stun_servers st) in let i := current_server_index st in
  ∃ st' log', stun_timeouts l st log = Returns (st', log') ∧ stun_state st' = BackingOff ∧
    stun_servers st' = stun_servers st ∧ current_server_index st' = (i + k) `mod` n ∧
    published_peers log' = published_peers log ++ map (λ j, stun_servers st !! ((i + j) `mod` n)) (seq 1 k).
Proof.
  intros Hnext Hh Hst Hne Hb Hl Hpub n i. destruct (stun_history_rotation now rx st log Hh) as [Hi Hm].
  assert (i < n) as Hi' by (unfold i, n; destruct (stun_servers st); cbn in *; [done|lia]).
  destruct (stun_rounds P Hnext k (stun_servers st) (stun_sockets st) i (published_peers log) st log l)
    as (st' & log' & Hr & Hat & Hst'); try done; [by apply Hm|].
  exists st', log'. destruct Hat. done.
Qed.

(** ** A server that answers *)

(** WireGuard knows the server: what the two queries of a step then say *)
Definition knows_server env st (server : Server) (wg_net : IpNet) (e : SocketAddr) : Prop :=
  stun_servers st !! current_server_index st = Some server ∧
  (∃ interface, env_ready env = Some interface ∧ is_Some (peers interface !! server_public_key server)) ∧
  ∃ interface peer, env_interface env = Some interface ∧ peers interface !! server_public_key server = Some peer ∧
    List.find (λ n, Bool.eqb (is_ipv6_addr (ipnet_addr n)) (is_in_ipv6_mode st)) (allowed_ips peer) = Some wg_net ∧
    endpoint peer = Some e.

(** The two requests of a session can be sent. *)
Definition can_ask env : Prop :=
  is_Some (stun_encode (env_wg_tid env)) ∧ is_Some (stun_encode (env_udp_tid env)) ∧ env_wg_sent env = true ∧ env_udp_sent env = true.

Definition wg_address (server : Server) (wg_net : IpNet) : SocketAddr := socket_addr_new (ipnet_addr wg_net) (server_stun_port server).
Definition udp_address (server : Server) (e : SocketAddr) : SocketAddr := socket_addr_new (socket_ip e) (stun_plaintext_port server).

Definition asking env (server : Server) (wg_net : IpNet) (e : SocketAddr) : StunSession :=
  mkStunSession (Waiting (wg_address server wg_net) (env_wg_tid env)) (Waiting (udp_address server e) (env_udp_tid env)).

Lemma start_session_asks now env st log server wg_net e : stun_session st = None → stun_sockets st ≠ None →
  knows_server env st server wg_net e → can_ask env → is_Some (get_socket st) →
  ∃ via, start_stun_session now env st log =
    (Ok tt, (set_session (Some (asking env server wg_net e)) (now + STUN_TIMEOUT)%Z st,
             log ++ [StunSend via (wg_address server wg_net) (env_wg_tid env);
                     StunSend ViaExternal (udp_address server e) (env_udp_tid env)])).
Proof.
  intros Hn Hk (Hsrv & _ & interface & peer & Hint & Hpeer & Hfind & He) ([m Hm] & [m' Hm'] & Hs & Hs') [via Hvia].
  exists via. unfold start_stun_session, get_stun_endpoints, stun_session_start. destruct (stun_sockets st); [|done].
  rewrite Hn, Hsrv, Hint, Hpeer, Hfind, He, Hvia, Hm, Hm', Hs, Hs'. by rewrite <-app_assoc.
Qed.

Lemma timeout_asks now env st log server wg_net e : stun_state st = BackingOff → stun_session st = None → stun_active st = true →
  knows_server env st server wg_net e → can_ask env →
  ∃ via st1, stun_handle_timeout now env st log =
    Returns (st1, log ++ [StunSend via (wg_address server wg_net) (env_wg_tid env);
                          StunSend ViaExternal (udp_address server e) (env_udp_tid env)]) ∧
    stun_session st1 = Some (asking env server wg_net e) ∧ stun_state st1 = SearchingForServer ∧
    stun_subscribed st1 = stun_subscribed st ∧ last_candidates st1 = last_candidates st.
Proof.
  intros Hst Hn Hact Hknow Hask. pose proof Hact as Ha. unfold stun_active in Ha.
  apply andb_true_iff in Ha as [Ha Hsock]. apply andb_true_iff in Ha as [Ha _]. apply andb_true_iff in Ha as [Ha1 Ha2].
  apply bool_decide_eq_true in Ha1, Ha2.
  unfold stun_handle_timeout. rewrite Hst. unfold try_transition_to_searching_for_server.
  set (stw := transition_to_wait_for_wg now st).
  assert (is_wg_ready env stw = true) as Hready.
  { destruct Hknow as (Hsrv & (interface & Hint & Hin) & _). unfold is_wg_ready. rewrite Hint.
    change (stun_servers stw !! current_server_index stw) with (stun_servers st !! current_server_index st). rewrite Hsrv.
    by apply bool_decide_eq_true. }
  rewrite Hready, (bool_decide_eq_true_2 (stun_servers stw ≠ []) Ha2), (bool_decide_eq_true_2 (stun_state stw ≠ Paused)) by done.
  cbn [andb]. set (sts := set_stun_state SearchingForServer _ stw).
  destruct (start_session_asks now env sts log server wg_net e) as [via Hr]; [done|done|exact Hknow|done| |].
  { change (get_socket sts) with (get_socket st). by destruct (get_socket st). }
  exists via, (set_session (Some (asking env server wg_net e)) (now + STUN_TIMEOUT)%Z sts). rewrite Hr. done.
Qed.

(** The answer to the request that went to [src] *)
Definition answer (payload : bytes) (tid : bytes) (a : SocketAddr) : Prop := decode_response payload = Ok (a, tid).

Lemma update_answer payload src tid a : answer payload tid a → try_update payload src (Waiting src tid) = Ok (true, StunAddress a).
Proof. intros Ha. cbn. rewrite bool_decide_eq_false_2 by (intros Hx; by apply Hx). rewrite Ha. by rewrite bool_decide_eq_false_2 by (intros Hx; by apply Hx). Qed.

Lemma update_other payload src tid a addr tid' : answer payload tid a → addr ≠ src ∨ tid' ≠ tid →
  try_update payload src (Waiting addr tid') = Ok (false, Waiting addr tid').
Proof.
  intros Ha Hd. cbn. case_bool_decide as He; [done|]. rewrite Ha. rewrite bool_decide_eq_true_2; [done|]. naive_solver.
Qed.

Lemma update_done payload src a : try_update payload src (StunAddress a) = Ok (false, StunAddress a).
Proof. done. Qed.

Lemma rx_consumed now env i payload src st log s s' : received i = [(payload, src)] → stun_session st = Some s →
  try_consume payload src s = Ok (Consumed, s') →
  stun_step now env i st log = Returns (set_session (Some s') (stun_timeout st) st, log).
Proof.
  intros Hi Hs Hc. destruct i; cbn in Hi; simplify_eq; cbn; unfold stun_handle_rx, try_handle_stun_rx; by rewrite Hs, Hc.
Qed.

(** What the subscriber is told of a candidate: nothing when it is the one last announced *)
Definition announcement st (c : EndpointCandidate) : list StunEffect :=
  if stun_subscribed st && bool_decide (last_candidates st ≠ [c]) then [StunCandidates [c]] else [].

Lemma rx_final now env i payload src st log s s' c : received i = [(payload, src)] → stun_session st = Some s →
  try_consume payload src s = Ok (Final c, s') →
  ∃ st', stun_step now env i st log = Returns (st', log ++ announcement st c) ∧
  stun_state st' = HasEndpoints ∧ last_candidates st' = [c].
Proof.
  intros Hi Hs Hc. assert (stun_step now env i st log =
    Returns (transition_to_has_endpoints_state now c (set_session None (stun_timeout st) st) log)) as ->.
  { destruct i; cbn in Hi; simplify_eq; cbn; unfold stun_handle_rx, try_handle_stun_rx; rewrite Hs, Hc; [|done].
    by destruct (transition_to_has_endpoints_state _ _ _ _). }
  unfold transition_to_has_endpoints_state, announce, announcement. cbn [last_candidates stun_subscribed set_session].
  destruct (stun_subscribed st), (bool_decide_reflect (last_candidates st ≠ [c])) as [Hc1|Hc1]; cbn [andb];
    rewrite ?app_nil_r; eexists; (split; [done|]); (split; [done|]); try done; by apply dec_stable in Hc1.
Qed.

(** C31: In every history whose subscribers come before there are candidates, a server
    that answers ends the backing off: when WireGuard knows it and the
    requests go out, the timeout of a provider that is configured asks it both ways,
    and when the two answers are the next events, whichever comes first and wherever
    they are read, the provider has the candidate made of them and a subscriber is told
    of it at once, unless it is the candidate it already had. The two requests must
    differ in the address or in the transaction id. *)
Theorem stun_finds_endpoints now rx st log t0 env server wg_net e pa a pb b t1 e1 i1 t2 e2 i2 :
  stun_history now rx st log → stun_state st = BackingOff → stun_active st = true →
  knows_server env st server wg_net e → can_ask env →
  answer pa (env_wg_tid env) a → answer pb (env_udp_tid env) b →
  wg_address server wg_net ≠ udp_address server e ∨ env_wg_tid env ≠ env_udp_tid env →
  let wg := (pa, wg_address server wg_net) in let udp := (pb, udp_address server e) in
  (received i1 = [wg] ∧ received i2 = [udp] ∨ received i1 = [udp] ∧ received i2 = [wg]) →
  ∃ via st1 st2 st3,
    let asked := log ++ [StunSend via wg.2 (env_wg_tid env); StunSend ViaExternal udp.2 (env_udp_tid env)] in
    stun_step t0 env StunElapsed st log = Returns (st1, asked) ∧ stun_state st1 = SearchingForServer ∧
    stun_step t1 e1 i1 st1 asked = Returns (st2, asked) ∧
    stun_step t2 e2 i2 st2 asked = Returns (st3, asked ++ announcement st (mkEndpointCandidate a b)) ∧
    stun_state st3 = HasEndpoints ∧ last_candidates st3 = [mkEndpointCandidate a b].
Proof.
  intros Hh Hst Hact Hknow Hask Ha Hb Hd wg udp Hi.
  destruct (inv_backing _ _ _ (stun_history_inv now rx st log Hh) Hst) as [Hn _].
  destruct (timeout_asks t0 env st log server wg_net e Hst Hn Hact Hknow Hask) as (via & st1 & Hr1 & Hs1 & Hst1 & Hsub & Hlast).
  exists via, st1.
  assert (∃ p1 s1 s2 p2 st2, received i1 = [p1] ∧ received i2 = [p2] ∧
    try_consume p1.1 p1.2 (asking env server wg_net e) = Ok (Consumed, s1) ∧
    st2 = set_session (Some s1) (stun_timeout st1) st1 ∧
    try_consume p2.1 p2.2 s1 = Ok (Final (mkEndpointCandidate a b), s2))
    as (p1 & s1 & s2 & p2 & st2 & Hi1 & Hi2 & Hc1 & Hst2 & Hc2).
  { destruct Hi as [[Hi1 Hi2]|[Hi1 Hi2]]; do 5 eexists; (split; [exact Hi1|]); (split; [exact Hi2|]);
      unfold try_consume; cbn [asking session_wg session_udp fst snd wg udp].
    - split; [by rewrite (update_answer _ _ _ _ Ha)|]. split; [done|].
      cbn [session_wg session_udp]. by rewrite update_done, (update_answer _ _ _ _ Hb).
    - split; [by rewrite (update_other _ _ _ _ _ _ Hb Hd), (update_answer _ _ _ _ Hb)|]. split; [done|].
      cbn [session_wg session_udp]. by rewrite (update_answer _ _ _ _ Ha). }
  destruct p1 as [y1 x1], p2 as [y2 x2]. exists st2. subst st2.
  edestruct (rx_final t2 e2 i2 y2 x2 (set_session (Some s1) (stun_timeout st1) st1)) as (st3 & Hr3 & Hs3 & Hl3);
    [exact Hi2|reflexivity|exact Hc2|].
  exists st3. split; [exact Hr1|]. split; [exact Hst1|]. split; [by eapply rx_consumed|]. split; [|split; [exact Hs3|exact Hl3]].
  rewrite Hr3. do 3 f_equal. unfold announcement. cbn [stun_subscribed last_candidates set_session]. by rewrite Hsub, Hlast.
Qed.

(** ** What ends and what outlives a session *)

(** A datagram from the address of the server that cannot be decoded ends the
    session: the request is not waited for any longer. *)
Lemma garbage_ends_session now payload src tid udp st log err :
  stun_session st = Some (mkStunSession (Waiting src tid) udp) → decode_response payload = Err err →
  try_handle_stun_rx now payload src st log = (Err err, (set_session None (stun_timeout st) st, log)).
Proof.
  intros Hs Hd. unfold try_handle_stun_rx, try_consume. rewrite Hs. cbn [session_wg try_update].
  rewrite bool_decide_eq_false_2 by (intros Hx; by apply Hx). by rewrite Hd.
Qed.

(** A session outlives the configuration that it was started for: no request goes to
    the first server of the new list. *)
Lemma configure_keeps_session now env servers use_ipv6 st log s : stun_session st = Some s →
  let r := stun_configure now env servers use_ipv6 st log in
  stun_session r.1 = Some s ∧ ∃ l, r.2 = log ++ l ∧ ∀ e, e ∈ l → ∃ p, e = StunPeer p.
Proof.
  intros Hs. unfold stun_configure. set (st1 := set_proto _ _).
  assert (stun_session st1 = Some s) as Hs1 by (unfold st1; by destruct (bool_decide _ || _)).
  set (r := if servers_eq (stun_servers st1) _ then _ else _).
  assert (stun_session r.1 = Some s ∧ ∃ l, r.2 = log ++ l ∧ ∀ e, e ∈ l → ∃ p, e = StunPeer p) as [Hs2 Hl].
  { unfold r. destruct (servers_eq _ _); cbn [fst snd].
    - split; [done|]. exists []. rewrite app_nil_r. split; [done|]. intros ev Hin. by apply not_elem_of_nil in Hin.
    - split; [done|]. destruct (env_published env); [eexists [_]; split; [done|]|exists []; rewrite app_nil_r; split; [done|]].
      + intros ev ->%list_elem_of_singleton. by eexists.
      + intros ev Hin. by apply not_elem_of_nil in Hin. }
  clearbody r. destruct r as [st2 log2]. cbn [fst snd] in *. case_decide; [done|].
  unfold try_transition_to_searching_for_server. destruct (_ && _); [|done].
  unfold start_stun_session. cbn [stun_session stun_sockets set_stun_state transition_to_wait_for_wg set_stun_backoff].
  rewrite Hs2. by destruct (stun_sockets st2).
Qed.
End provider.

Module StunSamples.
Import ToyCrypto CryptoSamples.

#[local] Existing Instance AddrPrefix.nets.
#[local] Existing Instance CountablePb.messages.
#[local] Existing Instance ToyCiphers.

(** Messages of three numbers: the id, an address and a port *)
#[local] Instance three_numbers : StunCodec := {
  stun_encode := Some;
  stun_decode := λ p, match p with [tid; a; port] => Some ([tid], Some (SocketAddrV4 a port), None) | _ => None end
}.

Definition stun_server (w : Z) : Server :=
  mkServer "" "stun" "stun" (ipv4_addr 10 0 0 w) 8765 3478 3479 (mkPublicKey (replicate 32 w)) w false RelayDisconnected.
Definition server_peer (w : Z) : Peer :=
  mkPeer (server_public_key (stun_server w)) (Some (SocketAddrV4 (ipv4_addr 10 0 0 w) 51820)) None []
    None [AddrPrefix.mkNet (V4 (ipv4_addr 100 64 0 w)) 32] None None None None None.
Definition wg_up : Interface :=
  set_peers (<[server_public_key (stun_server 1) := server_peer 1]> {[server_public_key (stun_server 2) := server_peer 2]}) interface_default.

Definition good : StunEnv :=
  mkStunEnv _ (Some wg_up) (Some wg_up) [7]%Z [8]%Z true true true true true true (ping_pong_new alice) 0 [] rng.

Definition backoff0 : ExponentialBackoff := mkExponentialBackoff backoff_bounds_default (from_secs 2).
Definition Sample : Type := StunProvider (E := ExponentialBackoff) * list StunEffect.
Definition run_from (p : Sample) (l : list (Z * StunInput)) : Sample :=
  foldl (λ p x, match stun_step (from_secs x.1) good x.2 p.1 p.2 with Returns p' => p' | Panics => p end) p l.
Definition stun0 : Sample := (stun_start 0 backoff0 false, []).
Definition received_in (l : list (Z * StunInput)) : list (bytes * SocketAddr) := concat (map (λ x, received x.2) l).

(** The inputs can come one after the other. *)
Fixpoint inputs_ok (last : Z) (p : Sample) (l : list (Z * StunInput)) : bool :=
  match l with
  | [] => true
  | (t, i) :: l =>
      (last <=? t)%Z && stun_enabled (from_secs t) i p.1 &&
      match i with StunSubscribe => bool_decide (last_candidates p.1 = []) | _ => true end &&
      match stun_step (from_secs t) good i p.1 p.2 with Returns p' => inputs_ok t p' l | Panics => false end
  end.

Lemma stun_run_history l : ∀ last rx (p : Sample), stun_history (from_secs last) rx p.1 p.2 → inputs_ok last p l = true →
  ∃ now, stun_history now (rx ++ received_in l) (run_from p l).1 (run_from p l).2.
Proof.
  induction l as [|[t i] l IH]; intros last rx p Hh Hok; [by exists (from_secs last); cbn; rewrite app_nil_r|].
  cbn [inputs_ok] in Hok. apply andb_true_iff in Hok as [Hok Hs]. apply andb_true_iff in Hok as [Hok Hsub].
  apply andb_true_iff in Hok as [Ht Hen].
  destruct (stun_step (from_secs t) good i p.1 p.2) as [p'|] eqn:Es; [|done].
  destruct (IH t (rx ++ received i) p') as [now Hn]; [|done|].
  - eapply Stun_step; [exact Hh| |exact Hen| |by rewrite Es; destruct p'].
    + unfold from_secs. lia.
    + destruct i; try done. by apply bool_decide_eq_true in Hsub.
  - exists now. unfold run_from, received_in in *. cbn [foldl map concat fst snd]. rewrite Es, app_assoc. exact Hn.
Qed.

Lemma stun_run_history0 l : inputs_ok 0 stun0 l = true → ∃ now, stun_history now (received_in l) (run_from stun0 l).1 (run_from stun0 l).2.
Proof. apply (stun_run_history l 0 []). apply Stun_start. Qed.

(** Two servers, of which the first one answers *)
Definition servers0 : list Server := [stun_server 2; stun_server 1].
Definition from_tunnel : StunInput := StunRxTunnel [7; 1111; 51820]%Z (SocketAddrV4 (ipv4_addr 100 64 0 1) 3478).
Definition from_outside : StunInput := StunRxExternal [8; 1111; 40000]%Z (SocketAddrV4 (ipv4_addr 10 0 0 1) 3479).
Definition answered_run : list (Z * StunInput) :=
  [(0, StunSubscribe); (1, StunConfigure servers0 false); (2, from_outside); (3, from_tunnel)]%Z.
Definition candidate0 : EndpointCandidate := mkEndpointCandidate (SocketAddrV4 1111 51820) (SocketAddrV4 1111 40000).

(** One that times out *)
Definition silent_run : list (Z * StunInput) := [(0, StunSubscribe); (1, StunConfigure servers0 false); (6, StunElapsed)]%Z.

Lemma stun_candidates_authentic_witness :
  last_candidates (run_from stun0 answered_run).1 = [candidate0] ∧
  authentic (received_in answered_run) (run_from stun0 answered_run).2 candidate0.
Proof.
  assert (last_candidates (run_from stun0 answered_run).1 = [candidate0]) as Hl by (vm_compute; reflexivity).
  split; [exact Hl|]. destruct (stun_run_history0 answered_run) as [now Hh]; [vm_compute; reflexivity|].
  apply (stun_candidates_authentic now _ _ _ [candidate0] candidate0 Hh); [right; by rewrite Hl|by left].
Defined.

Lemma stun_states_witness :
  stun_subscribed (run_from stun0 answered_run).1 = true ∧ announced (run_from stun0 answered_run).2 = [candidate0].
Proof.
  assert (stun_subscribed (run_from stun0 answered_run).1 = true) as Hs by (vm_compute; reflexivity).
  assert (last_candidates (run_from stun0 answered_run).1 = [candidate0]) as Hl by (vm_compute; reflexivity).
  split; [exact Hs|]. destruct (stun_run_history0 answered_run) as [now Hh]; [vm_compute; reflexivity|].
  destruct (stun_states now _ _ _ Hh) as [Ha _]. rewrite Hs, Hl in Ha. exact Ha.
Defined.

(** Three rounds of silence over two servers *)
Definition silence : list (Instant * StunEnv) := map (λ t, (from_secs t, good)) [10; 20; 30; 40; 50; 60]%Z.

Lemma stun_rotates_witness :
  ∃ st' log', stun_timeouts silence (run_from stun0 silent_run).1 (run_from stun0 silent_run).2 = Returns (st', log') ∧
    stun_state st' = BackingOff ∧ current_server_index st' = 0 ∧
    published_peers log' = Some <$> [stun_server 1; stun_server 2; stun_server 1; stun_server 2; stun_server 1].
Proof.
  assert (bounds_ok backoff_bounds_default (from_secs 120)) as Hb by (split; [done|vm_compute; done]).
  destruct (stun_run_history0 silent_run) as [now Hh]; [vm_compute; reflexivity|].
  destruct (stun_rotates (backoff_ok backoff_bounds_default (from_secs 120)) now (received_in silent_run)
    (run_from stun0 silent_run).1 (run_from stun0 silent_run).2 3 silence) as (st' & log' & Hr & Hst & _ & Hi & Hl).
  - intros b Hx. destruct (next_backoff_min _ _ b Hb Hx) as (b' & Hn & Hx' & _). by exists b'.
  - exact Hh.
  - vm_compute. reflexivity.
  - vm_compute. done.
  - vm_compute. done.
  - vm_compute. reflexivity.
  - repeat (constructor; [reflexivity|]). constructor.
  - exists st', log'. split; [exact Hr|]. split; [exact Hst|]. rewrite Hi, Hl. split; vm_compute; reflexivity.
Defined.

(** The second server answers, first outside and then through the tunnel. *)
Lemma stun_finds_endpoints_witness :
  ∃ st1 st2 st3 log1,
    stun_step (from_secs 9) good StunElapsed (run_from stun0 silent_run).1 (run_from stun0 silent_run).2 = Returns (st1, log1) ∧
    stun_step (from_secs 10) good (StunRxExternal [8; 1111; 40000]%Z (SocketAddrV4 (ipv4_addr 10 0 0 2) 3479)) st1 log1 = Returns (st2, log1) ∧
    stun_step (from_secs 11) good (StunRxTunnel [7; 1111; 51820]%Z (SocketAddrV4 (ipv4_addr 100 64 0 2) 3478)) st2 log1 =
      Returns (st3, log1 ++ [StunCandidates [candidate0]]) ∧
    stun_state st3 = HasEndpoints ∧ last_candidates st3 = [candidate0].
Proof.
  destruct (stun_run_history0 silent_run) as [now Hh]; [vm_compute; reflexivity|].
  destruct (stun_finds_endpoints now _ _ _ (from_secs 9) good (stun_server 2) (AddrPrefix.mkNet (V4 (ipv4_addr 100 64 0 2)) 32)
    (SocketAddrV4 (ipv4_addr 10 0 0 2) 51820) [7; 1111; 51820]%Z (SocketAddrV4 1111 51820) [8; 1111; 40000]%Z (SocketAddrV4 1111 40000)
    (from_secs 10) good (StunRxExternal [8; 1111; 40000]%Z (SocketAddrV4 (ipv4_addr 10 0 0 2) 3479))
    (from_secs 11) good (StunRxTunnel [7; 1111; 51820]%Z (SocketAddrV4 (ipv4_addr 100 64 0 2) 3478)) Hh)
    as (via & st1 & st2 & st3 & Hr1 & _ & Hr2 & Hr3 & Hs & Hl).
  - vm_compute. reflexivity.
  - vm_compute. reflexivity.
  - split; [vm_compute; reflexivity|]. split; [exists wg_up; split; [reflexivity|vm_compute; by eexists]|].
    exists wg_up, (server_peer 2). split_and!; vm_compute; reflexivity.
  - split_and!; vm_compute; [by eexists..|reflexivity|reflexivity].
  - reflexivity.
  - reflexivity.
  - right. vm_compute. done.
  - right. split; vm_compute; reflexivity.
  - exists st1, st2, st3. eexists. split; [exact Hr1|]. split; [exact Hr2|]. split; [exact Hr3|]. split; [exact Hs|exact Hl].
Defined.
End StunSamples.
