(* ===== verification/Uapi.v ===== *)
(** * [telio-wg]: the text protocol of WireGuard ([uapi.rs]) and two adapters

    The conversions between the interface of the task and the structures of
    [wireguard_uapi], the text of the commands, the parser of the answers, and the
    adapters that are made of them: [NepTUN], which speaks the text protocol, and
    [LinuxNativeWg], which reads the device over netlink.

    A text is the list of its characters.  The reader of the parser is the list of
    the lines that are still to be read; at its end [read_line] gives the empty
    line.  Keys that cannot be decoded can panic
    ([key_from_str]), and so can the sum of two durations; the parser therefore is
    an [outcome].  The two outer loops of it take a number of rounds as fuel and
    give [None] without; [response_from_str] starts them with one round more than
    there are lines, which is always enough ([UapiProps.response_from_str_total]). *)

From stdpp Require Import strings.
From S2P Require Import Prelude NetTypes WgTypes LinkDetection Wg WgProps WgDevice Crypto NetText Backoff.

(** ** The structures of [wireguard_uapi] *)

(** [get::Peer] and [get::Device] *)
Record GetPeer := mkGetPeer {
  get_public_key : bytes;
  get_preshared_key : bytes;
  get_endpoint : option SocketAddr;
  get_keepalive : Z;
  get_last_handshake : Duration;
  get_rx_bytes : Z;
  get_tx_bytes : Z;
  get_allowed_ips : list AllowedIp
}.

Record GetDevice := mkGetDevice {
  get_private_key : option bytes;
  get_listen_port : Z;
  get_fwmark : Z;
  get_peers : list GetPeer
}.

Section conversions.
Context `{IpNets}.

(** [.collect::<Result<Vec<IpNet>, _>>().unwrap_or_default()] *)
Definition collect_nets (l : list AllowedIp) : list IpNet := default [] (mapM (λ ip, ipnet_new (ipaddr ip) (cidr_mask ip)) l).

(** [From<get::Peer> for Peer]; [unix_time] is the system time *)
Definition peer_from_get (unix_time : option Duration) (item : GetPeer) : Peer :=
  mkPeer (mkPublicKey (get_public_key item)) (get_endpoint item) None [] (Some (get_keepalive item))
    (collect_nets (get_allowed_ips item)) (Some (get_rx_bytes item)) None (Some (get_tx_bytes item))
    (calculate_time_since_last_handshake unix_time (Some (get_last_handshake item)))
    (if bool_decide (get_preshared_key item = replicate KEY_SIZE 0%Z) then None else Some (mkPresharedKey (get_preshared_key item))).

(** [From<set::Peer> for Peer] *)
Definition peer_from_set (item : SetPeer) : Peer :=
  mkPeer (mkPublicKey (set_public_key item)) (set_peer_endpoint item) None [] (set_persistent_keepalive item)
    (collect_nets (set_peer_allowed_ips item)) None None None None (mkPresharedKey <$> set_psk item).

(** [From<get::Device> for Interface] *)
Definition interface_from_get (unix_time : option Duration) (item : GetDevice) : Interface :=
  mkInterface (secret_key_new <$> get_private_key item) (Some (get_listen_port item)) None (get_fwmark item)
    (foldl (λ m p, <[mkPublicKey (get_public_key p) := peer_from_get unix_time p]> m) ∅ (get_peers item)).

(** [From<set::Device> for Interface] *)
Definition interface_from_set (item : SetDevice) : Interface :=
  mkInterface (secret_key_new <$> set_dev_private_key item) (set_dev_listen_port item) None (default 0%Z (set_dev_fwmark item))
    (foldl (λ m p, <[mkPublicKey (set_public_key p) := peer_from_set p]> m) ∅ (set_dev_peers item)).

(** [From<&Peer> for set::Peer] and [From<Interface> for set::Device] *)
Definition set_peer_from (item : Peer) : SetPeer :=
  mkSetPeer (key_bytes (public_key item)) None None (preshared_bytes <$> preshared_key item) (endpoint item)
    (wrap 16 <$> persistent_keepalive_interval item) None
    ((λ ip, mkAllowedIp (ipnet_network ip) (ipnet_prefix_len ip)) <$> allowed_ips item).

Definition set_device_from (item : Interface) : SetDevice :=
  mkSetDevice (secret_bytes <$> private_key item) (listen_port item)
    (if (fwmark item =? 0)%Z then None else Some (fwmark item)) None
    (set_peer_from <$> (btree_iter (peers item)).*2).
End conversions.

(** ** Text *)

Definition newline : Ascii.ascii := chr 10.
Definition equals : Ascii.ascii := chr 61.

(** The texts of other crates: [Display] of [set::Device], and [FromStr] of [IpNet] *)
Class UapiTexts `{IpNets} := {
  set_device_text : SetDevice → text;
  ipnet_parse : text → option IpNet
}.

(** [FromStr] of the unsigned types: a plus sign and digits, within the width *)
Fixpoint digits_value (acc : Z) (s : text) : option Z :=
  match s with
  | [] => Some acc
  | c :: s => d ← to_digit 10 c; digits_value (acc * 10 + d)%Z s
  end.

Definition plus : Ascii.ascii := chr 43.
Definition minus : Ascii.ascii := chr 45.

Definition parse_unsigned (bits : Z) (s : text) : option Z :=
  let digits := match s with c :: _ :: _ => if decide (c = plus) then tail s else s | _ => s end in
  if decide (digits = []) then None
  else v ← digits_value 0 digits; if bool_decide (v < 2 ^ bits)%Z then Some v else None.

(** [FromStr] of the signed types *)
Definition parse_signed (bits : Z) (s : text) : option Z :=
  let '(sign, digits) :=
    match s with
    | c :: _ :: _ => if decide (c = plus) then (1%Z, tail s) else if decide (c = minus) then ((-1)%Z, tail s) else (1%Z, s)
    | _ => (1%Z, s)
    end in
  if decide (digits = []) then None
  else
    v ← digits_value 0 digits;
    let v := (sign * v)%Z in
    if bool_decide (- 2 ^ (bits - 1) <= v < 2 ^ (bits - 1))%Z then Some v else None.

(** The lines of a text, each with its newline *)
Fixpoint lines_of (r : text) : list text :=
  match r with
  | [] => []
  | c :: r =>
      if decide (c = newline) then [c] :: lines_of r
      else match lines_of r with [] => [[c]] | l :: ls => (c :: l) :: ls end
  end.

(** [splitn(2, '=')] into two parts *)
Fixpoint split_equals (s : text) : option (text * text) :=
  match s with
  | [] => None
  | c :: s => if decide (c = equals) then Some ([], s) else '(k, v) ← split_equals s; Some (c :: k, v)
  end.

(** ** Errors *)

(** [Error::ParsingError]: the name of the value, and what [to_string] tells of *)
Inductive ParseCause :=
| NotInFormat
| BadKey (e : KeyDecodeError)
| BadInt
| BadAddr
| BadNet.

Inductive UapiError := ParsingError (what : string) (cause : ParseCause).

(** [?] in code that can panic *)
Notation "'let!' x ':=' c1 'in' c2" :=
  (match c1 with Returns (Ok x) => c2 | Returns (Err e) => Returns (Err e) | Panics => Panics end)
  (at level 10, x name, c1 at level 100, c2 at level 200) : telio_scope.
Notation "'let!' ' p ':=' c1 'in' c2" :=
  (match c1 with Returns (Ok p) => c2 | Returns (Err e) => Returns (Err e) | Panics => Panics end)
  (at level 10, p strict pattern, c1 at level 100, c2 at level 200) : telio_scope.

(** [map_err] on the results of the parsers *)
Definition parse_key {K} (what : string) (new : bytes → K) `{TextCodecs} (val : text) : outcome (result UapiError K) :=
  match key_from_str new val with
  | Returns (Ok k) => Returns (Ok k)
  | Returns (Err e) => Returns (Err (ParsingError what (BadKey e)))
  | Panics => Panics
  end.
Definition parse_or {A} (what : string) (cause : ParseCause) (o : option A) : outcome (result UapiError A) :=
  match o with Some a => Returns (Ok a) | None => Returns (Err (ParsingError what cause)) end.

(** ** The parser *)

Section parser.
Context `{IpNets} `{TextCodecs} `{!UapiTexts}.
Variable unix_time : option Duration.

(** [*timestamp += d] and its initialisation *)
Definition add_handshake (lht : option Duration) (d : Duration) : outcome (option Duration) :=
  match lht with
  | Some timestamp => if bool_decide (timestamp + d < DURATION_LIMIT)%Z then Returns (Some (timestamp + d)%Z) else Panics
  | None => Returns (Some d)
  end.

(** The end of [parse_peer] *)
Definition peer_done (peer : Peer) (lht : option Duration) (next : option PublicKey) (err : option Z) (reader : list text)
    : outcome (result UapiError (Peer * option PublicKey * option Z * list text)) :=
  Returns (Ok (set_time_since_last_handshake (calculate_time_since_last_handshake unix_time lht) peer, next, err, reader)).

(** A line that says something of the peer *)
Definition peer_line (key val : text) (peer : Peer) (lht : option Duration) : outcome (result UapiError (Peer * option Duration)) :=
  if decide (key = str "endpoint") then
    let! e := parse_or "endpoint" BadAddr (socket_addr_parse val) in Returns (Ok (set_endpoint (Some e) peer, lht))
  else if decide (key = str "persistent_keepalive_interval") then
    let! n := parse_or "persistent_keepalive_interval" BadInt (parse_unsigned 32 val) in Returns (Ok (set_keepalive (Some n) peer, lht))
  else if decide (key = str "allowed_ip") then
    let! n := parse_or "allowed_ip" BadNet (ipnet_parse val) in Returns (Ok (set_allowed_ips (allowed_ips peer ++ [n]) peer, lht))
  else if decide (key = str "rx_bytes") then
    let! n := parse_or "rx_bytes" BadInt (parse_unsigned 64 val) in Returns (Ok (set_rx_bytes (Some n) peer, lht))
  else if decide (key = str "tx_bytes") then
    let! n := parse_or "tx_bytes" BadInt (parse_unsigned 64 val) in Returns (Ok (set_tx_bytes (Some n) peer, lht))
  else if decide (key = str "last_handshake_time_nsec") then
    let! n := parse_or "last_handshake_time_nsec" BadInt (parse_unsigned 64 val) in
    match add_handshake lht n with Returns lht => Returns (Ok (peer, lht)) | Panics => Panics end
  else if decide (key = str "last_handshake_time_sec") then
    let! n := parse_or "last_handshake_time_sec" BadInt (parse_unsigned 64 val) in
    match add_handshake lht (from_secs n) with Returns lht => Returns (Ok (peer, lht)) | Panics => Panics end
  else if decide (key = str "preshared_key") then
    let! preshared := parse_key "preshared_key" preshared_key_new val in
    Returns (Ok (if bool_decide (preshared_bytes preshared = replicate KEY_SIZE 0%Z) then peer
                 else set_preshared_key (Some preshared) peer, lht))
  else Returns (Ok (peer, lht)).

(** The loop of [parse_peer] *)
Fixpoint parse_peer_loop (peer : Peer) (lht : option Duration) (reader : list text)
    : outcome (result UapiError (Peer * option PublicKey * option Z * list text)) :=
  match reader with
  | [] => peer_done peer lht None None []
  | line :: reader =>
      let cmd := pop line in
      if decide (cmd = []) then peer_done peer lht None None reader
      else
        match split_equals cmd with
        | None => Returns (Err (ParsingError "cmd" NotInFormat))
        | Some (key, val) =>
            if decide (key = str "public_key") then
              let! k := parse_key "public_key" public_key_new val in peer_done peer lht (Some k) None reader
            else if decide (key = str "errno") then
              let! e := parse_or "errno" BadInt (parse_signed 32 val) in peer_done peer lht None (Some e) reader
            else let! '(peer, lht) := peer_line key val peer lht in parse_peer_loop peer lht reader
        end
  end.

(** [parse_peer] *)
Definition parse_peer (public_key : PublicKey) (reader : list text)
    : outcome (result UapiError (Peer * option PublicKey * option Z * list text)) :=
  parse_peer_loop (peer_default public_key) None reader.

(** The loop over the peers *)
Fixpoint parse_peers (fuel : nat) (public : PublicKey) (reader : list text) (m : gmap PublicKey Peer)
    : option (outcome (result UapiError (gmap PublicKey Peer * option Z * list text))) :=
  match fuel with
  | O => None
  | S fuel =>
      match parse_peer public reader with
      | Returns (Ok (peer, next, err, reader)) =>
          let m := <[WgTypes.public_key peer := peer]> m in
          match err, next with
          | Some err, _ => Some (Returns (Ok (m, Some err, reader)))
          | None, Some next => parse_peers fuel next reader m
          | None, None => Some (Returns (Ok (m, None, reader)))
          end
      | Returns (Err e) => Some (Returns (Err e))
      | Panics => Some Panics
      end
  end.

(** A line that says something of the interface *)
Definition interface_line (key val : text) (interface : Interface) : outcome (result UapiError (Interface * bool)) :=
  if decide (key = str "private_key") then
    let! k := parse_key "private_key" secret_key_new val in
    Returns (Ok (mkInterface (Some k) (listen_port interface) (proxy_listen_port interface) (fwmark interface) (peers interface), true))
  else if decide (key = str "listen_port") then
    let! port := parse_or "listen_port" BadInt (parse_unsigned 16 val) in
    Returns (Ok (if bool_decide (0 < port)%Z
      then mkInterface (private_key interface) (Some port) (proxy_listen_port interface) (fwmark interface) (peers interface)
      else interface, true))
  else if decide (key = str "fwmark") then
    let! mark := parse_or "fwmark" BadInt (parse_unsigned 32 val) in
    Returns (Ok (mkInterface (private_key interface) (listen_port interface) (proxy_listen_port interface) mark (peers interface), true))
  else Returns (Ok (interface, false)).

Definition response_done (interface : Interface) (inited : bool) (errno : Z) : option (outcome (result UapiError Response)) :=
  Some (Returns (Ok (mkResponse errno (if inited then Some interface else None)))).

(** The loop of [response_from_read] *)
Fixpoint response_loop (fuel : nat) (interface : Interface) (inited : bool) (errno : Z) (reader : list text)
    : option (outcome (result UapiError Response)) :=
  match fuel with
  | O => None
  | S fuel =>
      match reader with
      | [] => response_done interface inited errno
      | line :: reader =>
          let cmd := pop line in
          if decide (cmd = []) then response_done interface inited errno
          else
            match split_equals cmd with
            | None => Some (Returns (Err (ParsingError "cmd" NotInFormat)))
            | Some (key, val) =>
                if decide (key = str "public_key") then
                  match parse_key "public_key" public_key_new val with
                  | Returns (Ok public) =>
                      match parse_peers fuel public reader (peers interface) with
                      | Some (Returns (Ok (m, err, reader))) =>
                          response_loop fuel (set_peers m interface) true (default errno err) reader
                      | Some (Returns (Err e)) => Some (Returns (Err e))
                      | Some Panics => Some Panics
                      | None => None
                      end
                  | Returns (Err e) => Some (Returns (Err e))
                  | Panics => Some Panics
                  end
                else if decide (key = str "errno") then
                  match parse_or "errno" BadInt (parse_signed 32 val) with
                  | Returns (Ok errno) => response_loop fuel interface inited errno reader
                  | Returns (Err e) => Some (Returns (Err e))
                  | Panics => Some Panics
                  end
                else
                  match interface_line key val interface with
                  | Returns (Ok (interface, init)) => response_loop fuel interface (inited || init) errno reader
                  | Returns (Err e) => Some (Returns (Err e))
                  | Panics => Some Panics
                  end
            end
      end
  end.

(** [response_from_read] and [response_from_str] *)
Definition response_from_str (string : text) : option (outcome (result UapiError Response)) :=
  let reader := lines_of string in response_loop (S (length reader)) interface_default false 0 reader.
End parser.

(** ** Commands *)

(** [Display] of [Cmd] *)
Definition cmd_text `{UapiTexts} (c : Cmd) : text :=
  match c with
  | CmdGet => str "get=1" ++ [newline]
  | CmdSet interface => str "set=1" ++ [newline] ++ set_device_text interface ++ [newline]
  end.

(** A number of type [i32] *)
Definition print_i32 (n : Z) : text := if (n <? 0)%Z then minus :: print_number 10 10 (- n) else print_number 10 10 n.

(** [Display] of [Response] *)
Definition response_text `{IpNets} (r : Response) : text :=
  if (errno r =? 0)%Z then [] else str "error=" ++ print_i32 (errno r) ++ [newline].

(** ** NepTUN ([adapter/neptun.rs]) and wireguard-go ([adapter/wireguard_go.rs]) *)

(** [DeviceHandle::send_uapi_cmd] *)
Class NeptunDevice (D : Type) := { neptun_command : text → D → text * D }.

Section text_adapters.
Context `{IpNets} `{TextCodecs} `{!UapiTexts}.

(** [NepTUN::send_uapi_cmd] *)
Definition neptun_send_uapi_cmd `{NeptunDevice D} (unix_time : option Duration) (cmd : Cmd) (d : D)
    : option (outcome (result UapiError Response)) * D :=
  let '(res, d) := neptun_command (cmd_text cmd) d in
  (response_from_str unix_time res, d).
End text_adapters.

(** The functions of wireguard-go: the answer to a command, [None] for the null
    pointer, and [wg_go_get_proxy_listen_port] *)
Class WgGoDevice (D : Type) := {
  wg_go_send_uapi_cmd : text → D → option text * D;
  wg_go_get_proxy_listen_port : D → Z
}.

Section go_adapter.
Context `{IpNets} `{TextCodecs} `{!UapiTexts} `{WgGoDevice D}.

Definition nul : Ascii.ascii := chr 0.

(** [WireguardGo::send_uapi_cmd_str]; [CString::new(cmd).unwrap()] panics on a text
    with a zero character *)
Definition wg_go_cmd_str (cmd : text) (d : D) : outcome (text * D) :=
  if decide (nul ∈ cmd) then Panics
  else let '(buf, d) := wg_go_send_uapi_cmd cmd d in Returns (default [] buf, d).

(** [WireguardGo::send_uapi_cmd] *)
Definition go_send (unix_time : option Duration) (cmd : Cmd) (d : D) : outcome (option (outcome (result UapiError Response)) * D) :=
  match wg_go_cmd_str (cmd_text cmd) d with
  | Returns (res, d) =>
      let augment r :=
        match cmd with
        | CmdGet =>
            let port := wg_go_get_proxy_listen_port d in
            if (port =? 0)%Z then r
            else
              mkResponse (errno r)
                ((λ i, mkInterface (private_key i) (listen_port i) (Some port) (fwmark i) (peers i)) <$> response_interface r)
        | CmdSet _ => r
        end in
      Returns (match response_from_str unix_time res with
               | Some (Returns (Ok r)) => Some (Returns (Ok (augment r)))
               | o => o
               end, d)
  | Panics => Panics
  end.
End go_adapter.

(** ** Linux ([adapter/linux_native_wg.rs]) *)

(** [set::WgPeerF], [set::Peer] and [set::Device] of the netlink part of
    [wireguard_uapi] *)
Inductive WgPeerF := RemoveMe | UpdateOnly | ReplaceAllowedIps.

#[export] Instance WgPeerF_eq_dec : EqDecision WgPeerF.
Proof. solve_decision. Defined.

Record NlPeer := mkNlPeer {
  nl_public_key : bytes;
  nl_flags : list WgPeerF;
  nl_preshared_key : option bytes;
  nl_endpoint : option SocketAddr;
  nl_keepalive : option Z;
  nl_allowed_ips : list (StdIpAddr * option Z)
}.

Record NlDevice := mkNlDevice {
  nl_private_key : option bytes;
  nl_listen_port : option Z;
  nl_fwmark : option Z;
  nl_peers : list NlPeer
}.

(** [set_wg_data], until the call of the socket *)
Definition nl_peer_of (peer : SetPeer) : NlPeer :=
  mkNlPeer (set_public_key peer)
    ((if bool_decide (set_remove peer = Some true) then [RemoveMe] else []) ++
     (if bool_decide (set_update_only peer = Some true) then [UpdateOnly] else []) ++
     (if bool_decide (set_replace_allowed_ips peer = Some true) then [ReplaceAllowedIps] else []))
    (set_psk peer) (set_peer_endpoint peer) (set_persistent_keepalive peer)
    ((λ ip, (ipaddr ip, Some (cidr_mask ip))) <$> set_peer_allowed_ips peer).

Definition nl_device_of (device : SetDevice) : NlDevice :=
  mkNlDevice (set_dev_private_key device) (set_dev_listen_port device) (set_dev_fwmark device) (nl_peer_of <$> set_dev_peers device).

(** [WgSocket]: [get_device] and [set_device], and the system time *)
Class WgSocket (D : Type) := {
  get_device : D → option GetDevice;
  set_device : NlDevice → D → bool * D;
  system_time : D → option Duration
}.

Section linux_adapter.
Context `{IpNets} `{WgSocket D}.

(** [set_wg_data] *)
Definition set_wg_data (device : SetDevice) (d : D) : Z * D :=
  let '(ok, d) := set_device (nl_device_of device) d in (if ok then 0%Z else 1%Z, d).

(** [LinuxNativeWg::send_uapi_cmd] with [get_wg_data] *)
Definition linux_send (cmd : Cmd) (d : D) : Response * D :=
  match cmd with
  | CmdGet =>
      let dev := get_device d in
      (mkResponse (match dev with Some _ => 0 | None => 1 end) (interface_from_get (system_time d) <$> dev), d)
  | CmdSet device => let '(e, d) := set_wg_data device d in (mkResponse e None, d)
  end.

(** It has no sockets to drop and no packets to inject: the defaults of the trait *)
#[export] Instance linux_adapter : Adapter D := {
  send_uapi_cmd := λ cmd d, let '(r, d) := linux_send cmd d in (Ok r, d);
  drop_sockets := λ d, d;
  inject_reset_packets := λ _ _ d, d
}.
End linux_adapter.
