(* ===== verification/UapiProps.v ===== *)
(** * Theorems about the text protocol of WireGuard and its adapters *)

From stdpp Require Import strings.
From S2P Require Import Prelude NetTypes WgTypes LinkDetection Wg WgProps WgDevice Crypto NetText Backoff Uapi.

(** ** The rounds of the parser *)

Section total.
Context `{IpNets} `{TextCodecs} `{!UapiTexts} (unix_time : option Duration).

Lemma parse_peer_reader ls : ∀ peer lht p next err ls',
  parse_peer_loop unix_time peer lht ls = Returns (Ok (p, next, err, ls')) →
  length ls' ≤ length ls ∧ (is_Some next → length ls' < length ls).
Proof.
  induction ls as [|l ls IH]; intros peer lht p next err ls' Hp; cbn [parse_peer_loop] in Hp.
  { unfold peer_done in Hp. simplify_eq. split; [done|]. by intros [? [=]]. }
  case_decide; [unfold peer_done in Hp; simplify_eq; cbn; split; [lia|by intros [? [=]]]|].
  destruct (split_equals (pop l)) as [[key val]|]; [|done].
  case_decide; [destruct (parse_key _ _ val) as [[]|]; unfold peer_done in Hp; simplify_eq; cbn; lia|].
  case_decide; [destruct (parse_or _ _ _) as [[]|]; unfold peer_done in Hp; simplify_eq; cbn; split; [lia|by intros [? [=]]]|].
  destruct (peer_line key val peer lht) as [[[peer' lht']|]|]; [|done..].
  destruct (IH _ _ _ _ _ _ Hp) as [H1' H2']. cbn. split; [lia|]. intros Hn. specialize (H2' Hn). lia.
Qed.

Lemma parse_peers_total fuel : ∀ public ls m, length ls < fuel →
  ∃ o, parse_peers unix_time fuel public ls m = Some o ∧
    ∀ m' err ls', o = Returns (Ok (m', err, ls')) → length ls' ≤ length ls.
Proof.
  induction fuel as [|fuel IH]; intros public ls m Hl; [lia|]. cbn [parse_peers].
  destruct (parse_peer unix_time public ls) as [[[[[p next] err] ls']|e]|] eqn:Hp; [|by eexists..].
  apply parse_peer_reader in Hp as [H1' H2'].
  destruct err as [err|]; [eexists; split; [done|]; intros; by simplify_eq|].
  destruct next as [next|]; [|eexists; split; [done|]; intros; by simplify_eq].
  specialize (H2' ltac:(by eexists)). destruct (IH next ls' (<[public_key p := p]> m) ltac:(lia)) as (o & -> & Ho).
  exists o. split; [done|]. intros m' err ls'' E. specialize (Ho _ _ _ E). lia.
Qed.

Lemma response_loop_total fuel : ∀ interface inited errno ls, length ls < fuel →
  is_Some (response_loop unix_time fuel interface inited errno ls).
Proof.
  induction fuel as [|fuel IH]; intros interface inited errno ls Hl; [lia|]. cbn [response_loop].
  destruct ls as [|l ls]; [by eexists|]. cbn [length] in Hl. case_decide; [by eexists|].
  destruct (split_equals (pop l)) as [[key val]|]; [|by eexists]. case_decide.
  - destruct (parse_key _ _ val) as [[public|]|]; [|by eexists..].
    destruct (parse_peers_total fuel public ls (peers interface) ltac:(lia)) as (o & -> & Ho).
    destruct o as [[[[m err] ls']|e]|]; [|by eexists..]. apply IH. specialize (Ho _ _ _ eq_refl). lia.
  - case_decide; [destruct (parse_or _ _ _) as [[]|]; [apply IH; lia|by eexists..]|].
    destruct (interface_line key val interface) as [[[i b]|]|]; [apply IH; lia|by eexists..].
Qed.

(** The parser always comes to an end. *)
Lemma response_from_str_total s : is_Some (response_from_str unix_time s).
Proof. apply response_loop_total. lia. Qed.
End total.

(** ** Text *)

Definition one_line (t : text) : Prop := newline ∉ t.

Lemma one_line_app t u : one_line (t ++ u) ↔ one_line t ∧ one_line u.
Proof. unfold one_line. rewrite elem_of_app. tauto. Qed.

Lemma one_line_cons c t : one_line (c :: t) ↔ c ≠ newline ∧ one_line t.
Proof. unfold one_line. rewrite elem_of_cons. naive_solver. Qed.

Lemma from_digit_line d : (0 <= d < 16)%Z → from_digit d ≠ newline ∧ from_digit d ≠ plus ∧ from_digit d ≠ minus.
Proof.
  intros Hd. assert (Forall (λ d, from_digit d ≠ newline ∧ from_digit d ≠ plus ∧ from_digit d ≠ minus) (seqZ 0 16)) as Hf.
  { apply (bool_decide_unpack _). vm_compute. reflexivity. }
  rewrite Forall_forall in Hf. apply Hf, elem_of_seqZ. lia.
Qed.

Lemma one_line_number radix width n : (2 <= radix <= 16)%Z → (0 <= n)%Z → one_line (print_number radix width n).
Proof.
  intros Hr. revert n. induction width as [|width IH]; intros n Hn; cbn [print_number]; [by intros ?%elem_of_nil|].
  case_bool_decide; [|apply one_line_app; split; [apply IH, Z.div_pos; lia|pose proof (Z.mod_pos_bound n radix ltac:(lia))]];
    (apply one_line_cons; split; [apply from_digit_line; lia|by intros ?%elem_of_nil]).
Qed.

Lemma one_line_ipv4 a : is_uint 32 a → one_line (print_ipv4 a).
Proof.
  intros Ha. destruct (octets_spec a Ha) as (o1 & o2 & o3 & o4 & Ho & _ & H1' & H2' & H3' & H4').
  unfold print_ipv4. rewrite Ho. unfold is_uint in *.
  rewrite !one_line_app. split_and!; try (apply one_line_number; lia); by apply one_line_cons; split; [|intros ?%elem_of_nil].
Qed.

Lemma one_line_segments l : Forall (is_uint 16) l → one_line (print_segments l).
Proof.
  destruct l as [|x l]; [by intros _ ?%elem_of_nil|]. rewrite Forall_cons. intros [Hx Hl]. unfold print_segments, is_uint in *.
  apply one_line_app. split; [apply one_line_number; lia|].
  induction l as [|y l IH]; [by intros ?%elem_of_nil|]. apply Forall_cons in Hl as [Hy Hl].
  cbn [fmap list_fmap concat app]. apply one_line_cons. split; [done|]. apply one_line_app. split; [apply one_line_number; lia|by apply IH].
Qed.

Lemma one_line_ipv6 a : is_uint 128 a → one_line (print_ipv6 a).
Proof.
  intros Ha. unfold print_ipv6, to_ipv4_mapped. case_bool_decide.
  - rewrite !one_line_app. split_and!; [vm_compute; by set_solver..| |].
    + apply one_line_cons. split; [done|by intros ?%elem_of_nil].
    + apply one_line_ipv4. unfold is_uint. rewrite Z.land_ones by lia. apply Z.mod_pos_bound. lia.
  - pose proof (ipv6_segments_uint a) as Hs. destruct (longest_zeroes (ipv6_segments a)) as [start len]. case_decide.
    + rewrite !one_line_app. split_and!; [by apply one_line_segments, Forall_take|vm_compute; set_solver|by apply one_line_segments, Forall_drop].
    + by apply one_line_segments.
Qed.

Lemma one_line_addr e : addr_ok e → one_line (socket_addr_to_string e).
Proof.
  assert (∀ c, c ≠ newline → one_line [c]) as Hc by (intros c Hn; apply one_line_cons; split; [done|by intros ?%elem_of_nil]).
  destruct e as [ip port|ip port flow scope]; cbn [addr_ok socket_addr_to_string].
  - intros [Hi Hp]. rewrite !one_line_app. split_and!; [by apply one_line_ipv4|by apply Hc|apply one_line_number; unfold is_uint in *; lia].
  - intros (Hi & Hp & _ & Hs). rewrite !one_line_app. split_and!;
      [by apply Hc|by apply one_line_ipv6| |by apply one_line_cons; split; [|apply Hc]|apply one_line_number; unfold is_uint in *; lia].
    case_bool_decide; [by intros ?%elem_of_nil|]. apply one_line_app. split; [by apply Hc|apply one_line_number; unfold is_uint in *; lia].
Qed.

(** Numbers are read back. *)
Lemma digits_value_print width n acc rest : (0 <= n < 10 ^ Z.of_nat width)%Z →
  digits_value acc (print_number 10 width n ++ rest) =
    digits_value (acc * 10 ^ Z.of_nat (length (print_number 10 width n)) + n)%Z rest.
Proof.
  revert n rest. induction width as [|width IH]; intros n rest Hn.
  { cbn [print_number length app]. change (Z.of_nat 0) with 0%Z in *. rewrite Z.pow_0_r in *. f_equal. lia. }
  cbn [print_number]. case_bool_decide as Hlt.
  { cbn [app digits_value length]. rewrite to_digit_from_digit by lia. cbn [mbind option_bind].
    change (Z.of_nat 1) with 1%Z. by rewrite Z.pow_1_r. }
  replace (Z.of_nat (S width)) with (Z.of_nat width + 1)%Z in Hn by lia. rewrite Z.pow_add_r, Z.pow_1_r in Hn by lia.
  pose proof (Z.mod_pos_bound n 10 ltac:(lia)). pose proof (Z.div_mod n 10 ltac:(lia)).
  rewrite length_app. cbn [length]. rewrite <-(assoc_L (++)), IH.
  2:{ split; [apply Z.div_pos; lia|]. apply Z.div_lt_upper_bound; lia. }
  cbn [app digits_value]. rewrite to_digit_from_digit by lia. cbn [mbind option_bind]. f_equal.
  set (l := length _). replace (Z.of_nat (l + 1)) with (Z.of_nat l + 1)%Z by lia. rewrite Z.pow_add_r, Z.pow_1_r by lia. nia.
Qed.

(** What a printed number starts with *)
Lemma print_number_head width n : width ≠ 0 → (0 <= n < 10 ^ Z.of_nat width)%Z →
  ∃ c l, print_number 10 width n = c :: l ∧ c ≠ plus ∧ c ≠ minus.
Proof.
  intros Hw Hn. destruct (decide (n = 0%Z)) as [->|Hz].
  - destruct width; [done|]. exists (from_digit 0), []. done.
  - destruct (head_print_number 10 width n) as (d & l & -> & Hd); [lia..|]. exists (from_digit d), l.
    destruct (from_digit_line d) as (_ & ? & ?); [lia|done].
Qed.

Lemma parse_unsigned_print bits width n : width ≠ 0 → (0 <= n < 10 ^ Z.of_nat width)%Z → (n < 2 ^ bits)%Z →
  parse_unsigned bits (print_number 10 width n) = Some n.
Proof.
  intros Hw Hn Hb. pose proof (digits_value_print width n 0 [] Hn) as Hd. rewrite app_nil_r in Hd.
  destruct (print_number_head width n Hw Hn) as (c & l & E & Hp & _). rewrite E in *. unfold parse_unsigned.
  assert (match c :: l with x :: _ :: _ => if decide (x = plus) then tail (c :: l) else c :: l | _ => c :: l end = c :: l) as ->.
  { destruct l; [done|]. by rewrite decide_False. }
  rewrite decide_False by done. rewrite Hd. cbn [digits_value mbind option_bind]. rewrite Z.mul_0_l, Z.add_0_l.
  by rewrite bool_decide_eq_true_2.
Qed.

Lemma parse_signed_print n : (- 2 ^ 31 <= n < 2 ^ 31)%Z → parse_signed 32 (print_i32 n) = Some n.
Proof.
  intros Hn. unfold print_i32. destruct (Z.ltb_spec n 0) as [Hneg|Hpos].
  - assert (0 <= - n < 10 ^ Z.of_nat 10)%Z as Hb by lia. pose proof (digits_value_print 10 (- n) 0 [] Hb) as Hd. rewrite app_nil_r in Hd.
    destruct (print_number_head 10 (- n) ltac:(done) Hb) as (c & l & E & _). rewrite E in *.
    unfold parse_signed. rewrite decide_False, decide_True by done. cbn [tail]. rewrite decide_False by done. rewrite Hd.
    cbn [digits_value mbind option_bind]. replace (-1 * (0 * 10 ^ Z.of_nat (length (c :: l)) + - n))%Z with n by lia.
    by rewrite bool_decide_eq_true_2 by (change (2 ^ (32 - 1))%Z with (2 ^ 31)%Z; lia).
  - assert (0 <= n < 10 ^ Z.of_nat 10)%Z as Hb by lia. pose proof (digits_value_print 10 n 0 [] Hb) as Hd. rewrite app_nil_r in Hd.
    destruct (print_number_head 10 n ltac:(done) Hb) as (c & l & E & Hp & Hm). rewrite E in *. unfold parse_signed.
    assert (match c :: l with
      | x :: _ :: _ => if decide (x = plus) then (1%Z, tail (c :: l)) else if decide (x = minus) then ((-1)%Z, tail (c :: l)) else (1%Z, c :: l)
      | _ => (1%Z, c :: l) end = (1%Z, c :: l)) as ->.
    { destruct l; [done|]. by rewrite !decide_False. }
    rewrite decide_False by done. rewrite Hd. cbn [digits_value mbind option_bind].
    replace (1 * (0 * 10 ^ Z.of_nat (length (c :: l)) + n))%Z with n by lia.
    by rewrite bool_decide_eq_true_2 by (change (2 ^ (32 - 1))%Z with (2 ^ 31)%Z; lia).
Qed.

(** ** Lines *)

Definition uapi_line (key val : text) : text := key ++ [equals] ++ val ++ [newline].

Lemma lines_of_line l rest : one_line l → lines_of ((l ++ [newline]) ++ rest) = (l ++ [newline]) :: lines_of rest.
Proof.
  induction l as [|c l IH]; intros Hl; cbn [app lines_of]; [by rewrite decide_True|].
  apply one_line_cons in Hl as [Hc Hl]. rewrite decide_False by done. by rewrite IH by done.
Qed.

Lemma split_equals_line key val : equals ∉ key → split_equals (key ++ [equals] ++ val) = Some (key, val).
Proof.
  induction key as [|c key IH]; intros Hk; cbn [app split_equals]; [by rewrite decide_True|].
  apply not_elem_of_cons in Hk as [Hc Hk]. rewrite decide_False by done. change (equals :: val) with ([equals] ++ val). by rewrite IH.
Qed.

(** What the loops see of a line *)
Lemma read_uapi_line key val rest : one_line key → one_line val → equals ∉ key →
  lines_of (uapi_line key val ++ rest) = uapi_line key val :: lines_of rest ∧
  pop (uapi_line key val) ≠ [] ∧ split_equals (pop (uapi_line key val)) = Some (key, val).
Proof.
  intros Hk Hv He. unfold uapi_line. rewrite !(assoc_L (++)). rewrite pop_snoc. split_and!.
  - rewrite <-(assoc_L (++) _ [newline] rest). change ([newline] ++ rest) with ([newline] ++ rest).
    rewrite (assoc_L (++) _ [newline] rest). apply lines_of_line. rewrite !one_line_app. split_and!; [done| |done].
    apply one_line_cons. split; [done|by intros ?%elem_of_nil].
  - by destruct key.
  - rewrite <-(assoc_L (++)). by apply split_equals_line.
Qed.

(** ** Documents of the protocol

    What WireGuard answers to [get=1]: lines about the device, the peers, each from
    its [public_key] on, the error number and an empty line.  The order of the lines
    of a device or a peer and further lines are up to the implementation. *)

Class UapiTextsLaws `{IpNets} `{TextCodecs} `{!UapiTexts} := {
  ipnet_text : IpNet → text;
  ipnet_parse_text n : ipnet_parse (ipnet_text n) = Some n;
  ipnet_text_line n : one_line (ipnet_text n);
  hex_encode_line b : one_line (hex_encode b)
}.

Section documents.
Context `{IpNets} `{TextCodecs} `{!UapiTexts} `{!TextCodecsLaws} `{!UapiTextsLaws}.
Context (unix_time : option Duration).

Inductive PeerLine :=
| PlEndpoint (e : SocketAddr)
| PlKeepalive (n : Z)
| PlAllowedIp (n : IpNet)
| PlRxBytes (n : Z)
| PlTxBytes (n : Z)
| PlHandshakeNsec (n : Z)
| PlHandshakeSec (n : Z)
| PlPresharedKey (k : bytes)
| PlOther (key val : text).

Inductive DeviceLine :=
| DlPrivateKey (k : bytes)
| DlListenPort (n : Z)
| DlFwmark (n : Z)
| DlOther (key val : text).

Definition peer_parts (l : PeerLine) : text * text :=
  match l with
  | PlEndpoint e => (str "endpoint", socket_addr_to_string e)
  | PlKeepalive n => (str "persistent_keepalive_interval", print_u64 n)
  | PlAllowedIp n => (str "allowed_ip", ipnet_text n)
  | PlRxBytes n => (str "rx_bytes", print_u64 n)
  | PlTxBytes n => (str "tx_bytes", print_u64 n)
  | PlHandshakeNsec n => (str "last_handshake_time_nsec", print_u64 n)
  | PlHandshakeSec n => (str "last_handshake_time_sec", print_u64 n)
  | PlPresharedKey k => (str "preshared_key", hex_encode k)
  | PlOther key val => (key, val)
  end.

Definition device_parts (l : DeviceLine) : text * text :=
  match l with
  | DlPrivateKey k => (str "private_key", hex_encode k)
  | DlListenPort n => (str "listen_port", print_u64 n)
  | DlFwmark n => (str "fwmark", print_u64 n)
  | DlOther key val => (key, val)
  end.

Definition print_parts (p : text * text) : text := uapi_line p.1 p.2.

(** A document: the lines of the device, the peers and the error number *)
Record GetText := mkGetText {
  device_lines : list DeviceLine;
  peer_blocks : list (bytes * list PeerLine);
  text_errno : Z
}.

Definition print_block (b : bytes * list PeerLine) : text :=
  uapi_line (str "public_key") (hex_encode b.1) ++ concat ((print_parts ∘ peer_parts) <$> b.2).
Definition print_end (e : Z) : text := uapi_line (str "errno") (print_i32 e) ++ [newline].
Definition print_document (t : GetText) : text :=
  concat ((print_parts ∘ device_parts) <$> device_lines t) ++ concat (print_block <$> peer_blocks t) ++ print_end (text_errno t).

(** The values are in range, and another key is not one that has a meaning. *)
Definition is_key (k : bytes) : Prop := length k = KEY_SIZE ∧ is_bytes k.

Definition other_ok (known : list string) (key val : text) : Prop :=
  one_line key ∧ one_line val ∧ equals ∉ key ∧ key ∉ str <$> known.

Definition peer_keys : list string :=
  ["public_key"; "errno"; "endpoint"; "persistent_keepalive_interval"; "allowed_ip"; "rx_bytes"; "tx_bytes";
   "last_handshake_time_nsec"; "last_handshake_time_sec"; "preshared_key"].
Definition device_keys : list string := ["public_key"; "errno"; "private_key"; "listen_port"; "fwmark"].

Definition peer_line_ok (l : PeerLine) : Prop :=
  match l with
  | PlEndpoint e => addr_ok e
  | PlKeepalive n => is_uint 32 n
  | PlAllowedIp _ => True
  | PlRxBytes n | PlTxBytes n | PlHandshakeNsec n | PlHandshakeSec n => is_uint 64 n
  | PlPresharedKey k => is_key k
  | PlOther key val => other_ok peer_keys key val
  end.
Definition device_line_ok (l : DeviceLine) : Prop :=
  match l with
  | DlPrivateKey k => is_key k
  | DlListenPort n => is_uint 16 n
  | DlFwmark n => is_uint 32 n
  | DlOther key val => other_ok device_keys key val
  end.

(** What the lines of a peer say about it *)
Definition line_time (l : PeerLine) : option Duration :=
  match l with PlHandshakeNsec n => Some n | PlHandshakeSec n => Some (from_secs n) | _ => None end.

Definition apply_line (p : Peer) (l : PeerLine) : Peer :=
  match l with
  | PlEndpoint e => set_endpoint (Some e) p
  | PlKeepalive n => set_keepalive (Some n) p
  | PlAllowedIp n => set_allowed_ips (allowed_ips p ++ [n]) p
  | PlRxBytes n => set_rx_bytes (Some n) p
  | PlTxBytes n => set_tx_bytes (Some n) p
  | PlPresharedKey k => if bool_decide (k = replicate KEY_SIZE 0%Z) then p else set_preshared_key (Some (mkPresharedKey k)) p
  | PlHandshakeNsec _ | PlHandshakeSec _ | PlOther _ _ => p
  end.

Definition add_time (lht : option Duration) (l : PeerLine) : option Duration :=
  match line_time l with Some d => Some (default 0 lht + d)%Z | None => lht end.

(** *** A line is read *)

Lemma key_from_hex {K} what (new : bytes → K) k : is_key k → parse_key what new (hex_encode k) = Returns (Ok (new k)).
Proof.
  intros [Hl Hb]. unfold parse_key, key_from_str. rewrite length_hex_encode, Hl, decide_True by done.
  rewrite hex_decode_encode by done. by rewrite decide_True.
Qed.

Lemma parse_u64 bits n : (bits <= 64)%Z → is_uint bits n → parse_unsigned bits (print_u64 n) = Some n.
Proof.
  intros Hb [H1' H2']. apply parse_unsigned_print; [done| |done]. split; [done|].
  eapply Z.lt_le_trans; [exact H2'|]. etransitivity; [apply Z.pow_le_mono_r; [lia|exact Hb]|]. vm_compute. done.
Qed.

Lemma one_line_u64 n : (0 <= n)%Z → one_line (print_u64 n).
Proof. apply one_line_number. lia. Qed.

Lemma one_line_str s : forallb (λ c, bool_decide (c ≠ newline)) (str s) = true → one_line (str s).
Proof.
  intros Hf Hin. rewrite forallb_forall in Hf. apply list_elem_of_In in Hin. specialize (Hf _ Hin). by apply bool_decide_eq_true in Hf.
Qed.

Ltac known_key :=
  match goal with
  | |- one_line (str _) => apply one_line_str; vm_compute; reflexivity
  | |- equals ∉ str _ => apply (bool_decide_unpack _); vm_compute; reflexivity
  | |- str _ ≠ str _ => apply (bool_decide_unpack _); vm_compute; reflexivity
  end.
Ltac other_key Hk := intros ->; apply Hk; apply (bool_decide_unpack _); vm_compute; reflexivity.

Lemma peer_parts_ok l : peer_line_ok l →
  one_line (peer_parts l).1 ∧ one_line (peer_parts l).2 ∧ equals ∉ (peer_parts l).1 ∧
  (peer_parts l).1 ≠ str "public_key" ∧ (peer_parts l).1 ≠ str "errno".
Proof.
  destruct l as [e|n|n|n|n|n|n|k|key val]; cbn [peer_line_ok peer_parts fst snd]; intros Hl.
  9:{ destruct Hl as (H1' & H2' & H3' & Hk). split_and!; [done..|other_key Hk|other_key Hk]. }
  all: split_and!; try known_key; try (unfold is_uint in Hl; apply one_line_u64; lia).
  - by apply one_line_addr.
  - apply ipnet_text_line.
  - apply hex_encode_line.
Qed.

Lemma add_handshake_time l lht : is_Some (line_time l) → (default 0 lht + default 0 (line_time l) < DURATION_LIMIT)%Z →
  ∃ d, line_time l = Some d ∧ add_handshake lht d = Returns (add_time lht l).
Proof.
  intros [d Hd] Hlim. exists d. split; [done|]. unfold add_time. rewrite Hd in *. cbn [default] in Hlim.
  destruct lht as [t|]; cbn [add_handshake default] in *; [by rewrite bool_decide_eq_true_2|by rewrite Z.add_0_l].
Qed.

Lemma peer_line_read l peer lht : peer_line_ok l → (default 0 lht + default 0 (line_time l) < DURATION_LIMIT)%Z →
  peer_line (peer_parts l).1 (peer_parts l).2 peer lht = Returns (Ok (apply_line peer l, add_time lht l)).
Proof.
  intros Hl Hlim. unfold peer_line. destruct l as [e|n|n|n|n|n|n|k|key val]; cbn [peer_line_ok peer_parts fst snd] in *;
    try (repeat (rewrite decide_False by (vm_compute; discriminate)); rewrite decide_True by reflexivity).
  - by rewrite socket_addr_text.
  - by rewrite parse_u64 by (done || lia).
  - by rewrite ipnet_parse_text.
  - by rewrite parse_u64 by (done || lia).
  - by rewrite parse_u64 by (done || lia).
  - rewrite parse_u64 by (done || lia). cbn [parse_or].
    destruct (add_handshake_time (PlHandshakeNsec n) lht ltac:(by eexists) Hlim) as (d & [= <-] & ->). done.
  - rewrite parse_u64 by (done || lia). cbn [parse_or].
    destruct (add_handshake_time (PlHandshakeSec n) lht ltac:(by eexists) Hlim) as (d & [= <-] & ->). done.
  - by rewrite key_from_hex.
  - destruct Hl as (_ & _ & _ & Hk). by repeat (rewrite decide_False by other_key Hk).
Qed.

(** *** A peer is read *)

Definition total_time (ls : list PeerLine) : Z := foldr (λ l t, (default 0 (line_time l) + t)%Z) 0%Z ls.

Definition block_ok (b : bytes * list PeerLine) : Prop :=
  is_key b.1 ∧ Forall peer_line_ok b.2 ∧ (total_time b.2 < DURATION_LIMIT)%Z.

Definition read_block (b : bytes * list PeerLine) : Peer :=
  set_time_since_last_handshake (calculate_time_since_last_handshake unix_time (foldl add_time None b.2))
    (foldl apply_line (peer_default (mkPublicKey b.1)) b.2).

Lemma total_time_nonneg ls : Forall peer_line_ok ls → (0 <= total_time ls)%Z.
Proof.
  induction 1 as [|l ls Hl _ IH]; [done|]. cbn [total_time foldr]. fold (total_time ls).
  destruct l; cbn in *; unfold is_uint, from_secs in *; lia.
Qed.

Lemma line_time_nonneg l : peer_line_ok l → (0 <= default 0 (line_time l))%Z.
Proof. intros Hl. destruct l; cbn in *; unfold is_uint, from_secs in *; lia. Qed.

Lemma parse_peer_step key val peer lht rest : one_line key → one_line val → equals ∉ key →
  parse_peer_loop unix_time peer lht (lines_of (uapi_line key val ++ rest)) =
    if decide (key = str "public_key") then
      let! k := parse_key "public_key" public_key_new val in peer_done unix_time peer lht (Some k) None (lines_of rest)
    else if decide (key = str "errno") then
      let! e := parse_or "errno" BadInt (parse_signed 32 val) in peer_done unix_time peer lht None (Some e) (lines_of rest)
    else let! '(peer, lht) := peer_line key val peer lht in parse_peer_loop unix_time peer lht (lines_of rest).
Proof.
  intros Hk Hv He. destruct (read_uapi_line key val rest Hk Hv He) as (-> & Hne & Hs). cbn [parse_peer_loop].
  rewrite decide_False by done. by rewrite Hs.
Qed.

Lemma parts_cons {L} (f : L → text * text) l ls rest :
  concat ((print_parts ∘ f) <$> l :: ls) ++ rest = uapi_line (f l).1 (f l).2 ++ (concat ((print_parts ∘ f) <$> ls) ++ rest).
Proof. cbn [fmap list_fmap concat]. by rewrite <-(assoc_L (++)). Qed.

Lemma parse_peer_lines ls : ∀ peer lht rest, Forall peer_line_ok ls → (default 0 lht + total_time ls < DURATION_LIMIT)%Z →
  parse_peer_loop unix_time peer lht (lines_of (concat ((print_parts ∘ peer_parts) <$> ls) ++ rest)) =
  parse_peer_loop unix_time (foldl apply_line peer ls) (foldl add_time lht ls) (lines_of rest).
Proof.
  induction ls as [|l ls IH]; intros peer lht rest Hok Hlim; [done|]. apply Forall_cons in Hok as [Hl Hok].
  cbn [total_time foldr] in Hlim. fold (total_time ls) in Hlim. pose proof (total_time_nonneg ls Hok). pose proof (line_time_nonneg l Hl).
  destruct (peer_parts_ok l Hl) as (H1' & H2' & H3' & Hnp & Hne).
  rewrite parts_cons. cbn [foldl]. rewrite parse_peer_step by done. rewrite !decide_False by done. rewrite peer_line_read by (done || lia).
  apply IH; [done|]. unfold add_time. destruct (line_time l); cbn [from_option] in *; unfold id in *; lia.
Qed.

Lemma lines_of_end e : (- 2 ^ 31 <= e < 2 ^ 31)%Z →
  one_line (print_i32 e) ∧ lines_of (print_end e) = [uapi_line (str "errno") (print_i32 e); [newline]].
Proof.
  intros He. assert (one_line (print_i32 e)) as Hl.
  { unfold print_i32. destruct (Z.ltb_spec e 0); [apply one_line_cons; split; [done|]|]; apply one_line_number; lia. }
  split; [done|]. unfold print_end. destruct (read_uapi_line (str "errno") (print_i32 e) [newline]) as (-> & _); [known_key|done|known_key|].
  cbn [lines_of]. by rewrite decide_True.
Qed.

(** The peer ends with the next one, or with the error number. *)
Lemma parse_peer_next b b' rest : block_ok b → block_ok b' →
  parse_peer unix_time (mkPublicKey b.1) (lines_of (concat ((print_parts ∘ peer_parts) <$> b.2) ++ print_block b' ++ rest)) =
  Returns (Ok (read_block b, Some (mkPublicKey b'.1), None, lines_of (concat ((print_parts ∘ peer_parts) <$> b'.2) ++ rest))).
Proof.
  intros (Hk & Hls & Ht) (Hk' & _). unfold parse_peer. rewrite parse_peer_lines by done.
  unfold print_block. rewrite <-(assoc_L (++)), parse_peer_step; [|known_key|apply hex_encode_line|known_key].
  rewrite decide_True by done. by rewrite key_from_hex by done.
Qed.

Lemma parse_peer_last b e : block_ok b → (- 2 ^ 31 <= e < 2 ^ 31)%Z →
  parse_peer unix_time (mkPublicKey b.1) (lines_of (concat ((print_parts ∘ peer_parts) <$> b.2) ++ print_end e)) =
  Returns (Ok (read_block b, None, Some e, [[newline]])).
Proof.
  intros (Hk & Hls & Ht) He. destruct (lines_of_end e He) as [Hl _]. unfold parse_peer. rewrite parse_peer_lines by done.
  unfold print_end. rewrite parse_peer_step; [|known_key|done|known_key].
  rewrite decide_False by (vm_compute; discriminate). rewrite decide_True by done. by rewrite parse_signed_print by done.
Qed.

Lemma public_key_read_block b : public_key (read_block b) = mkPublicKey b.1.
Proof.
  unfold read_block. cbn. assert (∀ ls p, public_key (foldl apply_line p ls) = public_key p) as Hf; [|by rewrite Hf].
  induction ls as [|l ls IH]; intros p; [done|]. cbn [foldl]. rewrite IH. destruct l; cbn; try done. by case_bool_decide.
Qed.

Definition insert_block (m : gmap PublicKey Peer) (b : bytes * list PeerLine) : gmap PublicKey Peer :=
  <[mkPublicKey b.1 := read_block b]> m.

Lemma parse_peers_blocks bs : ∀ b fuel m e, Forall block_ok (b :: bs) → (- 2 ^ 31 <= e < 2 ^ 31)%Z → length bs < fuel →
  parse_peers unix_time fuel (mkPublicKey b.1)
    (lines_of (concat ((print_parts ∘ peer_parts) <$> b.2) ++ concat (print_block <$> bs) ++ print_end e)) m =
  Some (Returns (Ok (foldl insert_block m (b :: bs), Some e, [[newline]]))).
Proof.
  induction bs as [|b' bs IH]; intros b fuel m e Hok He Hf; apply Forall_cons in Hok as [Hb Hok]; (destruct fuel as [|fuel]; [cbn in Hf; lia|]);
    cbn [parse_peers].
  - cbn [fmap list_fmap concat app]. rewrite parse_peer_last by done. by rewrite public_key_read_block.
  - pose proof Hok as Hok'. apply Forall_cons in Hok as [Hb' _]. cbn [fmap list_fmap concat]. rewrite <-(assoc_L (++)).
    rewrite parse_peer_next by done. rewrite public_key_read_block. cbn in Hf. by rewrite IH by (done || lia).
Qed.

(** *** A document is read *)

Definition apply_device_line (i : Interface) (l : DeviceLine) : Interface :=
  match l with
  | DlPrivateKey k => mkInterface (Some (secret_key_new k)) (listen_port i) (proxy_listen_port i) (fwmark i) (peers i)
  | DlListenPort n =>
      if bool_decide (0 < n)%Z then mkInterface (private_key i) (Some n) (proxy_listen_port i) (fwmark i) (peers i) else i
  | DlFwmark n => mkInterface (private_key i) (listen_port i) (proxy_listen_port i) n (peers i)
  | DlOther _ _ => i
  end.
Definition initialises (l : DeviceLine) : bool := match l with DlOther _ _ => false | _ => true end.

Definition document_ok (t : GetText) : Prop :=
  Forall device_line_ok (device_lines t) ∧ Forall block_ok (peer_blocks t) ∧ (- 2 ^ 31 <= text_errno t < 2 ^ 31)%Z.

Definition read_document (t : GetText) : Response :=
  let i := foldl apply_device_line interface_default (device_lines t) in
  let inited := existsb initialises (device_lines t) || negb (bool_decide (peer_blocks t = [])) in
  mkResponse (text_errno t) (if inited then Some (set_peers (foldl insert_block ∅ (peer_blocks t)) i) else None).

Lemma device_line_read l i : device_line_ok l →
  one_line (device_parts l).1 ∧ one_line (device_parts l).2 ∧ equals ∉ (device_parts l).1 ∧
  (device_parts l).1 ≠ str "public_key" ∧ (device_parts l).1 ≠ str "errno" ∧
  interface_line (device_parts l).1 (device_parts l).2 i = Returns (Ok (apply_device_line i l, initialises l)).
Proof.
  intros Hl. unfold interface_line. destruct l as [k|n|n|key val]; cbn [device_line_ok device_parts fst snd] in *.
  4:{ destruct Hl as (H1' & H2' & H3' & Hk). split_and!; [done..|other_key Hk|other_key Hk|]. by repeat (rewrite decide_False by other_key Hk). }
  all: split_and!; try known_key; try (unfold is_uint in Hl; apply one_line_u64; lia); try apply hex_encode_line;
    repeat (rewrite decide_False by (vm_compute; discriminate)); rewrite decide_True by reflexivity.
  - by rewrite key_from_hex.
  - by rewrite parse_u64 by (done || lia).
  - by rewrite parse_u64 by (done || lia).
Qed.

Lemma response_device_lines ls : ∀ fuel i inited e rest, Forall device_line_ok ls →
  response_loop unix_time (length ls + fuel) i inited e (lines_of (concat ((print_parts ∘ device_parts) <$> ls) ++ rest)) =
  response_loop unix_time fuel (foldl apply_device_line i ls) (inited || existsb initialises ls) e (lines_of rest).
Proof.
  induction ls as [|l ls IH]; intros fuel i inited e rest Hok; [by rewrite orb_false_r|]. apply Forall_cons in Hok as [Hl Hok].
  destruct (device_line_read l i Hl) as (H1' & H2' & H3' & Hnp & Hne & Hr).
  rewrite parts_cons. cbn [foldl length existsb].
  destruct (read_uapi_line _ _ (concat ((print_parts ∘ device_parts) <$> ls) ++ rest) H1' H2' H3') as (-> & Hx & Hs).
  cbn [Nat.add response_loop]. rewrite decide_False by done. rewrite Hs, !decide_False by done. rewrite Hr.
  rewrite IH by done. by rewrite <-orb_assoc.
Qed.

Lemma length_lines_app x rest : length (lines_of rest) ≤ length (lines_of (x ++ rest)).
Proof.
  induction x as [|c x IH]; [done|]. cbn [app lines_of]. case_decide; cbn; [lia|]. destruct (lines_of (x ++ rest)); cbn in *; lia.
Qed.

Lemma length_lines_device ls rest : Forall device_line_ok ls →
  length (lines_of (concat ((print_parts ∘ device_parts) <$> ls) ++ rest)) = length ls + length (lines_of rest).
Proof.
  induction 1 as [|l ls Hl _ IH]; [done|]. destruct (device_line_read l interface_default Hl) as (H1' & H2' & H3' & _).
  rewrite parts_cons.
  destruct (read_uapi_line _ _ (concat ((print_parts ∘ device_parts) <$> ls) ++ rest) H1' H2' H3') as (-> & _).
  cbn. by rewrite IH.
Qed.

Lemma length_lines_blocks bs rest : Forall block_ok bs →
  length bs + length (lines_of rest) ≤ length (lines_of (concat (print_block <$> bs) ++ rest)).
Proof.
  induction 1 as [|b bs Hb _ IH]; [done|]. cbn [fmap list_fmap concat length]. unfold print_block at 1. rewrite <-!(assoc_L (++)).
  destruct (read_uapi_line (str "public_key") (hex_encode b.1)
    (concat ((print_parts ∘ peer_parts) <$> b.2) ++ concat (print_block <$> bs) ++ rest)) as (-> & _); [known_key|apply hex_encode_line|known_key|].
  cbn [length]. pose proof (length_lines_app (concat ((print_parts ∘ peer_parts) <$> b.2)) (concat (print_block <$> bs) ++ rest)). lia.
Qed.

Lemma response_end fuel i inited e e0 : (- 2 ^ 31 <= e < 2 ^ 31)%Z → 1 < fuel →
  response_loop unix_time fuel i inited e0 (lines_of (print_end e)) = response_done i inited e.
Proof.
  intros He Hf. destruct (lines_of_end e He) as [Hl ->]. destruct fuel as [|[|fuel]]; [lia..|].
  destruct (read_uapi_line (str "errno") (print_i32 e) []) as (_ & Hne & Hs); [known_key|done|known_key|].
  cbn [response_loop]. rewrite decide_False by done. rewrite Hs. rewrite decide_False by (vm_compute; discriminate).
  rewrite decide_True by done. rewrite parse_signed_print by done. cbn [parse_or]. by rewrite decide_True.
Qed.

Lemma response_blocks fuel i inited e0 b bs e : Forall block_ok (b :: bs) → (- 2 ^ 31 <= e < 2 ^ 31)%Z → S (length bs) < fuel →
  response_loop unix_time fuel i inited e0 (lines_of (concat (print_block <$> b :: bs) ++ print_end e)) =
  response_done (set_peers (foldl insert_block (peers i) (b :: bs)) i) true e.
Proof.
  intros Hok He Hf. pose proof Hok as Hok'. apply Forall_cons in Hok' as [(Hk & _) _]. destruct fuel as [|[|fuel]]; [lia..|].
  cbn [fmap list_fmap concat]. unfold print_block at 1. rewrite <-!(assoc_L (++)).
  destruct (read_uapi_line (str "public_key") (hex_encode b.1)
    (concat ((print_parts ∘ peer_parts) <$> b.2) ++ concat (print_block <$> bs) ++ print_end e)) as (-> & Hne & Hs);
    [known_key|apply hex_encode_line|known_key|].
  cbn [response_loop]. rewrite decide_False by done. rewrite Hs, decide_True by done. rewrite key_from_hex by done.
  rewrite (parse_peers_blocks bs b (S fuel)) by (done || lia). by rewrite decide_True.
Qed.

Lemma response_read t : document_ok t → response_from_str unix_time (print_document t) = Some (Returns (Ok (read_document t))).
Proof.
  intros (Hd & Hb & He). unfold response_from_str, print_document.
  rewrite length_lines_device by done. rewrite <-Nat.add_succ_r, response_device_lines by done. cbn [orb].
  pose proof (length_lines_blocks (peer_blocks t) (print_end (text_errno t)) Hb) as Hl.
  assert (0 < length (lines_of (print_end (text_errno t)))) as Hle by (destruct (lines_of_end _ He) as [_ ->]; cbn [length]; lia).
  assert (∀ ls i, peers i = ∅ → peers (foldl apply_device_line i ls) = ∅) as Hp.
  { induction ls as [|l ls IH]; intros i Hi; [done|]. apply IH. destruct l; cbn; try done. by case_bool_decide. }
  unfold read_document. destruct (peer_blocks t) as [|b bs] eqn:Eb.
  - cbn [fmap list_fmap concat app] in *. rewrite response_end by (done || lia). rewrite bool_decide_eq_true_2, orb_false_r by done.
    unfold response_done. do 4 f_equal. destruct (existsb _ _); [|done]. f_equal. cbn [foldl]. unfold set_peers.
    rewrite <-(Hp (device_lines t) interface_default eq_refl). by destruct (foldl apply_device_line interface_default (device_lines t)).
  - rewrite response_blocks; [|done|done|cbn [length] in Hl; lia]. rewrite bool_decide_eq_false_2, orb_true_r by done. rewrite Hp by done. done.
Qed.

(** ** What a document says about a device *)

Definition pl_endpoint (l : PeerLine) : option SocketAddr := match l with PlEndpoint e => Some e | _ => None end.
Definition pl_keepalive (l : PeerLine) : option Z := match l with PlKeepalive n => Some n | _ => None end.
Definition pl_allowed_ip (l : PeerLine) : option IpNet := match l with PlAllowedIp n => Some n | _ => None end.
Definition pl_rx_bytes (l : PeerLine) : option Z := match l with PlRxBytes n => Some n | _ => None end.
Definition pl_tx_bytes (l : PeerLine) : option Z := match l with PlTxBytes n => Some n | _ => None end.
Definition pl_preshared_key (l : PeerLine) : option bytes := match l with PlPresharedKey k => Some k | _ => None end.
Definition dl_private_key (l : DeviceLine) : option bytes := match l with DlPrivateKey k => Some k | _ => None end.
Definition dl_listen_port (l : DeviceLine) : option Z := match l with DlListenPort n => Some n | _ => None end.
Definition dl_fwmark (l : DeviceLine) : option Z := match l with DlFwmark n => Some n | _ => None end.

(** A value that is written once, or may be left out if it is the default *)
Definition written {A} (dflt : A) (l : list A) (x : A) : Prop := l = [x] ∨ (l = [] ∧ x = dflt).

(** The lines of a peer, in any order, say what the device has of it. *)
Record describes_peer (b : bytes * list PeerLine) (p : GetPeer) : Prop := {
  dp_key : b.1 = get_public_key p;
  dp_endpoint : omap pl_endpoint b.2 = option_list (get_endpoint p);
  dp_keepalive : omap pl_keepalive b.2 = [get_keepalive p];
  dp_allowed_ips : mapM (λ ip, ipnet_new (ipaddr ip) (cidr_mask ip)) (get_allowed_ips p) = Some (omap pl_allowed_ip b.2);
  dp_rx_bytes : omap pl_rx_bytes b.2 = [get_rx_bytes p];
  dp_tx_bytes : omap pl_tx_bytes b.2 = [get_tx_bytes p];
  dp_preshared_key : written (replicate KEY_SIZE 0%Z) (omap pl_preshared_key b.2) (get_preshared_key p);
  dp_handshake : total_time b.2 = get_last_handshake p
}.

Record describes (t : GetText) (d : GetDevice) : Prop := {
  desc_private_key : omap dl_private_key (device_lines t) = option_list (get_private_key d);
  desc_listen_port : omap dl_listen_port (device_lines t) = [get_listen_port d];
  desc_fwmark : written 0%Z (omap dl_fwmark (device_lines t)) (get_fwmark d);
  desc_peers : Forall2 describes_peer (peer_blocks t) (get_peers d)
}.

(** A field that a kind of line sets *)
Lemma fold_field {S L A} (step : S → L → S) (f : S → option A) (g : L → option A) ls : ∀ s,
  (∀ s l, f (step s l) = match g l with Some x => Some x | None => f s end) →
  f (foldl step s ls) = match last (omap g ls) with Some x => Some x | None => f s end.
Proof.
  induction ls as [|l ls IH]; intros s Hstep; [done|]. cbn [foldl]. rewrite IH, Hstep by done. csimpl.
  destruct (g l) as [x|]; [|done]. rewrite last_cons. by destruct (last (omap g ls)).
Qed.

Lemma fold_allowed_ips ls : ∀ p, allowed_ips (foldl apply_line p ls) = allowed_ips p ++ omap pl_allowed_ip ls.
Proof.
  induction ls as [|l ls IH]; intros p; [by rewrite app_nil_r|]. cbn [foldl]. rewrite IH. csimpl.
  destruct l; cbn; try done; [by rewrite <-(assoc_L (++))|by case_bool_decide].
Qed.

Lemma fold_time ls : ∀ lht, default 0%Z (foldl add_time lht ls) = (default 0 lht + total_time ls)%Z.
Proof.
  induction ls as [|l ls IH]; intros lht; [cbn; lia|]. cbn [foldl total_time foldr]. fold (total_time ls). rewrite IH.
  unfold add_time. destruct (line_time l); cbn [from_option]; unfold id; lia.
Qed.

Lemma handshake_default lht :
  calculate_time_since_last_handshake unix_time lht = calculate_time_since_last_handshake unix_time (Some (default 0%Z lht)).
Proof. by destruct lht. Qed.

Lemma omap_omap {A B C} (g : A → option B) (h : B → option C) (l : list A) : omap (λ x, y ← g x; h y) l = omap h (omap g l).
Proof. induction l as [|x l IH]; [done|]. csimpl. rewrite IH. destruct (g x) as [y|]; csimpl; [|done]. by destruct (h y). Qed.

Lemma last_option_list {A} (o : option A) : last (option_list o) = o.
Proof. by destruct o. Qed.

Lemma Peer_eq (p q : Peer) : public_key p = public_key q → endpoint p = endpoint q → endpoint_changed_at p = endpoint_changed_at q →
  peer_ip_addresses p = peer_ip_addresses q → persistent_keepalive_interval p = persistent_keepalive_interval q →
  allowed_ips p = allowed_ips q → rx_bytes p = rx_bytes q → time_since_last_rx p = time_since_last_rx q → tx_bytes p = tx_bytes q →
  time_since_last_handshake p = time_since_last_handshake q → preshared_key p = preshared_key q → p = q.
Proof. destruct p, q. cbn. by intros; subst. Qed.

Ltac field_of g :=
  rewrite (fold_field _ _ g) by (intros p' l'; destruct l'; try done; cbn; by case_bool_decide).

Lemma read_block_get b p : describes_peer b p → read_block b = peer_from_get unix_time p.
Proof.
  intros [Hk He Hka Hip Hrx Htx Hpsk Ht]. unfold read_block. set (q := foldl apply_line _ b.2).
  assert (∀ ls p0, peer_ip_addresses (foldl apply_line p0 ls) = peer_ip_addresses p0) as Hips.
  { induction ls as [|l ls IH]; intros p0; [done|]. cbn [foldl]. rewrite IH. destruct l; cbn; try done. by case_bool_decide. }
  apply Peer_eq; cbn [set_time_since_last_handshake peer_from_get public_key endpoint endpoint_changed_at peer_ip_addresses
    persistent_keepalive_interval allowed_ips rx_bytes time_since_last_rx tx_bytes time_since_last_handshake preshared_key].
  - rewrite <-Hk. apply (public_key_read_block b).
  - unfold q. field_of pl_endpoint. rewrite He, last_option_list. by destruct (get_endpoint p).
  - unfold q. field_of (λ _ : PeerLine, @None (Instant * UpdateReason)).
    assert (∀ ls : list PeerLine, omap (λ _ : PeerLine, @None (Instant * UpdateReason)) ls = []) as -> by (by induction ls). done.
  - apply Hips.
  - unfold q. field_of pl_keepalive. by rewrite Hka.
  - unfold q. rewrite fold_allowed_ips. unfold collect_nets. by rewrite Hip.
  - unfold q. field_of pl_rx_bytes. by rewrite Hrx.
  - unfold q. field_of (λ _ : PeerLine, @None Duration).
    assert (∀ ls : list PeerLine, omap (λ _ : PeerLine, @None Duration) ls = []) as -> by (by induction ls). done.
  - unfold q. field_of pl_tx_bytes. by rewrite Htx.
  - rewrite handshake_default, fold_time, Ht. done.
  - unfold q. set (h := λ k : bytes, if bool_decide (k = replicate KEY_SIZE 0%Z) then None else Some (mkPresharedKey k)).
    rewrite (fold_field _ _ (λ l, k ← pl_preshared_key l; h k)); [|intros p' l'; destruct l'; try done; cbn [apply_line pl_preshared_key mbind option_bind]; unfold h; by case_bool_decide].
    rewrite omap_omap. destruct Hpsk as [-> |[-> ->]]; cbn [omap list_omap]; [|by rewrite bool_decide_eq_true_2].
    unfold h. by case_bool_decide.
Qed.

(** An interface whose port of zero is no port *)
Definition no_zero_port (i : Interface) : Interface :=
  mkInterface (private_key i) (match listen_port i with Some n => if (n =? 0)%Z then None else Some n | None => None end)
    (proxy_listen_port i) (fwmark i) (peers i).

Lemma Interface_eq (i j : Interface) : private_key i = private_key j → listen_port i = listen_port j →
  proxy_listen_port i = proxy_listen_port j → fwmark i = fwmark j → peers i = peers j → i = j.
Proof. destruct i, j. cbn. by intros; subst. Qed.

Lemma fold_device_fields ls : ∀ i,
  proxy_listen_port (foldl apply_device_line i ls) = proxy_listen_port i ∧
  Some (fwmark (foldl apply_device_line i ls)) = match last (omap dl_fwmark ls) with Some m => Some m | None => Some (fwmark i) end.
Proof.
  intros i. split; [|apply (fold_field apply_device_line (λ i, Some (fwmark i)) dl_fwmark); intros s l; destruct l; try done; cbn; by case_bool_decide].
  revert i. induction ls as [|l ls IH]; intros i; [done|]. cbn [foldl]. rewrite IH. destruct l; try done. cbn. by case_bool_decide.
Qed.

Lemma read_document_get t d : document_ok t → describes t d →
  read_document t = mkResponse (text_errno t) (Some (no_zero_port (interface_from_get unix_time d))).
Proof.
  intros (Hok & _) [Hk Hp Hf Hps]. unfold read_document. f_equal.
  assert (existsb initialises (device_lines t) = true) as ->.
  { apply existsb_exists. destruct (decide (Exists (λ l, is_Some (dl_listen_port l)) (device_lines t))) as [He|He].
    - apply Exists_exists in He as (l & Hin & Hl). exists l. split; [by apply list_elem_of_In|]. destruct l; try done; by destruct Hl.
    - exfalso. assert (∃ x, x ∈ omap dl_listen_port (device_lines t)) as [x Hx] by (rewrite Hp; exists (get_listen_port d); by left).
      apply list_elem_of_omap in Hx as (l & Hin & Hl). apply He, Exists_exists. exists l. by rewrite Hl. }
  cbn [orb]. f_equal. set (h := λ n : Z, if bool_decide (0 < n)%Z then Some n else None).
  destruct (fold_device_fields (device_lines t) interface_default) as [Hproxy Hfw].
  apply Interface_eq; cbn [set_peers no_zero_port interface_from_get private_key listen_port proxy_listen_port fwmark peers].
  - rewrite (fold_field apply_device_line private_key (λ l, secret_key_new <$> dl_private_key l)).
    2:{ intros s l. destruct l; try done. cbn. by case_bool_decide. }
    rewrite (omap_omap dl_private_key (λ k, Some (secret_key_new k))), Hk. by destruct (get_private_key d).
  - rewrite (fold_field apply_device_line listen_port (λ l, n ← dl_listen_port l; h n)).
    2:{ intros s l. destruct l; try done. cbn. unfold h. by case_bool_decide. }
    rewrite omap_omap, Hp. csimpl. unfold h.
    assert (0 <= get_listen_port d)%Z as Hpos.
    { assert (get_listen_port d ∈ omap dl_listen_port (device_lines t)) as (l & Hin & Hl)%list_elem_of_omap by (rewrite Hp; by left).
      rewrite Forall_forall in Hok. specialize (Hok l Hin). destruct l; simplify_eq/=. unfold is_uint in Hok. lia. }
    case_bool_decide; destruct (Z.eqb_spec (get_listen_port d) 0); try done; lia.
  - exact Hproxy.
  - destruct Hf as [E|[E ->]]; rewrite E in Hfw; cbn in Hfw; by injection Hfw.
  - revert Hps. generalize (∅ : gmap PublicKey Peer) as m. generalize (get_peers d), (peer_blocks t).
    intros l l'. revert l. induction l' as [|b bs IH]; intros l m Hps; inversion Hps as [|? p ? ps Hb Hbs]; subst; [done|].
    cbn [foldl]. unfold insert_block at 2. rewrite (read_block_get b p Hb), (dp_key _ _ Hb). by apply IH.
Qed.

(** C15: The text protocol and netlink agree: from any document of the protocol that
    describes a device, whatever the order of its lines and with whatever lines that
    are unknown here, the parser reads the error number of the document and,
    whatever that is, the interface that the conversion from the netlink
    structures gives for the device, but for a port of zero, which the parser
    takes as none. *)
Theorem uapi_text_reads_device t d : document_ok t → describes t d →
  response_from_str unix_time (print_document t) =
    Some (Returns (Ok (mkResponse (text_errno t) (Some (no_zero_port (interface_from_get unix_time d)))))).
Proof. intros Hok Hd. by rewrite response_read, (read_document_get t d) by done. Qed.
End documents.

(** No answer, as from wireguard-go with a null pointer, counts as success. *)
Lemma no_answer_is_success `{IpNets} `{TextCodecs} `{!UapiTexts} unix_time :
  response_from_str unix_time [] = Some (Returns (Ok (mkResponse 0 None))).
Proof. done. Qed.

(** A response that is printed and read again has no error any more. *)
Lemma printed_error_is_lost `{IpNets} `{TextCodecs} `{!UapiTexts} unix_time e : (- 2 ^ 31 <= e < 2 ^ 31)%Z →
  response_from_str unix_time (response_text (mkResponse e None)) = Some (Returns (Ok (mkResponse 0 None))).
Proof.
  intros He. unfold response_text. cbn [errno]. destruct (e =? 0)%Z; [done|].
  assert (one_line (print_i32 e)) as Hl.
  { unfold print_i32. destruct (Z.ltb_spec e 0); [apply one_line_cons; split; [done|]|]; apply one_line_number; lia. }
  change (str "error=" ++ print_i32 e ++ [newline]) with (uapi_line (str "error") (print_i32 e)).
  destruct (read_uapi_line (str "error") (print_i32 e) []) as (Hr & Hne & Hs);
    [apply (bool_decide_unpack _); vm_compute; reflexivity|done|apply (bool_decide_unpack _); vm_compute; reflexivity|].
  rewrite app_nil_r in Hr. unfold response_from_str. rewrite Hr. cbn [lines_of length response_loop].
  rewrite decide_False by done. rewrite Hs. repeat (rewrite decide_False by (vm_compute; discriminate)).
  unfold interface_line. repeat (rewrite decide_False by (vm_compute; discriminate)). done.
Qed.

(** ** The Linux adapter drives the device of the kernel *)

(** The documented effect of the settings of a peer ([linux/wireguard.h]) *)
Definition netlink_peer (np : NlPeer) (o : option DevPeer) : option DevPeer :=
  if bool_decide (RemoveMe ∈ nl_flags np) then None
  else if bool_decide (UpdateOnly ∈ nl_flags np ∧ o = None) then None
  else
    let d := default (mkDevPeer None 0 None ∅) o in
    Some (mkDevPeer
      (match nl_endpoint np with Some e => Some e | None => dev_endpoint d end)
      (default (dev_keepalive d) (nl_keepalive np))
      (match nl_preshared_key np with
       | Some k => if bool_decide (k = replicate KEY_SIZE 0%Z) then None else Some k
       | None => dev_psk d
       end)
      ((if bool_decide (ReplaceAllowedIps ∈ nl_flags np) then ∅ else dev_allowed_ips d) ∪
       list_to_set ((λ a, (a.1, default (addr_bits a.1) a.2)) <$> nl_allowed_ips np))).

Definition netlink_set (nd : NlDevice) (k : PublicKey) (o : option DevPeer) : option DevPeer :=
  fold_left (λ o np, if bool_decide (nl_public_key np = key_bytes k) then netlink_peer np o else o) (nl_peers nd) o.

Lemma nl_flags_of sp :
  (RemoveMe ∈ nl_flags (nl_peer_of sp) ↔ set_remove sp = Some true) ∧
  (UpdateOnly ∈ nl_flags (nl_peer_of sp) ↔ set_update_only sp = Some true) ∧
  (ReplaceAllowedIps ∈ nl_flags (nl_peer_of sp) ↔ set_replace_allowed_ips sp = Some true).
Proof. cbn. repeat case_bool_decide; cbn; rewrite ?elem_of_cons, ?elem_of_nil; naive_solver. Qed.

Lemma netlink_peer_of sp o : netlink_peer (nl_peer_of sp) o = xplatform_peer sp o.
Proof.
  destruct (nl_flags_of sp) as (H1' & H2' & H3'). unfold netlink_peer, xplatform_peer.
  rewrite (bool_decide_ext _ _ H1'), 
    (bool_decide_ext (UpdateOnly ∈ nl_flags (nl_peer_of sp) ∧ o = None) (set_update_only sp = Some true ∧ o = None)) by (by rewrite H2').
  rewrite (bool_decide_ext _ _ H3'). unfold nets_of. cbn [nl_endpoint nl_keepalive nl_preshared_key nl_allowed_ips nl_peer_of].
  rewrite <-list_fmap_compose. done.
Qed.

(** The netlink command that the adapter builds has the effect of the command. *)
Lemma netlink_set_of sd k o : netlink_set (nl_device_of sd) k o = xplatform_set sd k o.
Proof.
  unfold netlink_set, xplatform_set. cbn [nl_peers nl_device_of]. generalize (set_dev_peers sd) as l. intros l. revert o.
  induction l as [|sp l IH]; intros o; [done|]. csimpl. cbn [nl_public_key nl_peer_of] in *. by rewrite netlink_peer_of, IH.
Qed.

(** A kernel that does what is documented *)
Class NetlinkDevice (D : Type) `{!WgSocket D} := {
  nl_state : D → gmap PublicKey DevPeer;
  nl_set sd d d' : set_device (nl_device_of sd) d = (true, d') → no_overlap sd (nl_state d) →
    ∀ k, nl_state d' !! k = netlink_set (nl_device_of sd) k (nl_state d !! k)
}.

(** So the adapter is one that [WgDevice.push_programs_device] is about. *)
#[export] Instance linux_xplatform `{IpNets} `{NetlinkDevice D} : XplatformAdapter D.
Proof.
  refine {| dev_peers := nl_state |}. intros sd d r d' Hs Hr Hno k. cbn in Hs. unfold set_wg_data in Hs.
  destruct (set_device (nl_device_of sd) d) as [ok d1] eqn:Ed. destruct ok; simplify_eq/=. by rewrite (nl_set sd d d' Ed Hno), netlink_set_of.
Defined.

Module UapiSamples.

#[local] Existing Instance AddrPrefix.nets.
#[local] Existing Instance Rfc4648.codecs.
#[local] Existing Instance Rfc4648.codecs_laws.

(** A network as the digits of a number that stands for it *)
#[local] Instance ip_countable : Countable StdIpAddr :=
  inj_countable' (λ a, match a with V4 x => inl x | V6 x => inr x end) (λ s, match s with inl x => V4 x | inr x => V6 x end)
    ltac:(by intros []).

Fixpoint bits_text (p : positive) : text :=
  match p with xH => [] | xO p => from_digit 0 :: bits_text p | xI p => from_digit 1 :: bits_text p end.
Fixpoint text_bits (t : text) : positive :=
  match t with [] => xH | c :: t => if decide (c = from_digit 0) then xO (text_bits t) else xI (text_bits t) end.

Definition net_text (n : AddrPrefix.Net) : text := bits_text (encode (AddrPrefix.addr n, AddrPrefix.prefix n)).
Definition net_parse (t : text) : option AddrPrefix.Net :=
  (λ p, AddrPrefix.mkNet p.1 p.2) <$> (decode (text_bits t) : option (StdIpAddr * Z)).

#[local] Instance bit_texts : UapiTexts := {| set_device_text _ := []; ipnet_parse := net_parse |}.

Lemma text_bits_text p : text_bits (bits_text p) = p.
Proof. induction p as [p IH|p IH|]; cbn [bits_text text_bits]; [rewrite decide_False by done; by rewrite IH|by rewrite decide_True, IH|done]. Qed.

#[local] Instance bit_texts_laws : UapiTextsLaws.
Proof.
  refine {| ipnet_text := net_text |}.
  - intros [a p]. cbn. unfold net_parse, net_text. rewrite text_bits_text, decode_encode. done.
  - intros [a p]. unfold net_text. cbn. generalize (encode (a, p)). induction p0 as [q IH|q IH|]; cbn [bits_text];
      [by apply one_line_cons|by apply one_line_cons|by intros ?%elem_of_nil].
  - assert (∀ x, Rfc4648.symbol Rfc4648.hex_alphabet x ≠ newline) as Hs.
    { intros x. unfold Rfc4648.symbol. destruct (Rfc4648.hex_alphabet !! Z.to_nat x) as [c|] eqn:E; [|done].
      apply list_elem_of_lookup_2 in E. cbn [from_option]. unfold id. intros ->. revert E. apply (bool_decide_unpack _). vm_compute. reflexivity. }
    cbn. induction b as [|x b IH]; cbn [Rfc4648.hex_enc]; [by intros ?%elem_of_nil|]. apply one_line_cons. split; [apply Hs|].
    apply one_line_cons. split; [apply Hs|done].
Defined.

Definition key0 : bytes := replicate 32 7%Z.
Definition device0 : GetDevice :=
  mkGetDevice None 0 0
    [mkGetPeer key0 (replicate 32 0%Z) (Some (SocketAddrV4 (ipv4_addr 10 0 0 1) 51820)) 25 (from_secs 3 + 5) 100 200
       [mkAllowedIp (V4 (ipv4_addr 100 64 0 1)) 32]].

(** With a line that is not known, and the seconds after the nanoseconds *)
Definition document0 : GetText :=
  mkGetText [DlOther (str "own_public_key") (str "x"); DlListenPort 0]
    [(key0, [PlHandshakeNsec 5; PlRxBytes 100; PlAllowedIp (AddrPrefix.mkNet (V4 (ipv4_addr 100 64 0 1)) 32); PlKeepalive 25;
             PlHandshakeSec 3; PlEndpoint (SocketAddrV4 (ipv4_addr 10 0 0 1) 51820); PlTxBytes 200])] 0.

Lemma uapi_text_reads_device_witness :
  response_from_str (Some (from_secs 10)) (print_document document0) =
    Some (Returns (Ok (mkResponse 0 (Some (no_zero_port (interface_from_get (Some (from_secs 10)) device0)))))).
Proof.
  apply (uapi_text_reads_device (Some (from_secs 10)) document0 device0).
  - split_and!; [|constructor; [|constructor]; split_and!|vm_compute; done|vm_compute; done].
    + repeat constructor; cbn; try (split; [lia|vm_compute; reflexivity]); apply (bool_decide_unpack _); vm_compute; reflexivity.
    + split; [done|]. apply Forall_replicate. unfold is_uint. lia.
    + repeat constructor; cbn; try (unfold is_uint; lia); vm_compute; done.
    + vm_compute. reflexivity.
  - constructor; [done|done|by right|]. constructor; [|constructor]. constructor; try done. by right.
Defined.
End UapiSamples.
