(* ===== verification/SessionKeeper.v ===== *)
(** * [telio-traversal]: the session keeper ([session_keeper.rs]), with the repeated
    actions of [telio-utils] ([repeated_actions.rs], [interval.rs])

    The session keeper pings every node that it was given, each at its interval.
    The state of its task is the map of the repeated actions; the action of a node is
    a ping of its addresses, so the map has the addresses in place of the closure.
    The intervals of tokio are the instant of the next tick and the period.

    The loop of the task waits for any of the ticks: a step [KeeperTick k] is the
    tick of one node whose instant has come, and when several have, any of them can
    be the first ([FuturesUnordered]). *)

From S2P Require Import Prelude NetTypes WgTypes.

(** ** [interval.rs] and the intervals of tokio *)

Record TickInterval := mkTickInterval { next_tick : Instant; tick_period : Duration }.

(** [interval_at], which panics without a period, and [interval] *)
Definition interval_at (start : Instant) (period : Duration) : outcome TickInterval :=
  if bool_decide (period = 0%Z) then Panics else Returns (mkTickInterval start period).
Definition interval_now (now : Instant) (period : Duration) : outcome TickInterval := interval_at now period.

(** [Interval::reset_immediately] *)
Definition reset_immediately (now : Instant) (i : TickInterval) : TickInterval := mkTickInterval now (tick_period i).

(** A tick at [now]; one that is more than five milliseconds late delays the next
    ones ([MissedTickBehavior::Delay]) *)
Definition TICK_TOLERANCE : Duration := 5000000.
Definition tick (now : Instant) (i : TickInterval) : TickInterval :=
  mkTickInterval
    (if bool_decide (next_tick i + TICK_TOLERANCE < now)%Z then now + tick_period i else next_tick i + tick_period i)%Z
    (tick_period i).

(** ** [RepeatedActions] *)

Inductive RepeatedActionError := DuplicateRepeatedAction | RepeatedActionNotFound | ListEmpty.

Abbreviation RepeatedActions K A := (gmap K (TickInterval * A)).

Section actions.
Context {K A : Type} `{Countable K}.
Implicit Types s : RepeatedActions K A.

Definition set_all_immediate (now : Instant) s : RepeatedActions K A := (λ v, (reset_immediately now v.1, v.2)) <$> s.

Definition add_action (now : Instant) (key : K) (dur : Duration) (action : A) s
    : outcome (result RepeatedActionError unit * RepeatedActions K A) :=
  match s !! key with
  | None =>
      match interval_now now dur with
      | Returns i => Returns (Ok tt, <[key := (i, action)]> s)
      | Panics => Panics
      end
  | Some _ => Returns (Err DuplicateRepeatedAction, s)
  end.

Definition remove_action (key : K) s : result RepeatedActionError unit * RepeatedActions K A :=
  match s !! key with
  | Some _ => (Ok tt, delete key s)
  | None => (Err RepeatedActionNotFound, s)
  end.

Definition update_interval (now : Instant) (key : K) (dur : Duration) s : outcome (result RepeatedActionError unit * RepeatedActions K A) :=
  match s !! key with
  | Some a =>
      match interval_at (now + dur)%Z dur with
      | Returns i => Returns (Ok tt, <[key := (i, a.2)]> s)
      | Panics => Panics
      end
  | None => Returns (Err RepeatedActionNotFound, s)
  end.

Definition contains_action (key : K) s : bool := bool_decide (is_Some (s !! key)).

(** Whether [select_action] can give the action of [key] *)
Definition action_due (now : Instant) (key : K) s : bool :=
  match s !! key with Some (i, _) => (next_tick i <=? now)%Z | None => false end.

(** [select_action], when it gives the action of [key] *)
Definition select_action (now : Instant) (key : K) s : result RepeatedActionError (K * A) * RepeatedActions K A :=
  if bool_decide (s = ∅) then (Err ListEmpty, s)
  else
    match s !! key with
    | Some (i, a) => (Ok (key, a), <[key := (tick now i, a)]> s)
    | None => (Err RepeatedActionNotFound, s)
    end.

(** [get_interval]: the seconds of the period, if they fit in 32 bits *)
Definition get_interval (key : K) s : option Z :=
  match s !! key with
  | Some (i, _) =>
      let secs := (tick_period i / 1000000000)%Z in if bool_decide (secs < 2 ^ 32)%Z then Some secs else None
  | None => None
  end.
End actions.

(** ** [SessionKeeper] *)

(** A ping that was handed to a socket, and whether it could be sent *)
Record KeeperPing := mkKeeperPing { ping_at : Instant; ping_node : PublicKey; ping_addr : StdIpAddr; ping_sent : bool }.

(** What the sockets do with a ping *)
Definition IcmpSockets : Type := StdIpAddr → bool.

(** [ping]: the second address is tried if the first one fails *)
Definition keeper_ping (now : Instant) (sockets : IcmpSockets) (k : PublicKey) (t : DualTarget) : list KeeperPing :=
  match get_targets t with
  | Ok (primary, secondary) =>
      let first := mkKeeperPing now k primary (sockets primary) in
      if sockets primary then [first]
      else match secondary with Some second => [first; mkKeeperPing now k second (sockets second)] | None => [first] end
  | Err _ => []
  end.

Record SessionKeeper := mkSessionKeeper { batch_all : bool; keeper_actions : RepeatedActions PublicKey DualTarget }.

Definition session_keeper_start (batch : bool) : SessionKeeper := mkSessionKeeper batch ∅.

Inductive KeeperError := KeeperDualTargetError | KeeperActionError (e : RepeatedActionError).

(** [add_node] *)
Definition keeper_add_node (now : Instant) (public_key : PublicKey) (target : Target) (interval : Duration) (s : SessionKeeper)
    : outcome (result KeeperError unit * SessionKeeper) :=
  match dual_target_new target with
  | Err _ => Returns (Err KeeperDualTargetError, s)
  | Ok dual_target =>
      let actions := keeper_actions s in
      let actions := if contains_action public_key actions then (remove_action public_key actions).2 else actions in
      let actions := if batch_all s then set_all_immediate now actions else actions in
      match add_action now public_key interval dual_target actions with
      | Returns (r, actions) =>
          Returns (match r with Ok _ => Ok tt | Err e => Err (KeeperActionError e) end, mkSessionKeeper (batch_all s) actions)
      | Panics => Panics
      end
  end.

(** [remove_node] and [get_interval] *)
Definition keeper_remove_node (key : PublicKey) (s : SessionKeeper) : SessionKeeper :=
  mkSessionKeeper (batch_all s) (remove_action key (keeper_actions s)).2.
Definition keeper_get_interval (key : PublicKey) (s : SessionKeeper) : option Z := get_interval key (keeper_actions s).

(** ** The task *)

Inductive KeeperInput :=
| KeeperAdd (public_key : PublicKey) (target : Target) (interval : Duration)
| KeeperRemove (key : PublicKey)
| KeeperTick (key : PublicKey) (sockets : IcmpSockets).

Definition keeper_enabled (now : Instant) (i : KeeperInput) (s : SessionKeeper) : bool :=
  match i with KeeperTick k _ => action_due now k (keeper_actions s) | _ => true end.

(** [wait_with_update]: the pings it sends are added to the log *)
Definition keeper_step (now : Instant) (i : KeeperInput) (s : SessionKeeper) (log : list KeeperPing)
    : outcome (SessionKeeper * list KeeperPing) :=
  match i with
  | KeeperAdd k target interval =>
      match keeper_add_node now k target interval s with Returns (_, s) => Returns (s, log) | Panics => Panics end
  | KeeperRemove k => Returns (keeper_remove_node k s, log)
  | KeeperTick k sockets =>
      match select_action now k (keeper_actions s) with
      | (Ok (k, t), actions) => Returns (mkSessionKeeper (batch_all s) actions, log ++ keeper_ping now sockets k t)
      | (Err _, actions) => Returns (mkSessionKeeper (batch_all s) actions, log)
      end
  end.

(** ** What the session keeper promises

    For each node, what was asked for and since when: it is to be pinged one
    interval after the last ping, or at once if it is new or was hurried by a
    batch. *)
Record Kept := mkKept { kept_target : DualTarget; kept_interval : Duration; kept_since : Instant; kept_pinged : bool }.

Definition hurry (now : Instant) (x : Kept) : Kept := mkKept (kept_target x) (kept_interval x) now false.

Definition observe_keeper (batch : bool) (now : Instant) (i : KeeperInput) (g : gmap PublicKey Kept) : gmap PublicKey Kept :=
  match i with
  | KeeperAdd k target interval =>
      match dual_target_new target with
      | Ok t => <[k := mkKept t interval now false]> ((if batch then hurry now <$> g else g))
      | Err _ => g
      end
  | KeeperRemove k => delete k g
  | KeeperTick k _ => alter (λ x, mkKept (kept_target x) (kept_interval x) now true) k g
  end.

Inductive keeper_history (batch : bool) : Instant → gmap PublicKey Kept → SessionKeeper → list KeeperPing → Prop :=
| Keeper_start now : keeper_history batch now ∅ (session_keeper_start batch) []
| Keeper_step now g s log now' i s' log' :
    keeper_history batch now g s log → (now <= now')%Z → keeper_enabled now' i s = true →
    keeper_step now' i s log = Returns (s', log') → keeper_history batch now' (observe_keeper batch now' i g) s' log'.

(** A node is due from here on, and not before there. *)
Definition due_at (x : Kept) : Instant := if kept_pinged x then (kept_since x + kept_interval x)%Z else kept_since x.
Definition not_before (x : Kept) : Instant := if kept_pinged x then (kept_since x + kept_interval x - TICK_TOLERANCE)%Z else kept_since x.

Definition kept_ok (v : TickInterval * DualTarget) (x : Kept) : Prop :=
  v.2 = kept_target x ∧ tick_period v.1 = kept_interval x ∧ (not_before x <= next_tick v.1 <= due_at x)%Z ∧
  ∃ t, dual_target_new t = Ok (kept_target x).

Lemma tick_ok now v x : kept_ok v x → (next_tick v.1 <= now)%Z →
  kept_ok (tick now v.1, v.2) (mkKept (kept_target x) (kept_interval x) now true).
Proof.
  intros (Ht & Hp & Hn & He) Hd. unfold kept_ok, tick, due_at, not_before in *. cbn. rewrite Ht, Hp.
  split_and!; [done..| | |done]; case_bool_decide; unfold TICK_TOLERANCE in *; lia.
Qed.

Lemma hurry_ok now v x : kept_ok v x → kept_ok (reset_immediately now v.1, v.2) (hurry now x).
Proof. intros (Ht & Hp & _ & He). unfold kept_ok, due_at, not_before. cbn. split_and!; try done; lia. Qed.

(** The actions are the nodes. *)
Definition keeps (s : SessionKeeper) (g : gmap PublicKey Kept) : Prop := ∀ k, option_Forall2 kept_ok (keeper_actions s !! k) (g !! k).

Lemma keeps_add now k target interval s g log s' log' : keeps s g →
  keeper_step now (KeeperAdd k target interval) s log = Returns (s', log') →
  keeps s' (observe_keeper (batch_all s) now (KeeperAdd k target interval) g).
Proof.
  intros Hk Hs. cbn in Hs. unfold keeper_add_node in Hs. cbn [observe_keeper].
  destruct (dual_target_new target) as [t|] eqn:Et; [|by simplify_eq].
  set (a1 := if contains_action k (keeper_actions s) then _ else _) in Hs.
  assert (a1 = delete k (keeper_actions s)) as Ha1.
  { unfold a1, contains_action, remove_action. destruct (keeper_actions s !! k) eqn:E; [done|].
    rewrite bool_decide_eq_false_2 by (by intros [? ?]). symmetry. by apply delete_id. }
  set (a2 := if batch_all s then set_all_immediate now a1 else a1) in Hs.
  assert (a2 !! k = None) as Hnone.
  { unfold a2, set_all_immediate. rewrite Ha1. destruct (batch_all s); [rewrite lookup_fmap|]; by rewrite lookup_delete_eq. }
  unfold add_action in Hs. rewrite Hnone in Hs. unfold interval_now, interval_at in Hs.
  destruct (bool_decide (interval = 0%Z)); simplify_eq. intros k'. cbn [keeper_actions].
  destruct (decide (k' = k)) as [->|Hne].
  - rewrite !lookup_insert_eq. constructor. unfold kept_ok, due_at, not_before. cbn. split_and!; [done|done|lia|lia|by exists target].
  - rewrite !lookup_insert_ne by done. unfold a2, set_all_immediate. rewrite Ha1. specialize (Hk k').
    destruct (batch_all s); rewrite ?lookup_fmap, ?lookup_delete_ne by done; [|done].
    destruct Hk as [v x Hv|]; constructor. by apply hurry_ok.
Qed.

Lemma keeps_step now i s g log s' log' : keeps s g → keeper_enabled now i s = true →
  keeper_step now i s log = Returns (s', log') → keeps s' (observe_keeper (batch_all s) now i g) ∧ batch_all s' = batch_all s.
Proof.
  intros Hk Hen Hs. split.
  - destruct i as [k target interval|k|k sockets]; [by eapply keeps_add| |].
    + cbn in Hs. simplify_eq. intros k'. cbn [keeper_remove_node keeper_actions observe_keeper].
      assert ((remove_action k (keeper_actions s)).2 = delete k (keeper_actions s)) as ->.
      { unfold remove_action. destruct (keeper_actions s !! k) eqn:E; [done|]. symmetry. by apply delete_id. }
      destruct (decide (k' = k)) as [->|Hne]; [rewrite !lookup_delete_eq; constructor|]. by rewrite !lookup_delete_ne.
    + cbn [keeper_step keeper_enabled observe_keeper] in *. unfold select_action, action_due in *.
      destruct (keeper_actions s !! k) as [[i t]|] eqn:E; [|done]. apply Z.leb_le in Hen.
      rewrite bool_decide_eq_false_2 in Hs by (intros Hx; by rewrite Hx, lookup_empty in E). simplify_eq.
      intros k'. cbn [keeper_actions]. destruct (decide (k' = k)) as [->|Hne].
      * rewrite lookup_insert_eq, lookup_alter_eq. specialize (Hk k). rewrite E in Hk.
        inversion Hk as [v x Hv E1 E2|]; subst. constructor. by apply (tick_ok now (i, t)).
      * rewrite lookup_insert_ne, lookup_alter_ne by done. apply Hk.
  - destruct i as [k target interval|k|k sockets]; cbn in Hs; [unfold keeper_add_node in Hs; by repeat case_match; simplify_eq|by simplify_eq|].
    by repeat case_match; simplify_eq.
Qed.

Lemma keeper_history_keeps batch now g s log : keeper_history batch now g s log → keeps s g ∧ batch_all s = batch.
Proof.
  induction 1 as [now|now g s log now' i s' log' Hh [IHk IHb] Hle Hen Hs].
  - split; [|done]. intros k. cbn. rewrite !lookup_empty. constructor.
  - destruct (keeps_step now' i s g log s' log' IHk Hen Hs) as [Hk Hb]. split; [by rewrite <-IHb|congruence].
Qed.

(** C33: The session keeper serves its nodes: in every history without a panic, the
    interval it answers for a node is the one last asked for, in whole seconds (none
    when there is no such node or the number does not fit 32 bits). A node that was
    added since its last ping, or that in batch mode was hurried because any node was
    added, can be ticked from that moment on and not before; any other node from one
    interval after its last ping on and not more than five milliseconds earlier; and
    nothing else is ticked. The tick pings the addresses last given, first the primary
    one and, if that fails, the other. *)
Theorem keeper_serves_nodes batch now g s log k sockets now' : keeper_history batch now g s log →
  keeper_get_interval k s =
    (x ← g !! k; let secs := (kept_interval x / 1000000000)%Z in if bool_decide (secs < 2 ^ 32)%Z then Some secs else None) ∧
  (∀ x, g !! k = Some x → (due_at x <= now')%Z → keeper_enabled now' (KeeperTick k sockets) s = true) ∧
  (keeper_enabled now' (KeeperTick k sockets) s = true →
    ∃ x primary secondary s', g !! k = Some x ∧ (not_before x <= now')%Z ∧ get_targets (kept_target x) = Ok (primary, secondary) ∧
      keeper_step now' (KeeperTick k sockets) s log =
        Returns (s', log ++ mkKeeperPing now' k primary (sockets primary) ::
          match sockets primary, secondary with false, Some a => [mkKeeperPing now' k a (sockets a)] | _, _ => [] end)).
Proof.
  intros Hh. destruct (keeper_history_keeps batch now g s log Hh) as [Hk _]. specialize (Hk k).
  unfold keeper_get_interval, get_interval. cbn [keeper_enabled keeper_step]. unfold action_due, select_action.
  destruct (keeper_actions s !! k) as [[i t]|] eqn:E; inversion Hk as [v x Hv E1 E2|E1 E2]; subst;
    [|split; [done|split; [by intros x' [=]|done]]].
  destruct Hv as (Ht & Hp & [Hn1 Hn2] & [t0 Ht0]). cbn [fst snd] in *. split; [cbn; by rewrite Hp|]. split.
  { intros x' [= <-] Hd. apply Z.leb_le. lia. }
  intros Hen. apply Z.leb_le in Hen. subst t. rewrite bool_decide_eq_false_2 by (intros Hx; by rewrite Hx, lookup_empty in E).
  assert (∃ primary secondary, get_targets (kept_target x) = Ok (primary, secondary)) as (primary & secondary & Hg).
  { destruct t0 as [[a|] [b|]]; simplify_eq/=; unfold get_targets; rewrite <-Ht0; cbn; by eexists _, _. }
  exists x, primary, secondary. eexists. split; [done|]. split; [lia|]. split; [done|]. unfold keeper_ping. rewrite Hg.
  by destruct (sockets primary), secondary.
Qed.

(** An interval of zero seconds takes the task down. *)
Lemma zero_interval_panics now k t ip s log : dual_target_new t = Ok ip →
  keeper_step now (KeeperAdd k t 0) s log = Panics.
Proof.
  intros Ht. cbn. unfold keeper_add_node. rewrite Ht. unfold add_action.
  set (a1 := if contains_action k (keeper_actions s) then _ else _).
  assert (a1 !! k = None) as Hn.
  { unfold a1, contains_action, remove_action. destruct (keeper_actions s !! k) eqn:E.
    { rewrite bool_decide_eq_true_2 by done. apply lookup_delete_eq. }
   
    by rewrite bool_decide_eq_false_2 by (by intros [? ?]). }
  assert ((if batch_all s then set_all_immediate now a1 else a1) !! k = None) as ->; [|done].
  unfold set_all_immediate. destruct (batch_all s); [by rewrite lookup_fmap, Hn|done].
Qed.

Module KeeperSamples.
Definition node0 : PublicKey := mkPublicKey (replicate 32 1%Z).
Definition target0 : Target := (Some (ipv4_addr 10 0 0 1), Some 1%Z).

Lemma keeper_serves_nodes_witness : ∃ g s s',
  keeper_history true (from_secs 10) g s [] ∧
  keeper_get_interval node0 s = Some 25%Z ∧
  keeper_step (from_secs 10) (KeeperTick node0 (λ a, negb (bool_decide (a = V6 1)))) s [] =
    Returns (s', [mkKeeperPing (from_secs 10) node0 (V6 1) false; mkKeeperPing (from_secs 10) node0 (V4 (ipv4_addr 10 0 0 1)) true]).
Proof.
  assert (∃ s, keeper_history true (from_secs 10)
    (observe_keeper true (from_secs 10) (KeeperAdd node0 target0 (from_secs 25)) ∅) s []) as [s Hh].
  { eexists. eapply Keeper_step; [apply (Keeper_start true 0)|vm_compute; done|reflexivity|reflexivity]. }
  destruct (keeper_serves_nodes true (from_secs 10) _ s [] node0 (λ a, negb (bool_decide (a = V6 1))) (from_secs 10) Hh) as (Hi & Hen & Hp).
  destruct Hp as (x & primary & secondary & s' & Hx & _ & Hg & Hs).
  { eapply Hen; [reflexivity|vm_compute; done]. }
  eexists _, s, s'. split; [exact Hh|]. split; [exact Hi|]. rewrite Hs.
  injection Hx as <-. cbn in Hg. injection Hg as <- <-. reflexivity.
Defined.
End KeeperSamples.
