(* ===== verification/Proxy.v ===== *)
(** * [telio-proxy]: the UDP proxy between WireGuard and the relay ([proxy.rs])

    For every peer that is reached through the relay, the proxy has a socket on the
    local host; WireGuard takes its address as the endpoint of the peer.  The task
    [StateIngress] reads the sockets and hands the data to the relay; the task
    [StateEgress] sends the data of the relay to WireGuard from the socket of the
    peer, and replaces a socket that is broken.

    A socket is a number; the pool gives each new one the next number, if it can be
    opened at all ([opens]).  The two tasks run side by side and share a channel, on
    which the egress task tells the ingress task about replaced sockets; a step of
    [Proxy] is a step of one of them.  [configure] is two calls, one to each task, so
    it is two steps.  A call interrupts the egress task while it waits for its socket;
    the message is then lost ([SendInterrupted]). *)

From S2P Require Import Prelude NetTypes WgTypes Crypto NetText Proto Controller Backoff Device.

Definition ProxySocket : Type := nat.

(** ** Errors *)

(** [io::ErrorKind], as far as it is told apart *)
Inductive ErrorKind :=
| PermissionDenied | InvalidInput | InvalidData
| ConnectionRefused | ConnectionReset | ConnectionAborted | TimedOut | WriteZero | AddrNotAvailable
| BrokenPipe
| NotConnected
| OtherKind.

#[export] Instance ErrorKind_eq_dec : EqDecision ErrorKind.
Proof. solve_decision. Defined.

Inductive ErrorType := RecoverableError | UnrecoverableError | SocketIOError.

(** [From<io::Error> for ErrorType] *)
Definition error_type_of (kind : ErrorKind) : ErrorType :=
  match kind with
  | PermissionDenied | InvalidInput | InvalidData => SocketIOError
  | ConnectionRefused | ConnectionReset | ConnectionAborted | TimedOut | WriteZero | AddrNotAvailable => RecoverableError
  | BrokenPipe => UnrecoverableError
  | NotConnected | OtherKind => RecoverableError
  end.

Inductive ProxyError := ProxyIoError | PeerNotFound.

(** ** State *)

Record StateIngress := mkStateIngress { in_sockets : gmap PublicKey ProxySocket }.

(** [asleep] is the task that waits in [sleep_forever] after an error *)
Record StateEgress := mkStateEgress {
  out_sockets : gmap PublicKey (ProxySocket * option Instant);
  wg_addr : option SocketAddr;
  conn_state : result ErrorKind unit;
  peer_socket_backoffs : gmap PublicKey (ExponentialBackoff * Instant);
  replaced_sockets : gmap PublicKey (list SocketAddr);
  asleep : bool
}.

(** What the proxy does: it opens a socket for a peer, sends a datagram from a socket
    to WireGuard, and gives data of a peer to the relay *)
Inductive ProxyOut :=
| Opened (socket : ProxySocket) (pk : PublicKey)
| ToWg (socket : ProxySocket) (payload : bytes) (addr : SocketAddr)
| ToRelay (pk : PublicKey) (msg : DataMsg).

(** The proxy: the two tasks, the channel between them and the next socket *)
Record Proxy := mkProxy {
  ingress : StateIngress;
  egress : StateEgress;
  socket_updates : list (PublicKey * ProxySocket);
  next_socket : ProxySocket
}.

(** [UdpProxy::start] *)
Definition udp_proxy_start : Proxy :=
  mkProxy (mkStateIngress ∅) (mkStateEgress ∅ None (Err NotConnected) ∅ ∅ false) [] 0.

(** What the sockets do: [opens n] is whether socket number [n] can be opened,
    [local_addr] its address, if it can be asked for *)
Class ProxySockets := {
  opens : ProxySocket → bool;
  local_addr : ProxySocket → option SocketAddr
}.

Definition LOCALHOST : Z := ipv4_addr 127 0 0 1.

(** The result of [send_to] *)
Inductive SendOutcome := SendOk | SendErr (kind : ErrorKind) | SendInterrupted.

Section proxy.
Context `{ProxySockets} `{!HashOrder PublicKey}.

(** ** The ingress task *)

(** The loop of [StateIngress::configure] that opens the sockets of new peers *)
Fixpoint open_sockets (add : list PublicKey) (s : StateIngress) (next : ProxySocket)
    : result ProxyError unit * StateIngress * ProxySocket * list ProxyOut :=
  match add with
  | [] => (Ok tt, s, next, [])
  | peer :: add =>
      if opens next then
        let '(r, s, next', out) := open_sockets add (mkStateIngress (<[peer := next]> (in_sockets s))) (S next) in
        (r, s, next', Opened next peer :: out)
      else (Err ProxyIoError, s, S next, [])
  end.

(** [StateIngress::configure] *)
Definition ingress_configure (config : ProxyConfig) (s : StateIngress) (next : ProxySocket)
    : result ProxyError (gmap PublicKey ProxySocket) * StateIngress * ProxySocket * list ProxyOut :=
  let current := dom (in_sockets s) in
  let s := mkStateIngress (filter (λ x, x.1 ∈ proxy_peers config) (in_sockets s)) in
  let '(r, s, next, out) := open_sockets (hash_iter (proxy_peers config ∖ current)) s next in
  (match r with Ok _ => Ok (in_sockets s) | Err e => Err e end, s, next, out).

(** [StateIngress::wait], when the socket of [pk] has a datagram *)
Definition ingress_recv (pk : PublicKey) (data : bytes) : list ProxyOut := [ToRelay pk (data_msg_new data)].

(** [StateIngress::wait], when a replaced socket is announced *)
Definition ingress_update (pk : PublicKey) (socket : ProxySocket) (s : StateIngress) : StateIngress :=
  mkStateIngress (<[pk := socket]> (in_sockets s)).

(** ** The egress task *)

Definition set_out_sockets (m : gmap PublicKey (ProxySocket * option Instant)) (s : StateEgress) : StateEgress :=
  mkStateEgress m (wg_addr s) (conn_state s) (peer_socket_backoffs s) (replaced_sockets s) (asleep s).
Definition set_backoffs (m : gmap PublicKey (ExponentialBackoff * Instant)) (s : StateEgress) : StateEgress :=
  mkStateEgress (out_sockets s) (wg_addr s) (conn_state s) m (replaced_sockets s) (asleep s).
Definition set_conn_state (c : result ErrorKind unit) (s : StateEgress) : StateEgress :=
  mkStateEgress (out_sockets s) (wg_addr s) c (peer_socket_backoffs s) (replaced_sockets s) (asleep s).
Definition set_replaced (m : gmap PublicKey (list SocketAddr)) (s : StateEgress) : StateEgress :=
  mkStateEgress (out_sockets s) (wg_addr s) (conn_state s) (peer_socket_backoffs s) m (asleep s).
Definition set_asleep (b : bool) (s : StateEgress) : StateEgress :=
  mkStateEgress (out_sockets s) (wg_addr s) (conn_state s) (peer_socket_backoffs s) (replaced_sockets s) b.

(** [StateEgress::configure]: a peer that stays keeps its mute *)
Definition egress_configure (sockets : gmap PublicKey ProxySocket) (port : option Z) (s : StateEgress) : StateEgress :=
  let merged := map_imap (λ pk new_socket,
    match out_sockets s !! pk with
    | Some (_, mute) => Some (new_socket, mute)
    | None => Some (new_socket, None)
    end) sockets in
  mkStateEgress merged ((λ p, SocketAddrV4 LOCALHOST p) <$> port) (conn_state s) (peer_socket_backoffs s) (replaced_sockets s) (asleep s).

(** [reset_socket_limit] *)
Definition reset_socket_limit (s : StateEgress) : StateEgress := set_replaced ∅ (set_backoffs ∅ s).

(** [get_endpoints_map]: the current address and, until they were asked for, those
    of the sockets it replaced *)
Definition endpoints_entry (rs : result ProxyError (gmap PublicKey (list SocketAddr)) * StateEgress) (key : PublicKey)
    : result ProxyError (gmap PublicKey (list SocketAddr)) * StateEgress :=
  let s := rs.2 in
  match rs.1, out_sockets s !! key with
  | Ok map, Some (sock, _) =>
      let peer_endpoints := default [] (replaced_sockets s !! key) in
      let s := set_replaced (delete key (replaced_sockets s)) s in
      match local_addr sock with
      | Some addr => (Ok (<[key := addr :: peer_endpoints]> map), s)
      | None => (Err ProxyIoError, s)
      end
  | r, _ => (r, s)
  end.

Definition get_endpoints_map (s : StateEgress) : result ProxyError (gmap PublicKey (list SocketAddr)) * StateEgress :=
  foldl endpoints_entry (Ok ∅, s) (hash_iter (dom (out_sockets s))).

(** [try_mute] and [try_unmute] *)
Definition set_mute (pk : PublicKey) (mute : option Instant) (s : StateEgress) : result ProxyError unit * StateEgress :=
  match out_sockets s !! pk with
  | Some (socket, _) => (Ok tt, set_out_sockets (<[pk := (socket, mute)]> (out_sockets s)) s)
  | None => (Err PeerNotFound, s)
  end.
Definition try_mute (now : Instant) (pk : PublicKey) (dur : Duration) (s : StateEgress) : result ProxyError unit * StateEgress :=
  set_mute pk (Some (now + dur)%Z) s.
Definition try_unmute (pk : PublicKey) (s : StateEgress) : result ProxyError unit * StateEgress := set_mute pk None s.

(** The backoff of a broken socket, which [new] accepts *)
Definition socket_backoff_bounds : ExponentialBackoffBounds := mkExponentialBackoffBounds (from_secs 1) (Some (from_secs 30)).
Definition socket_backoff : ExponentialBackoff := mkExponentialBackoff socket_backoff_bounds (from_secs 1).

Lemma socket_backoff_new : exponential_backoff_new socket_backoff_bounds = Ok socket_backoff.
Proof. reflexivity. Qed.

(** [handle_error] *)
Definition handle_error (now : Instant) (kind : ErrorKind) (pk : PublicKey) (s : StateEgress) : StateEgress :=
  let s := set_conn_state (Err kind) s in
  match error_type_of kind with
  | RecoverableError => s
  | UnrecoverableError => set_asleep true s
  | SocketIOError =>
      match peer_socket_backoffs s !! pk with
      | Some _ => s
      | None =>
          let backoff := socket_backoff in
          set_backoffs (<[pk := (backoff, now + get_backoff backoff)%Z]> (peer_socket_backoffs s)) s
      end
  end.

(** [send_outbound_data] *)
Definition send_outbound_data (now : Instant) (pk : PublicKey) (msg : DataMsg) (sent : SendOutcome) (s : StateEgress)
    : StateEgress * list ProxyOut :=
  match out_sockets s !! pk, wg_addr s with
  | Some (socket, None), Some addr =>
      match sent with
      | SendOk =>
          (set_backoffs (delete pk (peer_socket_backoffs s)) (set_conn_state (Ok tt) s), [ToWg socket (get_payload msg) addr])
      | SendErr kind => (handle_error now kind pk s, [])
      | SendInterrupted => (s, [])
      end
  | _, _ => (handle_error now AddrNotAvailable pk s, [])
  end.

(** [replace_socket] *)
Definition replace_socket (now : Instant) (pk : PublicKey) (p : Proxy) : outcome (Proxy * list ProxyOut) :=
  let socket := next_socket p in
  let s := egress p in
  if opens socket then
    let updates := socket_updates p ++ [(pk, socket)] in
    let peer_sockets := default [] (replaced_sockets s !! pk) in
    let old_socket_addr := '(old_socket, _) ← out_sockets s !! pk; local_addr old_socket in
    let peer_sockets := match old_socket_addr with Some addr => peer_sockets ++ [addr] | None => peer_sockets end in
    let s := set_replaced (<[pk := peer_sockets]> (replaced_sockets s)) s in
    let s := set_out_sockets (<[pk := (socket, None)]> (out_sockets s)) s in
    match peer_socket_backoffs s !! pk with
    | Some (backoff, _) =>
        match next_backoff backoff with
        | Returns backoff =>
            Returns (mkProxy (ingress p) (set_backoffs (<[pk := (backoff, now + get_backoff backoff)%Z]> (peer_socket_backoffs s)) s)
              updates (S socket), [Opened socket pk])
        | Panics => Panics
        end
    | None => Returns (mkProxy (ingress p) s updates (S socket), [Opened socket pk])
    end
  else Returns (mkProxy (ingress p) s (socket_updates p) (S socket), []).

(** ** The proxy *)

Inductive ProxyInput :=
| InRecv (pk : PublicKey) (socket : ProxySocket) (data : bytes)
| InUpdate
| OutData (pk : PublicKey) (msg : DataMsg) (sent : SendOutcome)
| OutUnmute (pk : PublicKey)
| OutReplace (pk : PublicKey)
| ConfigureIngress (config : ProxyConfig)
| ConfigureEgress (sockets : gmap PublicKey ProxySocket) (port : option Z)
| NetworkChange
| GetEndpointMap
| MutePeer (pk : PublicKey) (dur : option Duration).

(** The loops run while there are sockets; a call wakes a task that is asleep. *)
Definition egress_runs (s : StateEgress) : bool := negb (asleep s) && negb (bool_decide (out_sockets s = ∅)).

Definition proxy_enabled (now : Instant) (i : ProxyInput) (p : Proxy) : bool :=
  match i with
  | InRecv pk socket data =>
      bool_decide (in_sockets (ingress p) !! pk = Some socket) && (Z.of_nat (length data) <=? MAX_PACKET_SIZE)%Z
  | InUpdate => negb (bool_decide (in_sockets (ingress p) = ∅)) && negb (bool_decide (socket_updates p = []))
  | OutData _ _ _ => egress_runs (egress p)
  | OutUnmute pk =>
      egress_runs (egress p) && match out_sockets (egress p) !! pk with Some (_, Some t) => (t <=? now)%Z | _ => false end
  | OutReplace pk =>
      egress_runs (egress p) && match peer_socket_backoffs (egress p) !! pk with Some (_, t) => (t <=? now)%Z | None => false end
  | _ => true
  end.

Definition with_egress (s : StateEgress) (p : Proxy) : Proxy := mkProxy (ingress p) s (socket_updates p) (next_socket p).

(** A call of the egress task *)
Definition call_egress {A} (f : StateEgress → A * StateEgress) (p : Proxy) : Proxy :=
  with_egress (f (set_asleep false (egress p))).2 p.

Definition proxy_step (now : Instant) (i : ProxyInput) (p : Proxy) : outcome (Proxy * list ProxyOut) :=
  match i with
  | InRecv pk _ data => Returns (p, ingress_recv pk data)
  | InUpdate =>
      match socket_updates p with
      | (pk, socket) :: updates => Returns (mkProxy (ingress_update pk socket (ingress p)) (egress p) updates (next_socket p), [])
      | [] => Returns (p, [])
      end
  | OutData pk msg sent =>
      let '(s, out) := send_outbound_data now pk msg sent (egress p) in Returns (with_egress s p, out)
  | OutUnmute pk => Returns (with_egress (set_mute pk None (egress p)).2 p, [])
  | OutReplace pk => replace_socket now pk p
  | ConfigureIngress config =>
      let '(_, s, next, out) := ingress_configure config (ingress p) (next_socket p) in
      Returns (mkProxy s (egress p) (socket_updates p) next, out)
  | ConfigureEgress sockets port =>
      Returns (call_egress (λ s, (tt, egress_configure sockets port (reset_socket_limit s))) p, [])
  | NetworkChange => Returns (call_egress (λ s, (tt, reset_socket_limit s)) p, [])
  | GetEndpointMap => Returns (call_egress get_endpoints_map p, [])
  | MutePeer pk dur => Returns (call_egress (λ s, match dur with Some d => try_mute now pk d s | None => try_unmute pk s end) p, [])
  end.

(** [UdpProxy::configure]: the sockets that the first call gives are those of the
    second, which does not happen if a socket could not be opened *)
Definition configure_sockets (config : ProxyConfig) (p : Proxy) : option (gmap PublicKey ProxySocket) :=
  match ingress_configure config (ingress p) (next_socket p) with (Ok sockets, _, _, _) => Some sockets | (Err _, _, _, _) => None end.
End proxy.
