(* ===== verification/ProxyProps.v ===== *)
(** * Theorems about the UDP proxy *)

From S2P Require Import Prelude NetTypes WgTypes Crypto NetText Proto Controller Backoff Device Proxy.

Section proxy.
Context `{ProxySockets} `{!HashOrder PublicKey} `{!HashOrderLaws PublicKey}.

(** ** Histories *)

(** The sockets that a call of [configure] passes on *)
Definition granted (i : ProxyInput) (p : Proxy) : list (gmap PublicKey ProxySocket) :=
  match i with ConfigureIngress config => option_list (configure_sockets config p) | _ => [] end.

Definition ProxyLog : Type := list (ProxyInput * list ProxyOut).
Definition outputs (log : ProxyLog) : list ProxyOut := concat log.*2.

(** Steps of the tasks and calls in any order; the second half of a [configure] gets
    what a first half has given. *)
Inductive proxy_history : Instant → list (gmap PublicKey ProxySocket) → Proxy → ProxyLog → Prop :=
| Proxy_start now : proxy_history now [] udp_proxy_start []
| Proxy_step now grants p log now' i p' out :
    proxy_history now grants p log → (now <= now')%Z → proxy_enabled now' i p = true →
    (∀ sockets port, i = ConfigureEgress sockets port → sockets ∈ grants) →
    proxy_step now' i p = Returns (p', out) →
    proxy_history now' (grants ++ granted i p) p' (log ++ [(i, out)]).

(** ** Whose socket it is *)

Record proxy_ok (grants : list (gmap PublicKey ProxySocket)) (p : Proxy) (outs : list ProxyOut) : Prop := {
  ok_fresh s pk : Opened s pk ∈ outs → s < next_socket p;
  ok_unique s pk pk' : Opened s pk ∈ outs → Opened s pk' ∈ outs → pk = pk';
  ok_in pk s : in_sockets (ingress p) !! pk = Some s → Opened s pk ∈ outs;
  ok_out pk s m : out_sockets (egress p) !! pk = Some (s, m) → Opened s pk ∈ outs;
  ok_updates pk s : (pk, s) ∈ socket_updates p → Opened s pk ∈ outs;
  ok_grants sockets pk s : sockets ∈ grants → sockets !! pk = Some s → Opened s pk ∈ outs;
  ok_replaced pk l a : replaced_sockets (egress p) !! pk = Some l → a ∈ l → ∃ s, Opened s pk ∈ outs ∧ local_addr s = Some a
}.

(** A step that opens nothing *)
Lemma proxy_ok_keep grants p p' outs out : proxy_ok grants p outs → (∀ s pk, Opened s pk ∉ out) → next_socket p' = next_socket p →
  (∀ pk s, in_sockets (ingress p') !! pk = Some s → in_sockets (ingress p) !! pk = Some s ∨ (pk, s) ∈ socket_updates p) →
  (∀ pk s m, out_sockets (egress p') !! pk = Some (s, m) →
    (∃ m', out_sockets (egress p) !! pk = Some (s, m')) ∨ ∃ sockets, sockets ∈ grants ∧ sockets !! pk = Some s) →
  (∀ x, x ∈ socket_updates p' → x ∈ socket_updates p) →
  (∀ pk l, replaced_sockets (egress p') !! pk = Some l → replaced_sockets (egress p) !! pk = Some l) →
  proxy_ok grants p' (outs ++ out).
Proof.
  intros [Hf Hu Hi Ho Hup Hg Hr] Hout Hn Hin Hoe Hupd Hrep.
  assert (∀ s pk, Opened s pk ∈ outs ++ out ↔ Opened s pk ∈ outs) as Hsame.
  { intros s pk. rewrite elem_of_app. specialize (Hout s pk). tauto. }
  constructor; setoid_rewrite Hsame.
  - intros s pk. rewrite Hn. apply Hf.
  - exact Hu.
  - intros pk s Hs. destruct (Hin pk s Hs); eauto.
  - intros pk s m Hs. destruct (Hoe pk s m Hs) as [[m' Hm]|(sockets & Hs1 & Hs2)]; eauto.
  - eauto.
  - exact Hg.
  - intros pk l a Hl. eapply Hr, Hrep, Hl.
Qed.

(** Opening sockets *)
Lemma open_sockets_ok add : ∀ s next r s' next' out, open_sockets add s next = (r, s', next', out) →
  next ≤ next' ∧
  (∀ x, x ∈ out → ∃ n pk, x = Opened n pk ∧ next ≤ n < next') ∧
  (∀ n pk pk', Opened n pk ∈ out → Opened n pk' ∈ out → pk = pk') ∧
  (∀ pk n, in_sockets s' !! pk = Some n → in_sockets s !! pk = Some n ∨ Opened n pk ∈ out).
Proof.
  induction add as [|peer add IH]; intros s next r s' next' out Ho; cbn [open_sockets] in Ho.
  { simplify_eq. split_and!; [done|by intros x Hx%elem_of_nil|by intros n pk pk' Hx%elem_of_nil|by left]. }
  destruct (opens next).
  2:{ simplify_eq. split_and!; [lia|by intros x Hx%elem_of_nil|by intros n pk pk' Hx%elem_of_nil|by left]. }
  destruct (open_sockets add _ (S next)) as [[[r1 s1] n1] out1] eqn:E. simplify_eq.
  destruct (IH _ _ _ _ _ _ E) as (Hle & Hout & Huniq & Hin). split_and!.
  - lia.
  - intros x [->|Hx]%elem_of_cons; [by exists next, peer; split; [|lia]|].
    destruct (Hout x Hx) as (n & pk & -> & Hn). exists n, pk. split; [done|lia].
  - intros n pk pk' [Hx|Hx]%elem_of_cons [Hy|Hy]%elem_of_cons; simplify_eq; try done; [..|by eapply Huniq].
    + destruct (Hout _ Hy) as (? & ? & ? & ?). simplify_eq. lia.
    + destruct (Hout _ Hx) as (? & ? & ? & ?). simplify_eq. lia.
  - intros pk n Hn. destruct (Hin pk n Hn) as [Hi|Hi]; [|right; by right].
    cbn in Hi. apply lookup_insert_Some in Hi as [[<- <-]|[_ Hi]]; [right; by left|by left].
Qed.

(** What asking for the endpoints does to the state, and what it gives *)
Definition endpoints_ok (s : StateEgress) (r : result ProxyError (gmap PublicKey (list SocketAddr)) * StateEgress) : Prop :=
  out_sockets r.2 = out_sockets s ∧ wg_addr r.2 = wg_addr s ∧
  (∀ pk l, replaced_sockets r.2 !! pk = Some l → replaced_sockets s !! pk = Some l) ∧
  (∀ m pk l, r.1 = Ok m → m !! pk = Some l → ∃ sock mute addr l', out_sockets s !! pk = Some (sock, mute) ∧ local_addr sock = Some addr ∧
    l = addr :: l' ∧ ∀ a, a ∈ l' → ∃ l0, replaced_sockets s !! pk = Some l0 ∧ a ∈ l0).

Lemma endpoints_entry_ok s r k : endpoints_ok s r → endpoints_ok s (endpoints_entry r k).
Proof.
  intros (Ho & Hw & Hr & Hm). unfold endpoints_entry. destruct r as [[map|e] s1]; cbn [fst snd] in *; [|done].
  destruct (out_sockets s1 !! k) as [[sock mute]|] eqn:Ek; [|done].
  assert (∀ pk l, delete k (replaced_sockets s1) !! pk = Some l → replaced_sockets s !! pk = Some l) as Hr'.
  { intros pk l [_ Hl]%lookup_delete_Some. auto. }
  destruct (local_addr sock) as [addr|] eqn:Ea; [|by split_and!]. split_and!; [done..|]. cbn [fst].
  intros m pk l [= <-] [[<- <-]|[_ Hl]]%lookup_insert_Some; [|by eapply Hm].
  exists sock, mute, addr, (default [] (replaced_sockets s1 !! k)). rewrite <-Ho. split_and!; [done..|].
  intros a Ha. destruct (replaced_sockets s1 !! k) as [l0|] eqn:El; [|by apply not_elem_of_nil in Ha]. exists l0. auto.
Qed.

Lemma endpoints_map_ok s : endpoints_ok s (get_endpoints_map s).
Proof.
  unfold get_endpoints_map. generalize (hash_iter (dom (out_sockets s))) as keys.
  assert (endpoints_ok s (Ok ∅, s)) as H0'.
  { split_and!; [done..|]. intros m pk l [= <-] Hl. by rewrite lookup_empty in Hl. }
  revert H0'. generalize (Ok (E := ProxyError) (∅ : gmap PublicKey (list SocketAddr)), s) at 1 2 as r. intros r Hr keys. revert r Hr.
  induction keys as [|k keys IH]; intros r Hr; [done|]. apply IH, endpoints_entry_ok, Hr.
Qed.

Lemma handle_error_keeps now kind pk s :
  out_sockets (handle_error now kind pk s) = out_sockets s ∧ replaced_sockets (handle_error now kind pk s) = replaced_sockets s.
Proof. unfold handle_error. destruct (error_type_of kind); try done. by case_match. Qed.

Lemma send_keeps now pk msg sent s : let r := send_outbound_data now pk msg sent s in
  out_sockets r.1 = out_sockets s ∧ replaced_sockets r.1 = replaced_sockets s ∧
  (r.2 = [] ∨ ∃ socket addr, out_sockets s !! pk = Some (socket, None) ∧ wg_addr s = Some addr ∧ r.2 = [ToWg socket (get_payload msg) addr]).
Proof.
  unfold send_outbound_data. destruct (out_sockets s !! pk) as [[socket [mute|]]|] eqn:E.
  1, 3: destruct (handle_error_keeps now AddrNotAvailable pk s); by split_and!; [..|left].
  destruct (wg_addr s) as [addr|] eqn:Ea; [|destruct (handle_error_keeps now AddrNotAvailable pk s); by split_and!; [..|left]].
  destruct sent as [|kind|]; cbn [fst snd]; [|destruct (handle_error_keeps now kind pk s)|]; split_and!; try done; try (by left).
  right. by exists socket, addr.
Qed.

Lemma set_mute_keeps pk m s : let r := (set_mute pk m s).2 in
  replaced_sockets r = replaced_sockets s ∧ wg_addr r = wg_addr s ∧
  ∀ pk' x m', out_sockets r !! pk' = Some (x, m') → ∃ m0, out_sockets s !! pk' = Some (x, m0).
Proof.
  unfold set_mute. destruct (out_sockets s !! pk) as [[socket m0]|] eqn:E; cbn [snd]; [|by eauto].
  split_and!; [done..|]. intros pk' x m' Hx. cbn in Hx. apply lookup_insert_Some in Hx as [[<- Hx]|[_ Hx]]; [simplify_eq|]; eauto.
Qed.

Lemma replace_socket_ok grants now pk p p' outs out : proxy_ok grants p outs → replace_socket now pk p = Returns (p', out) →
  proxy_ok grants p' (outs ++ out).
Proof.
  intros Hok Hr. pose proof Hok as [Hf Hu Hi Ho Hup Hg Hrep]. unfold replace_socket in Hr.
  assert (∀ s k, Opened s k ∈ outs → Opened s k ∈ outs ++ out) as Hmore by (intros; apply elem_of_app; by left).
  destruct (opens (next_socket p)).
  2:{ simplify_eq. rewrite app_nil_r. constructor; cbn; eauto. intros s k Hs. specialize (Hf s k Hs). lia. }
  assert (out = [Opened (next_socket p) pk] ∧ next_socket p' = S (next_socket p) ∧ ingress p' = ingress p ∧
    socket_updates p' = socket_updates p ++ [(pk, next_socket p)] ∧
    out_sockets (egress p') = <[pk := (next_socket p, None)]> (out_sockets (egress p)) ∧
    replaced_sockets (egress p') = <[pk := default [] (replaced_sockets (egress p) !! pk) ++
      option_list ('(old, _) ← out_sockets (egress p) !! pk; local_addr old)]> (replaced_sockets (egress p)))
    as (-> & Hn & Hin & Hupd & Hout & Hre).
  { destruct (out_sockets (egress p) !! pk) as [[old m]|]; cbn [mbind option_bind] in *; [destruct (local_addr old)|];
      cbn [option_list] in *; rewrite ?app_nil_r; repeat case_match; by simplify_eq. }
  assert (Opened (next_socket p) pk ∈ outs ++ [Opened (next_socket p) pk]) as Hnew by (apply elem_of_app; right; by left).
  constructor; rewrite ?Hn, ?Hin, ?Hupd, ?Hout, ?Hre.
  - intros s k [Hs|Hs%list_elem_of_singleton]%elem_of_app; [specialize (Hf s k Hs); lia|]. simplify_eq. lia.
  - intros s k k' [Hs|Hs%list_elem_of_singleton]%elem_of_app [Hs'|Hs'%list_elem_of_singleton]%elem_of_app; simplify_eq; eauto.
    + specialize (Hf _ _ Hs). lia.
    + specialize (Hf _ _ Hs'). lia.
  - eauto.
  - intros k s m [[<- Hx]|[_ Hx]]%lookup_insert_Some; simplify_eq; eauto.
  - intros k s [Hx|Hx%list_elem_of_singleton]%elem_of_app; simplify_eq; eauto.
  - eauto.
  - intros k l a [[<- <-]|[_ Hl]]%lookup_insert_Some Ha.
    + apply elem_of_app in Ha as [Ha|Ha].
      * destruct (replaced_sockets (egress p) !! pk) as [l0|] eqn:El; [|by apply not_elem_of_nil in Ha].
        destruct (Hrep pk l0 a El Ha) as (s & Hs & Hla). eauto.
      * destruct (out_sockets (egress p) !! pk) as [[old m]|] eqn:Eo; cbn in Ha; [|by apply not_elem_of_nil in Ha].
        destruct (local_addr old) as [a'|] eqn:Ea; cbn in Ha; [|by apply not_elem_of_nil in Ha].
        apply list_elem_of_singleton in Ha as ->. exists old. split; [|done]. eauto.
    + destruct (Hrep k l a Hl Ha) as (s & Hs & Hla). eauto.
Qed.

Lemma configure_ingress_ok grants config p p' outs out now : proxy_ok grants p outs →
  proxy_step now (ConfigureIngress config) p = Returns (p', out) →
  proxy_ok (grants ++ granted (ConfigureIngress config) p) p' (outs ++ out).
Proof.
  intros [Hf Hu Hi Ho Hup Hg Hrep] Hs. cbn [proxy_step granted] in *. unfold configure_sockets.
  assert (∀ x, x ∈ outs → x ∈ outs ++ out) as Hmore by (intros; apply elem_of_app; by left).
  unfold ingress_configure in *.
  destruct (open_sockets _ _ _) as [[[r s'] next'] out'] eqn:Eo. simplify_eq.
  destruct (open_sockets_ok _ _ _ _ _ _ _ Eo) as (Hle & Hout & Huniq & Hin).
  assert (∀ pk n, in_sockets s' !! pk = Some n → Opened n pk ∈ outs ++ out) as Hin'.
  { intros pk n Hn. destruct (Hin pk n Hn) as [[Hx _]%map_lookup_filter_Some|Hx]; [auto|apply elem_of_app; by right]. }
  constructor; cbn [next_socket ingress egress socket_updates]; eauto.
  - intros s pk [Hx|Hx]%elem_of_app; [specialize (Hf s pk Hx); lia|]. destruct (Hout _ Hx) as (? & ? & ? & ?). simplify_eq. lia.
  - intros s pk pk' [Hx|Hx]%elem_of_app [Hy|Hy]%elem_of_app; eauto.
    + destruct (Hout _ Hy) as (? & ? & ? & ?). specialize (Hf _ _ Hx). simplify_eq. lia.
    + destruct (Hout _ Hx) as (? & ? & ? & ?). specialize (Hf _ _ Hy). simplify_eq. lia.
  - intros sockets pk s [Hx|Hx]%elem_of_app Hy; [eauto|].
    destruct r; cbn in Hx; [|by apply not_elem_of_nil in Hx]. apply list_elem_of_singleton in Hx as ->. auto.
  - intros pk l a Hl Ha. destruct (Hrep pk l a Hl Ha) as (s & Hx & ?). eauto.
Qed.

(** What a step leaves alone *)
Ltac quiet_out := solve [naive_solver|by intros s0 k0 ?%elem_of_nil|by intros k0 l0 ?%lookup_empty_Some].

Lemma proxy_step_ok grants now i p p' outs out : proxy_ok grants p outs →
  (∀ sockets port, i = ConfigureEgress sockets port → sockets ∈ grants) → proxy_step now i p = Returns (p', out) →
  proxy_ok (grants ++ granted i p) p' (outs ++ out).
Proof.
  intros Hok Hgr Hs.
  destruct i as [pk socket data| |pk msg sent|pk|pk|config|sockets port| | |pk dur];
    [| | | | |by eapply configure_ingress_ok| | | |]; cbn [granted]; rewrite app_nil_r; cbn [proxy_step] in Hs.
  - simplify_eq. apply (proxy_ok_keep _ p'); try naive_solver. intros s k [=]%list_elem_of_singleton.
  - destruct (socket_updates p) as [|[pk s] l] eqn:El; simplify_eq; [by rewrite app_nil_r|].
    apply (proxy_ok_keep _ p); cbn; try quiet_out; [|rewrite El; by right].
    intros pk' s' [[<- <-]|[_ Hx]]%lookup_insert_Some; [right; rewrite El; by left|by left].
  - pose proof (send_keeps now pk msg sent (egress p)) as (H1' & H2' & H3').
    destruct (send_outbound_data now pk msg sent (egress p)) as [s o]. cbn [fst snd] in *. simplify_eq.
    apply (proxy_ok_keep _ p); cbn [ingress egress socket_updates next_socket with_egress call_egress]; rewrite ?H1', ?H2'; try quiet_out.
    intros s0 k Hx. destruct H3' as [->|(? & ? & _ & _ & ->)]; [by apply not_elem_of_nil in Hx|].
    by apply list_elem_of_singleton in Hx.
  - pose proof (set_mute_keeps pk None (egress p)) as (H1' & _ & H3'). simplify_eq.
    apply (proxy_ok_keep _ p); cbn [ingress egress socket_updates next_socket with_egress call_egress]; rewrite ?H1'; quiet_out.
  - by eapply replace_socket_ok.
  - simplify_eq. apply (proxy_ok_keep _ p); cbn; try quiet_out.
    intros pk s m Hx. rewrite map_lookup_imap in Hx. destruct (sockets !! pk) as [n|] eqn:En; [|done]. cbn in Hx.
    right. exists sockets. split; [by eapply Hgr|]. rewrite En. by repeat case_match; simplify_eq.
  - simplify_eq. apply (proxy_ok_keep _ p); cbn; quiet_out.
  - simplify_eq. destruct (endpoints_map_ok (set_asleep false (egress p))) as (H1' & _ & H3' & _).
    apply (proxy_ok_keep _ p); cbn [ingress egress socket_updates next_socket with_egress call_egress]; rewrite ?H1'; quiet_out.
  - simplify_eq. set (s := set_asleep false (egress p)).
    assert (∃ m, (match dur with Some d => try_mute now pk d s | None => try_unmute pk s end).2 = (set_mute pk m s).2) as [m Hm].
    { destruct dur; by eexists. }
    pose proof (set_mute_keeps pk m s) as (H1' & _ & H3').
    apply (proxy_ok_keep _ p); cbn [ingress egress socket_updates next_socket with_egress call_egress]; fold s; rewrite ?Hm, ?H1'; quiet_out.
Qed.

(** What is in the log *)
Definition entry_ok (outs : list ProxyOut) (e : ProxyInput * list ProxyOut) : Prop :=
  match e.1 with
  | InRecv pk s data => Opened s pk ∈ outs ∧ e.2 = [ToRelay pk (data_msg_new data)]
  | OutData pk msg _ => e.2 = [] ∨ ∃ s addr, Opened s pk ∈ outs ∧ e.2 = [ToWg s (get_payload msg) addr]
  | _ => ∀ x, x ∈ e.2 → ∃ s pk, x = Opened s pk
  end.

Lemma entry_ok_more outs outs' e : (∀ x, x ∈ outs → x ∈ outs') → entry_ok outs e → entry_ok outs' e.
Proof. intros Hm. unfold entry_ok. destruct e.1; naive_solver. Qed.

Lemma entry_ok_step grants now i p p' outs out : proxy_ok grants p outs → proxy_enabled now i p = true →
  proxy_step now i p = Returns (p', out) → entry_ok outs (i, out).
Proof.
  intros Hok Hen Hs. unfold entry_ok. cbn [fst snd].
  destruct i as [pk socket data| |pk msg sent|pk|pk|config|sockets port| | |pk dur]; cbn [proxy_step] in Hs; simplify_eq;
    try (by intros x ?%elem_of_nil).
  - cbn in Hen. apply andb_true_iff in Hen as [Hi _]. apply bool_decide_eq_true in Hi. split; [|done]. by eapply ok_in.
  - intros x. destruct (socket_updates p) as [|[]]; simplify_eq; by intros ?%elem_of_nil.
  - pose proof (send_keeps now pk msg sent (egress p)) as (_ & _ & H3').
    destruct (send_outbound_data now pk msg sent (egress p)) as [s o]. cbn [snd] in *. simplify_eq.
    destruct H3' as [->|(socket & addr & Hso & _ & ->)]; [by left|right]. exists socket, addr. split; [|done]. by eapply ok_out.
  - intros x Hx. unfold replace_socket in Hs. repeat case_match; simplify_eq;
      first [by apply not_elem_of_nil in Hx|apply list_elem_of_singleton in Hx; eauto].
  - destruct (ingress_configure config (ingress p) (next_socket p)) as [[[r s'] n'] o] eqn:Ei. simplify_eq.
    unfold ingress_configure in Ei. destruct (open_sockets _ _ _) as [[[r1 s1] n1] o1] eqn:Eo. simplify_eq.
    destruct (open_sockets_ok _ _ _ _ _ _ _ Eo) as (_ & Hout & _). intros x Hx. destruct (Hout x Hx) as (s & pk & -> & _). eauto.
Qed.

Lemma proxy_history_ok now grants p log : proxy_history now grants p log →
  proxy_ok grants p (outputs log) ∧ ∀ e, e ∈ log → entry_ok (outputs log) e.
Proof.
  induction 1 as [now|now grants p log now' i p' out Hh [IH IHl] Hle Hen Hgr Hs].
  - split; [|by intros e ?%elem_of_nil]. constructor; cbn; intros *; rewrite ?lookup_empty, ?elem_of_nil; done.
  - assert (outputs (log ++ [(i, out)]) = outputs log ++ out) as Eo.
    { unfold outputs. rewrite fmap_app, concat_app. cbn. by rewrite app_nil_r. }
    rewrite Eo. split; [by eapply proxy_step_ok|].
    intros e [He|He%list_elem_of_singleton]%elem_of_app;
      (eapply entry_ok_more; [intros x Hx; apply elem_of_app; left; exact Hx|]); [auto|subst; by eapply entry_ok_step].
Qed.

(** C13: The proxy keeps the peers apart: in every history, whatever is replaced, muted or
    reconfigured while the tasks run, a socket is only ever used for the peer that it
    was opened for.  What WireGuard sends to a socket goes to the relay for the peer
    of that socket, unchanged; what the relay has for a peer is sent to WireGuard, if
    at all, from a socket of the peer; and the addresses that are given as the
    endpoints of a peer are those of its sockets. *)
Theorem proxy_keeps_peers_apart now grants p log : proxy_history now grants p log →
  (∀ s pk pk', Opened s pk ∈ outputs log → Opened s pk' ∈ outputs log → pk = pk') ∧
  (∀ pk s data out, (InRecv pk s data, out) ∈ log →
    Opened s pk ∈ outputs log ∧ ∃ msg, out = [ToRelay pk msg] ∧ get_payload msg = data) ∧
  (∀ pk msg sent out, (OutData pk msg sent, out) ∈ log →
    out = [] ∨ ∃ s addr, Opened s pk ∈ outputs log ∧ out = [ToWg s (get_payload msg) addr]) ∧
  (∀ m pk l a, (get_endpoints_map (egress p)).1 = Ok m → m !! pk = Some l → a ∈ l →
    ∃ s, Opened s pk ∈ outputs log ∧ local_addr s = Some a).
Proof.
  intros Hh. destruct (proxy_history_ok now grants p log Hh) as [Hok Hlog]. split_and!.
  - apply (ok_unique _ _ _ Hok).
  - intros pk s data out He. destruct (Hlog _ He) as [H1' H2']. split; [done|]. exists (data_msg_new data). split; [done|]. done.
  - intros pk msg sent out He. apply (Hlog _ He).
  - intros m pk l a Hm Hl Ha. destruct (endpoints_map_ok (egress p)) as (_ & _ & _ & Hmap).
    destruct (Hmap m pk l Hm Hl) as (sock & mute & addr & l' & Hs & Haddr & -> & Hl').
    apply elem_of_cons in Ha as [->|Ha]; [exists sock; split; [by eapply ok_out|done]|].
    destruct (Hl' a Ha) as (l0 & H1' & H2'). by eapply ok_replaced.
Qed.

(** ** The two tasks use the same sockets *)

(** The sockets of the ingress task when it has read the channel *)
Definition caught_up (p : Proxy) : gmap PublicKey ProxySocket :=
  foldl (λ m x, <[x.1 := x.2]> m) (in_sockets (ingress p)) (socket_updates p).

Definition tasks_agree (p : Proxy) : Prop := ∀ pk, fst <$> out_sockets (egress p) !! pk = caught_up p !! pk.

(** Both halves of [configure], one right after the other *)
Definition configure_at_once (now : Instant) (config : ProxyConfig) (p : Proxy) : option Proxy :=
  sockets ← configure_sockets config p;
  match proxy_step now (ConfigureIngress config) p with
  | Returns (p, _) =>
      match proxy_step now (ConfigureEgress sockets (proxy_wg_port config)) p with Returns (p, _) => Some p | Panics => None end
  | Panics => None
  end.

(** Histories in which a configuration finds the channel empty, opens all its sockets
    and is not interleaved with the tasks *)
Inductive calm_history : Instant → Proxy → Prop :=
| Calm_start now : calm_history now udp_proxy_start
| Calm_step now p now' i p' out : calm_history now p → (now <= now')%Z → proxy_enabled now' i p = true →
    (∀ config, i ≠ ConfigureIngress config) → (∀ sockets port, i ≠ ConfigureEgress sockets port) →
    proxy_step now' i p = Returns (p', out) → calm_history now' p'
| Calm_configure now p now' config p' : calm_history now p → (now <= now')%Z → socket_updates p = [] →
    configure_at_once now' config p = Some p' → calm_history now' p'.

Lemma agree_same p p' : tasks_agree p → (∀ pk, fst <$> out_sockets (egress p') !! pk = fst <$> out_sockets (egress p) !! pk) →
  ingress p' = ingress p → socket_updates p' = socket_updates p → tasks_agree p'.
Proof. intros Ha Ho Hi Hu pk. unfold caught_up. rewrite Ho, Hi, Hu. apply Ha. Qed.

Lemma set_mute_sockets pk m s pk' : fst <$> out_sockets (set_mute pk m s).2 !! pk' = fst <$> out_sockets s !! pk'.
Proof.
  unfold set_mute. destruct (out_sockets s !! pk) as [[x m0]|] eqn:E; [|done]. cbn.
  destruct (decide (pk = pk')) as [<-|Hne]; [by rewrite lookup_insert_eq, E|by rewrite lookup_insert_ne].
Qed.

Lemma replace_agrees now pk p p' out : tasks_agree p → replace_socket now pk p = Returns (p', out) → tasks_agree p'.
Proof.
  intros Ha Hr pk'. unfold replace_socket in Hr. destruct (opens (next_socket p)); [|simplify_eq; apply Ha].
  assert (out_sockets (egress p') = <[pk := (next_socket p, None)]> (out_sockets (egress p)) ∧
    ingress p' = ingress p ∧ socket_updates p' = socket_updates p ++ [(pk, next_socket p)]) as (Ho & Hi & Hu).
  { repeat case_match; by simplify_eq. }
  unfold caught_up. rewrite Ho, Hi, Hu, foldl_app. cbn [foldl fst snd].
  destruct (decide (pk = pk')) as [<-|Hne]; [by rewrite !lookup_insert_eq|]. rewrite !lookup_insert_ne by done. apply Ha.
Qed.

Lemma step_agrees now i p p' out : tasks_agree p → (∀ config, i ≠ ConfigureIngress config) →
  (∀ sockets port, i ≠ ConfigureEgress sockets port) → proxy_step now i p = Returns (p', out) → tasks_agree p'.
Proof.
  intros Ha Hni Hne Hs. destruct i as [pk socket data| |pk msg sent|pk|pk|config|sockets port| | |pk dur];
    [| | | | |by destruct (Hni config)|by destruct (Hne sockets port)| | |]; cbn [proxy_step] in Hs.
  - by simplify_eq.
  - destruct (socket_updates p) as [|[k s] l] eqn:El; simplify_eq; [done|]. intros pk. specialize (Ha pk).
    unfold caught_up in Ha. rewrite El in Ha. exact Ha.
  - pose proof (send_keeps now pk msg sent (egress p)) as (H1' & _). destruct (send_outbound_data now pk msg sent (egress p)) as [s o].
    simplify_eq. apply (agree_same p); [done| |done..]. cbn in *. by rewrite H1'.
  - simplify_eq. apply (agree_same p); [done|apply set_mute_sockets|done..].
  - by eapply replace_agrees.
  - simplify_eq. by apply (agree_same p).
  - simplify_eq. apply (agree_same p); [done| |done..]. intros pk. cbn.
    destruct (endpoints_map_ok (set_asleep false (egress p))) as (-> & _). done.
  - simplify_eq. apply (agree_same p); [done| |done..]. intros pk'. cbn [call_egress with_egress egress].
    destruct dur; [unfold try_mute|unfold try_unmute]; by rewrite set_mute_sockets.
Qed.

Lemma configure_agrees now config p p' : socket_updates p = [] → configure_at_once now config p = Some p' → tasks_agree p'.
Proof.
  intros Hu Hc pk. unfold configure_at_once, configure_sockets in Hc. cbn [proxy_step] in Hc.
  destruct (ingress_configure config (ingress p) (next_socket p)) as [[[r s] n] o] eqn:Ei. destruct r as [sockets|]; cbn in Hc; [|done].
  simplify_eq. unfold caught_up. cbn. rewrite Hu. cbn. rewrite map_lookup_imap.
  assert (in_sockets s = sockets) as ->.
  { unfold ingress_configure in Ei. destruct (open_sockets _ _ _) as [[[r1 s1] n1] o1]. destruct r1; by simplify_eq. }
  destruct (sockets !! pk); cbn; [|done]. by repeat case_match.
Qed.

(** Unless a configuration comes while the news of a replaced socket is still on its
    way, both tasks use the same socket for a peer, as soon as the ingress task has
    read its channel: what WireGuard answers to a datagram is read. *)
Theorem proxy_tasks_agree now p : calm_history now p → tasks_agree p ∧
  (socket_updates p = [] → ∀ pk s m, out_sockets (egress p) !! pk = Some (s, m) →
    ∀ data, (Z.of_nat (length data) <= MAX_PACKET_SIZE)%Z → proxy_enabled now (InRecv pk s data) p = true).
Proof.
  intros Hh. assert (tasks_agree p) as Ha.
  { induction Hh as [now|now p now' i p' out Hh IH Hle Hen Hni Hne Hs|now p now' config p' Hh IH Hle Hu Hc].
    - done.
    - by eapply step_agrees.
    - by eapply configure_agrees. }
  split; [done|]. intros Hu pk s m Hs data Hd. specialize (Ha pk). unfold caught_up in Ha. rewrite Hs, Hu in Ha. cbn in Ha.
  cbn. rewrite <-Ha, bool_decide_eq_true_2 by done. by apply Z.leb_le.
Qed.

(** Replacing the socket of a muted peer unmutes it. *)
Lemma replacing_unmutes now pk p p' out s t : out_sockets (egress p) !! pk = Some (s, Some t) → opens (next_socket p) = true →
  replace_socket now pk p = Returns (p', out) → out_sockets (egress p') !! pk = Some (next_socket p, None).
Proof.
  intros Hs Ho Hr. unfold replace_socket in Hr. rewrite Ho in Hr. repeat case_match; simplify_eq; cbn; apply lookup_insert_eq.
Qed.
End proxy.

Module ProxySamples.
#[local] Existing Instance elements_order.
#[local] Existing Instance elements_order_laws.

(** Every socket can be opened and has a port of its own. *)
#[local] Instance numbered : ProxySockets := {
  opens := λ _, true;
  local_addr := λ n, Some (SocketAddrV4 LOCALHOST (40000 + Z.of_nat n))
}.

Definition peer1 : PublicKey := mkPublicKey (replicate 32 1%Z).
Definition peer2 : PublicKey := mkPublicKey (replicate 32 2%Z).
Definition config0 : ProxyConfig := mkProxyConfig (Some 51820%Z) {[peer1; peer2]}.
Definition run_step (pl : Proxy * ProxyLog) (x : Z * ProxyInput) : Proxy * ProxyLog :=
  match proxy_step (from_secs x.1) x.2 pl.1 with Returns (p, out) => (p, pl.2 ++ [(x.2, out)]) | Panics => pl end.
Definition proxy_run (p : Proxy) (l : list (Z * ProxyInput)) : Proxy * ProxyLog := foldl run_step (p, []) l.

(** The inputs can come one after the other. *)
Fixpoint inputs_ok (last : Z) (grants : list (gmap PublicKey ProxySocket)) (pl : Proxy * ProxyLog) (l : list (Z * ProxyInput)) : bool :=
  match l with
  | [] => true
  | (t, i) :: l =>
      (last <=? t)%Z && proxy_enabled (from_secs t) i pl.1 &&
      match i with ConfigureEgress sockets _ => bool_decide (sockets ∈ grants) | _ => true end &&
      match proxy_step (from_secs t) i pl.1 with
      | Returns _ => inputs_ok t (grants ++ granted i pl.1) (run_step pl (t, i)) l
      | Panics => false
      end
  end.

Lemma proxy_run_history l : ∀ last grants pl, proxy_history (from_secs last) grants pl.1 pl.2 → inputs_ok last grants pl l = true →
  ∃ now grants', proxy_history now grants' (foldl run_step pl l).1 (foldl run_step pl l).2.
Proof.
  induction l as [|[t i] l IH]; intros last grants pl Hh Hok; [by eexists _, _|]. cbn [inputs_ok] in Hok.
  apply andb_true_iff in Hok as [Hok Hs]. apply andb_true_iff in Hok as [Hok Hg]. apply andb_true_iff in Hok as [Ht Hen].
  cbn [foldl]. destruct (proxy_step (from_secs t) i pl.1) as [[p' out]|] eqn:Es; [|done].
  apply (IH t (grants ++ granted i pl.1)); [|exact Hs]. unfold run_step. cbn [fst snd]. rewrite Es. cbn [fst snd].
  eapply Proxy_step; [exact Hh|unfold from_secs; lia|done| |exact Es].
  intros sockets port ->. by apply bool_decide_eq_true in Hg.
Qed.

Definition sockets0 : gmap PublicKey ProxySocket := default ∅ (configure_sockets config0 udp_proxy_start).
Definition setup0 : list (Z * ProxyInput) := [(0, ConfigureIngress config0); (0, ConfigureEgress sockets0 (Some 51820))]%Z.
Definition data0 : DataMsg := data_msg_new [1; 2; 3]%Z.
Definition traffic0 : list (Z * ProxyInput) :=
  [(1, OutData peer1 data0 SendOk); (2, InRecv peer1 0%nat [4; 5])]%Z.

(** The sockets of [peer1] and [peer2] are the numbers 0 and 1; data goes both ways
    through the one of [peer1]. *)
Lemma proxy_keeps_peers_apart_witness :
  let r := proxy_run udp_proxy_start (setup0 ++ traffic0) in
  Opened 0 peer1 ∈ outputs r.2 ∧
  (OutData peer1 data0 SendOk, [ToWg 0 [1; 2; 3]%Z (SocketAddrV4 LOCALHOST 51820)]) ∈ r.2 ∧
  (InRecv peer1 0 [4; 5]%Z, [ToRelay peer1 (data_msg_new [4; 5]%Z)]) ∈ r.2.
Proof.
  assert (∃ now grants, proxy_history now grants (proxy_run udp_proxy_start (setup0 ++ traffic0)).1
    (proxy_run udp_proxy_start (setup0 ++ traffic0)).2) as (now & grants & Hh).
  { apply (proxy_run_history _ 0 [] (udp_proxy_start, [])); [apply Proxy_start|vm_compute; reflexivity]. }
  destruct (proxy_keeps_peers_apart now grants _ _ Hh) as (_ & Hin & _ & _).
  assert ((InRecv peer1 0 [4; 5]%Z, [ToRelay peer1 (data_msg_new [4; 5]%Z)]) ∈ (proxy_run udp_proxy_start (setup0 ++ traffic0)).2) as He.
  { vm_compute. right. right. right. left. }
  split; [exact (proj1 (Hin peer1 0 _ _ He))|]. split; [|exact He]. vm_compute. right. right. left.
Defined.

(** A socket that is broken is replaced, and the ingress task reads the new one. *)
Definition replaced0 : list (Z * ProxyInput) := [(2, OutData peer1 data0 (SendErr PermissionDenied)); (3, OutReplace peer1); (4, InUpdate)]%Z.
Definition calm0 : Proxy := default udp_proxy_start (configure_at_once 0 config0 udp_proxy_start).

Lemma proxy_tasks_agree_witness :
  socket_updates (proxy_run calm0 replaced0).1 = [] ∧ out_sockets (egress (proxy_run calm0 replaced0).1) !! peer1 = Some (2, None) ∧
  proxy_enabled (from_secs 4) (InRecv peer1 2 [7]%Z) (proxy_run calm0 replaced0).1 = true.
Proof.
  assert (calm_history (from_secs 4) (proxy_run calm0 replaced0).1) as Hh.
  { pose (c1 := proxy_run calm0 (take 1 replaced0)). pose (c2 := proxy_run calm0 (take 2 replaced0)).
    assert (calm_history 0 calm0) as H0.
    { apply (Calm_configure 0 udp_proxy_start 0 config0); [apply Calm_start|done|done|vm_compute; reflexivity]. }
    assert (calm_history (from_secs 2) c1.1) as H1.
    { apply (Calm_step 0 calm0 _ (OutData peer1 data0 (SendErr PermissionDenied)) _ [] H0); [done|vm_compute; reflexivity|done|done|vm_compute; reflexivity]. }
    assert (calm_history (from_secs 3) c2.1) as H2.
    { apply (Calm_step (from_secs 2) c1.1 _ (OutReplace peer1) _ [Opened 2 peer1] H1); [done|vm_compute; reflexivity|done|done|vm_compute; reflexivity]. }
    apply (Calm_step (from_secs 3) c2.1 _ InUpdate _ [] H2); [done|vm_compute; reflexivity|done|done|vm_compute; reflexivity]. }
  assert (socket_updates (proxy_run calm0 replaced0).1 = []) as Hu by (vm_compute; reflexivity).
  assert (out_sockets (egress (proxy_run calm0 replaced0).1) !! peer1 = Some (2, None)) as Hs by (vm_compute; reflexivity).
  split; [exact Hu|]. split; [exact Hs|].
  exact (proj2 (proxy_tasks_agree (from_secs 4) _ Hh) Hu peer1 2 None Hs [7]%Z ltac:(vm_compute; discriminate)).
Defined.

(** A configuration that comes while the news is on its way: from then on the egress
    task sends from the old socket while the ingress task reads the new one. *)
Definition race0 : list (Z * ProxyInput) :=
  setup0 ++ [(2, OutData peer1 data0 (SendErr PermissionDenied)); (3, OutReplace peer1);
             (3, ConfigureIngress config0); (3, ConfigureEgress sockets0 (Some 51820)); (4, InUpdate)]%Z.

Example configuration_race :
  let p := (proxy_run udp_proxy_start race0).1 in
  configure_sockets config0 (proxy_run udp_proxy_start (take 4 race0)).1 = Some sockets0 ∧
  socket_updates p = [] ∧ out_sockets (egress p) !! peer1 = Some (0, None) ∧ in_sockets (ingress p) !! peer1 = Some 2.
Proof. intros p. split; [vm_compute; reflexivity|]. split; [vm_compute; reflexivity|]. split; vm_compute; reflexivity. Qed.
End ProxySamples.
