(* ===== verification/Providers.v ===== *)
(** * [telio-traversal]: the local and the UPnP endpoint provider
    ([endpoint_providers/local.rs], [endpoint_providers/upnp.rs]), with
    [telio-network-monitors] ([local_interfaces.rs])

    The local provider announces the addresses of the network interfaces, the UPnP
    provider has the router forward two of its ports and announces them.  As in
    [Stun], every definition takes the instant and an environment with the answers of
    the outside: of the system, of WireGuard, and of the router, which is the crate
    [igd].  What the UPnP provider asks the router and announces is its log. *)

From S2P Require Import Prelude NetTypes WgTypes Crypto NetText Proto PingPong Backoff CrossPing StarcastNat SessionKeeper.

(** ** Interfaces *)

(** [if_addrs::Interface]: its address *)
Definition is_loopback (ip : StdIpAddr) : bool :=
  match ip with V4 a => (Z.shiftr a 24 =? 127)%Z | V6 a => (a =? 1)%Z end.

(** 100.64.0.0/10, the range of the mesh network *)
Definition in_shared_range (v4 : Z) : bool := (Z.shiftr v4 22 =? Z.shiftr (ipv4_addr 100 64 0 0) 22)%Z.

(** [gather_local_interfaces] *)
Definition gather_local_interfaces (ifs : list StdIpAddr) : list StdIpAddr :=
  filter (λ ip, negb (is_loopback ip) && match ip with V4 v4 => negb (in_shared_range v4) | V6 _ => false end = true) ifs.

(** ** The local provider *)

Inductive LocalError := NoWGListenPort | LocalIoError | LocalSendError | LocalPingError (e : ProviderError).

(** The port that WireGuard listens on, the port of the socket and the addresses of
    the interfaces, if they can be had *)
Record LocalEnv := mkLocalEnv {
  local_listen_port : option Z;
  local_udp_port : option Z;
  local_if_addrs : option (list StdIpAddr);
  local_handler : PingPongHandler;
  local_time : Z;
  local_nonce : bytes;
  local_rng : Encryption.Draws
}.

Record LocalProvider := mkLocalProvider {
  local_publisher : option (Chan (list EndpointCandidate));
  local_last : list EndpointCandidate;
  local_timer : TickInterval;
  local_pings : PingIo
}.

Section local.
Context `{Messages} `{Ciphers}.
Implicit Types (env : LocalEnv) (st : LocalProvider).

(** [new_with]: the interval of the timer *)
Definition local_new (now : Instant) (poll_interval : Duration) : outcome LocalProvider :=
  match interval_now now poll_interval with
  | Returns poll_timer => Returns (mkLocalProvider None [] poll_timer (mkPingIo (mkChan true []) None))
  | Panics => Panics
  end.

(** [get_wg_port] *)
Definition local_get_wg_port env : result LocalError Z :=
  match local_listen_port env with Some p => Ok p | None => Err NoWGListenPort end.

(** [poll_local_endpoints] *)
Definition poll_local_endpoints env st : result LocalError unit * LocalProvider :=
  match local_publisher st with
  | Some candidates_publisher =>
      match local_get_wg_port env, local_udp_port env, local_if_addrs env with
      | Err e, _, _ => (Err e, st)
      | Ok _, None, _ | Ok _, Some _, None => (Err LocalIoError, st)
      | Ok wg_port, Some udp_port, Some ifs =>
          let candidates :=
            (λ ip, mkEndpointCandidate (socket_addr_new ip wg_port) (socket_addr_new ip udp_port)) <$> gather_local_interfaces ifs in
          if bool_decide (local_last st ≠ candidates) then
            let '(sent, publisher) := chan_send candidates candidates_publisher in
            if sent then (Ok tt, mkLocalProvider (Some publisher) candidates (local_timer st) (local_pings st))
            else (Err LocalSendError, mkLocalProvider (Some publisher) (local_last st) (local_timer st) (local_pings st))
          else (Ok tt, st)
      end
  | None => (Ok tt, st)
  end.

Definition set_local_pings (io : PingIo) st : LocalProvider := mkLocalProvider (local_publisher st) (local_last st) (local_timer st) io.

(** [send_ping] and [handle_rx_packet] *)
Definition local_send_ping env (addr : SocketAddr) (session_id : Session) (public_key : PublicKey) st
    : result LocalError unit * LocalProvider :=
  match local_get_wg_port env with
  | Ok port =>
      let '(r, io) :=
        send_ping (local_time env) (local_rng env) (local_handler env) addr (mkWGPort port) session_id public_key (local_pings st) in
      (match r with Ok _ => Ok tt | Err e => Err (LocalPingError e) end, set_local_pings io st)
  | Err e => (Err e, st)
  end.

Definition local_handle_rx env (encrypted_buf : bytes) (addr : SocketAddr) st : result LocalError unit * LocalProvider :=
  match local_get_wg_port env with
  | Ok port =>
      let '(r, io) :=
        handle_rx_packet (local_time env) (local_nonce env) (local_handler env) encrypted_buf addr (mkWGPort port) Local (local_pings st) in
      (match r with Ok _ => Ok tt | Err e => Err (LocalPingError e) end, set_local_pings io st)
  | Err e => (Err e, st)
  end.

Inductive LocalInput :=
| LocalRx (buf : bytes) (addr : SocketAddr)
| LocalTick
| LocalTrigger
| LocalPing (addr : SocketAddr) (session_id : Session) (public_key : PublicKey)
| LocalSubscribe (publisher : Chan (list EndpointCandidate))
| LocalSubscribePong (publisher : Chan PongEvent).

Definition local_enabled (now : Instant) (i : LocalInput) st : bool :=
  match i with LocalTick => (next_tick (local_timer st) <=? now)%Z | _ => true end.

(** [wait_with_update] and the calls *)
Definition local_step (now : Instant) env (i : LocalInput) st : LocalProvider :=
  match i with
  | LocalRx buf addr => (local_handle_rx env buf addr st).2
  | LocalTick =>
      (poll_local_endpoints env (mkLocalProvider (local_publisher st) (local_last st) (tick now (local_timer st)) (local_pings st))).2
  | LocalTrigger => (poll_local_endpoints env st).2
  | LocalPing addr session_id public_key => (local_send_ping env addr session_id public_key st).2
  | LocalSubscribe publisher => mkLocalProvider (Some publisher) (local_last st) (local_timer st) (local_pings st)
  | LocalSubscribePong publisher => set_local_pings (mkPingIo (udp_socket (local_pings st)) (Some publisher)) st
  end.
End local.

(** ** The UPnP provider *)

Definition EPHEMERAL_PORT_RANGE (p : Z) : Prop := (49152 <= p <= 65535)%Z.
Definition UPNP_FAR_FUTURE : Duration := from_secs (86400 * 365 * 30).

Record PortMapping := mkPortMapping { map_internal : Z; map_external : Z }.

(** What is asked of the router, and announced *)
Inductive UpnpEffect :=
| AddPort (external : Z) (ip : Z) (internal : Z) (ok : bool)
| RemovePort (external : Z) (ok : bool)
| UpnpCandidates (candidates : list EndpointCandidate).

Inductive UpnpError := NoIGDGateway | UpnpNoWGListenPort | IGDError | UpnpIoError | NoMatchingLocalEndpoint | UpnpPingError (e : ProviderError).

(** The outside during one step: the internal ports of the entries that the router
    lists, its answers to [add_port], [remove_port] and [get_external_ip], the random
    ports, and what the system and WireGuard say *)
Record UpnpEnv := mkUpnpEnv {
  igd_search : bool;
  igd_entries : list Z;
  igd_add : bool * bool;
  igd_remove : bool * bool;
  igd_external_ip : option Z;
  upnp_wg_random : Z;
  upnp_proxy_random : list Z;
  upnp_udp_port : option Z;
  upnp_listen_port : option Z;
  upnp_if_addrs : option (list StdIpAddr);
  upnp_handler : PingPongHandler;
  upnp_time : Z;
  upnp_nonce : bytes;
  upnp_rng : Encryption.Draws
}.

Section upnp.
Context `{Messages} `{Ciphers} `{Backoff E}.

(** [State], with the parts of [IgdGateway] *)
Record UpnpProvider := mkUpnpProvider {
  up_ip_addr : Z;
  proxy_port_mapping : PortMapping;
  wg_port_mapping : PortMapping;
  up_candidate : option EndpointCandidate;
  up_subscribed : bool;
  up_backoff : E;
  up_interval : Instant;
  up_battery : bool;
  up_paused : bool;
  igd_gw : bool;
  lease_duration : Duration;
  needs_lease_renew_at : option Instant;
  up_pings : PingIo
}.
Implicit Types (st : UpnpProvider) (log : list UpnpEffect) (now : Instant) (env : UpnpEnv).

Definition set_up_mapping (ip : Z) (proxy wg : PortMapping) st : UpnpProvider :=
  mkUpnpProvider ip proxy wg (up_candidate st) (up_subscribed st) (up_backoff st) (up_interval st) (up_battery st) (up_paused st)
    (igd_gw st) (lease_duration st) (needs_lease_renew_at st) (up_pings st).
Definition set_up_candidate (c : option EndpointCandidate) st : UpnpProvider :=
  mkUpnpProvider (up_ip_addr st) (proxy_port_mapping st) (wg_port_mapping st) c (up_subscribed st) (up_backoff st) (up_interval st)
    (up_battery st) (up_paused st) (igd_gw st) (lease_duration st) (needs_lease_renew_at st) (up_pings st).
Definition set_up_timer (backoff : E) (interval : Instant) st : UpnpProvider :=
  mkUpnpProvider (up_ip_addr st) (proxy_port_mapping st) (wg_port_mapping st) (up_candidate st) (up_subscribed st) backoff interval
    (up_battery st) (up_paused st) (igd_gw st) (lease_duration st) (needs_lease_renew_at st) (up_pings st).
Definition set_igd_gw (gw : bool) st : UpnpProvider :=
  mkUpnpProvider (up_ip_addr st) (proxy_port_mapping st) (wg_port_mapping st) (up_candidate st) (up_subscribed st) (up_backoff st)
    (up_interval st) (up_battery st) (up_paused st) gw (lease_duration st) (needs_lease_renew_at st) (up_pings st).
Definition set_lease_renew (t : Instant) st : UpnpProvider :=
  mkUpnpProvider (up_ip_addr st) (proxy_port_mapping st) (wg_port_mapping st) (up_candidate st) (up_subscribed st) (up_backoff st)
    (up_interval st) (up_battery st) (up_paused st) (igd_gw st) (lease_duration st) (Some t) (up_pings st).
Definition set_up_subscriptions (subscribed paused : bool) (io : PingIo) st : UpnpProvider :=
  mkUpnpProvider (up_ip_addr st) (proxy_port_mapping st) (wg_port_mapping st) (up_candidate st) subscribed (up_backoff st)
    (up_interval st) (up_battery st) paused (igd_gw st) (lease_duration st) (needs_lease_renew_at st) io.

(** [start_with] *)
Definition upnp_start now (backoff : E) (battery : bool) (lease : Duration) : UpnpProvider :=
  mkUpnpProvider 0 (mkPortMapping 0 0) (mkPortMapping 0 0) None false backoff (now + get_backoff backoff)%Z battery false false lease None
    (mkPingIo (mkChan true []) None).

(** *** [IgdGateway] *)

(** [lease_needs_renew] and [should_renew_lease_after] *)
Definition lease_needs_renew now st : bool := match needs_lease_renew_at st with Some t => (t <? now)%Z | None => false end.
Definition should_renew_lease_after now st : option Duration := (λ t, Z.max 0 (t - now)) <$> needs_lease_renew_at st.

(** The loop of [check_endpoint_routes] *)
Fixpoint routes_listed (proxy_port wg_port : Z) (map_ok : bool * bool) (entries : list Z) : bool :=
  match entries with
  | [] => false
  | internal :: entries =>
      let map_ok :=
        if (internal =? proxy_port)%Z then (true, map_ok.2)
        else if (internal =? wg_port)%Z then (map_ok.1, true) else map_ok in
      if map_ok.1 && map_ok.2 then true else routes_listed proxy_port wg_port map_ok entries
  end.

Definition check_endpoint_routes now env st : result UpnpError bool :=
  if igd_gw st then
    if routes_listed (map_internal (proxy_port_mapping st)) (map_internal (wg_port_mapping st)) (false, false) (igd_entries env)
    then Ok (lease_needs_renew now st) else Err IGDError
  else Err NoIGDGateway.

(** [add_endpoint_routes] and [extend_endpoint_duration]; leases are of whole
    seconds, so that three quarters of one are exact *)
Definition add_endpoint_routes now env st log : result UpnpError unit * (UpnpProvider * list UpnpEffect) :=
  if igd_gw st then
    let should_renew_after := (now + lease_duration st * 3 / 4)%Z in
    let log := log ++ [AddPort (map_external (proxy_port_mapping st)) (up_ip_addr st) (map_internal (proxy_port_mapping st)) (igd_add env).1] in
    if (igd_add env).1 then
      let log := log ++ [AddPort (map_external (wg_port_mapping st)) (up_ip_addr st) (map_internal (wg_port_mapping st)) (igd_add env).2] in
      if (igd_add env).2 then (Ok tt, (set_lease_renew should_renew_after st, log)) else (Err IGDError, (st, log))
    else (Err IGDError, (st, log))
  else (Err NoIGDGateway, (st, log)).

(** [delete_endpoint_routes] *)
Definition delete_endpoint_routes env st log : list UpnpEffect :=
  if igd_gw st then
    let log := log ++ [RemovePort (map_external (wg_port_mapping st)) (igd_remove env).1] in
    if (igd_remove env).1 then log ++ [RemovePort (map_external (proxy_port_mapping st)) (igd_remove env).2] else log
  else log.

(** [get_my_local_endpoints] *)
Definition get_my_local_endpoints (igd_ip : Z) (ifs : option (list StdIpAddr)) : result UpnpError Z :=
  match ifs with
  | None => Err UpnpIoError
  | Some ifs =>
      let find_map ip :=
        if is_loopback ip then None
        else
          match ip with
          | V4 v4 => if in_shared_range v4 && negb (Z.shiftr v4 16 =? Z.shiftr igd_ip 16)%Z then None else Some v4
          | V6 _ => None
          end in
      match omap find_map ifs with v4 :: _ => Ok v4 | [] => Err NoMatchingLocalEndpoint end
  end.

(** *** The endpoint *)

(** [create_random_endpoint_ports]; the loop ends with the first draw that differs *)
Definition other_port (wg_external : Z) (draws : list Z) : option Z := List.find (λ r, negb (r =? wg_external)%Z) draws.

(** [send_endpoint_candidate] *)
Definition send_endpoint_candidate st log : list UpnpEffect :=
  match up_candidate st with
  | Some epc => if up_subscribed st then log ++ [UpnpCandidates [epc]] else log
  | None => log
  end.

(** [create_endpoint_candidate], with the port of the loop *)
Definition create_endpoint_candidate now env (proxy_random : Z) st log : result UpnpError unit * (UpnpProvider * list UpnpEffect) :=
  let wg := mkPortMapping (map_internal (wg_port_mapping st)) (upnp_wg_random env) in
  let proxy := mkPortMapping (map_internal (proxy_port_mapping st)) proxy_random in
  let st := set_up_mapping (up_ip_addr st) proxy wg st in
  match upnp_udp_port env with
  | None => (Err UpnpIoError, (st, log))
  | Some udp_port =>
      let proxy := mkPortMapping udp_port (map_external proxy) in
      let st := set_up_mapping (up_ip_addr st) proxy wg st in
      match upnp_listen_port env with
      | None => (Err UpnpIoError, (st, log))
      | Some listen_port =>
          let wg := mkPortMapping listen_port (map_external wg) in
          let st := set_up_mapping (up_ip_addr st) proxy wg st in
          match (if igd_gw st then igd_external_ip env else None) with
          | None => (Err NoIGDGateway, (st, log))
          | Some ext_ip =>
              match get_my_local_endpoints ext_ip (upnp_if_addrs env) with
              | Err e => (Err e, (st, log))
              | Ok ip =>
                  let st := set_up_mapping ip proxy wg st in
                  match add_endpoint_routes now env st log with
                  | (Err e, r) => (Err e, r)
                  | (Ok _, (st, log)) =>
                      let epc := mkEndpointCandidate (SocketAddrV4 ext_ip (map_external wg)) (SocketAddrV4 ext_ip (map_external proxy)) in
                      let st := set_up_candidate (Some epc) st in
                      (Ok tt, (st, send_endpoint_candidate st log))
                  end
              end
          end
      end
  end.

(** [check_endpoint_candidate] *)
Definition check_endpoint_candidate now env st log : result UpnpError unit * (UpnpProvider * list UpnpEffect) :=
  match up_candidate st with
  | None => (Err NoIGDGateway, (set_igd_gw false st, log))
  | Some _ =>
      match check_endpoint_routes now env st with
      | Ok true => add_endpoint_routes now env st log
      | Ok false => (Ok tt, (st, log))
      | Err _ => (Err NoIGDGateway, (set_igd_gw false st, delete_endpoint_routes env st log))
      end
  end.

(** [get_wg_port], [send_ping] and [handle_ping_rx] *)
Definition upnp_get_wg_port st : option WGPort := (λ epc, mkWGPort (socket_port (candidate_wg epc))) <$> up_candidate st.

Definition upnp_send_ping env (addr : SocketAddr) (session_id : Session) (public_key : PublicKey) st : result UpnpError unit * UpnpProvider :=
  match upnp_get_wg_port st with
  | Some port =>
      let '(r, io) := send_ping (upnp_time env) (upnp_rng env) (upnp_handler env) addr port session_id public_key (up_pings st) in
      (match r with Ok _ => Ok tt | Err e => Err (UpnpPingError e) end, set_up_subscriptions (up_subscribed st) (up_paused st) io st)
  | None => (Err UpnpNoWGListenPort, st)
  end.

Definition upnp_handle_ping_rx env (encrypted_buf : bytes) (addr : SocketAddr) st : result UpnpError unit * UpnpProvider :=
  match upnp_get_wg_port st with
  | Some port =>
      let '(r, io) :=
        handle_rx_packet (upnp_time env) (upnp_nonce env) (upnp_handler env) encrypted_buf addr port Upnp (up_pings st) in
      (match r with Ok _ => Ok tt | Err e => Err (UpnpPingError e) end, set_up_subscriptions (up_subscribed st) (up_paused st) io st)
  | None => (Err UpnpNoWGListenPort, st)
  end.

(** *** The loop *)

(** The first part of [wait_with_update], for a paused provider: it waits for the
    first tick of an interval, and goes on when that has come *)
Definition paused_gate now st : outcome bool :=
  if negb (lease_needs_renew now st) && up_paused st then
    match interval_now now (default UPNP_FAR_FUTURE (should_renew_lease_after now st)) with
    | Returns renew_interval => Returns (next_tick renew_interval <=? now)%Z
    | Panics => Panics
    end
  else Returns true.

Inductive UpnpInput :=
| UpnpRx (buf : bytes) (addr : SocketAddr)
| UpnpGateway
| UpnpElapsed
| UpnpSubscribe
| UpnpSubscribePong (publisher : Chan PongEvent)
| UpnpTrigger
| UpnpEndpointGone
| UpnpPing (addr : SocketAddr) (session_id : Session) (public_key : PublicKey)
| UpnpPause
| UpnpUnpause
| UpnpStop.

(** The branches of the second part: a gateway is searched for while there is none,
    and the loop that draws a port has to end *)
Definition upnp_enabled now env (i : UpnpInput) st : bool :=
  match i with
  | UpnpRx _ _ => true
  | UpnpGateway => negb (igd_gw st) && bool_decide (is_Some (other_port (upnp_wg_random env) (upnp_proxy_random env)))
  | UpnpElapsed => (up_interval st <=? now)%Z
  | _ => true
  end.

Definition in_loop (i : UpnpInput) : bool := match i with UpnpRx _ _ | UpnpGateway | UpnpElapsed => true | _ => false end.

(** The branch of the gateway *)
Definition upnp_gateway now env st log : UpnpProvider * list UpnpEffect :=
  if igd_search env then
    let st := set_igd_gw true st in
    let '(r, (st, log)) :=
      create_endpoint_candidate now env (default 0%Z (other_port (upnp_wg_random env) (upnp_proxy_random env))) st log in
    let st := match r with Ok _ => st | Err _ => set_igd_gw false st end in
    let backoff := reset_backoff (up_backoff st) in
    (set_up_timer backoff (now + get_backoff backoff)%Z st, log)
  else (st, log).

(** The branch of the timer *)
Definition upnp_elapsed now env st log : outcome (UpnpProvider * list UpnpEffect) :=
  let st := set_up_timer (up_backoff st) (now + get_backoff (up_backoff st))%Z st in
  match check_endpoint_candidate now env st log with
  | (Ok _, (st, log)) => Returns (set_up_timer (reset_backoff (up_backoff st)) (up_interval st) st, log)
  | (Err _, (st, log)) =>
      match next_backoff (up_backoff st) with
      | Returns backoff => Returns (set_up_timer backoff (up_interval st) st, log)
      | Panics => Panics
      end
  end.

Definition upnp_step now env (i : UpnpInput) st log : outcome (UpnpProvider * list UpnpEffect) :=
  match i with
  | UpnpRx buf addr => Returns ((upnp_handle_ping_rx env buf addr st).2, log)
  | UpnpGateway => Returns (upnp_gateway now env st log)
  | UpnpElapsed => upnp_elapsed now env st log
  | UpnpSubscribe => Returns (set_up_subscriptions true (up_paused st) (up_pings st) st, log)
  | UpnpSubscribePong publisher =>
      Returns (set_up_subscriptions (up_subscribed st) (up_paused st) (mkPingIo (udp_socket (up_pings st)) (Some publisher)) st, log)
  | UpnpTrigger => Returns (st, send_endpoint_candidate st log)
  | UpnpEndpointGone => Returns (set_up_candidate None st, log)
  | UpnpPing addr session_id public_key => Returns ((upnp_send_ping env addr session_id public_key st).2, log)
  | UpnpPause => Returns (if up_battery st then set_up_subscriptions (up_subscribed st) true (up_pings st) st else st, log)
  | UpnpUnpause => Returns (set_up_subscriptions (up_subscribed st) false (up_pings st) st, log)
  | UpnpStop =>
      Returns (st, match up_candidate st with Some _ => delete_endpoint_routes env st log | None => log end)
  end.

(** [get_internal_socket] and [get_current_endpoints] *)
Definition get_internal_socket st : option SocketAddr :=
  match up_candidate st with Some _ => Some (SocketAddrV4 (up_ip_addr st) (map_internal (proxy_port_mapping st))) | None => None end.
Definition upnp_current_endpoints st : option (list EndpointCandidate) := (λ c, [c]) <$> up_candidate st.
End upnp.
