(* ===== verification/ProvidersProps.v ===== *)
(** * Theorems about the local and the UPnP endpoint provider *)

From S2P Require Import Prelude NetTypes WgTypes Crypto NetText Proto ProtoProps PingPong Backoff CrossPing StarcastNat SessionKeeper Providers.

(** ** The local provider *)

Section local.
Context `{Messages} `{Ciphers}.

(** An address that is announced: of IPv4, neither of the loopback interface nor of
    the mesh network *)
Definition announceable (ip : StdIpAddr) : Prop := ∃ v4, ip = V4 v4 ∧ is_loopback ip = false ∧ in_shared_range v4 = false.

Lemma elem_of_gather ifs ip : ip ∈ gather_local_interfaces ifs ↔ ip ∈ ifs ∧ announceable ip.
Proof.
  unfold gather_local_interfaces, announceable. rewrite list_elem_of_filter, andb_true_iff, negb_true_iff. split.
  - intros [[Hl Hp] Hin]. split; [done|]. destruct ip as [v4|v6]; [|done]. exists v4. by rewrite negb_true_iff in Hp.
  - intros [Hin (v4 & -> & Hl & Hs)]. by rewrite Hs.
Qed.

(** A poll that succeeds leaves the provider with the candidates of exactly the
    addresses that can be announced; a subscriber is told of them if they are not
    those it was told of before, and of nothing else. *)
Lemma poll_announces env st publisher wg_port udp_port ifs :
  local_publisher st = Some publisher → chan_open publisher = true →
  local_listen_port env = Some wg_port → local_udp_port env = Some udp_port → local_if_addrs env = Some ifs →
  ∃ st', poll_local_endpoints env st = (Ok tt, st') ∧
    (∀ c, c ∈ local_last st' ↔ ∃ ip, ip ∈ ifs ∧ announceable ip ∧
      c = mkEndpointCandidate (socket_addr_new ip wg_port) (socket_addr_new ip udp_port)) ∧
    chan_sent <$> local_publisher st' =
      Some (chan_sent publisher ++ if decide (local_last st' = local_last st) then [] else [local_last st']).
Proof.
  intros Hp Ho Hw Hu Hi. unfold poll_local_endpoints, local_get_wg_port. rewrite Hp, Hw, Hu, Hi.
  set (l := _ <$> gather_local_interfaces ifs).
  assert (∀ c, c ∈ l ↔ ∃ ip, ip ∈ ifs ∧ announceable ip ∧
    c = mkEndpointCandidate (socket_addr_new ip wg_port) (socket_addr_new ip udp_port)) as Hl.
  { intros c. unfold l. rewrite list_elem_of_fmap. setoid_rewrite elem_of_gather. naive_solver. }
  case_bool_decide as Hc.
  - unfold chan_send. rewrite Ho. eexists. split; [done|]. split; [exact Hl|]. cbn. by rewrite decide_False by congruence.
  - exists st. split; [done|]. rewrite Hc. split; [exact Hl|]. rewrite Hp. cbn. by rewrite decide_True, app_nil_r.
Qed.
End local.

(** ** The UPnP provider *)

Section upnp.
Context `{Messages} `{Ciphers} `{Backoff E}.
Implicit Types (st : UpnpProvider (E := E)) (log : list UpnpEffect) (seen : list UpnpEnv).

(** The provider with what was found around it in the steps so far *)
Inductive upnp_history : Instant → list UpnpEnv → UpnpProvider (E := E) → list UpnpEffect → Prop :=
| Upnp_start now backoff battery lease : upnp_history now [] (upnp_start now backoff battery lease) []
| Upnp_step now seen st log now' env i st' log' : upnp_history now seen st log → (now <= now')%Z →
    upnp_enabled now' env i st = true → (in_loop i = true → paused_gate now' st = Returns true) →
    upnp_step now' env i st log = Returns (st', log') → upnp_history now' (seen ++ [env]) st' log'.

(** The two ports of a candidate were forwarded by the router, together: in one of
    the steps, the port drawn first to the port WireGuard listened on and another one
    to the port of the proxy, at the local address that was chosen for the router; and
    the address of the candidate is the one that the router then had. *)
Definition routed seen log (c : EndpointCandidate) : Prop :=
  ∃ env ext ip wg_int udp_ext udp_int l1 l2, env ∈ seen ∧
    igd_external_ip env = Some ext ∧ get_my_local_endpoints ext (upnp_if_addrs env) = Ok ip ∧
    upnp_listen_port env = Some wg_int ∧ upnp_udp_port env = Some udp_int ∧
    other_port (upnp_wg_random env) (upnp_proxy_random env) = Some udp_ext ∧ upnp_wg_random env ≠ udp_ext ∧
    log = l1 ++ [AddPort udp_ext ip udp_int true; AddPort (upnp_wg_random env) ip wg_int true] ++ l2 ∧
    c = mkEndpointCandidate (SocketAddrV4 ext (upnp_wg_random env)) (SocketAddrV4 ext udp_ext).

Lemma routed_app {seen} log c l : routed seen log c → routed seen (log ++ l) c.
Proof.
  intros (env & ext & ip & wi & ue & ui & l1 & l2 & Hx). exists env, ext, ip, wi, ue, ui, l1, (l2 ++ l).
  destruct_and! Hx. subst. split_and!; try done. by rewrite <-!app_assoc.
Qed.

Definition upnp_ok seen st log : Prop :=
  (∀ c, up_candidate st = Some c → routed seen log c) ∧ ∀ l c, UpnpCandidates l ∈ log → c ∈ l → routed seen log c.

Lemma upnp_ok_seen {seen} st log l : upnp_ok seen st log → upnp_ok (seen ++ l) st log.
Proof.
  assert (∀ c, routed seen log c → routed (seen ++ l) log c) as Hr.
  { intros c (env & ext & ip & wi & ue & ui & l1 & l2 & Hin & Hx). exists env, ext, ip, wi, ue, ui, l1, l2.
    split; [apply elem_of_app; by left|exact Hx]. }
  intros [Hc Hl]. split; eauto.
Qed.

(** Effects that announce nothing *)
Definition quiet (l : list UpnpEffect) : Prop := ∀ cs, UpnpCandidates cs ∉ l.

Lemma upnp_ok_log {seen} st st' log l : upnp_ok seen st log → quiet l →
  (up_candidate st' = up_candidate st ∨ up_candidate st' = None) → upnp_ok seen st' (log ++ l).
Proof.
  intros [Hc Hl] Hq Hs. split.
  - intros c Ec. apply routed_app, Hc. destruct Hs as [<-|Hs]; congruence.
  - intros cs c [Hin|Hin]%elem_of_app Hcs; [by eapply routed_app, Hl|by destruct (Hq cs)].
Qed.

Lemma upnp_ok_same {seen} st st' log : upnp_ok seen st log → (up_candidate st' = up_candidate st ∨ up_candidate st' = None) → upnp_ok seen st' log.
Proof. intros Hok Hs. rewrite <-(app_nil_r log). apply (upnp_ok_log st); [done|by intros cs ?%elem_of_nil|done]. Qed.

Lemma send_candidate_ok {seen} st log : upnp_ok seen st log → upnp_ok seen st (send_endpoint_candidate st log).
Proof.
  intros [Hc Hl]. unfold send_endpoint_candidate. destruct (up_candidate st) as [epc|] eqn:Ec; [|by split; rewrite ?Ec].
  destruct (up_subscribed st); [|by split; rewrite ?Ec]. split.
  - intros c [= <-]%(eq_trans (eq_sym Ec)). by apply routed_app, Hc.
  - intros cs c [Hin|Hin%list_elem_of_singleton]%elem_of_app Hcs; [by eapply routed_app, Hl|]. simplify_eq.
    apply list_elem_of_singleton in Hcs as ->. by apply routed_app, Hc.
Qed.

(** What adding the routes does *)
Lemma add_routes_spec now env st log r st' log' : add_endpoint_routes now env st log = (r, (st', log')) →
  ∃ l, log' = log ++ l ∧ quiet l ∧ up_candidate st' = up_candidate st ∧ up_subscribed st' = up_subscribed st ∧
    (r = Ok tt → l = [AddPort (map_external (proxy_port_mapping st)) (up_ip_addr st) (map_internal (proxy_port_mapping st)) true;
                      AddPort (map_external (wg_port_mapping st)) (up_ip_addr st) (map_internal (wg_port_mapping st)) true]).
Proof.
  unfold add_endpoint_routes. intros Hr. destruct (igd_gw st); [|simplify_eq; exists []; rewrite app_nil_r; split_and!; try done; by intros cs ?%elem_of_nil].
  destruct (igd_add env) as [[] ok2]; cbn [fst snd] in Hr; [destruct ok2|]; simplify_eq; eexists; rewrite <-?app_assoc;
    (split; [done|]; split_and!; try done); intros cs Hin; by repeat (apply elem_of_cons in Hin as [Hin|Hin]; [done|]); apply elem_of_nil in Hin.
Qed.

Lemma other_port_ne wg draws p : other_port wg draws = Some p → wg ≠ p.
Proof. unfold other_port. intros [_ Hp]%find_some. intros ->. by rewrite Z.eqb_refl in Hp. Qed.

Lemma create_candidate_ok {seen} now env proxy_random st log : upnp_ok seen st log → env ∈ seen →
  other_port (upnp_wg_random env) (upnp_proxy_random env) = Some proxy_random →
  let r := (create_endpoint_candidate now env proxy_random st log).2 in upnp_ok seen r.1 r.2.
Proof.
  intros Hok Hin Hp. unfold create_endpoint_candidate.
  destruct (upnp_udp_port env) as [udp_port|] eqn:Eu; [|by apply (upnp_ok_same st); [|left]].
  destruct (upnp_listen_port env) as [listen_port|] eqn:Ew; [|by apply (upnp_ok_same st); [|left]].
  cbn [igd_gw set_up_mapping]. destruct (if igd_gw st then igd_external_ip env else None) as [ext_ip|] eqn:Ee; [|by apply (upnp_ok_same st); [|left]].
  destruct (get_my_local_endpoints ext_ip (upnp_if_addrs env)) as [ip|e] eqn:Ei; [|by apply (upnp_ok_same st); [|left]].
  set (st0 := set_up_mapping ip _ _ _). destruct (add_endpoint_routes now env st0 log) as [r [st1 log1]] eqn:Ea.
  destruct (add_routes_spec now env st0 log r st1 log1 Ea) as (l & -> & Hq & Hc & Hs & Hl).
  assert (upnp_ok seen st1 (log ++ l)) as Hok1 by (apply (upnp_ok_log st); [done|done|left; exact Hc]).
  destruct r as [[]|e]; cbn [fst snd]; [|exact Hok1]. apply send_candidate_ok. split; [|apply Hok1].
  intros c [= <-]. specialize (Hl eq_refl). destruct (igd_gw st); [|done].
  exists env, ext_ip, ip, listen_port, proxy_random, udp_port, log, []. rewrite app_nil_r.
  split_and!; try done; [by eapply other_port_ne|by rewrite Hl].
Qed.

Lemma check_candidate_ok {seen} now env st log : upnp_ok seen st log →
  let r := (check_endpoint_candidate now env st log).2 in upnp_ok seen r.1 r.2 ∧ up_candidate r.1 = up_candidate st.
Proof.
  intros Hok. unfold check_endpoint_candidate. destruct (up_candidate st) as [c|] eqn:Ec.
  2:{ split; [by apply (upnp_ok_same st); [|left]|exact Ec]. }
  destruct (check_endpoint_routes now env st) as [[]|e]; [| |].
  - destruct (add_endpoint_routes now env st log) as [r [st1 log1]] eqn:Ea.
    destruct (add_routes_spec now env st log r st1 log1 Ea) as (l & -> & Hq & Hc & _). cbn [fst snd].
    split; [apply (upnp_ok_log st); [done|done|by left]|congruence].
  - done.
  - split; [|exact Ec]. cbn [fst snd]. unfold delete_endpoint_routes.
    destruct (igd_gw st); [destruct (igd_remove env).1; rewrite <-?app_assoc|by apply (upnp_ok_same st); [|left]];
      (apply (upnp_ok_log st); [done| |by left]); intros cs Hin;
      by repeat (apply elem_of_cons in Hin as [Hin|Hin]; [done|]); apply elem_of_nil in Hin.
Qed.

Lemma upnp_step_ok {seen} now env i st log st' log' : upnp_ok seen st log → env ∈ seen → upnp_enabled now env i st = true →
  upnp_step now env i st log = Returns (st', log') → upnp_ok seen st' log'.
Proof.
  intros Hok Hseen Hen Hs. destruct i as [buf addr| | | |publisher| | |addr sid pk| | |]; cbn [upnp_step upnp_enabled] in Hs, Hen; try (injection Hs as <- <-).
  - unfold upnp_handle_ping_rx. destruct (upnp_get_wg_port st); [|done]. destruct (handle_rx_packet _ _ _ _ _ _ _ _).
    by apply (upnp_ok_same st); [|left].
  - injection Hs as Hs. unfold upnp_gateway in Hs. destruct (igd_search env); [|by simplify_eq].
    apply andb_true_iff in Hen as [_ [p Hp]%bool_decide_eq_true]. rewrite Hp in Hs. cbn [from_option id] in Hs. unfold id in Hs.
    assert (upnp_ok seen (set_igd_gw true st) log) as Hok1 by (by apply (upnp_ok_same st); [|left]).
    pose proof (create_candidate_ok now env p _ log Hok1 Hseen Hp) as Hc.
    destruct (create_endpoint_candidate now env p (set_igd_gw true st) log) as [r [st1 log1]]. cbn [fst snd] in Hc. cbv beta iota zeta in Hs. injection Hs as <- <-.
    apply (upnp_ok_same st1); [done|left]. by destruct r.
  - unfold upnp_elapsed in Hs. set (st0 := set_up_timer _ _ st) in Hs.
    assert (upnp_ok seen st0 log) as Hok1 by (by apply (upnp_ok_same st); [|left]).
    destruct (check_candidate_ok now env st0 log Hok1) as [Hc _].
    destruct (check_endpoint_candidate now env st0 log) as [[[]|e] [st1 log1]]; cbn [fst snd] in Hc;
      [|destruct (next_backoff (up_backoff st1)); [|done]]; simplify_eq; by apply (upnp_ok_same st1); [|left].
  - by apply (upnp_ok_same st); [|left].
  - by apply (upnp_ok_same st); [|left].
  - by apply send_candidate_ok.
  - by apply (upnp_ok_same st); [|right].
  - unfold upnp_send_ping. destruct (upnp_get_wg_port st); [|done]. destruct (send_ping _ _ _ _ _ _ _ _).
    by apply (upnp_ok_same st); [|left].
  - by destruct (up_battery st); apply (upnp_ok_same st); [|left| |left].
  - by apply (upnp_ok_same st); [|left].
  - destruct (up_candidate st); [|done]. unfold delete_endpoint_routes.
    destruct (igd_gw st); [destruct (igd_remove env).1; rewrite <-?app_assoc|done];
      (apply (upnp_ok_log st); [done| |by left]); intros cs Hin;
      by repeat (apply elem_of_cons in Hin as [Hin|Hin]; [done|]); apply elem_of_nil in Hin.
Qed.

(** C34: Whatever the router answers and in whatever order things happen, a candidate that
    the UPnP provider has, or has ever announced, was forwarded: the router had accepted
    two mappings, one right after the other, of two different external ports, the one of
    WireGuard to the port on which it listened and the other to the port of the proxy,
    both at the local address chosen for the external address of the router; and the
    candidate is made of that external address and of these two external ports. All the
    ports and addresses are what one and the same step found or drew. *)
Theorem upnp_candidates_routed now seen st log l c : upnp_history now seen st log →
  UpnpCandidates l ∈ log ∨ upnp_current_endpoints st = Some l → c ∈ l → routed seen log c.
Proof.
  intros Hh Hl Hc. assert (upnp_ok seen st log) as [Hcur Hann].
  { clear Hl Hc. induction Hh as [now backoff battery lease|now seen st log now' env i st' log' Hh IH Hle Hen Hg Hs].
    { split; [done|]. by intros l' c' ?%elem_of_nil. }
    eapply upnp_step_ok; [by apply upnp_ok_seen| |done|done]. apply elem_of_app. right. by left. }
  destruct Hl as [Hl|Hl]; [by eapply Hann|]. unfold upnp_current_endpoints in Hl.
  destruct (up_candidate st) as [c'|]; simplify_eq/=. apply list_elem_of_singleton in Hc as ->. by apply Hcur.
Qed.

(** ** What does not work

    A pause does not hold the loop up, because the first tick of an interval comes at
    once; and when the lease is to be renewed this very instant, it panics. *)
Lemma pause_does_not_pause now st :
  paused_gate now st =
    if up_paused st && bool_decide (needs_lease_renew_at st = Some now) then Panics else Returns true.
Proof.
  unfold paused_gate, lease_needs_renew, should_renew_lease_after, interval_now, interval_at.
  destruct (up_paused st); [|by rewrite andb_false_r]. destruct (needs_lease_renew_at st) as [t|]; cbn [fmap option_fmap option_map from_option id andb negb].
  - destruct (Z.ltb_spec t now) as [Hlt|Hle]; cbn [andb negb]; [by rewrite (bool_decide_eq_false_2 (Some t = Some now)) by (intros [=]; lia)|].
    replace (bool_decide (Some t = Some now)) with (bool_decide (Z.max 0 (t - now) = 0)%Z)
      by (apply bool_decide_ext; split; [intros; f_equal; lia|intros [=]; lia]).
    unfold id. case_bool_decide; [done|]. cbn [next_tick]. by rewrite Z.leb_refl.
  - rewrite (bool_decide_eq_false_2 (UPNP_FAR_FUTURE = 0%Z)) by done. cbn [next_tick]. by rewrite Z.leb_refl.
Qed.

(** An endpoint that the router does not have any more is dropped there, but the
    provider keeps and announces the candidate. *)
Lemma dropped_endpoint_is_announced now env st log c : up_candidate st = Some c → up_subscribed st = true → igd_gw st = true →
  routes_listed (map_internal (proxy_port_mapping st)) (map_internal (wg_port_mapping st)) (false, false) (igd_entries env) = false →
  let r := (check_endpoint_candidate now env st log).2 in
  igd_gw r.1 = false ∧ send_endpoint_candidate r.1 r.2 = r.2 ++ [UpnpCandidates [c]].
Proof.
  intros Hc Hs Hg Hl. unfold check_endpoint_candidate, check_endpoint_routes. rewrite Hc, Hg, Hl. cbn [fst snd].
  split; [done|]. unfold send_endpoint_candidate. cbn. by rewrite Hc, Hs.
Qed.

(** A creation that fails leaves the old candidate with the numbers of the new ports. *)
Lemma failed_creation_keeps_candidate now env port st log e : (create_endpoint_candidate now env port st log).1 = Err e →
  let r := (create_endpoint_candidate now env port st log).2 in
  up_candidate r.1 = up_candidate st ∧ map_external (proxy_port_mapping r.1) = port ∧ map_external (wg_port_mapping r.1) = upnp_wg_random env.
Proof.
  unfold create_endpoint_candidate. destruct (upnp_udp_port env); [|done]. destruct (upnp_listen_port env); [|done].
  cbn [igd_gw set_up_mapping]. destruct (if igd_gw st then igd_external_ip env else None); [|done].
  destruct (get_my_local_endpoints _ _); [|done]. unfold add_endpoint_routes.
  repeat (case_match; cbn [fst snd]; try done); by intros; simplify_eq.
Qed.
End upnp.

Module ProviderSamples.
Import ToyCrypto CryptoSamples.
#[local] Existing Instance CountablePb.messages.
#[local] Existing Instance ToyCiphers.

Definition router : UpnpEnv :=
  mkUpnpEnv true [] (true, true) (true, true) (Some (ipv4_addr 203 0 113 7)) 50000 [50000; 50001]%Z (Some 40000%Z) (Some 51820%Z)
    (Some [V4 (ipv4_addr 127 0 0 1); V4 (ipv4_addr 100 64 0 1); V4 (ipv4_addr 192 168 1 2)]) (ping_pong_new alice) 0 [] rng.
Definition upnp0 : UpnpProvider (E := ExponentialBackoff) :=
  upnp_start 0 (mkExponentialBackoff backoff_bounds_default (from_secs 2)) false (from_secs 3600).
Definition upnp1 : UpnpProvider (E := ExponentialBackoff) := set_up_subscriptions true (up_paused upnp0) (up_pings upnp0) upnp0.
Definition found : UpnpProvider (E := ExponentialBackoff) * list UpnpEffect := upnp_gateway (from_secs 1) router upnp1 [].
Definition external0 : EndpointCandidate :=
  mkEndpointCandidate (SocketAddrV4 (ipv4_addr 203 0 113 7) 50000) (SocketAddrV4 (ipv4_addr 203 0 113 7) 50001).

Lemma upnp_candidates_routed_witness : upnp_current_endpoints found.1 = Some [external0] ∧ routed [router; router] found.2 external0.
Proof.
  assert (upnp_current_endpoints found.1 = Some [external0]) as Hc by (vm_compute; reflexivity). split; [exact Hc|].
  assert (upnp_history 0 [router] upnp1 []) as H1.
  { eapply (Upnp_step 0 [] upnp0 [] 0 router UpnpSubscribe); [apply Upnp_start|done|done|done|reflexivity]. }
  assert (upnp_history (from_secs 1) [router; router] found.1 found.2) as H2.
  { apply (Upnp_step 0 [router] upnp1 [] (from_secs 1) router UpnpGateway found.1 found.2 H1); [vm_compute; done|reflexivity|reflexivity|].
    cbn [upnp_step]. unfold found. by destruct (upnp_gateway (from_secs 1) router upnp1 []). }
  apply (upnp_candidates_routed (from_secs 1) [router; router] found.1 found.2 [external0] external0 H2); [by right|by left].
Defined.
End ProviderSamples.
