(* ===== verification/DnsPackets.v ===== *)
(** * Headers with fields of bits

    [src/crates/telio-dns] reads queries and writes responses through the views of
    the crate [pnet_packet], which is not part of the repository.  [DnsPackets] is
    what it uses of them, as views in the sense of [PacketViews], and
    [DnsPacketsLaws] what it relies on: setters write their field, fields are in the
    header, checksums skip the field that they are for.  [RfcDns] has the layouts of
    the RFCs and the checksums of RFC 1071. *)

From S2P Require Import Prelude NetTypes FirewallReset NetText PacketViews Checksum.

(** ** The interface *)

Inductive DnsIpv4Field :=
| D4Version | D4HeaderLength | D4Dscp | D4Ecn | D4TotalLength | D4Identification | D4Flags | D4FragmentOffset
| D4Ttl | D4Protocol | D4Checksum | D4Source | D4Destination.
Inductive DnsIpv6Field :=
| D6Version | D6TrafficClass | D6FlowLabel | D6PayloadLength | D6NextHeader | D6HopLimit | D6Source | D6Destination.
Inductive DnsUdpField := DuSource | DuDestination | DuLength | DuChecksum.
Inductive DnsTcpField :=
| DtSource | DtDestination | DtSequence | DtAcknowledgement | DtDataOffset | DtFlags | DtWindow | DtChecksum | DtUrgent.

#[export] Instance DnsIpv4Field_eq_dec : EqDecision DnsIpv4Field.
Proof. solve_decision. Defined.
#[export] Instance DnsIpv6Field_eq_dec : EqDecision DnsIpv6Field.
Proof. solve_decision. Defined.
#[export] Instance DnsUdpField_eq_dec : EqDecision DnsUdpField.
Proof. solve_decision. Defined.
#[export] Instance DnsTcpField_eq_dec : EqDecision DnsTcpField.
Proof. solve_decision. Defined.

Class DnsPackets := {
  d4 : View DnsIpv4Field;
  d4_payload : bytes → bytes;
  d6 : View DnsIpv6Field;
  d6_payload : bytes → bytes;
  du : View DnsUdpField;
  du_payload : bytes → bytes;
  (** [MutableUdpPacket::set_payload] *)
  du_with_payload : bytes → bytes → bytes;
  dt : View DnsTcpField;
  (** [ipv4::checksum]; [udp::ipv4_checksum], [udp::ipv6_checksum] and those of
      [tcp], with the source and the destination *)
  d4_checksum : bytes → Z;
  du_checksum4 : bytes → Z → Z → Z;
  du_checksum6 : bytes → Z → Z → Z;
  dt_checksum4 : bytes → Z → Z → Z;
  dt_checksum6 : bytes → Z → Z → Z
}.

(** The widths of the fields, in bits *)
Definition d4_width (f : DnsIpv4Field) : Z :=
  match f with
  | D4Version | D4HeaderLength => 4
  | D4Dscp => 6
  | D4Ecn => 2
  | D4Flags => 3
  | D4FragmentOffset => 13
  | D4Ttl | D4Protocol => 8
  | D4TotalLength | D4Identification | D4Checksum => 16
  | D4Source | D4Destination => 32
  end.
Definition d6_width (f : DnsIpv6Field) : Z :=
  match f with
  | D6Version => 4
  | D6TrafficClass | D6NextHeader | D6HopLimit => 8
  | D6FlowLabel => 20
  | D6PayloadLength => 16
  | D6Source | D6Destination => 128
  end.
Definition du_width (f : DnsUdpField) : Z := 16.
Definition dt_width (f : DnsTcpField) : Z :=
  match f with
  | DtSequence | DtAcknowledgement => 32
  | DtDataOffset => 4
  | DtFlags => 8
  | _ => 16
  end.

(** A view of a buffer that has room for the header, whose fields are in the header *)
Record HeaderLaws {F} (v : View F) (header : nat) : Prop := {
  law_view_new b : view_new v b = bool_decide (header ≤ length b);
  law_get_header f b : view_get v f (take header b) = view_get v f b;
  law_set_behind f x b : drop header (view_set v f x b) = drop header b
}.

Class DnsPacketsLaws `{DnsPackets} : Prop := {
  d4_laws : ViewLaws d4 d4_width;
  d4_header : HeaderLaws d4 20;
  (** The payload goes from the end of the header to the total length. *)
  d4_payload_range b : view_get d4 D4HeaderLength b = 5%Z →
    d4_payload b = take (Z.to_nat (view_get d4 D4TotalLength b) - 20) (drop 20 b);
  d4_payload_bytes b : is_bytes b → is_bytes (d4_payload b);
  d6_laws : ViewLaws d6 d6_width;
  d6_header : HeaderLaws d6 40;
  d6_payload_range b : d6_payload b = take (Z.to_nat (view_get d6 D6PayloadLength b)) (drop 40 b);
  du_laws : ViewLaws du du_width;
  du_header : HeaderLaws du 8;
  du_payload_range b : du_payload b = drop 8 b;
  du_put p b : 8 + length p = length b → du_with_payload p b = take 8 b ++ p;
  dt_laws : ViewLaws dt dt_width;
  dt_header : HeaderLaws dt 20;
  (** The checksum of a header without options, and all of them without their field *)
  d4_checksum_header b : view_get d4 D4HeaderLength b = 5%Z → d4_checksum (take 20 b) = d4_checksum b;
  d4_checksum_skips x b : d4_checksum (view_set d4 D4Checksum x b) = d4_checksum b;
  du_checksum4_skips x b s d : du_checksum4 (view_set du DuChecksum x b) s d = du_checksum4 b s d;
  du_checksum6_skips x b s d : du_checksum6 (view_set du DuChecksum x b) s d = du_checksum6 b s d;
  d4_checksum_uint b : is_bytes b → is_uint 16 (d4_checksum b);
  du_checksum4_uint b s d : is_bytes b → is_uint 16 (du_checksum4 b s d);
  du_checksum6_uint b s d : is_bytes b → is_uint 16 (du_checksum6 b s d)
}.

(** ** Views of bits

    A field is a range of bits of the number that some bytes of the header are. *)
Record BitField := mkBitField { bf_off : nat; bf_size : nat; bf_shift : Z; bf_bits : Z }.

Definition bits_get (s w v : Z) : Z := Z.land (Z.shiftr v s) (Z.ones w).
Definition bits_set (s w x v : Z) : Z := Z.lor (Z.ldiff v (Z.shiftl (Z.ones w) s)) (Z.shiftl (Z.land x (Z.ones w)) s).

Lemma testbit_mask w i : (0 <= w)%Z → (0 <= i)%Z → Z.testbit (Z.ones w) i = bool_decide (i < w)%Z.
Proof.
  intros Hw Hi. case_bool_decide; [apply Z.ones_spec_low; lia|apply Z.ones_spec_high; lia].
Qed.

Lemma bits_get_set s w x v : (0 <= s)%Z → (0 <= w)%Z → is_uint w x → bits_get s w (bits_set s w x v) = x.
Proof.
  intros Hs Hw [Hx0 Hx]. unfold bits_get, bits_set. rewrite <-(Z.mod_small x (2 ^ w)) at 2 by lia. rewrite <-Z.land_ones by lia.
  apply Z.bits_inj'. intros i Hi. rewrite !Z.land_spec, Z.shiftr_spec, Z.lor_spec, Z.ldiff_spec, !Z.shiftl_spec by lia.
  replace (i + s - s)%Z with i by lia. rewrite Z.land_spec. rewrite testbit_mask by lia. case_bool_decide; [|by rewrite !andb_false_r].
  by rewrite !andb_true_r, andb_false_r.
Qed.

Lemma bits_get_set_ne s w t u x v : (0 <= s)%Z → (0 <= w)%Z → (0 <= t)%Z → (0 <= u)%Z → (s + w <= t ∨ t + u <= s)%Z →
  bits_get t u (bits_set s w x v) = bits_get t u v.
Proof.
  intros Hs Hw Ht Hu Hd. unfold bits_get, bits_set. apply Z.bits_inj'. intros i Hi.
  rewrite !Z.land_spec, !Z.shiftr_spec, Z.lor_spec, Z.ldiff_spec, !Z.shiftl_spec by lia. rewrite (testbit_mask u) by lia.
  case_bool_decide; [|by rewrite !andb_false_r]. rewrite !andb_true_r. destruct (decide (i + t - s < 0)%Z) as [Hn|Hn].
  - rewrite !(Z.testbit_neg_r _ (i + t - s)) by lia. cbn. by rewrite andb_true_r, orb_false_r.
  - rewrite Z.land_spec, !testbit_mask by lia. rewrite bool_decide_eq_false_2 by lia. cbn. by rewrite andb_true_r, andb_false_r, orb_false_r.
Qed.

Lemma bits_get_uint s w v : (0 <= w)%Z → is_uint w (bits_get s w v).
Proof. intros Hw. unfold bits_get, is_uint. rewrite Z.land_ones by done. apply Z.mod_pos_bound. lia. Qed.

Lemma is_uint_bits n v : (0 <= n)%Z → (0 <= v)%Z → (∀ i, n <= i → Z.testbit v i = false)%Z → is_uint n v.
Proof.
  intros Hn Hv Hb. unfold is_uint. split; [done|]. replace v with (Z.land v (Z.ones n)).
  - rewrite Z.land_ones by done. apply Z.mod_pos_bound. lia.
  - apply Z.bits_inj'. intros i Hi. rewrite Z.land_spec, testbit_mask by lia. case_bool_decide; [by rewrite andb_true_r|].
    rewrite Hb by lia. done.
Qed.

Lemma bits_set_uint n s w x v : (0 <= s)%Z → (0 <= w)%Z → (s + w <= n)%Z → is_uint n v → is_uint n (bits_set s w x v).
Proof.
  intros Hs Hw Hn [Hv0 Hv]. unfold bits_set.
  assert (∀ y i, 0 <= y < 2 ^ n → n <= i → Z.testbit y i = false)%Z as Hhigh.
  { intros y i Hy Hi. destruct (Z.eq_dec y 0) as [->|]; [apply Z.testbit_0_l|]. apply Z.bits_above_log2; [lia|].
    apply Z.log2_lt_pow2; [lia|]. eapply Z.lt_le_trans; [apply Hy|]. apply Z.pow_le_mono_r; lia. }
  apply is_uint_bits; [lia| |].
  - apply Z.lor_nonneg. split; [apply Z.ldiff_nonneg; by left|]. apply Z.shiftl_nonneg, Z.land_nonneg. right. rewrite Z.ones_equiv.
    pose proof (Z.pow_pos_nonneg 2 w). lia.
  - intros i Hi. rewrite Z.lor_spec, Z.ldiff_spec, Z.shiftl_spec, (Z.shiftl_spec _ _ i) by lia. rewrite (Hhigh v i) by done. cbn.
    rewrite Z.land_spec, testbit_mask by lia. rewrite bool_decide_eq_false_2 by lia. apply andb_false_r.
Qed.

Lemma bits_get_cut n s w v : (0 <= s)%Z → (0 <= w)%Z → (s + w <= n)%Z → bits_get s w (Z.land v (Z.ones n)) = bits_get s w v.
Proof.
  intros Hs Hw Hn. unfold bits_get. apply Z.bits_inj'. intros i Hi.
  rewrite !Z.land_spec, !Z.shiftr_spec, Z.land_spec, !testbit_mask by lia. repeat case_bool_decide; try lia; by rewrite ?andb_true_r, ?andb_false_r.
Qed.

Section bit_views.
Context {F : Type} (header : nat) (layout : F → BitField).

(** The number that the bytes of a field are *)
Definition around (f : BitField) (b : bytes) : Z := Z.land (Rfc.field (bf_off f) (bf_size f) b) (Z.ones (8 * Z.of_nat (bf_size f))).

Definition bit_view : View F := {|
  view_new b := bool_decide (header ≤ length b);
  view_get f b := bits_get (bf_shift (layout f)) (bf_bits (layout f)) (around (layout f) b);
  view_set f x b :=
    list_inserts (bf_off (layout f))
      (to_be_bytes (bf_size (layout f)) (bits_set (bf_shift (layout f)) (bf_bits (layout f)) x (around (layout f) b))) b
|}.

(** Two fields are in different bytes, or in different bits of the same bytes. *)
Definition fields_apart (f g : BitField) : Prop :=
  bf_off f + bf_size f ≤ bf_off g ∨ bf_off g + bf_size g ≤ bf_off f ∨
  (bf_off f = bf_off g ∧ bf_size f = bf_size g ∧ (bf_shift f + bf_bits f <= bf_shift g ∨ bf_shift g + bf_bits g <= bf_shift f)%Z).

Definition field_fits (f : BitField) : Prop :=
  bf_off f + bf_size f ≤ header ∧ (0 <= bf_shift f)%Z ∧ (0 <= bf_bits f)%Z ∧ (bf_shift f + bf_bits f <= 8 * Z.of_nat (bf_size f))%Z.

Lemma around_uint f b : is_uint (8 * Z.of_nat (bf_size f)) (around f b).
Proof. unfold around, is_uint. rewrite Z.land_ones by lia. apply Z.mod_pos_bound. lia. Qed.

Lemma around_set_eq f x b : header ≤ length b → field_fits (layout f) →
  around (layout f) (view_set bit_view f x b) = bits_set (bf_shift (layout f)) (bf_bits (layout f)) x (around (layout f) b).
Proof.
  intros Hl (H1 & H2 & H3 & H4). cbn [view_set bit_view]. unfold around at 1, Rfc.field.
  set (v := bits_set _ _ _ _). assert (is_uint (8 * Z.of_nat (bf_size (layout f))) v) as Hv by (apply bits_set_uint; [done..|apply around_uint]).
  rewrite <-(length_to_be_bytes (bf_size (layout f)) v) at 1.
  rewrite range_inserts_eq by (rewrite length_to_be_bytes; lia). rewrite be_bytes_to_be_bytes by done.
  rewrite Z.land_ones by lia. by apply Z.mod_small.
Qed.

Lemma around_set_ne f x b g :
  bf_off (layout f) + bf_size (layout f) ≤ bf_off g ∨ bf_off g + bf_size g ≤ bf_off (layout f) →
  around g (view_set bit_view f x b) = around g b.
Proof.
  intros Hd. cbn [view_set bit_view]. unfold around, Rfc.field. rewrite range_inserts_ne; [done|]. rewrite length_to_be_bytes. lia.
Qed.

Lemma bit_view_laws width : (∀ f, field_fits (layout f)) → (∀ f, width f = bf_bits (layout f)) →
  (∀ f g, f ≠ g → fields_apart (layout f) (layout g)) → ViewLaws bit_view width.
Proof.
  intros Hfit Hw Hap. split.
  - intros. cbn. apply length_inserts.
  - intros b b' E. cbn. by rewrite E.
  - intros f x b Hb%bool_decide_unpack Hx. destruct (Hfit f) as (H1 & H2 & H3 & H4). rewrite Hw in Hx.
    change (view_get bit_view f (view_set bit_view f x b)) with
      (bits_get (bf_shift (layout f)) (bf_bits (layout f)) (around (layout f) (view_set bit_view f x b))).
    rewrite around_set_eq by done. by apply bits_get_set.
  - intros f g x b Hb%bool_decide_unpack Hne. destruct (Hfit f) as (H1 & H2 & H3 & H4). pose proof (Hfit g) as Hg.
    change (view_get bit_view f ?b') with (bits_get (bf_shift (layout f)) (bf_bits (layout f)) (around (layout f) b')).
    destruct (Hap g f) as [Hd|[Hd|(Ho & Hs & Hd)]]; [done|by rewrite around_set_ne by (by left)|by rewrite around_set_ne by (by right)|].
    assert (∀ b', around (layout f) b' = around (layout g) b') as Ha by (intros; unfold around; by rewrite Ho, Hs).
    rewrite !Ha, around_set_eq by done. destruct Hg as (G1 & G2 & G3 & G4). by apply bits_get_set_ne.
  - intros f b _. rewrite Hw. apply bits_get_uint. apply Hfit.
  - intros f x b Hb. cbn. apply is_bytes_inserts; [apply is_bytes_to_be_bytes|done].
Qed.

Lemma bit_view_header : (∀ f, field_fits (layout f)) → HeaderLaws bit_view header.
Proof.
  intros Hfit. split.
  - done.
  - intros f b. destruct (Hfit f) as (H1 & _). cbn. unfold around, Rfc.field. do 3 f_equal.
    apply range_ext. intros i Hi. apply lookup_take_lt. lia.
  - intros f x b. destruct (Hfit f) as (H1 & _). cbn. apply list_eq. intros i. rewrite !lookup_drop.
    apply list_lookup_inserts_ge. rewrite length_to_be_bytes. lia.
Qed.
End bit_views.

(** ** The layouts of RFC 791, RFC 8200, RFC 768 and RFC 9293 *)

Module RfcDns.
Definition d4_layout (f : DnsIpv4Field) : BitField :=
  match f with
  | D4Version => mkBitField 0 1 4 4
  | D4HeaderLength => mkBitField 0 1 0 4
  | D4Dscp => mkBitField 1 1 2 6
  | D4Ecn => mkBitField 1 1 0 2
  | D4TotalLength => mkBitField 2 2 0 16
  | D4Identification => mkBitField 4 2 0 16
  | D4Flags => mkBitField 6 2 13 3
  | D4FragmentOffset => mkBitField 6 2 0 13
  | D4Ttl => mkBitField 8 1 0 8
  | D4Protocol => mkBitField 9 1 0 8
  | D4Checksum => mkBitField 10 2 0 16
  | D4Source => mkBitField 12 4 0 32
  | D4Destination => mkBitField 16 4 0 32
  end.
Definition d6_layout (f : DnsIpv6Field) : BitField :=
  match f with
  | D6Version => mkBitField 0 4 28 4
  | D6TrafficClass => mkBitField 0 4 20 8
  | D6FlowLabel => mkBitField 0 4 0 20
  | D6PayloadLength => mkBitField 4 2 0 16
  | D6NextHeader => mkBitField 6 1 0 8
  | D6HopLimit => mkBitField 7 1 0 8
  | D6Source => mkBitField 8 16 0 128
  | D6Destination => mkBitField 24 16 0 128
  end.
Definition du_layout (f : DnsUdpField) : BitField :=
  match f with
  | DuSource => mkBitField 0 2 0 16
  | DuDestination => mkBitField 2 2 0 16
  | DuLength => mkBitField 4 2 0 16
  | DuChecksum => mkBitField 6 2 0 16
  end.
Definition dt_layout (f : DnsTcpField) : BitField :=
  match f with
  | DtSource => mkBitField 0 2 0 16
  | DtDestination => mkBitField 2 2 0 16
  | DtSequence => mkBitField 4 4 0 32
  | DtAcknowledgement => mkBitField 8 4 0 32
  | DtDataOffset => mkBitField 12 1 4 4
  | DtFlags => mkBitField 13 1 0 8
  | DtWindow => mkBitField 14 2 0 16
  | DtChecksum => mkBitField 16 2 0 16
  | DtUrgent => mkBitField 18 2 0 16
  end.

(** The checksum over bytes, one field left out, and over a pseudo header *)
Definition skipping (off : nat) (extra : Z) (b : bytes) : Z :=
  not16 (rep (extra + RfcMut.sum16 (list_inserts off [0; 0]%Z b))).
Definition pseudo (octs : Z → bytes) (proto s d : Z) (b : bytes) : Z :=
  RfcMut.sum16 (octs s) + RfcMut.sum16 (octs d) + proto + Z.of_nat (length b).

(** The bytes of the header, options included *)
Definition d4_header_length (b : bytes) : nat := Nat.max 20 (Z.to_nat (4 * view_get (bit_view 20 d4_layout) D4HeaderLength b)).

#[export] Instance packets : DnsPackets := {
  d4 := bit_view 20 d4_layout;
  d4_payload b :=
    take (Z.to_nat (view_get (bit_view 20 d4_layout) D4TotalLength b - 4 * view_get (bit_view 20 d4_layout) D4HeaderLength b))
      (drop (d4_header_length b) b);
  d6 := bit_view 40 d6_layout;
  d6_payload b := take (Z.to_nat (view_get (bit_view 40 d6_layout) D6PayloadLength b)) (drop 40 b);
  du := bit_view 8 du_layout;
  du_payload b := drop 8 b;
  du_with_payload p b := list_inserts 8 p b;
  dt := bit_view 20 dt_layout;
  d4_checksum b := skipping 10 0 (take (d4_header_length b) b);
  du_checksum4 b s d := skipping 6 (pseudo octets 17 s d b) b;
  du_checksum6 b s d := skipping 6 (pseudo octets6 17 s d b) b;
  dt_checksum4 b s d := skipping 16 (pseudo octets 6 s d b) b;
  dt_checksum6 b s d := skipping 16 (pseudo octets6 6 s d b) b
}.

Lemma skipping_uint off extra b : is_uint 16 (skipping off extra b).
Proof. apply not16_uint. apply rep_bounds. Qed.

Lemma inserts_inserts (o : nat) (p q b : bytes) : length p = length q → list_inserts o q (list_inserts o p b) = list_inserts o q b.
Proof.
  intros Hl. apply list_eq. intros i. destruct (decide (i < o)).
  - by rewrite !list_lookup_inserts_lt by done.
  - destruct (decide (i < o + length q)); [|by rewrite !list_lookup_inserts_ge by lia].
    destruct (decide (i < length b)); [by rewrite !list_lookup_inserts by (rewrite ?length_inserts; lia)|].
    rewrite !(proj2 (lookup_ge_None _ _)); rewrite ?length_inserts; lia || done.
Qed.

Lemma take_inserts_comm (o n : nat) (p b : bytes) : o + length p ≤ n → take n (list_inserts o p b) = list_inserts o p (take n b).
Proof.
  intros Hn. apply list_eq. intros i. destruct (decide (i < n)).
  - rewrite lookup_take_lt by done. destruct (decide (i < o)); [by rewrite !list_lookup_inserts_lt, lookup_take_lt by done|].
    destruct (decide (i < o + length p)); [|by rewrite !list_lookup_inserts_ge, lookup_take_lt by lia].
    destruct (decide (i < length b)).
    + rewrite !list_lookup_inserts; rewrite ?length_take; lia || done.
    + rewrite !(proj2 (lookup_ge_None _ _)); rewrite ?length_inserts, ?length_take; lia || done.
  - rewrite lookup_take_ge by lia. symmetry. apply lookup_ge_None. rewrite length_inserts, length_take. lia.
Qed.

Ltac fits := intros []; unfold field_fits; cbn; lia.
Ltac apart := intros [] [] ?; try done; unfold fields_apart; cbn; lia.

#[export] Instance packets_laws : DnsPacketsLaws.
Proof.
  split.
  - apply bit_view_laws; [fits|by intros []|apart].
  - apply bit_view_header. fits.
  - intros b Hb. cbn [d4_payload packets]. unfold d4_header_length. cbn [d4 packets] in Hb. rewrite Hb.
    change (Nat.max 20 (Z.to_nat (4 * 5))) with 20. by rewrite Z2Nat.inj_sub by lia.
  - intros b Hb. by apply is_bytes_range.
  - apply bit_view_laws; [fits|by intros []|apart].
  - apply bit_view_header. fits.
  - done.
  - apply bit_view_laws; [fits|by intros []|apart].
  - apply bit_view_header. fits.
  - done.
  - intros p b Hl. cbn. assert (length (take 8 b) = 8) as H8 by (rewrite length_take; lia). rewrite <-(take_drop 8 b) at 1. rewrite <-H8 at 1.
    rewrite <-(Nat.add_0_r (length (take 8 b))), list_inserts_app_r. f_equal.
    rewrite <-(app_nil_r (drop 8 b)), list_inserts_0_r; [by rewrite app_nil_r|]. rewrite length_drop. lia.
  - apply bit_view_laws; [fits|by intros []|apart].
  - apply bit_view_header. fits.
  - intros b Hb. cbn [d4_checksum packets]. unfold d4_header_length.
    rewrite (law_get_header _ _ (bit_view_header 20 d4_layout ltac:(fits))). cbn [d4 packets] in Hb. rewrite Hb.
    change (Nat.max 20 (Z.to_nat (4 * 5))) with 20. by rewrite take_take, Nat.min_id.
  - intros x b. cbn [d4_checksum d4 packets]. unfold d4_header_length.
    assert (view_get (bit_view 20 d4_layout) D4HeaderLength (view_set (bit_view 20 d4_layout) D4Checksum x b) =
      view_get (bit_view 20 d4_layout) D4HeaderLength b) as ->.
    { cbn [view_get bit_view]. by rewrite around_set_ne by (cbn; lia). }
    cbn [view_set bit_view d4_layout bf_off bf_size]. unfold skipping. rewrite take_inserts_comm by (rewrite length_to_be_bytes; lia).
    by rewrite inserts_inserts by (by rewrite length_to_be_bytes).
  - intros x b s d. cbn [du_checksum4 du packets view_set bit_view du_layout bf_off bf_size]. unfold skipping, pseudo.
    by rewrite length_inserts, inserts_inserts by (by rewrite length_to_be_bytes).
  - intros x b s d. cbn [du_checksum6 du packets view_set bit_view du_layout bf_off bf_size]. unfold skipping, pseudo.
    by rewrite length_inserts, inserts_inserts by (by rewrite length_to_be_bytes).
  - intros. apply skipping_uint.
  - intros. apply skipping_uint.
  - intros. apply skipping_uint.
Qed.
End RfcDns.
