(* ===== verification/Dns.v ===== *)
(** * [telio-dns]: the resolver ([nameserver.rs], [zone.rs], [forward.rs], [dns.rs])

    The resolver is a WireGuard peer inside the process: queries come as IP packets
    through a tunnel of the crate [neptun], are answered from the zones, and go back
    the same way.  Names, messages and the catalog of zones are those of the crate
    [hickory_server], which is not part of the repository: [Hickory] is what the code
    uses of it.  An authority is what the code has handed to it; what a catalog
    answers to a query is a function of the authorities and of the outside.

    A query is a task of its own, which holds one of the 256 permits of the loop; the
    zones that it reads are those of the moment when it starts to resolve, whatever is
    changed meanwhile.  A step is what happens between two points at which a task
    waits. *)

From stdpp Require Import strings.
From S2P Require Import Prelude NetTypes WgTypes Crypto NetText FirewallReset PacketViews DnsPackets DeviceTypes Starcast Consolidation.

Definition IPV4_HEADER : nat := 20.
Definition IPV6_HEADER : nat := 40.
Definition MAX_PACKET : nat := 2048.
Definition UDP_HEADER : nat := 8.
Definition TCP_MIN_HEADER : nat := 20.
Definition MAX_CONCURRENT_QUERIES : nat := 256.

(** The crate [hickory_server]: [Name::from_str], [Name::parse] without an origin,
    [LowerName::from_str], [MessageRequest::from_bytes] *)
Class Hickory := {
  Name : Type;
  name_from_str : string → option Name;
  name_parse : string → option Name;
  LowerName : Type;
  LowerName_eq_dec : EqDecision LowerName;
  LowerName_countable : Countable LowerName;
  lower_from_str : string → option LowerName;
  MessageRequest : Type;
  message_from_bytes : bytes → option MessageRequest
}.
#[export] Existing Instance LowerName_eq_dec.
#[export] Existing Instance LowerName_countable.

(** The errors, which the code has as texts *)
Inductive DnsError :=
| EmptyRequest | InvalidIpVersion | NoIpPacket | InvalidIpPacket | NoUdpPacket | NoTcpPacket | InvalidProtocol
| InvalidUdpChecksum | InvalidDnsPort | NoMessageRequest | InexistentRequest | LookupFailed
| NoResponsePacket | OutOfBounds | NoPayloadPacket
| NotInZone (domain zone : string) | BadName
| SocketFailed | TunFailed | TunnFailed.

(** ** Packets ([nameserver.rs]) *)

Section packets.
Context `{DnsPackets} `{Hickory}.

Inductive IpRequestInfo :=
| IpRequestV4 (source_ip destination_ip dscp ecn ttl identification : Z)
| IpRequestV6 (source_ip destination_ip : Z).

Inductive PayloadRequestInfo :=
| PayloadUdp (source_port destination_port : Z) (dns_request : option MessageRequest)
| PayloadTcp (source_port destination_port next_sequence : Z).

Record RequestInfo := mkRequestInfo { request_ip : IpRequestInfo; request_payload : PayloadRequestInfo }.

Definition source_ip (i : IpRequestInfo) : StdIpAddr :=
  match i with IpRequestV4 s _ _ _ _ _ => V4 s | IpRequestV6 s _ => V6 s end.

Definition compute_udp_checksum (i : IpRequestInfo) (packet : bytes) : Z :=
  match i with
  | IpRequestV4 s d _ _ _ _ => du_checksum4 packet d s
  | IpRequestV6 s d => du_checksum6 packet d s
  end.

Definition dns_source (r : RequestInfo) : SocketAddr :=
  let source_port := match request_payload r with PayloadUdp p _ _ | PayloadTcp p _ _ => p end in
  socket_addr_new (source_ip (request_ip r)) source_port.

(** The trait [IpPacket], and its instances *)
Record DnsIpPacket := mkDnsIpPacket {
  dip_try_from : bytes → bool;
  dip_request_info : bytes → IpRequestInfo;
  dip_udp_checksum : bytes → bytes → Z;
  dip_check_valid : bytes → bool;
  dip_protocol : bytes → Z;
  dip_payload : bytes → bytes
}.

Definition dns_ipv4 : DnsIpPacket := {|
  dip_try_from := view_new d4;
  dip_request_info b :=
    IpRequestV4 (view_get d4 D4Source b) (view_get d4 D4Destination b) (view_get d4 D4Dscp b) (view_get d4 D4Ecn b)
      (view_get d4 D4Ttl b) (view_get d4 D4Identification b);
  dip_udp_checksum b udp := du_checksum4 udp (view_get d4 D4Source b) (view_get d4 D4Destination b);
  dip_check_valid b :=
    if negb (view_get d4 D4Version b =? 4)%Z then false
    else if (view_get d4 D4HeaderLength b <? 5)%Z then false
    else if negb (d4_checksum b =? view_get d4 D4Checksum b)%Z then false
    else true;
  dip_protocol := view_get d4 D4Protocol;
  dip_payload := d4_payload
|}.

Definition dns_ipv6 : DnsIpPacket := {|
  dip_try_from := view_new d6;
  dip_request_info b := IpRequestV6 (view_get d6 D6Source b) (view_get d6 D6Destination b);
  dip_udp_checksum b udp := du_checksum6 udp (view_get d6 D6Source b) (view_get d6 D6Destination b);
  dip_check_valid b :=
    if negb (view_get d6 D6Version b =? 6)%Z then false
    else if negb (view_get d6 D6PayloadLength b =? Z.of_nat (length (d6_payload b)))%Z then false
    else true;
  dip_protocol := view_get d6 D6NextHeader;
  dip_payload := d6_payload
|}.

Definition process_udp_packet (udp_request : bytes) (get_checksum : bytes → Z) : result DnsError PayloadRequestInfo :=
  if negb (get_checksum udp_request =? view_get du DuChecksum udp_request)%Z then Err InvalidUdpChecksum
  else if negb (view_get du DuDestination udp_request =? 53)%Z then Err InvalidDnsPort
  else
    match message_from_bytes (du_payload udp_request) with
    | None => Err NoMessageRequest
    | Some m => Ok (PayloadUdp (view_get du DuSource udp_request) (view_get du DuDestination udp_request) (Some m))
    end.

(** The sequence number of a TCP packet wraps around (and a build with overflow
    checks panics). *)
Definition process_ip_packet (P : DnsIpPacket) (request_packet : bytes) : result DnsError RequestInfo :=
  if negb (dip_try_from P request_packet) then Err NoIpPacket
  else if negb (dip_check_valid P request_packet) then Err InvalidIpPacket
  else
    let payload := dip_payload P request_packet in
    let? payload :=
      (if (dip_protocol P request_packet =? IpNextHeaderProtocols.Udp)%Z then
         if view_new du payload then process_udp_packet payload (dip_udp_checksum P request_packet) else Err NoUdpPacket
       else if (dip_protocol P request_packet =? IpNextHeaderProtocols.Tcp)%Z then
         if view_new dt payload then
           Ok (PayloadTcp (view_get dt DtSource payload) (view_get dt DtDestination payload)
                 (wrap 32 (view_get dt DtSequence payload + 1)))
         else Err NoTcpPacket
       else Err InvalidProtocol) in
    Ok (mkRequestInfo (dip_request_info P request_packet) payload).

(** The first part of [process_packet] *)
Definition parse_request (request_packet : bytes) : result DnsError RequestInfo :=
  match request_packet with
  | [] => Err EmptyRequest
  | first_byte :: _ =>
      if (Z.shiftr first_byte 4 =? 4)%Z then process_ip_packet dns_ipv4 request_packet
      else if (Z.shiftr first_byte 4 =? 6)%Z then process_ip_packet dns_ipv6 request_packet
      else Err InvalidIpVersion
  end.

(** The protocol number of the response *)
Definition payload_protocol (p : PayloadRequestInfo) : Z :=
  match p with PayloadUdp _ _ _ => IpNextHeaderProtocols.Udp | PayloadTcp _ _ _ => IpNextHeaderProtocols.Tcp end.

(** [build_ip_header]: the length of the header, and the buffer with the header in it;
    what the setters do not write stays as it was in the buffer. *)
Definition build_ip_header (r : RequestInfo) (payload_length : nat) (response_packet : bytes) : result DnsError (nat * bytes) :=
  match request_ip r with
  | IpRequestV4 source_ip destination_ip dscp ecn ttl identification =>
      if view_new d4 response_packet then
        let b := view_set d4 D4Version 4 response_packet in
        let b := view_set d4 D4HeaderLength (wrap 8 (Z.of_nat (IPV4_HEADER / 4))) b in
        let b := view_set d4 D4Dscp dscp b in
        let b := view_set d4 D4Ecn ecn b in
        let b := view_set d4 D4TotalLength (wrap 16 (Z.of_nat (IPV4_HEADER + payload_length))) b in
        let b := view_set d4 D4Flags 2 b in
        let b := view_set d4 D4Identification identification b in
        let b := view_set d4 D4Protocol (payload_protocol (request_payload r)) b in
        let b := view_set d4 D4Ttl ttl b in
        let b := view_set d4 D4Source destination_ip b in
        let b := view_set d4 D4Destination source_ip b in
        let b := view_set d4 D4Checksum 0 b in
        let b := view_set d4 D4Checksum (d4_checksum b) b in
        Ok (IPV4_HEADER, b)
      else Err NoResponsePacket
  | IpRequestV6 source_ip destination_ip =>
      if view_new d6 response_packet then
        let b := view_set d6 D6Version 6 response_packet in
        let b := view_set d6 D6TrafficClass 0 b in
        let b := view_set d6 D6FlowLabel 0 b in
        let b := view_set d6 D6PayloadLength (wrap 16 (Z.of_nat payload_length)) b in
        let b := view_set d6 D6NextHeader (payload_protocol (request_payload r)) b in
        let b := view_set d6 D6NextHeader IpNextHeaderProtocols.Udp b in
        let b := view_set d6 D6HopLimit 255 b in
        let b := view_set d6 D6Source destination_ip b in
        let b := view_set d6 D6Destination source_ip b in
        Ok (IPV6_HEADER, b)
      else Err NoResponsePacket
  end.

(** [slice.get_mut(from..to)], written by [f] *)
Definition write_range (from to : nat) (f : bytes → result DnsError bytes) (buffer : bytes) : result DnsError bytes :=
  if bool_decide (to ≤ length buffer) then
    let? slice := f (take (to - from) (drop from buffer)) in Ok (list_inserts from slice buffer)
  else Err OutOfBounds.

(** [build_payload] *)
Definition build_payload (r : RequestInfo) (ihl : nat) (dns_response response_packet : bytes) : result DnsError (nat * bytes) :=
  match request_payload r with
  | PayloadUdp source_port destination_port _ =>
      let len := ihl + UDP_HEADER + length dns_response in
      let? response_packet :=
        write_range ihl len (λ b,
          if view_new du b then
            let b := view_set du DuSource destination_port b in
            let b := view_set du DuDestination source_port b in
            let b := view_set du DuLength (wrap 16 (Z.of_nat (UDP_HEADER + length dns_response))) b in
            let b := du_with_payload dns_response b in
            let b := view_set du DuChecksum 0 b in
            Ok (view_set du DuChecksum (compute_udp_checksum (request_ip r) b) b)
          else Err NoPayloadPacket) response_packet in
      Ok (len, response_packet)
  | PayloadTcp source_port destination_port next_sequence =>
      let len := ihl + TCP_MIN_HEADER in
      let? response_packet :=
        write_range ihl len (λ b,
          if view_new dt b then
            let b := view_set dt DtSource source_port b in
            let b := view_set dt DtDestination destination_port b in
            let b := view_set dt DtSequence next_sequence b in
            let b := view_set dt DtFlags TcpFlags.RST b in
            let b := view_set dt DtChecksum 0 b in
            let checksum :=
              match request_ip r with
              | IpRequestV4 source_ip destination_ip _ _ _ _ => dt_checksum4 b source_ip destination_ip
              | IpRequestV6 source_ip destination_ip => dt_checksum6 b source_ip destination_ip
              end in
            Ok (view_set dt DtChecksum checksum b)
          else Err NoPayloadPacket) response_packet in
      Ok (len, response_packet)
  end.

(** [build_response_packet] *)
Definition build_response_packet (r : RequestInfo) (dns_response response_packet : bytes) : result DnsError (nat * bytes) :=
  let payload_header := match request_payload r with PayloadUdp _ _ _ => UDP_HEADER | PayloadTcp _ _ _ => TCP_MIN_HEADER end in
  let? '(ip_header_length, response_packet) := build_ip_header r (payload_header + length dns_response) response_packet in
  build_payload r ip_header_length dns_response response_packet.
End packets.

(** ** Zones ([zone.rs], [forward.rs]) *)

Definition TTL_DEFAULT : Z := 60.

Section zones.
Context `{Hickory}.

(** The records that are entered into an [InMemoryAuthority] *)
Inductive DnsRecord :=
| SoaRecord (name : Name) (ttl : Z) (mname rname : Name) (serial refresh retry expire minimum : Z)
| ARecord (name : Name) (ttl ip : Z)
| AaaaRecord (name : Name) (ttl ip : Z).

(** The options of the resolver behind a forwarding zone that are set *)
Record ForwardOptions := mkForwardOptions {
  preserve_intermediates : bool;
  use_hosts_file : bool;
  num_concurrent_reqs : Z;
  attempts : Z
}.

(** What the code hands to the crate: a zone with its records, in the order in which
    they are entered, or a zone with the servers that its queries go to *)
Inductive DnsAuthority :=
| AuthoritativeZone (origin : Name) (records : list DnsRecord)
| ForwardZone (origin : Name) (name_servers : list SocketAddr) (options : ForwardOptions).

(** [str::contains] *)
Definition str_contains (pattern s : string) : bool := match String.index 0 pattern s with Some _ => true | None => false end.

Definition build_record (ttl : Z) (name : Name) (ip : StdIpAddr) : DnsRecord :=
  match ip with V4 a => ARecord name ttl a | V6 a => AaaaRecord name ttl a end.

(** The loop over the records of [AuthoritativeZone::new] *)
Fixpoint address_records (ttl : Z) (records : list (string * list StdIpAddr)) : result DnsError (list DnsRecord) :=
  match records with
  | [] => Ok []
  | (name, ips) :: records =>
      match name_parse name with
      | None => Err BadName
      | Some name => let? l := address_records ttl records in Ok ((build_record ttl name <$> ips) ++ l)
      end
  end.

(** The iteration over a hash map *)
Definition iter_records `{!HashOrder string} (records : Records) : list (string * list StdIpAddr) :=
  omap (λ name, (λ ips, (name, ips)) <$> records !! name) (hash_iter (dom records)).

(** [AuthoritativeZone::new] *)
Definition authoritative_zone_new `{!HashOrder string} (name : string) (records : Records) (ttl_value : Z)
    : result DnsError DnsAuthority :=
  match List.find (λ domain, negb (str_contains name domain)) (iter_records records).*1 with
  | Some domain => Err (NotInZone domain name)
  | None =>
      match name_from_str name, name_parse "mesh.nordsec.com.", name_parse "support.nordsec.com." with
      | Some zone_name, Some mname, Some rname =>
          let ttl_value_signed := if (ttl_value <? 2 ^ 31)%Z then ttl_value else TTL_DEFAULT in
          let soa := SoaRecord zone_name ttl_value mname rname 2015082403 7200 ttl_value_signed 1209600 ttl_value in
          let? l := address_records ttl_value (iter_records records) in
          Ok (AuthoritativeZone zone_name (soa :: l))
      | _, _, _ => Err BadName
      end
  end.

(** [ForwardAuthority::try_from_config] *)
Definition forward_authority (origin : Name) (name_servers : list SocketAddr) (options : ForwardOptions) : DnsAuthority :=
  let options :=
    if preserve_intermediates options then options
    else mkForwardOptions true (use_hosts_file options) (num_concurrent_reqs options) (attempts options) in
  ForwardZone origin name_servers options.

(** [ForwardZone::new] *)
Definition forward_zone_new (name : string) (ips : list StdIpAddr) : result DnsError DnsAuthority :=
  match name_from_str name with
  | None => Err BadName
  | Some name => Ok (forward_authority name ((λ ip, socket_addr_new ip 53) <$> ips) (mkForwardOptions true false 1 0))
  end.

(** [ClonableZones]: the catalog, and the names that it was given *)
Record ClonableZones := mkClonableZones { cz_zones : gmap LowerName DnsAuthority; cz_names : gset LowerName }.

Definition zones_new : ClonableZones := mkClonableZones ∅ ∅.
Definition zones_upsert (name : LowerName) (authority : DnsAuthority) (z : ClonableZones) : ClonableZones :=
  mkClonableZones (<[name := authority]> (cz_zones z)) ({[name]} ∪ cz_names z).

(** The catalog of the crate: [Catalog::find], and what [Catalog::lookup] writes for a
    query that comes from an address, which depends on what the servers outside
    answer; without a response it fails *)
Class Catalogs := {
  Outside : Type;
  catalog_find : gmap LowerName DnsAuthority → LowerName → option DnsAuthority;
  catalog_lookup : gmap LowerName DnsAuthority → MessageRequest → SocketAddr → Outside → option bytes
}.

(** [ClonableZones::clone], by the names *)
Definition zones_clone `{!Catalogs} `{!HashOrder LowerName} (z : ClonableZones) : ClonableZones :=
  mkClonableZones
    (foldl (λ m x, <[x.1 := x.2]> m) ∅
       (omap (λ name, (λ auth, (name, auth)) <$> catalog_find (cz_zones z) name) (hash_iter (cz_names z))))
    (cz_names z).
End zones.

(** [ForwardAuthority::lookup], after the resolver has answered: [LookupError::from]
    must not be given the code of no error *)
Inductive ResponseCode := NoError | ServFail | UnknownCode (code : Z) | OtherCode (code : Z).
Inductive ResolveErrorKind := NoRecordsFound (response_code : ResponseCode) | OtherResolveError.

Definition lookup_error_from (code : ResponseCode) : outcome ResponseCode :=
  match code with NoError => Panics | code => Returns code end.

Definition forward_lookup {L} (resolve : result ResolveErrorKind L) : outcome (result ResponseCode L) :=
  match resolve with
  | Ok l => Returns (Ok l)
  | Err kind =>
      let code :=
        match kind with
        | NoRecordsFound NoError => lookup_error_from ServFail
        | NoRecordsFound response_code => lookup_error_from response_code
        | OtherResolveError => lookup_error_from (UnknownCode 0)
        end in
      match code with Returns code => Returns (Err code) | Panics => Panics end
  end.

(** ** The resolver ([nameserver.rs], [dns.rs]) *)

(** What it does at its borders: a packet that came out of the tunnel for a task, a
    response that is put into the tunnel, a datagram for WireGuard *)
Inductive DnsEffect :=
| PacketIn (task : nat) (packet : bytes)
| ResponseOut (task : nat) (response : bytes)
| DnsToWg (packet : bytes).

Section resolver.
Context `{DnsPackets} `{!Hickory} `{!Catalogs} `{Tunnels} `{!HashOrder string} `{!HashOrder LowerName}.

(** Where [dns_service] waits: for a datagram, or for the tunnel to update its timers
    when one of [bytes_read] bytes has come *)
Inductive LoopStage := Receiving | UpdatingTimers (bytes_read : nat).
Record DnsLoop := mkDnsLoop { loop_stage : LoopStage; receiving_buffer : bytes }.

(** Where a spawned task waits: for the tunnel to take its datagram, for the tunnel to
    have no more packets of a handshake, for the zones, for the answer; the packet is
    the one from the tunnel *)
Inductive TaskStage :=
| Spawned (bytes_read : nat)
| Handshaking
| Parsed (packet : bytes) (request_info : RequestInfo)
| Resolving (packet : bytes) (request_info : RequestInfo) (zones : ClonableZones).
Record DnsTask := mkDnsTask { task_loop : nat; task_stage : TaskStage; task_buffer : bytes }.

(** [LocalDnsResolver] with its [LocalNameServer], the loops and the tasks *)
Record LocalDnsResolver := mkLocalDnsResolver {
  dns_secret_key : SecretKey;
  dns_socket_port : Z;
  dns_dst_address : SocketAddr;
  auto_switch_ips : bool;
  dns_zones : ClonableZones;
  dns_tunnel : Tunn;
  task_handle : option nat;
  dns_loops : gmap nat DnsLoop;
  dns_tasks : gmap nat DnsTask;
  dns_next_id : nat
}.
Implicit Types (st : LocalDnsResolver) (log : list DnsEffect).

Definition set_zones (z : ClonableZones) st : LocalDnsResolver :=
  mkLocalDnsResolver (dns_secret_key st) (dns_socket_port st) (dns_dst_address st) (auto_switch_ips st) z (dns_tunnel st)
    (task_handle st) (dns_loops st) (dns_tasks st) (dns_next_id st).
Definition set_dns_tunnel (t : Tunn) st : LocalDnsResolver :=
  mkLocalDnsResolver (dns_secret_key st) (dns_socket_port st) (dns_dst_address st) (auto_switch_ips st) (dns_zones st) t
    (task_handle st) (dns_loops st) (dns_tasks st) (dns_next_id st).
Definition set_loops (handle : option nat) (loops : gmap nat DnsLoop) (next : nat) st : LocalDnsResolver :=
  mkLocalDnsResolver (dns_secret_key st) (dns_socket_port st) (dns_dst_address st) (auto_switch_ips st) (dns_zones st) (dns_tunnel st)
    handle loops (dns_tasks st) next.
Definition set_tasks (tasks : gmap nat DnsTask) (next : nat) st : LocalDnsResolver :=
  mkLocalDnsResolver (dns_secret_key st) (dns_socket_port st) (dns_dst_address st) (auto_switch_ips st) (dns_zones st) (dns_tunnel st)
    (task_handle st) (dns_loops st) tasks next.

(** *** The name server *)

(** [zones_mut]: [Arc::make_mut] clones the zones if a task has them as well. *)
Definition zones_mut (shared : bool) st : ClonableZones := if shared then zones_clone (dns_zones st) else dns_zones st.

(** [NameServer::upsert] *)
Definition ns_upsert (zone : string) (records : Records) (ttl_value : Z) (shared : bool) st : result DnsError unit * LocalDnsResolver :=
  match authoritative_zone_new zone records ttl_value with
  | Err e => (Err e, st)
  | Ok azone =>
      match lower_from_str zone with
      | None => (Err BadName, set_zones (zones_mut shared st) st)
      | Some name => (Ok tt, set_zones (zones_upsert name azone (zones_mut shared st)) st)
      end
  end.

(** [NameServer::forward] *)
Definition ns_forward (to : list StdIpAddr) (shared : bool) st : result DnsError unit * LocalDnsResolver :=
  let z := zones_mut shared st in
  match lower_from_str ".", forward_zone_new "." to with
  | Some name, Ok zone => (Ok tt, set_zones (zones_upsert name zone z) st)
  | _, _ => (Err BadName, set_zones z st)
  end.

(** [NameServer::start] and [stop] *)
Definition ns_start st : LocalDnsResolver :=
  set_loops (Some (dns_next_id st)) (<[dns_next_id st := mkDnsLoop Receiving (replicate MAX_PACKET 0%Z)]> (dns_loops st))
    (S (dns_next_id st)) st.
Definition ns_stop st : LocalDnsResolver :=
  match task_handle st with
  | Some handle => set_loops (Some handle) (delete handle (dns_loops st)) (dns_next_id st) st
  | None => st
  end.

(** [resolve_dns_request], which takes the message out of the request *)
Definition resolve_dns_request (zones : ClonableZones) (outside : Outside) (r : RequestInfo) : result DnsError bytes * RequestInfo :=
  match request_payload r with
  | PayloadUdp source_port destination_port dns_request =>
      let r' := mkRequestInfo (request_ip r) (PayloadUdp source_port destination_port None) in
      match dns_request with
      | None => (Err InexistentRequest, r')
      | Some dns_request =>
          (match catalog_lookup (cz_zones zones) dns_request (dns_source r) outside with
           | Some dns_response => Ok dns_response
           | None => Err LookupFailed
           end, r')
      end
  | PayloadTcp _ _ _ => (Ok [], r)
  end.

(** The end of [process_packet] *)
Definition answer_request (zones : ClonableZones) (outside : Outside) (r : RequestInfo) (response_packet : bytes)
    : result DnsError (nat * bytes) :=
  let '(res, r) := resolve_dns_request zones outside r in
  let? dns_response := res in build_response_packet r dns_response response_packet.

(** *** The tasks *)

(** The permits of a loop that are in use *)
Definition holds_lease (loop : nat) (t : DnsTask) : bool :=
  bool_decide (task_loop t = loop) && match task_stage t with Parsed _ _ | Resolving _ _ _ => true | Spawned _ | Handshaking => false end.
Definition leases (loop : nat) st : nat := size (filter (λ x, holds_lease loop x.2 = true) (dns_tasks st)).

Definition set_task (id : nat) (t : DnsTask) st : LocalDnsResolver := set_tasks (<[id := t]> (dns_tasks st)) (dns_next_id st) st.
Definition end_task (id : nat) st : LocalDnsResolver := set_tasks (delete id (dns_tasks st)) (dns_next_id st) st.
Definition set_loop (id : nat) (l : DnsLoop) st : LocalDnsResolver :=
  set_loops (task_handle st) (<[id := l]> (dns_loops st)) (dns_next_id st) st.

(** A datagram is read, or the socket fails. *)
Definition loop_receives (id : nat) (received : option bytes) (l : DnsLoop) st : LocalDnsResolver :=
  match received with
  | None => st
  | Some data =>
      let data := take MAX_PACKET data in
      set_loop id (mkDnsLoop (UpdatingTimers (length data)) (list_inserts 0 data (receiving_buffer l))) st
  end.

(** One round of the loop over [update_timers]; at its end the task is spawned. *)
Definition loop_timers (id : nat) (bytes_read : nat) (l : DnsLoop) st log : LocalDnsResolver * list DnsEffect :=
  let '(res, t) := update_timers (dns_tunnel st) in
  let st := set_dns_tunnel t st in
  match res with
  | WriteToNetwork packet => (st, log ++ [DnsToWg packet])
  | _ =>
      let st := set_loop id (mkDnsLoop Receiving (receiving_buffer l)) st in
      (set_tasks (<[dns_next_id st := mkDnsTask id (Spawned bytes_read) (receiving_buffer l)]> (dns_tasks st)) (S (dns_next_id st)) st, log)
  end.

(** The task gives its datagram to the tunnel; [sent] is whether the socket takes the
    answer of a handshake. *)
Definition task_decapsulates (id : nat) (bytes_read : nat) (sent : bool) (t : DnsTask) st log : LocalDnsResolver * list DnsEffect :=
  let '(res, tunnel) := decapsulate (take bytes_read (task_buffer t)) (dns_tunnel st) in
  let st := set_dns_tunnel tunnel st in
  match res with
  | WriteToNetwork packet =>
      (if sent then set_task id (mkDnsTask (task_loop t) Handshaking (task_buffer t)) st else end_task id st, log ++ [DnsToWg packet])
  | WriteToTunnelV4 packet | WriteToTunnelV6 packet =>
      let log := log ++ [PacketIn id packet] in
      if bool_decide (leases (task_loop t) st < MAX_CONCURRENT_QUERIES) then
        match parse_request packet with
        | Ok request_info => (set_task id (mkDnsTask (task_loop t) (Parsed packet request_info) (task_buffer t)) st, log)
        | Err _ => (end_task id st, log)
        end
      else (end_task id st, log)
  | TunnDone | TunnErr => (end_task id st, log)
  end.

(** One round of the loop after a handshake *)
Definition task_handshakes (id : nat) (sent : bool) st log : LocalDnsResolver * list DnsEffect :=
  let '(res, tunnel) := decapsulate [] (dns_tunnel st) in
  let st := set_dns_tunnel tunnel st in
  match res with
  | WriteToNetwork packet => (if sent then st else end_task id st, log ++ [DnsToWg packet])
  | _ => (end_task id st, log)
  end.

(** The answer is there, the response goes into the tunnel. *)
Definition task_answers (id : nat) (r : RequestInfo) (zones : ClonableZones) (outside : Outside) (t : DnsTask) st log
    : LocalDnsResolver * list DnsEffect :=
  match answer_request zones outside r (task_buffer t) with
  | Err _ => (end_task id st, log)
  | Ok (len, buffer) =>
      let response := take len buffer in
      let '(res, tunnel) := encapsulate response (dns_tunnel st) in
      let log := log ++ [ResponseOut id response] in
      (end_task id (set_dns_tunnel tunnel st), match res with WriteToNetwork dns => log ++ [DnsToWg dns] | _ => log end)
  end.

(** What can happen: steps of a loop and of a task, and the calls of the trait
    [DnsResolver] *)
Inductive DnsInput :=
| DnsDatagram (loop : nat) (received : option bytes)
| DnsTimers (loop : nat)
| DnsDecapsulate (task : nat) (sent : bool)
| DnsHandshake (task : nat) (sent : bool)
| DnsZones (task : nat)
| DnsAnswer (task : nat) (outside : Outside)
| DnsUpsert (zone : string) (records : Records) (ttl_value : Z) (shared : bool)
| DnsForward (to : list StdIpAddr) (shared : bool)
| DnsSetPeerPublicKey (pubkey : PublicKey)
| DnsStart
| DnsStop.

(** [set_peer_public_key] *)
Definition set_peer_public_key (pubkey : PublicKey) st : LocalDnsResolver :=
  match tunn_new (dns_secret_key st) pubkey with Some t => set_dns_tunnel t st | None => st end.

Definition dns_step (i : DnsInput) st log : option (LocalDnsResolver * list DnsEffect) :=
  match i with
  | DnsDatagram id received =>
      l ← dns_loops st !! id;
      match loop_stage l with Receiving => Some (loop_receives id received l st, log) | UpdatingTimers _ => None end
  | DnsTimers id =>
      l ← dns_loops st !! id;
      match loop_stage l with UpdatingTimers n => Some (loop_timers id n l st log) | Receiving => None end
  | DnsDecapsulate id sent =>
      t ← dns_tasks st !! id;
      match task_stage t with Spawned n => Some (task_decapsulates id n sent t st log) | _ => None end
  | DnsHandshake id sent =>
      t ← dns_tasks st !! id;
      match task_stage t with Handshaking => Some (task_handshakes id sent st log) | _ => None end
  | DnsZones id =>
      t ← dns_tasks st !! id;
      match task_stage t with
      | Parsed packet r => Some (set_task id (mkDnsTask (task_loop t) (Resolving packet r (dns_zones st)) (task_buffer t)) st, log)
      | _ => None
      end
  | DnsAnswer id outside =>
      t ← dns_tasks st !! id;
      match task_stage t with Resolving _ r zones => Some (task_answers id r zones outside t st log) | _ => None end
  | DnsUpsert zone records ttl_value shared => Some ((ns_upsert zone records ttl_value shared st).2, log)
  | DnsForward to shared => Some ((ns_forward to shared st).2, log)
  | DnsSetPeerPublicKey pubkey => Some (set_peer_public_key pubkey st, log)
  | DnsStart => Some (ns_start st, log)
  | DnsStop => Some (ns_stop st, log)
  end.

(** *** [LocalDnsResolver] *)

(** [new], with the port that the socket is bound to, whether the interface of the
    tunnel can be set, and the key that is generated *)
Definition local_dns_new (bound : option Z) (tun_ok : bool) (secret : SecretKey) (public_key : PublicKey) (port : Z)
    (forward_ips : list StdIpAddr) (exit_dns : option (option bool)) : result DnsError LocalDnsResolver :=
  match bound with
  | None => Err SocketFailed
  | Some socket_port =>
      if tun_ok then
        match lower_from_str ".", forward_zone_new "." forward_ips with
        | Some name, Ok zone =>
            match tunn_new secret public_key with
            | Some tunnel =>
                Ok (mkLocalDnsResolver secret socket_port (SocketAddrV4 (ipv4_addr 127 0 0 1) port)
                      (match exit_dns with Some auto => default true auto | None => false end)
                      (zones_upsert name zone zones_new) tunnel None ∅ ∅ 0)
            | None => Err TunnFailed
            end
        | _, _ => Err BadName
        end
      else Err TunFailed
  end.

Definition dns_public_key st : PublicKey := dalek_public_key (dns_secret_key st).
Definition dns_v6 (n : Z) : StdIpAddr := V6 (Z.shiftl 0xfd74656c696f 80 + n).

Section peer.
Context `{IpNets}.

(** [get_peer] *)
Definition dns_get_peer (ips : list IpNet) st : Peer :=
  set_allowed_ips ips (set_endpoint (Some (SocketAddrV4 (ipv4_addr 127 0 0 1) (dns_socket_port st))) (peer_default (dns_public_key st))).

(** [IpNet::from] of an address, which cannot fail ([ipnet_new_Some]) *)
Definition host_net (a : StdIpAddr) : option IpNet := ipnet_new a (addr_bits a).

Definition default_dns_allowed_ips : list IpNet :=
  omap host_net [V4 (ipv4_addr 100 64 0 2); V4 (ipv4_addr 100 64 0 3); dns_v6 2; dns_v6 3].
Definition exit_connected_dns_allowed_ips : list IpNet := omap host_net [V4 (ipv4_addr 100 64 0 2); dns_v6 2].
Definition default_dns_servers : list StdIpAddr := [V4 (ipv4_addr 100 64 0 3); dns_v6 3].

(** The resolver as the controller of the interface sees it *)
Definition as_resolver st : Resolver :=
  mkResolver (dns_public_key st) (λ ips, dns_get_peer ips st) default_dns_allowed_ips exit_connected_dns_allowed_ips.
End peer.
End resolver.
