(* ===== verification/DnsProps.v ===== *)
(** * The resolver answers: properties of [Dns] *)

From stdpp Require Import strings.
From S2P Require Import Prelude NetTypes WgTypes Crypto NetText FirewallReset PacketViews Checksum DnsPackets DeviceTypes Starcast Consolidation Dns.

(** ** Responses *)

Lemma view_new_set {F} (v : View F) width f x b : ViewLaws v width → view_new v (view_set v f x b) = view_new v b.
Proof. intros Hv. apply (law_new_length _ _ Hv), (law_length_set _ _ Hv). Qed.

Ltac set_side Hv Hn :=
  first [by rewrite ?(view_new_set _ _ _ _ _ Hv), Hn | done | apply wrap_is_uint; lia | unfold is_uint; cbn; lia].

Section responses.
Context `{DnsPackets} `{!DnsPacketsLaws} `{!Hickory}.
Implicit Types (b q buf dns resp : bytes).

(** *** Headers in buffers *)

Lemma head_of_response h n slice b : h ≤ n → take h (take n (list_inserts h slice b)) = take h b.
Proof.
  intros Hn. rewrite take_take, Nat.min_l by done. apply list_eq. intros i. destruct (decide (i < h)).
  - by rewrite !lookup_take_lt, list_lookup_inserts_lt by done.
  - by rewrite !lookup_take_ge by lia.
Qed.

Lemma tail_of_response h slice b : h + length slice ≤ length b →
  drop h (take (h + length slice) (list_inserts h slice b)) = slice.
Proof. intros Hl. rewrite skipn_firstn_comm. replace (h + length slice - h) with (length slice) by lia. by apply range_inserts_eq. Qed.

Lemma get_of_response {F} (v : View F) h n slice b f : HeaderLaws v h → h ≤ n →
  view_get v f (take n (list_inserts h slice b)) = view_get v f b.
Proof.
  intros Hh Hn. rewrite <-(law_get_header _ _ Hh f (take n _)), head_of_response by done. apply (law_get_header _ _ Hh).
Qed.

(** *** The UDP part *)

(** What a receiver reads of a UDP packet *)
Definition udp_carries (checksum : bytes → Z) (source destination : Z) (data u : bytes) : Prop :=
  length u = UDP_HEADER + length data ∧ view_get du DuSource u = source ∧ view_get du DuDestination u = destination ∧
  view_get du DuLength u = Z.of_nat (length u) ∧ checksum u = view_get du DuChecksum u ∧ du_payload u = data.

Definition udp_reply (checksum : bytes → Z) (source destination : Z) (data b : bytes) : bytes :=
  let b := view_set du DuSource source b in
  let b := view_set du DuDestination destination b in
  let b := view_set du DuLength (wrap 16 (Z.of_nat (UDP_HEADER + length data))) b in
  let b := du_with_payload data b in
  let b := view_set du DuChecksum 0 b in
  view_set du DuChecksum (checksum b) b.

Lemma udp_reply_carries checksum source destination data b :
  (∀ x u, checksum (view_set du DuChecksum x u) = checksum u) → (∀ u, is_bytes u → is_uint 16 (checksum u)) →
  is_uint 16 source → is_uint 16 destination → is_bytes data → is_bytes b →
  length b = UDP_HEADER + length data → (Z.of_nat (length b) < 2 ^ 16)%Z →
  udp_carries checksum source destination data (udp_reply checksum source destination data b).
Proof.
  intros Hskip Hck Hs Hd Hdata Hb Hl Hl16. unfold udp_reply. pose proof du_laws as Hv. pose proof du_header as Hh.
  set (b3 := view_set du DuLength _ _). assert (length b3 = length b) as Hl3 by (unfold b3; by rewrite !(law_length_set _ _ Hv)).
  assert (is_bytes b3) as Hb3 by (unfold b3; by repeat apply (law_bytes_set _ _ Hv)).
  assert (view_new du b = true) as Hn by (rewrite (law_view_new _ _ Hh); apply bool_decide_eq_true_2; unfold UDP_HEADER in Hl; lia).
  rewrite du_put by (unfold UDP_HEADER in Hl; lia). set (b4 := take 8 b3 ++ data).
  assert (length (take 8 b3) = 8) as H8 by (rewrite length_take; unfold UDP_HEADER in Hl; lia).
  assert (length b4 = length b) as Hl4 by (unfold b4; rewrite length_app, H8; unfold UDP_HEADER in Hl; lia).
  assert (is_bytes b4) as Hb4 by (apply Forall_app; split; [by apply Forall_take|done]).
  assert (∀ f, view_get du f b4 = view_get du f b3) as Hget.
  { intros f. rewrite <-(law_get_header _ _ Hh f b4), <-(law_get_header _ _ Hh f b3). unfold b4. by rewrite take_app_le, take_take, Nat.min_id by lia. }
  assert (∀ x c, view_new du x = view_new du c → view_new du c = true → view_new du x) as Hnew by (intros x c -> ->; done).
  assert (view_new du b4 = true) as Hn4 by (by rewrite (law_new_length _ _ Hv b4 b)).
  assert (∀ f x, f ≠ DuChecksum → view_get du f (view_set du DuChecksum x (view_set du DuChecksum 0 b4)) = view_get du f b3) as Hother.
  { intros f x Hf. rewrite (law_get_set_ne _ _ Hv) by (rewrite ?(view_new_set _ _ _ _ _ Hv), ?Hn4; done). rewrite (law_get_set_ne _ _ Hv) by (rewrite ?Hn4; done). apply Hget. }
  split_and!.
  - by rewrite !(law_length_set _ _ Hv), Hl4, Hl.
  - rewrite Hother by done. unfold b3. rewrite !(law_get_set_ne _ _ Hv), (law_get_set _ _ Hv) by (rewrite ?(view_new_set _ _ _ _ _ Hv), ?Hn; done). done.
  - rewrite Hother by done. unfold b3. rewrite (law_get_set_ne _ _ Hv), (law_get_set _ _ Hv) by (rewrite ?(view_new_set _ _ _ _ _ Hv), ?Hn; done). done.
  - rewrite Hother by done. unfold b3. rewrite (law_get_set _ _ Hv) by first [by rewrite !(view_new_set _ _ _ _ _ Hv), Hn | apply wrap_is_uint; lia].
    rewrite !(law_length_set _ _ Hv), Hl4, <-Hl. apply wrap_small. unfold is_uint. lia.
  - rewrite !Hskip. rewrite (law_get_set _ _ Hv); [done|by rewrite (view_new_set _ _ _ _ _ Hv), Hn4|]. by apply Hck.
  - rewrite du_payload_range, !(law_set_behind _ _ Hh). unfold b4. by rewrite drop_app_length'.
Qed.

(** *** The IP header *)

Definition swap_addresses (i : IpRequestInfo) : IpRequestInfo :=
  match i with
  | IpRequestV4 s d dscp ecn ttl identification => IpRequestV4 d s dscp ecn ttl identification
  | IpRequestV6 s d => IpRequestV6 d s
  end.

Definition info_ok (i : IpRequestInfo) : Prop :=
  match i with
  | IpRequestV4 s d dscp ecn ttl identification =>
      is_uint 32 s ∧ is_uint 32 d ∧ is_uint 6 dscp ∧ is_uint 2 ecn ∧ is_uint 8 ttl ∧ is_uint 16 identification
  | IpRequestV6 s d => is_uint 128 s ∧ is_uint 128 d
  end.

(** The header that is written makes a packet of whatever follows it. *)
Definition header_written (P : DnsIpPacket) (h : nat) (proto : Z) (r : RequestInfo) (n : nat) buf : Prop :=
  ∃ b, build_ip_header r n buf = Ok (h, b) ∧ length b = length buf ∧ is_bytes b ∧
    ∀ slice, length slice = n → h + n ≤ length buf →
      let resp := take (h + n) (list_inserts h slice b) in
      dip_try_from P resp = true ∧ dip_check_valid P resp = true ∧ dip_protocol P resp = proto ∧
      dip_request_info P resp = swap_addresses (request_ip r) ∧ dip_payload P resp = slice.

Lemma ipv4_header_written r n buf : info_ok (request_ip r) → (∃ s d dscp ecn ttl i, request_ip r = IpRequestV4 s d dscp ecn ttl i) →
  is_bytes buf → 20 ≤ length buf → (20 + Z.of_nat n < 2 ^ 16)%Z →
  header_written dns_ipv4 IPV4_HEADER (payload_protocol (request_payload r)) r n buf.
Proof.
  intros Hok (s & d & dscp & ecn & ttl & ident & Er) Hb Hl Hn16. unfold header_written, build_ip_header. rewrite Er in *.
  destruct Hok as (Hs & Hd & Hdscp & Hecn & Httl & Hid). pose proof d4_laws as Hv. pose proof d4_header as Hh.
  assert (view_new d4 buf = true) as Hn by (rewrite (law_view_new _ _ Hh); by apply bool_decide_eq_true_2). rewrite Hn.
  set (b1 := view_set d4 D4Destination s _).
  assert (length b1 = length buf) as Hl1 by (unfold b1; by rewrite !(law_length_set _ _ Hv)).
  assert (is_bytes b1) as Hb1 by (unfold b1; by repeat apply (law_bytes_set _ _ Hv)).
  assert (view_new d4 b1 = true) as Hn1 by (by rewrite (law_new_length _ _ Hv b1 buf)).
  set (b2 := view_set d4 D4Checksum _ _).
  assert (∀ f, f ≠ D4Checksum → view_get d4 f b2 = view_get d4 f b1) as Hget.
  { intros f Hf. unfold b2. by rewrite !(law_get_set_ne _ _ Hv) by set_side Hv Hn1. }
  assert (d4_checksum b2 = view_get d4 D4Checksum b2) as Hck.
  { unfold b2. rewrite !d4_checksum_skips. rewrite (law_get_set _ _ Hv); [done|by rewrite (view_new_set _ _ _ _ _ Hv), Hn1|]. by apply d4_checksum_uint. }
  exists b2. split; [done|]. split; [unfold b2; by rewrite !(law_length_set _ _ Hv)|].
  split; [unfold b2; by repeat apply (law_bytes_set _ _ Hv)|]. intros slice Hsl Hfit. set (resp := take (IPV4_HEADER + n) _).
  assert (length b2 = length buf) as Hl2 by (unfold b2; by rewrite !(law_length_set _ _ Hv)).
  assert (∀ f, view_get d4 f resp = view_get d4 f b2) as Hresp by (intros f; apply (get_of_response _ _ _ _ _ _ Hh); unfold IPV4_HEADER; lia).
  assert (view_get d4 D4HeaderLength resp = 5%Z) as Hihl.
  { rewrite Hresp, Hget by done. unfold b1. rewrite !(law_get_set_ne _ _ Hv), (law_get_set _ _ Hv) by set_side Hv Hn. done. }
  assert (length resp = IPV4_HEADER + n) as Hlen by (unfold resp; rewrite length_take, length_inserts; lia).
  cbn [dip_try_from dip_check_valid dip_protocol dip_request_info dip_payload dns_ipv4 swap_addresses]. split_and!.
  - rewrite (law_view_new _ _ Hh), Hlen. apply bool_decide_eq_true_2. unfold IPV4_HEADER. lia.
  - rewrite Hihl. assert (view_get d4 D4Version resp = 4%Z) as ->.
    { rewrite Hresp, Hget by done. unfold b1. rewrite !(law_get_set_ne _ _ Hv), (law_get_set _ _ Hv) by set_side Hv Hn. done. }
    cbn. rewrite <-(d4_checksum_header resp) by done. unfold resp at 1. rewrite head_of_response by (unfold IPV4_HEADER; lia).
    rewrite d4_checksum_header by (by rewrite <-Hresp). by rewrite Hresp, Hck, Z.eqb_refl.
  - rewrite Hresp, Hget by done. unfold b1. rewrite !(law_get_set_ne _ _ Hv), (law_get_set _ _ Hv) by (destruct (request_payload r); set_side Hv Hn). done.
  - rewrite !Hresp, !Hget by done. unfold b1.
    f_equal; rewrite ?(law_get_set_ne _ _ Hv), (law_get_set _ _ Hv) by set_side Hv Hn; done.
  - rewrite d4_payload_range by done.
    assert (view_get d4 D4TotalLength resp = Z.of_nat (IPV4_HEADER + n)) as ->.
    { rewrite Hresp, Hget by done. unfold b1. rewrite !(law_get_set_ne _ _ Hv), (law_get_set _ _ Hv) by set_side Hv Hn.
      apply wrap_small. unfold is_uint, IPV4_HEADER. lia. }
    rewrite Nat2Z.id. unfold resp, IPV4_HEADER in *. rewrite <-Hsl, tail_of_response by lia. apply take_ge. lia.
Qed.

Lemma ipv6_header_written r n buf : info_ok (request_ip r) → (∃ s d, request_ip r = IpRequestV6 s d) →
  is_bytes buf → 40 ≤ length buf → (Z.of_nat n < 2 ^ 16)%Z →
  header_written dns_ipv6 IPV6_HEADER IpNextHeaderProtocols.Udp r n buf.
Proof.
  intros Hok (s & d & Er) Hb Hl Hn16. unfold header_written, build_ip_header. rewrite Er in *.
  destruct Hok as (Hs & Hd). pose proof d6_laws as Hv. pose proof d6_header as Hh.
  assert (view_new d6 buf = true) as Hn by (rewrite (law_view_new _ _ Hh); by apply bool_decide_eq_true_2). rewrite Hn.
  set (b1 := view_set d6 D6Destination s _).
  assert (length b1 = length buf) as Hl1 by (unfold b1; by rewrite !(law_length_set _ _ Hv)).
  exists b1. split; [done|]. split; [done|]. split; [unfold b1; by repeat apply (law_bytes_set _ _ Hv)|].
  intros slice Hsl Hfit. set (resp := take (IPV6_HEADER + n) _).
  assert (∀ f, view_get d6 f resp = view_get d6 f b1) as Hresp by (intros f; apply (get_of_response _ _ _ _ _ _ Hh); unfold IPV6_HEADER; lia).
  assert (length resp = IPV6_HEADER + n) as Hlen by (unfold resp; rewrite length_take, length_inserts; lia).
  assert (view_get d6 D6PayloadLength resp = Z.of_nat n) as Hpl.
  { rewrite Hresp. unfold b1. rewrite !(law_get_set_ne _ _ Hv), (law_get_set _ _ Hv) by set_side Hv Hn. apply wrap_small. unfold is_uint. lia. }
  assert (d6_payload resp = slice) as Hp.
  { rewrite d6_payload_range, Hpl, Nat2Z.id. unfold resp, IPV6_HEADER in *. rewrite <-Hsl, tail_of_response by lia. apply take_ge. lia. }
  cbn [dip_try_from dip_check_valid dip_protocol dip_request_info dip_payload dns_ipv6 swap_addresses]. split_and!.
  - rewrite (law_view_new _ _ Hh), Hlen. apply bool_decide_eq_true_2. unfold IPV6_HEADER. lia.
  - rewrite Hp, Hpl, Hsl, Z.eqb_refl. assert (view_get d6 D6Version resp = 6%Z) as ->; [|done].
    rewrite Hresp. unfold b1. rewrite !(law_get_set_ne _ _ Hv), (law_get_set _ _ Hv) by set_side Hv Hn. done.
  - rewrite Hresp. unfold b1. rewrite !(law_get_set_ne _ _ Hv), (law_get_set _ _ Hv) by set_side Hv Hn. done.
  - rewrite !Hresp. unfold b1. f_equal; rewrite ?(law_get_set_ne _ _ Hv), (law_get_set _ _ Hv) by set_side Hv Hn; done.
  - exact Hp.
Qed.

(** *** The response *)

Definition ip_header_length (i : IpRequestInfo) : nat := match i with IpRequestV4 _ _ _ _ _ _ => IPV4_HEADER | IpRequestV6 _ _ => IPV6_HEADER end.
Definition ip_packet (i : IpRequestInfo) : DnsIpPacket := match i with IpRequestV4 _ _ _ _ _ _ => dns_ipv4 | IpRequestV6 _ _ => dns_ipv6 end.

(** A packet that answers a request with [dns]: a receiver accepts it as a UDP packet,
    which goes from where the request was for to where it came from, between the same
    ports, and carries [dns]. *)
Definition replies (P : DnsIpPacket) (to : IpRequestInfo) (source_port destination_port : Z) dns resp : Prop :=
  dip_try_from P resp = true ∧ dip_check_valid P resp = true ∧ dip_protocol P resp = IpNextHeaderProtocols.Udp ∧
  dip_request_info P resp = swap_addresses to ∧
  udp_carries (dip_udp_checksum P resp) destination_port source_port dns (dip_payload P resp).

Lemma udp_checksum_of_response i resp u : dip_request_info (ip_packet i) resp = swap_addresses i →
  dip_udp_checksum (ip_packet i) resp u = compute_udp_checksum i u.
Proof. destruct i; cbn; by intros [=-> ->]. Qed.

Lemma compute_udp_checksum_laws i : (∀ x u, compute_udp_checksum i (view_set du DuChecksum x u) = compute_udp_checksum i u) ∧
  ∀ u, is_bytes u → is_uint 16 (compute_udp_checksum i u).
Proof.
  destruct i; cbn; split; intros; [apply du_checksum4_skips|by apply du_checksum4_uint|apply du_checksum6_skips|by apply du_checksum6_uint].
Qed.

Lemma header_of_udp_reply r sp dp m n buf : info_ok (request_ip r) → request_payload r = PayloadUdp sp dp m → is_bytes buf →
  ip_header_length (request_ip r) ≤ length buf → (Z.of_nat (ip_header_length (request_ip r) + n) < 2 ^ 16)%Z →
  header_written (ip_packet (request_ip r)) (ip_header_length (request_ip r)) IpNextHeaderProtocols.Udp r n buf.
Proof.
  intros Hok Hp Hb Hl Hn. destruct (request_ip r) eqn:Er; cbn [ip_header_length ip_packet] in *; unfold IPV4_HEADER, IPV6_HEADER in *.
  - pose proof (ipv4_header_written r n buf) as Hw. rewrite Er, Hp in Hw. apply Hw; [done|by do 6 eexists|done|done|lia].
  - apply ipv6_header_written; rewrite ?Er; [done|by do 2 eexists|done|done|lia].
Qed.

(** With enough room in the buffer, the response to a query is a packet that answers it. *)
Lemma build_udp_reply r sp dp m dns buf : info_ok (request_ip r) → is_uint 16 sp → is_uint 16 dp →
  request_payload r = PayloadUdp sp dp m → is_bytes dns → is_bytes buf → (Z.of_nat (length buf) < 2 ^ 16)%Z →
  let n := ip_header_length (request_ip r) + UDP_HEADER + length dns in n ≤ length buf →
  ∃ buf', build_response_packet r dns buf = Ok (n, buf') ∧ length buf' = length buf ∧
    replies (ip_packet (request_ip r)) (request_ip r) sp dp dns (take n buf').
Proof.
  intros Hok Hsp Hdp Hp Hdns Hb Hl16 n Hn. unfold build_response_packet. rewrite Hp.
  destruct (header_of_udp_reply r sp dp m (UDP_HEADER + length dns) buf Hok Hp Hb) as (b & -> & Hlb & Hbb & Hw);
    [unfold n in *; lia..|]. unfold build_payload. rewrite Hp. unfold write_range.
  rewrite bool_decide_eq_true_2 by (rewrite Hlb; exact Hn). set (h := ip_header_length (request_ip r)) in *. fold n.
  set (b0 := take (n - h) (drop h b)).
  assert (length b0 = UDP_HEADER + length dns) as Hl0 by (unfold b0; rewrite length_take, length_drop; unfold n in *; lia).
  assert (view_new du b0 = true) as -> by (rewrite (law_view_new _ _ du_header), Hl0; apply bool_decide_eq_true_2; unfold UDP_HEADER; lia).
  destruct (compute_udp_checksum_laws (request_ip r)) as [Hskip Hck].
  pose proof (udp_reply_carries (compute_udp_checksum (request_ip r)) dp sp dns b0 Hskip Hck Hdp Hsp Hdns (is_bytes_range _ _ _ Hbb) Hl0
    ltac:(rewrite Hl0; unfold n in *; lia)) as Hc. unfold udp_reply in Hc. set (slice := view_set du DuChecksum _ _) in *.
  exists (list_inserts h slice b). split; [done|]. split; [by rewrite length_inserts|].
  destruct (Hw slice) as (W1 & W2 & W3 & W4 & W5); [apply Hc|unfold n in *; lia|].
  replace (h + (UDP_HEADER + length dns)) with n in * by (unfold n; lia). split_and!; [done..|].
  rewrite W5. destruct Hc as (C1 & C2 & C3 & C4 & C5 & C6). split_and!; try done. by rewrite udp_checksum_of_response.
Qed.

(** *** Requests *)

(** A packet that the resolver takes as the query [m] from a port *)
Definition is_query (P : DnsIpPacket) q (m : MessageRequest) (source_port : Z) : Prop :=
  let u := dip_payload P q in
  dip_try_from P q = true ∧ dip_check_valid P q = true ∧ dip_protocol P q = IpNextHeaderProtocols.Udp ∧ view_new du u = true ∧
  dip_udp_checksum P q u = view_get du DuChecksum u ∧ view_get du DuDestination u = 53%Z ∧ view_get du DuSource u = source_port ∧
  message_from_bytes (du_payload u) = Some m.

(** [parse_request] takes the version from the first byte. *)
Definition of_version (P : DnsIpPacket) q : Prop :=
  ∃ first, head q = Some first ∧ (Z.shiftr first 4 = 4%Z ∧ P = dns_ipv4 ∨ Z.shiftr first 4 = 6%Z ∧ P = dns_ipv6).

Lemma parse_request_version q r : parse_request q = Ok r → ∃ P, of_version P q ∧ process_ip_packet P q = Ok r.
Proof.
  destruct q as [|x q]; [done|]. cbn [parse_request]. intros Hr.
  destruct (Z.eqb_spec (Z.shiftr x 4) 4); [exists dns_ipv4; split; [exists x; eauto|done]|].
  destruct (Z.eqb_spec (Z.shiftr x 4) 6); [exists dns_ipv6; split; [exists x; eauto|done]|done].
Qed.

Lemma of_version_info P q : of_version P q → is_bytes q →
  info_ok (dip_request_info P q) ∧ ip_packet (dip_request_info P q) = P ∧ is_bytes (dip_payload P q).
Proof.
  intros (x & _ & [[_ ->]|[_ ->]]) Hq; cbn; (split; [|split; [done|]]).
  - by split_and!; apply (law_get_uint _ _ d4_laws).
  - by apply d4_payload_bytes.
  - by split_and!; apply (law_get_uint _ _ d6_laws).
  - rewrite d6_payload_range. apply (is_bytes_range _ 40), Hq.
Qed.

(** The query that was parsed, and its parts *)
Lemma process_ip_packet_udp P q r sp dp m : process_ip_packet P q = Ok r → request_payload r = PayloadUdp sp dp m →
  request_ip r = dip_request_info P q ∧ dp = 53%Z ∧ ∃ m', m = Some m' ∧ is_query P q m' sp.
Proof.
  unfold process_ip_packet. destruct (dip_try_from P q) eqn:E1; [|done]. destruct (dip_check_valid P q) eqn:E2; [|done]. cbn [negb].
  destruct (Z.eqb_spec (dip_protocol P q) IpNextHeaderProtocols.Udp) as [E3|]; [|repeat case_match; intros; simplify_eq/=].
  destruct (view_new du (dip_payload P q)) eqn:E4; [|done]. unfold process_udp_packet.
  destruct (Z.eqb_spec (dip_udp_checksum P q (dip_payload P q)) (view_get du DuChecksum (dip_payload P q))) as [E5|]; [|done].
  destruct (Z.eqb_spec (view_get du DuDestination (dip_payload P q)) 53) as [E6|]; [|done]. cbn [negb].
  destruct (message_from_bytes (du_payload (dip_payload P q))) as [m'|] eqn:E7; [|done]. intros [=<-] [=<- <- <-]. cbn.
  split; [done|]. split; [done|]. exists m'. split; [done|]. by split_and!.
Qed.

Lemma process_query P q m sp : is_query P q m sp → process_ip_packet P q = Ok (mkRequestInfo (dip_request_info P q) (PayloadUdp sp 53 (Some m))).
Proof.
  intros (E1 & E2 & E3 & E4 & E5 & E6 & E7 & E8). unfold process_ip_packet, process_udp_packet.
  rewrite E1, E2, E3, E4, E5, E6, E7, E8. cbn. by rewrite Z.eqb_refl.
Qed.

Lemma parse_query P q m sp : of_version P q → is_query P q m sp →
  parse_request q = Ok (mkRequestInfo (dip_request_info P q) (PayloadUdp sp 53 (Some m))).
Proof.
  intros (x & Hx & Hv) Hq. destruct q as [|y q]; [done|]. injection Hx as ->. cbn [parse_request].
  destruct Hv as [[Hv ->]|[Hv ->]]; rewrite Hv; by apply process_query.
Qed.

Lemma build_ip_header_length r n buf h b : build_ip_header r n buf = Ok (h, b) →
  h = ip_header_length (request_ip r) ∧ length b = length buf.
Proof.
  unfold build_ip_header. destruct (request_ip r) eqn:Er; case_match; intros; simplify_eq; cbn [ip_header_length]; (split; [done|]).
  - by rewrite !(law_length_set _ _ d4_laws).
  - by rewrite !(law_length_set _ _ d6_laws).
Qed.

(** A response that does not fit is not sent. *)
Lemma build_too_long r sp dp m dns buf : request_payload r = PayloadUdp sp dp m →
  length buf < ip_header_length (request_ip r) + UDP_HEADER + length dns → ∃ e, build_response_packet r dns buf = Err e.
Proof.
  intros Hp Hl. unfold build_response_packet. rewrite Hp. destruct (build_ip_header _ _ buf) as [[h b]|e] eqn:Eh; [|by exists e].
  apply build_ip_header_length in Eh as [-> Hlb]. unfold build_payload. rewrite Hp. unfold write_range.
  rewrite bool_decide_eq_false_2 by lia. by eexists.
Qed.
End responses.

(** ** The resolver *)

Section resolver_props.
Context `{DnsPackets} `{!DnsPacketsLaws} `{!Hickory} `{!Catalogs} `{Tunnels} `{!HashOrder string} `{!HashOrder LowerName}.
Implicit Types (st : LocalDnsResolver) (log : list DnsEffect) (z : ClonableZones).

(** The crates are given bytes and give bytes. *)
Hypothesis catalog_bytes : ∀ m q a o dns, catalog_lookup m q a o = Some dns → is_bytes dns.
Hypothesis tunnel_bytes : ∀ b t p, is_bytes b → (decapsulate b t).1 = WriteToTunnelV4 p ∨ (decapsulate b t).1 = WriteToTunnelV6 p → is_bytes p.

(** What [resp] has to do with the packet [q] if it is the response to it, from zones [z] *)
Definition responds (q : bytes) z (resp : bytes) : Prop :=
  ∃ P, of_version P q ∧
    (dip_protocol P q = IpNextHeaderProtocols.Tcp ∨
     ∃ m sp outside dns, is_query P q m sp ∧
       catalog_lookup (cz_zones z) m (socket_addr_new (source_ip (dip_request_info P q)) sp) outside = Some dns ∧
       replies P (dip_request_info P q) sp 53 dns resp).

Lemma answer_request_udp z outside i sp dp m buf :
  answer_request z outside (mkRequestInfo i (PayloadUdp sp dp (Some m))) buf =
    match catalog_lookup (cz_zones z) m (socket_addr_new (source_ip i) sp) outside with
    | Some dns => build_response_packet (mkRequestInfo i (PayloadUdp sp dp None)) dns buf
    | None => Err LookupFailed
    end.
Proof.
  unfold answer_request, resolve_dns_request, dns_source. cbn [request_payload request_ip]. by destruct (catalog_lookup _ _ _ _).
Qed.

Lemma query_answered P q m sp z outside dns buf : of_version P q → is_query P q m sp → is_bytes q → is_bytes buf →
  (Z.of_nat (length buf) < 2 ^ 16)%Z →
  catalog_lookup (cz_zones z) m (socket_addr_new (source_ip (dip_request_info P q)) sp) outside = Some dns →
  let n := ip_header_length (dip_request_info P q) + UDP_HEADER + length dns in n ≤ length buf →
  ∃ buf', answer_request z outside (mkRequestInfo (dip_request_info P q) (PayloadUdp sp 53 (Some m))) buf = Ok (n, buf') ∧
    length buf' = length buf ∧ replies P (dip_request_info P q) sp 53 dns (take n buf').
Proof.
  intros Hv Hq Hb Hbuf Hl16 Hlook n Hn. destruct (of_version_info P q Hv Hb) as (Hok & HP & Hpl).
  assert (is_uint 16 sp) as Hsp by (destruct Hq as (_ & _ & _ & _ & _ & _ & <- & _); by apply (law_get_uint _ _ du_laws)).
  destruct (build_udp_reply (mkRequestInfo (dip_request_info P q) (PayloadUdp sp 53 None)) sp 53 None dns buf) as (buf' & E1 & E2 & E3);
    [done|done|done|done|by eapply catalog_bytes|done|done|exact Hn|].
  cbn [request_ip] in E3. rewrite HP in E3. exists buf'. split; [|done]. by rewrite answer_request_udp, Hlook.
Qed.

Lemma answer_responds q r z outside buf n buf' : is_bytes q → is_bytes buf → (Z.of_nat (length buf) < 2 ^ 16)%Z →
  parse_request q = Ok r → answer_request z outside r buf = Ok (n, buf') → responds q z (take n buf').
Proof.
  intros Hb Hbuf Hl16 Hr Ha. destruct (parse_request_version q r Hr) as (P & Hv & Hp). exists P. split; [done|].
  destruct (request_payload r) as [sp dp m|sp dp seq] eqn:Epl.
  - right. destruct (process_ip_packet_udp P q r sp dp m Hp Epl) as (Hip & -> & m' & -> & Hq).
    assert (r = mkRequestInfo (dip_request_info P q) (PayloadUdp sp 53 (Some m'))) as -> by (destruct r; cbn in *; congruence).
    pose proof Ha as Ha0. rewrite answer_request_udp in Ha. destruct (catalog_lookup _ _ _ _) as [dns|] eqn:El; [|done].
    destruct (decide (ip_header_length (dip_request_info P q) + UDP_HEADER + length dns ≤ length buf)) as [Hn|Hn].
    + destruct (query_answered P q m' sp z outside dns buf Hv Hq Hb Hbuf Hl16 El Hn) as (b' & Ha' & _ & Hrep).
      rewrite Ha0 in Ha'. injection Ha' as -> ->. by exists m', sp, outside, dns.
    + destruct (build_too_long (mkRequestInfo (dip_request_info P q) (PayloadUdp sp 53 None)) sp 53 None dns buf) as [e He]; [done|cbn; lia|].
      by rewrite He in Ha.
  - left. unfold process_ip_packet, process_udp_packet in Hp. repeat (case_match; simplify_eq/=); try done; by apply Z.eqb_eq.
Qed.

(** *** Histories

    The trace has what the resolver did at its borders, and after every step the zones
    that it has. *)
Inductive DnsTrace := Did (e : DnsEffect) | HasZones (z : ClonableZones).

Definition input_ok (i : DnsInput) : Prop := match i with DnsDatagram _ (Some data) => is_bytes data | _ => True end.

Inductive dns_history : list DnsTrace → LocalDnsResolver → Prop :=
| Dns_new bound tun_ok secret public_key port forward_ips exit_dns st :
    local_dns_new bound tun_ok secret public_key port forward_ips exit_dns = Ok st → dns_history [HasZones (dns_zones st)] st
| Dns_step tr st i st' log : dns_history tr st → input_ok i → dns_step i st [] = Some (st', log) →
    dns_history (tr ++ (Did <$> log) ++ [HasZones (dns_zones st')]) st'.

(** The packet of a task came, and the zones were there some time since. *)
Definition came (tr : list DnsTrace) (id : nat) (q : bytes) z : Prop :=
  ∃ l1 l2, tr = l1 ++ Did (PacketIn id q) :: l2 ∧ HasZones z ∈ l2.

Definition responded (tr : list DnsTrace) : list nat := omap (λ x, match x with Did (ResponseOut id _) => Some id | _ => None end) tr.

(** A response in the trace answers the packet of its task, from zones that the
    resolver had between the two. *)
Definition responses_ok (tr : list DnsTrace) : Prop :=
  ∀ l1 id resp l2, tr = l1 ++ Did (ResponseOut id resp) :: l2 → ∃ q z, came l1 id q z ∧ responds q z resp.

Definition buffer_ok (b : bytes) : Prop := is_bytes b ∧ length b = MAX_PACKET.

Definition task_ok (tr : list DnsTrace) (zones : ClonableZones) (id : nat) (t : DnsTask) : Prop :=
  buffer_ok (task_buffer t) ∧ id ∉ responded tr ∧
  match task_stage t with
  | Spawned _ | Handshaking => True
  | Parsed q r => came tr id q zones ∧ parse_request q = Ok r ∧ is_bytes q
  | Resolving q r z => came tr id q z ∧ parse_request q = Ok r ∧ is_bytes q
  end.

Record dns_ok (tr : list DnsTrace) st : Prop := {
  ok_responses : responses_ok tr;
  ok_once : NoDup (responded tr);
  ok_fresh id : id ∈ responded tr → id < dns_next_id st;
  ok_loops id l : dns_loops st !! id = Some l → buffer_ok (receiving_buffer l);
  ok_tasks id t : dns_tasks st !! id = Some t → task_ok tr (dns_zones st) id t ∧ id < dns_next_id st
}.

Lemma came_app tr id q z l : came tr id q z → came (tr ++ l) id q z.
Proof. intros (l1 & l2 & -> & Hz). exists l1, (l2 ++ l). rewrite <-(assoc_L (++)). split; [done|]. apply elem_of_app. by left. Qed.

Lemma came_now tr id q z l z' : came tr id q z → came (tr ++ l ++ [HasZones z']) id q z'.
Proof.
  intros (l1 & l2 & -> & _). exists l1, (l2 ++ l ++ [HasZones z']). rewrite <-(assoc_L (++)). split; [done|].
  rewrite !elem_of_app. right. right. by left.
Qed.

Lemma responded_app l1 l2 : responded (l1 ++ l2) = responded l1 ++ responded l2.
Proof. apply omap_app. Qed.

Lemma responses_ok_app tr l : responses_ok tr →
  (∀ l1 id resp l2, l = l1 ++ Did (ResponseOut id resp) :: l2 → ∃ q z, came (tr ++ l1) id q z ∧ responds q z resp) →
  responses_ok (tr ++ l).
Proof.
  intros Hok Hl l1 id resp l2 E. apply app_eq_app in E as (k & [[-> E]|[-> E]]).
  - destruct k as [|x k]; cbn in E; [|injection E as <- ->; by apply (Hok l1 id resp k)].
    subst l. destruct (Hl [] id resp l2 eq_refl) as (q & z & Hc & Hr). rewrite !app_nil_r in *. by exists q, z.
  - destruct (Hl k id resp l2 E) as (q & z & Hc & Hr). by exists q, z.
Qed.

(** A step without a response *)
Lemma quiet_step tr st st' log : dns_ok tr st → responded (Did <$> log) = [] → dns_next_id st ≤ dns_next_id st' →
  let tr' := tr ++ (Did <$> log) ++ [HasZones (dns_zones st')] in
  (∀ id l, dns_loops st' !! id = Some l → buffer_ok (receiving_buffer l)) →
  (∀ id t, dns_tasks st' !! id = Some t → dns_tasks st !! id = Some t ∨ task_ok tr' (dns_zones st') id t ∧ id < dns_next_id st') →
  dns_ok tr' st'.
Proof.
  intros [Hr Ho Hf Hl Ht] Hq Hn tr' Hl' Ht'.
  assert (responded tr' = responded tr) as Er by (unfold tr'; by rewrite !responded_app, Hq, !app_nil_r). split.
  - apply responses_ok_app; [done|]. intros l1 id resp l2 E. exfalso.
    assert (id ∈ responded ((Did <$> log) ++ [HasZones (dns_zones st')])) as Hin.
    { rewrite E, responded_app. apply elem_of_app. right. by left. }
    rewrite responded_app, Hq in Hin. by apply elem_of_nil in Hin.
  - by rewrite Er.
  - rewrite Er. intros id Hin. specialize (Hf id Hin). lia.
  - done.
  - intros id t E. destruct (Ht' id t E) as [E'|]; [|done]. destruct (Ht id t E') as [(T1 & T2 & T3) T4]. split; [|lia].
    split; [done|]. split; [by rewrite Er|]. destruct (task_stage t) as [| |q r|q r z]; [done|done| |].
    + destruct T3 as (Hc & ? & ?). split_and!; try done. by eapply came_now.
    + destruct T3 as (Hc & ? & ?). split_and!; try done. unfold tr'. by apply came_app.
Qed.

(** A step that at most ends a task *)
Lemma ending_step tr st st' log : dns_ok tr st → responded (Did <$> log) = [] → dns_next_id st' = dns_next_id st →
  dns_loops st' = dns_loops st → dns_tasks st' ⊆ dns_tasks st → dns_ok (tr ++ (Did <$> log) ++ [HasZones (dns_zones st')]) st'.
Proof.
  intros Hok Hq Hn Hl Ht. apply (quiet_step tr st); [done|done|lia| |].
  - rewrite Hl. by apply Hok.
  - intros id t E. left. by eapply lookup_weaken.
Qed.

(** A step that brings a task further *)
Lemma task_step tr st st' log id t : dns_ok tr st → responded (Did <$> log) = [] → dns_next_id st' = dns_next_id st →
  dns_loops st' = dns_loops st → dns_tasks st' = <[id := t]> (dns_tasks st) → id < dns_next_id st →
  task_ok (tr ++ (Did <$> log) ++ [HasZones (dns_zones st')]) (dns_zones st') id t →
  dns_ok (tr ++ (Did <$> log) ++ [HasZones (dns_zones st')]) st'.
Proof.
  intros Hok Hq Hn Hl Ht Hid Hto. apply (quiet_step tr st); [done|done|lia| |].
  - rewrite Hl. by apply Hok.
  - intros id' t'. rewrite Ht. destruct (decide (id' = id)) as [->|Hne]; [rewrite lookup_insert_eq|rewrite lookup_insert_ne by done; by left].
    intros [= <-]. right. rewrite Hn. done.
Qed.

Lemma buffer_ok_received data b : buffer_ok b → is_bytes data → buffer_ok (list_inserts 0 (take MAX_PACKET data) b).
Proof. intros [Hb Hl] Hd. split; [apply is_bytes_inserts; [by apply Forall_take|done]|by rewrite length_inserts]. Qed.

Lemma set_loop_ok tr st st' log id b stage : dns_ok tr st → responded (Did <$> log) = [] → dns_next_id st ≤ dns_next_id st' →
  dns_loops st' = <[id := mkDnsLoop stage b]> (dns_loops st) → buffer_ok b →
  (∀ i t, dns_tasks st' !! i = Some t → dns_tasks st !! i = Some t ∨
    i = dns_next_id st ∧ i < dns_next_id st' ∧ buffer_ok (task_buffer t) ∧ ∃ n, task_stage t = Spawned n) →
  dns_ok (tr ++ (Did <$> log) ++ [HasZones (dns_zones st')]) st'.
Proof.
  intros Hok Hq Hn Hl Hb Ht. apply (quiet_step tr st); [done|done|done| |].
  - intros i l. rewrite Hl. destruct (decide (i = id)) as [->|Hne]; [rewrite lookup_insert_eq|rewrite lookup_insert_ne by done; apply Hok].
    by intros [= <-].
  - intros i t E. destruct (Ht i t E) as [?|(-> & Hi & Htb & n & Hs)]; [by left|]. right. split; [|done]. split; [done|].
    rewrite Hs. split; [|done]. rewrite !responded_app, Hq, !app_nil_r. intros Hin. apply (ok_fresh _ _ Hok) in Hin. lia.
Qed.

Lemma loop_step_ok tr st id l received st' log n : dns_ok tr st → dns_loops st !! id = Some l →
  (st', log) = (loop_receives id received l st, []) ∧ (∀ data, received = Some data → is_bytes data) ∨ (st', log) = loop_timers id n l st [] →
  dns_ok (tr ++ (Did <$> log) ++ [HasZones (dns_zones st')]) st'.
Proof.
  intros Hok Hl [[[=-> ->] Hr]|E].
  - unfold loop_receives. destruct received as [data|]; [|by apply (ending_step tr st)].
    eapply (set_loop_ok tr st); [done..| |by left]. apply buffer_ok_received; [by eapply ok_loops|by apply Hr].
  - unfold loop_timers in E. destruct (update_timers (dns_tunnel st)) as [res t]. pose proof (ok_loops _ _ Hok id l Hl) as Hb.
    assert (∀ st1 log1, (st1, log1) = (set_tasks (<[dns_next_id st := mkDnsTask id (Spawned n) (receiving_buffer l)]> (dns_tasks st)) (S (dns_next_id st))
        (set_loop id (mkDnsLoop Receiving (receiving_buffer l)) (set_dns_tunnel t st)), []) →
      dns_ok (tr ++ (Did <$> log1) ++ [HasZones (dns_zones st1)]) st1) as Hspawn.
    { intros st1 log1 [=-> ->]. eapply (set_loop_ok tr st); [done|done|cbn; lia|done|done|]. cbn. intros i t'.
      destruct (decide (i = dns_next_id st)) as [->|Hne]; [rewrite lookup_insert_eq|rewrite lookup_insert_ne by done; by left].
      intros [= <-]. right. split; [done|]. split; [lia|]. split; [done|by exists n]. }
    destruct res; try (by apply Hspawn). injection E as -> ->. by apply (ending_step tr st).
Qed.

Lemma take_bytes n b : buffer_ok b → is_bytes (take n b).
Proof. intros [Hb _]. by apply Forall_take. Qed.

Lemma decapsulate_ok tr st id t n sent st' log : dns_ok tr st → dns_tasks st !! id = Some t → task_stage t = Spawned n →
  (st', log) = task_decapsulates id n sent t st [] → dns_ok (tr ++ (Did <$> log) ++ [HasZones (dns_zones st')]) st'.
Proof.
  intros Hok Ht Hs E. destruct (ok_tasks _ _ Hok id t Ht) as [(Hb & Hr & _) Hid]. unfold task_decapsulates in E.
  pose proof (tunnel_bytes (take n (task_buffer t)) (dns_tunnel st)) as Hbytes. destruct (decapsulate _ _) as [res tunnel]. cbn [fst] in Hbytes.
  assert (∀ log, responded (Did <$> log) = [] → dns_ok (tr ++ (Did <$> log) ++ [HasZones (dns_zones st)]) (end_task id (set_dns_tunnel tunnel st))) as Hend.
  { intros lg Hlg. by apply (ending_step tr st (end_task id (set_dns_tunnel tunnel st)) _ Hok Hlg eq_refl eq_refl), delete_subseteq. }
  assert (∀ p, is_bytes p → (st', log) =
    (if bool_decide (leases (task_loop t) (set_dns_tunnel tunnel st) < MAX_CONCURRENT_QUERIES) then
       match parse_request p with
       | Ok r => (set_task id (mkDnsTask (task_loop t) (Parsed p r) (task_buffer t)) (set_dns_tunnel tunnel st), [PacketIn id p])
       | Err _ => (end_task id (set_dns_tunnel tunnel st), [PacketIn id p])
       end
     else (end_task id (set_dns_tunnel tunnel st), [PacketIn id p])) → dns_ok (tr ++ (Did <$> log) ++ [HasZones (dns_zones st')]) st') as Hquery.
  { intros p Hp E'. case_bool_decide; [|injection E' as -> ->; by apply (Hend [PacketIn id p])].
    destruct (parse_request p) as [r|e] eqn:Er; [|injection E' as -> ->; by apply (Hend [PacketIn id p])]. injection E' as -> ->.
    eapply (task_step tr st); [done..|]. split; [done|]. split; [by rewrite !responded_app, app_nil_r|]. cbn. split_and!; [|done|done].
    exists tr, [HasZones (dns_zones st)]. split; [done|by left]. }
  destruct res as [| |p|p|p]; cbn [app] in E.
  - injection E as -> ->. by apply (Hend []).
  - injection E as -> ->. by apply (Hend []).
  - destruct sent; injection E as -> ->; [|by apply (Hend [DnsToWg p])]. eapply (task_step tr st); [done..|].
    split; [done|]. split; [by rewrite !responded_app, app_nil_r|done].
  - apply (Hquery p); [|done]. apply Hbytes; [by apply take_bytes|by left].
  - apply (Hquery p); [|done]. apply Hbytes; [by apply take_bytes|by right].
Qed.

Lemma handshake_ok tr st id sent st' log : dns_ok tr st → (st', log) = task_handshakes id sent st [] →
  dns_ok (tr ++ (Did <$> log) ++ [HasZones (dns_zones st')]) st'.
Proof.
  intros Hok E. unfold task_handshakes in E. destruct (decapsulate [] (dns_tunnel st)) as [res tunnel].
  destruct res; try destruct sent; injection E as -> ->; apply (ending_step tr st); try done; apply delete_subseteq.
Qed.

Lemma zones_ok tr st id t q r : dns_ok tr st → dns_tasks st !! id = Some t → task_stage t = Parsed q r →
  dns_ok (tr ++ [] ++ [HasZones (dns_zones st)]) (set_task id (mkDnsTask (task_loop t) (Resolving q r (dns_zones st)) (task_buffer t)) st).
Proof.
  intros Hok Ht Hs. destruct (ok_tasks _ _ Hok id t Ht) as [(Hb & Hr & Hc) Hid]. rewrite Hs in Hc.
  apply (task_step tr st (set_task id (mkDnsTask (task_loop t) (Resolving q r (dns_zones st)) (task_buffer t)) st) [] id
    (mkDnsTask (task_loop t) (Resolving q r (dns_zones st)) (task_buffer t)) Hok eq_refl eq_refl eq_refl eq_refl Hid).
  split; [done|]. split; [by rewrite !responded_app, app_nil_r|]. destruct Hc as (Hc & ? & ?). split_and!; try done. by eapply (came_now _ _ _ _ []).
Qed.

Lemma answer_ok tr st id t q r z outside st' log : dns_ok tr st → dns_tasks st !! id = Some t → task_stage t = Resolving q r z →
  (st', log) = task_answers id r z outside t st [] → dns_ok (tr ++ (Did <$> log) ++ [HasZones (dns_zones st')]) st'.
Proof.
  intros Hok Ht Hs E. destruct (ok_tasks _ _ Hok id t Ht) as [([Hb Hbl] & Hr & Hc) Hid]. rewrite Hs in Hc. destruct Hc as (Hc & Hp & Hq).
  unfold task_answers in E. destruct (answer_request z outside r (task_buffer t)) as [[n buf]|e] eqn:Ea.
  2:{ injection E as -> ->. apply (ending_step tr st (end_task id st) [] Hok eq_refl eq_refl eq_refl), delete_subseteq. }
  assert (responds q z (take n buf)) as Hresp by (eapply answer_responds; [exact Hq|exact Hb|rewrite Hbl; vm_compute; reflexivity|exact Hp|exact Ea]).
  destruct (encapsulate (take n buf) (dns_tunnel st)) as [res tunnel].
  assert (∃ l, log = ResponseOut id (take n buf) :: l ∧ responded (Did <$> l) = [] ∧ st' = end_task id (set_dns_tunnel tunnel st)) as (l & -> & Hl & ->).
  { injection E as -> ->. destruct res; by eexists. } clear E.
  assert (∀ z', responded (tr ++ (Did <$> ResponseOut id (take n buf) :: l) ++ [HasZones z']) = responded tr ++ [id]) as Er.
  { intros z'. rewrite fmap_cons, !responded_app. change (responded (Did (ResponseOut id (take n buf)) :: (Did <$> l))) with (id :: responded (Did <$> l)).
    by rewrite Hl. }
  split.
  - apply responses_ok_app; [apply Hok|]. intros l1 id' resp' l2 El. rewrite fmap_cons in El. remember (Did <$> l) as dl eqn:Edl. destruct l1 as [|x l1].
    { injection El as <- <- _. exists q, z. rewrite app_nil_r. done. }
    exfalso. injection El as _ El. assert (id' ∈ responded (dl ++ [HasZones (dns_zones st)])) as Hin.
    { rewrite El, responded_app. apply elem_of_app. right. by left. } rewrite responded_app, Hl in Hin. by apply elem_of_nil in Hin.
  - rewrite Er. apply NoDup_app. split; [apply Hok|]. split; [|by apply NoDup_singleton]. intros x Hx ->%list_elem_of_singleton. done.
  - rewrite Er. intros x [Hx|Hx%list_elem_of_singleton]%elem_of_app; [by apply (ok_fresh _ _ Hok)|by subst].
  - apply Hok.
  - intros id' t'. cbn [dns_tasks end_task set_tasks set_dns_tunnel]. destruct (decide (id' = id)) as [->|Hne]; [by rewrite lookup_delete_eq|rewrite lookup_delete_ne by done].
    intros E. destruct (ok_tasks _ _ Hok id' t' E) as [(T1 & T2 & T3) T4]. split; [|done]. split; [done|]. split.
    + rewrite Er. intros [Hx|Hx%list_elem_of_singleton]%elem_of_app; done.
    + destruct (task_stage t') as [| |q' r'|q' r' z']; [done|done| |]; destruct T3 as (Hc' & ? & ?); split_and!; try done;
        [by eapply came_now|by apply came_app].
Qed.

Lemma dns_step_ok tr st i st' log : dns_ok tr st → input_ok i → dns_step i st [] = Some (st', log) →
  dns_ok (tr ++ (Did <$> log) ++ [HasZones (dns_zones st')]) st'.
Proof.
  intros Hok Hi E. destruct i as [id received|id|id sent|id sent|id|id outside|zone records ttl shared|to shared|pubkey| |]; cbn [dns_step] in E.
  - destruct (dns_loops st !! id) as [l|] eqn:El; [|done]. cbn in E. destruct (loop_stage l); [|done]. injection E as <- <-.
    eapply (loop_step_ok tr st id l received _ _ 0); [done|done|]. left. split; [done|]. intros data ->. exact Hi.
  - destruct (dns_loops st !! id) as [l|] eqn:El; [|done]. cbn in E. destruct (loop_stage l) as [|n]; [done|]. injection E as E.
    eapply (loop_step_ok tr st id l None _ _ n); [done|done|]. right. by rewrite E.
  - destruct (dns_tasks st !! id) as [t|] eqn:Et; [|done]. cbn in E. destruct (task_stage t) eqn:Es; try done. injection E as E.
    by eapply decapsulate_ok.
  - destruct (dns_tasks st !! id) as [t|] eqn:Et; [|done]. cbn in E. destruct (task_stage t) eqn:Es; try done. injection E as E.
    by eapply handshake_ok.
  - destruct (dns_tasks st !! id) as [t|] eqn:Et; [|done]. cbn in E. destruct (task_stage t) eqn:Es; try done. injection E as <- <-.
    by apply (zones_ok tr st id t packet request_info).
  - destruct (dns_tasks st !! id) as [t|] eqn:Et; [|done]. cbn in E. destruct (task_stage t) eqn:Es; try done. injection E as E.
    by eapply answer_ok.
  - injection E as <- <-. apply (ending_step tr st); unfold ns_upsert; repeat case_match; done.
  - injection E as <- <-. apply (ending_step tr st); unfold ns_forward; repeat case_match; done.
  - injection E as <- <-. unfold set_peer_public_key. destruct (tunn_new _ _); by apply (ending_step tr st).
  - injection E as <- <-. eapply (set_loop_ok tr st); [done|done|cbn; lia|done| |by left]. split; [|done]. apply Forall_replicate. unfold is_uint. lia.
  - injection E as <- <-. unfold ns_stop. destruct (task_handle st) as [h|]; [|by apply (ending_step tr st)].
    eapply (quiet_step tr st); [done|done|done| |by left]. intros id l El. cbn [dns_loops set_loops] in El.
    apply lookup_delete_Some in El as [_ El]. by eapply ok_loops.
Qed.

Lemma dns_history_ok tr st : dns_history tr st → dns_ok tr st.
Proof.
  induction 1 as [bound tun_ok secret public_key port forward_ips exit_dns st E|tr st i st' log Hh IH Hi Hs]; [|by apply (dns_step_ok tr st i)].
  assert (dns_loops st = ∅ ∧ dns_tasks st = ∅) as [Hl Ht] by (unfold local_dns_new in E; repeat (case_match; try done); by simplify_eq).
  split.
  - intros l1 id resp l2 E'. destruct l1 as [|? [|]]; by simplify_eq/=.
  - by apply NoDup_nil.
  - intros id ?%elem_of_nil. done.
  - intros id l. by rewrite Hl.
  - intros id t. by rewrite Ht.
Qed.

(** C14: The resolver answers what it is asked, whatever is changed while queries are on
    their way.  Every response that goes into the tunnel belongs to a packet that came
    out of it before, and no packet has two responses.  Unless the packet is one of TCP,
    it is a DNS query with right checksums for port 53, and the response is a UDP packet
    with right lengths and checksums that goes back to the address and the port that
    asked, and carries what the catalog answers to the query, with the zones as they
    were some time between the two. *)
Theorem dns_answers_queries tr st : dns_history tr st →
  NoDup (responded tr) ∧
  ∀ l1 id resp l2, tr = l1 ++ Did (ResponseOut id resp) :: l2 → ∃ q z, came l1 id q z ∧ responds q z resp.
Proof. intros Hh. destruct (dns_history_ok tr st Hh) as [Hr Ho _ _ _]. split; [exact Ho|exact Hr]. Qed.

(** C28: A query gets its answer: when a datagram of a task holds a query, a permit is
    there, the catalog has an answer and the response fits into 2048 bytes, then the
    task hands a response that answers the query to the tunnel as soon as it has read
    the zones. *)
Theorem dns_query_answered tr st id t n q P m sp tunnel outside dns sent :
  dns_history tr st → dns_tasks st !! id = Some t → task_stage t = Spawned n →
  decapsulate (take n (task_buffer t)) (dns_tunnel st) = (WriteToTunnelV4 q, tunnel) ∨
    decapsulate (take n (task_buffer t)) (dns_tunnel st) = (WriteToTunnelV6 q, tunnel) →
  leases (task_loop t) st < MAX_CONCURRENT_QUERIES → of_version P q → is_query P q m sp →
  catalog_lookup (cz_zones (dns_zones st)) m (socket_addr_new (source_ip (dip_request_info P q)) sp) outside = Some dns →
  ip_header_length (dip_request_info P q) + UDP_HEADER + length dns ≤ MAX_PACKET →
  ∃ st1 st2 st3 resp log, dns_step (DnsDecapsulate id sent) st [] = Some (st1, [PacketIn id q]) ∧
    dns_step (DnsZones id) st1 [] = Some (st2, []) ∧ dns_step (DnsAnswer id outside) st2 [] = Some (st3, ResponseOut id resp :: log) ∧
    replies P (dip_request_info P q) sp 53 dns resp.
Proof.
  intros Hh Ht Hs Hd Hle Hv Hq Hlook Hfit. pose proof (dns_history_ok tr st Hh) as Hok.
  destruct (ok_tasks _ _ Hok id t Ht) as [([Hb Hbl] & _) _].
  assert (is_bytes q) as Hbq.
  { apply (tunnel_bytes (take n (task_buffer t)) (dns_tunnel st)); [by apply Forall_take|]. destruct Hd as [-> | ->]; [by left|by right]. }
  destruct (query_answered P q m sp (dns_zones st) outside dns (task_buffer t) Hv Hq Hbq Hb) as (buf' & Ha & _ & Hrep);
    [rewrite Hbl; vm_compute; reflexivity|exact Hlook|rewrite Hbl; exact Hfit|].
  set (r := mkRequestInfo (dip_request_info P q) (PayloadUdp sp 53 (Some m))) in *.
  set (st1 := set_task id (mkDnsTask (task_loop t) (Parsed q r) (task_buffer t)) (set_dns_tunnel tunnel st)).
  set (st2 := set_task id (mkDnsTask (task_loop t) (Resolving q r (dns_zones st)) (task_buffer t)) st1).
  assert (dns_step (DnsDecapsulate id sent) st [] = Some (st1, [PacketIn id q])) as E1.
  { cbn [dns_step]. rewrite Ht. cbn. rewrite Hs. unfold task_decapsulates.
    destruct Hd as [-> | ->]; cbn [app]; rewrite bool_decide_eq_true_2 by exact Hle; by rewrite (parse_query P q m sp Hv Hq). }
  assert (dns_step (DnsZones id) st1 [] = Some (st2, [])) as E2.
  { assert (dns_tasks st1 !! id = Some (mkDnsTask (task_loop t) (Parsed q r) (task_buffer t))) as Et1 by apply lookup_insert_eq.
    cbn [dns_step]. by rewrite Et1. }
  destruct (encapsulate (take (ip_header_length (dip_request_info P q) + UDP_HEADER + length dns) buf') (dns_tunnel st2)) as [res tunnel'] eqn:Ee.
  eexists st1, st2, _, (take _ buf'), (match res with WriteToNetwork d => [DnsToWg d] | _ => [] end). split; [exact E1|]. split; [exact E2|]. split; [|exact Hrep].
  assert (dns_tasks st2 !! id = Some (mkDnsTask (task_loop t) (Resolving q r (dns_zones st)) (task_buffer t))) as Et2 by apply lookup_insert_eq.
  cbn [dns_step]. rewrite Et2. cbn [mbind option_bind task_stage].
  unfold task_answers. cbn [task_buffer]. rewrite Ha, Ee. cbn [app]. do 2 f_equal. by destruct res.
Qed.

(** *** Permits *)

Definition leased (loop : nat) (m : gmap nat DnsTask) : nat := size (filter (λ x, holds_lease loop x.2 = true) m).

Lemma leased_delete loop id m : leased loop (delete id m) ≤ leased loop m.
Proof. unfold leased. rewrite map_filter_delete, map_size_delete. destruct (filter _ m !! id); cbn; lia. Qed.

(** A task that gets no permit, has one already, or gets one *)
Lemma leased_insert loop id t m :
  leased loop (<[id := t]> m) ≤
    if holds_lease loop t then
      match m !! id with Some t0 => if holds_lease loop t0 then leased loop m else S (leased loop m) | None => S (leased loop m) end
    else leased loop m.
Proof.
  unfold leased. rewrite map_filter_insert. cbn [snd]. destruct (holds_lease loop t) eqn:Et.
  - rewrite decide_True by done. rewrite map_size_insert. destruct (m !! id) as [t0|] eqn:Em.
    + destruct (holds_lease loop t0) eqn:E0.
      * by rewrite (map_lookup_filter_Some_2 _ _ _ _ Em E0).
      * destruct (filter _ m !! id); cbn; lia.
    + destruct (filter _ m !! id); cbn; lia.
  - rewrite decide_False by done. rewrite map_filter_delete, map_size_delete. destruct (filter _ m !! id); cbn; lia.
Qed.

Lemma leased_parsed loop id t n q r m : m !! id = Some t → task_stage t = Spawned n → leased loop m ≤ MAX_CONCURRENT_QUERIES →
  leased (task_loop t) m < MAX_CONCURRENT_QUERIES →
  leased loop (<[id := mkDnsTask (task_loop t) (Parsed q r) (task_buffer t)]> m) ≤ MAX_CONCURRENT_QUERIES.
Proof.
  intros Ht Hs Hle Hlt. etransitivity; [apply leased_insert|]. rewrite Ht. unfold holds_lease. cbn [task_loop task_stage]. rewrite Hs.
  case_bool_decide as E; cbn; [|done]. rewrite <-E. lia.
Qed.

Lemma leases_step i st st' log loop : dns_step i st [] = Some (st', log) → leases loop st ≤ MAX_CONCURRENT_QUERIES →
  leases loop st' ≤ MAX_CONCURRENT_QUERIES.
Proof.
  change (leases loop ?s) with (leased loop (dns_tasks s)). intros E Hle.
  assert (∀ id, leased loop (delete id (dns_tasks st)) ≤ MAX_CONCURRENT_QUERIES) as Hdel by (intros id; etransitivity; [apply leased_delete|done]).
  assert (∀ id t, holds_lease loop t = false → leased loop (<[id := t]> (dns_tasks st)) ≤ MAX_CONCURRENT_QUERIES) as Hins.
  { intros id t Ht. etransitivity; [apply leased_insert|]. by rewrite Ht. }
  destruct i as [id received|id|id sent|id sent|id|id outside|zone records ttl shared|to shared|pubkey| |]; cbn [dns_step] in E.
  - destruct (dns_loops st !! id) as [l|]; [|done]. cbn in E. destruct (loop_stage l); [|done]. injection E as <- <-. by destruct received.
  - destruct (dns_loops st !! id) as [l|]; [|done]. cbn in E. destruct (loop_stage l) as [|n]; [done|]. injection E as E. unfold loop_timers in E.
    destruct (update_timers (dns_tunnel st)) as [[] t]; simplify_eq/=; try done; apply Hins; unfold holds_lease; cbn; by rewrite andb_false_r.
  - destruct (dns_tasks st !! id) as [t|] eqn:Et; [|done]. cbn in E. destruct (task_stage t) as [n| | |] eqn:Es; try done. injection E as E.
    unfold task_decapsulates in E. destruct (decapsulate _ _) as [[] tunnel]; cbn [app] in E; try (injection E as <- <-; apply Hdel).
    + destruct sent; injection E as <- <-; [|apply Hdel]. apply Hins. unfold holds_lease. cbn. by rewrite andb_false_r.
    + case_bool_decide as Hlt; [|injection E as <- <-; apply Hdel]. destruct (parse_request packet); [|injection E as <- <-; apply Hdel].
      injection E as <- <-. by apply (leased_parsed loop id t n).
    + case_bool_decide as Hlt; [|injection E as <- <-; apply Hdel]. destruct (parse_request packet); [|injection E as <- <-; apply Hdel].
      injection E as <- <-. by apply (leased_parsed loop id t n).
  - destruct (dns_tasks st !! id) as [t|]; [|done]. cbn in E. destruct (task_stage t); try done. injection E as E.
    unfold task_handshakes in E. destruct (decapsulate _ _) as [[] tunnel]; try destruct sent; injection E as <- <-; first [done|apply Hdel].
  - destruct (dns_tasks st !! id) as [t|] eqn:Et; [|done]. cbn in E. destruct (task_stage t) as [| |q r|] eqn:Es; try done. injection E as <- <-.
    cbn. etransitivity; [apply leased_insert|]. rewrite Et. unfold holds_lease. cbn. rewrite Es. by destruct (bool_decide _).
  - destruct (dns_tasks st !! id) as [t|]; [|done]. cbn in E. destruct (task_stage t); try done. injection E as E. unfold task_answers in E.
    destruct (answer_request _ _ _ _) as [[n buf]|]; [destruct (encapsulate _ _)|]; injection E as <- <-; apply Hdel.
  - injection E as <- <-. unfold ns_upsert. by repeat case_match.
  - injection E as <- <-. unfold ns_forward. by repeat case_match.
  - injection E as <- <-. unfold set_peer_public_key. by destruct (tunn_new _ _).
  - by injection E as <- <-.
  - injection E as <- <-. unfold ns_stop. by destruct (task_handle st).
Qed.

(** However many queries come at once, each loop has at most 256 tasks that hold a
    parsed query. *)
Theorem dns_concurrency tr st loop : dns_history tr st → leases loop st ≤ MAX_CONCURRENT_QUERIES.
Proof.
  induction 1 as [bound tun_ok secret public_key port forward_ips exit_dns st E|tr st i st' log Hh IH Hi Hs]; [|by eapply leases_step].
  assert (dns_tasks st = ∅) as Ht by (unfold local_dns_new in E; repeat (case_match; try done); by simplify_eq).
  unfold leases. rewrite Ht, map_filter_empty, map_size_empty. lia.
Qed.
End resolver_props.

(** ** Zones *)

Section zone_props.
Context `{!Hickory} `{!Catalogs} `{!HashOrder string} `{!HashOrderLaws string} `{!HashOrder LowerName} `{!HashOrderLaws LowerName}.
Implicit Types (z : ClonableZones).

(** [Catalog::find] finds an authority under its own name. *)
Hypothesis catalog_find_exact : ∀ (m : gmap LowerName DnsAuthority) name auth, m !! name = Some auth → catalog_find m name = Some auth.

(** The names are those of the zones. *)
Definition zones_wf z : Prop := cz_names z = dom (cz_zones z).

Lemma zones_upsert_wf name auth z : zones_wf z → zones_wf (zones_upsert name auth z).
Proof. unfold zones_wf. intros Hz. cbn. by rewrite Hz, dom_insert_L. Qed.

(** A clone of the zones has the same authorities. *)
Lemma zones_clone_same z : zones_wf z → zones_clone z = z.
Proof.
  intros Hz. destruct z as [m names]. unfold zones_wf in Hz. cbn in Hz. subst names. unfold zones_clone. cbn [cz_zones cz_names]. f_equal.
  assert (∀ l m0, (∀ n, n ∈ l → n ∈ dom m) → foldl (λ m' x, <[x.1 := x.2]> m') m0
      (omap (λ name, (λ auth, (name, auth)) <$> catalog_find m name) l) =
    foldl (λ m' n, match m !! n with Some a => <[n := a]> m' | None => m' end) m0 l) as ->.
  { induction l as [|n l IH]; intros m0 Hl; [done|]. destruct (proj1 (elem_of_dom m n) (Hl n ltac:(by left))) as [a Ha].
    csimpl. rewrite (catalog_find_exact m n a Ha), Ha. csimpl. apply IH. intros n' Hn'. apply Hl. by right. }
  - apply map_eq. intros n. assert (∀ l m0, foldl (λ m' n, match m !! n with Some a => <[n := a]> m' | None => m' end) m0 l !! n =
      if decide (n ∈ l) then match m !! n with Some a => Some a | None => m0 !! n end else m0 !! n) as ->.
    { induction l as [|k l IH]; intros m0; [done|]. cbn [foldl]. rewrite IH.
      destruct (decide (n ∈ l)) as [Hin|Hin]; [rewrite decide_True by (by right)|].
      - destruct (m !! n) eqn:En; [done|]. destruct (m !! k) eqn:Ek; [|done]. rewrite lookup_insert_ne; [done|congruence].
      - destruct (decide (n = k)) as [->|Hne].
        + rewrite decide_True by (by left). destruct (m !! k); [by rewrite lookup_insert_eq|done].
        + rewrite decide_False by (rewrite elem_of_cons; tauto). destruct (m !! k); [by rewrite lookup_insert_ne by done|done]. }
    destruct (decide (n ∈ hash_iter (dom m))) as [Hin|Hin]; [by destruct (m !! n)|].
    rewrite lookup_empty. symmetry. apply not_elem_of_dom. by rewrite <-elem_of_hash_iter.
  - intros n Hn. by apply elem_of_hash_iter.
Qed.

Lemma elem_of_iter_records (records : Records) x : x ∈ iter_records records ↔ records !! x.1 = Some x.2.
Proof.
  unfold iter_records. rewrite list_elem_of_omap. destruct x as [name ips]. cbn. split.
  - intros (n & _ & Hn). destruct (records !! n) eqn:E; by simplify_eq/=.
  - intros E. exists name. split; [apply elem_of_hash_iter; by apply elem_of_dom|]. by rewrite E.
Qed.

Lemma address_records_spec ttl l recs : address_records ttl l = Ok recs →
  ∀ rec, rec ∈ recs ↔ ∃ domain ips ip name, (domain, ips) ∈ l ∧ ip ∈ ips ∧ name_parse domain = Some name ∧ rec = build_record ttl name ip.
Proof.
  revert recs. induction l as [|[domain ips] l IH]; intros recs E rec; cbn [address_records] in E.
  - injection E as <-. rewrite elem_of_nil. split; [done|]. by intros (? & ? & ? & ? & ?%elem_of_nil & _).
  - destruct (name_parse domain) as [name|] eqn:En; [|done]. destruct (address_records ttl l) as [recs'|] eqn:El; [|done]. injection E as <-.
    rewrite elem_of_app, (IH _ eq_refl), list_elem_of_fmap. setoid_rewrite elem_of_cons. split.
    + intros [(ip & -> & Hip)|(d & i & ip & n & Hin & Hr)]; [by exists domain, ips, ip, name; split_and!; [left| | |]|].
      exists d, i, ip, n. split; [by right|done].
    + intros (d & i & ip & n & [[=-> ->]|Hin] & Hip & Hn & ->); [left; exists ip; by simplify_eq|right; by exists d, i, ip, n].
Qed.
End zone_props.

Section zone_history.
Context `{DnsPackets} `{!Hickory} `{!Catalogs} `{Tunnels} `{!HashOrder string} `{!HashOrderLaws string} `{!HashOrder LowerName} `{!HashOrderLaws LowerName}.
Implicit Types (st : LocalDnsResolver).
Hypothesis catalog_find_exact : ∀ (m : gmap LowerName DnsAuthority) name auth, m !! name = Some auth → catalog_find m name = Some auth.

Lemma zones_mut_same shared st : zones_wf (dns_zones st) → zones_mut shared st = dns_zones st.
Proof. intros Hz. unfold zones_mut. destruct shared; [by apply zones_clone_same|done]. Qed.

Lemma task_steps_zones i st st' log : dns_step i st [] = Some (st', log) →
  match i with DnsUpsert _ _ _ _ | DnsForward _ _ => True | _ => dns_zones st' = dns_zones st end.
Proof.
  intros E. destruct i as [id received|id|id sent|id sent|id|id outside|zone records ttl shared|to shared|pubkey| |]; cbn [dns_step] in E; [..|done|done| | |].
  1,2: destruct (dns_loops st !! id) as [l|]; [|done]; cbn in E; destruct (loop_stage l); try done.
  3-6: destruct (dns_tasks st !! id) as [t|]; [|done]; cbn in E; destruct (task_stage t); try done.
  - injection E as <- <-. by destruct received.
  - unfold loop_timers in E. by destruct (update_timers _) as [[] ?]; simplify_eq/=.
  - unfold task_decapsulates in E. destruct (decapsulate _ _) as [[] ?]; simplify_eq/=; repeat (case_match; simplify_eq/=); done.
  - unfold task_handshakes in E. destruct (decapsulate _ _) as [[] ?]; simplify_eq/=; repeat (case_match; simplify_eq/=); done.
  - by injection E as <- <-.
  - unfold task_answers in E. repeat (case_match; simplify_eq/=); done.
  - injection E as <- <-. unfold set_peer_public_key. by destruct (tunn_new _ _).
  - by injection E as <- <-.
  - injection E as <- <-. unfold ns_stop. by destruct (task_handle st).
Qed.

Lemma dns_history_zones tr st : dns_history tr st → zones_wf (dns_zones st).
Proof.
  induction 1 as [bound tun_ok secret public_key port forward_ips exit_dns st E|tr st i st' log Hh IH Hi Hs].
  - unfold local_dns_new in E. repeat (case_match; try done); injection E as <-; by apply (zones_upsert_wf _ _ zones_new).
  - pose proof (task_steps_zones i st st' log Hs) as Hz. destruct i; try (by rewrite Hz); cbn [dns_step] in Hs; injection Hs as <- <-.
    + unfold ns_upsert. repeat case_match; cbn [snd dns_zones set_zones]; rewrite ?zones_mut_same by done; try done. by apply zones_upsert_wf.
    + unfold ns_forward. repeat case_match; cbn [snd dns_zones set_zones]; rewrite ?zones_mut_same by done; try done. by apply zones_upsert_wf.
Qed.

(** C29: An update of the records changes exactly its zone, whether queries hold the zones
    at that moment or not: a successful one replaces the authority of the zone by one
    that has, behind the record of its start, exactly the records of the addresses of
    the names; a failed one changes nothing; and the queries that are on
    their way keep the zones that they have. *)
Theorem dns_zone_updates tr st zone records ttl shared : dns_history tr st →
  let '(res, st') := ns_upsert zone records ttl shared st in
  dns_tasks st' = dns_tasks st ∧
  match res with
  | Err _ => dns_zones st' = dns_zones st
  | Ok _ => ∃ name origin soa recs, lower_from_str zone = Some name ∧ name_from_str zone = Some origin ∧
      cz_zones (dns_zones st') = <[name := AuthoritativeZone origin (soa :: recs)]> (cz_zones (dns_zones st)) ∧
      ∀ rec, rec ∈ recs ↔ ∃ domain ips ip n, records !! domain = Some ips ∧ ip ∈ ips ∧ name_parse domain = Some n ∧ rec = build_record ttl n ip
  end.
Proof.
  intros Hh. pose proof (dns_history_zones tr st Hh) as Hz. unfold ns_upsert.
  destruct (authoritative_zone_new zone records ttl) as [azone|e] eqn:Ea; [|done].
  destruct (lower_from_str zone) as [name|]; [|by rewrite zones_mut_same]. split; [done|]. rewrite zones_mut_same by done.
  unfold authoritative_zone_new in Ea. destruct (List.find _ _); [done|]. destruct (name_from_str zone) as [origin|]; [|done].
  destruct (name_parse "mesh.nordsec.com.") as [mname|]; [|done]. destruct (name_parse "support.nordsec.com.") as [rname|]; [|done].
  destruct (address_records ttl (iter_records records)) as [recs|] eqn:Er; [|done]. injection Ea as <-.
  exists name, origin. eexists _, recs. split; [done|]. split; [done|]. split; [done|]. intros rec. rewrite (address_records_spec _ _ _ Er).
  setoid_rewrite elem_of_iter_records. done.
Qed.
End zone_history.

(** ** What does not work

    The answer to a packet of TCP, a reset, goes to the wrong port: the ports of the
    request are not swapped.  Its header has the length that happens to be in the
    buffer, which is the datagram that was received, and with IPv6 it is announced as
    UDP. *)
Lemma tcp_reset_is_malformed `{DnsPackets} `{!DnsPacketsLaws} `{!Hickory} r sp dp seq buf n buf' :
  request_payload r = PayloadTcp sp dp seq → is_uint 16 sp → is_uint 16 dp →
  build_response_packet r [] buf = Ok (n, buf') →
  let h := ip_header_length (request_ip r) in let t := take TCP_MIN_HEADER (drop h (take n buf')) in
  view_get dt DtSource t = sp ∧ view_get dt DtDestination t = dp ∧
  view_get dt DtDataOffset t = view_get dt DtDataOffset (take TCP_MIN_HEADER (drop h buf)).
Proof.
  intros Hp Hsp Hdp E. unfold build_response_packet in E. rewrite Hp in E. destruct (build_ip_header _ _ buf) as [[h b]|] eqn:Eh; [|done].
  assert (drop h b = drop h buf) as Hbuf.
  { unfold build_ip_header in Eh. destruct (request_ip r); case_match; simplify_eq;
      [by rewrite !(law_set_behind _ _ d4_header)|by rewrite !(law_set_behind _ _ d6_header)]. }
  apply build_ip_header_length in Eh as [-> Hl]. unfold build_payload in E. rewrite Hp in E. unfold write_range in E.
  case_bool_decide as Hfit; [|done]. set (h := ip_header_length (request_ip r)) in *.
  replace (h + TCP_MIN_HEADER - h) with TCP_MIN_HEADER in E by lia. rewrite Hbuf in E. set (b0 := take TCP_MIN_HEADER (drop h buf)) in *.
  assert (length b0 = TCP_MIN_HEADER) as Hl0 by (unfold b0; rewrite length_take, length_drop; unfold TCP_MIN_HEADER in *; lia).
  pose proof dt_laws as Hv. assert (view_new dt b0 = true) as Hn by (rewrite (law_view_new _ _ dt_header), Hl0; by apply bool_decide_eq_true_2).
  rewrite Hn in E. set (t := view_set dt DtChecksum _ _) in E. injection E as <- <-.
  assert (length t = TCP_MIN_HEADER) as Hlt by (unfold t; by rewrite !(law_length_set _ _ Hv)).
  assert (drop h (take (h + TCP_MIN_HEADER) (list_inserts h t b)) = t) as Ht by (rewrite <-Hlt; apply tail_of_response; rewrite Hlt; lia).
  cbv zeta. rewrite Ht, (take_ge t) by lia. fold b0. unfold t.
  split_and!; rewrite !(law_get_set_ne _ _ Hv) by set_side Hv Hn; [by rewrite (law_get_set _ _ Hv) by set_side Hv Hn..|done].
Qed.

Lemma ipv6_reset_is_udp `{DnsPackets} `{!DnsPacketsLaws} `{!Hickory} r n buf b : (∃ s d, request_ip r = IpRequestV6 s d) → info_ok (request_ip r) →
  build_ip_header r n buf = Ok (IPV6_HEADER, b) → view_get d6 D6NextHeader b = IpNextHeaderProtocols.Udp.
Proof.
  intros (s & d & Er) Hok E. unfold build_ip_header in E. rewrite Er in *. destruct (view_new d6 buf) eqn:Hn; [|done]. injection E as <-.
  pose proof d6_laws as Hv. rewrite !(law_get_set_ne _ _ Hv), (law_get_set _ _ Hv) by set_side Hv Hn. done.
Qed.

(** The resolver of a forwarding zone never makes an error out of no error. *)
Lemma forward_lookup_returns {L} (resolve : result ResolveErrorKind L) : forward_lookup resolve ≠ Panics.
Proof. by destruct resolve as [|[[]|]]. Qed.

(** A name is only tested for having the name of the zone somewhere. *)
Example zone_test_is_loose : str_contains "nord" "nordic.example" = true.
Proof. done. Qed.

(** With an exit node, the servers that queries are forwarded to are not addresses of
    the resolver itself. *)
Lemma forwards_leave_the_resolver `{IpNets} `{!IpNetsLaws} ip net : ip ∈ default_dns_servers →
  (net ∈ exit_connected_dns_allowed_ips → ipnet_addr net ≠ ip) ∧ ∃ net', net' ∈ default_dns_allowed_ips ∧ ipnet_addr net' = ip.
Proof.
  intros Hip. split.
  - intros (a & Ha & Hn)%list_elem_of_omap. rewrite (ipnet_new_addr _ _ _ Hn). clear Hn. intros ->. unfold default_dns_servers in Hip.
    rewrite !elem_of_cons, elem_of_nil in Ha, Hip. destruct Ha as [->|[->|[]]]; destruct Hip as [E|[E|[]]]; vm_compute in E; discriminate.
  - assert (ip ∈ [V4 (ipv4_addr 100 64 0 2); V4 (ipv4_addr 100 64 0 3); dns_v6 2; dns_v6 3]) as Hin.
    { unfold default_dns_servers in Hip. rewrite !elem_of_cons in *. rewrite elem_of_nil in *. naive_solver. }
    destruct (proj2 (ipnet_new_Some ip (addr_bits ip))) as [net' Hn]; [destruct ip; cbn; lia|].
    exists net'. split; [|by eapply ipnet_new_addr]. apply list_elem_of_omap. by exists ip.
Qed.

Module DnsSamples.
#[local] Existing Instance RfcDns.packets.
#[local] Existing Instance RfcDns.packets_laws.

(** Names are texts, and a message is what is in the packet. *)
#[local] Instance texts : Hickory := {|
  Name := string; name_from_str := Some; name_parse := Some; LowerName := string; LowerName_eq_dec := _; LowerName_countable := _;
  lower_from_str := Some; MessageRequest := bytes; message_from_bytes b := match b with [] => None | _ => Some b end
|}.

(** A catalog that answers with the number of its zones *)
#[local] Instance counting : Catalogs := {|
  Outside := unit; catalog_find m name := m !! name; catalog_lookup m _ _ _ := Some [Z.of_nat (size m) `mod` 256]%Z
|}.

(** A tunnel that encrypts nothing *)
#[local] Instance plain : Tunnels := {|
  Tunn := unit; tunn_new _ _ := Some tt; update_timers t := (TunnDone, t);
  encapsulate b t := (WriteToNetwork b, t);
  decapsulate b t := (match b with [] => TunnDone | _ => WriteToTunnelV4 b end, t);
  dalek_public_key _ := mkPublicKey []
|}.
#[local] Instance strings_order : HashOrder string := elements_order.
#[local] Instance strings_order_laws : HashOrderLaws string := elements_order_laws.
#[local] Instance names_order : HashOrder LowerName := elements_order.
#[local] Instance names_order_laws : HashOrderLaws LowerName := elements_order_laws.

Lemma counting_bytes m q a o dns : catalog_lookup m q a o = Some dns → is_bytes dns.
Proof. cbn [catalog_lookup counting]. intros [= <-]. apply Forall_singleton. apply (Z.mod_pos_bound _ 256). lia. Qed.

Lemma plain_bytes b t p : is_bytes b → (decapsulate b t).1 = WriteToTunnelV4 p ∨ (decapsulate b t).1 = WriteToTunnelV6 p → is_bytes p.
Proof. intros Hb. destruct b; cbn; intros [|]; by simplify_eq. Qed.

(** A query from port 40000 of 100.64.0.9 to the resolver *)
Definition client : Z := ipv4_addr 100 64 0 9.
Definition server0 : Z := ipv4_addr 100 64 0 2.
Definition query0 : bytes :=
  match build_response_packet (mkRequestInfo (IpRequestV4 server0 client 0 0 64 7) (PayloadUdp 53 40000 None)) [1; 2; 3]%Z (replicate 31 0%Z) with
  | Ok (n, b) => take n b
  | Err _ => []
  end.
Definition version0 : DnsIpPacket := dns_ipv4.

Definition start0 : LocalDnsResolver :=
  mkLocalDnsResolver (mkSecretKey (replicate 32 1%Z)) 5353 (SocketAddrV4 (ipv4_addr 127 0 0 1) 51820) false
    (zones_upsert ("." : LowerName) (forward_authority ("." : Name) [SocketAddrV4 (ipv4_addr 8 8 8 8) 53] (mkForwardOptions true false 1 0)) zones_new) tt None ∅ ∅ 0.

Lemma start0_history : dns_history [HasZones (dns_zones start0)] start0.
Proof.
  apply (Dns_new (Some 5353%Z) true (mkSecretKey (replicate 32 1%Z)) (mkPublicKey []) 51820 [V4 (ipv4_addr 8 8 8 8)] None). reflexivity.
Qed.

Fixpoint dns_run (l : list DnsInput) (x : list DnsTrace * LocalDnsResolver) : option (list DnsTrace * LocalDnsResolver) :=
  match l with
  | [] => Some x
  | i :: l =>
      match dns_step i x.2 [] with
      | Some (st, log) => dns_run l (x.1 ++ (Did <$> log) ++ [HasZones (dns_zones st)], st)
      | None => None
      end
  end.

Lemma dns_run_history l : ∀ x y, dns_history x.1 x.2 → Forall input_ok l → dns_run l x = Some y → dns_history y.1 y.2.
Proof.
  induction l as [|i l IH]; intros x y Hx Hl E; cbn [dns_run] in E; [by injection E as <-|]. apply Forall_cons in Hl as [Hi Hl].
  destruct (dns_step i x.2 []) as [[st log]|] eqn:Es; [|done]. eapply (IH _ y); [|done|exact E]. by eapply (Dns_step x.1 x.2 i).
Qed.

Definition received0 : list DnsInput := [DnsStart; DnsDatagram 0 (Some query0); DnsTimers 0].
Definition answered0 : list DnsInput :=
  received0 ++ [DnsDecapsulate 1 true; DnsZones 1; DnsUpsert "nord" {["alpha.nord" := [V4 (ipv4_addr 100 64 0 5)]]} 60 true; DnsAnswer 1 tt].

Lemma query0_bytes : is_bytes query0.
Proof. apply (bool_decide_unpack _). vm_compute. reflexivity. Qed.

Lemma inputs_received : Forall input_ok received0.
Proof. apply Forall_cons; split; [exact I|]. apply Forall_cons; split; [exact query0_bytes|]. apply Forall_cons; split; [exact I|]. apply Forall_nil_2. Qed.

Lemma inputs0 : Forall input_ok answered0.
Proof. apply Forall_app_2; [exact inputs_received|]. do 4 (apply Forall_cons; split; [exact I|]). apply Forall_nil_2. Qed.

(** The trace and the state after some of these steps *)
Definition after (l : list DnsInput) : list DnsTrace * LocalDnsResolver := default ([], start0) (dns_run l ([HasZones (dns_zones start0)], start0)).

Lemma after_history l : Forall input_ok l → is_Some (dns_run l ([HasZones (dns_zones start0)], start0)) → dns_history (after l).1 (after l).2.
Proof.
  intros Hl [y Hy]. unfold after. rewrite Hy. by apply (dns_run_history l ([HasZones (dns_zones start0)], start0) y start0_history).
Qed.

Lemma answered0_history : dns_history (after answered0).1 (after answered0).2.
Proof. apply after_history; [exact inputs0|]. apply (bool_decide_unpack _). vm_compute. reflexivity. Qed.

Lemma received0_history : dns_history (after received0).1 (after received0).2.
Proof. apply after_history; [exact inputs_received|]. apply (bool_decide_unpack _). vm_compute. reflexivity. Qed.

Lemma dns_answers_queries_witness : responded (after answered0).1 = [1] ∧
  ∀ l1 id resp l2, (after answered0).1 = l1 ++ Did (ResponseOut id resp) :: l2 → ∃ q z, came l1 id q z ∧ responds q z resp.
Proof.
  split; [vm_compute; reflexivity|].
  apply (dns_answers_queries counting_bytes plain_bytes (after answered0).1 (after answered0).2 answered0_history).
Defined.

Lemma dns_concurrency_witness : leases 0 (after answered0).2 ≤ MAX_CONCURRENT_QUERIES.
Proof. apply (dns_concurrency (after answered0).1 (after answered0).2 0 answered0_history). Defined.

Lemma dns_zone_updates_witness : ∃ name origin soa recs,
  lower_from_str "nord" = Some name ∧ name_from_str "nord" = Some origin ∧
  cz_zones (dns_zones (ns_upsert "nord" {["alpha.nord" := [V4 (ipv4_addr 100 64 0 5)]]} 60 true (after received0).2).2) =
    <[name := AuthoritativeZone origin (soa :: recs)]> (cz_zones (dns_zones (after received0).2)).
Proof.
  pose proof (dns_zone_updates (λ m name auth Hm, Hm) (after received0).1 (after received0).2 "nord"
    {["alpha.nord" := [V4 (ipv4_addr 100 64 0 5)]]} 60 true received0_history) as Hu.
  assert (match (ns_upsert "nord" {["alpha.nord" := [V4 (ipv4_addr 100 64 0 5)]]} 60 true (after received0).2).1 with Ok _ => true | Err _ => false end
    = true) as E by (vm_compute; reflexivity).
  destruct (ns_upsert _ _ _ _ _) as [[u|e] st']; [|discriminate E]. destruct Hu as [_ (name & origin & soa & recs & H1 & H2 & H3 & _)].
  exists name, origin, soa, recs. exact (conj H1 (conj H2 H3)).
Defined.

(** The task of the query, as it was spawned *)
Definition task0 : DnsTask := mkDnsTask 0 (Spawned 31) (query0 ++ replicate 2017 0%Z).

Lemma dns_query_answered_witness : ∃ st1 st2 st3 resp log,
  dns_step (DnsDecapsulate 1 true) (after received0).2 [] = Some (st1, [PacketIn 1 query0]) ∧ dns_step (DnsZones 1) st1 [] = Some (st2, []) ∧
  dns_step (DnsAnswer 1 tt) st2 [] = Some (st3, ResponseOut 1 resp :: log) ∧
  replies dns_ipv4 (dip_request_info dns_ipv4 query0) 40000 53 [1]%Z resp.
Proof.
  apply (dns_query_answered counting_bytes plain_bytes (after received0).1 (after received0).2 1 task0 31 query0 dns_ipv4 [1; 2; 3]%Z 40000 tt tt [1]%Z true
    received0_history).
  - vm_compute. reflexivity.
  - reflexivity.
  - left. vm_compute. reflexivity.
  - apply (bool_decide_unpack _). vm_compute. reflexivity.
  - exists 69%Z. split; [vm_compute; reflexivity|]. left. split; [vm_compute; reflexivity|reflexivity].
  - repeat apply conj; vm_compute; reflexivity.
  - vm_compute. reflexivity.
  - apply (bool_decide_unpack _). vm_compute. reflexivity.
Defined.
End DnsSamples.
